(* ===== verification/_CoqProject ===== *)
-Q . S2P
Prelude.v
Sql.v
Domain.v
StateMachine.v
Vocabulary.v
SchedPolicy.v
Store.v
TxLogic.v
Scope.v
Repos.v
Findings.v
Jobs.v
Issuer.v
Claim.v
Reports.v
Recovery.v
Invariant.v
Preservation.v
System.v
Fixture.v
Isolation.v
Guarantees.v
JobTheorems.v
Liveness.v
FindingTheorems.v
ReportTheorems.v
Completion.v
RecoveryTheorems.v
CredentialTheorems.v
Buffers.v
Budgets.v
JsonString.v
Text.v
Utf8.v
Fingerprint.v
QuoteSearch.v
Citation.v
CitationTheorems.v
Canary.v
CanaryTheorems.v
ModelBroker.v
ModelBrokerTheorems.v
McpFraming.v
LlmFinding.v
InventoryManifest.v
Render.v
RenderTheorems.v
ReportReader.v
McpArguments.v
McpSession.v
McpSessionTheorems.v
RepoCache.v
RepoCacheTheorems.v
Email.v
Dispatch.v
GithubApp.v
SourceDiscovery.v
SourceDiscoveryTheorems.v
Server.v
Router.v
RouterLogic.v
RouterTheorems.v
Revocation.v
Denials.v
AdmissionPolicy.v
PhaseStore.v
PhaseControl.v
CampaignWork.v
CampaignFlow.v
PhaseLogic.v
PhaseInvariant.v
CampaignInvariant.v
PhaseSystem.v
PhaseTheorems.v
CampaignTheorems.v
CampaignOpening.v
PhaseWitnesses.v
CampaignWitnesses.v
GitCredentials.v
GitCredentialTheorems.v
