(* ===== verification/Prelude.v ===== *)
(** * Loupe: a verification development

    Loupe is a server that schedules security scans of registered
    repositories, hands them to workers under leases, collects and verifies
    their findings, lets operators approve or reject them, and reports the
    confirmed ones.  Everything it decides is decided in one SQLite database,
    by the transactions of [crates/loupe-storage] over the domain types and
    state machines of [crates/loupe-core]; the HTTP server, the worker and the
    command line call those transactions.  This library models that core (the
    domain, both state machines, the tables, every transaction of the job
    queue, of findings, of reports, of the registry, of recovery and of
    maintenance, and the authority a caller needs to run them), the control of
    review campaigns beside it (policies, budgets, generations, handoffs, the
    lifecycle of phase jobs, coverage, and the workflow that opens, pins,
    advances and ends a campaign), the layers of the server around it (request
    bodies and budgets, decoding and validation of text, authentication,
    capabilities, the handlers and their router) and what leaves it (the
    rendering and the delivery of reports, the tokens it is sent with); and
    proves what the rest of the program relies on.  Of the worker it models what
    stands between a scan and the outside: the helper that hands a token to Git, the
    cache of clones, the discovery of the files to review, the canary and the
    quarantine of a job, the broker of requests to the model, and the broker of
    the agent's tools with the checks of what the agent submits.

    ** Files and the code they model

    (paths relative to [src/crates/])

    - [Prelude]: results, checked and wrapping 64-bit arithmetic, strings as
      lists of bytes, record update, the [loupe] hint database, [bool_prop].
    - [Sql]: a table as a finite map from row ids to rows, with the statements
      the code issues (select, order by, limit, count, insert with a fresh row
      id, update, delete) and their laws.
    - [Domain]: [loupe-core/src/{severity,job,finding_state,verdict,finding,
      repo,report_limits,error}.rs].
    - [StateMachine]: [loupe-core/src/state_machine.rs], as functions and as
      the step relations they generate.
    - [Vocabulary]: the error vocabulary of [loupe-storage/src/{review,db}.rs]
      and the ownership decision of [scope.rs] ([Scope::admits], [check]).
    - [SchedPolicy]: [scheduler/policy.rs] and the policies of [scheduler.rs].
    - [Store]: the tables, unique indexes, foreign keys and cascades of
      [migrations.rs] and [migrations/v3/schema.rs], as the record [Db], and
      the transaction monad [Tx]: a transaction maps a database to a result and
      a new database, or to an error and no database at all, which is the
      rollback of [transaction.rs] and [db.rs].
    - [TxLogic]: inversion lemmas and the tactic [tx_inv] for [Tx].
    - [Scope], [Issuer]: the capabilities of [scope.rs]: repository scopes,
      assignment scopes, and the two functions that issue them,
      [with_operator_repository] and [with_active_lease]; a handle records which
      commit flags were published.
    - [Repos]: Modules [Secrets], [GithubAppStore], [Repos], [Workers] and
      [Registry], for [secrets.rs], [github_app.rs], [repos.rs], [workers.rs]
      and [registry.rs].
    - [Findings]: [findings.rs].
    - [Jobs]: [jobs.rs].
    - [Claim]: [scheduler/claim.rs] and [scheduler.rs::claim]: the one claim
      query with its eligibility, priority, aging and ordering.
    - [Reports]: [reports.rs] and what it reads of [finding_details.rs]:
      prepared reports, receipts, and the transactions of workers and operators
      that end in a report.
    - [Recovery]: [recovery.rs] and [maintenance.rs].
    - [System]: all operations as one type [Op], their meaning [exec] on an open
      handle, and sequences of them from a fresh database.
    - [Invariant], [Preservation]: the invariant [Inv] of the store, the
      relation [evolves] between an earlier and a later database, and that
      every operation keeps the one and is an instance of the other.
    - [Isolation], [Guarantees], [JobTheorems], [Liveness],
      [FindingTheorems], [ReportTheorems], [Completion], [RecoveryTheorems],
      [CredentialTheorems]: the theorems; [Fixture]: the concrete runs their
      witnesses evaluate.
    - [Buffers]: [loupe-http/src/lib.rs] and the request buffer of
      [loupe-server/src/ingress/mod.rs]; [Budgets]:
      [loupe-server/src/request_budget.rs].
    - [JsonString], [Text]: [loupe-core/src/text/]: the bounded decoder of JSON
      string literals, the field policies, identifiers and repository paths.
    - [LlmFinding]: the admission of agent findings,
      [loupe-proto/src/job_io.rs] and [ingress/jobs.rs].
    - [InventoryManifest]: [loupe-core/src/inventory_manifest.rs].
    - [Render], [Email]: [reporters/render.rs], the issue body and labels of
      [reporters/github.rs], and [reporters/email.rs], as a builder monad;
      [RenderTheorems], [ReportReader]: their theorems and the reader of a
      rendered body.
    - [Dispatch]: the delivery of a prepared report: [reporters/github.rs],
      [reporters/mod.rs], [routes/jobs.rs::dispatch_prepared] and
      [state.rs::check_github_app_target_owner].
    - [Server]: [auth.rs], [job_capability.rs] and the handlers of
      [routes/{jobs,findings_admin,repos,workers,github_app}.rs] in a state and
      error monad over the application state; [Router]: [router.rs].
    - [RouterLogic]: a trace logic for handlers; [RouterTheorems],
      [Revocation], [Denials]: what requests do.
    - [AdmissionPolicy]: [admission_policy.rs], [loupe-core/src/review_priority.rs]
      and the choice of a pool of [admission.rs].
    - [PhaseStore]: the tables of [migrations/v3/schema.rs] and
      [migrations/v7/schema.rs] that control campaigns, as the record [PhaseDb]
      with its transactions [PTx], and what the modules share of [review.rs],
      [ownership.rs] and [inventory.rs].
    - [PhaseControl]: Modules [Admission] ([admission.rs]), [Generations]
      ([generations.rs]), [Campaigns] ([campaigns.rs]), [Intents]
      ([review_intents.rs], [unit_holds.rs::block_job_work]), [Lifecycle]
      ([phase_lifecycle.rs], the readers of [ingress/lifecycle.rs]) and
      [Preparation] ([admission_preparation.rs]).
    - [CampaignWork]: Modules [Cover] ([review_coverage.rs], the unit
      predicates of [review_units.rs], the rollup of [generations.rs]), [Work]
      ([campaign_work.rs]) and [Ending] (the summaries and terminal updates of
      [campaigns.rs]).
    - [CampaignFlow]: Modules [FollowUp]
      ([loupe-core/src/pending_follow_up.rs]), [Workflow]
      ([campaign_workflow.rs]) and [Compatibility] ([review_compatibility.rs],
      the operator's reset of a generation with the cascades of the schema).
    - [PhaseLogic], [PhaseInvariant], [CampaignInvariant]: the invariant [PInv]
      of the phase tables, the relation [evolves_p], the rules of [maintains]
      and [frame], and that every operation maintains both; what survives a
      reset, which maintains the invariant only.
    - [PhaseSystem]: these operations as one type [PhaseOp], interleaved with
      resets and the rest of the program ([outside]); [later] relates a database
      to every one it can become.
    - [PhaseTheorems], [CampaignTheorems], [CampaignOpening]: the theorems;
      [PhaseWitnesses], [CampaignWitnesses]: the runs their witnesses evaluate.
    - [GithubApp]: [reporters/github_app.rs], the minting and the cache of
      installation tokens, with its theorem.
    - [GitCredentials], [GitCredentialTheorems]:
      [loupe-worker/src/git_credentials.rs], the credential helper of the
      worker, and its theorems.
    - [Utf8]: the standard library's UTF-8 decoder, which the worker's files use.
    - [Fingerprint], [QuoteSearch], [Citation], [CitationTheorems]:
      [loupe-worker/src/fingerprint.rs], [mcp/citation.rs] and
      [mcp/citation/fingerprint.rs]: the check of what a finding cites, in one pass
      over the file, against the definition over the whole file.
    - [Canary], [CanaryTheorems]: [canary.rs] and [canary/observe.rs]: the
      observer of records, the canary key, the quarantine and guarded work.
    - [ModelBroker], [ModelBrokerTheorems]: [llm/model_broker.rs] and
      [llm/model_broker/]: Modules [Policy], [Headers], [Usage] and [Proxy].
    - [McpFraming]: [mcp/framing.rs]; [McpArguments]: [mcp/ingress.rs] and
      [ingress_text.rs], the records and the arguments of the tools; [McpSession],
      [McpSessionTheorems]: [mcp.rs], the session, as a state and error monad with a
      counter of the questions put to the outside.
    - [RepoCache], [RepoCacheTheorems]: [repo_cache.rs] and
      [loupe-core/src/repo.rs::validate_repo_components], over a directory tree.
    - [SourceDiscovery], [SourceDiscoveryTheorems]: [source_discovery.rs], in a monad
      that numbers the questions put to the cancellation token.

    ** What the theorems show

    - For the whole system, over every sequence of operations: the invariant
      holds ([invariant_always_holds]); rows move only along the two state
      machines ([operations_refine_the_machines]); nothing that needed a
      verification is accepted without one ([accepted_findings_were_verified]);
      a rejection is final ([rejection_is_final]); leases and capabilities are
      exclusive ([leases_are_exclusive]); the queue drains
      ([queue_drains]); a worker only ever reaches the
      repository of its live lease ([workers_stay_in_their_repository]); and no
      repository loses the credential its reports need
      ([report_credentials_stay_available]).
    - For single operations, what they do on every branch: claim, heartbeat,
      completion, cancellation, retry, reaping, the completed scan, rollup,
      approval and rejection, the validating deadline, the preparation and
      marking of reports, recovery and scheduling.
    - For the server: every request of [Router.Request], whoever sends it and
      however others interleave with it, refines one operation of [System] by an
      authenticated caller with the role of the route
      ([requests_refine_operations]), so everything shown for sequences of
      operations holds of the running server; a revoked certificate is refused
      for ever ([revoked_certificates_are_refused]); capability denials are
      uniform for well-formed bodies of the worker's protocol version
      ([capability_denials_are_uniform]); consumption stays within
      the worker's budgets ([budgets_bound_consumption],
      [enforced_requests_are_paid]), where a charge may be taken after one with a
      later time, as the code reads the clock before it takes the lock, and the
      bound grows by what such a delay forgets
      ([late_charge_exceeds_the_bucket]); bodies and string literals are collected
      and decoded exactly within their caps ([bodies_are_exact],
      [decode_json_string_bounded_spec], [text_fields_are_validated]).
    - For reports: the rendered issue is exact and within GitHub's limits, and
      nothing a finding contains can forge a part of it
      ([issue_bodies_are_exact], [issue_bodies_read_back]); mail headers cannot
      be injected ([mail_reads_back]); and findings are marked exactly when
      their issue or message was accepted
      ([dispatch_marks_what_it_delivered]).
    - For campaigns, along every run of the phase operations interleaved with
      resets by operators and anything else the rest of the program may do to the
      tables (the relation [outside]): no campaign is charged beyond the budget it froze
      ([campaign_budgets_hold]); handoffs of leads and findings are revisioned
      and admitted for one job each, and only a reset removes one, of a lead
      ([handoffs_are_revisioned]); at most one
      generation of a repository is active and only its successor replaces it
      ([activation_succeeds_the_active_generation]); a failed attempt is
      retried exactly when it may be and otherwise leaves no admitted handoff
      ([failed_attempts_are_retried_or_ended]); the queue of a campaign can
      always be cancelled ([queued_work_is_cancelled]); and no heartbeat moves
      a lease past its deadline ([heartbeats_respect_the_deadline]).  A request
      opens a campaign only in a repository without an active one, with one
      charged job, and is otherwise coalesced ([campaigns_open_once],
      [follow_ups_coalesce]); a campaign is pinned to one commit and generation
      ([pinning_fixes_the_commit]) and keeps its terms, and once ended
      everything but a generation that is reset
      ([campaigns_keep_their_terms]); it ends only with its work
      settled, as completed only with complete coverage
      ([campaigns_end_settled]), does end after its deadline
      ([expired_campaigns_end]), and stops when cancelled
      ([cancelled_campaigns_stop]).
    - For the worker's credentials: its Git token is given only to a request for the
      destination of the operation ([credentials_reach_only_their_destination]);
      requests, rewritten URLs and the helper's command line are read exactly
      ([credential_requests_are_parsed_exactly],
      [projections_carry_no_userinfo], [git_runs_with_its_own_configuration]);
      what leaves the model broker goes to the provider's endpoint with the host's
      credential and the configured model only ([provider_traffic_is_governed],
      [request_policy_is_enforced]), within the ceilings however sessions interleave
      ([usage_ceilings_hold]); and from the first disclosure of the canary or of
      a watched credential the job does nothing more, while records whose strings
      hold none quarantine nothing ([disclosures_quarantine_the_job]).
    - For the agent's tools: records are framed exactly however the stream is cut
      ([records_are_framed_exactly]); a tool runs only with arguments that are
      typed as its schema says ([tool_calls_are_typed]); a citation is accepted exactly
      when the file says it ([citations_are_exact]); and every session ends, having
      posted only findings that were checked, nothing while quarantined, and at
      most the one verdict its agent was told is locked, given a checkout that
      gains no files meanwhile ([sessions_report_what_was_checked]).
    - For clones and checkouts: keys name directories inside the cache
      ([restart_finds_every_clone]), eviction is least recently used and minimal
      ([eviction_is_least_recently_used]), a refresh leaves what is in use
      ([refresh_keeps_what_is_in_use]), cursors read back ([cursors_read_back]);
      discovery returns exactly the files to review, or nothing when cancelled, and
      none outside the checkout ([discovery_is_exact]).  Two weaknesses are shown
      as theorems: a pin taken while an eviction is under way is not honoured
      ([pins_taken_during_eviction_are_lost]), and a checkout below a directory with
      an excluded name is not reviewed at all
      ([excluded_locations_hide_the_checkout]).
    - For the GitHub App: a token is used only for the repository it was minted for and
      only within the cache period ([tokens_are_for_their_repository]).
    - For pure code: the wire vocabularies, the state machines, the ownership
      decision against its specification, the retry backoff at its 64-bit
      bounds, the sanitised full-text query, repository paths, the admission of
      agent findings, and that the digest of an inventory identifies it
      ([inventory_digests_identify_manifests]).

    ** Conventions

    - [i64] values are [Z].  Additions the code checks are checked here;
      additions it leaves unchecked wrap ([wrapping_add]).  A new row gets one
      more than the largest id of its table; when that is the largest 64-bit
      number the insert fails ([RowIdsExhausted]), where SQLite would first try
      random ids.
    - A row holds decoded values: reading a row does not fail.  Times, random
      capabilities and report identities are arguments of the operations, as
      the code obtains them outside the transaction or from its caller; a
      failing source of report identities is the [Err] case of that argument.
    - Statements are atomic and check unique indexes when they end.  Their loops
      run over finite selections and are structural.  The loops with fuel are
      the decoder of string literals, the observer of records and the loop of a
      tool session, which are given the length of their input (plus one where
      a last turn ends them) and consume at least one byte a turn, and the
      fall back of the quote search, which is given the matched length and shortens
      it every turn.  So the fuel never runs out, and the theorems state
      results, not results of those runs that happen to end.
    - Requests run concurrently over one database.  A handler's accesses to it
      are atomic; what other requests did between two of them is an arbitrary
      list of operations, [gap i] before the [i]-th access.  GitHub, the
      installation tokens and the mail program are an [Oracle]: functions of
      what was sent so far.  [reqwest::Url::parse] is the parameter [url_parse];
      what a read of a socket returns is a list of [Arrival]s, of which a missed
      deadline is a failing one.  [blake3], the certificate fingerprint and the
      Unicode general category are parameters.  A handler takes its request
      decoded, or the status the decoder answered; messages of errors are not
      modelled.
    - Of the phase tables a stored policy or profile is the value its strict
      reader decodes, or marked unreadable ([StoredPolicy], [StoredProfile]).
      Of a unit's references and a result's payload the columns hold what the
      SQL functions of [ingress/coverage.rs] read from them (paths, epoch,
      whether it is tagged).  The record [Externals] holds what is not modelled
      of the JSON layer: whether a text is a document within the payload limits
      ([json_payload]), the texts of recipes and counts ([recipe_json],
      [counts_json], [counts_canonical]) and the canonical form of a checked
      document ([checked_payload]); every theorem holds for all of them, but that
      [expired_campaigns_end] needs the counts to print within 200 bytes a group.
    - Witnesses are evaluated runs of [exec_all] or [run_phase] from the empty
      database, or evaluated requests.

    ** What is not modelled

    Of the campaign runtime, the integrity scan of stored candidates that
    precedes an advance and the tick over all campaigns ([advance_checked],
    [tick]), the claim of campaign work, the recording of review units, results
    and leads, proofs, evidence, inventory and terminal
    payloads are represented only by the columns and rows the modelled
    operations read; [Db] and [PhaseDb] are two views of one database, and what
    happens in the one is [outside] of the other.  Of [outside] code, what
    writes campaigns is the pin by a worker's host
    ([review_authority/host/pin.rs]: [host_pin] in [CampaignOpening]) and what
    writes handoffs is [admission_quarantine.rs]; both are represented by what
    they may do to these tables.  Deleting a repository is not a step of the
    phase runs.  What a claim does with a
    campaign row after selecting it is the parameter [phase_tail]; the legacy
    claim, the only one here, provably never reaches it.  The campaign part of
    [reap_stale_leases], the full-text index and its ranking, security events,
    logging, the connection mutex and failures of commit are not modelled; nor
    are, of the server, the routes without a constructor of [Router.Request]:
    the lease request with its long poll, the phase routes, the reset of a
    generation (of which [Compatibility] has the transaction), the search of
    findings, plain listings of repositories, the App's metadata and the health
    probe.  Heartbeat, completion and cancellation are bound to the handlers of
    [routes/jobs.rs]: the branches of [routes/review_lifecycle.rs] for phase
    leases are not modelled.  Nor are serde decoding,
    HTTP exchanges, background timers, configuration and TLS; nor, of the worker,
    processes, sockets, the sandbox, the runner and the prompts, which are
    orchestration of the operating system and of other programs; nor the command
    line and the web front end, which present what the server answers.

    ** Next

    What would come next, in order: the rest of [unit_holds.rs]; the claim of
    campaign work ([admission_claim.rs], [phase_tail]) with the scan and the tick
    over it, and the lease handler; the review payloads of the core
    ([review_payload.rs]) and the persisted projections of inventory paths; the
    runner of the worker. *)

From Stdlib Require Import ZArith Lia.
From stdpp Require Import base gmap sets list strings sorting numbers.
Local Open Scope Z_scope.

Declare Scope loupe_scope.
Delimit Scope loupe_scope with loupe.

(** Automation of the development: [loupe] holds the lemmas that close the
    common side goals. *)
Create HintDb loupe discriminated.

(** ** Results: Rust's [Result<A, E>] *)

Inductive result (E A : Type) : Type :=
| Ok (a : A)
| Err (e : E).
Arguments Ok {E A} a.
Arguments Err {E A} e.

#[export] Instance result_ret {E} : MRet (result E) := fun A a => Ok a.
#[export] Instance result_bind {E} : MBind (result E) := fun A B f m =>
  match m with Ok a => f a | Err e => Err e end.

#[export] Instance result_eq_dec {E A} `{EqDecision E} `{EqDecision A} :
  EqDecision (result E A).
Proof. solve_decision. Defined.

(** [Option::ok_or] *)
Definition ok_or {E A} (o : option A) (e : E) : result E A :=
  match o with Some a => Ok a | None => Err e end.

(** [Result::map_err] *)
Definition map_err {E F A} (f : E -> F) (r : result E A) : result F A :=
  match r with Ok a => Ok a | Err e => Err (f e) end.

Definition is_ok {E A} (r : result E A) : bool :=
  match r with Ok _ => true | Err _ => false end.

Lemma result_bind_Ok {E A B} (m : result E A) (f : A -> result E B) b :
  (m ≫= f) = Ok b <-> exists a, m = Ok a /\ f a = Ok b.
Proof.
  split; [|intros (a & -> & H); exact H].
  destruct m as [a|e]; cbn; intros H; [by exists a|discriminate].
Qed.

Lemma map_err_Ok {E F A} (f : E -> F) (r : result E A) a : map_err f r = Ok a <-> r = Ok a.
Proof. destruct r; cbn; split; congruence. Qed.

Lemma result_bind_Err {E A B} (m : result E A) (f : A -> result E B) e :
  (m ≫= f) = Err e <-> m = Err e \/ exists a, m = Ok a /\ f a = Err e.
Proof.
  split; [|intros [->|(a & -> & H)]; [done|exact H]].
  destruct m as [a|e']; cbn; intros H; [right; by exists a|left; congruence].
Qed.

Lemma ok_or_Ok {E A} (o : option A) (e : E) a : ok_or o e = Ok a <-> o = Some a.
Proof. destruct o; cbn; naive_solver. Qed.

(** ** Record update: [r <|field := v|>]

    A record that gives its eta expansion as an [Eta] instance has every field
    settable; the update reduces under projections for a variable record. *)

Class Eta (R : Type) := eta : R -> R.
Class Setter {R T : Type} (proj : R -> T) := over : (T -> T) -> R -> R.

Ltac build_setter :=
  lazymatch goal with
  | |- @Setter ?R ?T ?proj =>
      let inst := constr:(_ : Eta R) in
      let r := fresh "r" in
      let f := fresh "f" in
      refine (fun (f : T -> T) (r : R) => _);
      let inst' := eval hnf in inst in
      let body := eval cbv beta in (inst' r) in
      let abs := eval pattern (proj r) in body in
      lazymatch abs with
      | ?F _ => let res := eval cbv beta in (F (f (proj r))) in exact res
      end
  end.
#[export] Hint Extern 1 (Setter _) => build_setter : typeclass_instances.

Notation "r '<|' p ':=' v '|>'" := (over (proj:=p) (fun _ => v) r)
  (at level 1, left associativity, p at level 9, v at level 200) : loupe_scope.
#[global] Open Scope loupe_scope.

(** ** Rust strings

    A [str] is the sequence of its Unicode scalar values; [len] is the length
    of its UTF-8 encoding. *)

Abbreviation str := (list Z).

(** An ASCII literal of the source. *)
Definition lit (s : string) : str :=
  (fun a => Z.of_N (Ascii.N_of_ascii a)) <$> String.list_ascii_of_string s.

(** [char::len_utf8] *)
Definition len_utf8 (c : Z) : Z :=
  if c <? 128 then 1 else if c <? 2048 then 2 else if c <? 65536 then 3 else 4.

(** [str::len] *)
Definition str_len (s : str) : Z := foldr (fun c n => len_utf8 c + n) 0 s.

(** [char::is_whitespace]: the Unicode [White_Space] property. *)
Definition is_whitespace (c : Z) : bool :=
  ((9 <=? c) && (c <=? 13)) || (c =? 32) || (c =? 133) || (c =? 160) ||
  (c =? 5760) || ((8192 <=? c) && (c <=? 8202)) || (c =? 8232) || (c =? 8233) ||
  (c =? 8239) || (c =? 8287) || (c =? 12288).

Fixpoint drop_while (p : Z -> bool) (s : str) : str :=
  match s with
  | [] => []
  | c :: s' => if p c then drop_while p s' else s
  end.

(** [str::trim] *)
Definition trim (s : str) : str :=
  reverse (drop_while is_whitespace (reverse (drop_while is_whitespace s))).

(** [str::is_empty] *)
Definition str_is_empty (s : str) : bool :=
  match s with [] => true | _ => false end.

(** [s == t] *)
Definition str_eqb (s t : str) : bool := bool_decide (s = t).

Lemma str_eqb_eq s t : str_eqb s t = true <-> s = t.
Proof. unfold str_eqb. by rewrite bool_decide_eq_true. Qed.

Lemma str_len_nonneg s : 0 <= str_len s.
Proof.
  induction s as [|c s IH]; [done|]. cbn. fold (str_len s).
  unfold len_utf8. repeat case_match; lia.
Qed.

Lemma str_len_app s t : str_len (s ++ t) = str_len s + str_len t.
Proof. induction s as [|c s IH]; [done|]. cbn. fold (str_len (s ++ t)) (str_len s). lia. Qed.

Lemma len_utf8_pos c : 1 <= len_utf8 c.
Proof. unfold len_utf8. repeat case_match; lia. Qed.

Lemma str_len_length s : Z.of_nat (length s) <= str_len s.
Proof.
  induction s as [|c s IH]; [done|]. pose proof (len_utf8_pos c). cbn -[Z.of_nat]. fold (str_len s). lia.
Qed.

(** ** Machine integers *)

Definition i64_min : Z := -9223372036854775808.
Definition i64_max : Z := 9223372036854775807.
Definition u32_max : Z := 4294967295.

Definition in_i64 (z : Z) : bool := (i64_min <=? z) && (z <=? i64_max).

Definition to_i64 (z : Z) : option Z := if in_i64 z then Some z else None.

(** [i64::checked_add], [checked_sub], [checked_mul], [checked_pow] *)
Definition checked_add (a b : Z) : option Z := to_i64 (a + b).
Definition checked_sub (a b : Z) : option Z := to_i64 (a - b).
Definition checked_mul (a b : Z) : option Z := to_i64 (a * b).
Definition checked_pow (a n : Z) : option Z := to_i64 (a ^ n).

(** [usize] of a 64-bit target: [usize::MAX], [checked_add], [checked_mul] *)
Definition usize_max : Z := 18446744073709551615.
Definition to_usize (z : Z) : option Z := if (0 <=? z) && (z <=? usize_max) then Some z else None.
Definition usize_add (a b : Z) : option Z := to_usize (a + b).
Definition usize_mul (a b : Z) : option Z := to_usize (a * b).

(** [i64::saturating_mul] *)
Definition saturating_mul (a b : Z) : Z := Z.max i64_min (Z.min i64_max (a * b)).

(** [u32::saturating_sub] *)
Definition saturating_sub_u32 (a b : Z) : Z := Z.max 0 (a - b).

(** [i64] addition without overflow checks (release builds wrap). *)
Definition wrapping_add (a b : Z) : Z :=
  (a + b + 9223372036854775808) mod 18446744073709551616 - 9223372036854775808.

Lemma in_i64_iff z : in_i64 z = true <-> i64_min <= z <= i64_max.
Proof. unfold in_i64. rewrite andb_true_iff, !Z.leb_le. done. Qed.

Lemma to_i64_Some z y : to_i64 z = Some y <-> y = z /\ i64_min <= z <= i64_max.
Proof.
  unfold to_i64. destruct (in_i64 z) eqn:E.
  - rewrite in_i64_iff in E. naive_solver.
  - split; [done|]. intros [_ H]. apply in_i64_iff in H. congruence.
Qed.

Lemma to_i64_None z : to_i64 z = None <-> z < i64_min \/ i64_max < z.
Proof.
  unfold to_i64. destruct (in_i64 z) eqn:E.
  - rewrite in_i64_iff in E. split; [done|lia].
  - split; [|done]. intros _.
    destruct (decide (i64_min <= z <= i64_max)) as [H|H]; [|lia].
    apply in_i64_iff in H. congruence.
Qed.

Lemma wrapping_add_in_range a b :
  i64_min <= a + b <= i64_max -> wrapping_add a b = a + b.
Proof.
  unfold wrapping_add, i64_min, i64_max. intros H. rewrite Z.mod_small; lia.
Qed.

(** ** SQL comparisons on nullable integer columns: [NULL] compares as false *)

Definition sql_lt (o : option Z) (z : Z) : bool :=
  match o with Some a => a <? z | None => false end.
Definition sql_ge (o : option Z) (z : Z) : bool :=
  match o with Some a => z <=? a | None => false end.
Definition sql_eq (o : option Z) (z : Z) : bool :=
  match o with Some a => a =? z | None => false end.
Definition sql_null {A} (o : option A) : bool :=
  match o with Some _ => false | None => true end.
Definition sql_some {A} (o : option A) : bool := negb (sql_null o).

(** [COALESCE(a, b)] *)
Definition coalesce {A} (a b : option A) : option A :=
  match a with Some _ => a | None => b end.

Lemma sql_lt_true o z : sql_lt o z = true <-> exists a, o = Some a /\ a < z.
Proof. destruct o; cbn; rewrite ?Z.ltb_lt; naive_solver. Qed.
Lemma sql_ge_true o z : sql_ge o z = true <-> exists a, o = Some a /\ z <= a.
Proof. destruct o; cbn; rewrite ?Z.leb_le; naive_solver. Qed.
Lemma sql_eq_true o z : sql_eq o z = true <-> o = Some z.
Proof. destruct o; cbn; rewrite ?Z.eqb_eq; naive_solver. Qed.
Lemma sql_null_true {A} (o : option A) : sql_null o = true <-> o = None.
Proof. destruct o; naive_solver. Qed.
Lemma sql_some_true {A} (o : option A) : sql_some o = true <-> is_Some o.
Proof. destruct o; cbn; unfold is_Some; naive_solver. Qed.

(** ** Tactics *)

(** Turn boolean tests in the context into the propositions they decide. *)
Ltac bool_prop :=
  cbv beta in *;
  repeat match goal with
  | H : (_ && _) = true |- _ => apply andb_true_iff in H as [? ?]
  | H : (_ || _) = false |- _ => apply orb_false_iff in H as [? ?]
  | H : negb _ = true |- _ => apply negb_true_iff in H
  | H : negb _ = false |- _ => apply negb_false_iff in H
  | H : (_ =? _)%Z = true |- _ => apply Z.eqb_eq in H
  | H : (_ =? _)%Z = false |- _ => apply Z.eqb_neq in H
  | H : (_ <? _)%Z = true |- _ => apply Z.ltb_lt in H
  | H : (_ <? _)%Z = false |- _ => apply Z.ltb_ge in H
  | H : (_ <=? _)%Z = true |- _ => apply Z.leb_le in H
  | H : (_ <=? _)%Z = false |- _ => apply Z.leb_gt in H
  | H : bool_decide _ = true |- _ => apply bool_decide_eq_true in H
  | H : bool_decide _ = false |- _ => apply bool_decide_eq_false in H
  | H : str_eqb _ _ = true |- _ => apply str_eqb_eq in H
  | H : sql_lt _ _ = true |- _ => apply sql_lt_true in H as (? & ? & ?)
  | H : sql_ge _ _ = true |- _ => apply sql_ge_true in H as (? & ? & ?)
  | H : sql_eq _ _ = true |- _ => apply sql_eq_true in H
  | H : sql_null _ = true |- _ => apply sql_null_true in H
  | H : sql_some _ = true |- _ => apply sql_some_true in H
  end.

(** Case analysis on the boolean tests of the goal. *)
Ltac case_tests :=
  repeat match goal with
  | |- context [if ?b then _ else _] =>
      lazymatch b with context [if _ then _ else _] => fail | _ => destruct b eqn:? end
  end.
