(* ===== verification/Sql.v ===== *)
(** * SQL statements on tables

    The storage layer runs SQL on tables keyed by an [INTEGER PRIMARY KEY].
    A table is a finite map from row ids to rows, and a statement is a function
    on tables: [sql_update] is [UPDATE .. SET .. WHERE ..], [sql_delete] is
    [DELETE .. WHERE ..], [sql_exists] is [SELECT EXISTS(..)], [sql_select] is
    a [SELECT] in row-id order, [sql_sort] an [ORDER BY] and [sql_limit] a
    [LIMIT].  [next_rowid] is the id SQLite gives an inserted row, and
    [unique_on] the test of a (partial) unique index. *)

From S2P Require Import Prelude.
From Stdlib Require Import ZArith Lia.
From stdpp Require Import base gmap sets list sorting numbers.
Local Open Scope Z_scope.

Section Tables.
  Context {R : Type}.
  Implicit Types (P : R -> bool) (f : R -> R) (t : gmap Z R) (r : R).

Definition sql_update P f t : gmap Z R := (fun r => if P r then f r else r) <$> t.

Definition sql_delete P t : gmap Z R := filter (fun kr => P kr.2 = false) t.

Definition rowid_le (a b : Z * R) : Prop := a.1 <= b.1.
#[export] Instance rowid_le_dec : RelDecision rowid_le.
Proof. intros a b. unfold rowid_le. apply _. Defined.

(** All rows, in row-id order. *)
Definition sql_rows t : list R := (merge_sort rowid_le (map_to_list t)).*2.

Definition sql_select P t : list R := filter (fun r => P r = true) (sql_rows t).

Definition sql_count P t : Z := Z.of_nat (length (sql_select P t)).

Definition sql_exists P t : bool := existsb P (sql_rows t).

(** [LIMIT n]: a negative limit is no limit. *)
Definition sql_limit (n : Z) (l : list R) : list R :=
  if n <? 0 then l else take (Z.to_nat n) l.

(** The row id of an insert: one more than the largest id in use, 1 in an
    empty table; [None] when the largest id is taken. *)
Definition max_rowid t : option Z :=
  foldr (fun k m => match m with None => Some k | Some m => Some (Z.max k m) end)
    None (map_to_list t).*1.

Definition next_rowid t : option Z :=
  match max_rowid t with
  | None => Some 1
  | Some m => if m =? i64_max then None else Some (m + 1)
  end.

Lemma lookup_sql_update P f t i :
  sql_update P f t !! i = (fun r => if P r then f r else r) <$> t !! i.
Proof. apply lookup_fmap. Qed.

Lemma lookup_sql_update_Some P f t i r' :
  sql_update P f t !! i = Some r' <->
  exists r, t !! i = Some r /\ r' = if P r then f r else r.
Proof.
  rewrite lookup_sql_update, fmap_Some. naive_solver.
Qed.

Lemma lookup_sql_delete_Some P t i r :
  sql_delete P t !! i = Some r <-> t !! i = Some r /\ P r = false.
Proof. unfold sql_delete. by rewrite map_lookup_filter_Some. Qed.

Lemma sql_rows_perm t : sql_rows t ≡ₚ (map_to_list t).*2.
Proof. unfold sql_rows. by rewrite merge_sort_Permutation. Qed.

Lemma elem_of_sql_rows t r : r ∈ sql_rows t <-> exists i, t !! i = Some r.
Proof.
  rewrite sql_rows_perm, list_elem_of_fmap. split.
  - intros [[i r'] [-> H]]. apply elem_of_map_to_list in H. eauto.
  - intros [i H]. exists (i, r). split; [done|]. by apply elem_of_map_to_list.
Qed.

Lemma elem_of_sql_select P t r :
  r ∈ sql_select P t <-> P r = true /\ exists i, t !! i = Some r.
Proof. unfold sql_select. by rewrite list_elem_of_filter, elem_of_sql_rows. Qed.

Lemma sql_exists_true P t :
  sql_exists P t = true <-> exists i r, t !! i = Some r /\ P r = true.
Proof.
  unfold sql_exists. rewrite existsb_exists. split.
  - intros (r & Hr & HP). apply list_elem_of_In, elem_of_sql_rows in Hr as [i Hi]. eauto.
  - intros (i & r & Hi & HP). exists r. split; [|done].
    apply list_elem_of_In, elem_of_sql_rows. eauto.
Qed.

Lemma sql_exists_false P t :
  sql_exists P t = false <-> forall i r, t !! i = Some r -> P r = false.
Proof.
  split.
  - intros H i r Hi. destruct (P r) eqn:E; [|done].
    rewrite <- H. symmetry. apply sql_exists_true. eauto.
  - intros H. destruct (sql_exists P t) eqn:E; [|done].
    apply sql_exists_true in E as (i & r & Hi & HP). naive_solver.
Qed.

Lemma sql_select_nil P t :
  sql_select P t = [] <-> forall i r, t !! i = Some r -> P r = false.
Proof.
  split.
  - intros H i r Hi. destruct (P r) eqn:E; [|done].
    assert (r ∈ sql_select P t) as Hin by (apply elem_of_sql_select; eauto).
    rewrite H in Hin. by apply not_elem_of_nil in Hin.
  - intros H. apply elem_of_nil_inv. intros r [HP [i Hi]]%elem_of_sql_select.
    rewrite (H _ _ Hi) in HP. done.
Qed.

Lemma sql_count_pos P t :
  0 < sql_count P t <-> exists i r, t !! i = Some r /\ P r = true.
Proof.
  unfold sql_count. rewrite <- sql_exists_true.
  destruct (sql_exists P t) eqn:E.
  - split; [done|]. intros _. apply sql_exists_true in E as (i & r & Hi & HP).
    destruct (sql_select P t) eqn:E2; [|cbn; lia].
    pose proof (proj1 (sql_select_nil P t) E2 i r Hi). congruence.
  - split; [|done]. rewrite (proj2 (sql_select_nil P t) (proj1 (sql_exists_false P t) E)).
    cbn. lia.
Qed.

Lemma sql_count_nonneg P t : 0 <= sql_count P t.
Proof. unfold sql_count. lia. Qed.

Lemma sql_count_zero P t :
  sql_count P t = 0 <-> forall i r, t !! i = Some r -> P r = false.
Proof.
  split.
  - intros H i r Hi. destruct (P r) eqn:E; [|done].
    assert (0 < sql_count P t) by (apply sql_count_pos; eauto). lia.
  - intros H. unfold sql_count. by rewrite (proj2 (sql_select_nil P t) H).
Qed.

Lemma sql_update_id P f t :
  (forall i r, t !! i = Some r -> P r = false) -> sql_update P f t = t.
Proof.
  intros H. apply map_eq. intros i. rewrite lookup_sql_update.
  destruct (t !! i) eqn:E; cbn; [|done]. by rewrite (H _ _ E).
Qed.

Lemma sql_update_ext P P' f t : (forall r, P r = P' r) -> sql_update P f t = sql_update P' f t.
Proof. intros HP. apply map_fmap_ext. intros i r _. by rewrite HP. Qed.

(** [UPDATE .. WHERE id=?1] on a table keyed by its id column. *)
Lemma sql_update_by_id (rid : R -> Z) f t i r :
  (forall k x, t !! k = Some x -> rid x = k) -> t !! i = Some r ->
  sql_update (fun x => rid x =? i) f t = <[i := f r]> t.
Proof.
  intros Hid Hr. apply map_eq. intros k. rewrite lookup_sql_update.
  destruct (decide (k = i)) as [->|Hne].
  - rewrite Hr, lookup_insert_eq. cbn. by rewrite (Hid _ _ Hr), Z.eqb_refl.
  - rewrite lookup_insert_ne by done. destruct (t !! k) as [x|] eqn:Hx; [|done]. cbn.
    rewrite (Hid _ _ Hx). by destruct (Z.eqb_spec k i).
Qed.

(** ** Statements that can only pick the row [k] *)

Definition picks P t (k : Z) : Prop := forall i r, t !! i = Some r -> P r = true -> i = k.

Lemma sql_update_picks P f t k :
  picks P t k ->
  sql_update P f t =
    match t !! k with Some r => if P r then <[k := f r]> t else t | None => t end.
Proof.
  intros Hk. destruct (t !! k) as [r|] eqn:Hr; [destruct (P r) eqn:HP|].
  - apply map_eq. intros i. rewrite lookup_sql_update. destruct (decide (i = k)) as [->|Hne].
    + by rewrite Hr, lookup_insert_eq; cbn; rewrite HP.
    + rewrite lookup_insert_ne by done. destruct (t !! i) as [x|] eqn:Hx; [|done]. cbn.
      destruct (P x) eqn:HPx; [|done]. by apply (Hk i x) in HPx.
  - apply sql_update_id. intros i x Hx. destruct (P x) eqn:HPx; [|done].
    pose proof (Hk _ _ Hx HPx). congruence.
  - apply sql_update_id. intros i x Hx. destruct (P x) eqn:HPx; [|done].
    pose proof (Hk _ _ Hx HPx). congruence.
Qed.

Lemma sql_select_size P t : length (sql_select P t) = size (filter (fun kr => P kr.2 = true) t).
Proof.
  assert (map_to_list (filter (fun kr => P kr.2 = true) t) ≡ₚ
    filter (fun kr : Z * R => P kr.2 = true) (map_to_list t)) as Hp.
  { apply NoDup_Permutation; [apply NoDup_map_to_list|apply list.NoDup_filter, NoDup_map_to_list|].
    intros [i r]. rewrite list_elem_of_filter, !elem_of_map_to_list, map_lookup_filter_Some.
    cbn. tauto. }
  unfold sql_select. rewrite sql_rows_perm, <- length_map_to_list, Hp.
  generalize (map_to_list t). intros l. induction l as [|[i r] l IH]; [done|].
  rewrite fmap_cons, !filter_cons. cbn. case_decide; cbn; congruence.
Qed.

Lemma sql_select_picks P t k :
  picks P t k ->
  sql_select P t = match t !! k with Some r => if P r then [r] else [] | None => [] end.
Proof.
  intros Hk. destruct (t !! k) as [r|] eqn:Hr; [destruct (P r) eqn:HP|].
  - assert (filter (fun kr => P kr.2 = true) t = {[k := r]}) as Hf.
    { apply map_eq. intros i. apply option_eq. intros x.
      rewrite map_lookup_filter_Some, lookup_singleton_Some. cbn. split; [|by intros [<- <-]].
      intros [Hx HPx]. pose proof (Hk _ _ Hx HPx). split; congruence. }
    pose proof (sql_select_size P t) as Hl. rewrite Hf, map_size_singleton in Hl.
    assert (r ∈ sql_select P t) as Hin by (apply elem_of_sql_select; eauto).
    destruct (sql_select P t) as [|x [|y l]]; [done| |done].
    by apply list_elem_of_singleton in Hin as ->.
  - apply sql_select_nil. intros i x Hx. destruct (P x) eqn:HPx; [|done].
    pose proof (Hk _ _ Hx HPx). congruence.
  - apply sql_select_nil. intros i x Hx. destruct (P x) eqn:HPx; [|done].
    pose proof (Hk _ _ Hx HPx). congruence.
Qed.

Lemma sql_count_picks P t k :
  picks P t k ->
  sql_count P t = match t !! k with Some r => if P r then 1 else 0 | None => 0 end.
Proof.
  intros Hk. unfold sql_count. rewrite (sql_select_picks _ _ _ Hk).
  destruct (t !! k); [|done]. by destruct (P _).
Qed.

(** Rows keyed by their id column are selected once each. *)
Lemma sql_select_NoDup (rid : R -> Z) P t :
  (forall i r, t !! i = Some r -> rid r = i) -> NoDup (rid <$> sql_select P t).
Proof.
  intros Hid. assert (rid <$> sql_rows t = (merge_sort rowid_le (map_to_list t)).*1) as Hk.
  { unfold sql_rows. rewrite <- list_fmap_compose. apply list_fmap_ext. intros n [i r] Hn. cbn.
    apply list_elem_of_lookup_2 in Hn. rewrite merge_sort_Permutation in Hn.
    apply elem_of_map_to_list in Hn. by apply Hid. }
  assert (NoDup (rid <$> sql_rows t)) as Hnd.
  { rewrite Hk, merge_sort_Permutation. apply NoDup_fst_map_to_list. }
  apply NoDup_fmap_2_strong.
  - intros x y (_ & i & Hx)%elem_of_sql_select (_ & j & Hy)%elem_of_sql_select Hxy.
    pose proof (Hid _ _ Hx). pose proof (Hid _ _ Hy). congruence.
  - apply list.NoDup_filter. by apply NoDup_fmap_1 in Hnd.
Qed.

(** ** Counting *)

Lemma sql_count_empty P : sql_count P ∅ = 0.
Proof. apply sql_count_zero. intros i r Hr. by rewrite lookup_empty in Hr. Qed.

Lemma sql_count_insert P t i r :
  t !! i = None -> sql_count P (<[i := r]> t) = (if P r then 1 else 0) + sql_count P t.
Proof.
  intros Hi. unfold sql_count. rewrite !sql_select_size, map_filter_insert. cbn [snd].
  case_decide as HP.
  - rewrite HP, map_size_insert_None; [lia|]. rewrite map_lookup_filter, Hi. done.
  - destruct (P r); [done|]. by rewrite delete_id.
Qed.

Lemma sql_count_ext P P' t :
  (forall i r, t !! i = Some r -> P r = P' r) -> sql_count P t = sql_count P' t.
Proof.
  induction t as [|i r t Hi IH] using map_ind; intros HP; [by rewrite !sql_count_empty|].
  rewrite !sql_count_insert, IH, (HP i r); [done|apply lookup_insert_eq| |done|done].
  intros j x Hx. apply (HP j). rewrite lookup_insert_ne; [done|]. intros <-. congruence.
Qed.

Lemma sql_count_update P Q f t :
  sql_count P (sql_update Q f t) = sql_count (fun r => P (if Q r then f r else r)) t.
Proof.
  induction t as [|i r t Hi IH] using map_ind.
  - unfold sql_update. by rewrite fmap_empty, !sql_count_empty.
  - unfold sql_update. rewrite fmap_insert. fold (sql_update Q f t).
    rewrite !sql_count_insert, IH; [done|done|]. by rewrite lookup_sql_update, Hi.
Qed.

Lemma sql_count_split P Q t :
  (forall r, P r = true -> Q r = true -> False) ->
  sql_count P t + sql_count Q t = sql_count (fun r => P r || Q r) t.
Proof.
  intros Hd. induction t as [|i r t Hi IH] using map_ind; [by rewrite !sql_count_empty|].
  rewrite !sql_count_insert, <- IH by done.
  destruct (P r) eqn:HP, (Q r) eqn:HQ; cbn; try lia. exfalso. eauto.
Qed.

Lemma sql_delete_id P t : (forall i r, t !! i = Some r -> P r = false) -> sql_delete P t = t.
Proof.
  intros HP. apply map_eq. intros i. apply option_eq. intros r.
  rewrite lookup_sql_delete_Some. split; [by intros [? _]|]. eauto.
Qed.

Lemma max_rowid_None t : max_rowid t = None <-> t = ∅.
Proof.
  unfold max_rowid. rewrite <- map_to_list_empty_iff.
  destruct (map_to_list t) as [|x l]; cbn; [done|].
  destruct (foldr _ None l.*1); naive_solver.
Qed.

Lemma max_rowid_ge t i r m : t !! i = Some r -> max_rowid t = Some m -> i <= m.
Proof.
  unfold max_rowid. intros Hi%elem_of_map_to_list. revert m.
  induction (map_to_list t) as [|[k x] l IH]; intros m; cbn.
  - by apply not_elem_of_nil in Hi.
  - destruct (foldr _ None l.*1) as [m'|] eqn:E; intros [= <-];
      apply elem_of_cons in Hi as [[= -> ->]|Hi]; try lia.
    + specialize (IH Hi m' eq_refl). lia.
    + destruct l as [|[k' x'] l]; [by apply not_elem_of_nil in Hi|].
      cbn in E. destruct (foldr _ None l.*1); done.
Qed.

(** A fresh row id names no row. *)
Lemma next_rowid_fresh t i : next_rowid t = Some i -> t !! i = None.
Proof.
  unfold next_rowid. destruct (max_rowid t) as [m|] eqn:E.
  - destruct (m =? i64_max) eqn:Em; [done|]. intros [= <-].
    destruct (t !! (m + 1)) as [r|] eqn:Hr; [|done].
    pose proof (max_rowid_ge _ _ _ _ Hr E). lia.
  - intros [= <-]. apply max_rowid_None in E as ->. apply lookup_empty.
Qed.

Lemma next_rowid_lt t i j r :
  next_rowid t = Some i -> t !! j = Some r -> j < i.
Proof.
  unfold next_rowid. destruct (max_rowid t) as [m|] eqn:E.
  - destruct (m =? i64_max) eqn:Em; [done|]. intros [= <-] Hr.
    pose proof (max_rowid_ge _ _ _ _ Hr E). lia.
  - apply max_rowid_None in E as ->. by rewrite lookup_empty.
Qed.

End Tables.

(** ** Unique indexes

    [key] is the indexed column of a row, [None] where the row is outside a
    partial index or the column is [NULL]. *)
Section Unique.
  Context {R K : Type} `{EqDecision K}.
  Implicit Types (key : R -> option K) (t : gmap Z R).

Definition unique_on key t : bool := bool_decide (NoDup (omap key (sql_rows t))).

Definition unique_key key t : Prop :=
  forall i j ri rj k, t !! i = Some ri -> t !! j = Some rj ->
    key ri = Some k -> key rj = Some k -> i = j.

Lemma NoDup_omap_pairs key (l : list (Z * R)) :
  NoDup l.*1 ->
  NoDup (omap key l.*2) <->
  (forall i j ri rj k, (i, ri) ∈ l -> (j, rj) ∈ l ->
    key ri = Some k -> key rj = Some k -> i = j).
Proof.
  induction l as [|[i r] l IH]; cbn; intros Hnd.
  - split; [|constructor]. intros _ ????? H. by apply not_elem_of_nil in H.
  - apply list.NoDup_cons in Hnd as [Hi Hnd]. specialize (IH Hnd).
    assert (forall ri, (i, ri) ∉ l) as Hil.
    { intros ri Hri. apply Hi. apply list_elem_of_fmap. by exists (i, ri). }
    destruct (key r) as [k|] eqn:Hk.
    + rewrite list.NoDup_cons, IH. split.
      * intros [Hkn Hu] a b ra rb k' Ha Hb Hka Hkb.
        apply elem_of_cons in Ha as [[= -> ->]|Ha];
          apply elem_of_cons in Hb as [[= -> ->]|Hb]; [done| | |by eapply Hu].
        -- exfalso. apply Hkn, list_elem_of_omap. exists rb. split; [|congruence].
           apply list_elem_of_fmap. by exists (b, rb).
        -- exfalso. apply Hkn, list_elem_of_omap. exists ra. split; [|congruence].
           apply list_elem_of_fmap. by exists (a, ra).
      * intros Hu. split.
        -- intros [x [Hx Hkx]]%list_elem_of_omap.
           apply list_elem_of_fmap in Hx as [[b rb] [-> Hb]].
           assert (i = b) as <-; [|by eapply Hil].
           eapply (Hu i b r rb k); [by left|by right|done..].
        -- intros a b ra rb k' Ha Hb. apply Hu; by right.
    + rewrite IH. split.
      * intros Hu a b ra rb k' Ha Hb Hka Hkb.
        apply elem_of_cons in Ha as [[= -> ->]|Ha]; [congruence|].
        apply elem_of_cons in Hb as [[= -> ->]|Hb]; [congruence|]. by eapply Hu.
      * intros Hu a b ra rb k' Ha Hb. apply Hu; by right.
Qed.

Lemma unique_on_true key t : unique_on key t = true <-> unique_key key t.
Proof.
  unfold unique_on, unique_key. rewrite bool_decide_eq_true.
  assert (NoDup (merge_sort rowid_le (map_to_list t)).*1) as Hnd.
  { rewrite merge_sort_Permutation. apply NoDup_fst_map_to_list. }
  unfold sql_rows. rewrite (NoDup_omap_pairs key _ Hnd).
  setoid_rewrite merge_sort_Permutation. setoid_rewrite elem_of_map_to_list. done.
Qed.

(** An update that can only take rows out of the index keeps it unique. *)
Lemma unique_on_update key P f t :
  (forall r k, P r = true -> key (f r) = Some k -> key r = Some k) ->
  unique_on key t = true -> unique_on key (sql_update P f t) = true.
Proof.
  rewrite !unique_on_true. intros Hf Hu i j ri rj k Hi Hj Hki Hkj.
  apply lookup_sql_update_Some in Hi as (r1 & Hr1 & ->).
  apply lookup_sql_update_Some in Hj as (r2 & Hr2 & ->).
  assert (forall r, key (if P r then f r else r) = Some k -> key r = Some k) as Hk.
  { intros r. destruct (P r) eqn:E; [by apply Hf|done]. }
  by apply (Hu i j r1 r2 k Hr1 Hr2); apply Hk.
Qed.

Lemma unique_on_delete key P t :
  unique_on key t = true -> unique_on key (sql_delete P t) = true.
Proof.
  rewrite !unique_on_true. intros Hu i j ri rj k Hi Hj.
  apply lookup_sql_delete_Some in Hi as [Hi _], Hj as [Hj _]. by eapply Hu.
Qed.

Lemma unique_on_insert key t i r :
  t !! i = None ->
  (forall j rj k, t !! j = Some rj -> key rj = Some k -> key r <> Some k) ->
  unique_on key t = true -> unique_on key (<[i := r]> t) = true.
Proof.
  rewrite !unique_on_true. intros Hi Hr Hu a b ra rb k Ha Hb Hka Hkb.
  apply lookup_insert_Some in Ha as [[<- <-]|[Hia Ha]];
    apply lookup_insert_Some in Hb as [[<- <-]|[Hib Hb]]; [done| | |by eapply Hu].
  - exfalso. by eapply Hr.
  - exfalso. by eapply Hr.
Qed.

Lemma unique_on_replace key t i r :
  (forall j rj k, j <> i -> t !! j = Some rj -> key rj = Some k -> key r <> Some k) ->
  unique_on key t = true -> unique_on key (<[i := r]> t) = true.
Proof.
  rewrite !unique_on_true. intros Hr Hu a b ra rb k Ha Hb Hka Hkb.
  apply lookup_insert_Some in Ha as [[<- <-]|[Hia Ha]];
    apply lookup_insert_Some in Hb as [[<- <-]|[Hib Hb]]; [done| | |by eapply Hu].
  - exfalso. by eapply (Hr b rb).
  - exfalso. by eapply (Hr a ra).
Qed.

End Unique.

(** ** Ordered selection *)
Section Order.
  Context {R : Type} (le : R -> R -> bool).

Definition order_le (a b : R) : Prop := le a b = true.
#[export] Instance order_le_dec : RelDecision order_le.
Proof. intros a b. unfold order_le. apply _. Defined.

Definition sql_sort (l : list R) : list R := merge_sort order_le l.

Lemma elem_of_sql_sort l r : r ∈ sql_sort l <-> r ∈ l.
Proof. unfold sql_sort. by rewrite merge_sort_Permutation. Qed.

(** The head of an ordered selection is a minimum of it. *)
Lemma sql_sort_head_min l r :
  (forall a b, le a b = true \/ le b a = true) ->
  (forall a b c, le a b = true -> le b c = true -> le a c = true) ->
  head (sql_sort l) = Some r -> r ∈ l /\ forall x, x ∈ l -> le r x = true.
Proof.
  intros Htot Htr Hh.
  assert (Total order_le) by (intros a b; apply Htot).
  assert (Transitive order_le) by (intros a b c; apply Htr).
  assert (forall x, le x x = true) as Hrefl by (intros x; destruct (Htot x x); done).
  pose proof (StronglySorted_merge_sort order_le l) as Hs. unfold sql_sort in Hh.
  assert (r ∈ merge_sort order_le l) as Hin.
  { destruct (merge_sort order_le l); [done|]. cbn in Hh. simplify_eq. by left. }
  split; [by rewrite merge_sort_Permutation in Hin|].
  intros x Hx. rewrite <- (merge_sort_Permutation order_le) in Hx.
  destruct (merge_sort order_le l) as [|y l']; [done|]. cbn in Hh. simplify_eq.
  apply StronglySorted_inv in Hs as [_ Hf]. apply elem_of_cons in Hx as [->|Hx]; [done|].
  rewrite list.Forall_forall in Hf. by apply Hf.
Qed.

Lemma sql_sort_head_None l : head (sql_sort l) = None <-> l = [].
Proof.
  unfold sql_sort. pose proof (merge_sort_Permutation order_le l) as Hp.
  destruct (merge_sort order_le l) as [|y l']; cbn; split; intros H; try done.
  - symmetry in Hp. by apply Permutation_nil_r in Hp.
  - subst. apply Permutation_nil_r in Hp. done.
Qed.

End Order.
