(* ===== verification/Domain.v ===== *)
(** * Domain vocabulary (crate [loupe-core])

    The closed enumerations that the server, the workers and the database
    share, with their wire spellings ([as_str], [from_str]), and the records
    they carry.  A [BoundedText] of the source is its exposed text. *)

From S2P Require Import Prelude.
From Stdlib Require Import ZArith Lia.
From stdpp Require Import base list strings.
Local Open Scope Z_scope.

(** ** Severity: [loupe-core/src/severity.rs] *)

Inductive Severity := Info | Low | Medium | High | Critical.

#[export] Instance Severity_eq_dec : EqDecision Severity.
Proof. solve_decision. Defined.

(** ** Parser errors: [loupe-core/src/error.rs] *)

Inductive CoreError :=
| UnknownSeverity (s : str)
| UnknownJobState (s : str)
| UnknownFindingState (s : str).

Module Severity.

Definition as_str (s : Severity) : str :=
  match s with
  | Info => lit "info"
  | Low => lit "low"
  | Medium => lit "medium"
  | High => lit "high"
  | Critical => lit "critical"
  end.

Definition from_str (s : str) : result CoreError Severity :=
  if str_eqb s (lit "info") then Ok Info
  else if str_eqb s (lit "low") then Ok Low
  else if str_eqb s (lit "medium") then Ok Medium
  else if str_eqb s (lit "high") then Ok High
  else if str_eqb s (lit "critical") then Ok Critical
  else Err (UnknownSeverity s).

(** The derived [Ord]: declaration order. *)
Definition rank (s : Severity) : Z :=
  match s with Info => 0 | Low => 1 | Medium => 2 | High => 3 | Critical => 4 end.

End Severity.

(** ** Job state: [loupe-core/src/job.rs] *)

Inductive JobState := Queued | Leased | Succeeded | Failed | Cancelled.

#[export] Instance JobState_eq_dec : EqDecision JobState.
Proof. solve_decision. Defined.

Module JobState.

Definition as_str (s : JobState) : str :=
  match s with
  | Queued => lit "queued"
  | Leased => lit "leased"
  | Succeeded => lit "succeeded"
  | Failed => lit "failed"
  | Cancelled => lit "cancelled"
  end.

Definition is_terminal (s : JobState) : bool :=
  match s with Succeeded | Failed | Cancelled => true | _ => false end.

Definition from_str (s : str) : result CoreError JobState :=
  if str_eqb s (lit "queued") then Ok Queued
  else if str_eqb s (lit "leased") then Ok Leased
  else if str_eqb s (lit "succeeded") then Ok Succeeded
  else if str_eqb s (lit "failed") then Ok Failed
  else if str_eqb s (lit "cancelled") then Ok Cancelled
  else Err (UnknownJobState s).

End JobState.

(** ** Job kind: [loupe-core/src/job.rs] *)

Inductive JobKind := Scan | Verify | Survey | Drilldown | Unknown (raw : str).

#[export] Instance JobKind_eq_dec : EqDecision JobKind.
Proof. solve_decision. Defined.

Module JobKind.

Definition from_text (text : str) : JobKind :=
  if str_eqb text (lit "scan") then Scan
  else if str_eqb text (lit "verify") then Verify
  else if str_eqb text (lit "survey") then Survey
  else if str_eqb text (lit "drilldown") then Drilldown
  else Unknown text.

Definition as_str (k : JobKind) : str :=
  match k with
  | Scan => lit "scan"
  | Verify => lit "verify"
  | Survey => lit "survey"
  | Drilldown => lit "drilldown"
  | Unknown raw => raw
  end.

Definition is_legacy (k : JobKind) : bool :=
  match k with Scan => true | _ => false end.

Definition is_phase (k : JobKind) : bool :=
  match k with Survey | Drilldown => true | _ => false end.

Definition is_known (k : JobKind) : bool :=
  match k with Unknown _ => false | _ => true end.

End JobKind.

(** ** Finding state: [loupe-core/src/finding_state.rs] *)

Inductive FindingState :=
| Pending | Validating | AwaitingApproval | Confirmed | Dismissed | Reported.

#[export] Instance FindingState_eq_dec : EqDecision FindingState.
Proof. solve_decision. Defined.

Module FindingState.

Definition as_str (s : FindingState) : str :=
  match s with
  | Pending => lit "pending"
  | Validating => lit "validating"
  | AwaitingApproval => lit "awaiting_approval"
  | Confirmed => lit "confirmed"
  | Dismissed => lit "dismissed"
  | Reported => lit "reported"
  end.

Definition from_str (s : str) : result CoreError FindingState :=
  if str_eqb s (lit "pending") then Ok Pending
  else if str_eqb s (lit "validating") then Ok Validating
  else if str_eqb s (lit "awaiting_approval") then Ok AwaitingApproval
  else if str_eqb s (lit "confirmed") then Ok Confirmed
  else if str_eqb s (lit "dismissed") then Ok Dismissed
  else if str_eqb s (lit "reported") then Ok Reported
  else Err (UnknownFindingState s).

End FindingState.

(** ** Verdicts: [loupe-core/src/verdict.rs] *)

Record VerdictPatch := {
  vp_patch_unified : str;
  vp_notes : str;
}.

Inductive Verdict :=
| VConfirmed (notes : option str) (patch : option VerdictPatch)
| VDismissed (notes : option str)
| VInconclusive (reason : str) (terminal : bool).

(** ** Findings: [loupe-core/src/finding.rs] *)

Record Finding := {
  f_scanner_id : str;
  f_severity : Severity;
  f_title : str;
  f_description : str;
  f_file_path : option str;
  f_line_start : option Z;
  f_line_end : option Z;
  f_cwe : option str;
  f_patch_unified : option str;
  f_poc_unified : option str;
  f_fingerprint : str;
}.

(** ** Reporting destinations: [loupe-core/src/repo.rs] *)

Inductive ReportingDestination :=
| GithubIssue (target_owner target_repo : str) (pat_secret_id : option Z)
| Email (to : list str) (from : option str) (subject_prefix : option str)
| Manual.

#[export] Instance ReportingDestination_eq_dec : EqDecision ReportingDestination.
Proof. solve_decision. Defined.

(** ** Report content budget: [loupe-core/src/report_limits.rs] *)

Module ReportLimits.

Definition GITHUB_ISSUE_BODY_MAX_CHARS : Z := 65536.
Definition REPORT_CONTENT_MAX_CHARS : Z := 60000.

Definition report_content_within_cap (chars : Z) : bool :=
  chars <=? REPORT_CONTENT_MAX_CHARS.

(** [text.chars().count()] of an optional text. *)
Definition opt_chars (o : option str) : Z :=
  match o with Some s => Z.of_nat (length s) | None => 0 end.

(** The error carries the measured character count. *)
Definition validate_report_content
    (description : str) (poc_unified patch_unified : option str) : result Z unit :=
  let chars := opt_chars (Some description) + opt_chars poc_unified + opt_chars patch_unified in
  if negb (report_content_within_cap chars) then Err chars else Ok tt.

End ReportLimits.

(** ** Theorems *)

(** Every closed vocabulary is the inverse of its printer, in both directions:
    printing then parsing is the identity, and a text that parses is the
    spelling of the parsed value. *)
Class WireEnum (A : Type) := {
  we_as_str : A -> str;
  we_from_str : str -> result CoreError A;
  we_parse_print : forall a, we_from_str (we_as_str a) = Ok a;
  we_print_parse : forall s a, we_from_str s = Ok a -> s = we_as_str a;
}.

Ltac solve_wire_print_parse :=
  intros s a;
  repeat match goal with
  | |- context [if str_eqb ?x ?y then _ else _] =>
      destruct (str_eqb x y) eqn:?; [bool_prop; intros [= <-]; assumption|]
  end; discriminate.

#[export] Program Instance Severity_wire : WireEnum Severity := {|
  we_as_str := Severity.as_str; we_from_str := Severity.from_str |}.
Next Obligation. by intros []. Qed.
Next Obligation. unfold Severity.from_str. solve_wire_print_parse. Qed.

#[export] Program Instance JobState_wire : WireEnum JobState := {|
  we_as_str := JobState.as_str; we_from_str := JobState.from_str |}.
Next Obligation. by intros []. Qed.
Next Obligation. unfold JobState.from_str. solve_wire_print_parse. Qed.

#[export] Program Instance FindingState_wire : WireEnum FindingState := {|
  we_as_str := FindingState.as_str; we_from_str := FindingState.from_str |}.
Next Obligation. by intros []. Qed.
Next Obligation. unfold FindingState.from_str. solve_wire_print_parse. Qed.

Lemma wire_enum_inj {A} `{WireEnum A} (a b : A) : we_as_str a = we_as_str b -> a = b.
Proof.
  intros E. pose proof (we_parse_print a) as Ha. rewrite E, we_parse_print in Ha. congruence.
Qed.

(** A parser of a closed vocabulary accepts exactly the spellings it prints. *)
Lemma wire_enum_accepts {A} `{WireEnum A} s a : we_from_str s = Ok a <-> s = we_as_str a.
Proof. split; [apply we_print_parse|]. intros ->. apply we_parse_print. Qed.

Lemma job_kind_as_str_from_text t : JobKind.as_str (JobKind.from_text t) = t.
Proof.
  unfold JobKind.from_text.
  repeat case_match; bool_prop; subst; reflexivity.
Qed.

Lemma job_kind_from_text_as_str k :
  JobKind.is_known k = true -> JobKind.from_text (JobKind.as_str k) = k.
Proof. by destruct k. Qed.

(** the closed wire vocabularies round trip.  For severities, job states and
    finding states, a text parses to a value exactly when it is that value's
    spelling (so the parsers accept nothing else, and case matters); job kinds
    keep every text, and a known kind is read back from its own spelling. *)
Theorem wire_vocabularies_roundtrip :
  (forall s v, Severity.from_str s = Ok v <-> s = Severity.as_str v) /\
  (forall s v, JobState.from_str s = Ok v <-> s = JobState.as_str v) /\
  (forall s v, FindingState.from_str s = Ok v <-> s = FindingState.as_str v) /\
  (forall t, JobKind.as_str (JobKind.from_text t) = t) /\
  (forall k, JobKind.from_text (JobKind.as_str k) = k <->
     JobKind.is_known k = true \/
     exists raw, k = Unknown raw /\ JobKind.is_known (JobKind.from_text raw) = false).
Proof.
  split; [exact (@wire_enum_accepts Severity _)|].
  split; [exact (@wire_enum_accepts JobState _)|].
  split; [exact (@wire_enum_accepts FindingState _)|].
  split; [exact job_kind_as_str_from_text|].
  intros k. split.
  - intros Hk. destruct k; [by left..|]. right. exists raw. split; [done|].
    cbn in Hk. by rewrite Hk.
  - intros [Hk|(raw & -> & Hk)]; [by apply job_kind_from_text_as_str|].
    cbn. revert Hk. unfold JobKind.from_text. by repeat case_match.
Qed.
