(* ===== verification/StateMachine.v ===== *)
(** * Lifecycle state machines ([loupe-core/src/state_machine.rs])

    The job and finding machines as total functions to results, their initial
    states, the verdict rollup, and the runs they generate.  The step
    relations [job_step] and [finding_step] are the abstract machines that the
    storage layer is later shown to refine. *)

From S2P Require Import Prelude Domain.
From Stdlib Require Import ZArith Lia.
From stdpp Require Import base list relations strings.
Local Open Scope Z_scope.

(** Static names only: the machine, the state and the transition. *)
Record StateTransitionError := {
  ste_machine : str;
  ste_state : str;
  ste_transition : str;
}.

(** ** Jobs *)

Inductive JobTransition :=
| Enqueue | Lease | Heartbeat | CompleteSucceeded | CompleteFailed
| Cancel | Retry | ReapToQueued | ReapToFailed.

#[export] Instance JobTransition_eq_dec : EqDecision JobTransition.
Proof. solve_decision. Defined.

Module JobTransition.

Definition as_str (t : JobTransition) : str :=
  match t with
  | Enqueue => lit "enqueue"
  | Lease => lit "lease"
  | Heartbeat => lit "heartbeat"
  | CompleteSucceeded => lit "complete_succeeded"
  | CompleteFailed => lit "complete_failed"
  | Cancel => lit "cancel"
  | Retry => lit "retry"
  | ReapToQueued => lit "reap_to_queued"
  | ReapToFailed => lit "reap_to_failed"
  end.

End JobTransition.

Definition job_error (state : str) (t : JobTransition) : StateTransitionError :=
  {| ste_machine := lit "job"; ste_state := state; ste_transition := JobTransition.as_str t |}.

Definition job_apply (s : JobState) (t : JobTransition) : result StateTransitionError JobState :=
  match s, t with
  | Queued, Lease => Ok Leased
  | Leased, Heartbeat => Ok Leased
  | Leased, CompleteSucceeded => Ok Succeeded
  | Leased, CompleteFailed => Ok Failed
  | Queued, Cancel | Leased, Cancel => Ok Cancelled
  | Failed, Retry => Ok Queued
  | Leased, ReapToQueued => Ok Queued
  | Leased, ReapToFailed => Ok Failed
  | _, _ => Err (job_error (JobState.as_str s) t)
  end.

Definition initial_job_state (t : JobTransition) : result StateTransitionError JobState :=
  match t with
  | Enqueue => Ok Queued
  | _ => Err (job_error (lit "<none>") t)
  end.

(** ** Findings *)

Inductive FindingTransition :=
| ScanAccepted | ScanAutoConfirm | ScanAwaitApproval | ScanRequireVerification
| VerdictConfirm | VerdictAwaitApproval | VerdictDismiss | DeadlineExpire
| Approve | Reject | RetryVerification | MarkReported.

#[export] Instance FindingTransition_eq_dec : EqDecision FindingTransition.
Proof. solve_decision. Defined.

Module FindingTransition.

Definition as_str (t : FindingTransition) : str :=
  match t with
  | ScanAccepted => lit "scan_accepted"
  | ScanAutoConfirm => lit "scan_auto_confirm"
  | ScanAwaitApproval => lit "scan_await_approval"
  | ScanRequireVerification => lit "scan_require_verification"
  | VerdictConfirm => lit "verdict_confirm"
  | VerdictAwaitApproval => lit "verdict_await_approval"
  | VerdictDismiss => lit "verdict_dismiss"
  | DeadlineExpire => lit "deadline_expire"
  | Approve => lit "approve"
  | Reject => lit "reject"
  | RetryVerification => lit "retry_verification"
  | MarkReported => lit "mark_reported"
  end.

End FindingTransition.

Definition finding_error (state : str) (t : FindingTransition) : StateTransitionError :=
  {| ste_machine := lit "finding"; ste_state := state;
     ste_transition := FindingTransition.as_str t |}.

Definition finding_apply (s : FindingState) (t : FindingTransition)
    : result StateTransitionError FindingState :=
  match s, t with
  | Pending, ScanAutoConfirm => Ok Confirmed
  | Pending, ScanAwaitApproval => Ok AwaitingApproval
  | Pending, ScanRequireVerification => Ok Validating
  | Validating, VerdictConfirm => Ok Confirmed
  | Validating, VerdictAwaitApproval => Ok AwaitingApproval
  | Validating, VerdictDismiss => Ok Dismissed
  | Validating, DeadlineExpire => Ok Dismissed
  | AwaitingApproval, Approve => Ok Confirmed
  | AwaitingApproval, Reject => Ok Dismissed
  | Pending, RetryVerification | Validating, RetryVerification
  | Dismissed, RetryVerification => Ok Validating
  | Confirmed, MarkReported => Ok Reported
  | _, _ => Err (finding_error (FindingState.as_str s) t)
  end.

Definition initial_finding_state (t : FindingTransition)
    : result StateTransitionError FindingState :=
  match t with
  | ScanAccepted => Ok Pending
  | _ => Err (finding_error (lit "<none>") t)
  end.

(** ** Verdict rollup *)

Record VerdictRollup := {
  has_confirmed : bool;
  has_dismissed : bool;
  terminal_inconclusive : bool;
  require_approval : bool;
}.

(** The transition a rollup asks for, before it is applied. *)
Definition rollup_transition (r : VerdictRollup) : option FindingTransition :=
  if terminal_inconclusive r || has_dismissed r then Some VerdictDismiss
  else if has_confirmed r then
    Some (if require_approval r then VerdictAwaitApproval else VerdictConfirm)
  else None.

Definition roll_up_verdicts (current : FindingState) (r : VerdictRollup)
    : result StateTransitionError (option FindingState) :=
  if negb (bool_decide (current = Validating)) then Ok None
  else match rollup_transition r with
       | None => Ok None
       | Some t => s ← finding_apply current t; mret (Some s)
       end.

(** ** The machines as step relations *)

Inductive job_step : JobState -> JobState -> Prop :=
| job_step_intro s t s' : job_apply s t = Ok s' -> job_step s s'.

Inductive finding_step : FindingState -> FindingState -> Prop :=
| finding_step_intro s t s' : finding_apply s t = Ok s' -> finding_step s s'.

#[export] Hint Constructors job_step finding_step : loupe.

(** A run of a machine along a sequence of transitions. *)
Fixpoint finding_run (s : FindingState) (ts : list FindingTransition)
    : result StateTransitionError FindingState :=
  match ts with
  | [] => Ok s
  | t :: ts => s' ← finding_apply s t; finding_run s' ts
  end.

Fixpoint job_run (s : JobState) (ts : list JobTransition)
    : result StateTransitionError JobState :=
  match ts with
  | [] => Ok s
  | t :: ts => s' ← job_apply s t; job_run s' ts
  end.

(** ** Lemmas *)

Lemma finding_run_app s ts us :
  finding_run s (ts ++ us) = (s' ← finding_run s ts; finding_run s' us).
Proof.
  revert s. induction ts as [|t ts IH]; intros s; cbn; [done|].
  destruct (finding_apply s t); cbn; [apply IH|done].
Qed.

Lemma job_step_terminal s s' :
  job_step s s' -> JobState.is_terminal s = true -> s = Failed /\ s' = Queued.
Proof. intros [x t y H] Hx. by destruct x, t; cbn in *; simplify_eq. Qed.

Lemma finding_step_reported s : ~ finding_step Reported s.
Proof. inversion 1 as [? t ? H']; subst. by destruct t. Qed.

Lemma finding_step_to_reported s : finding_step s Reported -> s = Confirmed.
Proof. inversion 1 as [? t ? H']; subst. by destruct s, t. Qed.

Lemma finding_step_to_pending s : ~ finding_step s Pending.
Proof. inversion 1 as [? t ? H']; subst. by destruct s, t. Qed.

#[export] Hint Resolve finding_step_reported finding_step_to_reported
  finding_step_to_pending : loupe.

(** terminal job states.  A succeeded or cancelled job admits no transition
    at all, and a failed job leaves its state only through the operator's
    [Retry], back to the queue; in particular no completion, cancellation or
    reaping can be applied twice. *)
Theorem terminal_jobs_exit_only_by_retry s t s' :
  JobState.is_terminal s = true -> job_apply s t = Ok s' ->
  s = Failed /\ t = Retry /\ s' = Queued.
Proof. destruct s, t; cbn; intros; by simplify_eq. Qed.

Lemma terminal_jobs_exit_only_by_retry_witness :
  JobState.is_terminal Failed = true /\ Failed = Failed /\ Retry = Retry /\ Queued = Queued.
Proof.
  split; [reflexivity|].
  apply (terminal_jobs_exit_only_by_retry Failed Retry Queued); reflexivity.
Defined.

(** The decisions that can put a finding into [Confirmed]. *)
Definition confirms (t : FindingTransition) : bool :=
  match t with ScanAutoConfirm | VerdictConfirm | Approve => true | _ => false end.

Lemma finding_run_confirmed ts s :
  s <> Confirmed -> s <> Reported -> finding_run s ts = Ok Confirmed ->
  exists us t, ts = us ++ [t] /\ confirms t = true.
Proof.
  destruct (decide (ts = [])) as [->|Hne]; [cbn; naive_solver|].
  destruct (exists_last Hne) as (us & t & ->). intros H1 H2.
  rewrite finding_run_app, result_bind_Ok. intros (s' & Hr & Ht). cbn in Ht.
  exists us, t. split; [done|]. by destruct s', t.
Qed.

(** no finding is reported without a confirming decision.  Every run of the
    finding machine from its initial state to [Reported] ends with
    [MarkReported], applied to a finding that the last transition before it had
    confirmed: by a scan that needs no verification, by a verifier's verdict or
    by an operator's approval. *)
Theorem reported_only_after_confirmation ts s0 :
  initial_finding_state ScanAccepted = Ok s0 -> finding_run s0 ts = Ok Reported ->
  exists us t, ts = us ++ [t; MarkReported] /\ confirms t = true.
Proof.
  cbn. intros [= <-] Hrun.
  destruct (decide (ts = [])) as [->|Hne]; [cbn in Hrun; done|].
  destruct (exists_last Hne) as (us & t & ->).
  rewrite finding_run_app, result_bind_Ok in Hrun. destruct Hrun as (s' & Hr & Ht).
  assert (s' = Confirmed /\ t = MarkReported) as [-> ->] by (cbn in Ht; by destruct s', t).
  destruct (finding_run_confirmed us Pending) as (vs & t & -> & Hc); [done..|].
  exists vs, t. by rewrite <- app_assoc.
Qed.

Lemma reported_only_after_confirmation_witness :
  exists us t,
    [ScanRequireVerification; VerdictAwaitApproval; Approve; MarkReported] =
      us ++ [t; MarkReported] /\ confirms t = true.
Proof.
  apply (reported_only_after_confirmation
    [ScanRequireVerification; VerdictAwaitApproval; Approve; MarkReported] Pending);
    reflexivity.
Defined.

(** The rollup policy: a finding that is not being validated is left alone; a
    validating finding is dismissed on a terminal inconclusive verdict or any
    dismissal, otherwise confirmed (or parked for approval) on any
    confirmation, and otherwise stays.  The rollup never fails. *)
Lemma roll_up_verdicts_eq current r :
  roll_up_verdicts current r = Ok (
    if negb (bool_decide (current = Validating)) then None
    else if terminal_inconclusive r || has_dismissed r then Some Dismissed
    else if has_confirmed r then
      Some (if require_approval r then AwaitingApproval else Confirmed)
    else None).
Proof.
  unfold roll_up_verdicts, rollup_transition.
  destruct current, (terminal_inconclusive r), (has_dismissed r), (has_confirmed r),
    (require_approval r); reflexivity.
Qed.

Lemma roll_up_verdicts_step current r s :
  roll_up_verdicts current r = Ok (Some s) -> current = Validating /\ finding_step current s.
Proof.
  unfold roll_up_verdicts. case_bool_decide; cbn; [|done]. intros Hr.
  split; [done|]. destruct (rollup_transition r) as [t|]; [|done].
  apply result_bind_Ok in Hr as (s' & Ht & [= <-]). by econstructor.
Qed.
