(* ===== verification/Vocabulary.v ===== *)
(** * Storage vocabulary and ownership decisions

    The closed error vocabulary of the storage crate ([loupe-storage/src/review.rs]
    and [db.rs]) and the pure ownership decision [Scope::admits] / [Scope::check]
    ([loupe-storage/src/scope.rs]) that every cross-table reference goes through. *)

From S2P Require Import Prelude Domain StateMachine.
From Stdlib Require Import ZArith Lia.
From stdpp Require Import base list strings.
Local Open Scope Z_scope.

(** ** Closed vocabularies: [review.rs] *)

Inductive Entity :=
| ECampaign | EGeneration | EInventory | EUnit | EUnitResult | ELead | EJob | EFinding
| EVerification | EArtifact | EBlob | EExecution | EProof.

Inductive Conflict :=
| CActiveCampaign | CActiveGeneration | CCampaignState | CCampaignSummary
| CCampaignPolicy | CCompatibilityPolicy | CLimits | CCampaignPinned
| CCampaignBudget | CActiveDrilldown | CActiveVerify | CJobState
| CGenerationState | CGenerationPredecessor | CCoverage | CInventoryPath
| CInventoryRevision (revision : Z) | CInventoryLimit | CUnitKey | CUnitState
| CAssignment | CCorroboration | CLeadState | CCheckpoint
| CCheckpointEvidence | CCheckpointLimit | CUnitResultExists
| CIncompatibleReviewState | CRevalidationRequired | CCandidate
| CTerminalReceipt | CFindingIdentity (id : Z) | CCompatibilityKey (id : Z)
| CFindingDetails | CAttemptDetails | CArtifactIdentity.

Inductive Ownership :=
| OCampaignRoot | OCampaignContinuation | OCampaignGeneration | OCampaignSummary
| OGenerationPredecessor | OCampaignJob | OInventoryGeneration | OCarriedUnit
| OUnitJob | OResultJob | OResultUnit | OCorroboratedResult
| OCorroboratedExclusion | OLeadUnit | OLeadJob | OObservationJob
| OSupersededLead | ODuplicateLead | ODuplicateFinding | OPromotedFinding
| OFindingLead | OFinding | OVerification | OVerificationProof
| OJobGeneration | OJobLead | OJobFinding | OJobContinuation
| OAssignment | OArtifactBlob | OArtifactJob | OExecutionJob
| OExecutionArtifact | OProofFinding | OProofVerification | OProofArtifact
| OProofExecution.

#[export] Instance Ownership_eq_dec : EqDecision Ownership.
Proof. solve_decision. Defined.

(** ** Storage errors: [db.rs]

    [Sqlite] carries the failures of the modelled statements: a constraint
    violation, a query that needed a row and found none, a value out of its
    range, an exhausted row-id space and the text that
    [sql_state_transition_error] wraps. *)

Inductive SqliteError :=
| ConstraintViolation
| QueryReturnedNoRows
| InvalidScalar (column : Z)
| RowIdsExhausted
| InvalidParameterName (e : StateTransitionError)
| InvalidCompletionTarget (state : JobState).

(** [text::Rule] and [text::Error] of [loupe-core/src/text/mod.rs], as far as
    storage raises them. *)
Inductive TextRule := RIdentifier | RBytes | RJsonDepth | RJsonNodes | RJsonSyntax.

Inductive Error :=
| Sqlite (e : SqliteError)
| Validation (field : str) (rule : TextRule)
| ConflictError (c : Conflict)
| OwnershipError (o : Ownership)
| NotFound (e : Entity) (id : Z)
| ScopeDenied
| ReportReceiptError.

(** [sql_state_transition_error] *)
Definition sql_state_transition_error (e : StateTransitionError) : Error :=
  Sqlite (InvalidParameterName e).

(** ** Ownership decisions: [scope.rs] *)

Inductive Assignment :=
| AJob (id : Z)
| AFinding (id : Z)
| AVerification (id : Z).

#[export] Instance Assignment_eq_dec : EqDecision Assignment.
Proof. solve_decision. Defined.

Inductive SubjectKind :=
| KRecord
| KJob (campaign_repo : option Z)
| KAssigned (a : Assignment).

#[export] Instance SubjectKind_eq_dec : EqDecision SubjectKind.
Proof. solve_decision. Defined.

Record Subject := {
  sub_repo : Z;
  sub_generation : option Z;
  sub_campaign : option Z;
  sub_kind : SubjectKind;
}.

Definition subject_repository (repo : Z) : Subject :=
  {| sub_repo := repo; sub_generation := None; sub_campaign := None; sub_kind := KRecord |}.

Record Scope := {
  sc_repo : Z;
  sc_generation : option Z;
  sc_campaign : option Z;
  sc_assignment : option Assignment;
}.

Definition scope_repository (repo : Z) : Scope :=
  {| sc_repo := repo; sc_generation := None; sc_campaign := None; sc_assignment := None |}.

Definition admits (sc : Scope) (subject : Subject) (_relation : Ownership) : bool :=
  if negb (sub_repo subject =? sc_repo sc) then false
  else if match sc_generation sc with
          | Some generation =>
              let campaign_fallback :=
                sql_null (sub_generation subject) &&
                match sub_kind subject with
                | KJob (Some repo) => repo =? sc_repo sc
                | _ => false
                end in
              negb (bool_decide (sub_generation subject = Some generation)) &&
              negb campaign_fallback
          | None => false
          end then false
  else if sql_some (sc_campaign sc) &&
          negb (bool_decide (sub_campaign subject = sc_campaign sc)) then false
  else if match sc_assignment sc with
          | Some assignment => negb (bool_decide (sub_kind subject = KAssigned assignment))
          | None => false
          end then false
  else true.

Definition check (sc : Scope) (subject : option Subject) (relation : Ownership)
    : result Ownership unit :=
  if match subject with Some s => admits sc s relation | None => false end
  then Ok tt else Err relation.

(** ** Theorems *)

(** What a scope promises: same repository always; the scope's generation,
    campaign and assignment when it names them, with the single exception that
    a generation-less job of a campaign of this repository is accepted in any
    of the repository's generations. *)
Definition scope_spec (sc : Scope) (s : Subject) : Prop :=
  sub_repo s = sc_repo sc /\
  (forall g, sc_generation sc = Some g ->
     sub_generation s = Some g \/
     (sub_generation s = None /\ sub_kind s = KJob (Some (sc_repo sc)))) /\
  (forall c, sc_campaign sc = Some c -> sub_campaign s = Some c) /\
  (forall a, sc_assignment sc = Some a -> sub_kind s = KAssigned a).

(** the ownership decision implements its specification, for every relation
    label: [admits] is true exactly for the subjects [scope_spec] describes, and
    [check] gives the same error for a missing row as for a foreign one. *)
Theorem admits_refines_scope_spec sc subject relation :
  (check sc subject relation = Ok tt <->
     exists s, subject = Some s /\ scope_spec sc s) /\
  (check sc subject relation <> Ok tt ->
     check sc subject relation = check sc None relation).
Proof.
  assert (forall s, admits sc s relation = true <-> scope_spec sc s) as Hadm.
  { intros s. unfold admits, scope_spec.
    destruct sc as [repo g c a], s as [srepo sg scamp sk]; cbn.
    destruct (Z.eqb_spec srepo repo) as [->|]; cbn; [|naive_solver].
    destruct g as [g|], c as [c|], a as [a|], sg as [sg|], sk as [|[cr|]|sa]; cbn;
      repeat case_bool_decide; cbn; try destruct (Z.eqb_spec cr repo) as [->|]; cbn;
      naive_solver. }
  unfold check. destruct subject as [s|]; cbn.
  - destruct (admits sc s relation) eqn:E.
    + split; [|done]. split; [|done]. intros _. exists s. split; [done|]. by apply Hadm.
    + split; [|done]. split; [done|]. intros (s' & [= <-] & Hs%Hadm). congruence.
  - split; [|done]. split; [done|]. by intros (s & [=] & _).
Qed.
