(* ===== verification/SchedPolicy.v ===== *)
(** * Scheduling policies ([loupe-storage/src/scheduler.rs], [scheduler/policy.rs])

    The live claim policy, the immutable campaign policy with its validation,
    the per-phase limits it yields, and the retry backoff on [i64] / [u32]
    arithmetic. *)

From S2P Require Import Prelude Domain StateMachine Vocabulary.
From Stdlib Require Import ZArith Lia.
From stdpp Require Import base list strings.
Local Open Scope Z_scope.

Definition PRIORITY_MAX : Z := 1000.

(** ** Live deployment limits *)

Record ClaimPolicy := {
  active_jobs_per_repo : Z;
  active_jobs_total : option Z;
  active_surveys_per_repo : Z;
  active_drilldowns_per_repo : Z;
  active_verifications_per_repo : Z;
  verify_reserved_slots : Z;
  lease_seconds : Z;
  lease_report_grace_seconds : Z;
  urgency_burst_length : Z;
  priority_aging_interval_seconds : Z;
  priority_aging_cap : Z;
}.

Definition claim_policy_default : ClaimPolicy := {|
  active_jobs_per_repo := 3;
  active_jobs_total := None;
  active_surveys_per_repo := 1;
  active_drilldowns_per_repo := 2;
  active_verifications_per_repo := 2;
  verify_reserved_slots := 1;
  lease_seconds := 600;
  lease_report_grace_seconds := 60;
  urgency_burst_length := 4;
  priority_aging_interval_seconds := 3600;
  priority_aging_cap := 8;
|}.

(** ** Campaign policy *)

Record CampaignPolicy := {
  cp_version : Z;
  cp_survey_units_per_job : Z;
  cp_survey_deadline_seconds : Z;
  cp_survey_submit_margin_seconds : Z;
  cp_drilldown_deadline_seconds : Z;
  cp_drilldown_submit_margin_seconds : Z;
  cp_verify_deadline_seconds : Z;
  cp_verify_submit_margin_seconds : Z;
  cp_max_attempts : Z;
  cp_retry_backoff_base_seconds : Z;
  cp_retry_backoff_cap_seconds : Z;
  cp_campaign_handoff_reserve : Z;
  cp_campaign_deadline_seconds : Z;
  cp_campaign_max_jobs : Z;
  cp_survey_token_budget : option Z;
  cp_drilldown_token_budget : option Z;
  cp_verify_token_budget : option Z;
}.

Definition campaign_policy_default : CampaignPolicy := {|
  cp_version := 1;
  cp_survey_units_per_job := 4;
  cp_survey_deadline_seconds := 1800;
  cp_survey_submit_margin_seconds := 300;
  cp_drilldown_deadline_seconds := 2700;
  cp_drilldown_submit_margin_seconds := 420;
  cp_verify_deadline_seconds := 3600;
  cp_verify_submit_margin_seconds := 600;
  cp_max_attempts := 3;
  cp_retry_backoff_base_seconds := 60;
  cp_retry_backoff_cap_seconds := 3600;
  cp_campaign_handoff_reserve := 2;
  cp_campaign_deadline_seconds := 21600;
  cp_campaign_max_jobs := 64;
  cp_survey_token_budget := None;
  cp_drilldown_token_budget := None;
  cp_verify_token_budget := None;
|}.

Record PhasePolicy := {
  deadline_seconds : Z;
  submit_margin_seconds : Z;
  token_budget : option Z;
}.

(** [scheduler::invalid] *)
Definition invalid (field : string) : Error := Validation (lit field) RIdentifier.

Definition phase (p : CampaignPolicy) (kind : JobKind) : result Error PhasePolicy :=
  match kind with
  | Survey => Ok {| deadline_seconds := cp_survey_deadline_seconds p;
                    submit_margin_seconds := cp_survey_submit_margin_seconds p;
                    token_budget := cp_survey_token_budget p |}
  | Drilldown => Ok {| deadline_seconds := cp_drilldown_deadline_seconds p;
                       submit_margin_seconds := cp_drilldown_submit_margin_seconds p;
                       token_budget := cp_drilldown_token_budget p |}
  | Verify => Ok {| deadline_seconds := cp_verify_deadline_seconds p;
                    submit_margin_seconds := cp_verify_submit_margin_seconds p;
                    token_budget := cp_verify_token_budget p |}
  | _ => Err (invalid "job_kind")
  end.

(** The per-phase conjunct of [CampaignPolicy::validate]. *)
Definition phase_valid (p : CampaignPolicy) (kind : JobKind) : bool :=
  match phase p kind with
  | Err _ => false
  | Ok ph =>
      (0 <? deadline_seconds ph) &&
      (0 <=? submit_margin_seconds ph) &&
      (submit_margin_seconds ph <? deadline_seconds ph) &&
      (deadline_seconds ph <=? cp_campaign_deadline_seconds p) &&
      match token_budget ph with
      | None => true
      | Some n => (0 <? n) && (n <=? i64_max)
      end
  end.

Definition validate (p : CampaignPolicy) : result Error unit :=
  let valid :=
    (cp_version p =? 1) &&
    ((1 <=? cp_survey_units_per_job p) && (cp_survey_units_per_job p <=? 32)) &&
    (0 <? cp_max_attempts p) &&
    (0 <? cp_campaign_max_jobs p) &&
    (0 <=? cp_campaign_handoff_reserve p) &&
    (cp_campaign_handoff_reserve p <? cp_campaign_max_jobs p) &&
    (1 <=? cp_retry_backoff_base_seconds p) &&
    (cp_retry_backoff_base_seconds p <=? cp_retry_backoff_cap_seconds p) &&
    forallb (phase_valid p) [Survey; Drilldown; Verify] in
  if valid then Ok tt else Err (ConflictError CCampaignPolicy).

Definition retry_delay (p : CampaignPolicy) (attempts : Z) : Z :=
  let multiplier :=
    match checked_pow 2 (saturating_sub_u32 attempts 1) with
    | Some m => m
    | None => i64_max
    end in
  Z.min (saturating_mul (cp_retry_backoff_base_seconds p) multiplier)
        (cp_retry_backoff_cap_seconds p).

(** ** Theorems *)

Lemma validate_Ok p :
  validate p = Ok tt ->
  1 <= cp_retry_backoff_base_seconds p <= cp_retry_backoff_cap_seconds p /\
  0 < cp_max_attempts p /\
  0 <= cp_campaign_handoff_reserve p < cp_campaign_max_jobs p /\
  1 <= cp_survey_units_per_job p <= 32 /\
  forall k, k ∈ [Survey; Drilldown; Verify] -> phase_valid p k = true.
Proof.
  unfold validate. case_match eqn:E; [|done]. intros _. bool_prop.
  repeat split; try lia. intros k Hk.
  rewrite forallb_forall in *. apply list_elem_of_In in Hk. auto.
Qed.

(** the retry backoff.  Under a valid policy and for every attempt count of a
    [u32], the delay is the capped exponential [base * 2^(attempts-1)]: at least
    one second, at most the cap, and never shorter for a later attempt, although
    the multiplier saturates at [i64::MAX]. *)
Theorem retry_delay_spec p attempts :
  validate p = Ok tt -> cp_retry_backoff_cap_seconds p <= i64_max ->
  0 <= attempts <= u32_max ->
  retry_delay p attempts =
    Z.min (cp_retry_backoff_base_seconds p * 2 ^ Z.max 0 (attempts - 1))
          (cp_retry_backoff_cap_seconds p) /\
  1 <= retry_delay p attempts <= cp_retry_backoff_cap_seconds p /\
  retry_delay p attempts <= retry_delay p (attempts + 1).
Proof.
  intros (Hb & _)%validate_Ok Hcap Ha.
  assert (forall n, 0 <= n -> retry_delay p n =
    Z.min (cp_retry_backoff_base_seconds p * 2 ^ Z.max 0 (n - 1))
          (cp_retry_backoff_cap_seconds p)) as Hd.
  { intros n Hn. unfold retry_delay, saturating_sub_u32, saturating_mul, checked_pow.
    set (e := Z.max 0 (n - 1)).
    assert (0 < 2 ^ e) by (apply Z.pow_pos_nonneg; lia).
    destruct (to_i64 (2 ^ e)) as [m|] eqn:E.
    - apply to_i64_Some in E as [-> _].
      assert (0 < cp_retry_backoff_base_seconds p * 2 ^ e) by nia.
      unfold i64_min, i64_max in *. lia.
    - apply to_i64_None in E. unfold i64_min, i64_max in *. nia. }
  rewrite !Hd by lia.
  assert (2 ^ Z.max 0 (attempts - 1) <= 2 ^ Z.max 0 (attempts + 1 - 1)).
  { apply Z.pow_le_mono_r; lia. }
  assert (0 < 2 ^ Z.max 0 (attempts - 1)) by (apply Z.pow_pos_nonneg; lia).
  nia.
Qed.

Lemma retry_delay_spec_witness :
  retry_delay campaign_policy_default 40 =
    Z.min (60 * 2 ^ Z.max 0 (40 - 1)) 3600 /\
  1 <= retry_delay campaign_policy_default 40 <= 3600 /\
  retry_delay campaign_policy_default 40 <= retry_delay campaign_policy_default (40 + 1).
Proof.
  apply (retry_delay_spec campaign_policy_default 40);
    [reflexivity | vm_compute; congruence | vm_compute; split; congruence].
Defined.
