(* ===== verification/Store.v ===== *)
(** * The store: tables, rows, transactions and foreign keys

    The SQLite database of [loupe-storage], as far as the queue, finding,
    report and recovery operations read and write it: one finite map per table
    ([migrations.rs] V1/V2, [migrations/v3/schema.rs], [migrations/v5.rs],
    [migrations/v7/schema.rs]), the rows the typed readers return, and the
    transaction discipline of [transaction.rs].

    A row is the value its reader ([row_to_job], [row_to_finding], ...) decodes;
    the columns a reader leaves out but a statement uses (the capability hash,
    the verdict stamps) are fields of the same record.  A statement fails with
    [ConstraintViolation] when it would leave a unique index or a foreign key
    broken.  A [Tx A] maps the database at the start of a statement sequence to
    its value and the database at the end; an [Err] carries no database, which
    is the rollback of [Transaction] on drop. *)

From S2P Require Import Prelude Sql Domain StateMachine Vocabulary SchedPolicy.
From Stdlib Require Import ZArith Lia.
From stdpp Require Import base gmap sets list strings numbers.
Local Open Scope Z_scope.

Abbreviation bytes := (list Z).

(** ** Rows *)

(** [review_units::Priority], the scheduling band of a phase job. *)
Inductive Band := Urgent | BHigh | Normal | Background.

#[export] Instance Band_eq_dec : EqDecision Band.
Proof. solve_decision. Defined.

Record JobRow := {
  j_id : Z;
  j_repo_id : Z;
  j_kind : JobKind;
  j_state : JobState;
  j_incremental : bool;
  j_since_sha : option str;
  j_head_sha : option str;
  j_parent_job_id : option Z;
  j_target_finding_id : option Z;
  j_worker_id : option Z;
  j_lease_expires_at : option Z;
  j_attempts : Z;
  j_enqueued_at : Z;
  j_started_at : option Z;
  j_finished_at : option Z;
  j_error : option str;
  j_campaign_id : option Z;
  j_generation_id : option Z;
  j_assigned_lead_id : option Z;
  j_continuation_of_job_id : option Z;
  j_scheduling_band : option Band;
  j_effective_priority : option Z;
  j_eligible_at : option Z;
  j_soft_deadline_at : option Z;
  j_hard_deadline_at : option Z;
  j_submit_by : option Z;
  j_token_budget : option Z;
  j_recipe : option str;
  j_workflow_contract_version : option Z;
  (* a column of the table that [row_to_job] does not read *)
  j_capability_hash : option bytes;
}.

#[export] Instance eta_JobRow : Eta JobRow := fun r => {|
  j_id := j_id r; j_repo_id := j_repo_id r; j_kind := j_kind r; j_state := j_state r;
  j_incremental := j_incremental r; j_since_sha := j_since_sha r; j_head_sha := j_head_sha r;
  j_parent_job_id := j_parent_job_id r; j_target_finding_id := j_target_finding_id r;
  j_worker_id := j_worker_id r; j_lease_expires_at := j_lease_expires_at r;
  j_attempts := j_attempts r; j_enqueued_at := j_enqueued_at r; j_started_at := j_started_at r;
  j_finished_at := j_finished_at r; j_error := j_error r; j_campaign_id := j_campaign_id r;
  j_generation_id := j_generation_id r; j_assigned_lead_id := j_assigned_lead_id r;
  j_continuation_of_job_id := j_continuation_of_job_id r;
  j_scheduling_band := j_scheduling_band r; j_effective_priority := j_effective_priority r;
  j_eligible_at := j_eligible_at r; j_soft_deadline_at := j_soft_deadline_at r;
  j_hard_deadline_at := j_hard_deadline_at r; j_submit_by := j_submit_by r;
  j_token_budget := j_token_budget r; j_recipe := j_recipe r;
  j_workflow_contract_version := j_workflow_contract_version r;
  j_capability_hash := j_capability_hash r |}.

Record FindingRow := {
  fr_id : Z;
  fr_repo_id : Z;
  fr_job_id : Z;
  fr_finding : Finding;
  fr_state : FindingState;
  fr_verification_required : bool;
  fr_created_at : Z;
  fr_approved_at : option Z;
  fr_approved_by_cn : option str;
  fr_rejected_at : option Z;
  fr_rejected_by_cn : option str;
  fr_patch_proposed_at : option Z;
  fr_patch_proposed_by_cn : option str;
  fr_patch_notes : option str;
  fr_report_identity : bytes;
  (* columns of the table that [row_to_finding] does not read *)
  fr_validating_deadline : option Z;
  fr_confirmed_at : option Z;
  fr_dismissed_at : option Z;
  fr_reported_at : option Z;
}.

#[export] Instance eta_Finding : Eta Finding := fun f => {|
  f_scanner_id := f_scanner_id f; f_severity := f_severity f; f_title := f_title f;
  f_description := f_description f; f_file_path := f_file_path f;
  f_line_start := f_line_start f; f_line_end := f_line_end f; f_cwe := f_cwe f;
  f_patch_unified := f_patch_unified f; f_poc_unified := f_poc_unified f;
  f_fingerprint := f_fingerprint f |}.

#[export] Instance eta_FindingRow : Eta FindingRow := fun r => {|
  fr_id := fr_id r; fr_repo_id := fr_repo_id r; fr_job_id := fr_job_id r;
  fr_finding := fr_finding r; fr_state := fr_state r;
  fr_verification_required := fr_verification_required r; fr_created_at := fr_created_at r;
  fr_approved_at := fr_approved_at r; fr_approved_by_cn := fr_approved_by_cn r;
  fr_rejected_at := fr_rejected_at r; fr_rejected_by_cn := fr_rejected_by_cn r;
  fr_patch_proposed_at := fr_patch_proposed_at r;
  fr_patch_proposed_by_cn := fr_patch_proposed_by_cn r; fr_patch_notes := fr_patch_notes r;
  fr_report_identity := fr_report_identity r;
  fr_validating_deadline := fr_validating_deadline r; fr_confirmed_at := fr_confirmed_at r;
  fr_dismissed_at := fr_dismissed_at r; fr_reported_at := fr_reported_at r |}.

(** [FindingRow::into_finding] *)
Definition into_finding (r : FindingRow) : Finding := fr_finding r.

(** The closed vocabulary of [finding_verifications.verdict]. *)
Inductive Outcome := OConfirmed | ODismissed | OInconclusive.

#[export] Instance Outcome_eq_dec : EqDecision Outcome.
Proof. solve_decision. Defined.

Record VerificationRow := {
  v_id : Z;
  v_finding_id : Z;
  v_job_id : option Z;
  v_verdict : Outcome;
  v_notes : option str;
  v_created_at : Z;
}.

Record RepoRow := {
  r_id : Z;
  r_clone_url : str;
  r_host : str;
  r_owner : str;
  r_repo : str;
  r_default_branch : option str;
  r_scan_interval_seconds : option Z;
  r_scanner_config : str;
  r_reporting : ReportingDestination;
  r_verification_enabled : bool;
  r_require_approval : option bool;
  r_last_scanned_sha : option str;
  r_last_scanned_at : option Z;
  r_created_at : Z;
  r_disabled_at : option Z;
}.

#[export] Instance eta_RepoRow : Eta RepoRow := fun r => {|
  r_id := r_id r; r_clone_url := r_clone_url r; r_host := r_host r; r_owner := r_owner r;
  r_repo := r_repo r; r_default_branch := r_default_branch r;
  r_scan_interval_seconds := r_scan_interval_seconds r; r_scanner_config := r_scanner_config r;
  r_reporting := r_reporting r; r_verification_enabled := r_verification_enabled r;
  r_require_approval := r_require_approval r; r_last_scanned_sha := r_last_scanned_sha r;
  r_last_scanned_at := r_last_scanned_at r; r_created_at := r_created_at r;
  r_disabled_at := r_disabled_at r |}.

Inductive WorkerKind := KindWorker | KindAdmin.

#[export] Instance WorkerKind_eq_dec : EqDecision WorkerKind.
Proof. solve_decision. Defined.

Record WorkerRow := {
  w_id : Z;
  w_name : str;
  w_kind : WorkerKind;
  w_cert_fingerprint : bytes;
  w_created_at : Z;
  w_last_seen_at : option Z;
  w_revoked_at : option Z;
}.

#[export] Instance eta_WorkerRow : Eta WorkerRow := fun r => {|
  w_id := w_id r; w_name := w_name r; w_kind := w_kind r;
  w_cert_fingerprint := w_cert_fingerprint r; w_created_at := w_created_at r;
  w_last_seen_at := w_last_seen_at r; w_revoked_at := w_revoked_at r |}.

(** [secrets::SecretKind] *)
Inductive SecretKind := GithubPat | GithubApp.

#[export] Instance SecretKind_eq_dec : EqDecision SecretKind.
Proof. solve_decision. Defined.

Record SecretRow := {
  s_id : Z;
  s_kind : SecretKind;
  s_label : str;
  s_value : bytes;
  s_created_at : Z;
}.

#[export] Instance eta_SecretRow : Eta SecretRow := fun r => {|
  s_id := s_id r; s_kind := s_kind r; s_label := s_label r; s_value := s_value r;
  s_created_at := s_created_at r |}.

(** The campaign columns the legacy queue reads. *)
Record CampaignRow := {
  c_id : Z;
  c_repo_id : Z;
  c_active : bool;
  c_deadline_at : option Z;
}.

(** The [finding_review_details] columns the legacy queue and the report
    selection read; [rd_recorded] is whether [evidence_payload] is stored. *)
Record ReviewDetailsRow := {
  rd_finding_id : Z;
  rd_repo_id : Z;
  rd_reviewed_commit_sha : str;
  rd_workflow_contract_version : Z;
  rd_origin_lead_id : option Z;
  rd_recorded : bool;
}.

Record ScanHistoryRow := {
  h_id : Z;
  h_repo_id : Z;
  h_job_id : Z;
  h_head_sha : str;
  h_base_sha : option str;
  h_finding_count : Z;
  h_duration_ms : Z;
  h_finished_at : Z;
}.

(** [scheduler_repo_state]: connection-local scheduling history. *)
Record SchedRepoRow := {
  sr_last_claim_seq : Z;
  sr_burst : Z;
}.

(** ** The database *)

Record Db := {
  jobs : gmap Z JobRow;
  findings : gmap Z FindingRow;
  finding_verifications : gmap Z VerificationRow;
  registered_repos : gmap Z RepoRow;
  workers : gmap Z WorkerRow;
  secrets : gmap Z SecretRow;
  review_campaigns : gmap Z CampaignRow;
  finding_review_details : gmap Z ReviewDetailsRow;
  finding_verification_intents : gset Z;
  scan_history : gmap Z ScanHistoryRow;
  scheduler_repo_state : gmap Z SchedRepoRow;
}.

#[export] Instance eta_Db : Eta Db := fun d => {|
  jobs := jobs d; findings := findings d; finding_verifications := finding_verifications d;
  registered_repos := registered_repos d; workers := workers d; secrets := secrets d;
  review_campaigns := review_campaigns d; finding_review_details := finding_review_details d;
  finding_verification_intents := finding_verification_intents d;
  scan_history := scan_history d; scheduler_repo_state := scheduler_repo_state d |}.

(** The database the migrations create. *)
Definition empty_db : Db := {|
  jobs := ∅; findings := ∅; finding_verifications := ∅; registered_repos := ∅; workers := ∅;
  secrets := ∅; review_campaigns := ∅; finding_review_details := ∅;
  finding_verification_intents := ∅; scan_history := ∅; scheduler_repo_state := ∅ |}.

(** ** Transactions *)

Definition Tx (A : Type) : Type := Db -> result Error (A * Db).

#[export] Instance tx_ret : MRet Tx := fun A a db => Ok (a, db).
#[export] Instance tx_bind : MBind Tx := fun A B f m db =>
  match m db with Ok (a, db') => f a db' | Err e => Err e end.

Definition tx_err {A} (e : Error) : Tx A := fun _ => Err e.
Definition tx_get : Tx Db := fun db => Ok (db, db).

(** [?] on a pure result inside a transaction. *)
Definition tx_lift {A} (r : result Error A) : Tx A := fun db =>
  match r with Ok a => Ok (a, db) | Err e => Err e end.

(** A body that decides whether it reaches [tx.commit()]: [Commit a] commits,
    [Rollback a] is an early [return Ok(a)] that drops the transaction. *)
Inductive Ending (A : Type) := Commit (a : A) | Rollback (a : A).
Arguments Commit {A} a.
Arguments Rollback {A} a.

Definition transaction {A} (body : Tx (Ending A)) : Tx A := fun db =>
  match body db with
  | Ok (Commit a, db') => Ok (a, db')
  | Ok (Rollback a, _) => Ok (a, db)
  | Err e => Err e
  end.

(** [transaction::immediate]: commit when the body returns a value. *)
Definition immediate {A} (mutate : Tx A) : Tx A :=
  transaction (value ← mutate; mret (Commit value)).

(** [for x in xs { f(x)?; }] *)
Fixpoint tx_for {A} (xs : list A) (f : A -> Tx unit) : Tx unit :=
  match xs with
  | [] => mret tt
  | x :: xs' => _ ← f x; tx_for xs' f
  end.

(** The connection after a call: an error leaves it unchanged. *)
Definition run {A} (m : Tx A) (db : Db) : Db :=
  match m db with Ok (_, db') => db' | Err _ => db end.

(** ** Indexes and foreign keys *)

Definition active_state (s : JobState) : bool :=
  match s with Queued | Leased => true | _ => false end.

(** [idx_jobs_capability] *)
Definition capability_key (r : JobRow) : option bytes := j_capability_hash r.

(** [idx_jobs_active_verify] *)
Definition active_verify_key (r : JobRow) : option Z :=
  if active_state (j_state r) && bool_decide (j_kind r = Verify)
  then j_target_finding_id r else None.

(** [idx_jobs_active_drilldown] *)
Definition active_drilldown_key (r : JobRow) : option Z :=
  if active_state (j_state r) && bool_decide (j_kind r = Drilldown)
  then j_assigned_lead_id r else None.

Definition jobs_unique (t : gmap Z JobRow) : bool :=
  unique_on capability_key t && unique_on active_verify_key t &&
  unique_on active_drilldown_key t.

(** [REFERENCES t(id)] on a nullable column. *)
Definition fk {R} (o : option Z) (t : gmap Z R) : bool :=
  match o with None => true | Some k => bool_decide (is_Some (t !! k)) end.

(** ** Statements

    Each runs on one table and returns SQLite's count of changed rows. *)

(** [UPDATE jobs ...] *)
Definition update_jobs (P : JobRow -> bool) (f : JobRow -> JobRow) : Tx Z := fun db =>
  let t := sql_update P f (jobs db) in
  if jobs_unique t then Ok (sql_count P (jobs db), db <|jobs := t|>)
  else Err (Sqlite ConstraintViolation).

(** [INSERT INTO jobs ...]; [row] is the inserted row but for its id. *)
Definition insert_job (row : JobRow) : Tx Z := fun db =>
  match next_rowid (jobs db) with
  | None => Err (Sqlite RowIdsExhausted)
  | Some id =>
      let row := row <|j_id := id|> in
      let t := <[id := row]> (jobs db) in
      if jobs_unique t && fk (Some (j_repo_id row)) (registered_repos db) &&
         fk (j_parent_job_id row) (jobs db)
      then Ok (id, db <|jobs := t|>)
      else Err (Sqlite ConstraintViolation)
  end.

(** [UPDATE findings ...], for the updates that leave the indexed columns
    ([repo_id], [fingerprint], [report_identity]) alone. *)
Definition update_findings (P : FindingRow -> bool) (f : FindingRow -> FindingRow) : Tx Z :=
  fun db => Ok (sql_count P (findings db), db <|findings := sql_update P f (findings db)|>).

(** [DELETE FROM findings ...], with the cascades of the tables that reference
    a finding. *)
Definition delete_findings (P : FindingRow -> bool) : Tx Z := fun db =>
  let gone id := match findings db !! id with Some f => P f | None => false end in
  Ok (sql_count P (findings db),
      db <|findings := sql_delete P (findings db)|>
         <|finding_verifications := sql_delete (fun v => gone (v_finding_id v)) (finding_verifications db)|>
         <|finding_review_details := sql_delete (fun d => gone (rd_finding_id d)) (finding_review_details db)|>
         <|finding_verification_intents := filter (fun id => gone id = false) (finding_verification_intents db)|>).

(** [INSERT INTO finding_verifications ...] *)
Definition insert_verification_row (v : VerificationRow) : Tx Z := fun db =>
  match next_rowid (finding_verifications db) with
  | None => Err (Sqlite RowIdsExhausted)
  | Some id =>
      let v := {| v_id := id; v_finding_id := v_finding_id v; v_job_id := v_job_id v;
                  v_verdict := v_verdict v; v_notes := v_notes v;
                  v_created_at := v_created_at v |} in
      if fk (Some (v_finding_id v)) (findings db) && fk (v_job_id v) (jobs db)
      then Ok (id, db <|finding_verifications := <[id := v]> (finding_verifications db)|>)
      else Err (Sqlite ConstraintViolation)
  end.

(** [INSERT INTO scan_history ...] *)
Definition insert_history (h : ScanHistoryRow) : Tx unit := fun db =>
  match next_rowid (scan_history db) with
  | None => Err (Sqlite RowIdsExhausted)
  | Some id =>
      let h := {| h_id := id; h_repo_id := h_repo_id h; h_job_id := h_job_id h;
                  h_head_sha := h_head_sha h; h_base_sha := h_base_sha h;
                  h_finding_count := h_finding_count h; h_duration_ms := h_duration_ms h;
                  h_finished_at := h_finished_at h |} in
      if fk (Some (h_repo_id h)) (registered_repos db) && fk (Some (h_job_id h)) (jobs db)
      then Ok (tt, db <|scan_history := <[id := h]> (scan_history db)|>)
      else Err (Sqlite ConstraintViolation)
  end.

(** [UPDATE registered_repos ...], for columns no index covers. *)
Definition update_repos (P : RepoRow -> bool) (f : RepoRow -> RepoRow) : Tx Z := fun db =>
  Ok (sql_count P (registered_repos db),
      db <|registered_repos := sql_update P f (registered_repos db)|>).

(** [SELECT EXISTS(...)] and a one-row [query_row(..).optional()] by id. *)
Definition tx_exists {R} (table : Db -> gmap Z R) (P : R -> bool) : Tx bool := fun db =>
  Ok (sql_exists P (table db), db).

Definition tx_select {R} (table : Db -> gmap Z R) (P : R -> bool) : Tx (list R) := fun db =>
  Ok (sql_select P (table db), db).

Definition tx_first {R} (table : Db -> gmap Z R) (P : R -> bool) : Tx (option R) := fun db =>
  Ok (head (sql_select P (table db)), db).
