(* ===== verification/TxLogic.v ===== *)
(** * Reasoning about transactions

    Inversion lemmas for the statements of [Store] and the tactic [tx_inv],
    which turns a successful run of a statement sequence into the equations of
    its statements. *)

From S2P Require Import Prelude Sql Domain StateMachine Vocabulary SchedPolicy Store.
From Stdlib Require Import ZArith Lia.
From stdpp Require Import base gmap sets list strings.
Local Open Scope Z_scope.

Lemma tx_bind_Ok {A B} (m : Tx A) (f : A -> Tx B) db b db' :
  (m ≫= f) db = Ok (b, db') <->
  exists a db1, m db = Ok (a, db1) /\ f a db1 = Ok (b, db').
Proof.
  unfold mbind, tx_bind. split.
  - destruct (m db) as [[a db1]|e]; [eauto|done].
  - by intros (a & db1 & -> & H).
Qed.

Lemma tx_bind_run {A B} (m : Tx A) (f : A -> Tx B) db a db1 :
  m db = Ok (a, db1) -> (m ≫= f) db = f a db1.
Proof. unfold mbind, tx_bind. by intros ->. Qed.

Lemma tx_bind_pair {A B} (m : Tx A) (f : A -> Tx B) db p :
  m db = Ok p -> (m ≫= f) db = f p.1 p.2.
Proof. unfold mbind, tx_bind. intros ->. by destruct p. Qed.

Lemma tx_bind_fail {A B} (m : Tx A) (f : A -> Tx B) db e :
  m db = Err e -> (m ≫= f) db = Err e.
Proof. unfold mbind, tx_bind. by intros ->. Qed.

Lemma tx_ret_Ok {A} (a b : A) (db db' : Db) :
  (mret a : Tx A) db = Ok (b, db') <-> b = a /\ db' = db.
Proof. unfold mret, tx_ret. naive_solver. Qed.

Lemma tx_get_Ok (a db db' : Db) : tx_get db = Ok (a, db') <-> a = db /\ db' = db.
Proof. unfold tx_get. naive_solver. Qed.

Lemma tx_err_Ok {A} e db (r : A * Db) : tx_err e db = Ok r <-> False.
Proof. unfold tx_err. naive_solver. Qed.

Lemma tx_lift_Ok {A} (r : result Error A) db a db' :
  tx_lift r db = Ok (a, db') <-> r = Ok a /\ db' = db.
Proof. unfold tx_lift. destruct r; naive_solver. Qed.

Lemma tx_exists_Ok {R} table (P : R -> bool) db b db' :
  tx_exists table P db = Ok (b, db') <-> b = sql_exists P (table db) /\ db' = db.
Proof. unfold tx_exists. naive_solver. Qed.

Lemma tx_select_Ok {R} table (P : R -> bool) db b db' :
  tx_select table P db = Ok (b, db') <-> b = sql_select P (table db) /\ db' = db.
Proof. unfold tx_select. naive_solver. Qed.

Lemma tx_first_Ok {R} table (P : R -> bool) db b db' :
  tx_first table P db = Ok (b, db') <-> b = head (sql_select P (table db)) /\ db' = db.
Proof. unfold tx_first. naive_solver. Qed.

Lemma immediate_Ok {A} (m : Tx A) db a db' : immediate m db = Ok (a, db') <-> m db = Ok (a, db').
Proof.
  unfold immediate, transaction, mbind, tx_bind, mret, tx_ret.
  destruct (m db) as [[x d]|e]; naive_solver.
Qed.

Lemma transaction_Ok {A} (m : Tx (Ending A)) db a db' :
  transaction m db = Ok (a, db') <->
  m db = Ok (Commit a, db') \/ (exists d, m db = Ok (Rollback a, d) /\ db' = db).
Proof.
  unfold transaction. destruct (m db) as [[[x|x] d]|e]; naive_solver.
Qed.

Lemma update_jobs_Ok P f db n db' :
  update_jobs P f db = Ok (n, db') <->
  jobs_unique (sql_update P f (jobs db)) = true /\ n = sql_count P (jobs db) /\
  db' = db <|jobs := sql_update P f (jobs db)|>.
Proof. unfold update_jobs. case_match; naive_solver. Qed.

Lemma insert_job_Ok row db id db' :
  insert_job row db = Ok (id, db') <->
  next_rowid (jobs db) = Some id /\
  jobs_unique (<[id := row <|j_id := id|>]> (jobs db)) = true /\
  fk (Some (j_repo_id row)) (registered_repos db) = true /\
  fk (j_parent_job_id row) (jobs db) = true /\
  db' = db <|jobs := <[id := row <|j_id := id|>]> (jobs db)|>.
Proof.
  unfold insert_job. destruct (next_rowid (jobs db)) as [k|]; [|naive_solver].
  match goal with |- context [if ?b then _ else _] => destruct b eqn:E end.
  - bool_prop. split; [|naive_solver]. intros [= <- <-]. auto.
  - split; [done|]. intros ([= ->] & Hu & Hr & Hp & ->).
    change (jobs_unique _ && _ && _) with
      (jobs_unique (<[id := row <|j_id := id|>]> (jobs db)) &&
       fk (Some (j_repo_id row)) (registered_repos db) && fk (j_parent_job_id row) (jobs db)) in E.
    by rewrite Hu, Hr, Hp in E.
Qed.

Lemma update_findings_Ok P f db n db' :
  update_findings P f db = Ok (n, db') <->
  n = sql_count P (findings db) /\ db' = db <|findings := sql_update P f (findings db)|>.
Proof. unfold update_findings. naive_solver. Qed.

Lemma update_repos_Ok P f db n db' :
  update_repos P f db = Ok (n, db') <->
  n = sql_count P (registered_repos db) /\
  db' = db <|registered_repos := sql_update P f (registered_repos db)|>.
Proof. unfold update_repos. naive_solver. Qed.

Lemma insert_history_Ok h db u db' :
  insert_history h db = Ok (u, db') ->
  exists t, db' = db <|scan_history := t|>.
Proof.
  unfold insert_history. repeat case_match; try done. intros [= <- <-]. eauto.
Qed.

Lemma insert_verification_row_Ok v db id db' :
  insert_verification_row v db = Ok (id, db') ->
  next_rowid (finding_verifications db) = Some id /\
  fk (Some (v_finding_id v)) (findings db) = true /\
  db' = db <|finding_verifications :=
    <[id := {| v_id := id; v_finding_id := v_finding_id v; v_job_id := v_job_id v;
               v_verdict := v_verdict v; v_notes := v_notes v; v_created_at := v_created_at v |}]>
    (finding_verifications db)|>.
Proof.
  unfold insert_verification_row. destruct (next_rowid _) as [k|]; [|done].
  match goal with |- context [if ?b then _ else _] => destruct b eqn:E end; [|done].
  apply andb_true_iff in E as [E _]. intros [= <- <-]. auto.
Qed.

Lemma fk_true {R} (o : option Z) (t : gmap Z R) :
  fk o t = true <-> forall k, o = Some k -> is_Some (t !! k).
Proof.
  unfold fk. destruct o as [k|]; [|naive_solver].
  rewrite bool_decide_eq_true. naive_solver.
Qed.

Lemma head_select_Some {R} (P : R -> bool) (t : gmap Z R) r :
  head (sql_select P t) = Some r -> P r = true /\ exists i, t !! i = Some r.
Proof.
  intros H. apply elem_of_sql_select. destruct (sql_select P t); [done|].
  cbn in H. simplify_eq. by left.
Qed.

Lemma head_select_None {R} (P : R -> bool) (t : gmap Z R) :
  head (sql_select P t) = None <-> forall i r, t !! i = Some r -> P r = false.
Proof.
  rewrite <- sql_select_nil. destruct (sql_select P t); naive_solver.
Qed.

(** An update that can only take rows out of the indexes. *)
Lemma jobs_unique_update P f t :
  (forall j k, P j = true -> capability_key (f j) = Some k -> capability_key j = Some k) ->
  (forall j k, P j = true -> active_verify_key (f j) = Some k -> active_verify_key j = Some k) ->
  (forall j k, P j = true -> active_drilldown_key (f j) = Some k -> active_drilldown_key j = Some k) ->
  jobs_unique t = true -> jobs_unique (sql_update P f t) = true.
Proof.
  intros H1 H2 H3 Hu. unfold jobs_unique in *. bool_prop.
  by rewrite !unique_on_update.
Qed.

(** A loop whose body keeps [I] keeps [I]. *)
Lemma tx_for_inv {A} (I : list A -> Db -> Prop) (f : A -> Tx unit) xs db u db' :
  (forall x rest d u d', I (x :: rest) d -> f x d = Ok (u, d') -> I rest d') ->
  I xs db -> tx_for xs f db = Ok (u, db') -> I [] db'.
Proof.
  intros Hf. revert db. induction xs as [|x xs IH]; intros db HI H; cbn in H.
  - by apply tx_ret_Ok in H as [_ ->].
  - apply tx_bind_Ok in H as ([] & d & Hx & H). eauto.
Qed.

(** Invert a run that succeeded, one statement at a time. *)
Ltac tx_inv_step H :=
  lazymatch type of H with
  | mbind _ _ _ = Ok _ =>
      let a := fresh "a" in let d := fresh "d" in let H1 := fresh "Hs" in
      apply tx_bind_Ok in H as (a & d & H1 & H); tx_inv_step H1; tx_inv_step H
  | mret _ _ = Ok _ => apply tx_ret_Ok in H as [? ?]; simplify_eq
  | tx_get _ = Ok _ => apply tx_get_Ok in H as [? ?]; simplify_eq
  | tx_err _ _ = Ok _ => apply tx_err_Ok in H; destruct H
  | tx_lift _ _ = Ok _ => apply tx_lift_Ok in H as [H ?]; simplify_eq
  | tx_exists _ _ _ = Ok _ => apply tx_exists_Ok in H as [? ?]; simplify_eq
  | tx_select _ _ _ = Ok _ => apply tx_select_Ok in H as [? ?]; simplify_eq
  | tx_first _ _ _ = Ok _ => apply tx_first_Ok in H as [? ?]; simplify_eq
  | immediate _ _ = Ok _ => apply (proj1 (immediate_Ok _ _ _ _)) in H; tx_inv_step H
  | update_findings _ _ _ = Ok _ => apply update_findings_Ok in H as [? ?]; simplify_eq
  | update_jobs _ _ _ = Ok _ => idtac
  | _ => idtac
  end.
Ltac tx_inv H := tx_inv_step H.
