(* ===== verification/Scope.v ===== *)
(** * Scopes ([loupe-storage/src/scope.rs], [jobs.rs])

    The two authorities a transaction body runs under.  A [RepoScope] names
    the one repository the body may touch and whether an operator issued it; an
    [AssignmentScope] adds the live lease and the job row the issuer selected.
    The issuers themselves are in [Issuer]. *)

From S2P Require Import Prelude Sql Domain StateMachine Vocabulary SchedPolicy Store.
From Stdlib Require Import ZArith Lia.
From stdpp Require Import base gmap list strings.
Local Open Scope Z_scope.

Record LeaseIdentity := {
  li_job_id : Z;
  li_worker_id : Z;
  li_capability_hash : bytes;
}.

Record ActiveLease := {
  al_identity : LeaseIdentity;
  al_now : Z;
}.

(** [rs_identity] is the address of the handle's [DbIdentity], [rs_committed]
    the address of the transaction's [AtomicBool]. *)
Record RepoScope := {
  rs_repo_id : Z;
  rs_identity : Z;
  rs_operator : bool;
  rs_committed : Z;
}.

Record AssignmentScope := {
  as_repo : RepoScope;
  as_job : JobRow;
  as_lease : ActiveLease;
}.

Inductive OperatorTarget :=
| TRepository (id : Z)
| TJob (id : Z)
| TFinding (id : Z).

(** [RepoScope::require_operator] *)
Definition require_operator (scope : RepoScope) : Tx unit :=
  if rs_operator scope then mret tt else tx_err ScopeDenied.
