(* ===== verification/Repos.v ===== *)
(** * Repositories, workers and secrets
      ([loupe-storage/src/repos.rs], [workers.rs], [secrets.rs], [github_app.rs],
      [registry.rs]) *)

From S2P Require Import Prelude Sql Domain StateMachine Vocabulary SchedPolicy Store Scope.
From Stdlib Require Import ZArith Lia DecimalString.
From stdpp Require Import base gmap sets list strings.
Local Open Scope Z_scope.

(** ** Secrets *)
Module Secrets.

(** [UNIQUE(kind, label)] *)
Definition label_key (s : SecretRow) : option (SecretKind * str) := Some (s_kind s, s_label s).

Definition insert (kind : SecretKind) (label : str) (value : bytes) (now : Z) : Tx Z := fun db =>
  match next_rowid (secrets db) with
  | None => Err (Sqlite RowIdsExhausted)
  | Some id =>
      let t := <[id := {| s_id := id; s_kind := kind; s_label := label; s_value := value;
                          s_created_at := now |}]> (secrets db) in
      if unique_on label_key t then Ok (id, db <|secrets := t|>)
      else Err (Sqlite ConstraintViolation)
  end.

Definition read (id : Z) : Tx (option bytes) :=
  row ← tx_first secrets (fun s => s_id s =? id); mret (s_value <$> row).

Definition delete (id : Z) : Tx bool := fun db =>
  let P s := s_id s =? id in
  Ok (0 <? sql_count P (secrets db), db <|secrets := sql_delete P (secrets db)|>).

End Secrets.

(** ** The server-wide GitHub App credential *)
Module GithubAppStore.

Definition LABEL : str := lit "server".

Definition is_app (s : SecretRow) : bool :=
  bool_decide (s_kind s = GithubApp) && str_eqb (s_label s) LABEL.

(** [set]: insert, or replace value and time on [(kind, label)] conflict. *)
Definition set_app (value : bytes) (now : Z) : Tx unit := fun db =>
  if sql_exists is_app (secrets db) then
    Ok (tt, db <|secrets := sql_update is_app
                  (fun s => s <|s_value := value|> <|s_created_at := now|>) (secrets db)|>)
  else match Secrets.insert GithubApp LABEL value now db with
       | Ok (_, db') => Ok (tt, db')
       | Err e => Err e
       end.

Definition get : Tx (option bytes) :=
  row ← tx_first secrets is_app; mret (s_value <$> row).

Definition clear : Tx bool := fun db =>
  Ok (0 <? sql_count is_app (secrets db), db <|secrets := sql_delete is_app (secrets db)|>).

End GithubAppStore.

(** ** Repositories *)
Module Repos.

Definition get_raw (id : Z) : Tx (option RepoRow) := tx_first registered_repos (fun r => r_id r =? id).

Definition get (scope : RepoScope) : Tx (option RepoRow) := get_raw (rs_repo_id scope).

(** [RepoRow::effective_require_approval] *)
Definition effective_require_approval (r : RepoRow) (server_default : bool) : bool :=
  match r_require_approval r with Some b => b | None => server_default end.

(** [UNIQUE(clone_url)] *)
Definition clone_url_key (r : RepoRow) : option str := Some (r_clone_url r).

Record NewRepo := {
  nr_clone_url : str;
  nr_host : str;
  nr_owner : str;
  nr_repo : str;
  nr_default_branch : option str;
  nr_scan_interval_seconds : option Z;
  nr_scanner_config : str;
  nr_reporting : ReportingDestination;
  nr_verification_enabled : bool;
  nr_require_approval : option bool;
}.

#[export] Instance eta_NewRepo : Eta NewRepo := fun n => {|
  nr_clone_url := nr_clone_url n; nr_host := nr_host n; nr_owner := nr_owner n;
  nr_repo := nr_repo n; nr_default_branch := nr_default_branch n;
  nr_scan_interval_seconds := nr_scan_interval_seconds n;
  nr_scanner_config := nr_scanner_config n; nr_reporting := nr_reporting n;
  nr_verification_enabled := nr_verification_enabled n;
  nr_require_approval := nr_require_approval n |}.

Definition insert (new : NewRepo) (now : Z) : Tx Z := fun db =>
  match next_rowid (registered_repos db) with
  | None => Err (Sqlite RowIdsExhausted)
  | Some id =>
      let row := {| r_id := id; r_clone_url := nr_clone_url new; r_host := nr_host new;
                    r_owner := nr_owner new; r_repo := nr_repo new;
                    r_default_branch := nr_default_branch new;
                    r_scan_interval_seconds := nr_scan_interval_seconds new;
                    r_scanner_config := nr_scanner_config new; r_reporting := nr_reporting new;
                    r_verification_enabled := nr_verification_enabled new;
                    r_require_approval := nr_require_approval new;
                    r_last_scanned_sha := None; r_last_scanned_at := None;
                    r_created_at := now; r_disabled_at := None |} in
      let t := <[id := row]> (registered_repos db) in
      if unique_on clone_url_key t then Ok (id, db <|registered_repos := t|>)
      else Err (Sqlite ConstraintViolation)
  end.

(** [DELETE FROM registered_repos], with its cascades: the repository's jobs,
    findings, campaigns and history, and what references those. *)
Definition delete_raw (id : Z) : Tx bool := fun db =>
  let P r := r_id r =? id in
  let gone_repo k := match registered_repos db !! k with Some r => P r | None => false end in
  let gone_job k := match jobs db !! k with Some j => gone_repo (j_repo_id j) | None => false end in
  let lost f := gone_repo (fr_repo_id f) || gone_job (fr_job_id f) in
  let gone_finding k := match findings db !! k with Some f => lost f | None => false end in
  let cleared o := match o with Some k => if gone_job k then None else Some k | None => None end in
  Ok (0 <? sql_count P (registered_repos db),
      db <|registered_repos := sql_delete P (registered_repos db)|>
         <|jobs := (fun j => j <|j_parent_job_id := cleared (j_parent_job_id j)|>
                               <|j_continuation_of_job_id := cleared (j_continuation_of_job_id j)|>)
                   <$> sql_delete (fun j => gone_repo (j_repo_id j)) (jobs db)|>
         <|findings := sql_delete lost (findings db)|>
         <|finding_verifications :=
             sql_delete (fun v => gone_finding (v_finding_id v) ||
                                  match v_job_id v with Some k => gone_job k | None => false end)
               (finding_verifications db)|>
         <|review_campaigns := sql_delete (fun c => gone_repo (c_repo_id c)) (review_campaigns db)|>
         <|finding_review_details :=
             sql_delete (fun d => gone_repo (rd_repo_id d) || gone_finding (rd_finding_id d))
               (finding_review_details db)|>
         <|finding_verification_intents :=
             filter (fun k => gone_finding k = false) (finding_verification_intents db)|>
         <|scan_history :=
             sql_delete (fun h => gone_repo (h_repo_id h) || gone_job (h_job_id h))
               (scan_history db)|>).

Definition delete (scope : RepoScope) : Tx bool :=
  _ ← require_operator scope; delete_raw (rs_repo_id scope).

Definition update_reporting (id : Z) (reporting : ReportingDestination) : Tx bool :=
  n ← update_repos (fun r => r_id r =? id) (fun r => r <|r_reporting := reporting|>);
  mret (0 <? n).

(** [count_github_destinations] *)
Definition count_github_destinations (matches : option Z -> bool) : Tx Z := fun db =>
  Ok (sql_count (fun r => match r_reporting r with
                          | GithubIssue _ _ pat_secret_id => matches pat_secret_id
                          | _ => false
                          end) (registered_repos db), db).

Definition count_github_pat_references (secret_id : Z) : Tx Z :=
  count_github_destinations (fun p => sql_eq p secret_id).

Definition count_github_app_references : Tx Z :=
  count_github_destinations (fun p => sql_null p).

Record RepoUpdate := {
  ru_disabled : option bool;
  ru_scan_interval_seconds : option Z;
  ru_verification_enabled : option bool;
  ru_require_approval : option (option bool);
}.

(** The assignments [update_raw] collects, applied to one row. *)
Definition apply_patch (patch : RepoUpdate) (now : Z) (r : RepoRow) : RepoRow :=
  let r := match ru_disabled patch with
           | Some true => r <|r_disabled_at := Some now|>
           | Some false => r <|r_disabled_at := None|>
           | None => r end in
  let r := match ru_scan_interval_seconds patch with
           | Some secs => r <|r_scan_interval_seconds := Some secs|>
           | None => r end in
  let r := match ru_verification_enabled patch with
           | Some v => r <|r_verification_enabled := v|>
           | None => r end in
  match ru_require_approval patch with
  | Some ra => r <|r_require_approval := ra|>
  | None => r end.

Definition update_raw (id : Z) (patch : RepoUpdate) (now : Z) : Tx bool :=
  if sql_null (ru_disabled patch) && sql_null (ru_scan_interval_seconds patch) &&
     sql_null (ru_verification_enabled patch) && sql_null (ru_require_approval patch)
  then row ← get_raw id; mret (sql_some row)
  else n ← update_repos (fun r => r_id r =? id) (apply_patch patch now); mret (0 <? n).

Definition update (scope : RepoScope) (patch : RepoUpdate) (now : Z) : Tx bool :=
  _ ← require_operator scope; update_raw (rs_repo_id scope) patch now.

(** The [WHERE] clause of [list_due_for_scan]. *)
Definition due_for_scan (now : Z) (r : RepoRow) : bool :=
  match r_scan_interval_seconds r with
  | None => false
  | Some interval =>
      sql_null (r_disabled_at r) &&
      match r_last_scanned_at r with None => true | Some at_ => at_ + interval <? now end
  end.

Definition list_due_for_scan (now : Z) : Tx (list RepoRow) :=
  tx_select registered_repos (due_for_scan now).

(** [registry::ReportingWrite] *)
Inductive ReportingWrite (A : Type) := Done (a : A) | NoApp.
Arguments Done {A} a.
Arguments NoApp {A}.

(** [format!] of an [i64]: its decimal digits. *)
Definition show_i64 (z : Z) : str := lit (NilZero.string_of_int (Z.to_int z)).

Definition replace_label (old : RepoRow) (owner repo : str) (repo_id previous now : Z) : str :=
  lit "pat:" ++ r_host old ++ lit ":" ++ owner ++ lit "/" ++ repo ++ lit ":repo:" ++
  show_i64 repo_id ++ lit ":replaces:" ++ show_i64 previous ++ lit ":at:" ++ show_i64 now.

(** [repos::set_github_reporting] *)
Definition set_github_reporting (scope : RepoScope) (target_owner target_repo : str)
    (pat : option bytes) (now : Z) : Tx (ReportingWrite bool) :=
  _ ← require_operator scope;
  old ← get scope;
  match old with
  | None => mret (Done false)
  | Some old =>
      let previous := match r_reporting old with GithubIssue _ _ p => p | _ => None end in
      let write secret_id :=
        changed ← update_reporting (rs_repo_id scope)
                    (GithubIssue target_owner target_repo secret_id);
        _ ← match previous with
            | Some previous =>
                n ← count_github_pat_references previous;
                if n =? 0 then Secrets.delete previous else mret false
            | None => mret false
            end;
        mret (Done changed) in
      match pat with
      | Some pat =>
          id ← Secrets.insert GithubPat
                 (replace_label old target_owner target_repo (rs_repo_id scope)
                    (default 0 previous) now) pat now;
          write (Some id)
      | None =>
          app ← GithubAppStore.get;
          match app with None => mret NoApp | Some _ => write None end
      end
  end.

Inductive PatRotation := Rotated | Missing | AppMode | OtherDestination.

Definition rotate_github_pat (scope : RepoScope) (pat : bytes) (now : Z) : Tx PatRotation :=
  _ ← require_operator scope;
  old ← get scope;
  match old with
  | None => mret Missing
  | Some old =>
      match r_reporting old with
      | GithubIssue target_owner target_repo (Some _) =>
          _ ← set_github_reporting scope target_owner target_repo (Some pat) now;
          mret Rotated
      | GithubIssue _ _ None => mret AppMode
      | _ => mret OtherDestination
      end
  end.

End Repos.

(** ** Workers *)
Module Workers.

(** [WorkerKind::as_str] *)
Definition as_str (k : WorkerKind) : str :=
  match k with KindWorker => lit "worker" | KindAdmin => lit "admin" end.

Definition name_key (w : WorkerRow) : option str := Some (w_name w).
Definition fingerprint_key (w : WorkerRow) : option bytes := Some (w_cert_fingerprint w).

Definition insert (name : str) (kind : WorkerKind) (cert_fingerprint : bytes) (now : Z) : Tx Z :=
  fun db =>
  match next_rowid (workers db) with
  | None => Err (Sqlite RowIdsExhausted)
  | Some id =>
      let t := <[id := {| w_id := id; w_name := name; w_kind := kind;
                          w_cert_fingerprint := cert_fingerprint; w_created_at := now;
                          w_last_seen_at := None; w_revoked_at := None |}]> (workers db) in
      if unique_on name_key t && unique_on fingerprint_key t then Ok (id, db <|workers := t|>)
      else Err (Sqlite ConstraintViolation)
  end.

Definition insert_bootstrap_admin (cert_fingerprint : bytes) (now : Z) : Tx Z :=
  insert (lit "admin") KindAdmin cert_fingerprint now.

Definition find_active_by_fingerprint (cert_fingerprint : bytes) : Tx (option WorkerRow) :=
  tx_first workers (fun w =>
    bool_decide (w_cert_fingerprint w = cert_fingerprint) && sql_null (w_revoked_at w)).

Definition revoke (id now : Z) : Tx bool := fun db =>
  let P w := (w_id w =? id) && sql_null (w_revoked_at w) in
  Ok (0 <? sql_count P (workers db),
      db <|workers := sql_update P (fun w => w <|w_revoked_at := Some now|>) (workers db)|>).

Definition touch_last_seen (id now : Z) : Tx unit := fun db =>
  Ok (tt, db <|workers := sql_update (fun w => w_id w =? id)
                            (fun w => w <|w_last_seen_at := Some now|>) (workers db)|>).

End Workers.

(** ** Registry operations *)
Module Registry.
Import Repos.

Inductive ClearedApp := Removed | AppMissing | InUse (references : Z).

Definition clear_github_app : Tx ClearedApp :=
  immediate (
    references ← count_github_app_references;
    if negb (references =? 0) then mret (InUse references)
    else cleared ← GithubAppStore.clear;
         mret (if (cleared : bool) then Removed else AppMissing)).

Definition pat_label (new : NewRepo) (owner repo : str) : str :=
  lit "pat:" ++ nr_host new ++ lit ":" ++ owner ++ lit "/" ++ repo.

Definition register_repository (new : NewRepo) (pat : option bytes) (now : Z)
    : Tx (ReportingWrite Z) :=
  immediate (
    match nr_reporting new with
    | GithubIssue target_owner target_repo pat_secret_id =>
        match pat_secret_id with
        | Some _ => tx_err ScopeDenied
        | None =>
            match pat with
            | Some pat =>
                secret ← Secrets.insert GithubPat (pat_label new target_owner target_repo) pat now;
                id ← insert (new <|nr_reporting :=
                               GithubIssue target_owner target_repo (Some secret)|>) now;
                mret (Done id)
            | None =>
                app ← GithubAppStore.get;
                match app with
                | None => mret NoApp
                | Some _ => id ← insert new now; mret (Done id)
                end
            end
        end
    | _ =>
        match pat with
        | Some _ => tx_err ScopeDenied
        | None => id ← insert new now; mret (Done id)
        end
    end).

End Registry.
