(* ===== verification/Findings.v ===== *)
(** * Findings ([loupe-storage/src/findings.rs])

    Every statement of the findings DAO: acceptance of a scan's findings, the
    flip after a successful scan, verdicts and their rollup, the validating
    deadline, revival, approval and rejection, and the full-text keyword
    sanitiser. *)

From S2P Require Import Prelude Sql Domain StateMachine Vocabulary SchedPolicy Store Scope Repos.
From Stdlib Require Import ZArith Lia.
From stdpp Require Import base gmap sets list strings.
Local Open Scope Z_scope.

Definition VALIDATING_DEADLINE_EXPIRED_NOTE : str := lit "validating_deadline expired".

(** [machine(..).map_err(sql_state_transition_error)?] *)
Definition apply_transition {A} (r : result StateTransitionError A) : Tx A :=
  tx_lift (map_err sql_state_transition_error r).

(** ** Reads *)

(** [get_selected], and [get] for the scope's repository. *)
Definition get_selected (repo id : Z) : Tx (option FindingRow) :=
  tx_first findings (fun f => (fr_id f =? id) && (fr_repo_id f =? repo)).

Definition get (scope : RepoScope) (id : Z) : Tx (option FindingRow) :=
  get_selected (rs_repo_id scope) id.

Definition get_raw (id : Z) : Tx (option FindingRow) :=
  tx_first findings (fun f => fr_id f =? id).

Definition list_for_job (scope : RepoScope) (job : Z) : Tx (list FindingRow) :=
  tx_select findings (fun f => (fr_job_id f =? job) && (fr_repo_id f =? rs_repo_id scope)).

(** [ORDER BY id DESC LIMIT ?2] *)
Definition list_for_repo_raw (repo_id limit : Z) : Tx (list FindingRow) :=
  rows ← tx_select findings (fun f => fr_repo_id f =? repo_id);
  mret (sql_limit limit (reverse rows)).

Definition list_for_repo (scope : RepoScope) (limit : Z) : Tx (list FindingRow) :=
  list_for_repo_raw (rs_repo_id scope) limit.

(** ** Acceptance *)

(** [UNIQUE(repo_id, fingerprint)] *)
Definition fingerprint_key (f : FindingRow) : option (Z * str) :=
  Some (fr_repo_id f, f_fingerprint (fr_finding f)).

(** [idx_findings_report_identity] *)
Definition report_identity_key (f : FindingRow) : option bytes := Some (fr_report_identity f).

Definition new_row (id repo_id job_id : Z) (f : Finding) (state : FindingState)
    (verification_required : bool) (now : Z) (identity : bytes) : FindingRow := {|
  fr_id := id; fr_repo_id := repo_id; fr_job_id := job_id; fr_finding := f;
  fr_state := state; fr_verification_required := verification_required; fr_created_at := now;
  fr_approved_at := None; fr_approved_by_cn := None; fr_rejected_at := None;
  fr_rejected_by_cn := None; fr_patch_proposed_at := None; fr_patch_proposed_by_cn := None;
  fr_patch_notes := None; fr_report_identity := identity; fr_validating_deadline := None;
  fr_confirmed_at := None; fr_dismissed_at := None; fr_reported_at := None |}.

(** [INSERT INTO findings .. ON CONFLICT(repo_id, fingerprint) DO NOTHING] *)
Definition insert_finding_row (row : FindingRow) : Tx (option Z) := fun db =>
  if sql_exists (fun g => bool_decide (fingerprint_key g = fingerprint_key row)) (findings db)
  then Ok (None, db)
  else match next_rowid (findings db) with
       | None => Err (Sqlite RowIdsExhausted)
       | Some id =>
           let t := <[id := row <|fr_id := id|>]> (findings db) in
           if unique_on report_identity_key t && fk (Some (fr_repo_id row)) (registered_repos db) &&
              fk (Some (fr_job_id row)) (jobs db)
           then Ok (Some id, db <|findings := t|>)
           else Err (Sqlite ConstraintViolation)
       end.

(** [insert_with_identity] ([insert_or_ignore] with the identity it generates);
    [generate] is the outcome of [report_identity::generate]. *)
Definition insert_with_identity (repo_id job_id : Z) (f : Finding)
    (verification_required : bool) (now : Z) (generate : result Error bytes) : Tx (option Z) :=
  initial_state ← apply_transition (initial_finding_state ScanAccepted);
  report_identity ← tx_lift generate;
  insert_finding_row
    (new_row 0 repo_id job_id f initial_state verification_required now report_identity).

(** Worker submission: repository and job come from the live lease. *)
Definition submit (scope : AssignmentScope) (finding : Finding) (generate : result Error bytes)
    : Tx (option Z) :=
  if negb (bool_decide (j_kind (as_job scope) = Scan)) then tx_err ScopeDenied
  else repo ← Repos.get (as_repo scope);
       match repo with
       | None => tx_err ScopeDenied
       | Some repo =>
           insert_with_identity (rs_repo_id (as_repo scope)) (j_id (as_job scope)) finding
             (r_verification_enabled repo) (al_now (as_lease scope)) generate
       end.

(** ** The scan's outcome *)

(** [transition_scan_findings_after_success] *)
Definition transition_scan_findings_after_success (repo_id job_id : Z) (require_approval : bool)
    (validating_deadline now : Z) : Tx Z :=
  let source_state := Pending in
  let auto_transition := if require_approval then ScanAwaitApproval else ScanAutoConfirm in
  auto_target ← apply_transition (finding_apply source_state auto_transition);
  verify_target ← apply_transition (finding_apply source_state ScanRequireVerification);
  auto_count ←
    (if require_approval then
       update_findings (fun f => (fr_job_id f =? job_id) && negb (fr_verification_required f) &&
                                 bool_decide (fr_state f = source_state) && (fr_repo_id f =? repo_id))
         (fun f => f <|fr_state := auto_target|>)
     else
       update_findings (fun f => (fr_job_id f =? job_id) && negb (fr_verification_required f) &&
                                 bool_decide (fr_state f = source_state) && (fr_repo_id f =? repo_id))
         (fun f => f <|fr_state := auto_target|> <|fr_confirmed_at := Some now|>));
  verify_count ←
    update_findings (fun f => (fr_job_id f =? job_id) && fr_verification_required f &&
                              bool_decide (fr_state f = source_state) && (fr_repo_id f =? repo_id))
      (fun f => f <|fr_state := verify_target|>
                  <|fr_validating_deadline := Some validating_deadline|>);
  mret (auto_count + verify_count).

Definition delete_pending_for_job (repo_id job_id : Z) : Tx Z :=
  delete_findings (fun f => (fr_job_id f =? job_id) && bool_decide (fr_state f = Pending) &&
                            (fr_repo_id f =? repo_id)).

(** ** Verdicts *)

Inductive VerificationInput :=
| Submitted (job_id : Z) (verdict : Verdict)
| DeadlineExpired.

(** The [(job_id, outcome, notes)] triple of an input. *)
Definition verification_columns (input : VerificationInput) : option Z * Outcome * option str :=
  match input with
  | Submitted job_id verdict =>
      match verdict with
      | VConfirmed notes _ => (Some job_id, OConfirmed, notes)
      | VDismissed notes => (Some job_id, ODismissed, notes)
      | VInconclusive reason _ => (Some job_id, OInconclusive, Some reason)
      end
  | DeadlineExpired => (None, OInconclusive, Some VALIDATING_DEADLINE_EXPIRED_NOTE)
  end.

Definition insert_verification (repo_id finding_id : Z) (input : VerificationInput) (now : Z)
    : Tx Z :=
  let '(job_id, outcome, notes) := verification_columns input in
  found ← tx_exists findings (fun f => (fr_id f =? finding_id) && (fr_repo_id f =? repo_id));
  assigned ← match job_id with
             | None => mret true
             | Some job => tx_exists jobs (fun j =>
                 (j_id j =? job) && (j_repo_id j =? repo_id) &&
                 sql_eq (j_target_finding_id j) finding_id && bool_decide (j_kind j = Verify))
             end;
  if (found : bool) && (assigned : bool) then
    insert_verification_row {| v_id := 0; v_finding_id := finding_id; v_job_id := job_id;
                               v_verdict := outcome; v_notes := notes; v_created_at := now |}
  else tx_err (Sqlite QueryReturnedNoRows).

(** The [EXISTS] of [roll_up_verdicts_for_finding] for one outcome. *)
Definition has_verdict_for (repo_id finding_id : Z) (outcome : Outcome) : Tx bool :=
  some ← tx_exists finding_verifications (fun v =>
           (v_finding_id v =? finding_id) && bool_decide (v_verdict v = outcome));
  found ← tx_exists findings (fun f => (fr_id f =? finding_id) && (fr_repo_id f =? repo_id));
  mret ((some : bool) && (found : bool)).

(** The [stamp_clause] of the rollup. *)
Definition rollup_stamp (next : FindingState) (now : Z) (f : FindingRow) : FindingRow :=
  match next with
  | Confirmed => f <|fr_state := next|> <|fr_confirmed_at := Some now|>
  | Dismissed => f <|fr_state := next|> <|fr_dismissed_at := Some now|>
  | _ => f <|fr_state := next|>
  end.

Definition roll_up_verdicts_for_finding (repo_id finding_id : Z)
    (terminal_inconclusive require_approval : bool) (now : Z) : Tx (option FindingState) :=
  row ← get_selected repo_id finding_id;
  match row with
  | None => tx_err (Sqlite QueryReturnedNoRows)
  | Some row =>
      has_dismissed ← has_verdict_for repo_id finding_id ODismissed;
      has_confirmed ← has_verdict_for repo_id finding_id OConfirmed;
      next ← apply_transition (roll_up_verdicts (fr_state row)
               {| has_confirmed := has_confirmed; has_dismissed := has_dismissed;
                  terminal_inconclusive := terminal_inconclusive;
                  require_approval := require_approval |});
      match next with
      | None => mret None
      | Some next_state =>
          _ ← update_findings (fun f => (fr_id f =? finding_id) && (fr_repo_id f =? repo_id))
                (rollup_stamp next_state now);
          mret (Some next_state)
      end
  end.

(** ** The validating deadline *)

(** The durable markers of phase work: [finding_review_details],
    [finding_verification_intents], or a producing job of a campaign. *)
Definition phase_marked (db : Db) (f : FindingRow) : bool :=
  sql_exists (fun d => rd_finding_id d =? fr_id f) (finding_review_details db) ||
  bool_decide (fr_id f ∈ finding_verification_intents db) ||
  sql_exists (fun p => (j_id p =? fr_job_id f) && sql_some (j_campaign_id p)) (jobs db).

(** The [WHERE] clause of [reap_stale_validating]. *)
Definition stale_validating (db : Db) (now : Z) (f : FindingRow) : bool :=
  bool_decide (fr_state f = Validating) && sql_lt (fr_validating_deadline f) now &&
  negb (phase_marked db f).

Definition reap_stale_validating (now : Z) : Tx Z :=
  target_state ← apply_transition (finding_apply Validating DeadlineExpire);
  immediate (
    db ← tx_get;
    stale ← tx_select findings (stale_validating db now);
    _ ← tx_for stale (fun f =>
          _ ← insert_verification (fr_repo_id f) (fr_id f) DeadlineExpired now;
          _ ← update_findings (fun g => (fr_id g =? fr_id f) &&
                                        bool_decide (fr_state g = Validating) &&
                                        (fr_repo_id g =? fr_repo_id f))
                (fun g => g <|fr_state := target_state|> <|fr_dismissed_at := Some now|>);
          mret tt);
    mret (Z.of_nat (length stale))).

Definition is_deadline_dismissed_without_terminal_verdict (finding_id : Z) : Tx bool :=
  expired ← tx_exists finding_verifications (fun v =>
    (v_finding_id v =? finding_id) && sql_null (v_job_id v) &&
    bool_decide (v_verdict v = OInconclusive) &&
    bool_decide (v_notes v = Some VALIDATING_DEADLINE_EXPIRED_NOTE));
  terminal ← tx_exists finding_verifications (fun v =>
    (v_finding_id v =? finding_id) &&
    (bool_decide (v_verdict v = OConfirmed) || bool_decide (v_verdict v = ODismissed)));
  mret ((expired : bool) && negb (terminal : bool)).

Definition retry_verification (repo_id finding_id validating_deadline : Z) : Tx bool :=
  row ← get_selected repo_id finding_id;
  match row with
  | None => mret false
  | Some row =>
      target_state ← apply_transition (finding_apply (fr_state row) RetryVerification);
      updated ← update_findings (fun f => (fr_id f =? finding_id) &&
                                          bool_decide (fr_state f = fr_state row) &&
                                          (fr_repo_id f =? repo_id))
                  (fun f => f <|fr_state := target_state|> <|fr_dismissed_at := None|>
                              <|fr_validating_deadline := Some validating_deadline|>);
      mret (0 <? updated)
  end.

(** ** Patches, approval and rejection *)

Inductive PatchAttachOutcome := Attached | AlreadyPresent.

Definition attach_proposed_patch (repo_id finding_id : Z) (patch_unified notes by_cn : str)
    (now : Z) : Tx PatchAttachOutcome :=
  n ← update_findings (fun f => (fr_id f =? finding_id) &&
                                sql_null (f_patch_unified (fr_finding f)) &&
                                (fr_repo_id f =? repo_id))
        (fun f => f <|fr_finding := (fr_finding f) <|f_patch_unified := Some patch_unified|> |>
                    <|fr_patch_notes := Some notes|>
                    <|fr_patch_proposed_by_cn := Some by_cn|>
                    <|fr_patch_proposed_at := Some now|>);
  mret (if 0 <? n then Attached else AlreadyPresent).

Inductive ApprovalOutcome := Applied | NotPending | ApprovalNotFound.

#[export] Instance ApprovalOutcome_eq_dec : EqDecision ApprovalOutcome.
Proof. solve_decision. Defined.

Definition approve (repo_id id : Z) (by_cn : str) (now : Z) : Tx ApprovalOutcome :=
  target_state ← apply_transition (finding_apply AwaitingApproval Approve);
  n ← update_findings (fun f => (fr_id f =? id) && bool_decide (fr_state f = AwaitingApproval) &&
                                (fr_repo_id f =? repo_id))
        (fun f => f <|fr_state := target_state|> <|fr_approved_at := Some now|>
                    <|fr_approved_by_cn := Some by_cn|>);
  if 0 <? n then mret Applied
  else row ← get_selected repo_id id;
       mret (match row with Some _ => NotPending | None => ApprovalNotFound end).

Definition reject (scope : RepoScope) (id : Z) (by_cn : str) (now : Z) : Tx ApprovalOutcome :=
  _ ← require_operator scope;
  target_state ← apply_transition (finding_apply AwaitingApproval Reject);
  changed ← update_findings (fun f => (fr_id f =? id) &&
                                      bool_decide (fr_state f = AwaitingApproval) &&
                                      (fr_repo_id f =? rs_repo_id scope))
              (fun f => f <|fr_state := target_state|> <|fr_dismissed_at := Some now|>
                          <|fr_rejected_at := Some now|> <|fr_rejected_by_cn := Some by_cn|>);
  if negb (changed =? 0) then mret Applied
  else row ← get scope id;
       mret (match row with Some _ => NotPending | None => ApprovalNotFound end).

(** ** Keyword search *)

(** [str::split_whitespace] *)
Fixpoint split_ws (current : str) (s : str) : list str :=
  match s with
  | [] => if str_is_empty current then [] else [reverse current]
  | c :: s' =>
      if is_whitespace c then
        (if str_is_empty current then [] else [reverse current]) ++ split_ws [] s'
      else split_ws (c :: current) s'
  end.

Definition split_whitespace (s : str) : list str := split_ws [] s.

(** The characters [sanitize_fts_query] strips: double quote, [*], [:], [(], [)], ['] *)
Definition fts_operator (c : Z) : bool :=
  (c =? 34) || (c =? 42) || (c =? 58) || (c =? 40) || (c =? 41) || (c =? 39).

Definition replace_operators (t : str) : str := filter (fun c => fts_operator c = false) t.

(** [parts.join(" ")] *)
Fixpoint join_space (parts : list str) : str :=
  match parts with
  | [] => []
  | [p] => p
  | p :: rest => p ++ [32] ++ join_space rest
  end.

(** The terms of a query, before quoting. *)
Definition fts_terms (input : str) : list str :=
  filter (fun t => 2 <= str_len t)
    ((fun t => trim (replace_operators t)) <$> split_whitespace input).

Definition sanitize_fts_query (input : str) : str :=
  join_space ((fun t => [34] ++ t ++ [34]) <$> fts_terms input).
