(* ===== verification/Jobs.v ===== *)
(** * Jobs ([loupe-storage/src/jobs.rs])

    The jobs DAO: enqueue, the capability-guarded heartbeat and completion,
    cancellation, the verify fan-out of a finished scan, operator retry, the
    listing, and the reaper of expired legacy leases. *)

From S2P Require Import Prelude Sql Domain StateMachine Vocabulary SchedPolicy Store Scope Repos Findings.
From Stdlib Require Import ZArith Lia.
From stdpp Require Import base gmap sets list strings.
Local Open Scope Z_scope.

Definition DEFAULT_LEASE_SECONDS : Z := 600.
Definition MAX_ATTEMPTS : Z := 3.
Definition JOB_CANCELLED_BY_ADMIN_ERROR : str := lit "cancelled by admin".
Definition LEASE_EXPIRED_AFTER_MAX_ATTEMPTS_ERROR : str := lit "lease expired after max attempts".

Definition RUNTIME_KINDS : list JobKind := [Scan; Survey; Drilldown; Verify].
Definition LEGACY_RUNTIME_KINDS : list JobKind := [Scan; Verify].

(** [kind IN (legacy_kinds_sql())] and [LEGACY_RUNTIME_KINDS.contains] *)
Definition legacy_kind (k : JobKind) : bool := bool_decide (k ∈ LEGACY_RUNTIME_KINDS).

(** [PHASE_FINDING_TARGET_SQL], evaluated on one job. *)
Definition phase_finding_target (db : Db) (j : JobRow) : bool :=
  match j_target_finding_id j with
  | None => false
  | Some t =>
      sql_exists (fun d => rd_finding_id d =? t) (finding_review_details db) ||
      bool_decide (t ∈ finding_verification_intents db) ||
      sql_exists (fun f => (fr_id f =? t) &&
                           sql_exists (fun p => (j_id p =? fr_job_id f) && sql_some (j_campaign_id p))
                             (jobs db)) (findings db)
  end.

Definition targets_phase_finding (repo job : Z) : Tx bool :=
  db ← tx_get;
  tx_exists jobs (fun j => (j_id j =? job) && (j_repo_id j =? repo) && phase_finding_target db j).

(** ** Reads *)

Definition get_scoped_raw (repo id : Z) : Tx (option JobRow) :=
  tx_first jobs (fun j => (j_id j =? id) && (j_repo_id j =? repo)).

Definition get (scope : RepoScope) (id : Z) : Tx (option JobRow) :=
  get_scoped_raw (rs_repo_id scope) id.

Definition get_raw (id : Z) : Tx (option JobRow) := tx_first jobs (fun j => j_id j =? id).

Record JobFilter := {
  jf_states : list JobState;
  jf_kind : option JobKind;
  jf_limit : option Z;
}.

Definition job_filter_default : JobFilter := {| jf_states := []; jf_kind := None; jf_limit := None |}.

(** The [WHERE] clauses [list] collects. *)
Definition filter_matches (filter : JobFilter) (j : JobRow) : bool :=
  (match jf_states filter with [] => true | states => bool_decide (j_state j ∈ states) end) &&
  match jf_kind filter with None => true | Some k => bool_decide (j_kind j = k) end.

(** [ORDER BY enqueued_at DESC, id DESC] *)
Definition newest_first (a b : JobRow) : bool :=
  (j_enqueued_at b <? j_enqueued_at a) ||
  ((j_enqueued_at a =? j_enqueued_at b) && (j_id b <=? j_id a)).

Definition list_jobs (filter : JobFilter) : Tx (list JobRow) :=
  rows ← tx_select jobs (filter_matches filter);
  let sorted := sql_sort newest_first rows in
  mret (match jf_limit filter with None => sorted | Some limit => sql_limit limit sorted end).

(** The row one opaque capability resolves to. *)
Definition active_capability (worker_id : Z) (hash : bytes) (now : Z) (j : JobRow) : bool :=
  sql_eq (j_worker_id j) worker_id && bool_decide (j_capability_hash j = Some hash) &&
  bool_decide (j_state j = Leased) && sql_ge (j_lease_expires_at j) now &&
  sql_null (j_campaign_id j) && legacy_kind (j_kind j).

Definition get_active_by_capability_hash (worker_id : Z) (hash : bytes) (now : Z)
    : Tx (option JobRow) :=
  tx_first jobs (active_capability worker_id hash now).

Definition count_active_scans_for_repo (repo_id : Z) : Tx Z := fun db =>
  Ok (sql_count (fun j => (j_repo_id j =? repo_id) && bool_decide (j_kind j = Scan) &&
                          active_state (j_state j)) (jobs db), db).

(** [has_verdict] *)
Definition has_verdict (scope : AssignmentScope) : Tx bool :=
  db ← tx_get;
  tx_exists finding_verifications (fun v =>
    sql_eq (v_job_id v) (j_id (as_job scope)) &&
    sql_exists (fun f => (fr_id f =? v_finding_id v) && (fr_repo_id f =? rs_repo_id (as_repo scope)))
      (findings db)).

(** ** Enqueue *)

Record NewJob := {
  nj_repo_id : Z;
  nj_kind : JobKind;
  nj_incremental : bool;
  nj_since_sha : option str;
  nj_parent_job_id : option Z;
  nj_target_finding_id : option Z;
}.

(** A queued row: the columns an enqueue leaves out take their defaults. *)
Definition queued_row (new : NewJob) (state : JobState) (now : Z) : JobRow := {|
  j_id := 0; j_repo_id := nj_repo_id new; j_kind := nj_kind new; j_state := state;
  j_incremental := nj_incremental new; j_since_sha := nj_since_sha new; j_head_sha := None;
  j_parent_job_id := nj_parent_job_id new; j_target_finding_id := nj_target_finding_id new;
  j_worker_id := None; j_lease_expires_at := None; j_attempts := 0; j_enqueued_at := now;
  j_started_at := None; j_finished_at := None; j_error := None; j_campaign_id := None;
  j_generation_id := None; j_assigned_lead_id := None; j_continuation_of_job_id := None;
  j_scheduling_band := None; j_effective_priority := None; j_eligible_at := None;
  j_soft_deadline_at := None; j_hard_deadline_at := None; j_submit_by := None;
  j_token_budget := None; j_recipe := None; j_workflow_contract_version := None;
  j_capability_hash := None |}.

Definition enqueue_raw (new : NewJob) (now : Z) : Tx Z :=
  match nj_kind new with
  | Scan | Verify =>
      initial_state ← apply_transition (initial_job_state Enqueue);
      insert_job (queued_row new initial_state now)
  | _ => tx_err (Validation (lit "job_kind") RIdentifier)
  end.

Record QueuedJob := {
  qj_kind : JobKind;
  qj_incremental : bool;
  qj_since_sha : option str;
  qj_parent_job_id : option Z;
  qj_target_finding_id : option Z;
}.

Definition enqueue (scope : RepoScope) (new : QueuedJob) (now : Z) : Tx Z :=
  _ ← require_operator scope;
  _ ← match qj_parent_job_id new with
      | None => mret tt
      | Some parent =>
          row ← get scope parent;
          match row with None => tx_err ScopeDenied | Some _ => mret tt end
      end;
  _ ← match qj_target_finding_id new with
      | None => mret tt
      | Some target =>
          row ← Findings.get scope target;
          match row with None => tx_err ScopeDenied | Some _ => mret tt end
      end;
  enqueue_raw {| nj_repo_id := rs_repo_id scope; nj_kind := qj_kind new;
                 nj_incremental := qj_incremental new; nj_since_sha := qj_since_sha new;
                 nj_parent_job_id := qj_parent_job_id new;
                 nj_target_finding_id := qj_target_finding_id new |} now.

(** [INSERT .. SELECT .. FROM findings], one queued verify job per validating
    finding of the scan. *)
Definition enqueue_verify_jobs_for_scan (repo_id scan_job_id now : Z) : Tx Z :=
  initial_state ← apply_transition (initial_job_state Enqueue);
  scan ← tx_exists jobs (fun j => (j_id j =? scan_job_id) && (j_repo_id j =? repo_id) &&
                                  bool_decide (j_kind j = Scan));
  targets ← (if (scan : bool) then
               tx_select findings (fun f => (fr_job_id f =? scan_job_id) &&
                                            (fr_repo_id f =? repo_id) &&
                                            bool_decide (fr_state f = Validating))
             else mret []);
  _ ← tx_for targets (fun f =>
        _ ← insert_job (queued_row {| nj_repo_id := repo_id; nj_kind := Verify;
                                      nj_incremental := false; nj_since_sha := None;
                                      nj_parent_job_id := Some scan_job_id;
                                      nj_target_finding_id := Some (fr_id f) |} initial_state now);
        mret tt);
  mret (Z.of_nat (length targets)).

(** ** Lease control *)

(** The guard shared by heartbeat and completion: the exact live lease. *)
Definition lease_held (job_id worker_id : Z) (hash : bytes) (now : Z) (j : JobRow) : bool :=
  (j_id j =? job_id) && bool_decide (j_state j = Leased) && sql_eq (j_worker_id j) worker_id &&
  bool_decide (j_capability_hash j = Some hash) && sql_ge (j_lease_expires_at j) now &&
  legacy_kind (j_kind j).

Definition heartbeat (job_id worker_id now lease_seconds : Z) (hash : bytes) : Tx (option Z) :=
  let lease_until := wrapping_add now lease_seconds in
  _ ← apply_transition (job_apply Leased Heartbeat);
  n ← update_jobs (lease_held job_id worker_id hash now)
        (fun j => j <|j_lease_expires_at := Some lease_until|>);
  mret (if 0 <? n then Some lease_until else None).

Definition extend_lease (scope : AssignmentScope) (seconds : Z) : Tx (option Z) :=
  heartbeat (j_id (as_job scope)) (li_worker_id (al_identity (as_lease scope)))
    (al_now (as_lease scope)) seconds (li_capability_hash (al_identity (as_lease scope))).

Definition complete (lease : LeaseIdentity) (new_state : JobState) (head_sha error : option str)
    (now : Z) : Tx bool :=
  transition ← match new_state with
               | Succeeded => mret CompleteSucceeded
               | Failed => mret CompleteFailed
               | other => tx_err (Sqlite (InvalidCompletionTarget other))
               end;
  target_state ← apply_transition (job_apply Leased transition);
  n ← update_jobs (lease_held (li_job_id lease) (li_worker_id lease) (li_capability_hash lease) now)
        (fun j => j <|j_state := target_state|>
                    <|j_head_sha := coalesce head_sha (j_head_sha j)|>
                    <|j_error := error|> <|j_finished_at := Some now|>
                    <|j_lease_expires_at := None|> <|j_capability_hash := None|>);
  mret (0 <? n).

(** ** Operator control *)

Inductive CancelOutcome :=
| JobCancelled (row : JobRow)
| CancelNotFound
| NotCancellable (state : JobState)
| CancelUnsupportedKind.

Definition cancel (job_id now : Z) : Tx CancelOutcome :=
  transaction (
    row ← get_raw job_id;
    match row with
    | None => mret (Rollback CancelNotFound)
    | Some row =>
        if negb (legacy_kind (j_kind row)) then mret (Rollback CancelUnsupportedKind)
        else match job_apply (j_state row) StateMachine.Cancel with
        | Err _ => mret (Rollback (NotCancellable (j_state row)))
        | Ok target_state =>
            updated ← update_jobs (fun j => (j_id j =? job_id) && (j_repo_id j =? j_repo_id row) &&
                                            active_state (j_state j) && legacy_kind (j_kind j))
              (fun j => j <|j_state := target_state|> <|j_worker_id := None|>
                          <|j_lease_expires_at := None|> <|j_capability_hash := None|>
                          <|j_finished_at := Some now|>
                          <|j_error := Some JOB_CANCELLED_BY_ADMIN_ERROR|>);
            if updated =? 0 then
              now_row ← get_raw job_id;
              mret (Rollback (NotCancellable
                      (match now_row with Some r => j_state r | None => Cancelled end)))
            else
              _ ← (if bool_decide (j_kind row = Scan) then
                     delete_findings (fun f => (fr_job_id f =? job_id) &&
                                               (fr_repo_id f =? j_repo_id row) &&
                                               bool_decide (fr_state f = Pending))
                   else mret 0);
              row' ← get_raw job_id;
              match row' with
              | None => tx_err (Sqlite QueryReturnedNoRows)
              | Some row' => mret (Commit (JobCancelled row'))
              end
        end
    end).

(** The conflicts [retry_failed] answers with, without their wording. *)
Inductive RetryConflict :=
| PhaseWorkRequiresRecovery
| NotFailed (state : JobState)
| NoTargetFinding
| TargetFindingGone (finding : Z)
| TargetRepositoryMismatch
| DismissedByTerminalVerdict (finding : Z)
| TargetNotValidating (finding : Z) (state : FindingState)
| ActiveVerifyJob (finding : Z) (job : Z)
| TargetChangedBeforeRetry (finding : Z)
| JobChangedBeforeRetry.

Inductive RetryOutcome :=
| Retried (row : JobRow)
| RetryNotFound
| RetryConflictWith (c : RetryConflict)
| RetryUnsupportedKind.

Definition requeue_failed (repo_id job_id now : Z) : Tx (option JobRow) :=
  target_state ← apply_transition (job_apply Failed Retry);
  updated ← update_jobs (fun j => (j_id j =? job_id) && bool_decide (j_state j = Failed) &&
                                  (j_repo_id j =? repo_id) && legacy_kind (j_kind j))
    (fun j => j <|j_state := target_state|> <|j_worker_id := None|>
                <|j_lease_expires_at := None|> <|j_capability_hash := None|> <|j_attempts := 0|>
                <|j_started_at := None|> <|j_finished_at := None|> <|j_error := None|>
                <|j_head_sha := None|> <|j_enqueued_at := now|>);
  if updated =? 0 then mret None else get_scoped_raw repo_id job_id.

(** The checks of [retry_failed] on a failed verify job's target, up to the
    revival of the finding: [Some c] is the conflict to answer with. *)
Definition retry_verify_target (row : JobRow) (job_id validating_deadline : Z)
    : Tx (option RetryConflict) :=
  match j_target_finding_id row with
  | None => mret (Some NoTargetFinding)
  | Some finding_id =>
      finding ← Findings.get_raw finding_id;
      match finding with
      | None => mret (Some (TargetFindingGone finding_id))
      | Some finding =>
          if negb (fr_repo_id finding =? j_repo_id row) then mret (Some TargetRepositoryMismatch)
          else
            state_conflict ←
              match fr_state finding with
              | Validating => mret None
              | Dismissed =>
                  recoverable ← is_deadline_dismissed_without_terminal_verdict finding_id;
                  mret (if (recoverable : bool) then None
                        else Some (DismissedByTerminalVerdict finding_id))
              | other => mret (Some (TargetNotValidating finding_id other))
              end;
            match state_conflict with
            | Some c => mret (Some c)
            | None =>
                active ← tx_first jobs (fun j =>
                  bool_decide (j_kind j = Verify) && sql_eq (j_target_finding_id j) finding_id &&
                  active_state (j_state j) && negb (j_id j =? job_id));
                match active with
                | Some active => mret (Some (ActiveVerifyJob finding_id (j_id active)))
                | None =>
                    revived ← Findings.retry_verification (j_repo_id row) finding_id
                                validating_deadline;
                    mret (if (revived : bool) then None
                          else Some (TargetChangedBeforeRetry finding_id))
                end
            end
      end
  end.

Definition retry_failed (job_id now validating_deadline : Z) : Tx RetryOutcome :=
  transaction (
    db ← tx_get;
    phase ← tx_exists jobs (fun j => (j_id j =? job_id) &&
                                     (sql_some (j_campaign_id j) || phase_finding_target db j));
    if (phase : bool) then mret (Rollback (RetryConflictWith PhaseWorkRequiresRecovery))
    else
      row ← get_raw job_id;
      match row with
      | None => mret (Rollback RetryNotFound)
      | Some row =>
          if negb (legacy_kind (j_kind row)) then mret (Rollback RetryUnsupportedKind)
          else if negb (bool_decide (j_state row = Failed))
          then mret (Rollback (RetryConflictWith (NotFailed (j_state row))))
          else
            conflict ← (if bool_decide (j_kind row = Verify)
                        then retry_verify_target row job_id validating_deadline
                        else mret None);
            match conflict with
            | Some c => mret (Rollback (RetryConflictWith c))
            | None =>
                requeued ← requeue_failed (j_repo_id row) job_id now;
                match requeued with
                | None => mret (Rollback (RetryConflictWith JobChangedBeforeRetry))
                | Some row => mret (Commit (Retried row))
                end
            end
      end).

(** ** The lease reaper *)

(** [reap_legacy]: phase-targeting verifications fail, jobs with attempts left
    go back to the queue, the rest fail and a failed scan loses its pending
    findings. *)
Definition reap_legacy (now : Z) : Tx Z :=
  requeued_state ← apply_transition (job_apply Leased ReapToQueued);
  failed_state ← apply_transition (job_apply Leased ReapToFailed);
  db ← tx_get;
  incompatible ← update_jobs (fun j => sql_null (j_campaign_id j) && bool_decide (j_kind j = Verify) &&
                                       bool_decide (j_state j = Leased) &&
                                       sql_lt (j_lease_expires_at j) now && phase_finding_target db j)
    (fun j => j <|j_state := failed_state|> <|j_worker_id := None|> <|j_lease_expires_at := None|>
                <|j_capability_hash := None|> <|j_finished_at := Some now|>
                <|j_error := coalesce (j_error j)
                     (Some (lit "legacy verification cannot target phase findings"))|>);
  failing_scan_jobs ← tx_select jobs (fun j => bool_decide (j_kind j = Scan) &&
                                               sql_null (j_campaign_id j) &&
                                               bool_decide (j_state j = Leased) &&
                                               sql_lt (j_lease_expires_at j) now &&
                                               (MAX_ATTEMPTS <=? j_attempts j));
  requeued ← update_jobs (fun j => bool_decide (j_state j = Leased) &&
                                   sql_lt (j_lease_expires_at j) now &&
                                   (j_attempts j <? MAX_ATTEMPTS) && sql_null (j_campaign_id j) &&
                                   legacy_kind (j_kind j))
    (fun j => j <|j_state := requeued_state|> <|j_worker_id := None|> <|j_lease_expires_at := None|>
                <|j_capability_hash := None|> <|j_started_at := None|>);
  failed ← update_jobs (fun j => bool_decide (j_state j = Leased) &&
                                 sql_lt (j_lease_expires_at j) now &&
                                 (MAX_ATTEMPTS <=? j_attempts j) && sql_null (j_campaign_id j) &&
                                 legacy_kind (j_kind j))
    (fun j => j <|j_state := failed_state|> <|j_worker_id := None|> <|j_lease_expires_at := None|>
                <|j_capability_hash := None|> <|j_finished_at := Some now|>
                <|j_error := coalesce (j_error j) (Some LEASE_EXPIRED_AFTER_MAX_ATTEMPTS_ERROR)|>);
  _ ← tx_for failing_scan_jobs (fun j =>
        _ ← Findings.delete_pending_for_job (j_repo_id j) (j_id j); mret tt);
  mret (incompatible + requeued + failed).

(** ** Scan duration *)

Definition scan_duration_ms (started_at : option Z) (now : Z) : result Error Z :=
  match started_at with
  | None => Ok 0
  | Some start =>
      match checked_sub now start ≫= fun seconds => checked_mul seconds 1000 with
      | Some ms => Ok ms
      | None => Err (Sqlite (InvalidScalar 13))
      end
  end.
