(* ===== verification/Issuer.v ===== *)
(** * Issuers ([loupe-storage/src/scope.rs]) and the database handle ([db.rs])

    A [Handle] is an open database: its identity, its content, and the
    commit flags of the transactions it ran.  A flag is the address of the
    [AtomicBool] a scope carries; it is published only after [commit], so an
    owned result that kept it can tell whether its transaction committed. *)

From S2P Require Import Prelude Sql Domain StateMachine Vocabulary SchedPolicy Store Scope Repos Findings Jobs.
From Stdlib Require Import ZArith Lia.
From stdpp Require Import base gmap sets list strings.
Local Open Scope Z_scope.

Record Handle := {
  h_identity : Z;
  h_db : Db;
  h_published : gset Z;
  h_next_flag : Z;
}.

#[export] Instance eta_Handle : Eta Handle := fun h => {|
  h_identity := h_identity h; h_db := h_db h; h_published := h_published h;
  h_next_flag := h_next_flag h |}.

(** [db.with_conn] of a body that owns its transactions. *)
Definition with_conn {A} (m : Tx A) (h : Handle) : result Error A * Handle :=
  match m (h_db h) with
  | Ok (a, db) => (Ok a, h <|h_db := db|>)
  | Err e => (Err e, h)
  end.

(** Run a scoped body and publish its flag when it commits. *)
Definition issue {A} (scope : Z -> RepoScope) (body : RepoScope -> Tx A) (h : Handle)
    : result Error A * Handle :=
  let flag := h_next_flag h in
  match body (scope flag) (h_db h) with
  | Err e => (Err e, h <|h_next_flag := flag + 1|>)
  | Ok (a, db) =>
      (Ok a, h <|h_db := db|> <|h_published := {[flag]} ∪ h_published h|>
               <|h_next_flag := flag + 1|>)
  end.

(** The repository an operator's target names. *)
Definition target_repository (db : Db) (target : OperatorTarget) : result Error Z :=
  match target with
  | TRepository id => Ok id
  | TJob id =>
      match head (sql_select (fun j => j_id j =? id) (jobs db)) with
      | Some j => Ok (j_repo_id j)
      | None => Err (NotFound EJob id)
      end
  | TFinding id =>
      match head (sql_select (fun f => fr_id f =? id) (findings db)) with
      | Some f => Ok (fr_repo_id f)
      | None => Err (NotFound EFinding id)
      end
  end.

Definition with_operator_repository {A} (target : OperatorTarget) (body : RepoScope -> Tx A)
    (h : Handle) : result Error A * Handle :=
  match target_repository (h_db h) target with
  | Err e => (Err e, h)
  | Ok repo_id =>
      issue (fun flag => {| rs_repo_id := repo_id; rs_identity := h_identity h;
                            rs_operator := true; rs_committed := flag |}) body h
  end.

Definition with_active_lease {A} (lease : ActiveLease) (body : AssignmentScope -> Tx A)
    (h : Handle) : result Error (option A) * Handle :=
  match Jobs.get_active_by_capability_hash (li_worker_id (al_identity lease))
          (li_capability_hash (al_identity lease)) (al_now lease) (h_db h) with
  | Err e => (Err e, h)
  | Ok (None, _) => (Ok None, h)
  | Ok (Some job, _) =>
      if negb (j_id job =? li_job_id (al_identity lease)) then (Ok None, h)
      else
        let '(r, h') :=
          issue (fun flag => {| rs_repo_id := j_repo_id job; rs_identity := h_identity h;
                                rs_operator := false; rs_committed := flag |})
            (fun repo => body {| as_repo := repo; as_job := job; as_lease := lease |}) h in
        (match r with Ok a => Ok (Some a) | Err e => Err e end, h')
  end.
