(* ===== verification/Claim.v ===== *)
(** * Claims ([loupe-storage/src/scheduler/claim.rs], [scheduler.rs])

    The claim statement: its candidates, its ordering and its update, the
    legacy entry point [claim_raw] and [scheduler::claim]. *)

From S2P Require Import Prelude Sql Domain StateMachine Vocabulary SchedPolicy Store TxLogic Scope Repos Findings Jobs.
From Stdlib Require Import ZArith Lia.
From stdpp Require Import base gmap sets list strings.
Local Open Scope Z_scope.

Record ClaimRequest := {
  cr_worker_id : Z;
  cr_kinds : list JobKind;
  cr_now : Z;
  cr_capability_hash : bytes;
  cr_legacy_lease_seconds : Z;
  cr_policy : ClaimPolicy;
}.

Record Claimed := {
  cl_job : JobRow;
  cl_assigned_units : list Z;
  cl_resumed : bool;
}.

(** ** The [active] common table expression: leased campaign jobs *)

Definition leased_phase (j : JobRow) : bool :=
  bool_decide (j_state j = Leased) && sql_some (j_campaign_id j).

(** [COALESCE(a.total,0)], or [COALESCE(a.surveys,0)] .. when [P] picks a kind. *)
Definition active_count (db : Db) (repo : Z) (P : JobKind -> bool) : Z :=
  sql_count (fun j => leased_phase j && (j_repo_id j =? repo) && P (j_kind j)) (jobs db).

Definition active_total (db : Db) (repo : Z) : Z := active_count db repo (fun _ => true).

Definition is_kind (k k' : JobKind) : bool := bool_decide (k = k').

(** ** Candidates *)

Definition sql_kind_list (kinds : list JobKind) : list JobKind :=
  filter (fun k => JobKind.is_known k = true) kinds.

Definition live_campaign (now : Z) (c : CampaignRow) : bool :=
  c_active c && match c_deadline_at c with None => true | Some d => now <? d end.

Definition eligible (now : Z) (j : JobRow) : bool :=
  match j_eligible_at j with None => true | Some at_ => at_ <=? now end.

(** The clause of a campaign row. *)
Definition campaign_candidate (db : Db) (policy : ClaimPolicy) (now : Z)
    (campaign_kinds : list JobKind) (campaign : Z) (j : JobRow) : bool :=
  let repo := j_repo_id j in
  bool_decide (j_kind j ∈ campaign_kinds) && eligible now j &&
  sql_exists (fun c => (c_id c =? campaign) && live_campaign now c) (review_campaigns db) &&
  (active_total db repo <? active_jobs_per_repo policy) &&
  match j_kind j with
  | Survey => active_count db repo (is_kind Survey) <? active_surveys_per_repo policy
  | Drilldown => active_count db repo (is_kind Drilldown) <? active_drilldowns_per_repo policy
  | Verify => active_count db repo (is_kind Verify) <? active_verifications_per_repo policy
  | _ => false
  end &&
  match active_jobs_total policy with
  | None => true
  | Some cap => sql_count leased_phase (jobs db) <? cap
  end &&
  (bool_decide (j_kind j = Verify) ||
   negb (sql_exists (fun q =>
     (j_repo_id q =? repo) && bool_decide (j_kind q = Verify) && bool_decide (j_state q = Queued) &&
     eligible now q &&
     match j_campaign_id q with
     | None => false
     | Some qc => sql_exists (fun c => (c_id c =? qc) && live_campaign now c) (review_campaigns db)
     end) (jobs db)) ||
   (active_total db repo <? active_jobs_per_repo policy -
      Z.max 0 (verify_reserved_slots policy - active_count db repo (is_kind Verify)))).

Definition candidate (db : Db) (policy : ClaimPolicy) (now : Z)
    (kinds campaign_kinds : list JobKind) (j : JobRow) : bool :=
  bool_decide (j_state j = Queued) && bool_decide (j_kind j ∈ kinds) &&
  match j_campaign_id j with
  | None => true
  | Some campaign => campaign_candidate db policy now campaign_kinds campaign j
  end.

(** ** Order *)

(** [PROMOTED]: a survey whose repository used up its urgency burst. *)
Definition promoted (db : Db) (policy : ClaimPolicy) (j : JobRow) : bool :=
  sql_some (j_campaign_id j) && bool_decide (j_kind j = Survey) &&
  (urgency_burst_length policy <=?
     match scheduler_repo_state db !! j_repo_id j with Some s => sr_burst s | None => 0 end).

Definition band_rank (j : JobRow) : Z :=
  match j_campaign_id j with
  | None => 2
  | Some _ =>
      match j_scheduling_band j with
      | Some Urgent => 0 | Some BHigh => 1 | Some Normal => 2 | _ => 3
      end
  end.

Definition anti_affinity (db : Db) (worker : Z) (j : JobRow) : Z :=
  if bool_decide (j_kind j = Verify) && sql_some (j_campaign_id j) &&
     sql_exists (fun d => sql_eq (j_target_finding_id j) (rd_finding_id d) &&
       match rd_origin_lead_id d with
       | None => false
       | Some lead => sql_exists (fun p => sql_eq (j_assigned_lead_id p) lead &&
           bool_decide (j_kind p = Drilldown) && sql_eq (j_worker_id p) worker) (jobs db)
       end) (finding_review_details db)
  then 1 else 0.

Definition score (policy : ClaimPolicy) (now : Z) (j : JobRow) : Z :=
  match j_campaign_id j with
  | None => if bool_decide (j_kind j = Verify) then 1 else 0
  | Some _ =>
      default 0 (j_effective_priority j) +
      Z.min (Z.max (now - j_enqueued_at j) 0 / priority_aging_interval_seconds policy)
            (priority_aging_cap policy)
  end.

(** The [ORDER BY] columns, most significant first; [score] is descending. *)
Definition order_key (db : Db) (req : ClaimRequest) (j : JobRow) : list Z :=
  let policy := cr_policy req in
  let phase := sql_some (j_campaign_id j) in
  [ (if promoted db policy j then 0 else 1);
    (if promoted db policy j then j_enqueued_at j else 0);
    band_rank j;
    anti_affinity db (cr_worker_id req) j;
    (if phase then active_total db (j_repo_id j) else 0);
    (if phase then
       match scheduler_repo_state db !! j_repo_id j with
       | Some s => sr_last_claim_seq s | None => 0 end
     else 0);
    - score policy (cr_now req) j;
    j_enqueued_at j;
    j_id j ].

Fixpoint lex_le (a b : list Z) : bool :=
  match a, b with
  | x :: a', y :: b' => (x <? y) || ((x =? y) && lex_le a' b')
  | [], _ => true
  | _ :: _, [] => false
  end.

Definition claim_order (db : Db) (req : ClaimRequest) (a b : JobRow) : bool :=
  lex_le (order_key db req a) (order_key db req b).

(** The [SELECT j.id ... LIMIT 1] of the claim. *)
Definition select_claim (db : Db) (req : ClaimRequest) (kinds campaign_kinds : list JobKind)
    : option JobRow :=
  head (sql_sort (claim_order db req)
    (sql_select (candidate db (cr_policy req) (cr_now req) kinds campaign_kinds) (jobs db))).

(** ** The claim *)

Definition policy_invalid (p : ClaimPolicy) : bool :=
  (priority_aging_interval_seconds p <? 1) || (priority_aging_cap p <? 0) ||
  (lease_seconds p <? 1) || (lease_report_grace_seconds p <? 1) ||
  (active_jobs_per_repo p <? 1) ||
  match active_jobs_total p with Some n => n <? 1 | None => false end ||
  (active_surveys_per_repo p <? 1) || (active_drilldowns_per_repo p <? 1) ||
  (active_verifications_per_repo p <? 1) || (verify_reserved_slots p <? 0) ||
  (urgency_burst_length p <? 1).

Definition lease_row (req : ClaimRequest) (lease : Z) (j : JobRow) : JobRow :=
  j <|j_state := Leased|> <|j_worker_id := Some (cr_worker_id req)|>
    <|j_lease_expires_at := Some lease|> <|j_attempts := j_attempts j + 1|>
    <|j_started_at := coalesce (j_started_at j) (Some (cr_now req))|>
    <|j_capability_hash := Some (cr_capability_hash req)|>.

(** [UPDATE jobs SET state='leased' .. WHERE id=(SELECT ..) RETURNING ..] *)
Definition claim_update (req : ClaimRequest) (lease : Z) (kinds campaign_kinds : list JobKind)
    : Tx (option JobRow) :=
  db ← tx_get;
  match select_claim db req kinds campaign_kinds with
  | None => mret None
  | Some j =>
      if negb (fk (Some (cr_worker_id req)) (workers db)) then tx_err (Sqlite ConstraintViolation)
      else
        _ ← update_jobs (fun r => j_id r =? j_id j) (lease_row req lease);
        if u32_max <? j_attempts j + 1 then tx_err (Sqlite (InvalidScalar 11))
        else mret (Some (lease_row req lease j))
  end.

Section ClaimFiltered.
  (** The continuation of [claim_filtered] on a claimed campaign row: deadlines,
      scheduler history and the survey batch. *)
  Context (phase_tail : JobRow -> Tx Claimed).

Definition claim_filtered (req : ClaimRequest) (kinds campaign_kinds : list JobKind)
    : Tx (option Claimed) :=
  let kinds := sql_kind_list kinds in
  match kinds with
  | [] => mret None
  | _ =>
      let campaign_kinds := sql_kind_list campaign_kinds in
      if policy_invalid (cr_policy req) then tx_err (invalid "claim_policy")
      else match checked_add (cr_now req) (cr_legacy_lease_seconds req) with
      | None => tx_err (invalid "lease_expires_at")
      | Some lease =>
          selected ← claim_update req lease kinds campaign_kinds;
          match selected with
          | None => mret None
          | Some job =>
              match j_campaign_id job with
              | None => mret (Some {| cl_job := job; cl_assigned_units := []; cl_resumed := false |})
              | Some _ => claimed ← phase_tail job; mret (Some claimed)
              end
          end
      end
  end.

Definition claim_raw (req : ClaimRequest) : Tx (option Claimed) :=
  let kinds := filter (fun k => JobKind.is_known k = true /\
                 Exists (fun allowed => JobKind.as_str allowed = JobKind.as_str k)
                   LEGACY_RUNTIME_KINDS) (cr_kinds req) in
  claim_filtered req kinds [].

(** [scheduler::claim]: the owned lease data, selected before the commit. *)
Record ClaimedLease := {
  ce_claimed : Claimed;
  ce_repository : RepoRow;
  ce_target : option FindingRow;
  ce_reviewed_revision : option str;
}.

Definition claim (req : ClaimRequest) : Tx (option ClaimedLease) :=
  immediate (
    claimed ← claim_raw req;
    match claimed with
    | None => mret None
    | Some claimed =>
        let job := cl_job claimed in
        repository ← Repos.get_raw (j_repo_id job);
        match repository with
        | None => tx_err ScopeDenied
        | Some repository =>
            if bool_decide (j_kind job = Verify) then
              match j_target_finding_id job with
              | None => tx_err ScopeDenied
              | Some target_id =>
                  target ← Findings.get_selected (j_repo_id job) target_id;
                  match target with
                  | None => tx_err ScopeDenied
                  | Some target =>
                      let reviewed_id := default (fr_job_id target) (j_parent_job_id job) in
                      reviewed ← tx_first jobs (fun r =>
                        (j_id r =? reviewed_id) && (j_repo_id r =? j_repo_id job) &&
                        bool_decide (j_kind r = Scan));
                      mret (Some {| ce_claimed := claimed; ce_repository := repository;
                                    ce_target := Some target;
                                    ce_reviewed_revision := reviewed ≫= j_head_sha |})
                  end
              end
            else mret (Some {| ce_claimed := claimed; ce_repository := repository;
                               ce_target := None; ce_reviewed_revision := None |})
        end
    end).

End ClaimFiltered.

(** ** Lemmas *)

Lemma lex_le_total a b : lex_le a b = true \/ lex_le b a = true.
Proof.
  revert b. induction a as [|x a IH]; intros [|y b]; cbn; auto.
  destruct (Z.lt_total x y) as [H|[->|H]].
  - left. apply orb_true_iff. left. by apply Z.ltb_lt.
  - rewrite Z.eqb_refl, Z.ltb_irrefl. cbn. apply IH.
  - right. apply orb_true_iff. left. by apply Z.ltb_lt.
Qed.

Lemma lex_le_trans a b c : lex_le a b = true -> lex_le b c = true -> lex_le a c = true.
Proof.
  revert b c. induction a as [|x a IH]; intros [|y b] [|z c]; cbn; try done.
  rewrite !orb_true_iff, !andb_true_iff, !Z.ltb_lt, !Z.eqb_eq.
  intros [H1|[-> H1]] [H2|[-> H2]]; try (left; lia). right. split; [done|]. by eapply IH.
Qed.

(** Without campaign kinds no campaign row is a candidate. *)
Lemma candidate_legacy db policy now kinds j :
  candidate db policy now kinds [] j =
  bool_decide (j_state j = Queued) && bool_decide (j_kind j ∈ kinds) && sql_null (j_campaign_id j).
Proof.
  unfold candidate. destruct (j_campaign_id j); cbn; [|done].
  unfold campaign_candidate. by rewrite (bool_decide_eq_false_2 (_ ∈ [])) by apply not_elem_of_nil.
Qed.

(** The kinds a legacy claim may pick. *)
Definition claimable (req : ClaimRequest) : list JobKind :=
  sql_kind_list (filter (fun k => JobKind.is_known k = true /\
    Exists (fun allowed => JobKind.as_str allowed = JobKind.as_str k) LEGACY_RUNTIME_KINDS)
    (cr_kinds req)).

Lemma elem_of_claimable req k :
  k ∈ claimable req <-> k ∈ cr_kinds req /\ legacy_kind k = true.
Proof.
  unfold claimable, sql_kind_list. rewrite !list_elem_of_filter.
  unfold legacy_kind, LEGACY_RUNTIME_KINDS. rewrite bool_decide_eq_true, !Exists_cons, Exists_nil.
  split.
  - intros (_ & (Hk & Ha) & Hin). split; [done|].
    destruct k; try done; [set_solver|set_solver|..];
      destruct Ha as [Ha|[Ha|Ha]]; by vm_compute in Ha.
  - intros (Hin & Hk). apply elem_of_cons in Hk as [->|Hk]; [by auto 6|].
    apply list_elem_of_singleton in Hk as ->. by auto 6.
Qed.

(** The queue discipline of legacy jobs: verification first, then age, then id. *)
Definition before (a b : JobRow) : Prop :=
  match bool_decide (j_kind a = Verify), bool_decide (j_kind b = Verify) with
  | true, false => True
  | false, true => False
  | _, _ => j_enqueued_at a < j_enqueued_at b \/
            (j_enqueued_at a = j_enqueued_at b /\ j_id a <= j_id b)
  end.

Lemma claim_order_legacy db req a b :
  j_campaign_id a = None -> j_campaign_id b = None ->
  claim_order db req a b = true -> before a b.
Proof.
  intros Ha Hb. unfold claim_order, order_key, promoted, band_rank, anti_affinity, score, before.
  rewrite Ha, Hb. cbn. rewrite !andb_false_r. cbn.
  repeat case_bool_decide; cbn; rewrite ?orb_false_r; try done;
    rewrite ?orb_true_iff, ?andb_true_iff, ?Z.ltb_lt, ?Z.eqb_eq;
    intros; rewrite ?orb_false_r in *; naive_solver lia.
Qed.

Lemma select_claim_legacy db req kinds :
  match select_claim db req kinds [] with
  | None => forall i j, jobs db !! i = Some j ->
      candidate db (cr_policy req) (cr_now req) kinds [] j = false
  | Some j => (exists i, jobs db !! i = Some j) /\
      candidate db (cr_policy req) (cr_now req) kinds [] j = true /\
      forall i k, jobs db !! i = Some k ->
        candidate db (cr_policy req) (cr_now req) kinds [] k = true -> before j k
  end.
Proof.
  unfold select_claim. destruct (head _) as [j|] eqn:Hh.
  - apply sql_sort_head_min in Hh as [Hin Hmin].
    + apply elem_of_sql_select in Hin as (Hc & Hi). split; [done|]. split; [done|].
      intros i k Hk Hck. assert (j_campaign_id j = None /\ j_campaign_id k = None) as [? ?].
      { rewrite candidate_legacy in Hc, Hck. by bool_prop. }
      apply (claim_order_legacy db req); [done|done|]. apply Hmin, elem_of_sql_select. eauto.
    + intros a b. apply lex_le_total.
    + intros a b c. apply lex_le_trans.
  - apply sql_sort_head_None in Hh. by apply sql_select_nil.
Qed.

(** A job the request may claim. *)
Definition waiting (req : ClaimRequest) (j : JobRow) : Prop :=
  j_state j = Queued /\ j_campaign_id j = None /\ j_kind j ∈ cr_kinds req /\
  legacy_kind (j_kind j) = true.

Lemma candidate_waiting db req j :
  candidate db (cr_policy req) (cr_now req) (claimable req) [] j = true <-> waiting req j.
Proof.
  rewrite candidate_legacy, !andb_true_iff, !bool_decide_eq_true, elem_of_claimable, sql_null_true.
  unfold waiting. tauto.
Qed.

(** A legacy claim that returns: nothing was selected, or the selected row was
    leased; the continuation on campaign rows is never entered. *)
Lemma claim_raw_cases phase_tail req db r db' :
  claim_raw phase_tail req db = Ok (r, db') ->
  (r = None /\ db' = db /\
     (claimable req <> [] -> select_claim db req (claimable req) [] = None)) \/
  exists j n, select_claim db req (claimable req) [] = Some j /\ j_campaign_id j = None /\
    r = Some {| cl_job := lease_row req (cr_now req + cr_legacy_lease_seconds req) j;
                cl_assigned_units := []; cl_resumed := false |} /\
    update_jobs (fun x => j_id x =? j_id j)
      (lease_row req (cr_now req + cr_legacy_lease_seconds req)) db = Ok (n, db').
Proof.
  intros H. unfold claim_raw, claim_filtered in H. fold (claimable req) in H.
  destruct (claimable req) as [|k0 ks] eqn:Hks; [left; by tx_inv H|].
  rewrite <- Hks in *. destruct (policy_invalid _); [by tx_inv H|].
  destruct (checked_add _ _) as [lease|] eqn:Hl; [|by tx_inv H]. apply to_i64_Some in Hl as [-> _].
  apply tx_bind_Ok in H as (o & d & Hu & H). unfold claim_update in Hu.
  apply tx_bind_Ok in Hu as (? & ? & [-> ->]%tx_get_Ok & Hu).
  pose proof (select_claim_legacy db req (claimable req)) as Hsel.
  destruct (select_claim _ _ _ _) as [j|]; [|left; tx_inv Hu; by tx_inv H].
  destruct Hsel as (_ & (_ & Hc & _)%candidate_waiting & _). right.
  destruct (negb _); [by tx_inv Hu|]. apply tx_bind_Ok in Hu as (n & d1 & Hup & Hu).
  destruct (u32_max <? _); [by tx_inv Hu|]. tx_inv Hu. cbn in H. rewrite Hc in H. tx_inv H.
  by exists j, n.
Qed.

(** the legacy claim.  When it returns nothing, no job of a requested scan
    or verify kind was queued outside a campaign; when it returns a job, that
    job was such a one and came before every other in the queue order
    (verification first, then enqueue time, then id), and the only change to
    the database is that row, now leased to the worker until
    [now + legacy_lease_seconds] under the request's capability, with one more
    attempt.  Campaign rows are never claimed, whatever the phase scheduler
    would do with them. *)
Theorem claim_raw_takes_the_first_waiting_job phase_tail req db r db' :
  (forall i j, jobs db !! i = Some j -> j_id j = i) ->
  claim_raw phase_tail req db = Ok (r, db') ->
  match r with
  | None => db' = db /\
      (claimable req <> [] -> forall i j, jobs db !! i = Some j -> ~ waiting req j)
  | Some c => exists j, jobs db !! j_id j = Some j /\ waiting req j /\
      (forall i k, jobs db !! i = Some k -> waiting req k -> before j k) /\
      cl_job c = lease_row req (cr_now req + cr_legacy_lease_seconds req) j /\
      cl_assigned_units c = [] /\ cl_resumed c = false /\
      db' = db <|jobs := <[j_id j := cl_job c]> (jobs db)|>
  end.
Proof.
  intros Hid [(-> & -> & Hnone)|(j & n & Hs & Hc & -> & Hu)]%claim_raw_cases;
    pose proof (select_claim_legacy db req (claimable req)) as Hsel.
  - split; [done|]. intros Hne i j Hj Hw. rewrite (Hnone Hne) in Hsel.
    apply (candidate_waiting db) in Hw. by rewrite (Hsel i j Hj) in Hw.
  - rewrite Hs in Hsel. destruct Hsel as ((i & Hi) & Hw%candidate_waiting & Hmin).
    pose proof (Hid _ _ Hi) as <-. apply update_jobs_Ok in Hu as (_ & _ & ->). exists j.
    do 2 (split; [done|]). split; [intros i k Hk Hwk; eapply Hmin; [done|]; by apply candidate_waiting|].
    do 3 (split; [done|]). cbn. by rewrite (sql_update_by_id j_id _ _ _ j).
Qed.
