(* ===== verification/Reports.v ===== *)
(** * Reports ([loupe-storage/src/reports.rs])

    Completion of an assignment, verdict submission, approval, the selection of
    what a repository reports, and the receipt that lets a delivered report
    mark exactly the selected findings. *)

From S2P Require Import Prelude Sql Domain StateMachine Vocabulary SchedPolicy Store Scope Repos Findings Jobs Issuer.
From Stdlib Require Import ZArith Lia.
From stdpp Require Import base gmap sets list strings.
Local Open Scope Z_scope.

Inductive Unavailable := StoredInput | Credential | Revision.

Inductive SelectedCredential :=
| CredNone
| CredPat (value : bytes)
| CredApp (value : bytes).

Record StoredMailSettings := {
  ms_batch : Z;
  ms_database : Z;
  ms_repo_id : Z;
  ms_owner : str;
  ms_repository : str;
  ms_to : list str;
  ms_from : option str;
  ms_prefix : option str;
}.

Record ReportFinding := {
  rf_id : Z;
  rf_finding : Finding;
  rf_reviewed_revision : option str;
  rf_phase_review : bool;
}.

Record ReportEntry := {
  re_id : Z;
  re_content : result Unavailable ReportFinding;
}.

Record Member := {
  m_id : Z;
  m_identity : bytes;
  m_completed : bool;
}.

#[export] Instance eta_Member : Eta Member := fun m => {|
  m_id := m_id m; m_identity := m_identity m; m_completed := m_completed m |}.

(** [rr_database] and [rr_committed] are the shared addresses of the issuing
    handle and of its transaction's commit flag. *)
Record ReportReceipt := {
  rr_database : Z;
  rr_committed : Z;
  rr_repo_id : Z;
  rr_members : list Member;
}.

#[export] Instance eta_ReportReceipt : Eta ReportReceipt := fun r => {|
  rr_database := rr_database r; rr_committed := rr_committed r; rr_repo_id := rr_repo_id r;
  rr_members := rr_members r |}.

Record PreparedReport := {
  pr_repo : RepoRow;
  pr_batch : Z;
  pr_mail : option StoredMailSettings;
  pr_entries : list ReportEntry;
  pr_credential : SelectedCredential;
  pr_receipt : ReportReceipt;
}.

Inductive Preparation :=
| NoReport
| ReportUnavailable (why : Unavailable)
| Ready (report : PreparedReport).

Inductive Selection := SJob (id : Z) | SFinding (id : Z).

(** ** Selection *)

(** [finding_details::review_provenance] *)
Definition review_provenance (db : Db) (finding repo : Z) (commit : str) (workflow : Z) : bool :=
  sql_exists (fun f => (fr_id f =? finding) && (fr_repo_id f =? repo) &&
    sql_exists (fun j => (j_id j =? fr_job_id f) && (j_repo_id j =? repo) &&
      bool_decide (j_kind j = Drilldown) && sql_some (j_campaign_id j) &&
      match j_head_sha j with None => true | Some h => str_eqb h commit end &&
      match j_workflow_contract_version j with None => true | Some w => w =? workflow end)
      (jobs db)) (findings db).

Inductive StoredEvidence := EvMissing | EvHistorical | EvRecorded (reviewed_commit_sha : str).

(** [finding_details::read_review_evidence_raw], on rows that decode. *)
Definition read_review_evidence_raw (repo finding : Z) : Tx StoredEvidence :=
  db ← tx_get;
  row ← tx_first finding_review_details (fun d =>
    (rd_finding_id d =? finding) && (rd_repo_id d =? repo) &&
    sql_exists (fun f => (fr_id f =? finding) && (fr_repo_id f =? repo)) (findings db));
  match row with
  | None => mret EvMissing
  | Some d =>
      if negb (rd_recorded d) then mret EvHistorical
      else if review_provenance db finding repo (rd_reviewed_commit_sha d)
                (rd_workflow_contract_version d)
      then mret (EvRecorded (rd_reviewed_commit_sha d))
      else tx_err (OwnershipError OFinding)
  end.

(** [ReportFinding::selected] *)
Definition selected (db : Db) (repo_id : Z) (row : FindingRow) : result Unavailable ReportFinding :=
  let entry revision phase := {| rf_id := fr_id row; rf_finding := into_finding row;
                                 rf_reviewed_revision := revision; rf_phase_review := phase |} in
  match read_review_evidence_raw repo_id (fr_id row) db with
  | Err _ => Err StoredInput
  | Ok (EvMissing, _) =>
      match head (sql_select (fun j => (j_id j =? fr_job_id row) && (j_repo_id j =? repo_id))
                    (jobs db)) with
      | None => Err Revision
      | Some j => if sql_some (j_campaign_id j) then Err StoredInput
                  else Ok (entry (j_head_sha j) false)
      end
  | Ok (EvHistorical, _) =>
      match head (sql_select (fun d => (rd_finding_id d =? fr_id row) && (rd_repo_id d =? repo_id))
                    (finding_review_details db)) with
      | None => Err Revision
      | Some d => Ok (entry (Some (rd_reviewed_commit_sha d)) true)
      end
  | Ok (EvRecorded commit, _) => Ok (entry (Some commit) true)
  end.

Definition select_credential (reporting : ReportingDestination)
    : Tx (result Unavailable SelectedCredential) :=
  match reporting with
  | GithubIssue _ _ (Some id) =>
      secret ← Secrets.read id;
      mret (match secret with None => Err Credential | Some v => Ok (CredPat v) end)
  | GithubIssue _ _ None =>
      app ← GithubAppStore.get;
      mret (match app with None => Err Credential | Some v => Ok (CredApp v) end)
  | _ => mret (Ok CredNone)
  end.

(** The address of a fresh [BatchIdentity] is [batch]. *)
Definition select (scope : RepoScope) (batch : Z) (selection : Selection) : Tx Preparation :=
  repo ← Repos.get_raw (rs_repo_id scope);
  match repo with
  | None => tx_err ScopeDenied
  | Some repo =>
      match r_reporting repo with
      | Manual => mret NoReport
      | reporting =>
          rows ← tx_select findings (fun f => (fr_repo_id f =? rs_repo_id scope) &&
            match selection with
            | SJob id => fr_job_id f =? id
            | SFinding id => fr_id f =? id
            end);
          let rows := filter (fun f => fr_state f = Confirmed) rows in
          match rows with
          | [] => mret NoReport
          | _ =>
              credential ← select_credential reporting;
              match credential with
              | Err why => mret (ReportUnavailable why)
              | Ok credential =>
                  db ← tx_get;
                  let mail := match reporting with
                    | Email to from prefix =>
                        Some {| ms_batch := batch; ms_database := rs_identity scope;
                                ms_repo_id := rs_repo_id scope; ms_owner := r_owner repo;
                                ms_repository := r_repo repo; ms_to := to; ms_from := from;
                                ms_prefix := prefix |}
                    | _ => None
                    end in
                  mret (Ready {|
                    pr_repo := repo; pr_batch := batch; pr_mail := mail;
                    pr_entries := (fun f => {| re_id := fr_id f;
                                               re_content := selected db (rs_repo_id scope) f |})
                                  <$> rows;
                    pr_credential := credential;
                    pr_receipt := {|
                      rr_database := rs_identity scope; rr_committed := rs_committed scope;
                      rr_repo_id := rs_repo_id scope;
                      rr_members := (fun f => {| m_id := fr_id f; m_identity := fr_report_identity f;
                                                 m_completed := false |}) <$> rows |} |})
              end
          end
      end
  end.

(** [prepare]: the conversion and validation failures of the projection become
    an unavailable report; other errors propagate. *)
Definition prepare (scope : RepoScope) (selection : Selection) : Tx Preparation := fun db =>
  match select scope (rs_committed scope) selection db with
  | Err (Sqlite (InvalidScalar _)) | Err (Validation _ _) =>
      Ok (ReportUnavailable StoredInput, db)
  | r => r
  end.

Definition prepare_assignment (scope : AssignmentScope) : Tx Preparation :=
  match j_kind (as_job scope) with
  | Scan => prepare (as_repo scope) (SJob (j_id (as_job scope)))
  | Verify =>
      match j_target_finding_id (as_job scope) with
      | None => tx_err ScopeDenied
      | Some target => prepare (as_repo scope) (SFinding target)
      end
  | _ => tx_err ScopeDenied
  end.

Definition prepare_operator (scope : RepoScope) (finding_id : Z) : Tx Preparation :=
  _ ← require_operator scope; prepare scope (SFinding finding_id).

(** ** Completion *)

(** The succeeded-scan branch of [complete_assignment]. *)
Definition complete_scan (scope : AssignmentScope) (head_sha : option str)
    (require_approval_default : bool) (validating_deadline : Z) : Tx Preparation :=
  let job := as_job scope in
  let repo_id := rs_repo_id (as_repo scope) in
  let now := al_now (as_lease scope) in
  duration_ms ← tx_lift (Jobs.scan_duration_ms (j_started_at job) now);
  match head_sha with
  | None => tx_err (ConflictError CJobState)
  | Some revision =>
      if str_is_empty (trim revision) then tx_err (ConflictError CJobState)
      else
        repo ← Repos.get_raw repo_id;
        match repo with
        | None => tx_err ScopeDenied
        | Some repo =>
            _ ← update_jobs (fun j => (j_id j =? j_id job) && (j_repo_id j =? repo_id) &&
                                      bool_decide (j_state j = Leased))
                  (fun j => j <|j_head_sha := Some revision|>);
            _ ← update_repos (fun r => r_id r =? repo_id)
                  (fun r => r <|r_last_scanned_sha := Some revision|> <|r_last_scanned_at := Some now|>);
            db ← tx_get;
            _ ← insert_history {| h_id := 0; h_repo_id := repo_id; h_job_id := j_id job;
                                  h_head_sha := revision; h_base_sha := j_since_sha job;
                                  h_finding_count := sql_count (fun f =>
                                    (fr_job_id f =? j_id job) && (fr_repo_id f =? repo_id)) (findings db);
                                  h_duration_ms := duration_ms; h_finished_at := now |};
            _ ← Findings.transition_scan_findings_after_success repo_id (j_id job)
                  (Repos.effective_require_approval repo require_approval_default)
                  validating_deadline now;
            _ ← Jobs.enqueue_verify_jobs_for_scan repo_id (j_id job) now;
            prepare_assignment scope
        end
  end.

(** The succeeded-verify branch: a verdict of this job on its target exists. *)
Definition complete_verify (scope : AssignmentScope) : Tx Preparation :=
  db ← tx_get;
  exists_ ← tx_exists finding_verifications (fun v =>
    sql_eq (v_job_id v) (j_id (as_job scope)) &&
    sql_exists (fun f => (fr_id f =? v_finding_id v) &&
                         (fr_repo_id f =? rs_repo_id (as_repo scope)) &&
                         sql_eq (j_target_finding_id (as_job scope)) (fr_id f)) (findings db));
  if (exists_ : bool) then mret NoReport else tx_err (ConflictError CJobState).

Definition complete_assignment (scope : AssignmentScope) (state : JobState)
    (head_sha error : option str) (require_approval_default : bool) (validating_deadline : Z)
    : Tx Preparation :=
  let job := as_job scope in
  preparation ←
    match state with
    | Succeeded =>
        match j_kind job with
        | Scan => complete_scan scope head_sha require_approval_default validating_deadline
        | Verify => complete_verify scope
        | _ => tx_err ScopeDenied
        end
    | Failed =>
        if bool_decide (j_kind job = Scan) then
          _ ← Findings.delete_pending_for_job (rs_repo_id (as_repo scope)) (j_id job); mret NoReport
        else mret NoReport
    | _ => mret NoReport
    end;
  done ← Jobs.complete (al_identity (as_lease scope)) state head_sha error (al_now (as_lease scope));
  if (done : bool) then mret preparation else tx_err ScopeDenied.

(** ** Verdicts and approval *)

Definition submit_verdict (scope : AssignmentScope) (verdict : Verdict) (by_cn : str)
    (terminal_inconclusive require_approval_default : bool)
    : Tx (option FindingState * Preparation) :=
  let repo_id := rs_repo_id (as_repo scope) in
  let now := al_now (as_lease scope) in
  if negb (bool_decide (j_kind (as_job scope) = Verify)) then tx_err ScopeDenied
  else match j_target_finding_id (as_job scope) with
  | None => tx_err ScopeDenied
  | Some target =>
      exists_ ← tx_exists findings (fun f => (fr_id f =? target) && (fr_repo_id f =? repo_id));
      if negb (exists_ : bool) then tx_err ScopeDenied
      else
        repo ← Repos.get_raw repo_id;
        match repo with
        | None => tx_err ScopeDenied
        | Some repo =>
            _ ← Findings.insert_verification repo_id target
                  (Submitted (j_id (as_job scope)) verdict) now;
            _ ← match verdict with
                | VConfirmed _ (Some patch) =>
                    Findings.attach_proposed_patch repo_id target (vp_patch_unified patch)
                      (vp_notes patch) by_cn now
                | _ => mret AlreadyPresent
                end;
            state ← Findings.roll_up_verdicts_for_finding repo_id target terminal_inconclusive
                      (Repos.effective_require_approval repo require_approval_default) now;
            preparation ← (if bool_decide (state = Some Confirmed)
                           then prepare_assignment scope else mret NoReport);
            mret (state, preparation)
        end
  end.

Definition approve (scope : RepoScope) (id : Z) (by_cn : str) (now : Z)
    : Tx (ApprovalOutcome * Preparation) :=
  _ ← require_operator scope;
  exists_ ← tx_exists findings (fun f => (fr_id f =? id) && (fr_repo_id f =? rs_repo_id scope));
  if negb (exists_ : bool) then mret (ApprovalNotFound, NoReport)
  else
    outcome ← Findings.approve (rs_repo_id scope) id by_cn now;
    preparation ← (if bool_decide (outcome = Applied) then prepare_operator scope id
                   else mret NoReport);
    mret (outcome, preparation).

(** ** Receipts *)

(** One member's guarded update inside [ReportReceipt::complete]. *)
Definition mark_member (repo_id now : Z) (m : Member) : Tx Z :=
  valid ← tx_exists findings (fun f => (fr_id f =? m_id m) && (fr_repo_id f =? repo_id) &&
                                       bool_decide (fr_report_identity f = m_identity m));
  if negb (valid : bool) then tx_err ReportReceiptError
  else update_findings (fun f => (fr_id f =? m_id m) && (fr_repo_id f =? repo_id) &&
                                 bool_decide (fr_report_identity f = m_identity m) &&
                                 bool_decide (fr_state f = Confirmed))
         (fun f => f <|fr_state := Reported|> <|fr_reported_at := Some now|>).

(** The loop of [complete]; [chosen] is [selected.is_none_or(..)] of an index. *)
Fixpoint mark_members (repo_id now : Z) (chosen : nat -> bool) (i : nat) (ms : list Member)
    (changed : Z) : Tx Z :=
  match ms with
  | [] => mret changed
  | m :: ms' =>
      if negb (m_completed m) && chosen i then
        n ← mark_member repo_id now m;
        mark_members repo_id now chosen (S i) ms' (changed + n)
      else mark_members repo_id now chosen (S i) ms' changed
  end.

Definition chosen (selected : option nat) (i : nat) : bool :=
  match selected with None => true | Some s => (s =? i)%nat end.

(** [ReportReceipt::complete], with [db.with_conn] around the transaction: the
    members complete only after the commit. *)
Definition complete_receipt (receipt : ReportReceipt) (h : Handle) (selected : option nat) (now : Z)
    : result Error Z * ReportReceipt * Handle :=
  match immediate (mark_members (rr_repo_id receipt) now (chosen selected) 0 (rr_members receipt) 0)
          (h_db h) with
  | Err e => (Err e, receipt, h)
  | Ok (changed, db) =>
      (Ok changed,
       receipt <|rr_members := imap (fun i m => if chosen selected i then m <|m_completed := true|>
                                                else m) (rr_members receipt)|>,
       h <|h_db := db|>)
  end.

(** The binding check of [mark_one] and [mark_all]. *)
Definition receipt_bound (receipt : ReportReceipt) (h : Handle) : bool :=
  bool_decide (rr_committed receipt ∈ h_published h) && (rr_database receipt =? h_identity h).

Fixpoint position (id : Z) (ms : list Member) : option nat :=
  match ms with
  | [] => None
  | m :: ms' => if m_id m =? id then Some 0%nat else S <$> position id ms'
  end.

Definition mark_one (receipt : ReportReceipt) (h : Handle) (id now : Z)
    : result Error Z * ReportReceipt * Handle :=
  if negb (receipt_bound receipt h) then (Err ReportReceiptError, receipt, h)
  else match position id (rr_members receipt) with
       | None => (Err ReportReceiptError, receipt, h)
       | Some member => complete_receipt receipt h (Some member) now
       end.

Definition mark_all (receipt : ReportReceipt) (h : Handle) (now : Z)
    : result Error Z * ReportReceipt * Handle :=
  if negb (receipt_bound receipt h) then (Err ReportReceiptError, receipt, h)
  else complete_receipt receipt h None now.

(** [PreparedReport::check_committed], [mail_settings] *)
Definition check_committed (report : PreparedReport) (h : Handle) : result Error unit :=
  if bool_decide (rr_committed (pr_receipt report) ∈ h_published h) then Ok tt
  else Err ReportReceiptError.

Definition mail_settings (report : PreparedReport) (h : Handle)
    : result Error StoredMailSettings :=
  match check_committed report h with
  | Err e => Err e
  | Ok _ =>
      match pr_mail report with
      | None => Err ScopeDenied
      | Some settings =>
          if negb (ms_repo_id settings =? r_id (pr_repo report)) ||
             negb (ms_batch settings =? pr_batch report) ||
             negb (ms_database settings =? rr_database (pr_receipt report))
          then Err ScopeDenied
          else Ok settings
      end
  end.
