(* ===== verification/Recovery.v ===== *)
(** * Recovery and maintenance ([loupe-storage/src/recovery.rs], [maintenance.rs])

    The operator's bulk retry of stranded verification, with its dry run, and
    the scheduler that enqueues due scans. *)

From S2P Require Import Prelude Sql Domain StateMachine Vocabulary SchedPolicy Store Scope Repos Findings Jobs.
From Stdlib Require Import ZArith Lia.
From stdpp Require Import base gmap sets list strings.
Local Open Scope Z_scope.

Record RecoveryRequest := {
  rq_repo_id : option Z;
  rq_limit : option Z;
  rq_include_inconclusive : bool;
  rq_dry_run : bool;
}.

#[export] Instance eta_RecoveryRequest : Eta RecoveryRequest := fun r => {|
  rq_repo_id := rq_repo_id r; rq_limit := rq_limit r;
  rq_include_inconclusive := rq_include_inconclusive r; rq_dry_run := rq_dry_run r |}.

Record RecoveryCounts := {
  rc_dry_run : bool;
  rc_matched : Z;
  rc_revived : Z;
  rc_requeued_jobs : Z;
  rc_created_jobs : Z;
  rc_left_queued_or_leased : Z;
}.

#[export] Instance eta_RecoveryCounts : Eta RecoveryCounts := fun c => {|
  rc_dry_run := rc_dry_run c; rc_matched := rc_matched c; rc_revived := rc_revived c;
  rc_requeued_jobs := rc_requeued_jobs c; rc_created_jobs := rc_created_jobs c;
  rc_left_queued_or_leased := rc_left_queued_or_leased c |}.

(** The [WHERE] clause of the candidate query. *)
Definition recovery_candidate (db : Db) (req : RecoveryRequest) (f : FindingRow) : bool :=
  let verdict P := sql_exists (fun v => (v_finding_id v =? fr_id f) && P v)
                     (finding_verifications db) in
  fr_verification_required f &&
  negb (phase_marked db f) &&
  sql_exists (fun p => (j_id p =? fr_job_id f) && (j_repo_id p =? fr_repo_id f)) (jobs db) &&
  match rq_repo_id req with None => true | Some r => fr_repo_id f =? r end &&
  ((bool_decide (fr_state f = Dismissed) &&
    verdict (fun v => sql_null (v_job_id v) && bool_decide (v_verdict v = OInconclusive) &&
                      bool_decide (v_notes v = Some VALIDATING_DEADLINE_EXPIRED_NOTE))) ||
   (bool_decide (fr_state f = Pending) &&
    sql_exists (fun j => (j_id j =? fr_job_id f) && bool_decide (j_kind j = Scan) &&
                         JobState.is_terminal (j_state j) && sql_some (j_finished_at j)) (jobs db)) ||
   bool_decide (fr_state f = Validating)) &&
  negb (verdict (fun v => bool_decide (v_verdict v = OConfirmed) ||
                          bool_decide (v_verdict v = ODismissed))) &&
  (rq_include_inconclusive req ||
   negb (verdict (fun v => sql_some (v_job_id v) && bool_decide (v_verdict v = OInconclusive)))).

(** [ORDER BY COALESCE(f.validating_deadline, f.created_at), f.id] *)
Definition recovery_order (a b : FindingRow) : bool :=
  let key f := default (fr_created_at f) (fr_validating_deadline f) in
  (key a <? key b) || ((key a =? key b) && (fr_id a <=? fr_id b)).

Definition recovery_candidates (db : Db) (req : RecoveryRequest) : list FindingRow :=
  sql_limit (default (-1) (rq_limit req))
    (sql_sort recovery_order (sql_select (recovery_candidate db req) (findings db))).

(** The newest failed verify job of a finding. *)
Definition failed_verify_job (db : Db) (finding repo : Z) : option JobRow :=
  head (sql_sort newest_first
    (sql_select (fun j => bool_decide (j_kind j = Verify) &&
                          sql_eq (j_target_finding_id j) finding && (j_repo_id j =? repo) &&
                          bool_decide (j_state j = Failed)) (jobs db))).

(** The body of the candidate loop. *)
Definition recover_one (dry_run : bool) (now budget_seconds : Z) (out : RecoveryCounts)
    (c : FindingRow) : Tx RecoveryCounts :=
  active_verify ← tx_exists jobs (fun j =>
    bool_decide (j_kind j = Verify) && sql_eq (j_target_finding_id j) (fr_id c) &&
    (j_repo_id j =? fr_repo_id c) && active_state (j_state j));
  if (active_verify : bool)
  then mret (out <|rc_left_queued_or_leased := rc_left_queued_or_leased out + 1|>)
  else
    let out := out <|rc_revived := rc_revived out + 1|> in
    db ← tx_get;
    out ← match failed_verify_job db (fr_id c) (fr_repo_id c) with
          | Some job =>
              _ ← (if dry_run then mret None
                   else Jobs.requeue_failed (fr_repo_id c) (j_id job) now);
              mret (out <|rc_requeued_jobs := rc_requeued_jobs out + 1|>)
          | None =>
              _ ← (if dry_run then mret 0
                   else Jobs.enqueue_raw {| nj_repo_id := fr_repo_id c; nj_kind := Verify;
                          nj_incremental := false; nj_since_sha := None;
                          nj_parent_job_id := Some (fr_job_id c);
                          nj_target_finding_id := Some (fr_id c) |} now);
              mret (out <|rc_created_jobs := rc_created_jobs out + 1|>)
          end;
    _ ← (if dry_run then mret false
         else Findings.retry_verification (fr_repo_id c) (fr_id c) (wrapping_add now budget_seconds));
    mret out.

Fixpoint recover_all (dry_run : bool) (now budget_seconds : Z) (out : RecoveryCounts)
    (cs : list FindingRow) : Tx RecoveryCounts :=
  match cs with
  | [] => mret out
  | c :: cs' =>
      out ← recover_one dry_run now budget_seconds out c;
      recover_all dry_run now budget_seconds out cs'
  end.

Definition retry_verification_candidates (req : RecoveryRequest) (now budget_seconds : Z)
    : Tx RecoveryCounts :=
  transaction (
    db ← tx_get;
    let candidates := recovery_candidates db req in
    out ← recover_all (rq_dry_run req) now budget_seconds
      {| rc_dry_run := rq_dry_run req; rc_matched := Z.of_nat (length candidates);
         rc_revived := 0; rc_requeued_jobs := 0; rc_created_jobs := 0;
         rc_left_queued_or_leased := 0 |} candidates;
    mret (if rq_dry_run req then Rollback out else Commit out)).

(** ** Maintenance *)

Fixpoint schedule_repos (now : Z) (repos : list RepoRow) (enqueued : Z) : Tx Z :=
  match repos with
  | [] => mret enqueued
  | repo :: rest =>
      active ← Jobs.count_active_scans_for_repo (r_id repo);
      if negb (active =? 0) then schedule_repos now rest enqueued
      else
        _ ← Jobs.enqueue_raw {| nj_repo_id := r_id repo; nj_kind := Scan;
              nj_incremental := sql_some (r_last_scanned_sha repo);
              nj_since_sha := r_last_scanned_sha repo; nj_parent_job_id := None;
              nj_target_finding_id := None |} now;
        schedule_repos now rest (enqueued + 1)
  end.

Definition schedule_due (now : Z) : Tx Z :=
  immediate (
    due ← Repos.list_due_for_scan now;
    schedule_repos now due 0).
