(* ===== verification/Invariant.v ===== *)
(** * The store's invariant and its evolution

    [good] is what every operation keeps true of the database: rows are keyed
    by their id, lease columns agree with the job state, attempts are bounded,
    stamps agree with the finding state, references stay inside one
    repository, pending findings belong to a scan that is still running, and a
    finding past verification owes its place to a verifier's confirmation.
    [evolves] is how the rows of one database become those of the next: along
    the job and finding machines, never changing what identifies them.

    The lemmas of this file say which updates of one table keep both; the
    operations of the system are then handled statement by statement. *)

From S2P Require Import Prelude Sql Domain StateMachine Vocabulary SchedPolicy Store TxLogic Scope Repos Findings Jobs.
From Stdlib Require Import ZArith Lia.
From stdpp Require Import base gmap sets list strings relations.
Local Open Scope Z_scope.

(** ** Rows *)

(** Lease columns against the state. *)
Definition lease_ok (j : JobRow) : Prop :=
  match j_state j with
  | Queued => j_worker_id j = None /\ j_lease_expires_at j = None /\ j_capability_hash j = None
  | Leased => is_Some (j_worker_id j) /\ is_Some (j_lease_expires_at j) /\
              is_Some (j_capability_hash j)
  | _ => j_lease_expires_at j = None /\ j_capability_hash j = None
  end.

(** Attempts of a legacy job: a queued job has one left, a leased job used at
    least one, and no job uses more than [MAX_ATTEMPTS]. *)
Definition attempts_ok (j : JobRow) : Prop :=
  j_campaign_id j = None -> legacy_kind (j_kind j) = true ->
  match j_state j with
  | Queued => 0 <= j_attempts j < MAX_ATTEMPTS
  | Leased => 1 <= j_attempts j <= MAX_ATTEMPTS
  | _ => 0 <= j_attempts j <= MAX_ATTEMPTS
  end.

Definition finished_ok (j : JobRow) : Prop :=
  is_Some (j_finished_at j) <-> JobState.is_terminal (j_state j) = true.

Definition job_ok (j : JobRow) : Prop := lease_ok j /\ attempts_ok j /\ finished_ok j.

(** A finding a human or the dispatcher sees as real. *)
Definition accepted (s : FindingState) : bool :=
  match s with AwaitingApproval | Confirmed | Reported => true | _ => false end.

Record finding_ok (f : FindingRow) : Prop := {
  fo_confirmed : fr_state f = Confirmed \/ fr_state f = Reported ->
                 is_Some (fr_confirmed_at f) \/ is_Some (fr_approved_at f);
  fo_reported : fr_state f = Reported -> is_Some (fr_reported_at f);
  fo_dismissed : fr_state f = Dismissed -> is_Some (fr_dismissed_at f);
  fo_validating : fr_state f = Validating ->
                  is_Some (fr_validating_deadline f) /\ fr_verification_required f = true;
  fo_rejected : is_Some (fr_rejected_at f) -> fr_state f = Dismissed;
}.

(** A verifier confirmed finding [id]. *)
Definition confirmed_by_verifier (db : Db) (id : Z) : Prop :=
  exists k v, finding_verifications db !! k = Some v /\ v_finding_id v = id /\
              v_verdict v = OConfirmed.

(** A finding that needed verification and got past it, or was rejected by an
    operator afterwards. *)
Definition past_verification (f : FindingRow) : Prop :=
  fr_verification_required f = true /\
  (accepted (fr_state f) = true \/ is_Some (fr_rejected_at f)).

(** ** The invariant *)

(** [S] names scan jobs whose pending findings are about to be deleted in the
    same transaction; between transactions it is empty. *)
Record good (S : Z -> Prop) (db : Db) : Prop := {
  g_job_id : forall i j, jobs db !! i = Some j -> j_id j = i;
  g_finding_id : forall i f, findings db !! i = Some f -> fr_id f = i;
  g_repo_id : forall i r, registered_repos db !! i = Some r -> r_id r = i;
  g_job : forall i j, jobs db !! i = Some j -> job_ok j;
  g_finding : forall i f, findings db !! i = Some f -> finding_ok f;
  g_unique : jobs_unique (jobs db) = true;
  g_finding_job : forall i f, findings db !! i = Some f ->
    exists j, jobs db !! fr_job_id f = Some j /\ j_repo_id j = fr_repo_id f;
  g_pending : forall i f, findings db !! i = Some f -> fr_state f = Pending ->
    ~ S (fr_job_id f) ->
    exists j, jobs db !! fr_job_id f = Some j /\ j_kind j = Scan /\
              active_state (j_state j) = true;
  g_verification : forall i v, finding_verifications db !! i = Some v ->
    exists f, findings db !! v_finding_id v = Some f /\
      (v_job_id v = None -> fr_verification_required f = true) /\
      (forall k, v_job_id v = Some k ->
         exists j, jobs db !! k = Some j /\ j_repo_id j = fr_repo_id f);
  g_evidence : forall i f, findings db !! i = Some f -> past_verification f ->
    confirmed_by_verifier db i;
}.

Definition nothing : Z -> Prop := fun _ => False.

(** The invariant between transactions. *)
Definition Inv (db : Db) : Prop := good nothing db.

(** ** Evolution *)

Record job_evolves (j j' : JobRow) : Prop := {
  je_id : j_id j' = j_id j;
  je_repo : j_repo_id j' = j_repo_id j;
  je_kind : j_kind j' = j_kind j;
  je_target : j_target_finding_id j' = j_target_finding_id j;
  je_campaign : j_campaign_id j' = j_campaign_id j;
  je_state : rtc job_step (j_state j) (j_state j');
}.

Record finding_evolves (f f' : FindingRow) : Prop := {
  fe_id : fr_id f' = fr_id f;
  fe_repo : fr_repo_id f' = fr_repo_id f;
  fe_job : fr_job_id f' = fr_job_id f;
  fe_required : fr_verification_required f' = fr_verification_required f;
  fe_identity : fr_report_identity f' = fr_report_identity f;
  fe_rejected : is_Some (fr_rejected_at f) -> fr_rejected_at f' = fr_rejected_at f;
  fe_state : rtc finding_step (fr_state f) (fr_state f');
}.

(** Jobs persist and follow their machine; new jobs start queued.  Findings
    follow theirs; only pending ones may disappear, and a row that is not the
    evolution of the row it replaces (row ids are recycled) started pending. *)
Record evolves (db db' : Db) : Prop := {
  ev_job : forall i j, jobs db !! i = Some j ->
    exists j', jobs db' !! i = Some j' /\ job_evolves j j';
  ev_new_job : forall i j', jobs db !! i = None -> jobs db' !! i = Some j' ->
    rtc job_step Queued (j_state j');
  ev_finding : forall i f, findings db !! i = Some f ->
    fr_state f = Pending \/
    exists f', findings db' !! i = Some f' /\ finding_evolves f f';
  ev_new_finding : forall i f', findings db' !! i = Some f' ->
    (exists f, findings db !! i = Some f /\ finding_evolves f f') \/
    rtc finding_step Pending (fr_state f');
}.

#[export] Instance job_evolves_refl : Reflexive job_evolves.
Proof. intros j. by constructor. Qed.

#[export] Instance job_evolves_trans : Transitive job_evolves.
Proof.
  intros a b c [] []. constructor; try congruence. by etrans.
Qed.

#[export] Instance finding_evolves_refl : Reflexive finding_evolves.
Proof. intros f. by constructor. Qed.

#[export] Instance finding_evolves_trans : Transitive finding_evolves.
Proof.
  intros a b c [] []. constructor; try congruence; [|by etrans].
  intros Ha. rewrite fe_rejected1; [auto|]. by rewrite fe_rejected0.
Qed.

#[export] Instance evolves_refl : Reflexive evolves.
Proof.
  intros db. constructor; intros.
  - eauto using job_evolves_refl.
  - congruence.
  - right. eauto using finding_evolves_refl.
  - left. eauto using finding_evolves_refl.
Qed.

Lemma rtc_finding_step_pending s : rtc finding_step s Pending -> s = Pending.
Proof.
  intros H. apply rtc_inv_r in H as [->|(y & _ & Hy)]; [done|]. by apply finding_step_to_pending in Hy.
Qed.

#[export] Instance evolves_trans : Transitive evolves.
Proof.
  intros a b c [J1 N1 F1 M1] [J2 N2 F2 M2]. constructor.
  - intros i j Hj. destruct (J1 i j Hj) as (j1 & Hj1 & E1).
    destruct (J2 i j1 Hj1) as (j2 & Hj2 & E2). exists j2. split; [done|]. by etrans.
  - intros i j Hn Hc. destruct (jobs b !! i) as [j1|] eqn:Hb; [|by apply (N2 i)].
    destruct (J2 i j1 Hb) as (j2 & Hj2 & E2). simplify_eq.
    etrans; [by apply (N1 i)|]. apply E2.
  - intros i f Hf. destruct (F1 i f Hf) as [?|(f1 & Hf1 & E1)]; [by left|].
    destruct (F2 i f1 Hf1) as [Hp|(f2 & Hf2 & E2)].
    + left. pose proof (fe_state _ _ E1) as Hs. rewrite Hp in Hs.
      by apply rtc_finding_step_pending in Hs.
    + right. exists f2. split; [done|]. by etrans.
  - intros i f Hf. destruct (M2 i f Hf) as [(f1 & Hf1 & E2)|?]; [|by right].
    destruct (M1 i f1 Hf1) as [(f0 & Hf0 & E1)|Hr].
    + left. exists f0. split; [done|]. by etrans.
    + right. etrans; [exact Hr|]. apply E2.
Qed.

(** ** Which statements keep the invariant *)

Lemma good_weaken (S S' : Z -> Prop) db : (forall k, S k -> S' k) -> good S db -> good S' db.
Proof. intros HS []. constructor; try done. intros i f Hf Hp HS'. eauto. Qed.

(** Changes outside the tables of the invariant. *)
Record same_core (db db' : Db) : Prop := {
  sc_jobs : jobs db' = jobs db;
  sc_findings : findings db' = findings db;
  sc_verifications : finding_verifications db' = finding_verifications db;
  sc_repos : forall i r, registered_repos db' !! i = Some r -> r_id r = i;
}.

Lemma good_same_core S db db' : good S db -> same_core db db' -> good S db' /\ evolves db db'.
Proof.
  intros Hg [Ej Ef Ev Er]. pose proof (evolves_refl db) as He.
  destruct db, db'; cbn in *; subst. split; [|destruct He; by constructor].
  destruct Hg. by constructor.
Qed.

Lemma good_update_jobs (S S' : Z -> Prop) db P f n db' :
  good S db -> update_jobs P f db = Ok (n, db') ->
  (forall k, S k -> S' k) ->
  (forall i j, jobs db !! i = Some j -> P j = true -> job_ok j -> job_ok (f j) /\ job_evolves j (f j)) ->
  (forall i fd j, findings db !! i = Some fd -> fr_state fd = Pending -> ~ S' (fr_job_id fd) ->
     jobs db !! fr_job_id fd = Some j -> P j = true -> active_state (j_state j) = true ->
     active_state (j_state (f j)) = true) ->
  good S' db' /\ evolves db db'.
Proof.
  intros Hg (Hu & _ & ->)%update_jobs_Ok HS Hf Hact.
  assert (forall i j, jobs db !! i = Some j ->
    let j' := if P j then f j else j in job_ok j' /\ job_evolves j j') as Hrow.
  { intros i j Hj. cbn. destruct (P j) eqn:HP; [eapply Hf; eauto; by eapply g_job|].
    split; [by eapply g_job|done]. }
  split; [constructor; cbn|constructor; cbn].
  - intros i j' (j & Hj & ->)%lookup_sql_update_Some.
    rewrite (je_id _ _ (proj2 (Hrow _ _ Hj))). by eapply g_job_id.
  - apply Hg.
  - apply Hg.
  - intros i j' (j & Hj & ->)%lookup_sql_update_Some. by apply (Hrow i).
  - apply Hg.
  - done.
  - intros i fd Hfd. destruct (g_finding_job _ _ Hg i fd Hfd) as (j & Hj & Hr).
    eexists. split; [apply lookup_sql_update_Some; eauto|].
    by rewrite (je_repo _ _ (proj2 (Hrow _ _ Hj))).
  - intros i fd Hfd Hp HnS. destruct (g_pending _ _ Hg i fd Hfd Hp) as (j & Hj & Hk & Ha); [auto|].
    eexists. split; [apply lookup_sql_update_Some; eauto|].
    rewrite (je_kind _ _ (proj2 (Hrow _ _ Hj))). split; [done|]. destruct (P j) eqn:HP; eauto.
  - intros i v Hv. destruct (g_verification _ _ Hg i v Hv) as (fd & Hfd & Hn & Hk).
    exists fd. split; [done|]. split; [done|]. intros k Hkk. destruct (Hk k Hkk) as (j & Hj & Hr).
    eexists. split; [apply lookup_sql_update_Some; eauto|].
    by rewrite (je_repo _ _ (proj2 (Hrow _ _ Hj))).
  - apply Hg.
  - intros i j Hj. eexists. split; [apply lookup_sql_update_Some; eauto|]. by apply (Hrow i).
  - intros i j' Hn (j & Hj & _)%lookup_sql_update_Some. congruence.
  - intros i fd Hfd. right. eauto using finding_evolves_refl.
  - intros i fd Hfd. left. eauto using finding_evolves_refl.
Qed.

Lemma good_insert_job S db row id db' :
  good S db -> insert_job row db = Ok (id, db') -> j_state row = Queued ->
  job_ok (row <|j_id := id|>) -> good S db' /\ evolves db db'.
Proof.
  intros Hg (Hid & Hu & _ & _ & ->)%insert_job_Ok Hq Hok.
  pose proof (next_rowid_fresh _ _ Hid) as Hfresh.
  assert (forall i j, jobs db !! i = Some j ->
    <[id := row <|j_id := id|>]> (jobs db) !! i = Some j) as Hkeep.
  { intros i j Hj. rewrite lookup_insert_ne; [done|]. intros <-. congruence. }
  split; [constructor; cbn|constructor; cbn].
  - intros i j [[<- <-]|[_ Hj]]%lookup_insert_Some; [done|by eapply g_job_id].
  - apply Hg.
  - apply Hg.
  - intros i j [[<- <-]|[_ Hj]]%lookup_insert_Some; [done|by eapply g_job].
  - apply Hg.
  - done.
  - intros i fd Hfd. destruct (g_finding_job _ _ Hg i fd Hfd) as (j & Hj & Hr). eauto.
  - intros i fd Hfd Hp HS. destruct (g_pending _ _ Hg i fd Hfd Hp HS) as (j & Hj & Hr). eauto.
  - intros i v Hv. destruct (g_verification _ _ Hg i v Hv) as (fd & Hfd & Hn & Hk).
    exists fd. split; [done|]. split; [done|]. intros k Hkk. destruct (Hk k Hkk) as (j & Hj & Hr). eauto.
  - apply Hg.
  - intros i j Hj. eauto using job_evolves_refl.
  - intros i j Hn [[<- <-]|[_ Hj]]%lookup_insert_Some; [|congruence].
    cbn. by rewrite Hq.
  - intros i fd Hfd. right. eauto using finding_evolves_refl.
  - intros i fd Hfd. left. eauto using finding_evolves_refl.
Qed.

Lemma good_update_findings S db P f n db' :
  good S db -> update_findings P f db = Ok (n, db') ->
  (forall i fd, findings db !! i = Some fd -> P fd = true -> finding_ok fd ->
     finding_ok (f fd) /\ finding_evolves fd (f fd) /\
     (past_verification (f fd) -> past_verification fd \/ confirmed_by_verifier db i)) ->
  good S db' /\ evolves db db'.
Proof.
  intros Hg (_ & ->)%update_findings_Ok Hf.
  assert (forall i fd, findings db !! i = Some fd ->
    let fd' := if P fd then f fd else fd in
    finding_ok fd' /\ finding_evolves fd fd' /\
    (past_verification fd' -> past_verification fd \/ confirmed_by_verifier db i)) as Hrow.
  { intros i fd Hfd. cbn. destruct (P fd) eqn:HP; [eapply Hf; eauto; by eapply g_finding|].
    split; [by eapply g_finding|]. split; [done|]. by left. }
  split; [constructor; cbn|constructor; cbn].
  - apply Hg.
  - intros i fd' (fd & Hfd & ->)%lookup_sql_update_Some.
    rewrite (fe_id _ _ (proj1 (proj2 (Hrow _ _ Hfd)))). by eapply g_finding_id.
  - apply Hg.
  - apply Hg.
  - intros i fd' (fd & Hfd & ->)%lookup_sql_update_Some. by apply (Hrow i).
  - apply Hg.
  - intros i fd' (fd & Hfd & ->)%lookup_sql_update_Some.
    destruct (Hrow i fd Hfd) as (_ & Ev & _). rewrite (fe_job _ _ Ev), (fe_repo _ _ Ev).
    by eapply g_finding_job.
  - intros i fd' (fd & Hfd & ->)%lookup_sql_update_Some Hp.
    destruct (Hrow i fd Hfd) as (_ & Ev & _). rewrite (fe_job _ _ Ev).
    pose proof (fe_state _ _ Ev) as Hs. rewrite Hp in Hs. apply rtc_finding_step_pending in Hs.
    by eapply g_pending.
  - intros i v Hv. destruct (g_verification _ _ Hg i v Hv) as (fd & Hfd & Hn & Hk).
    eexists. split; [apply lookup_sql_update_Some; eauto|].
    destruct (Hrow _ fd Hfd) as (_ & Ev & _). rewrite (fe_required _ _ Ev), (fe_repo _ _ Ev). done.
  - intros i fd' (fd & Hfd & ->)%lookup_sql_update_Some Hp.
    destruct (Hrow i fd Hfd) as (_ & _ & [Hpv|?]%(fun H => H Hp)); [|done].
    by eapply (g_evidence _ _ Hg).
  - intros i j Hj. eauto using job_evolves_refl.
  - intros; congruence.
  - intros i fd Hfd. right. eexists. split; [apply lookup_sql_update_Some; eauto|].
    by apply (Hrow i).
  - intros i fd' (fd & Hfd & ->)%lookup_sql_update_Some. left. exists fd. split; [done|]. by apply (Hrow i).
Qed.

(** Deleting pending findings: [S'] may give up the jobs all of whose pending
    findings are gone. *)
Lemma good_delete_findings (S S' : Z -> Prop) db P n db' :
  good S db -> delete_findings P db = Ok (n, db') ->
  (forall i fd, findings db !! i = Some fd -> P fd = true -> fr_state fd = Pending) ->
  (forall i fd, findings db !! i = Some fd -> P fd = false -> fr_state fd = Pending ->
     S (fr_job_id fd) -> S' (fr_job_id fd)) ->
  good S' db' /\ evolves db db'.
Proof.
  intros Hg [= _ <-] HP HS.
  assert (forall i fd, sql_delete P (findings db) !! i = Some fd ->
    findings db !! i = Some fd /\ P fd = false) as Hdel.
  { intros i fd. apply lookup_sql_delete_Some. }
  split; [constructor; cbn|constructor; cbn].
  - apply Hg.
  - intros i fd [Hfd _]%Hdel. by eapply g_finding_id.
  - apply Hg.
  - apply Hg.
  - intros i fd [Hfd _]%Hdel. by eapply g_finding.
  - apply Hg.
  - intros i fd [Hfd _]%Hdel. by eapply g_finding_job.
  - intros i fd [Hfd HPf]%Hdel Hp HnS. eapply g_pending; eauto.
  - intros i v [Hv Hkeep]%lookup_sql_delete_Some.
    destruct (g_verification _ _ Hg i v Hv) as (fd & Hfd & Hrest). exists fd.
    split; [|done]. apply lookup_sql_delete_Some. by rewrite Hfd in Hkeep.
  - intros i fd [Hfd HPf]%Hdel Hpv.
    destruct (g_evidence _ _ Hg i fd Hfd Hpv) as (k & v & Hv & <- & Hc). exists k, v.
    split; [|done]. cbn. apply lookup_sql_delete_Some. split; [done|]. by rewrite Hfd.
  - intros i j Hj. eauto using job_evolves_refl.
  - intros; congruence.
  - intros i fd Hfd. destruct (P fd) eqn:HPf; [left; by eapply HP|]. right. exists fd.
    split; [|done]. by apply lookup_sql_delete_Some.
  - intros i fd [Hfd _]%Hdel. left. eauto using finding_evolves_refl.
Qed.

Lemma good_insert_verification S db v id db' fd :
  good S db -> insert_verification_row v db = Ok (id, db') ->
  findings db !! v_finding_id v = Some fd ->
  (v_job_id v = None -> fr_verification_required fd = true) ->
  (forall k, v_job_id v = Some k -> exists j, jobs db !! k = Some j /\ j_repo_id j = fr_repo_id fd) ->
  good S db' /\ evolves db db'.
Proof.
  intros Hg (Hid & _ & ->)%insert_verification_row_Ok Hfd Hn Hk.
  pose proof (next_rowid_fresh _ _ Hid) as Hfresh.
  split; [|pose proof (evolves_refl db) as []; by constructor].
  destruct Hg. constructor; cbn; try done.
  - intros i w [[<- <-]|[_ Hw]]%lookup_insert_Some; cbn; eauto.
  - intros i f Hf Hpv. destruct (g_evidence0 i f Hf Hpv) as (k & w & Hw & Hrest).
    exists k, w. split; [|done]. cbn. rewrite lookup_insert_ne; [done|]. intros <-. congruence.
Qed.

Lemma good_insert_finding S db row r db' :
  good S db -> insert_finding_row row db = Ok (r, db') ->
  fr_state row = Pending -> (forall id, finding_ok (row <|fr_id := id|>)) -> fr_rejected_at row = None ->
  (exists j, jobs db !! fr_job_id row = Some j /\ j_repo_id j = fr_repo_id row /\
             j_kind j = Scan /\ active_state (j_state j) = true) ->
  good S db' /\ evolves db db'.
Proof.
  intros Hg Hins Hp Hok Hrej (j & Hj & Hr & Hk & Ha). unfold insert_finding_row in Hins.
  case_match; [simplify_eq; split; [done|reflexivity]|].
  destruct (next_rowid (findings db)) as [id|] eqn:Hid; [|done]. case_match; [|done]. simplify_eq.
  pose proof (next_rowid_fresh _ _ Hid) as Hfresh.
  assert (forall i fd, findings db !! i = Some fd ->
    <[id := row <|fr_id := id|>]> (findings db) !! i = Some fd) as Hkeep.
  { intros i fd Hfd. rewrite lookup_insert_ne; [done|]. intros <-. congruence. }
  split; [constructor; cbn|constructor; cbn].
  - apply Hg.
  - intros i fd [[<- <-]|[_ Hfd]]%lookup_insert_Some; [done|by eapply g_finding_id].
  - apply Hg.
  - apply Hg.
  - intros i fd [[<- <-]|[_ Hfd]]%lookup_insert_Some; [done|by eapply g_finding].
  - apply Hg.
  - intros i fd [[<- <-]|[_ Hfd]]%lookup_insert_Some; [cbn; eauto|by eapply g_finding_job].
  - intros i fd [[<- <-]|[_ Hfd]]%lookup_insert_Some; [cbn; eauto|by eapply g_pending].
  - intros i v Hv. destruct (g_verification _ _ Hg i v Hv) as (fd & Hfd & Hrest). eauto.
  - intros i fd [[<- <-]|[_ Hfd]]%lookup_insert_Some; [|by apply (g_evidence _ _ Hg)].
    intros (_ & [Hacc|Hrj]); cbn in *; [by rewrite Hp in Hacc|]. rewrite Hrej in Hrj.
    by apply is_Some_None in Hrj.
  - intros i j' Hj'. eauto using job_evolves_refl.
  - intros; congruence.
  - intros i fd Hfd. right. eauto using finding_evolves_refl.
  - intros i fd [[<- <-]|[_ Hfd]]%lookup_insert_Some; [right; cbn; by rewrite Hp|].
    left. eauto using finding_evolves_refl.
Qed.
