(* ===== verification/Preservation.v ===== *)
(** * Every operation keeps the invariant and follows the machines

    One lemma per operation of [Jobs], [Findings], [Reports], [Recovery],
    [Claim], [Repos] and the worker registry: a run that succeeds on a [good]
    database ends in a [good] one and is an evolution ([Invariant]).  The
    tactic [keeps] decomposes a statement sequence along its control flow, so
    that what is left to prove is about rows. *)

From S2P Require Import Prelude Sql Domain StateMachine Vocabulary SchedPolicy Store TxLogic Scope Repos Findings Jobs Issuer Claim Reports Recovery Invariant.
From Stdlib Require Import ZArith Lia.
From stdpp Require Import base gmap sets list strings relations.
Local Open Scope Z_scope.

(** An operation keeps [good S], and every run of it is an evolution. *)
Definition keeps {A} (m : Tx A) : Prop :=
  forall S db a db', good S db -> m db = Ok (a, db') -> good S db' /\ evolves db db'.

Lemma keeps_ret {A} (a : A) : keeps (mret a).
Proof. intros S db b db' Hg [-> ->]%tx_ret_Ok. split; [done|reflexivity]. Qed.

Lemma keeps_bind {A B} (m : Tx A) (f : A -> Tx B) :
  keeps m -> (forall a, keeps (f a)) -> keeps (m ≫= f).
Proof.
  intros Hm Hf S db b db' Hg (a & d & H1 & H2)%tx_bind_Ok.
  destruct (Hm _ _ _ _ Hg H1) as [Hg1 E1]. destruct (Hf a _ _ _ _ Hg1 H2) as [Hg2 E2].
  split; [done|]. by etrans.
Qed.

Lemma keeps_err {A} e : keeps (tx_err e : Tx A).
Proof. intros S db a db' _ []%tx_err_Ok. Qed.

Lemma keeps_lift {A} (r : result Error A) : keeps (tx_lift r).
Proof. intros S db a db' Hg [_ ->]%tx_lift_Ok. split; [done|reflexivity]. Qed.

Lemma keeps_get : keeps tx_get.
Proof. intros S db a db' Hg [_ ->]%tx_get_Ok. split; [done|reflexivity]. Qed.

Lemma keeps_exists {R} table (P : R -> bool) : keeps (tx_exists table P).
Proof. intros S db a db' Hg [_ ->]%tx_exists_Ok. split; [done|reflexivity]. Qed.

Lemma keeps_select {R} table (P : R -> bool) : keeps (tx_select table P).
Proof. intros S db a db' Hg [_ ->]%tx_select_Ok. split; [done|reflexivity]. Qed.

Lemma keeps_first {R} table (P : R -> bool) : keeps (tx_first table P).
Proof. intros S db a db' Hg [_ ->]%tx_first_Ok. split; [done|reflexivity]. Qed.

Lemma keeps_immediate {A} (m : Tx A) : keeps m -> keeps (immediate m).
Proof. intros Hm S db a db' Hg H. apply (proj1 (immediate_Ok _ _ _ _)) in H. by eapply Hm. Qed.

Lemma keeps_transaction {A} (m : Tx (Ending A)) : keeps m -> keeps (transaction m).
Proof.
  intros Hm S db a db' Hg [H|(d & H & ->)]%transaction_Ok; [by eapply Hm|]. split; [done|reflexivity].
Qed.

Lemma keeps_for {A} (xs : list A) f : (forall x, keeps (f x)) -> keeps (tx_for xs f).
Proof.
  intros Hf. induction xs as [|x xs IH]; cbn; [apply keeps_ret|].
  apply keeps_bind; [done|]. by intros _.
Qed.

Lemma keeps_transition {A} (r : result StateTransitionError A) : keeps (apply_transition r).
Proof. apply keeps_lift. Qed.

(** A transition the machine admits, whatever the database. *)
Lemma transition_bind {A B} (r : result StateTransitionError A) a (f : A -> Tx B) db :
  r = Ok a -> (apply_transition r ≫= f) db = f a db.
Proof. by intros ->. Qed.

Lemma keeps_transition_bind {A B} (r : result StateTransitionError A) a (f : A -> Tx B) :
  r = Ok a -> keeps (f a) -> keeps (apply_transition r ≫= f).
Proof.
  intros Hr Hf S db b db' Hg H. rewrite (transition_bind _ _ _ _ Hr) in H. by eapply Hf.
Qed.

#[export] Hint Resolve keeps_transition keeps_ret keeps_err keeps_lift keeps_get keeps_exists keeps_select
  keeps_first : loupe.

(** Decompose a statement sequence along its control flow. *)
Ltac keeps :=
  repeat (cbv beta; lazymatch goal with
  | |- keeps (mbind _ (apply_transition _)) =>
      first [ refine (keeps_transition_bind _ _ _ eq_refl _)
            | apply keeps_bind; [apply keeps_transition|intros ?] ]
  | |- keeps (mbind _ _) => apply keeps_bind; [|intros ?]
  | |- keeps (immediate _) => apply keeps_immediate
  | |- keeps (transaction _) => apply keeps_transaction
  | |- keeps (tx_for _ _) => apply keeps_for; intros ?
  | |- keeps (match ?x with _ => _ end) => destruct x eqn:?
  | |- keeps _ => solve [auto with loupe]
  end).

(** ** Row obligations *)

(** Use the state tests of a guard in the row's invariant. *)
Ltac row_state :=
  bool_prop; cbn in *;
  repeat match goal with
  | H : j_state ?j = _ |- _ => rewrite H in *; clear H
  | H : fr_state ?f = _ |- _ => rewrite H in *; clear H
  end; cbn in *.

(** The row invariant of an updated job, from its guard. *)
Ltac job_row_ok :=
  unfold job_ok, lease_ok, attempts_ok, finished_ok in *; row_state;
  intuition eauto; unfold MAX_ATTEMPTS in *; try lia;
  try match goal with H : is_Some None |- _ => by apply is_Some_None in H end.

(** The row invariant of an updated finding; a rejected finding is dismissed, so
    no guard on another state admits one. *)
Ltac finding_row_ok Hok :=
  constructor; cbn; intros;
  first [ done
        | match goal with H : _ \/ _ |- _ => by destruct H end
        | exfalso; match goal with
          | H : is_Some (fr_rejected_at _) |- _ => apply (fo_rejected _ Hok) in H; congruence end
        | match goal with H : is_Some None |- _ => by apply is_Some_None in H end
        | by eauto
        | by left; eauto | by right; eauto
        | by eauto using fo_confirmed, fo_reported, fo_dismissed, fo_rejected
        | idtac ].

(** The machine's transition [t] on a row. *)
Ltac machine_step t :=
  apply rtc_once; first [by apply (job_step_intro _ t) | by apply (finding_step_intro _ t)].

Lemma legacy_kind_true k : legacy_kind k = true <-> k = Scan \/ k = Verify.
Proof.
  unfold legacy_kind. rewrite bool_decide_eq_true.
  unfold LEGACY_RUNTIME_KINDS. set_solver.
Qed.

(** ** Lease control *)

Lemma keeps_heartbeat job_id worker now secs hash :
  keeps (Jobs.heartbeat job_id worker now secs hash).
Proof.
  unfold Jobs.heartbeat. keeps. intros S db n db' Hg H.
  eapply good_update_jobs; [done|done|done| |done].
  intros i j _ HP Hok. split; [unfold lease_held in HP; job_row_ok|by constructor].
Qed.

(** Completing a lease revokes it; a scan must have no pending finding left. *)
Lemma good_complete S db lease st head err now b db' :
  good S db -> Jobs.complete lease st head err now db = Ok (b, db') ->
  (forall i f, findings db !! i = Some f -> fr_state f = Pending ->
     fr_job_id f = li_job_id lease -> S (fr_job_id f)) ->
  good S db' /\ evolves db db'.
Proof.
  intros Hg H Hpend. unfold Jobs.complete in H.
  apply tx_bind_Ok in H as (t & d & Ht & H).
  assert (d = db /\ (t = CompleteSucceeded \/ t = CompleteFailed)) as (-> & Ht').
  { destruct st; first [apply tx_ret_Ok in Ht as [-> ->]; by auto|by apply tx_err_Ok in Ht]. }
  clear Ht. destruct Ht' as [-> | ->]; tx_inv H; unfold apply_transition in Hs; tx_inv Hs.
  all: cbn in Hs; simplify_eq; eapply good_update_jobs; [done|done|done| |].
  1, 3: intros i j _ HP Hok; unfold lease_held in HP; split; [job_row_ok|];
    row_state; constructor; cbn; try done; row_state.
  1: machine_step CompleteSucceeded. 1: machine_step CompleteFailed.
  all: intros i f j Hf Hp HnS Hj HP _; unfold lease_held in HP; bool_prop;
    exfalso; apply HnS, (Hpend i); [done|done|];
    rewrite <- (g_job_id _ _ Hg _ _ Hj); congruence.
Qed.

(** ** Enqueue *)

Lemma keeps_insert_queued new now : keeps (insert_job (queued_row new Queued now)).
Proof.
  intros S db id db' Hg H. eapply good_insert_job; [done|done|done|].
  unfold job_ok, lease_ok, attempts_ok, finished_ok, MAX_ATTEMPTS; cbn.
  repeat split; try done; try lia.
Qed.

Lemma keeps_enqueue_raw new now : keeps (Jobs.enqueue_raw new now).
Proof.
  unfold Jobs.enqueue_raw. destruct (nj_kind new); keeps; apply keeps_insert_queued.
Qed.
#[export] Hint Resolve keeps_heartbeat keeps_insert_queued keeps_enqueue_raw : loupe.

Lemma keeps_require_operator scope : keeps (require_operator scope).
Proof. unfold require_operator. keeps. Qed.
#[export] Hint Resolve keeps_require_operator : loupe.

Lemma keeps_enqueue scope new now : keeps (Jobs.enqueue scope new now).
Proof.
  unfold Jobs.enqueue, Jobs.get, Jobs.get_scoped_raw, Findings.get, Findings.get_selected. keeps.
Qed.

Lemma keeps_enqueue_verify_jobs repo job now : keeps (Jobs.enqueue_verify_jobs_for_scan repo job now).
Proof.
  unfold Jobs.enqueue_verify_jobs_for_scan. keeps.
Qed.

(** ** Operator control *)

Lemma keeps_requeue_failed repo job now : keeps (Jobs.requeue_failed repo job now).
Proof.
  unfold Jobs.requeue_failed, Jobs.get_scoped_raw. keeps. intros S db n db' Hg H.
  eapply good_update_jobs; [done|done|done| |].
  - intros i j _ HP Hok. split; [job_row_ok|].
    row_state. constructor; cbn; try done. row_state. machine_step Retry.
  - intros i f j Hf Hp _ Hj HP Ha. row_state. done.
Qed.
#[export] Hint Resolve keeps_requeue_failed : loupe.

Lemma keeps_retry_verification repo finding deadline S db a db' :
  good S db ->
  (forall f, findings db !! finding = Some f -> fr_repo_id f = repo ->
     fr_state f = Dismissed \/ fr_state f = Pending ->
     fr_verification_required f = true /\ fr_rejected_at f = None) ->
  Findings.retry_verification repo finding deadline db = Ok (a, db') ->
  good S db' /\ evolves db db'.
Proof.
  intros Hg Hrow H. unfold Findings.retry_verification, Findings.get_selected in H.
  apply tx_bind_Ok in H as (o & d & Ho & H). apply tx_first_Ok in Ho as [-> ->].
  destruct (head _) as [row|] eqn:Hhd; [|tx_inv H; split; [done|reflexivity]].
  apply head_select_Some in Hhd as (HP & i & Hi). bool_prop. subst.
  pose proof (g_finding_id _ _ Hg i row Hi) as <-.
  apply tx_bind_Ok in H as (s' & d & Hs & H). unfold apply_transition in Hs. tx_inv Hs.
  assert (s' = Validating) as -> by (destruct (fr_state row); by cbn in Hs; simplify_eq).
  assert (fr_verification_required row = true /\ fr_rejected_at row = None) as [Hreq Hrej].
  { pose proof (g_finding _ _ Hg _ _ Hi) as Hok.
    destruct (decide (fr_state row = Validating)) as [Hv|Hv].
    - split; [by apply Hok|]. apply eq_None_not_Some. intros Hd%(fo_rejected _ Hok). congruence.
    - apply (Hrow row); [done|done|]. destruct (fr_state row); cbn in Hs; by auto. }
  apply tx_bind_Ok in H as (n & d & Hu & H). tx_inv H.
  eapply good_update_findings; [done|done|].
  intros k fd Hfd HP Hok. bool_prop.
  assert (fd = row) as ->.
  { pose proof (g_finding_id _ _ Hg k fd Hfd). congruence. }
  split; [constructor; cbn; intros; simplify_eq; rewrite ?Hrej in *; try naive_solver|].
  split; [constructor; cbn; try done|].
  - destruct (fr_state row) eqn:Hst; cbn in Hs; simplify_eq; machine_step RetryVerification.
  - intros (_ & [Ha|Ha]); cbn in Ha; [done|]. rewrite Hrej in Ha. by apply is_Some_None in Ha.
Qed.

(** A finding that the deadline dismissed and no verifier decided was under
    verification, and no operator rejected it. *)
Lemma deadline_dismissed_not_rejected S db id f :
  good S db -> findings db !! id = Some f ->
  (exists k v, finding_verifications db !! k = Some v /\ v_finding_id v = id /\ v_job_id v = None) ->
  (forall k v, finding_verifications db !! k = Some v -> v_finding_id v = id ->
     v_verdict v <> OConfirmed) ->
  fr_verification_required f = true /\ fr_rejected_at f = None.
Proof.
  intros Hg Hf (k & v & Hv & Hid & Hj) Hno.
  destruct (g_verification _ _ Hg k v Hv) as (f' & Hf' & Hreq & _). subst. simplify_eq.
  specialize (Hreq Hj). split; [done|]. apply eq_None_not_Some. intros Hr.
  destruct (g_evidence _ _ Hg _ _ Hf) as (k' & v' & Hv' & Hi' & Hc); [by split; auto|]. by eapply Hno.
Qed.

(** [is_deadline_dismissed_without_terminal_verdict] answers the hypotheses of
    that lemma. *)
Lemma is_deadline_dismissed_true id db b d :
  is_deadline_dismissed_without_terminal_verdict id db = Ok (b, d) ->
  d = db /\ (b = true ->
  (exists k v, finding_verifications db !! k = Some v /\ v_finding_id v = id /\ v_job_id v = None) /\
  (forall k v, finding_verifications db !! k = Some v -> v_finding_id v = id ->
     v_verdict v <> OConfirmed)).
Proof.
  unfold is_deadline_dismissed_without_terminal_verdict. intros H. tx_inv H. split; [done|].
  intros [He Ht]%andb_true_iff.
  apply sql_exists_true in He as (k & v & Hv & HP). apply negb_true_iff in Ht.
  rewrite sql_exists_false in Ht. bool_prop. split; [eauto 10|].
  intros k' v' Hv' Hi Hc. specialize (Ht k' v' Hv'). cbn in Ht.
  rewrite (proj2 (Z.eqb_eq _ _) Hi), Hc in Ht. done.
Qed.

Lemma good_retry_verify_target S db row job deadline db' :
  good S db -> retry_verify_target row job deadline db = Ok (None, db') ->
  good S db' /\ evolves db db'.
Proof.
  intros Hg H. unfold retry_verify_target in H.
  destruct (j_target_finding_id row) as [fid|]; [|by tx_inv H].
  unfold Findings.get_raw in H. apply tx_bind_Ok in H as (o & d & Ho & H).
  apply tx_first_Ok in Ho as [-> ->]. destruct (head _) as [fd|] eqn:Hfd; [|by tx_inv H].
  apply head_select_Some in Hfd as (HP & i & Hi). bool_prop. subst.
  pose proof (g_finding_id _ _ Hg _ _ Hi) as <-.
  destruct (negb _) eqn:Hrepo; [by tx_inv H|]. bool_prop.
  apply tx_bind_Ok in H as (c & d & Hc & H).
  assert (d = db /\ (c = None -> fr_state fd = Validating \/
    fr_verification_required fd = true /\ fr_rejected_at fd = None)) as (-> & Hcd).
  { destruct (fr_state fd) eqn:Hst; try (tx_inv Hc; (split; [done|intros ?; first [discriminate|by left]])).
    apply tx_bind_Ok in Hc as (b & d' & Hb & Hc). tx_inv Hc.
    apply is_deadline_dismissed_true in Hb as (-> & Hb). split; [done|].
    destruct b; [|done]. intros _. right. destruct (Hb eq_refl) as [Hd Hn].
    by eapply deadline_dismissed_not_rejected. }
  destruct c as [c|]; [by tx_inv H|]. specialize (Hcd eq_refl).
  apply tx_bind_Ok in H as (o & d & Ho & H). apply tx_first_Ok in Ho as [-> ->].
  destruct (head _) as [act|]; [by tx_inv H|].
  apply tx_bind_Ok in H as (b & d & Hb & H). tx_inv H.
  eapply keeps_retry_verification; [done| |done].
  intros f Hf _ Hst. simplify_eq. destruct Hcd as [Hv|?]; [|done]. rewrite Hv in Hst. by destruct Hst.
Qed.

Lemma keeps_retry_failed job now deadline : keeps (Jobs.retry_failed job now deadline).
Proof.
  intros S db a db' Hg H. unfold Jobs.retry_failed in H.
  apply transaction_Ok in H as [H|(d & _ & ->)]; [|split; [done|reflexivity]].
  apply tx_bind_Ok in H as (? & ? & [-> ->]%tx_get_Ok & H).
  apply tx_bind_Ok in H as (b & ? & [-> ->]%tx_exists_Ok & H).
  destruct (sql_exists _ _); [by tx_inv H|]. unfold Jobs.get_raw in H.
  apply tx_bind_Ok in H as (o & ? & [-> ->]%tx_first_Ok & H).
  destruct (head _) as [row|] eqn:Hrow; [|by tx_inv H].
  destruct (negb _); [by tx_inv H|]. destruct (negb _); [by tx_inv H|].
  apply tx_bind_Ok in H as (c & d & Hc & H). destruct c as [c|]; [by tx_inv H|].
  apply tx_bind_Ok in H as (r & d' & Hr & H).
  assert (good S d /\ evolves db d) as [Hg' He].
  { case_bool_decide; [by eapply good_retry_verify_target|]. tx_inv Hc. split; [done|reflexivity]. }
  destruct (keeps_requeue_failed _ _ _ _ _ _ _ Hg' Hr) as [Hg'' He'].
  destruct r as [r|]; tx_inv H. split; [done|]. by etrans.
Qed.

(** ** Cancellation: the job ends first, then its pending findings go *)

Lemma good_delete_pending (S S' : Z -> Prop) db repo job n db' :
  good S db -> Findings.delete_pending_for_job repo job db = Ok (n, db') ->
  (forall k, S k -> k = job \/ S' k) ->
  (forall j, jobs db !! job = Some j -> j_repo_id j = repo) ->
  good S' db' /\ evolves db db'.
Proof.
  intros Hg H HS Hrepo. eapply good_delete_findings; [done|done| |].
  - intros i fd _ HP. by bool_prop.
  - intros i fd Hfd HP Hp HSk. destruct (HS _ HSk) as [Hk|?]; [|done].
    destruct (g_finding_job _ _ Hg _ _ Hfd) as (j & Hj & Hr). cbv beta in HP.
    rewrite Hk in *. apply Hrepo in Hj.
    rewrite Z.eqb_refl, bool_decide_eq_true_2 in HP by done. cbn in HP. bool_prop. congruence.
Qed.

Lemma keeps_cancel job now : keeps (Jobs.cancel job now).
Proof.
  intros S db a db' Hg H. unfold Jobs.cancel, Jobs.get_raw in H.
  apply transaction_Ok in H as [H|(d & _ & ->)]; [|split; [done|reflexivity]].
  apply tx_bind_Ok in H as (o & ? & [-> ->]%tx_first_Ok & H).
  destruct (head _) as [row|] eqn:Hrow; [|by tx_inv H].
  apply head_select_Some in Hrow as (HP & i & Hi). bool_prop.
  pose proof (g_job_id _ _ Hg _ _ Hi) as Hid. assert (i = job) as -> by congruence.
  destruct (negb (legacy_kind (j_kind row))); [by tx_inv H|].
  destruct (job_apply (j_state row) StateMachine.Cancel) as [s'|] eqn:Hs; [|by tx_inv H].
  apply tx_bind_Ok in H as (n & d & Hu & H). destruct (n =? 0); [by tx_inv H|].
  assert (s' = Cancelled) as -> by (by destruct (j_state row); cbn in Hs; simplify_eq).
  set (S1 := fun k => k = job /\ j_kind row = Scan \/ S k).
  assert (good S1 d /\ evolves db d) as [Hg1 He1].
  { eapply (good_update_jobs S); [done|done|by right| |].
    - intros k j Hj HPj Hok. bool_prop. assert (active_state (j_state j) = true) by done.
      split; [destruct (j_state j) eqn:Hst; try done; job_row_ok|].
      constructor; cbn; try done. destruct (j_state j) eqn:Hst; try done; machine_step StateMachine.Cancel.
    - intros k f j Hf Hp HnS Hj HPj _. exfalso. apply HnS. left. bool_prop.
      pose proof (g_job_id _ _ Hg _ _ Hj). split; [congruence|].
      destruct (g_pending _ _ Hg k f Hf Hp) as (j' & Hj' & Hk' & _); [intros ?; apply HnS; by right|].
      congruence. }
  apply tx_bind_Ok in H as (m & d2 & Hdel & H).
  apply tx_bind_Ok in H as (o & ? & [-> ->]%tx_first_Ok & H).
  destruct (head _) as [row'|]; tx_inv H.
  assert (good S d2 /\ evolves d d2) as [Hg2 He2].
  { case_bool_decide as Hk.
    - eapply good_delete_findings; [done|done| |].
      + intros k fd _ HPf. by bool_prop.
      + intros k fd Hfd HPf Hp [[Hk' _]|?]; [|done]. exfalso. cbv beta in HPf.
        rewrite Hk' in *.
        destruct (g_finding_job _ _ Hg1 _ _ Hfd) as (j & Hj & Hr).
        destruct (ev_job _ _ He1 _ _ Hi) as (j' & Hj' & Ev). rewrite Hk' in Hj. simplify_eq.
        assert (fr_repo_id fd = j_repo_id row) as E by (rewrite <- Hr; apply Ev).
        rewrite E, !Z.eqb_refl, bool_decide_eq_true_2 in HPf by done. done.
    - tx_inv Hdel. split; [|reflexivity]. eapply good_weaken; [|exact Hg1].
      intros k [[_ ?]|?]; done. }
  split; [done|]. by etrans.
Qed.

(** ** The lease reaper *)

(** Delete the pending findings of a list of jobs. *)
Lemma good_delete_pending_all (S : Z -> Prop) xs db u db' :
  good (fun k => (exists x, x ∈ xs /\ j_id x = k) \/ S k) db ->
  (forall x, x ∈ xs -> exists j, jobs db !! j_id x = Some j /\ j_repo_id j = j_repo_id x) ->
  tx_for xs (fun j => _ ← Findings.delete_pending_for_job (j_repo_id j) (j_id j); mret tt) db
    = Ok (u, db') ->
  good S db' /\ evolves db db'.
Proof.
  revert db. induction xs as [|x xs IH]; intros db Hg Hx H; cbn in H.
  - tx_inv H. split; [|reflexivity]. eapply good_weaken; [|exact Hg].
    intros k [(x & Hx' & _)|?]; [by apply not_elem_of_nil in Hx'|done].
  - apply tx_bind_Ok in H as ([] & d & H1 & H). apply tx_bind_Ok in H1 as (n & d' & Hd & H1). tx_inv H1.
    destruct (Hx x) as (j & Hj & Hr); [by left|].
    assert (good (fun k => (exists x, x ∈ xs /\ j_id x = k) \/ S k) d' /\ evolves db d') as [Hg' He'].
    { eapply good_delete_pending; [exact Hg|exact Hd| |].
      - intros k [(y & [->|Hy]%elem_of_cons & <-)|?]; [by left|right; left; eauto|by right; right].
      - intros j' Hj'. congruence. }
    edestruct (IH d') as [Hg'' He'']; [exact Hg'| |exact H|split; [done|by etrans]].
    intros y Hy. destruct (Hx y) as (jy & Hjy & Hry); [by right|].
    destruct (ev_job _ _ He' _ _ Hjy) as (jy' & Hjy' & Ev). exists jy'. split; [done|].
    rewrite (je_repo _ _ Ev). done.
Qed.

Lemma keeps_reap_legacy now : keeps (Jobs.reap_legacy now).
Proof.
  intros S db a db' Hg H. unfold Jobs.reap_legacy in H.
  rewrite (transition_bind _ Queued) in H by done. rewrite (transition_bind _ Failed) in H by done.
  apply tx_bind_Ok in H as (? & ? & [-> ->]%tx_get_Ok & H).
  apply tx_bind_Ok in H as (n1 & d1 & H1 & H).
  apply tx_bind_Ok in H as (xs & ? & [-> ->]%tx_select_Ok & H).
  apply tx_bind_Ok in H as (n2 & d2 & H2 & H).
  apply tx_bind_Ok in H as (n3 & d3 & H3 & H).
  apply tx_bind_Ok in H as (u & d4 & H4 & H). tx_inv H.
  set (xs := sql_select _ _) in H4.
  assert (good S d1 /\ evolves db d1) as [Hg1 He1].
  { eapply good_update_jobs; [exact Hg|exact H1|done| |].
    - intros k j Hj HP Hok. split; [job_row_ok|]. row_state. constructor; cbn; try done.
      row_state. machine_step ReapToFailed.
    - intros k f j Hf Hp HnS Hj HP _. bool_prop.
      destruct (g_pending _ _ Hg _ _ Hf Hp HnS) as (j' & Hj' & Hk & _). congruence. }
  assert (good S d2 /\ evolves d1 d2) as [Hg2 He2].
  { eapply good_update_jobs; [exact Hg1|exact H2|done| |].
    - intros k j Hj HP Hok. split; [job_row_ok|]. row_state. constructor; cbn; try done.
      row_state. machine_step ReapToQueued.
    - done. }
  set (S3 := fun k => (exists x, x ∈ xs /\ j_id x = k) \/ S k).
  assert (good S3 d3 /\ evolves d2 d3) as [Hg3 He3].
  { eapply good_update_jobs; [exact Hg2|exact H3|by right| |].
    - intros k j Hj HP Hok. split; [job_row_ok|]. row_state. constructor; cbn; try done.
      row_state. machine_step ReapToFailed.
    - intros k f j Hf Hp HnS Hj HP _. exfalso. apply HnS. left. exists j.
      split; [|by eapply g_job_id].
      destruct (g_pending _ _ Hg2 k f Hf Hp) as (j' & Hj' & Hk & _); [intros ?; apply HnS; by right|].
      simplify_eq. apply update_jobs_Ok in H2 as (_ & _ & ->). cbn in Hj.
      apply lookup_sql_update_Some in Hj as (j1 & Hj1 & ->).
      apply elem_of_sql_select.
      destruct (_ && legacy_kind (j_kind j1)) eqn:HP1 in *; [by bool_prop|].
      split; [|eauto]. rewrite !andb_true_iff in HP |- *.
      rewrite (bool_decide_eq_true_2 (j_kind j1 = Scan)) by done. tauto. }
  edestruct (good_delete_pending_all S xs d3) as [Hg4 He4]; [exact Hg3| |exact H4|].
  - intros x Hx. apply elem_of_sql_select in Hx as (_ & i & Hi).
    pose proof (g_job_id _ _ Hg1 _ _ Hi) as <-.
    assert (evolves d1 d3) as He13 by (by etrans).
    destruct (ev_job _ _ He13 _ _ Hi) as (j & Hj & Ev). exists j. split; [done|]. apply Ev.
  - split; [done|]. do 3 (etrans; [eassumption|]). done.
Qed.

(** ** Claims *)

Lemma keeps_claim_raw phase_tail req : keeps (claim_raw phase_tail req).
Proof.
  intros S db a db' Hg [(-> & -> & _)|(j & n & Hs & Hc & -> & Hup)]%claim_raw_cases;
    [split; [done|reflexivity]|].
  pose proof (select_claim_legacy db req (claimable req)) as Hsel. rewrite Hs in Hsel.
  destruct Hsel as ((i & Hi) & (Hq & _ & _ & Hk)%candidate_waiting & _).
  eapply good_update_jobs; [done|exact Hup|done| |done].
  intros k r Hr HP Hok. bool_prop.
  assert (r = j) as ->.
  { pose proof (g_job_id _ _ Hg _ _ Hr). pose proof (g_job_id _ _ Hg _ _ Hi). congruence. }
  unfold lease_row. split.
  - unfold job_ok, lease_ok, attempts_ok, finished_ok in *. rewrite Hq in *. cbn in *.
    destruct Hok as (_ & Ha & Hf). specialize (Ha Hc Hk). unfold MAX_ATTEMPTS in *. intuition eauto; lia.
  - constructor; cbn; try done. rewrite Hq. machine_step Lease.
Qed.
#[export] Hint Resolve keeps_claim_raw : loupe.

Lemma keeps_claim phase_tail req : keeps (claim phase_tail req).
Proof. unfold claim, Repos.get_raw, Findings.get_selected. keeps. Qed.

(** ** Findings *)

Lemma accepted_verdict S db i f :
  good S db -> findings db !! i = Some f -> past_verification f -> confirmed_by_verifier db i.
Proof. intros Hg Hf. by apply (g_evidence _ _ Hg). Qed.

Lemma keeps_approve repo id cn now : keeps (Findings.approve repo id cn now).
Proof.
  unfold Findings.approve, Findings.get_selected. keeps. intros S db n db' Hg H.
  eapply good_update_findings; [done|done|].
  intros i f Hf HP Hok. bool_prop. split; [|split].
  - finding_row_ok Hok.
  - constructor; cbn; try done. row_state. machine_step Approve.
  - intros (Hr & _). cbn in Hr. left. split; [done|]. left. by row_state.
Qed.

Lemma keeps_reject scope id cn now : keeps (Findings.reject scope id cn now).
Proof.
  unfold Findings.reject, Findings.get, Findings.get_selected. keeps. intros S db n db' Hg H.
  eapply good_update_findings; [done|done|].
  intros i f Hf HP Hok. bool_prop. split; [|split].
  - finding_row_ok Hok.
  - constructor; cbn; try done; [|row_state; machine_step Reject].
    intros Hr%(fo_rejected _ Hok). congruence.
  - intros (Hr & _). cbn in Hr. left. split; [done|]. left. by row_state.
Qed.

Lemma keeps_attach_patch repo id patch notes cn now :
  keeps (Findings.attach_proposed_patch repo id patch notes cn now).
Proof.
  unfold Findings.attach_proposed_patch. keeps. intros S db n db' Hg H.
  eapply good_update_findings; [done|done|].
  intros i f Hf HP Hok. split; [|split; [by constructor|by left]].
  destruct Hok. by constructor.
Qed.

Lemma keeps_mark_member repo now m : keeps (mark_member repo now m).
Proof.
  unfold mark_member. keeps. intros S db n db' Hg H.
  eapply good_update_findings; [done|done|].
  intros i f Hf HP Hok. bool_prop. split; [|split].
  - finding_row_ok Hok.
  - constructor; cbn; try done. row_state. machine_step MarkReported.
  - intros (Hr & _). cbn in Hr. left. split; [done|]. left. by row_state.
Qed.
#[export] Hint Resolve keeps_approve keeps_reject keeps_attach_patch keeps_mark_member : loupe.

Lemma keeps_mark_members repo now ch i ms changed : keeps (mark_members repo now ch i ms changed).
Proof.
  revert i changed. induction ms as [|m ms IH]; intros i changed; cbn; keeps.
  all: by apply IH.
Qed.

(** Nothing pending of job [job] is left. *)
Definition settled (db : Db) (job : Z) : Prop :=
  forall i f, findings db !! i = Some f -> fr_job_id f = job -> fr_state f <> Pending.

Lemma transition_scan_runs repo job (ra : bool) deadline now db :
  exists n1 n2 d1 d2,
    update_findings (fun f => (fr_job_id f =? job) && negb (fr_verification_required f) &&
        bool_decide (fr_state f = Pending) && (fr_repo_id f =? repo))
      (fun f => if ra then f <|fr_state := AwaitingApproval|>
                else f <|fr_state := Confirmed|> <|fr_confirmed_at := Some now|>) db = Ok (n1, d1) /\
    update_findings (fun f => (fr_job_id f =? job) && fr_verification_required f &&
        bool_decide (fr_state f = Pending) && (fr_repo_id f =? repo))
      (fun f => f <|fr_state := Validating|> <|fr_validating_deadline := Some deadline|>) d1
      = Ok (n2, d2) /\
    transition_scan_findings_after_success repo job ra deadline now db = Ok (n1 + n2, d2).
Proof. destruct ra; do 4 eexists; (split; [reflexivity|]); (split; [reflexivity|]); reflexivity. Qed.

Lemma good_transition_scan S repo job ra deadline now db n db' :
  good S db -> transition_scan_findings_after_success repo job ra deadline now db = Ok (n, db') ->
  good S db' /\ evolves db db' /\ jobs db' = jobs db /\
  ((forall j, jobs db !! job = Some j -> j_repo_id j = repo) -> settled db' job).
Proof.
  intros Hg H. destruct (transition_scan_runs repo job ra deadline now db)
    as (n1 & n2 & d1 & d2 & H1 & H2 & Hrun). rewrite Hrun in H. injection H as <- <-.
  assert (good S d1 /\ evolves db d1) as [Hg1 He1].
  { eapply good_update_findings; [done|exact H1|]. intros i f Hf HP Hok. bool_prop. split; [|split].
    - destruct ra; finding_row_ok Hok.
    - destruct ra; constructor; cbn; try done; row_state;
        [machine_step ScanAwaitApproval|machine_step ScanAutoConfirm].
    - intros (Hr & _). exfalso. destruct ra; cbn in Hr; congruence. }
  assert (good S d2 /\ evolves d1 d2) as [Hg2 He2].
  { eapply good_update_findings; [done|exact H2|]. intros i f Hf HP Hok. bool_prop. split; [|split].
    - finding_row_ok Hok.
    - constructor; cbn; try done. row_state. machine_step ScanRequireVerification.
    - intros (_ & [Ha|Ha]); cbn in Ha; [done|]. apply (fo_rejected _ Hok) in Ha. congruence. }
  split; [done|]. split; [by etrans|].
  apply update_findings_Ok in H1 as (_ & ->), H2 as (_ & ->). split; [done|].
  intros Hrepo i f Hf Hj. cbn in Hf.
  apply lookup_sql_update_Some in Hf as (f1 & Hf1 & ->).
  apply lookup_sql_update_Some in Hf1 as (f0 & Hf0 & ->).
  destruct (g_finding_job _ _ Hg _ _ Hf0) as (j & Hjj & Hjr).
  assert (fr_job_id f0 = job) as E by (revert Hj; repeat case_match; by cbn). rewrite E in Hjj.
  rewrite (Hrepo _ Hjj) in Hjr. rewrite E, <- Hjr, !Z.eqb_refl. cbn.
  destruct (fr_verification_required f0) eqn:Hreq; cbn; rewrite ?Hreq, ?E, <- ?Hjr, ?Z.eqb_refl; cbn.
  - case_bool_decide; cbn; [done|]. done.
  - case_bool_decide; cbn.
    + destruct ra; cbn; rewrite ?Hreq, ?andb_false_r; cbn; done.
    + rewrite Hreq, !andb_false_r. done.
Qed.

(** ** Verdicts *)

Lemma good_insert_verification_op S db repo fid input now id db' :
  good S db -> insert_verification repo fid input now db = Ok (id, db') ->
  (input = DeadlineExpired -> forall f, findings db !! fid = Some f -> fr_verification_required f = true) ->
  good S db' /\ evolves db db' /\ findings db' = findings db /\ jobs db' = jobs db /\
  (forall i v, finding_verifications db !! i = Some v -> finding_verifications db' !! i = Some v).
Proof.
  intros Hg H Hdl. unfold insert_verification in H.
  destruct (verification_columns input) as [[job outcome] notes] eqn:Hcol.
  apply tx_bind_Ok in H as (b & ? & [-> ->]%tx_exists_Ok & H).
  apply tx_bind_Ok in H as (b2 & d & Hb2 & H).
  assert (d = db /\ (b2 = true -> forall k, job = Some k ->
    exists j, jobs db !! k = Some j /\ j_repo_id j = repo)) as (-> & Hjob).
  { destruct job as [k|]; tx_inv Hb2; (split; [done|]); [|done].
    intros (i & j & Hj & HP)%sql_exists_true k' [= <-]. bool_prop. exists j.
    pose proof (g_job_id _ _ Hg _ _ Hj) as <-. split; congruence. }
  destruct (_ && b2) eqn:Hcond; [|by tx_inv H]. apply andb_true_iff in Hcond as [Hb ->].
  apply sql_exists_true in Hb as (i & f & Hf & HP). bool_prop.
  pose proof (g_finding_id _ _ Hg _ _ Hf) as <-. subst.
  edestruct (good_insert_verification S db) as [Hg' He']; [done|exact H|exact Hf|..]; cbn.
  - intros ->. apply Hdl; [|done]. by destruct input as [? []|].
  - intros k Hk. by apply Hjob.
  - split; [done|]. split; [done|]. apply insert_verification_row_Ok in H as (Hid & _ & ->).
    split; [done|]. split; [done|]. intros i v Hv. cbn. rewrite lookup_insert_ne; [done|].
    intros <-. by rewrite (next_rowid_fresh _ _ Hid) in Hv.
Qed.

Lemma has_verdict_confirmed repo fid db b d :
  has_verdict_for repo fid OConfirmed db = Ok (b, d) ->
  d = db /\ (b = true -> confirmed_by_verifier db fid).
Proof.
  unfold has_verdict_for. intros H. tx_inv H. split; [done|]. intros [Hs _]%andb_true_iff.
  apply sql_exists_true in Hs as (k & v & Hv & HP). bool_prop. by exists k, v.
Qed.

Lemma has_verdict_for_reads repo fid o db b d : has_verdict_for repo fid o db = Ok (b, d) -> d = db.
Proof. unfold has_verdict_for. intros H. by tx_inv H. Qed.

Lemma keeps_roll_up repo fid ti ra now : keeps (roll_up_verdicts_for_finding repo fid ti ra now).
Proof.
  intros S db a db' Hg H. unfold roll_up_verdicts_for_finding, get_selected in H.
  apply tx_bind_Ok in H as (o & ? & [-> ->]%tx_first_Ok & H).
  destruct (head _) as [row|] eqn:Hrow; [|by tx_inv H].
  apply head_select_Some in Hrow as (HP & i & Hi). bool_prop. subst fid.
  pose proof (g_finding_id _ _ Hg _ _ Hi) as <-.
  apply tx_bind_Ok in H as (hd & d & ->%has_verdict_for_reads & H).
  apply tx_bind_Ok in H as (hc & d' & Hc & H). apply has_verdict_confirmed in Hc as (-> & Hc).
  rewrite (transition_bind _ _ _ _ (roll_up_verdicts_eq _ _)) in H.
  destruct (decide (fr_state row = Validating)) as [Hv|Hv];
    [rewrite (bool_decide_eq_true_2 _ Hv) in H|
     rewrite (bool_decide_eq_false_2 _ Hv) in H; cbn in H; tx_inv H; split; [done|reflexivity]].
  cbn [negb terminal_inconclusive has_dismissed has_confirmed require_approval] in H.
  assert (forall s b db', (s = Dismissed \/ hc = true /\ (s = AwaitingApproval \/ s = Confirmed)) ->
    (_ ← update_findings (fun f => (fr_id f =? fr_id row) && (fr_repo_id f =? repo)) (rollup_stamp s now);
     mret (Some s)) db = Ok (b, db') -> good S db' /\ evolves db db') as Hup.
  { intros s b db'' Hs Hu. apply tx_bind_Ok in Hu as (n & d1 & Hu & Hr). tx_inv Hr.
    eapply good_update_findings; [done|done|]. intros k f Hf HPf Hok. bool_prop.
    assert (f = row) as ->.
    { pose proof (g_finding_id _ _ Hg _ _ Hf). pose proof (g_finding_id _ _ Hg _ _ Hi). congruence. }
    destruct (fo_validating _ Hok Hv) as [_ Hreq].
    destruct Hs as [-> |[Hct [-> | ->]]]; cbn; (split; [finding_row_ok Hok|split]).
    1, 3, 5: constructor; cbn; try done; rewrite Hv;
      first [machine_step VerdictDismiss|machine_step VerdictAwaitApproval|machine_step VerdictConfirm].
    1: intros (_ & [Ha|Ha]); cbn in Ha; [done|]; apply (fo_rejected _ Hok) in Ha; congruence.
    all: intros _; right; pose proof (g_finding_id _ _ Hg _ _ Hf) as <-; auto. }
  destruct (ti || _); [eapply Hup; [by left|exact H]|].
  destruct hc; [|tx_inv H; split; [done|reflexivity]].
  eapply Hup; [|exact H]. right. split; [done|]. destruct ra; auto.
Qed.
#[export] Hint Resolve keeps_roll_up : loupe.

Lemma keeps_reap_stale_validating now : keeps (reap_stale_validating now).
Proof.
  unfold reap_stale_validating. refine (keeps_transition_bind _ _ _ eq_refl _).
  apply keeps_immediate. intros S db a db' Hg H.
  apply tx_bind_Ok in H as (? & ? & [-> ->]%tx_get_Ok & H).
  apply tx_bind_Ok in H as (xs & ? & [-> ->]%tx_select_Ok & H).
  apply tx_bind_Ok in H as (u & d & Hfor & H). tx_inv H.
  set (I := fun (rest : list FindingRow) d => good S d /\ evolves db d /\
    forall f, f ∈ rest -> exists g, findings d !! fr_id f = Some g /\ fr_verification_required g = true).
  enough (I [] d) as (? & ? & _) by done. revert Hfor. apply tx_for_inv.
  - intros f rest d0 u' d1 (Hg0 & He0 & Hrest) Hb.
    apply tx_bind_Ok in Hb as (id & d2 & Hi & Hb). apply tx_bind_Ok in Hb as (n & d3 & Hu & Hb).
    tx_inv Hb. destruct (Hrest f) as (g & Hgf & Hreq); [by left|].
    destruct (good_insert_verification_op _ _ _ _ _ _ _ _ Hg0 Hi) as (Hg2 & He2 & Hf2 & _ & _).
    { intros _ g' Hg'. congruence. }
    assert (good S d3 /\ evolves d2 d3) as [Hg3 He3].
    { eapply good_update_findings; [exact Hg2|exact Hu|]. intros k h Hh HP Hok. bool_prop.
      split; [finding_row_ok Hok|split].
      - constructor; cbn; try done. row_state. machine_step DeadlineExpire.
      - intros (_ & [Ha|Ha]); cbn in Ha; [done|]. apply (fo_rejected _ Hok) in Ha. congruence. }
    split; [done|]. split; [by do 2 (etrans; [eassumption|])|].
    intros h Hh. destruct (Hrest h) as (g' & Hg' & Hreq'); [by right|].
    apply update_findings_Ok in Hu as (_ & ->). cbn. rewrite Hf2.
    eexists. split; [apply lookup_sql_update_Some; eauto|]. by case_match.
  - split; [done|]. split; [reflexivity|]. intros f (HP & i & Hi)%elem_of_sql_select.
    pose proof (g_finding_id _ _ Hg _ _ Hi) as <-. exists f. split; [done|].
    unfold stale_validating in HP. bool_prop. by apply (g_finding _ _ Hg _ _ Hi).
Qed.

(** ** Assignments: the facts [with_active_lease] checked *)

Record live (db : Db) (scope : AssignmentScope) : Prop := {
  lv_job : jobs db !! j_id (as_job scope) = Some (as_job scope);
  lv_repo : rs_repo_id (as_repo scope) = j_repo_id (as_job scope);
  lv_id : li_job_id (al_identity (as_lease scope)) = j_id (as_job scope);
  lv_active : active_capability (li_worker_id (al_identity (as_lease scope)))
    (li_capability_hash (al_identity (as_lease scope))) (al_now (as_lease scope)) (as_job scope) = true;
}.

Lemma live_leased db scope : live db scope -> j_state (as_job scope) = Leased.
Proof. intros [_ _ _ H]. unfold active_capability in H. by bool_prop. Qed.

Lemma good_submit S db scope finding generate r db' :
  good S db -> live db scope -> submit scope finding generate db = Ok (r, db') ->
  good S db' /\ evolves db db'.
Proof.
  intros Hg Hl H. unfold submit in H. destruct (negb _) eqn:Hk; [by tx_inv H|]. bool_prop.
  unfold Repos.get, Repos.get_raw in H. apply tx_bind_Ok in H as (o & ? & [-> ->]%tx_first_Ok & H).
  destruct (head _) as [repo|]; [|by tx_inv H]. unfold insert_with_identity in H.
  rewrite (transition_bind _ Pending) in H by done.
  apply tx_bind_Ok in H as (identity & ? & [_ ->]%tx_lift_Ok & H).
  eapply good_insert_finding; [done|exact H|done| |done|]; cbn.
  - intros id. constructor; cbn; intros Hx; first [done|by destruct Hx|by apply is_Some_None in Hx].
  - exists (as_job scope). rewrite (lv_repo _ _ Hl). pose proof (lv_job _ _ Hl).
    rewrite (live_leased _ _ Hl). done.
Qed.

Lemma keeps_prepare scope sel : keeps (prepare scope sel).
Proof.
  assert (keeps (select scope (rs_committed scope) sel)) as Hsel.
  { unfold select, Repos.get_raw, select_credential, Secrets.read, GithubAppStore.get. keeps. }
  intros S db a db' Hg H. unfold prepare in H.
  destruct (select _ _ _ db) as [[p d]|e] eqn:E.
  - simplify_eq. by eapply Hsel.
  - destruct e as [[] | | | | | |]; simplify_eq; split; (done || reflexivity).
Qed.
#[export] Hint Resolve keeps_prepare keeps_reap_stale_validating : loupe.

Lemma keeps_prepare_assignment scope : keeps (prepare_assignment scope).
Proof. unfold prepare_assignment. keeps. Qed.
#[export] Hint Resolve keeps_prepare_assignment : loupe.

Lemma keeps_approve_report scope id cn now : keeps (Reports.approve scope id cn now).
Proof. unfold Reports.approve, prepare_operator. keeps. Qed.

Lemma good_submit_verdict S db scope verdict cn ti ra r db' :
  good S db -> submit_verdict scope verdict cn ti ra db = Ok (r, db') ->
  good S db' /\ evolves db db'.
Proof.
  intros Hg H. unfold submit_verdict in H. destruct (negb _); [by tx_inv H|].
  destruct (j_target_finding_id _) as [target|]; [|by tx_inv H].
  apply tx_bind_Ok in H as (b & ? & [-> ->]%tx_exists_Ok & H). destruct (negb _); [by tx_inv H|].
  unfold Repos.get_raw in H. apply tx_bind_Ok in H as (o & ? & [-> ->]%tx_first_Ok & H).
  destruct (head _) as [repo|]; [|by tx_inv H].
  apply tx_bind_Ok in H as (vid & d1 & Hv & H).
  destruct (good_insert_verification_op _ _ _ _ _ _ _ _ Hg Hv) as (Hg1 & He1 & _); [done|].
  assert (good S db' /\ evolves d1 db') as [? ?]; [|split; [done|by etrans]].
  revert H. match goal with |- ?m d1 = _ -> _ => assert (keeps m) as Hm by keeps end.
  intros H. by eapply Hm.
Qed.

Lemma enqueue_verify_jobs_findings repo job now db n db' :
  Jobs.enqueue_verify_jobs_for_scan repo job now db = Ok (n, db') -> findings db' = findings db.
Proof.
  unfold Jobs.enqueue_verify_jobs_for_scan. rewrite (transition_bind _ Queued) by done. intros H.
  apply tx_bind_Ok in H as (b & ? & [-> ->]%tx_exists_Ok & H).
  apply tx_bind_Ok in H as (xs & d & Hxs & H).
  assert (d = db) as -> by (destruct (sql_exists _ _); by tx_inv Hxs).
  apply tx_bind_Ok in H as (u & d & Hfor & H). tx_inv H.
  revert Hfor. apply (tx_for_inv (fun _ x => findings x = findings db)); [|done].
  intros x rest d0 u' d1 Hd0 Hb. apply tx_bind_Ok in Hb as (id & d2 & Hi & Hb). tx_inv Hb.
  apply insert_job_Ok in Hi as (_ & _ & _ & _ & ->). done.
Qed.

Lemma prepare_reads scope sel db p d : prepare scope sel db = Ok (p, d) -> d = db.
Proof.
  assert (forall q d, select scope (rs_committed scope) sel db = Ok (q, d) -> d = db) as Hsel.
  { intros q d' H. unfold select, Repos.get_raw in H.
    apply tx_bind_Ok in H as (o & ? & [-> ->]%tx_first_Ok & H).
    destruct (head _) as [r|]; [|by tx_inv H].
    assert (forall m : Tx (result Unavailable SelectedCredential), True) by done.
    destruct (r_reporting r) as [ow rp o| |]; [| |by tx_inv H];
      apply tx_bind_Ok in H as (rows & ? & [-> ->]%tx_select_Ok & H);
      (destruct (filter _ _); [by tx_inv H|]);
      apply tx_bind_Ok in H as (c & dc & Hc & H);
      assert (dc = db) as -> by (unfold select_credential, Secrets.read, GithubAppStore.get in Hc;
        try (destruct o as [o|]); by tx_inv Hc);
      (destruct c; [|by tx_inv H]); by tx_inv H. }
  unfold prepare. destruct (select _ _ _ db) as [[q d']|e]; [intros [= <- <-]; by eapply Hsel|].
  destruct e as [[] | | | | | |]; congruence.
Qed.

Lemma good_complete_scan S db scope head_sha ra deadline p db' :
  good S db -> live db scope -> j_kind (as_job scope) = Scan ->
  complete_scan scope head_sha ra deadline db = Ok (p, db') ->
  good S db' /\ evolves db db' /\ settled db' (j_id (as_job scope)).
Proof.
  intros Hg Hl Hk H. unfold complete_scan in H.
  apply tx_bind_Ok in H as (ms & ? & [_ ->]%tx_lift_Ok & H).
  destruct head_sha as [rev|]; [|by tx_inv H]. destruct (str_is_empty _); [by tx_inv H|].
  unfold Repos.get_raw in H. apply tx_bind_Ok in H as (o & ? & [-> ->]%tx_first_Ok & H).
  destruct (head _) as [repo|]; [|by tx_inv H].
  apply tx_bind_Ok in H as (n1 & d1 & H1 & H). apply tx_bind_Ok in H as (n2 & d2 & H2 & H).
  apply tx_bind_Ok in H as (? & ? & [-> ->]%tx_get_Ok & H).
  apply tx_bind_Ok in H as (u & d3 & H3 & H). apply tx_bind_Ok in H as (n4 & d4 & H4 & H).
  apply tx_bind_Ok in H as (n5 & d5 & H5 & H).
  assert (good S d1 /\ evolves db d1) as [Hg1 He1].
  { eapply good_update_jobs; [exact Hg|exact H1|done| |done]. intros i j Hj HP Hok.
    split; [done|by constructor]. }
  assert (good S d2 /\ evolves d1 d2) as [Hg2 He2].
  { apply (good_same_core S); [done|]. apply update_repos_Ok in H2 as (_ & ->). split; try done.
    intros i r (r0 & Hr0 & ->)%lookup_sql_update_Some.
    pose proof (g_repo_id _ _ Hg1 _ _ Hr0). by case_match. }
  assert (good S d3 /\ evolves d2 d3) as [Hg3 He3].
  { apply (good_same_core S); [done|]. apply insert_history_Ok in H3 as (t & ->). split; try done.
    apply Hg2. }
  destruct (good_transition_scan _ _ _ _ _ _ _ _ _ Hg3 H4) as (Hg4 & He4 & Hjobs & Hset).
  destruct (keeps_enqueue_verify_jobs _ _ _ _ _ _ _ Hg4 H5) as [Hg5 He5].
  destruct (keeps_prepare_assignment _ _ _ _ _ Hg5 H) as [Hg6 He6].
  split; [done|]. split; [by do 5 (etrans; [eassumption|])|].
  assert (db' = d5) as ->.
  { unfold prepare_assignment in H. rewrite Hk in H. by apply prepare_reads in H. }
  unfold settled. rewrite (enqueue_verify_jobs_findings _ _ _ _ _ _ H5). apply Hset.
  assert (evolves db d3) as He13 by (by do 2 (etrans; [eassumption|])).
  intros j Hj. destruct (ev_job _ _ He13 _ _ (lv_job _ _ Hl)) as (j' & Hj' & Ev).
  simplify_eq. rewrite (je_repo _ _ Ev), (lv_repo _ _ Hl). done.
Qed.

Lemma good_complete_assignment db scope st head_sha err ra deadline p db' :
  Inv db -> live db scope ->
  complete_assignment scope st head_sha err ra deadline db = Ok (p, db') ->
  Inv db' /\ evolves db db'.
Proof.
  intros Hg Hl H. unfold complete_assignment in H.
  apply tx_bind_Ok in H as (p0 & d & Hp & H). apply tx_bind_Ok in H as (b & d' & Hc & H).
  assert (d' = db') as -> by (destruct b; by tx_inv H). clear H.
  assert (Inv d /\ evolves db d /\ (st = Succeeded \/ st = Failed ->
    j_kind (as_job scope) = Scan -> settled d (j_id (as_job scope)))) as (Hgd & Hed & Hset).
  { destruct st; try (tx_inv Hp; (split; [done|split; [reflexivity|by intros [|]]])).
    - destruct (j_kind (as_job scope)) eqn:Hk; try by tx_inv Hp.
      + edestruct (good_complete_scan nothing) as (? & ? & ?); eauto.
      + unfold complete_verify in Hp. apply tx_bind_Ok in Hp as (? & ? & [-> ->]%tx_get_Ok & Hp).
        apply tx_bind_Ok in Hp as (b' & ? & [-> ->]%tx_exists_Ok & Hp).
        destruct (sql_exists _ _); tx_inv Hp. split; [done|split; [reflexivity|done]].
    - case_bool_decide as Hk; [|tx_inv Hp; split; [done|split; [reflexivity|done]]].
      apply tx_bind_Ok in Hp as (n & d0 & Hd & Hp). tx_inv Hp.
      destruct (good_delete_pending nothing nothing db _ _ _ _ Hg Hd) as [Hgd Hed].
      { done. } { intros j Hj. rewrite (lv_repo _ _ Hl). pose proof (lv_job _ _ Hl). congruence. }
      split; [done|]. split; [done|]. intros _ _ i f Hf Hjid Hpend.
      injection Hd as _ <-. cbn in Hf. apply lookup_sql_delete_Some in Hf as (Hf & HP).
      destruct (g_finding_job _ _ Hg _ _ Hf) as (j & Hj & Hr). rewrite Hjid, (lv_job _ _ Hl) in Hj.
      simplify_eq. cbv beta in HP.
      rewrite Hjid, <- Hr, (lv_repo _ _ Hl), !Z.eqb_refl, bool_decide_eq_true_2 in HP by done. done. }
  destruct (decide (st = Succeeded \/ st = Failed)) as [Hst|Hst].
  2:{ unfold Jobs.complete in Hc. destruct st; try (by exfalso; auto);
        apply tx_bind_Ok in Hc as (? & ? & Hx & _); by tx_inv Hx. }
  edestruct (good_complete nothing d) as [Hg' He']; [exact Hgd|exact Hc| |split; [done|by etrans]].
  intros i f Hf Hpend Hjid. rewrite (lv_id _ _ Hl) in Hjid.
  destruct (g_pending _ _ Hgd _ _ Hf Hpend) as (j & Hj & Hk & _); [by intros []|].
  destruct (ev_job _ _ Hed _ _ (lv_job _ _ Hl)) as (j' & Hj' & Ev). rewrite Hjid in Hj. simplify_eq.
  exfalso. eapply Hset; [done| |done..]. rewrite <- (je_kind _ _ Ev). done.
Qed.

(** ** Recovery and maintenance *)

(** A finding that may go back to verification. *)
Definition retryable (d : Db) (id : Z) : Prop :=
  forall f, findings d !! id = Some f -> fr_verification_required f = true /\ fr_rejected_at f = None.

Lemma retry_verification_retryable repo fid deadline db b db' id :
  Findings.retry_verification repo fid deadline db = Ok (b, db') -> retryable db id -> retryable db' id.
Proof.
  intros H Hr. unfold Findings.retry_verification, Findings.get_selected in H.
  apply tx_bind_Ok in H as (o & ? & [-> ->]%tx_first_Ok & H).
  destruct (head _) as [row|]; [|by tx_inv H].
  apply tx_bind_Ok in H as (s & ? & [_ ->]%tx_lift_Ok & H).
  apply tx_bind_Ok in H as (n & d & (_ & ->)%update_findings_Ok & H). tx_inv H.
  intros f (f0 & Hf0 & ->)%lookup_sql_update_Some. destruct (Hr _ Hf0). by case_match.
Qed.

Lemma requeue_failed_findings repo job now db r db' :
  Jobs.requeue_failed repo job now db = Ok (r, db') -> findings db' = findings db.
Proof.
  unfold Jobs.requeue_failed, Jobs.get_scoped_raw. rewrite (transition_bind _ Queued) by done. intros H.
  apply tx_bind_Ok in H as (n & d & (_ & _ & ->)%update_jobs_Ok & H). case_match; by tx_inv H.
Qed.

Lemma enqueue_raw_findings new now db r db' :
  Jobs.enqueue_raw new now db = Ok (r, db') -> findings db' = findings db.
Proof.
  unfold Jobs.enqueue_raw. destruct (nj_kind new); try (intros H; by tx_inv H).
  all: rewrite (transition_bind _ Queued) by done; by intros (_ & _ & _ & _ & ->)%insert_job_Ok.
Qed.

Lemma good_recover_one S dry now budget out c db r db' :
  good S db -> retryable db (fr_id c) -> recover_one dry now budget out c db = Ok (r, db') ->
  good S db' /\ evolves db db' /\ (forall id, retryable db id -> retryable db' id).
Proof.
  intros Hg Hc H. unfold recover_one in H.
  apply tx_bind_Ok in H as (b & ? & [-> ->]%tx_exists_Ok & H).
  destruct (sql_exists _ _); [tx_inv H; split; [done|split; [reflexivity|done]]|].
  apply tx_bind_Ok in H as (? & ? & [-> ->]%tx_get_Ok & H).
  apply tx_bind_Ok in H as (out' & d & Hq & H). apply tx_bind_Ok in H as (b & d2 & Hr & H). tx_inv H.
  assert (good S d /\ evolves db d /\ findings d = findings db) as (Hgd & Hed & Hfd).
  { destruct (failed_verify_job _ _ _); apply tx_bind_Ok in Hq as (? & d' & Hx & Hq); tx_inv Hq;
      destruct dry; try (tx_inv Hx; split; [done|split; [reflexivity|done]]).
    - destruct (keeps_requeue_failed _ _ _ _ _ _ _ Hg Hx). split; [done|split; [done|]].
      by eapply requeue_failed_findings.
    - destruct (keeps_enqueue_raw _ _ _ _ _ _ Hg Hx). split; [done|split; [done|]].
      by eapply enqueue_raw_findings. }
  assert (forall id, retryable db id -> retryable d id) as Hret by (unfold retryable; by rewrite Hfd).
  destruct dry; [tx_inv Hr; split; [done|split; done]|].
  match type of Hr with _ = Ok (_, ?d2) => assert (good S d2 /\ evolves d d2) as [Hg2 He2] end.
  { eapply keeps_retry_verification; [exact Hgd| |exact Hr]. intros f Hf _ _. by apply (Hret _ Hc). }
  split; [done|]. split; [by etrans|]. intros id Hid.
  eapply retry_verification_retryable; [done|]. auto.
Qed.

Lemma keeps_recovery req now budget : keeps (retry_verification_candidates req now budget).
Proof.
  intros S db a db' Hg H. unfold retry_verification_candidates in H.
  apply transaction_Ok in H as [H|(d & _ & ->)]; [|split; [done|reflexivity]].
  apply tx_bind_Ok in H as (? & ? & [-> ->]%tx_get_Ok & H).
  apply tx_bind_Ok in H as (out & d & Hall & H).
  assert (d = db') as -> by (destruct (rq_dry_run req); by tx_inv H). clear H.
  assert (forall c, c ∈ recovery_candidates db req -> retryable db (fr_id c)) as Hc.
  { intros c Hc. assert (c ∈ sql_select (recovery_candidate db req) (findings db)) as Hin.
    { unfold recovery_candidates, sql_limit in Hc. rewrite <- (elem_of_sql_sort recovery_order).
      case_match; [done|]. eapply elem_of_submseteq; [exact Hc|]. apply sublist_submseteq, sublist_take. }
    apply elem_of_sql_select in Hin as (HP & i & Hi). pose proof (g_finding_id _ _ Hg _ _ Hi) as <-.
    intros f Hf. simplify_eq. unfold recovery_candidate in HP. bool_prop. split; [done|].
    apply eq_None_not_Some. intros Hrej.
    destruct (g_evidence _ _ Hg _ _ Hi) as (k & v & Hv & Hid & Hcf); [by split; auto|].
    match goal with H : sql_exists _ _ = false |- _ =>
      pose proof (proj1 (sql_exists_false _ _) H k v Hv) as Hno end.
    cbv beta in Hno. rewrite Hid, Z.eqb_refl, Hcf in Hno. done. }
  revert Hg Hc Hall. generalize (recovery_candidates db req) as cs. clear. intros cs Hg Hc.
  match goal with |- recover_all _ _ _ ?o _ _ = _ -> _ => generalize o end.
  revert db Hg Hc. induction cs as [|c cs IH]; intros db Hg Hc o H; cbn in H.
  - tx_inv H. split; [done|reflexivity].
  - apply tx_bind_Ok in H as (o' & d & H1 & H).
    destruct (good_recover_one _ _ _ _ _ _ _ _ _ Hg (Hc c ltac:(by left)) H1) as (Hgd & Hed & Hret).
    edestruct (IH d) as [Hg' He']; [done| |exact H|split; [done|by etrans]].
    intros c' Hc'. apply Hret, Hc. by right.
Qed.

Lemma keeps_count_active_scans repo : keeps (Jobs.count_active_scans_for_repo repo).
Proof. intros S db c db' Hg [= _ <-]. split; [done|reflexivity]. Qed.
#[export] Hint Resolve keeps_count_active_scans : loupe.

Lemma keeps_schedule_repos now rs n : keeps (schedule_repos now rs n).
Proof. revert n. induction rs as [|r rs IH]; intros n; cbn; keeps; apply IH. Qed.
#[export] Hint Resolve keeps_schedule_repos : loupe.

Lemma keeps_schedule_due now : keeps (schedule_due now).
Proof. unfold schedule_due, Repos.list_due_for_scan. keeps. Qed.

(** ** Registry and workers: tables outside the job and finding machines *)

Definition outside {A} (m : Tx A) : Prop :=
  forall db a db', m db = Ok (a, db') ->
    jobs db' = jobs db /\ findings db' = findings db /\
    finding_verifications db' = finding_verifications db /\
    ((forall i r, registered_repos db !! i = Some r -> r_id r = i) ->
     forall i r, registered_repos db' !! i = Some r -> r_id r = i).

Lemma keeps_outside {A} (m : Tx A) : outside m -> keeps m.
Proof.
  intros Hm S db a db' Hg (Hj & Hf & Hv & Hr)%Hm. apply (good_same_core S); [done|].
  constructor; try done. apply Hr, Hg.
Qed.

Lemma outside_update_repos P f : (forall r, r_id (f r) = r_id r) -> outside (update_repos P f).
Proof.
  intros Hf db n db' (_ & ->)%update_repos_Ok. do 3 (split; [done|]).
  intros Hr i r (r0 & Hr0 & ->)%lookup_sql_update_Some. case_match; rewrite ?Hf; by apply Hr.
Qed.

Lemma outside_insert_repo new now : outside (Repos.insert new now).
Proof.
  intros db n db' H. unfold Repos.insert in H. repeat case_match; try done. simplify_eq.
  do 3 (split; [done|]). cbn. intros Hr i r [[<- <-]|[_ ?]]%lookup_insert_Some; [done|by apply Hr].
Qed.

Ltac outside :=
  intros ? ? ? Hout; repeat case_match; try done; simplify_eq; by repeat split.

Lemma outside_secret_insert k l v now : outside (Secrets.insert k l v now).
Proof. unfold Secrets.insert. outside. Qed.
Lemma outside_secret_delete id : outside (Secrets.delete id).
Proof. unfold Secrets.delete. outside. Qed.
Lemma outside_app_clear : outside GithubAppStore.clear.
Proof. unfold GithubAppStore.clear. outside. Qed.
Lemma outside_app_set v now : outside (GithubAppStore.set_app v now).
Proof.
  intros db a db' H. unfold GithubAppStore.set_app in H. case_match; [by simplify_eq|].
  destruct (Secrets.insert _ _ _ _ db) as [[id d]|] eqn:E; [|done]. simplify_eq.
  by eapply outside_secret_insert.
Qed.
Lemma outside_count_github m : outside (Repos.count_github_destinations m).
Proof. unfold Repos.count_github_destinations. outside. Qed.
Lemma outside_worker_insert n k fp now : outside (Workers.insert n k fp now).
Proof. unfold Workers.insert. outside. Qed.
Lemma outside_worker_revoke id now : outside (Workers.revoke id now).
Proof. unfold Workers.revoke. outside. Qed.
Lemma outside_worker_touch id now : outside (Workers.touch_last_seen id now).
Proof. unfold Workers.touch_last_seen. outside. Qed.

#[export] Hint Resolve outside_insert_repo outside_secret_insert outside_secret_delete
  outside_app_clear outside_app_set outside_count_github outside_worker_insert outside_worker_revoke
  outside_worker_touch : loupe.
#[export] Hint Extern 3 (keeps _) => apply keeps_outside; solve [auto with loupe] : loupe.

Lemma keeps_update_reporting id rep : keeps (Repos.update_reporting id rep).
Proof. unfold Repos.update_reporting. keeps. apply keeps_outside, outside_update_repos. done. Qed.

Lemma keeps_update_raw id patch now : keeps (Repos.update_raw id patch now).
Proof.
  unfold Repos.update_raw, Repos.get_raw. keeps. apply keeps_outside, outside_update_repos.
  intros r. unfold Repos.apply_patch. by repeat case_match.
Qed.
#[export] Hint Resolve keeps_update_reporting keeps_update_raw : loupe.

Lemma keeps_update_repo scope patch now : keeps (Repos.update scope patch now).
Proof. unfold Repos.update. keeps. Qed.

Lemma keeps_set_github_reporting scope ow rp pat now :
  keeps (Repos.set_github_reporting scope ow rp pat now).
Proof.
  unfold Repos.set_github_reporting, Repos.count_github_pat_references, GithubAppStore.get, Repos.get,
    Repos.get_raw. keeps.
Qed.
#[export] Hint Resolve keeps_set_github_reporting : loupe.

Lemma keeps_rotate_github_pat scope pat now : keeps (Repos.rotate_github_pat scope pat now).
Proof. unfold Repos.rotate_github_pat, Repos.get, Repos.get_raw. keeps. Qed.

Lemma keeps_register_repository new pat now : keeps (Registry.register_repository new pat now).
Proof. unfold Registry.register_repository, GithubAppStore.get. keeps. Qed.

Lemma keeps_clear_github_app : keeps Registry.clear_github_app.
Proof. unfold Registry.clear_github_app, Repos.count_github_app_references. keeps. Qed.

(** Deleting a repository removes whole chains of rows, so the invariant stays
    while the machines no longer speak of the rows that are gone. *)
Lemma Inv_delete_repository id db b db' :
  Inv db -> Repos.delete_raw id db = Ok (b, db') -> Inv db'.
Proof.
  intros Hg [= _ <-].
  set (gone_repo := fun k => match registered_repos db !! k with Some r => r_id r =? id | None => false end).
  set (gone_job := fun k => match jobs db !! k with Some j => gone_repo (j_repo_id j) | None => false end).
  set (lost := fun f => gone_repo (fr_repo_id f) || gone_job (fr_job_id f)).
  assert (forall i f, findings db !! i = Some f -> lost f = gone_repo (fr_repo_id f)) as Hlost.
  { intros i f Hf. unfold lost, gone_job. destruct (g_finding_job _ _ Hg _ _ Hf) as (j & -> & ->).
    apply orb_diag. }
  assert (forall i j (g : JobRow -> JobRow), sql_delete (fun j => gone_repo (j_repo_id j)) (jobs db) !! i = Some j ->
    (g <$> sql_delete (fun j => gone_repo (j_repo_id j)) (jobs db)) !! i = Some (g j)) as Hjob.
  { intros i j g Hj. by rewrite lookup_fmap, Hj. }
  constructor; cbn; fold gone_repo; fold gone_job; fold lost.
  - intros i j' (j & <- & [Hj _]%lookup_sql_delete_Some)%lookup_fmap_Some. exact (g_job_id _ _ Hg _ _ Hj).
  - intros i f [Hf _]%lookup_sql_delete_Some. by apply (g_finding_id _ _ Hg).
  - intros i r [Hr _]%lookup_sql_delete_Some. by apply (g_repo_id _ _ Hg).
  - intros i j' (j & <- & [Hj _]%lookup_sql_delete_Some)%lookup_fmap_Some. exact (g_job _ _ Hg _ _ Hj).
  - intros i f [Hf _]%lookup_sql_delete_Some. by apply (g_finding _ _ Hg i).
  - pose proof (g_unique _ _ Hg) as Hu. unfold jobs_unique in *.
    rewrite !andb_true_iff in *. destruct Hu as [[Hc Hv] Hd].
    repeat split; apply (unique_on_update _ (fun _ => true)); try done; by apply unique_on_delete.
  - intros i f [Hf Hl]%lookup_sql_delete_Some. change (lost f = false) in Hl. rewrite (Hlost _ _ Hf) in Hl.
    destruct (g_finding_job _ _ Hg _ _ Hf) as (j & Hj & Hr). eexists. split.
    + apply Hjob, lookup_sql_delete_Some. split; [exact Hj|]. by rewrite Hr.
    + done.
  - intros i f [Hf Hl]%lookup_sql_delete_Some Hp _. change (lost f = false) in Hl. rewrite (Hlost _ _ Hf) in Hl.
    destruct (g_pending _ _ Hg _ _ Hf Hp) as (j & Hj & Hk & Ha); [by intros []|].
    destruct (g_finding_job _ _ Hg _ _ Hf) as (j' & Hj' & Hr). simplify_eq. eexists. split.
    + apply Hjob, lookup_sql_delete_Some. split; [exact Hj|]. by rewrite Hr.
    + done.
  - intros i v [Hv Hl]%lookup_sql_delete_Some.
    change ((match findings db !! v_finding_id v with Some f => lost f | None => false end ||
      match v_job_id v with Some k => gone_job k | None => false end) = false) in Hl.
    apply orb_false_iff in Hl as [Hl Hlj].
    destruct (g_verification _ _ Hg _ _ Hv) as (f & Hf & Hn & Hk). rewrite Hf in Hl.
    exists f. split; [by apply lookup_sql_delete_Some|]. split; [done|]. intros k Hvk.
    rewrite Hvk in Hlj. destruct (Hk k Hvk) as (j & Hj & Hr). eexists. split.
    + apply Hjob, lookup_sql_delete_Some. split; [exact Hj|]. unfold gone_job in Hlj. by rewrite Hj in Hlj.
    + done.
  - intros i f [Hf Hl]%lookup_sql_delete_Some Hpv. change (lost f = false) in Hl.
    destruct (g_evidence _ _ Hg _ _ Hf Hpv) as (k & v & Hv & Hid & Hc). exists k, v.
    split; [|done]. cbn. fold gone_repo; fold gone_job; fold lost.
    apply lookup_sql_delete_Some. split; [done|].
    change ((match findings db !! v_finding_id v with Some f => lost f | None => false end ||
      match v_job_id v with Some k => gone_job k | None => false end) = false).
    rewrite Hid, Hf, Hl. cbn.
    destruct (v_job_id v) as [jk|] eqn:Hvj; [|done].
    destruct (g_verification _ _ Hg _ _ Hv) as (f' & Hf' & _ & Hk). rewrite Hid in Hf'. simplify_eq.
    destruct (Hk _ Hvj) as (j & Hj & Hr). unfold gone_job. rewrite Hj, Hr, <- (Hlost _ _ Hf). done.
Qed.
