(* ===== verification/System.v ===== *)
(** * The system

    The operations workers, operators and the background loops reach, as one
    type [Op] with its executable meaning on an open database, and what holds
    after any sequence of them: the invariant, the evolution of rows along the
    job and finding machines, and the consequences a user of the system relies
    on. *)

From S2P Require Import Prelude Sql Domain StateMachine Vocabulary SchedPolicy Store TxLogic Scope Repos Findings Jobs Issuer Claim Reports Recovery Invariant Preservation.
From Stdlib Require Import ZArith Lia.
From stdpp Require Import base gmap sets list strings relations.
Local Open Scope Z_scope.

Inductive Op :=
(* operators: registry *)
| OpRegisterRepository (new : Repos.NewRepo) (pat : option bytes) (now : Z)
| OpUpdateRepository (repo : Z) (patch : Repos.RepoUpdate) (now : Z)
| OpSetReporting (repo : Z) (owner name : str) (pat : option bytes) (now : Z)
| OpRotatePat (repo : Z) (pat : bytes) (now : Z)
| OpStoreGithubApp (value : bytes) (now : Z)
| OpClearGithubApp
| OpDeleteRepository (repo : Z)
| OpRegisterWorker (name : str) (kind : WorkerKind) (fingerprint : bytes) (now : Z)
| OpRevokeWorker (id now : Z)
| OpTouchWorker (id now : Z)
(* operators: the queue and findings *)
| OpEnqueue (repo : Z) (job : QueuedJob) (now : Z)
| OpCancel (job now : Z)
| OpRetry (job now deadline : Z)
| OpRecover (req : RecoveryRequest) (now budget : Z)
| OpApprove (finding : Z) (by_cn : str) (now : Z)
| OpReject (finding : Z) (by_cn : str) (now : Z)
(* workers *)
| OpClaim (req : ClaimRequest)
| OpHeartbeat (lease : ActiveLease) (seconds : Z)
| OpSubmitFindings (lease : ActiveLease) (batch : list (Finding * result Error bytes))
| OpSubmitVerdict (lease : ActiveLease) (verdict : Verdict) (by_cn : str)
    (terminal_inconclusive require_approval_default : bool)
| OpComplete (lease : ActiveLease) (state : JobState) (head_sha error : option str)
    (require_approval_default : bool) (deadline : Z)
(* background loops and report delivery *)
| OpReapLegacy (now : Z)
| OpReapValidating (now : Z)
| OpScheduleDue (now : Z)
| OpMarkOne (receipt : ReportReceipt) (finding now : Z)
| OpMarkAll (receipt : ReportReceipt) (now : Z).

Section System.
  (** What a phase claim would do with a campaign row; legacy claims never
      reach it. *)
  Context (phase_tail : JobRow -> Tx Claimed).

(** A worker's batch, submitted inside one lease transaction. *)
Definition submit_batch (scope : AssignmentScope) (batch : list (Finding * result Error bytes)) : Tx unit :=
  tx_for batch (fun fg => _ ← submit scope fg.1 fg.2; mret tt).

Definition exec (op : Op) (h : Handle) : Handle :=
  match op with
  | OpRegisterRepository new pat now => (with_conn (Registry.register_repository new pat now) h).2
  | OpUpdateRepository repo patch now =>
      (with_operator_repository (TRepository repo) (fun s => Repos.update s patch now) h).2
  | OpSetReporting repo owner name pat now =>
      (with_operator_repository (TRepository repo)
         (fun s => Repos.set_github_reporting s owner name pat now) h).2
  | OpRotatePat repo pat now =>
      (with_operator_repository (TRepository repo) (fun s => Repos.rotate_github_pat s pat now) h).2
  | OpStoreGithubApp value now => (with_conn (GithubAppStore.set_app value now) h).2
  | OpClearGithubApp => (with_conn Registry.clear_github_app h).2
  | OpDeleteRepository repo => (with_operator_repository (TRepository repo) Repos.delete h).2
  | OpRegisterWorker name kind fp now => (with_conn (Workers.insert name kind fp now) h).2
  | OpRevokeWorker id now => (with_conn (Workers.revoke id now) h).2
  | OpTouchWorker id now => (with_conn (Workers.touch_last_seen id now) h).2
  | OpEnqueue repo job now =>
      (with_operator_repository (TRepository repo) (fun s => Jobs.enqueue s job now) h).2
  | OpCancel job now => (with_conn (Jobs.cancel job now) h).2
  | OpRetry job now deadline => (with_conn (Jobs.retry_failed job now deadline) h).2
  | OpRecover req now budget => (with_conn (retry_verification_candidates req now budget) h).2
  | OpApprove finding cn now =>
      (with_operator_repository (TFinding finding) (fun s => Reports.approve s finding cn now) h).2
  | OpReject finding cn now =>
      (with_operator_repository (TFinding finding) (fun s => Findings.reject s finding cn now) h).2
  | OpClaim req => (with_conn (claim phase_tail req) h).2
  | OpHeartbeat lease seconds =>
      (with_active_lease lease (fun s => Jobs.extend_lease s seconds) h).2
  | OpSubmitFindings lease batch => (with_active_lease lease (fun s => submit_batch s batch) h).2
  | OpSubmitVerdict lease verdict cn ti ra =>
      (with_active_lease lease (fun s => submit_verdict s verdict cn ti ra) h).2
  | OpComplete lease st sha err ra deadline =>
      (with_active_lease lease (fun s => complete_assignment s st sha err ra deadline) h).2
  | OpReapLegacy now => (with_conn (immediate (Jobs.reap_legacy now)) h).2
  | OpReapValidating now => (with_conn (reap_stale_validating now) h).2
  | OpScheduleDue now => (with_conn (schedule_due now) h).2
  | OpMarkOne receipt finding now => (mark_one receipt h finding now).2
  | OpMarkAll receipt now => (mark_all receipt h now).2
  end.

Definition exec_all (ops : list Op) (h : Handle) : Handle := foldl (fun h op => exec op h) h ops.

(** A freshly created database. *)
Definition initial_handle (identity : Z) : Handle :=
  {| h_identity := identity; h_db := empty_db; h_published := ∅; h_next_flag := 0 |}.

Definition deletes_repository (op : Op) : bool :=
  match op with OpDeleteRepository _ => true | _ => false end.

(** ** One operation *)

Lemma Inv_empty : Inv empty_db.
Proof. by constructor. Qed.

Definition step_ok (h h' : Handle) : Prop :=
  Inv (h_db h) -> Inv (h_db h') /\ evolves (h_db h) (h_db h').

Lemma with_conn_ok {A} (m : Tx A) h : keeps m -> step_ok h (with_conn m h).2.
Proof.
  intros Hm Hi. unfold with_conn. destruct (m (h_db h)) as [[a db]|e] eqn:E; cbn.
  - by eapply Hm.
  - split; [done|reflexivity].
Qed.

Lemma operator_ok {A} target (body : RepoScope -> Tx A) h :
  (forall s, keeps (body s)) -> step_ok h (with_operator_repository target body h).2.
Proof.
  intros Hb Hi. unfold with_operator_repository. destruct (target_repository _ _) as [repo|e].
  - unfold issue. match goal with |- context [body ?s (h_db h)] =>
      destruct (body s (h_db h)) as [[a db]|e] eqn:E end; cbn.
    + by eapply Hb.
    + split; [done|reflexivity].
  - split; [done|reflexivity].
Qed.

Lemma lease_ok_step {A} lease (body : AssignmentScope -> Tx A) h :
  (forall s a db', Inv (h_db h) -> live (h_db h) s -> body s (h_db h) = Ok (a, db') ->
     Inv db' /\ evolves (h_db h) db') ->
  step_ok h (with_active_lease lease body h).2.
Proof.
  intros Hb Hi. unfold with_active_lease, Jobs.get_active_by_capability_hash, tx_first.
  destruct (head _) as [job|] eqn:Hjob; [|split; [done|reflexivity]].
  apply head_select_Some in Hjob as (HP & i & Hj).
  destruct (negb _) eqn:Hid; [split; [done|reflexivity]|]. bool_prop.
  unfold issue. match goal with |- context [body ?s (h_db h)] =>
    destruct (body s (h_db h)) as [[a db]|e] eqn:E end; cbn; [|split; [done|reflexivity]].
  eapply Hb; [done| |exact E]. constructor; cbn; try done.
  by rewrite (g_job_id _ _ Hi _ _ Hj).
Qed.

Lemma receipt_ok receipt h sel now : step_ok h (complete_receipt receipt h sel now).2.
Proof.
  intros Hi. unfold complete_receipt.
  destruct (immediate _ (h_db h)) as [[c db]|e] eqn:E; cbn; [|split; [done|reflexivity]].
  eapply (keeps_immediate _ (keeps_mark_members _ _ _ _ _ _)); [exact Hi|exact E].
Qed.

Lemma good_submit_batch s batch db a db' :
  Inv db -> live db s -> submit_batch s batch db = Ok (a, db') -> Inv db' /\ evolves db db'.
Proof.
  intros Hi Hl H. unfold submit_batch in H.
  eapply (tx_for_inv (fun _ d => Inv d /\ evolves db d /\ jobs d = jobs db)) in H as (? & ? & _);
    [done| |split; [exact Hi|split; reflexivity]].
  intros [f g] rest d u d' (Hd & He & Hj) Hb. apply tx_bind_Ok in Hb as (r & d1 & Hs & Hb). tx_inv Hb.
  assert (live d s) as Hl' by (destruct Hl; constructor; by rewrite ?Hj).
  destruct (good_submit _ _ _ _ _ _ _ Hd Hl' Hs) as [? ?]. split; [done|]. split; [by etrans|].
  rewrite <- Hj. unfold submit in Hs. destruct (negb _); [by tx_inv Hs|].
  unfold Repos.get, Repos.get_raw in Hs. apply tx_bind_Ok in Hs as (o & ? & [-> ->]%tx_first_Ok & Hs).
  destruct (head _); [|by tx_inv Hs]. unfold insert_with_identity in Hs.
  rewrite (transition_bind _ Pending) in Hs by done.
  apply tx_bind_Ok in Hs as (idn & ? & [_ ->]%tx_lift_Ok & Hs). unfold insert_finding_row in Hs.
  repeat case_match; by simplify_eq.
Qed.

(** Every operation but the deletion of a repository is an evolution of a good
    database into a good one. *)
Lemma exec_ok op h : deletes_repository op = false -> step_ok h (exec op h).
Proof.
  destruct op; cbn [exec deletes_repository]; try done; intros _;
    try (apply with_conn_ok; solve [auto with loupe
      | apply keeps_register_repository | apply keeps_clear_github_app | apply keeps_cancel
      | apply keeps_retry_failed | apply keeps_recovery | apply keeps_claim
      | apply keeps_immediate, keeps_reap_legacy | apply keeps_reap_stale_validating
      | apply keeps_schedule_due]);
    try (apply operator_ok; intros s; solve [apply keeps_update_repo | apply keeps_set_github_reporting
      | apply keeps_rotate_github_pat | apply keeps_enqueue | apply keeps_approve_report
      | apply keeps_reject]).
  - apply lease_ok_step. intros s a db' Hi Hl H. unfold Jobs.extend_lease in H. by eapply keeps_heartbeat.
  - apply lease_ok_step. intros s a db' Hi Hl H. by eapply good_submit_batch.
  - apply lease_ok_step. intros s a db' Hi Hl H. by eapply good_submit_verdict.
  - apply lease_ok_step. intros s a db' Hi Hl H. by eapply good_complete_assignment.
  - unfold mark_one. destruct (negb _); [intros Hi; split; [done|reflexivity]|].
    destruct (position _ _); [apply receipt_ok|intros Hi; split; [done|reflexivity]].
  - unfold mark_all. destruct (negb _); [intros Hi; split; [done|reflexivity]|apply receipt_ok].
Qed.

Lemma exec_delete_ok repo h : Inv (h_db h) -> Inv (h_db (exec (OpDeleteRepository repo) h)).
Proof.
  intros Hi. cbn. unfold with_operator_repository, issue, Repos.delete, require_operator. cbn.
  by eapply Inv_delete_repository.
Qed.

(** ** Sequences of operations *)

Lemma exec_all_Inv_from ops h : Inv (h_db h) -> Inv (h_db (exec_all ops h)).
Proof.
  unfold exec_all. revert h. induction ops as [|op ops IH]; intros h Hi; [done|].
  apply IH. destruct (deletes_repository op) eqn:Hd; [|by apply exec_ok].
  destruct op; try done. by apply exec_delete_ok.
Qed.

Lemma exec_all_Inv identity ops : Inv (h_db (exec_all ops (initial_handle identity))).
Proof. apply exec_all_Inv_from, Inv_empty. Qed.

Lemma exec_all_evolves ops h :
  Forall (fun op => deletes_repository op = false) ops -> Inv (h_db h) ->
  evolves (h_db h) (h_db (exec_all ops h)).
Proof.
  unfold exec_all. intros Hd. revert h. induction Hd as [|op ops Hop _ IH]; intros h Hi; [reflexivity|].
  destruct (exec_ok op h Hop Hi) as [Hi' He]. cbn [foldl]. etrans; [exact He|]. by apply IH.
Qed.

End System.
