(* ===== verification/Fixture.v ===== *)
(** * Concrete runs

    Small databases reached by running operations from a fresh one: a scan of
    one repository that submits a finding, the verification of that finding,
    its approval, rejection and reporting.  The theorems of the development
    are applied to them. *)

From S2P Require Import Prelude Sql Domain StateMachine Vocabulary SchedPolicy Store TxLogic Scope Repos Findings Jobs Issuer Claim Reports Recovery Invariant Preservation System.
From Stdlib Require Import ZArith Lia.
From stdpp Require Import base gmap sets list strings relations.
Local Open Scope Z_scope.

(** No campaign is ever claimed in these runs. *)
Definition no_phase : JobRow -> Tx Claimed := fun _ => tx_err ScopeDenied.

Definition a_repo (url : string) (verification : bool) (approval : option bool) : Repos.NewRepo := {|
  Repos.nr_clone_url := lit url; Repos.nr_host := lit "forge.example"; Repos.nr_owner := lit "acme";
  Repos.nr_repo := lit "widget"; Repos.nr_default_branch := None;
  Repos.nr_scan_interval_seconds := Some 60; Repos.nr_scanner_config := lit "{}";
  Repos.nr_reporting := Email [lit "sec@acme.example"] None None;
  Repos.nr_verification_enabled := verification; Repos.nr_require_approval := approval |}.

Definition a_finding (fingerprint : string) : Finding := {|
  f_scanner_id := lit "llm"; f_severity := High; f_title := lit "overflow";
  f_description := lit "length is not checked"; f_file_path := None; f_line_start := None;
  f_line_end := None; f_cwe := None; f_patch_unified := None; f_poc_unified := None;
  f_fingerprint := lit fingerprint |}.

Definition a_claim (hash : bytes) (now : Z) : ClaimRequest := {|
  cr_worker_id := 1; cr_kinds := [Scan; Verify]; cr_now := now; cr_capability_hash := hash;
  cr_legacy_lease_seconds := 600; cr_policy := claim_policy_default |}.

Definition a_lease (job : Z) (hash : bytes) (now : Z) : ActiveLease := {|
  al_identity := {| li_job_id := job; li_worker_id := 1; li_capability_hash := hash |};
  al_now := now |}.

Definition a_scan : QueuedJob := {|
  qj_kind := Scan; qj_incremental := false; qj_since_sha := None; qj_parent_job_id := None;
  qj_target_finding_id := None |}.

(** A worker holds the lease of a scan of repository 1; repository 2 has a
    queued scan of its own. *)
Definition scanning (verification : bool) (approval : option bool) : list Op :=
  [ OpRegisterRepository (a_repo "https://forge.example/acme/widget" verification approval) None 0;
    OpRegisterRepository (a_repo "https://forge.example/acme/gadget" false None) None 0;
    OpRegisterWorker (lit "w1") KindWorker [9] 0;
    OpEnqueue 1 a_scan 1; OpEnqueue 2 a_scan 2; OpClaim (a_claim [1] 3);
    OpSubmitFindings (a_lease 1 [1] 4) [(a_finding "f1", Ok [11])] ].

(** The scan succeeded. *)
Definition scanned (verification : bool) (approval : option bool) : list Op :=
  scanning verification approval ++
  [ OpComplete (a_lease 1 [1] 5) Succeeded (Some (lit "c0ffee")) None false 1000 ].

(** The verifier failed. *)
Definition verify_failed : list Op :=
  scanned true None ++
  [ OpClaim (a_claim [2] 6); OpComplete (a_lease 3 [2] 7) Failed None (Some (lit "crash")) false 1000 ].

(** A verifier confirmed the finding. *)
Definition verified : list Op :=
  scanned true None ++
  [ OpClaim (a_claim [2] 6); OpSubmitVerdict (a_lease 3 [2] 7) (VConfirmed None None) (lit "w1") false false;
    OpComplete (a_lease 3 [2] 8) Succeeded None None false 1000 ].

(** An operator rejected the finding. *)
Definition rejected : list Op := scanned false (Some true) ++ [ OpReject 1 (lit "admin") 6 ].

(** The database after a run. *)
Definition handle_after (ops : list Op) : Handle := exec_all no_phase ops (initial_handle 7).

Lemma handle_after_eq ops : handle_after ops = exec_all no_phase ops (initial_handle 7).
Proof. reflexivity. Qed.

Lemma handle_after_Inv ops : Inv (h_db (handle_after ops)).
Proof. apply exec_all_Inv. Qed.
#[export] Hint Resolve handle_after_Inv : loupe.

(** The rows of a run are read by evaluation only. *)
#[global] Opaque handle_after.

(** A column of a row of a computed table. *)
Lemma row_value {R B} (t : gmap Z R) i r (p : R -> B) b :
  t !! i = Some r -> p <$> (t !! i) = Some b -> p r = b.
Proof. intros ->. by intros [= ->]. Qed.

(** A test of every row of a computed table. *)
Lemma rows_check {R} (t : gmap Z R) (P : R -> bool) :
  forallb P (map_to_list t).*2 = true -> forall i r, t !! i = Some r -> P r = true.
Proof.
  intros HP i r Hr. rewrite forallb_forall in HP. apply HP, list_elem_of_In, list_elem_of_fmap.
  exists (i, r). split; [done|]. by apply elem_of_map_to_list.
Qed.
