(* ===== verification/Isolation.v ===== *)
(** * Repository isolation

    A worker acts through [with_active_lease], under the authority of one
    leased job.  This file shows that whatever it submits stays inside that
    job's repository: the rows of every other repository, and the workers and
    secrets, are exactly the same afterwards. *)

From S2P Require Import Prelude Sql Domain StateMachine Vocabulary SchedPolicy Store TxLogic Scope Repos Findings Jobs Issuer Claim Reports Recovery Invariant Preservation System Fixture.
From Stdlib Require Import ZArith Lia.
From stdpp Require Import base gmap sets list strings relations.
Local Open Scope Z_scope.

(** Nothing outside repository [r] differs. *)
Record confined (r : Z) (db db' : Db) : Prop := {
  cf_jobs : forall i j, j_repo_id j <> r -> jobs db' !! i = Some j <-> jobs db !! i = Some j;
  cf_findings : forall i f, fr_repo_id f <> r ->
    findings db' !! i = Some f <-> findings db !! i = Some f;
  cf_verifications : forall i v f, findings db !! v_finding_id v = Some f -> fr_repo_id f <> r ->
    finding_verifications db' !! i = Some v <-> finding_verifications db !! i = Some v;
  cf_repos : forall i x, r_id x <> r ->
    registered_repos db' !! i = Some x <-> registered_repos db !! i = Some x;
  cf_workers : workers db' = workers db;
  cf_secrets : secrets db' = secrets db;
}.

#[export] Instance confined_refl r : Reflexive (confined r).
Proof. intros db. by constructor. Qed.

#[export] Instance confined_trans r : Transitive (confined r).
Proof.
  intros a b c [J1 F1 V1 R1 W1 S1] [J2 F2 V2 R2 W2 S2]. constructor; try congruence.
  - intros i j Hj. by rewrite J2, J1.
  - intros i f Hf. by rewrite F2, F1.
  - intros i v f Hv Hf. rewrite (V2 i v f), (V1 i v f); [done|done|done| |done]. by apply F1.
  - intros i x Hx. by rewrite R2, R1.
Qed.

(** Rows are keyed by their ids and job [k] belongs to [r]. *)
Record within (r k : Z) (db : Db) : Prop := {
  wi_job : forall i j, jobs db !! i = Some j -> j_id j = i;
  wi_finding : forall i f, findings db !! i = Some f -> fr_id f = i;
  wi_owner : forall j, jobs db !! k = Some j -> j_repo_id j = r;
  wi_exists : is_Some (jobs db !! k);
}.

(** A step inside job [k]'s repository [r]. *)
Definition stays (r k : Z) {A} (m : Tx A) : Prop :=
  forall db a db', within r k db -> m db = Ok (a, db') -> confined r db db' /\ within r k db'.

Section Stays.
  Context (r k : Z).

Lemma stays_ret {A} (a : A) : stays r k (mret a).
Proof. intros db b db' Hw [-> ->]%tx_ret_Ok. by split. Qed.

Lemma stays_bind {A B} (m : Tx A) (f : A -> Tx B) :
  stays r k m -> (forall a, stays r k (f a)) -> stays r k (m ≫= f).
Proof.
  intros Hm Hf db b db' Hw (a & d & Ha & Hb)%tx_bind_Ok.
  destruct (Hm _ _ _ Hw Ha) as [Hc Hw']. destruct (Hf _ _ _ _ Hw' Hb). split; [by etrans|done].
Qed.

Lemma stays_reads {A} (m : Tx A) : (forall db a db', m db = Ok (a, db') -> db' = db) -> stays r k m.
Proof. intros Hm db a db' Hw ->%Hm. by split. Qed.

Lemma stays_for {A} (xs : list A) f : (forall x, stays r k (f x)) -> stays r k (tx_for xs f).
Proof.
  intros Hf. induction xs as [|x xs IH]; [apply stays_ret|]. by apply stays_bind.
Qed.

Lemma stays_update_jobs P f :
  (forall db i j, within r k db -> jobs db !! i = Some j -> P j = true -> j_repo_id j = r) ->
  (forall j, j_id (f j) = j_id j /\ j_repo_id (f j) = j_repo_id j) ->
  stays r k (update_jobs P f).
Proof.
  intros HP Hf db n db' Hw (_ & _ & ->)%update_jobs_Ok. split; constructor; cbn; try done.
  - intros i j Hj. rewrite lookup_sql_update_Some. split.
    + intros (j0 & Hj0 & ->). destruct (P j0) eqn:E; [|done]. destruct (Hf j0) as [_ Hr].
      rewrite (HP _ _ _ Hw Hj0 E) in Hr. done.
    + intros Hj0. exists j. split; [done|]. destruct (P j) eqn:E; [|done].
      by rewrite (HP _ _ _ Hw Hj0 E) in Hj.
  - intros i j' (j & Hj & ->)%lookup_sql_update_Some.
    destruct (P j); rewrite ?(proj1 (Hf j)); by eapply wi_job.
  - apply Hw.
  - intros j' (j & Hj & ->)%lookup_sql_update_Some.
    destruct (P j); rewrite ?(proj2 (Hf j)); by eapply wi_owner.
  - destruct (wi_exists _ _ _ Hw) as [j Hj]. rewrite lookup_sql_update, Hj. by eexists.
Qed.

Lemma stays_insert_job row : j_repo_id row = r -> stays r k (insert_job row).
Proof.
  intros Hr db id db' Hw (Hid & _ & _ & _ & ->)%insert_job_Ok.
  pose proof (next_rowid_fresh _ _ Hid) as Hfresh. destruct (wi_exists _ _ _ Hw) as [jk Hjk].
  split; constructor; cbn; try done.
  - intros i j Hj. rewrite lookup_insert_Some. split; [|intros Hi; right; split; [congruence|done]].
    intros [[<- <-]|[_ Hi]]; [done|done].
  - intros i j [[<- <-]|[_ Hj]]%lookup_insert_Some; [done|by eapply wi_job].
  - apply Hw.
  - intros j [[<- <-]|[_ Hj]]%lookup_insert_Some; [done|by eapply wi_owner].
  - rewrite lookup_insert_ne by congruence. by eexists.
Qed.

Lemma stays_update_findings P f :
  (forall g, P g = true -> fr_repo_id g = r) ->
  (forall g, fr_id (f g) = fr_id g /\ fr_repo_id (f g) = fr_repo_id g) ->
  stays r k (update_findings P f).
Proof.
  intros HP Hf db n db' Hw (_ & ->)%update_findings_Ok. split; constructor; cbn; try done.
  - intros i g Hg. rewrite lookup_sql_update_Some. split.
    + intros (g0 & Hg0 & ->). destruct (P g0) eqn:E; [|done]. destruct (Hf g0) as [_ Hr].
      rewrite (HP _ E) in Hr. done.
    + intros Hg0. exists g. split; [done|]. destruct (P g) eqn:E; [|done]. by rewrite (HP _ E) in Hg.
  - apply Hw.
  - intros i g' (g & Hg & ->)%lookup_sql_update_Some.
    destruct (P g); rewrite ?(proj1 (Hf g)); by eapply wi_finding.
  - apply Hw.
  - apply Hw.
Qed.

Lemma stays_delete_findings P :
  (forall g, P g = true -> fr_repo_id g = r) -> stays r k (delete_findings P).
Proof.
  intros HP db n db' Hw [= _ <-]. split; constructor; cbn; try done.
  - intros i g Hg. rewrite lookup_sql_delete_Some. split; [by intros [? _]|]. intros Hi.
    split; [done|]. destruct (P g) eqn:E; [|done]. by apply HP in E.
  - intros i v g Hg Hr. rewrite lookup_sql_delete_Some, Hg. split; [by intros [? _]|]. intros Hi.
    split; [done|]. destruct (P g) eqn:E; [|done]. by apply HP in E.
  - apply Hw.
  - intros i g [Hg _]%lookup_sql_delete_Some. by eapply wi_finding.
  - apply Hw.
  - apply Hw.
Qed.

Lemma stays_insert_finding row : fr_repo_id row = r -> stays r k (insert_finding_row row).
Proof.
  intros Hr db o db' Hw H. unfold insert_finding_row in H. case_match; [by simplify_eq|].
  destruct (next_rowid (findings db)) as [id|] eqn:Hid; [|done]. case_match; [|done]. simplify_eq.
  pose proof (next_rowid_fresh _ _ Hid) as Hfresh. split; constructor; cbn; try done.
  - intros i g Hg. rewrite lookup_insert_Some. split; [|intros Hi; right; split; [congruence|done]].
    intros [[<- <-]|[_ Hi]]; [done|done].
  - apply Hw.
  - intros i g [[<- <-]|[_ Hg]]%lookup_insert_Some; [done|by eapply wi_finding].
  - apply Hw.
  - apply Hw.
Qed.

Lemma stays_insert_verification finding input now :
  stays r k (Findings.insert_verification r finding input now).
Proof.
  intros db id db' Hw H. unfold insert_verification in H.
  destruct (verification_columns input) as [[job o] notes].
  apply tx_bind_Ok in H as (found & ? & [-> ->]%tx_exists_Ok & H).
  apply tx_bind_Ok in H as (ok & d & Hok & H).
  assert (d = db) as -> by (destruct job; by tx_inv Hok).
  destruct (sql_exists _ _) eqn:Hf; [|by tx_inv H]. destruct ok; [|by tx_inv H]. cbn in H.
  apply insert_verification_row_Ok in H as (Hid & _ & ->). cbn.
  pose proof (next_rowid_fresh _ _ Hid) as Hfresh.
  apply sql_exists_true in Hf as (i & g & Hg & HP). bool_prop.
  pose proof (wi_finding _ _ _ Hw _ _ Hg) as Hgi.
  split; constructor; cbn; try done; try apply Hw.
  intros n v f Hv Hr. rewrite lookup_insert_Some.
  split; [|intros Hn; right; split; [congruence|done]].
  intros [[<- <-]|[_ Hn]]; [|done]. cbn in Hv. exfalso. congruence.
Qed.

Lemma stays_update_repos P f :
  (forall x, P x = true -> r_id x = r) -> (forall x, r_id (f x) = r_id x) ->
  stays r k (update_repos P f).
Proof.
  intros HP Hf db n db' Hw (_ & ->)%update_repos_Ok. split; [|by destruct Hw; constructor].
  constructor; cbn; try done. intros i x Hx. rewrite lookup_sql_update_Some. split.
  - intros (x0 & Hx0 & ->). destruct (P x0) eqn:E; [|done]. by rewrite Hf, (HP _ E) in Hx.
  - intros Hx0. exists x. split; [done|]. destruct (P x) eqn:E; [|done]. by rewrite (HP _ E) in Hx.
Qed.

Lemma stays_insert_history h : stays r k (insert_history h).
Proof.
  intros db u db' Hw (t & ->)%insert_history_Ok. split; [by constructor|by destruct Hw; constructor].
Qed.

Lemma stays_transition {A} (x : result StateTransitionError A) : stays r k (apply_transition x).
Proof. apply stays_reads. by intros db a db' [_ ->]%tx_lift_Ok. Qed.

End Stays.

#[export] Hint Resolve stays_ret stays_insert_history stays_insert_verification stays_transition : loupe.

(** Split a body into its statements; rows picked by repository, statements
    that only read, and the lemmas above close the leaves. *)
Ltac stays :=
  repeat first
    [ progress cbv beta
    | solve [auto with loupe]
    | apply stays_bind; [|intros ?]
    | apply stays_for; intros ?
    | apply stays_update_findings;
        [intros ? ?; bool_prop; congruence | intros ?; by split]
    | apply stays_delete_findings; intros ? ?; bool_prop; congruence
    | apply stays_insert_job; done
    | apply stays_update_repos; [intros ? ?; bool_prop; congruence | done]
    | apply stays_reads; intros ? ? ?;
        first [ by intros [_ ->]%tx_get_Ok | by intros [_ ->]%tx_exists_Ok | by intros [_ ->]%tx_select_Ok
              | by intros [_ ->]%tx_first_Ok | by intros [_ ->]%tx_lift_Ok | by intros []%tx_err_Ok ]
    | case_match ].

(** ** The operations of a worker *)

Lemma stays_lease_update r k w hash now f :
  (forall j, j_id (f j) = j_id j /\ j_repo_id (f j) = j_repo_id j) ->
  stays r k (update_jobs (lease_held k w hash now) f).
Proof.
  intros Hf. apply stays_update_jobs; [|done]. intros db i j Hw Hj HP. unfold lease_held in HP.
  bool_prop. pose proof (wi_job _ _ _ Hw _ _ Hj). eapply wi_owner; [done|]. congruence.
Qed.

Lemma stays_heartbeat r k w now secs hash : stays r k (heartbeat k w now secs hash).
Proof. unfold heartbeat. stays. by apply stays_lease_update. Qed.

Lemma stays_complete r lease st head err now : stays r (li_job_id lease) (Jobs.complete lease st head err now).
Proof. unfold Jobs.complete. stays; by apply stays_lease_update. Qed.

Lemma stays_submit scope k finding generate :
  stays (rs_repo_id (as_repo scope)) k (submit scope finding generate).
Proof.
  unfold submit, Repos.get, Repos.get_raw, insert_with_identity. stays.
  by apply stays_insert_finding.
Qed.

Lemma stays_prepare_assignment scope r k : stays r k (prepare_assignment scope).
Proof.
  apply stays_reads. intros db p db'. unfold prepare_assignment.
  repeat case_match; try by intros []%tx_err_Ok. all: by intros ->%prepare_reads.
Qed.
#[export] Hint Resolve stays_prepare_assignment : loupe.

Lemma stays_roll_up r k finding ti ra now : stays r k (roll_up_verdicts_for_finding r finding ti ra now).
Proof.
  unfold roll_up_verdicts_for_finding, get_selected, has_verdict_for. stays.
  apply stays_update_findings; [intros ? ?; bool_prop; congruence|].
  intros g. unfold rollup_stamp. case_match; by split.
Qed.
#[export] Hint Resolve stays_roll_up : loupe.

Lemma stays_submit_verdict scope k verdict cn ti ra :
  stays (rs_repo_id (as_repo scope)) k (submit_verdict scope verdict cn ti ra).
Proof.
  unfold submit_verdict, Repos.get_raw, attach_proposed_patch. stays.
Qed.

Lemma stays_enqueue_verify_jobs r k job now : stays r k (Jobs.enqueue_verify_jobs_for_scan r job now).
Proof. unfold Jobs.enqueue_verify_jobs_for_scan. stays. Qed.

Lemma stays_transition_scan r k job ra deadline now :
  stays r k (transition_scan_findings_after_success r job ra deadline now).
Proof. unfold transition_scan_findings_after_success. stays. Qed.

Lemma stays_complete_scan scope k head ra deadline :
  stays (rs_repo_id (as_repo scope)) k (complete_scan scope head ra deadline).
Proof.
  unfold complete_scan, Repos.get_raw.
  stays; try solve [apply stays_transition_scan | apply stays_enqueue_verify_jobs].
  apply stays_update_jobs; [|by split]. intros db i j _ _ HP. by bool_prop.
Qed.

#[export] Hint Resolve stays_complete_scan stays_complete : loupe.

Lemma stays_complete_assignment scope st head err ra deadline :
  stays (rs_repo_id (as_repo scope)) (li_job_id (al_identity (as_lease scope)))
    (complete_assignment scope st head err ra deadline).
Proof.
  unfold complete_assignment, complete_verify, delete_pending_for_job. stays.
Qed.

(** ** The theorem *)

(** The lease a worker operation acts under. *)
Definition acting_lease (op : Op) : option ActiveLease :=
  match op with
  | OpHeartbeat lease _ | OpSubmitFindings lease _ | OpSubmitVerdict lease _ _ _ _
  | OpComplete lease _ _ _ _ _ => Some lease
  | _ => None
  end.

(** The repository the lease gives access to. *)
Definition leased_repository (db : Db) (lease : ActiveLease) : option Z :=
  match head (sql_select (active_capability (li_worker_id (al_identity lease))
                (li_capability_hash (al_identity lease)) (al_now lease)) (jobs db)) with
  | Some job => if j_id job =? li_job_id (al_identity lease) then Some (j_repo_id job) else None
  | None => None
  end.

Lemma lease_confined {A} lease (body : AssignmentScope -> Tx A) h :
  Inv (h_db h) ->
  (forall s, li_job_id (al_identity (as_lease s)) = li_job_id (al_identity lease) ->
     li_job_id (al_identity lease) = j_id (as_job s) ->
     stays (rs_repo_id (as_repo s)) (li_job_id (al_identity lease)) (body s)) ->
  match leased_repository (h_db h) lease with
  | None => h_db (with_active_lease lease body h).2 = h_db h
  | Some r => confined r (h_db h) (h_db (with_active_lease lease body h).2)
  end.
Proof.
  intros Hi Hb. unfold leased_repository, with_active_lease, Jobs.get_active_by_capability_hash, tx_first.
  destruct (head _) as [job|] eqn:Hjob; [|done]. destruct (Z.eqb_spec (j_id job) (li_job_id (al_identity lease))) as [E|];
    cbn [negb]; [|done].
  apply head_select_Some in Hjob as (_ & i & Hj). pose proof (g_job_id _ _ Hi _ _ Hj) as Hij.
  unfold issue. match goal with |- context [body ?s (h_db h)] =>
    destruct (body s (h_db h)) as [[a db]|e] eqn:Eb end; cbn; [|done].
  eapply Hb in Eb; [apply Eb|done|done|]. constructor; cbn; try apply Hi.
  - intros j Hj'. rewrite <- E, Hij in Hj'. congruence.
  - rewrite <- E, Hij. by eexists.
Qed.

(** C3: repository isolation.  Whatever a worker submits (heartbeat, findings,
    verdict or completion), it reaches only the repository of the one live
    lease that its worker, capability and job id name: without such a lease
    the database is unchanged, and with it no job, finding, verdict or
    repository row of another repository, no worker and no secret differs. *)
Theorem workers_stay_in_their_repository phase_tail op lease h :
  Inv (h_db h) -> acting_lease op = Some lease ->
  match leased_repository (h_db h) lease with
  | None => h_db (exec phase_tail op h) = h_db h
  | Some r => confined r (h_db h) (h_db (exec phase_tail op h))
  end.
Proof.
  intros Hi Hl. destruct op; try discriminate Hl; cbn in Hl; injection Hl as ->; cbn [exec];
    apply lease_confined; try done; intros s Hs Hj.
  - unfold extend_lease. rewrite Hj. apply stays_heartbeat.
  - unfold submit_batch. stays. apply stays_submit.
  - apply stays_submit_verdict.
  - rewrite <- Hs. apply stays_complete_assignment.
Qed.

Lemma workers_stay_in_their_repository_witness :
  leased_repository (h_db (handle_after (scanning true None))) (a_lease 1 [1] 5) = Some 1 /\
  confined 1 (h_db (handle_after (scanning true None)))
    (h_db (exec no_phase (OpComplete (a_lease 1 [1] 5) Succeeded (Some (lit "c0ffee")) None false 1000)
             (handle_after (scanning true None)))).
Proof.
  assert (leased_repository (h_db (handle_after (scanning true None))) (a_lease 1 [1] 5) = Some 1) as E
    by (vm_compute; reflexivity).
  split; [exact E|].
  pose proof (workers_stay_in_their_repository no_phase
    (OpComplete (a_lease 1 [1] 5) Succeeded (Some (lit "c0ffee")) None false 1000)
    (a_lease 1 [1] 5) (handle_after (scanning true None)) (handle_after_Inv _) eq_refl) as H.
  rewrite E in H. exact H.
Defined.
