(* ===== verification/Guarantees.v ===== *)
(** * What the system guarantees

    The properties of every database the system can reach: the invariant, the
    refinement of the job and finding machines, and what they mean for an
    operator who relies on leases, verification and rejection. *)

From S2P Require Import Prelude Sql Domain StateMachine Vocabulary SchedPolicy Store TxLogic Scope Repos Findings Jobs Issuer Claim Reports Recovery Invariant Preservation System Fixture.
From Stdlib Require Import ZArith Lia.
From stdpp Require Import base gmap sets list strings relations.
Local Open Scope Z_scope.

Section Guarantees.
  Context (phase_tail : JobRow -> Tx Claimed).

(** The databases the operations can reach. *)
Definition reachable (db : Db) : Prop :=
  exists identity ops, db = h_db (exec_all phase_tail ops (initial_handle identity)).

Lemma reachable_Inv db : reachable db -> Inv db.
Proof. intros (identity & ops & ->). apply exec_all_Inv. Qed.

(** C1: the invariant.  After any sequence of operations on a fresh database,
    every row satisfies the store's invariant: a queued job has no worker,
    lease or capability, a leased one has all three and a finished one none to
    use; legacy attempts never exceed [MAX_ATTEMPTS]; the stamps of a finding
    agree with its state; a pending finding belongs to a scan that is still
    queued or leased; verdicts and findings stay inside one repository; and
    what needed verification and got past it was confirmed by a verifier. *)
Theorem invariant_always_holds identity ops : Inv (h_db (exec_all phase_tail ops (initial_handle identity))).
Proof. apply exec_all_Inv. Qed.

(** C2: the machines are refined.  Along any sequence of operations none of
    which deletes a repository, a job never disappears, keeps its repository,
    kind, target and campaign, and moves only along the job machine; a finding
    that is past [Pending] never disappears, keeps its repository, scan,
    verification requirement and report identity, and moves only along the
    finding machine; and every row that is new started at the initial state. *)
Theorem operations_refine_the_machines identity before after :
  Forall (fun op => deletes_repository op = false) after ->
  evolves (h_db (exec_all phase_tail before (initial_handle identity)))
          (h_db (exec_all phase_tail (before ++ after) (initial_handle identity))).
Proof.
  intros Hd. unfold exec_all. rewrite foldl_app. fold (exec_all phase_tail before (initial_handle identity)).
  apply exec_all_evolves; [done|apply exec_all_Inv].
Qed.

(** rejection is final.  Once an operator rejected a finding, no sequence
    of operations short of deleting a repository brings it back: it stays
    dismissed, with the time of the rejection, although dismissed findings can
    otherwise be revived by an operator's retry. *)
Theorem rejection_is_final identity before after i f t :
  Forall (fun op => deletes_repository op = false) after ->
  findings (h_db (exec_all phase_tail before (initial_handle identity))) !! i = Some f ->
  fr_rejected_at f = Some t ->
  exists f', findings (h_db (exec_all phase_tail (before ++ after) (initial_handle identity))) !! i = Some f' /\
    fr_state f' = Dismissed /\ fr_rejected_at f' = Some t.
Proof.
  intros Hd Hf Ht. unfold exec_all. rewrite foldl_app.
  fold (exec_all phase_tail before (initial_handle identity)).
  pose proof (exec_all_Inv phase_tail identity before) as Hi. set (h := exec_all phase_tail before _) in *.
  fold (exec_all phase_tail after h). pose proof (exec_all_evolves phase_tail after h Hd Hi) as He.
  assert (is_Some (fr_rejected_at f)) as Hs by by eexists.
  destruct (ev_finding _ _ He _ _ Hf) as [Hp|(f' & Hf' & Ev)].
  { by rewrite (fo_rejected _ (g_finding _ _ Hi _ _ Hf) Hs) in Hp. }
  exists f'. split; [done|]. pose proof (fe_rejected _ _ Ev Hs) as Hr.
  split; [|by rewrite Hr]. apply (fo_rejected f').
  - eapply g_finding; [|exact Hf']. by apply exec_all_Inv_from.
  - by rewrite Hr.
Qed.

(** C4: what is accepted was verified.  In every reachable database, a finding
    that requires verification and is awaiting approval, confirmed or reported
    has a verifier's confirming verdict; a confirmed or reported finding has
    its confirmation or its approval stamped, and a reported one its report. *)
Theorem accepted_findings_were_verified db i f :
  reachable db -> findings db !! i = Some f ->
  (fr_verification_required f = true -> accepted (fr_state f) = true -> confirmed_by_verifier db i) /\
  (fr_state f = Confirmed \/ fr_state f = Reported ->
     is_Some (fr_confirmed_at f) \/ is_Some (fr_approved_at f)) /\
  (fr_state f = Reported -> is_Some (fr_reported_at f)).
Proof.
  intros Hi%reachable_Inv Hf. pose proof (g_finding _ _ Hi _ _ Hf) as Hok.
  split; [|split; apply Hok]. intros Hr Ha. eapply g_evidence; [done..|]. by split; [|left].
Qed.

(** C14: leases are exclusive.  In every reachable database, a live capability
    names one job, a leased job has a worker, an expiry and a capability, a
    job that is not leased has none to present, and a finding has at most one
    queued or leased verification. *)
Theorem leases_are_exclusive db i k a b :
  reachable db -> jobs db !! i = Some a -> jobs db !! k = Some b ->
  (j_state a = Leased -> is_Some (j_worker_id a) /\ is_Some (j_lease_expires_at a) /\
                         is_Some (j_capability_hash a)) /\
  (j_state a <> Leased -> j_lease_expires_at a = None /\ j_capability_hash a = None) /\
  (forall hash, j_capability_hash a = Some hash -> j_capability_hash b = Some hash -> i = k) /\
  (forall f, j_kind a = Verify -> j_kind b = Verify -> active_state (j_state a) = true ->
     active_state (j_state b) = true -> j_target_finding_id a = Some f ->
     j_target_finding_id b = Some f -> i = k).
Proof.
  intros Hi%reachable_Inv Ha Hb. destruct (g_job _ _ Hi _ _ Ha) as (Hl & _ & _). unfold lease_ok in Hl.
  pose proof (g_unique _ _ Hi) as Hu. unfold jobs_unique in Hu. bool_prop.
  apply unique_on_true in H, H0, H1. split; [intros E; by rewrite E in Hl|].
  split; [intros E; destruct (j_state a); try done; by destruct Hl as (_ & ? & ?)|].
  split; [intros hash E1 E2; by eapply H|].
  intros f K1 K2 S1 S2 T1 T2. eapply (H1 i k a b f); try done;
    unfold active_verify_key; rewrite ?S1, ?S2, ?K1, ?K2; cbn; done.
Qed.

End Guarantees.

(** ** The theorems on concrete runs *)

Lemma operations_refine_the_machines_witness :
  evolves (h_db (handle_after (scanned true None))) (h_db (handle_after (scanned true None ++ [OpReapValidating 2000]))).
Proof.
  rewrite !handle_after_eq.
  apply (operations_refine_the_machines no_phase 7 (scanned true None) [OpReapValidating 2000]).
  repeat constructor.
Defined.

Lemma rejection_is_final_witness :
  exists f', findings (h_db (handle_after (rejected ++ [OpRecover
      {| rq_repo_id := None; rq_limit := None; rq_include_inconclusive := true; rq_dry_run := false |} 10 100;
      OpReapValidating 2000]))) !! 1 = Some f' /\
    fr_state f' = Dismissed /\ fr_rejected_at f' = Some 6.
Proof.
  rewrite handle_after_eq.
  destruct (findings (h_db (exec_all no_phase rejected (initial_handle 7))) !! 1) as [f|] eqn:E;
    [|vm_compute in E; discriminate E].
  assert (fr_rejected_at f = Some 6) as Ht
    by (apply (row_value _ _ _ fr_rejected_at _ E); vm_compute; reflexivity).
  exact (rejection_is_final no_phase 7 rejected [OpRecover
      {| rq_repo_id := None; rq_limit := None; rq_include_inconclusive := true; rq_dry_run := false |} 10 100;
      OpReapValidating 2000] 1 f 6 ltac:(repeat constructor) E Ht).
Defined.

Lemma accepted_findings_were_verified_witness : confirmed_by_verifier (h_db (handle_after verified)) 1.
Proof.
  destruct (findings (h_db (handle_after verified)) !! 1) as [f|] eqn:E; [|vm_compute in E; discriminate E].
  assert (fr_verification_required f = true /\ fr_state f = Confirmed) as [Hr Hs].
  { split; [apply (row_value _ _ _ fr_verification_required _ E)|apply (row_value _ _ _ fr_state _ E)];
      vm_compute; reflexivity. }
  apply (accepted_findings_were_verified no_phase (h_db (handle_after verified)) 1 f).
  - exists 7, verified. by rewrite handle_after_eq.
  - exact E.
  - exact Hr.
  - rewrite Hs. reflexivity.
Defined.

Lemma leases_are_exclusive_witness :
  exists a, jobs (h_db (handle_after (scanning true None))) !! 1 = Some a /\ j_state a = Leased /\
    is_Some (j_worker_id a) /\ is_Some (j_lease_expires_at a) /\ is_Some (j_capability_hash a).
Proof.
  destruct (jobs (h_db (handle_after (scanning true None))) !! 1) as [a|] eqn:E; [|vm_compute in E; discriminate E].
  exists a. split; [reflexivity|]. assert (j_state a = Leased) as Hs.
  { apply (row_value _ _ _ j_state _ E). vm_compute. reflexivity. }
  split; [exact Hs|]. apply (leases_are_exclusive no_phase (h_db (handle_after (scanning true None))) 1 1 a a).
  - exists 7, (scanning true None). by rewrite handle_after_eq.
  - exact E.
  - exact E.
  - exact Hs.
Defined.
