(* ===== verification/JobTheorems.v ===== *)
(** * What the job operations do

    Functional specifications of heartbeat, completion, cancellation, operator
    retry and the reaper: on a database that satisfies the invariant each of
    them succeeds, and its result and the database it leaves are the ones
    written here. *)

From S2P Require Import Prelude Sql Domain StateMachine Vocabulary SchedPolicy Store TxLogic Scope Repos Findings Jobs Issuer Claim Reports Recovery Invariant Preservation System Fixture.
From Stdlib Require Import ZArith Lia.
From stdpp Require Import base gmap sets list strings relations.
Local Open Scope Z_scope.

(** ** Shared lemmas *)

Lemma set_jobs_same (db : Db) : db <|jobs := jobs db|> = db.
Proof. by destruct db. Qed.

Lemma set_findings_same (db : Db) : db <|findings := findings db|> = db.
Proof. by destruct db. Qed.

Section OneJob.
  Context (db : Db) (Hi : Inv db) (k : Z) (P : JobRow -> bool) (f : JobRow -> JobRow).
  Context (HP : forall j, P j = true -> j_id j = k).

Lemma one_job : picks P (jobs db) k.
Proof. intros i j Hj Hp. rewrite <- (g_job_id _ _ Hi _ _ Hj). by apply HP. Qed.

(** An update by id of a row that leaves the indexes alone, or drops out of
    them. *)
Lemma update_one_job :
  (forall j x, P j = true -> capability_key (f j) = Some x -> capability_key j = Some x) ->
  (forall j x, P j = true -> active_verify_key (f j) = Some x -> active_verify_key j = Some x) ->
  (forall j x, P j = true -> active_drilldown_key (f j) = Some x -> active_drilldown_key j = Some x) ->
  update_jobs P f db =
    Ok match jobs db !! k with
       | Some j => if P j then (1, db <|jobs := <[k := f j]> (jobs db)|>) else (0, db)
       | None => (0, db)
       end.
Proof.
  intros H1 H2 H3. unfold update_jobs.
  rewrite (jobs_unique_update _ _ _ H1 H2 H3 (g_unique _ _ Hi)).
  rewrite (sql_count_picks _ _ _ one_job), (sql_update_picks _ _ _ _ one_job).
  destruct (jobs db !! k) as [j|]; [destruct (P j)|]; by rewrite ?set_jobs_same.
Qed.

End OneJob.

Lemma get_raw_keyed db id :
  Inv db -> Jobs.get_raw id db = Ok (jobs db !! id, db).
Proof.
  intros Hi. unfold Jobs.get_raw, tx_first. rewrite (sql_select_picks _ _ id).
  - destruct (jobs db !! id) as [j|] eqn:Hj; [|done].
    by rewrite (g_job_id _ _ Hi _ _ Hj), Z.eqb_refl.
  - intros i j Hj HP. bool_prop. by rewrite <- (g_job_id _ _ Hi _ _ Hj).
Qed.

Lemma and_iff_under (A B C : Prop) : (A -> B <-> C) -> A /\ B <-> A /\ C.
Proof. tauto. Qed.

(** ** Heartbeat and completion *)

(** The worker holds the live lease of a legacy job under this capability. *)
Definition holder (worker : Z) (hash : bytes) (now : Z) (j : JobRow) : Prop :=
  j_state j = Leased /\ j_worker_id j = Some worker /\ j_capability_hash j = Some hash /\
  match j_lease_expires_at j with Some expiry => now <= expiry | None => False end /\
  (j_kind j = Scan \/ j_kind j = Verify).

#[export] Instance holder_dec worker hash now j : Decision (holder worker hash now j).
Proof. unfold holder. destruct (j_lease_expires_at j); apply _. Defined.

Lemma lease_held_holder job worker hash now j :
  j_id j = job -> lease_held job worker hash now j = bool_decide (holder worker hash now j).
Proof.
  intros <-. apply eq_true_iff_eq. unfold lease_held, holder, sql_ge, sql_eq, legacy_kind.
  rewrite !andb_true_iff, !bool_decide_eq_true, Z.eqb_refl.
  destruct (j_worker_id j) as [w|], (j_lease_expires_at j) as [e|]; rewrite ?Z.eqb_eq, ?Z.leb_le;
    split; intros; destruct_and?; split_and?; try done; try set_solver; try congruence; try lia.
Qed.

(** a heartbeat extends exactly the named lease.  On any database that
    satisfies the invariant it succeeds; the lease is extended to
    [now + lease_seconds] (wrapping at 64 bits) when the job is leased to this
    worker under this capability and has not expired, and otherwise nothing
    changes and the worker is told it lost the lease. *)
Theorem heartbeat_spec db job worker now seconds hash :
  Inv db ->
  heartbeat job worker now seconds hash db =
    Ok match jobs db !! job with
       | Some j =>
           if decide (holder worker hash now j) then
             (Some (wrapping_add now seconds),
              db <|jobs := <[job := j <|j_lease_expires_at := Some (wrapping_add now seconds)|>]> (jobs db)|>)
           else (None, db)
       | None => (None, db)
       end.
Proof.
  intros Hi. unfold heartbeat. rewrite (transition_bind _ Leased) by done.
  erewrite tx_bind_pair.
  2: { apply (update_one_job db Hi job); [|done..]. intros j Hj. unfold lease_held in Hj. by bool_prop. }
  destruct (jobs db !! job) as [j|] eqn:Hj; [|done].
  rewrite (lease_held_holder _ _ _ _ _ (g_job_id _ _ Hi _ _ Hj)). unfold bool_decide, decide.
  by destruct (holder_dec _ _ _ j).
Qed.

Lemma heartbeat_spec_witness :
  exists j, jobs (h_db (handle_after (scanning true None))) !! 1 = Some j /\
  heartbeat 1 1 5 600 [1] (h_db (handle_after (scanning true None))) =
    Ok (Some 605, (h_db (handle_after (scanning true None))) <|jobs :=
      <[1 := j <|j_lease_expires_at := Some 605|>]> (jobs (h_db (handle_after (scanning true None))))|>).
Proof.
  destruct (jobs (h_db (handle_after (scanning true None))) !! 1) as [j|] eqn:E;
    [|vm_compute in E; discriminate E].
  exists j. split; [reflexivity|].
  rewrite (heartbeat_spec _ 1 1 5 600 [1] (handle_after_Inv (scanning true None))), E.
  assert (bool_decide (holder 1 [1] 5 j) = true) as Hh%bool_decide_eq_true by
    (apply (row_value _ _ _ (fun j => bool_decide (holder 1 [1] 5 j)) _ E); vm_compute; reflexivity).
  rewrite decide_True by exact Hh. reflexivity.
Defined.

(** The completed row. *)
Definition completed (st : JobState) (head_sha error : option str) (now : Z) (j : JobRow) : JobRow :=
  j <|j_state := st|> <|j_head_sha := coalesce head_sha (j_head_sha j)|> <|j_error := error|>
    <|j_finished_at := Some now|> <|j_lease_expires_at := None|> <|j_capability_hash := None|>.

(** completion ends exactly the named lease, once.  A job is moved to
    succeeded or failed only by the holder of its live lease, which the
    completion destroys; any other caller gets [false] and changes nothing, and
    a target state that does not end a job is refused. *)
Theorem complete_spec db lease st head_sha error now :
  Inv db ->
  Jobs.complete lease st head_sha error now db =
    match st with
    | Succeeded | Failed =>
        Ok match jobs db !! li_job_id lease with
           | Some j =>
               if decide (holder (li_worker_id lease) (li_capability_hash lease) now j)
               then (true, db <|jobs := <[li_job_id lease := completed st head_sha error now j]> (jobs db)|>)
               else (false, db)
           | None => (false, db)
           end
    | other => Err (Sqlite (InvalidCompletionTarget other))
    end.
Proof.
  intros Hi. unfold Jobs.complete.
  assert (forall target t, job_apply Leased t = Ok target -> target = st ->
    JobState.is_terminal st = true ->
    (target_state ← apply_transition (job_apply Leased t);
     n ← update_jobs (lease_held (li_job_id lease) (li_worker_id lease) (li_capability_hash lease) now)
           (completed target_state head_sha error now);
     mret (0 <? n)) db =
    Ok match jobs db !! li_job_id lease with
       | Some j =>
           if decide (holder (li_worker_id lease) (li_capability_hash lease) now j)
           then (true, db <|jobs := <[li_job_id lease := completed st head_sha error now j]> (jobs db)|>)
           else (false, db)
       | None => (false, db)
       end) as Hrun.
  { intros target t Ht -> Hterm. rewrite (transition_bind _ st) by done. erewrite tx_bind_pair.
    2: { apply (update_one_job db Hi (li_job_id lease)).
         - intros j Hj. unfold lease_held in Hj. by bool_prop.
         - done.
         - intros j x _. unfold active_verify_key. cbn. by destruct st.
         - intros j x _. unfold active_drilldown_key. cbn. by destruct st. }
    destruct (jobs db !! li_job_id lease) as [j|] eqn:Hj; [|done].
    rewrite (lease_held_holder _ _ _ _ _ (g_job_id _ _ Hi _ _ Hj)). unfold bool_decide, decide.
    by destruct (holder_dec _ _ _ j). }
  destruct st; try done; [apply (Hrun Succeeded CompleteSucceeded)|apply (Hrun Failed CompleteFailed)]; done.
Qed.

Lemma complete_spec_witness :
  exists db', Jobs.complete (al_identity (a_lease 1 [1] 5)) Failed None None 5
    (h_db (handle_after (scanning true None))) = Ok (true, db').
Proof.
  rewrite (complete_spec _ (al_identity (a_lease 1 [1] 5)) Failed None None 5
    (handle_after_Inv (scanning true None))).
  destruct (jobs (h_db (handle_after (scanning true None))) !! li_job_id (al_identity (a_lease 1 [1] 5)))
    as [j|] eqn:E; [|vm_compute in E; discriminate E].
  match goal with |- context [decide (holder ?b ?c ?d j)] =>
    assert (bool_decide (holder b c d j) = true) as Hh%bool_decide_eq_true by
      (apply (row_value _ _ _ (fun j => bool_decide (holder b c d j)) _ E); vm_compute; reflexivity) end.
  rewrite decide_True by exact Hh. eexists. reflexivity.
Defined.

(** ** The lease reaper *)

(** A legacy lease that ran out. *)
Definition expired (now : Z) (j : JobRow) : bool :=
  sql_null (j_campaign_id j) && legacy_kind (j_kind j) && bool_decide (j_state j = Leased) &&
  sql_lt (j_lease_expires_at j) now.

Definition released (j : JobRow) : JobRow :=
  j <|j_worker_id := None|> <|j_lease_expires_at := None|> <|j_capability_hash := None|>.

(** What becomes of one job. *)
Definition reaped (db : Db) (now : Z) (j : JobRow) : JobRow :=
  if negb (expired now j) then j
  else if bool_decide (j_kind j = Verify) && phase_finding_target db j then
    (released j) <|j_state := Failed|> <|j_finished_at := Some now|>
      <|j_error := coalesce (j_error j)
           (Some (lit "legacy verification cannot target phase findings"))|>
  else if j_attempts j <? MAX_ATTEMPTS then
    (released j) <|j_state := Queued|> <|j_started_at := None|>
  else
    (released j) <|j_state := Failed|> <|j_finished_at := Some now|>
      <|j_error := coalesce (j_error j) (Some LEASE_EXPIRED_AFTER_MAX_ATTEMPTS_ERROR)|>.

(** A finding the reaper deletes: it is pending on a scan that has no attempt
    left. *)
Definition orphaned (db : Db) (now : Z) (f : FindingRow) : Prop :=
  fr_state f = Pending /\ exists j, jobs db !! fr_job_id f = Some j /\ j_kind j = Scan /\
    expired now j = true /\ MAX_ATTEMPTS <= j_attempts j.

(** The deletions of the reaper's last loop. *)
Lemma delete_pending_loop xs db :
  exists db', tx_for xs (fun j => _ ← delete_pending_for_job (j_repo_id j) (j_id j); mret tt) db =
    Ok (tt, db') /\ jobs db' = jobs db /\
    forall i f, findings db' !! i = Some f <-> findings db !! i = Some f /\
      forall j, j ∈ xs -> ~ (fr_job_id f = j_id j /\ fr_state f = Pending /\ fr_repo_id f = j_repo_id j).
Proof.
  revert db. induction xs as [|x xs IH]; intros db.
  - exists db. split; [done|]. split; [done|]. intros i f. split; [|by intros [? _]]. intros Hf.
    split; [done|]. intros j Hj. by apply not_elem_of_nil in Hj.
  - destruct (delete_pending_for_job (j_repo_id x) (j_id x) db) as [[n d1]|] eqn:E; [|done].
    destruct (IH d1) as (d2 & Hd2 & Hj2 & Hf2). injection E as _ <-. exists d2.
    split; [exact Hd2|]. split; [by rewrite Hj2|]. intros i f. rewrite Hf2. cbn.
    rewrite lookup_sql_delete_Some.
    rewrite !andb_false_iff, bool_decide_eq_false, !Z.eqb_neq. setoid_rewrite elem_of_cons.
    split.
    + intros ((Hf & Hx) & Hxs). split; [done|]. intros j [->|Hj]; [|by apply Hxs]. naive_solver.
    + intros (Hf & Hxs). specialize (Hxs x (or_introl eq_refl)) as Hx. split; [|by eauto].
      split; [done|]. destruct (decide (fr_job_id f = j_id x)); [|tauto].
      destruct (decide (fr_state f = Pending)); tauto.
Qed.

(** Taking a job out of its lease never breaks an index. *)
Lemma jobs_unique_release P f t :
  (forall j, P j = true -> j_state j = Leased /\ j_capability_hash (f j) = None /\
     j_kind (f j) = j_kind j /\ j_target_finding_id (f j) = j_target_finding_id j /\
     j_assigned_lead_id (f j) = j_assigned_lead_id j) ->
  jobs_unique t = true -> jobs_unique (sql_update P f t) = true.
Proof.
  intros Hf. apply jobs_unique_update; intros j k (Hs & Hc & Hk & Ht & Hl)%Hf.
  - unfold capability_key. by rewrite Hc.
  - unfold active_verify_key. rewrite Hs, Hk, Ht. cbn. by destruct (active_state _).
  - unfold active_drilldown_key. rewrite Hs, Hk, Hl. cbn. by destruct (active_state _).
Qed.

Lemma update_jobs_release P f db :
  (forall j, P j = true -> j_state j = Leased /\ j_capability_hash (f j) = None /\
     j_kind (f j) = j_kind j /\ j_target_finding_id (f j) = j_target_finding_id j /\
     j_assigned_lead_id (f j) = j_assigned_lead_id j) ->
  jobs_unique (jobs db) = true ->
  update_jobs P f db = Ok (sql_count P (jobs db), db <|jobs := sql_update P f (jobs db)|>) /\
  jobs_unique (sql_update P f (jobs db)) = true.
Proof.
  intros Hf Hu. pose proof (jobs_unique_release _ _ _ Hf Hu) as Hu'. split; [|done].
  unfold update_jobs. by rewrite Hu'.
Qed.

(** The three updates of the reaper, on one row. *)
Section ReapRow.
  Context (db : Db) (now : Z).

Let incompatible (j : JobRow) : bool :=
  sql_null (j_campaign_id j) && bool_decide (j_kind j = Verify) && bool_decide (j_state j = Leased) &&
  sql_lt (j_lease_expires_at j) now && phase_finding_target db j.

Let to_queue (j : JobRow) : bool :=
  bool_decide (j_state j = Leased) && sql_lt (j_lease_expires_at j) now &&
  (j_attempts j <? MAX_ATTEMPTS) && sql_null (j_campaign_id j) && legacy_kind (j_kind j).

Let to_fail (j : JobRow) : bool :=
  bool_decide (j_state j = Leased) && sql_lt (j_lease_expires_at j) now &&
  (MAX_ATTEMPTS <=? j_attempts j) && sql_null (j_campaign_id j) && legacy_kind (j_kind j).

Lemma reap_expired_clauses j :
  expired now j = true ->
  incompatible j = bool_decide (j_kind j = Verify) && phase_finding_target db j /\
  to_queue j = (j_attempts j <? MAX_ATTEMPTS) /\ to_fail j = (MAX_ATTEMPTS <=? j_attempts j).
Proof.
  unfold expired, incompatible, to_queue, to_fail. rewrite !andb_true_iff.
  intros [[[H1 H2] H3] H4]. by rewrite H1, H2, H3, H4, !andb_true_r.
Qed.

Lemma reap_live_clauses j :
  expired now j = false -> incompatible j = false /\ to_queue j = false /\ to_fail j = false.
Proof.
  unfold expired, incompatible, to_queue, to_fail. intros E.
  destruct (sql_null (j_campaign_id j)); cbn [andb] in *; rewrite ?andb_false_r; [|done].
  destruct (bool_decide (j_state j = Leased)); cbn [andb] in *; rewrite ?andb_false_r; [|done].
  destruct (sql_lt _ now); cbn [andb] in *; rewrite ?andb_false_r; [|done].
  rewrite !andb_true_r in E. rewrite E, !andb_false_r. unfold legacy_kind in E. bool_prop.
  rewrite bool_decide_eq_false_2; [done|]. intros Hk. apply E. rewrite Hk. set_solver.
Qed.

Lemma reap_row j :
  let a := if incompatible j then
      j <|j_state := Failed|> <|j_worker_id := None|> <|j_lease_expires_at := None|>
        <|j_capability_hash := None|> <|j_finished_at := Some now|>
        <|j_error := coalesce (j_error j)
             (Some (lit "legacy verification cannot target phase findings"))|>
    else j in
  let b := if to_queue a then
      a <|j_state := Queued|> <|j_worker_id := None|> <|j_lease_expires_at := None|>
        <|j_capability_hash := None|> <|j_started_at := None|>
    else a in
  (if to_fail b then
     b <|j_state := Failed|> <|j_worker_id := None|> <|j_lease_expires_at := None|>
       <|j_capability_hash := None|> <|j_finished_at := Some now|>
       <|j_error := coalesce (j_error b) (Some LEASE_EXPIRED_AFTER_MAX_ATTEMPTS_ERROR)|>
   else b) = reaped db now j.
Proof.
  cbn zeta. unfold reaped. destruct (expired now j) eqn:E; cbn [negb].
  - destruct (reap_expired_clauses j E) as (-> & H2 & H3).
    destruct (bool_decide (j_kind j = Verify) && phase_finding_target db j); [reflexivity|].
    rewrite H2. destruct (j_attempts j <? MAX_ATTEMPTS) eqn:Ha; [reflexivity|].
    rewrite H3. bool_prop. by rewrite (proj2 (Z.leb_le _ _) Ha).
  - destruct (reap_live_clauses j E) as (-> & H2 & H3). by rewrite H2, H3.
Qed.

End ReapRow.

(** The scans whose pending findings the reaper deletes, after its first
    update. *)
Lemma orphaned_iff db now (failing : list JobRow) f i :
  Inv db -> findings db !! i = Some f ->
  (forall j, j ∈ failing <-> j_kind j = Scan /\ expired now j = true /\ MAX_ATTEMPTS <= j_attempts j /\
     exists k, jobs db !! k = Some j) ->
  orphaned db now f <->
  exists j, j ∈ failing /\ fr_job_id f = j_id j /\ fr_state f = Pending /\ fr_repo_id f = j_repo_id j.
Proof.
  intros Hi Hf Hin. split.
  - intros (Hp & j & Hj & Hk & He & Hm). exists j. split; [apply Hin; eauto|].
    rewrite (g_job_id _ _ Hi _ _ Hj). split; [done|]. split; [done|].
    destruct (g_finding_job _ _ Hi _ _ Hf) as (j' & Hj' & <-). congruence.
  - intros (j & (Hk & He & Hm & k & Hj)%Hin & Hfj & Hp & Hr). split; [done|]. exists j.
    rewrite Hfj, (g_job_id _ _ Hi _ _ Hj). done.
Qed.

Lemma failing_scans db now (P : JobRow -> bool) (f : JobRow -> JobRow) j :
  (forall x, P x = true -> j_kind x = Verify) -> (forall x, j_kind (f x) = j_kind x) ->
  j ∈ sql_select (fun j => bool_decide (j_kind j = Scan) && sql_null (j_campaign_id j) &&
        bool_decide (j_state j = Leased) && sql_lt (j_lease_expires_at j) now &&
        (MAX_ATTEMPTS <=? j_attempts j)) (sql_update P f (jobs db)) <->
  j_kind j = Scan /\ expired now j = true /\ MAX_ATTEMPTS <= j_attempts j /\
    exists k, jobs db !! k = Some j.
Proof.
  intros HP Hf. rewrite elem_of_sql_select. unfold expired.
  rewrite !andb_true_iff, !bool_decide_eq_true, Z.leb_le. split.
  - intros (((((Hk & Hc) & Hl) & He) & Hm) & k & (x & Hx & ->)%lookup_sql_update_Some).
    destruct (P x) eqn:E; [rewrite Hf, (HP _ E) in Hk; done|].
    unfold legacy_kind. rewrite bool_decide_eq_true, Hk. split_and!; try done; [set_solver|eauto].
  - intros (Hk & (((Hc & Hlk) & Hl) & He) & Hm & k & Hj). split; [done|]. exists k.
    apply lookup_sql_update_Some. exists j. split; [done|]. destruct (P j) eqn:E; [|done].
    rewrite (HP _ E) in Hk. done.
Qed.

(** the reaper.  On any database that satisfies the invariant the reaper of
    legacy leases succeeds, and afterwards every job whose lease ran out is
    back in the queue when it has an attempt left and failed otherwise (failed
    at once when it verifies a finding of a campaign), without worker, lease or
    capability; no other job changed; and exactly the pending findings of the
    scans that failed are gone. *)
Theorem reap_legacy_spec db now :
  Inv db ->
  exists n db', Jobs.reap_legacy now db = Ok (n, db') /\
    jobs db' = reaped db now <$> jobs db /\
    (forall i f, findings db' !! i = Some f <-> findings db !! i = Some f /\ ~ orphaned db now f) /\
    (forall i j, jobs db' !! i = Some j -> expired now j = false).
Proof.
  intros Hi. unfold Jobs.reap_legacy. rewrite (transition_bind _ Queued) by done.
  rewrite (transition_bind _ Failed) by done. rewrite (tx_bind_run _ _ _ db db) by done.
  match goal with |- context [update_jobs ?P ?f ≫= _] =>
    destruct (update_jobs_release P f db) as [E1 U1]; [intros j HP; bool_prop; done|apply Hi|];
    set (P1 := P) in *; set (f1 := f) in * end.
  rewrite (tx_bind_run _ _ _ _ _ E1). clear E1. cbv beta.
  set (d1 := db <|jobs := sql_update P1 f1 (jobs db)|>). change (jobs_unique (jobs d1) = true) in U1.
  rewrite (tx_bind_run _ _ d1 (sql_select _ (jobs d1)) d1) by reflexivity. cbv beta.
  match goal with |- context [update_jobs ?P ?f ≫= _] =>
    destruct (update_jobs_release P f d1) as [E2 U2]; [intros j HP; bool_prop; done|exact U1|];
    set (P2 := P) in *; set (f2 := f) in * end.
  rewrite (tx_bind_run _ _ _ _ _ E2). clear E2. cbv beta.
  set (d2 := d1 <|jobs := sql_update P2 f2 (jobs d1)|>). change (jobs_unique (jobs d2) = true) in U2.
  match goal with |- context [update_jobs ?P ?f ≫= _] =>
    destruct (update_jobs_release P f d2) as [E3 _]; [intros j HP; bool_prop; done|exact U2|];
    set (P3 := P) in *; set (f3 := f) in * end.
  rewrite (tx_bind_run _ _ _ _ _ E3). clear E3. cbv beta.
  set (d3 := d2 <|jobs := sql_update P3 f3 (jobs d2)|>).
  match goal with |- context [tx_for ?xs _] => destruct (delete_pending_loop xs d3) as (d4 & E4 & J4 & F4) end.
  rewrite (tx_bind_run _ _ _ _ _ E4). cbv beta.
  eexists _, d4. split; [reflexivity|].
  assert (jobs d4 = reaped db now <$> jobs db) as Hjobs.
  { rewrite J4. apply map_eq. intros i. subst d3 d2 d1. cbn [jobs over].
    rewrite !lookup_sql_update, lookup_fmap.
    destruct (jobs db !! i) as [j|]; [|done]. cbn. f_equal. apply reap_row. }
  split; [exact Hjobs|]. split.
  - intros i f. rewrite F4. apply and_iff_under. intros Hf.
    rewrite (orphaned_iff db now _ f i Hi Hf (fun j => failing_scans db now P1 f1 j
      ltac:(subst P1; intros x Hx; bool_prop; done) ltac:(done))).
    clear. naive_solver.
  - intros i j' Hj'. rewrite Hjobs, lookup_fmap in Hj'. destruct (jobs db !! i) as [j|]; [|done].
    injection Hj' as <-. unfold reaped. destruct (expired now j) eqn:E; [|done].
    cbn [negb]. unfold expired. repeat case_match; cbn; by rewrite ?andb_false_r.
Qed.

Lemma reap_legacy_spec_witness :
  exists n db', Jobs.reap_legacy 1000 (h_db (handle_after (scanning true None))) = Ok (n, db') /\
    (fun j => (j_state j, j_attempts j, j_worker_id j)) <$> (jobs db' !! 1) = Some (Queued, 1, None).
Proof.
  destruct (reap_legacy_spec _ 1000 (handle_after_Inv (scanning true None))) as (n & db' & H & Hj & _).
  exists n, db'. split; [exact H|]. rewrite Hj, lookup_fmap. vm_compute. reflexivity.
Defined.

(** ** Cancellation *)

Definition cancelled_row (now : Z) (j : JobRow) : JobRow :=
  j <|j_state := Cancelled|> <|j_worker_id := None|> <|j_lease_expires_at := None|>
    <|j_capability_hash := None|> <|j_finished_at := Some now|>
    <|j_error := Some JOB_CANCELLED_BY_ADMIN_ERROR|>.

(** The pending findings of a cancelled scan. *)
Definition pending_of (job : Z) (j : JobRow) (f : FindingRow) : bool :=
  (fr_job_id f =? job) && (fr_repo_id f =? j_repo_id j) && bool_decide (fr_state f = Pending).

Lemma cancel_apply s :
  job_apply s StateMachine.Cancel =
    if active_state s then Ok Cancelled else Err (job_error (JobState.as_str s) StateMachine.Cancel).
Proof. by destruct s. Qed.

(** cancellation, on every branch.  On any database that satisfies the
    invariant it succeeds: an unknown job and a kind of the phase runtime are
    reported and a job that already ended keeps its state, all without a
    change; a queued or leased scan or verify job becomes cancelled, loses its
    worker, lease and capability, and a cancelled scan its pending findings. *)
Theorem cancel_spec db job now :
  Inv db ->
  Jobs.cancel job now db = Ok
    match jobs db !! job with
    | None => (CancelNotFound, db)
    | Some j =>
        if negb (legacy_kind (j_kind j)) then (CancelUnsupportedKind, db)
        else if negb (active_state (j_state j)) then (NotCancellable (j_state j), db)
        else (JobCancelled (cancelled_row now j),
              let db1 := db <|jobs := <[job := cancelled_row now j]> (jobs db)|> in
              if bool_decide (j_kind j = Scan) then run (delete_findings (pending_of job j)) db1 else db1)
    end.
Proof.
  intros Hi. unfold Jobs.cancel, transaction.
  rewrite (tx_bind_run _ _ _ _ _ (get_raw_keyed _ _ Hi)).
  destruct (jobs db !! job) as [j|] eqn:Hj; [|done]. destruct (legacy_kind (j_kind j)) eqn:Hk; [|done].
  cbn [negb]. rewrite cancel_apply. destruct (active_state (j_state j)) eqn:Ha; [|done]. cbn [negb].
  erewrite tx_bind_pair.
  2: { apply (update_one_job db Hi job); [intros x Hx; bool_prop; done|done|..];
       intros x y _; unfold active_verify_key, active_drilldown_key; cbn; done. }
  rewrite Hj, (g_job_id _ _ Hi _ _ Hj), !Z.eqb_refl, Ha, Hk. cbn [andb fst snd Z.eqb].
  fold (cancelled_row now j). set (db1 := db <|jobs := <[job := cancelled_row now j]> (jobs db)|>).
  assert (forall d, jobs d = jobs db1 -> Jobs.get_raw job d = Ok (Some (cancelled_row now j), d)) as Hget.
  { intros d Hd. unfold Jobs.get_raw, tx_first. rewrite Hd. cbn.
    rewrite (sql_select_picks _ _ job), lookup_insert_eq; cbn;
      [by rewrite (g_job_id _ _ Hi _ _ Hj), Z.eqb_refl|].
    intros i x [[<- <-]|[_ Hx]]%lookup_insert_Some HP; [done|]. bool_prop.
    by rewrite <- (g_job_id _ _ Hi _ _ Hx). }
  case_bool_decide.
  - rewrite (tx_bind_run (delete_findings _) _ db1 _ (run (delete_findings (pending_of job j)) db1))
      by reflexivity.
    cbv beta.
    by rewrite (tx_bind_run _ _ _ _ _ (Hget (run (delete_findings (pending_of job j)) db1) eq_refl)).
  - rewrite (tx_bind_run (mret 0) _ db1 0 db1) by reflexivity. cbv beta.
    rewrite (tx_bind_run _ _ _ _ _ (Hget _ eq_refl)). done.
Qed.

Lemma cancel_spec_witness :
  exists j, jobs (h_db (handle_after (scanning true None))) !! 1 = Some j /\
    Jobs.cancel 1 9 (h_db (handle_after (scanning true None))) =
      Ok (JobCancelled (cancelled_row 9 j),
          run (delete_findings (pending_of 1 j))
            ((h_db (handle_after (scanning true None))) <|jobs :=
               <[1 := cancelled_row 9 j]> (jobs (h_db (handle_after (scanning true None))))|>)).
Proof.
  destruct (jobs (h_db (handle_after (scanning true None))) !! 1) as [j|] eqn:E;
    [|vm_compute in E; discriminate E].
  exists j. split; [reflexivity|].
  rewrite (cancel_spec _ 1 9 (handle_after_Inv (scanning true None))), E.
  assert (legacy_kind (j_kind j) = true) as ->
    by (apply (row_value _ _ _ (fun j => legacy_kind (j_kind j)) _ E); vm_compute; reflexivity).
  assert (active_state (j_state j) = true) as ->
    by (apply (row_value _ _ _ (fun j => active_state (j_state j)) _ E); vm_compute; reflexivity).
  assert (bool_decide (j_kind j = Scan) = true) as ->
    by (apply (row_value _ _ _ (fun j => bool_decide (j_kind j = Scan)) _ E); vm_compute; reflexivity).
  reflexivity.
Defined.

(** ** Operator retry *)

Definition requeued (now : Z) (j : JobRow) : JobRow :=
  j <|j_state := Queued|> <|j_worker_id := None|> <|j_lease_expires_at := None|>
    <|j_capability_hash := None|> <|j_attempts := 0|> <|j_started_at := None|>
    <|j_finished_at := None|> <|j_error := None|> <|j_head_sha := None|> <|j_enqueued_at := now|>.

Definition revived (deadline : Z) (f : FindingRow) : FindingRow :=
  f <|fr_state := Validating|> <|fr_dismissed_at := None|>
    <|fr_validating_deadline := Some deadline|>.

Lemma finding_picks db id (P : FindingRow -> bool) :
  Inv db -> (forall f, P f = true -> fr_id f = id) -> picks P (findings db) id.
Proof. intros Hi HP i f Hf Hp. rewrite <- (g_finding_id _ _ Hi _ _ Hf). by apply HP. Qed.

Lemma finding_get_raw_keyed db id : Inv db -> Findings.get_raw id db = Ok (findings db !! id, db).
Proof.
  intros Hi. unfold Findings.get_raw, tx_first.
  rewrite (sql_select_picks _ _ id) by (apply finding_picks; [done|]; intros f Hf; by bool_prop).
  destruct (findings db !! id) as [f|] eqn:Hf; [|done].
  by rewrite (g_finding_id _ _ Hi _ _ Hf), Z.eqb_refl.
Qed.

Lemma get_selected_keyed db repo id :
  Inv db -> get_selected repo id db =
    Ok (match findings db !! id with
        | Some f => if fr_repo_id f =? repo then Some f else None | None => None end, db).
Proof.
  intros Hi. unfold get_selected, tx_first.
  rewrite (sql_select_picks _ _ id) by (apply finding_picks; [done|]; intros f Hf; by bool_prop).
  destruct (findings db !! id) as [f|] eqn:Hf; [|done].
  rewrite (g_finding_id _ _ Hi _ _ Hf), Z.eqb_refl. cbn. by destruct (_ =? _).
Qed.

(** A revival of a finding in a state that allows it. *)
Lemma retry_verification_run db repo id deadline f :
  Inv db -> findings db !! id = Some f -> fr_repo_id f = repo ->
  finding_apply (fr_state f) RetryVerification = Ok Validating ->
  retry_verification repo id deadline db =
    Ok (true, db <|findings := <[id := revived deadline f]> (findings db)|>).
Proof.
  intros Hi Hf <- Ht. unfold retry_verification.
  rewrite (tx_bind_run _ _ _ _ _ (get_selected_keyed db (fr_repo_id f) id Hi)), Hf, Z.eqb_refl.
  rewrite (transition_bind _ Validating) by done. unfold update_findings, mbind, tx_bind.
  match goal with |- context [sql_count ?P _] =>
    assert (picks P (findings db) id) as Hp by (apply finding_picks; [done|]; intros g Hg; by bool_prop)
  end.
  rewrite (sql_count_picks _ _ _ Hp), (sql_update_picks _ _ _ _ Hp), Hf.
  by rewrite (g_finding_id _ _ Hi _ _ Hf), !Z.eqb_refl, bool_decide_eq_true_2.
Qed.

(** Requeueing a failed legacy job whose target no other job is verifying. *)
Lemma requeue_failed_run db job now j :
  (forall i x, jobs db !! i = Some x -> j_id x = i) -> jobs_unique (jobs db) = true ->
  jobs db !! job = Some j -> j_state j = Failed -> legacy_kind (j_kind j) = true ->
  (forall i x t, i <> job -> jobs db !! i = Some x -> j_kind j = Verify ->
     j_target_finding_id j = Some t -> active_verify_key x <> Some t) ->
  Jobs.requeue_failed (j_repo_id j) job now db =
    Ok (Some (requeued now j), db <|jobs := <[job := requeued now j]> (jobs db)|>).
Proof.
  intros Hid Hu Hj Hs Hk Ht. unfold Jobs.requeue_failed. rewrite (transition_bind _ Queued) by done.
  match goal with |- context [update_jobs ?P ?f] =>
    assert (update_jobs P f db = Ok (1, db <|jobs := <[job := requeued now j]> (jobs db)|>)) as E1 end.
  { unfold update_jobs. match goal with |- context [sql_count ?P _] =>
      assert (picks P (jobs db) job) as Hp by (intros i x Hx HP; bool_prop; by rewrite <- (Hid _ _ Hx)) end.
    rewrite (sql_count_picks _ _ _ Hp), (sql_update_picks _ _ _ _ Hp), Hj, (Hid _ _ Hj), !Z.eqb_refl, Hk.
    rewrite bool_decide_eq_true_2 by done. cbn [andb]. fold (requeued now j).
    assert (jobs_unique (<[job := requeued now j]> (jobs db)) = true) as ->; [|done].
    unfold jobs_unique in *. bool_prop. rewrite !unique_on_replace; try done.
    - intros i x k Hne Hx Hkx. unfold active_drilldown_key. cbn.
      apply legacy_kind_true in Hk as [-> | ->]; done.
    - intros i x k Hne Hx Hkx. unfold active_verify_key at 1. cbn. case_bool_decide; [|done].
      intros Hjt. by eapply Ht. }
  rewrite (tx_bind_run _ _ _ _ _ E1). cbn [Z.eqb]. unfold get_scoped_raw, tx_first. cbn [jobs over].
  match goal with |- context [sql_select ?P ?t] => assert (picks P t job) as Hp end.
  { intros i x [[<- <-]|[_ Hx]]%lookup_insert_Some HP; [done|]. bool_prop. by rewrite <- (Hid _ _ Hx). }
  rewrite (sql_select_picks _ _ _ Hp), lookup_insert_eq. cbn. by rewrite (Hid _ _ Hj), !Z.eqb_refl.
Qed.

(** A finding whose verification an operator may retry: it is still being
    validated, or only the deadline dismissed it. *)
Definition retriable (db : Db) (t : Z) (f : FindingRow) : Prop :=
  fr_state f = Validating \/
  (fr_state f = Dismissed /\ is_deadline_dismissed_without_terminal_verdict t db = Ok (true, db)).

(** The target checks of a failed verify job: a conflict, or the revival. *)
Lemma retry_verify_target_run db row job deadline :
  Inv db -> 
  exists o db', retry_verify_target row job deadline db = Ok (o, db') /\
    match o with
    | Some c => db' = db /\ (forall t, c <> TargetChangedBeforeRetry t) /\ c <> JobChangedBeforeRetry
    | None => exists t f, j_target_finding_id row = Some t /\ findings db !! t = Some f /\
        retriable db t f /\
        db' = db <|findings := <[t := revived deadline f]> (findings db)|> /\
        forall i x, i <> job -> jobs db !! i = Some x -> active_verify_key x <> Some t
    end.
Proof.
  intros Hi. unfold retry_verify_target.
  destruct (j_target_finding_id row) as [t|]; [|eexists _, db; done].
  rewrite (tx_bind_run _ _ _ _ _ (finding_get_raw_keyed db t Hi)).
  destruct (findings db !! t) as [f|] eqn:Hf; [|eexists _, db; done].
  destruct (Z.eqb_spec (fr_repo_id f) (j_repo_id row)) as [Hr|]; cbn [negb]; [|eexists _, db; done].
  match goal with |- context [(?m ≫= _) db] =>
    assert ((exists c, m db = Ok (Some c, db) /\ (forall t, c <> TargetChangedBeforeRetry t) /\
                       c <> JobChangedBeforeRetry) \/
            (m db = Ok (None, db) /\ retriable db t f /\
             finding_apply (fr_state f) RetryVerification = Ok Validating)) as Hst end.
  { unfold retriable. destruct (fr_state f); try (left; eexists; done); [right; eauto|].
    destruct (is_deadline_dismissed_without_terminal_verdict t db) as [[b d]|] eqn:Hb; [|done].
    assert (d = db) as -> by (unfold is_deadline_dismissed_without_terminal_verdict in Hb; by tx_inv Hb).
    rewrite (tx_bind_run _ _ _ _ _ Hb). destruct b; [right; eauto|left; eexists; done]. }
  destruct Hst as [(c & Hc & Hc1 & Hc2)|(Hn & Hre & Hap)].
  { rewrite (tx_bind_run _ _ _ _ _ Hc). exists (Some c), db. done. }
  rewrite (tx_bind_run _ _ _ _ _ Hn). unfold tx_first.
  match goal with |- context [sql_select ?P (jobs _)] => destruct (head (sql_select P (jobs db))) as [a|] eqn:Ha end.
  { exists (Some (ActiveVerifyJob t (j_id a))), db. split; [|done]. unfold mbind, tx_bind. by rewrite Ha. }
  match goal with |- context [((fun db => Ok (head (sql_select ?P (jobs db)), db)) ≫= _) _] =>
    rewrite (tx_bind_run (fun db => Ok (head (sql_select P (jobs db)), db)) _ db None db) by (by rewrite Ha) end.
  rewrite (tx_bind_run _ _ _ _ _ (retry_verification_run db _ t deadline f Hi Hf Hr Hap)).
  eexists _, _. split; [reflexivity|]. exists t, f. do 4 (split; [done|]).
  intros i x Hne Hx Hkey. pose proof (proj1 (head_select_None _ _) Ha i x Hx) as Hno.
  unfold active_verify_key in Hkey. case_match eqn:E; [|done]. bool_prop.
  pose proof (g_job_id _ _ Hi _ _ Hx). rewrite Hkey, bool_decide_eq_true_2 in Hno by done.
  cbn in Hno. rewrite Z.eqb_refl in Hno. cbn in Hno.
  destruct (active_state (j_state x)); [|done]. cbn in Hno. bool_prop. congruence.
Qed.

Lemma sql_exists_by_id db job (Q : JobRow -> bool) :
  Inv db ->
  sql_exists (fun j => (j_id j =? job) && Q j) (jobs db) =
    match jobs db !! job with Some j => Q j | None => false end.
Proof.
  intros Hi. destruct (sql_exists _ _) eqn:E.
  - apply sql_exists_true in E as (i & j & Hj & HP). bool_prop.
    rewrite (g_job_id _ _ Hi _ _ Hj) in *. subst i. by rewrite Hj.
  - destruct (jobs db !! job) as [j|] eqn:Hj; [|done].
    pose proof (proj1 (sql_exists_false _ _) E _ _ Hj) as Hq. cbv beta in Hq.
    by rewrite (g_job_id _ _ Hi _ _ Hj), Z.eqb_refl in Hq.
Qed.

(** What a retry that goes through has found and done. *)
Record retried (db : Db) (job now deadline : Z) (row : JobRow) (db' : Db) (j : JobRow) : Prop := {
  rt_job : jobs db !! job = Some j;
  rt_failed : j_state j = Failed;
  rt_legacy : legacy_kind (j_kind j) = true;
  rt_campaign : j_campaign_id j = None;
  rt_phase : phase_finding_target db j = false;
  rt_row : row = requeued now j;
  rt_jobs : jobs db' = <[job := row]> (jobs db);
  rt_scan : j_kind j <> Verify -> findings db' = findings db;
  rt_verify : j_kind j = Verify -> exists t f, j_target_finding_id j = Some t /\
    findings db !! t = Some f /\ retriable db t f /\
    findings db' = <[t := revived deadline f]> (findings db);
}.

(** operator retry, on every branch.  On any database that satisfies the
    invariant it succeeds, never tripping over the index that allows a finding
    one active verification: either the job is a failed legacy job, which goes
    back to the queue with its attempts reset, and a verify job's finding is
    put back under validation with the new deadline, provided it still is or
    only the deadline dismissed it; or the answer says why not and nothing
    changes.  The two conflicts of a concurrent change cannot occur. *)
Theorem retry_failed_spec db job now deadline :
  Inv db ->
  exists o db', Jobs.retry_failed job now deadline db = Ok (o, db') /\
    match o with
    | Retried row => exists j, retried db job now deadline row db' j
    | RetryNotFound => db' = db /\ jobs db !! job = None
    | RetryUnsupportedKind => db' = db
    | RetryConflictWith c =>
        db' = db /\ (forall t, c <> TargetChangedBeforeRetry t) /\ c <> JobChangedBeforeRetry
    end.
Proof.
  intros Hi. unfold Jobs.retry_failed, transaction.
  rewrite (tx_bind_run _ _ _ db db) by done. unfold tx_exists.
  rewrite (tx_bind_run (fun d => Ok (sql_exists _ (jobs d), d)) _ db _ db) by reflexivity.
  rewrite (sql_exists_by_id _ _ _ Hi).
  destruct (jobs db !! job) as [j|] eqn:Hj.
  2: { rewrite (tx_bind_run _ _ _ _ _ (get_raw_keyed _ _ Hi)), Hj. by eexists _, db. }
  destruct (sql_some (j_campaign_id j) || phase_finding_target db j) eqn:Hp; [by eexists _, db|].
  apply orb_false_iff in Hp as [Hc Hph].
  rewrite (tx_bind_run _ _ _ _ _ (get_raw_keyed _ _ Hi)), Hj.
  destruct (legacy_kind (j_kind j)) eqn:Hk; cbn [negb]; [|by eexists _, db].
  case_bool_decide as Hs; cbn [negb]; [|by eexists _, db].
  assert (j_campaign_id j = None) as Hcn by (by destruct (j_campaign_id j)).
  case_bool_decide as Hv.
  - destruct (retry_verify_target_run db j job deadline Hi) as (o & d & Ho & Hspec).
    rewrite (tx_bind_run _ _ _ _ _ Ho). destruct o as [c|];
      [exists (RetryConflictWith c), db; split; [done|]; by destruct Hspec|].
    destruct Hspec as (t & f & Ht & Hf & Hre & -> & Huniq).
    match goal with |- context [(Jobs.requeue_failed _ _ _ ≫= _) ?d] =>
      pose proof (requeue_failed_run d job now j (g_job_id _ _ Hi) (g_unique _ _ Hi) Hj Hs Hk) as Hq end.
    rewrite (tx_bind_run _ _ _ _ _ (Hq ltac:(intros i x t' Hne Hx _ Ht'; rewrite Ht in Ht';
      injection Ht' as <-; by eapply Huniq))).
    eexists _, _. split; [reflexivity|]. exists j. split; try done. intros _. by exists t, f.
  - rewrite (tx_bind_run (mret None) _ db None db) by reflexivity. cbv beta iota.
    rewrite (tx_bind_run _ _ _ _ _ (requeue_failed_run db job now j (g_job_id _ _ Hi) (g_unique _ _ Hi)
      Hj Hs Hk ltac:(done))).
    eexists _, _. split; [reflexivity|]. exists j. by split.
Qed.

Lemma retry_failed_spec_witness :
  exists row db' j, Jobs.retry_failed 3 8 2000 (h_db (handle_after verify_failed)) = Ok (Retried row, db') /\
    retried (h_db (handle_after verify_failed)) 3 8 2000 row db' j.
Proof.
  destruct (retry_failed_spec (h_db (handle_after verify_failed)) 3 8 2000 (handle_after_Inv verify_failed))
    as (o & db' & H & Ho).
  assert (match Jobs.retry_failed 3 8 2000 (h_db (handle_after verify_failed)) with
          | Ok (Retried _, _) => true | _ => false end = true) as V by (vm_compute; reflexivity).
  rewrite H in V. destruct o as [row| | |]; try discriminate V.
  destruct Ho as (j & Hj). exists row, db', j. split; [exact H|exact Hj].
Defined.

(** The second queued scan is the one a further worker gets. *)
Lemma claim_raw_takes_the_first_waiting_job_witness :
  exists r db' c j,
    claim_raw no_phase (a_claim [2] 4) (h_db (handle_after (scanning true None))) = Ok (r, db') /\
    r = Some c /\ waiting (a_claim [2] 4) j /\ j_id j = 2 /\
    cl_job c = lease_row (a_claim [2] 4) 604 j.
Proof.
  destruct (claim_raw no_phase (a_claim [2] 4) (h_db (handle_after (scanning true None)))) as [[r db']|e] eqn:E;
    [|vm_compute in E; discriminate E].
  destruct r as [c|]; [|vm_compute in E; discriminate E].
  destruct (claim_raw_takes_the_first_waiting_job no_phase (a_claim [2] 4) _ _ _
              (g_job_id _ _ (handle_after_Inv (scanning true None))) E)
    as (j & Hj & Hw & Hmin & Hc & _).
  exists (Some c), db', c, j. do 2 (split; [reflexivity|]). split; [exact Hw|]. split; [|exact Hc].
  transitivity (j_id (cl_job c)); [rewrite Hc; reflexivity|].
  apply (f_equal (fun x => match x with Ok (Some c, _) => j_id (cl_job c) | _ => 0 end)) in E.
  cbv beta iota in E. rewrite <- E. vm_compute. reflexivity.
Defined.
