(* ===== verification/Liveness.v ===== *)
(** * The queue drains

    A worker that keeps asking is served: as long as claims are well formed,
    every claim takes a job while one waits, so the queue is empty after as
    many claims as jobs waited, and each of those jobs is leased. *)

From S2P Require Import Prelude Sql Domain StateMachine Vocabulary SchedPolicy Store TxLogic Scope Repos Findings Jobs Issuer Claim Reports Recovery Invariant Preservation System Fixture.
From Stdlib Require Import ZArith Lia.
From stdpp Require Import base gmap sets list strings relations.
Local Open Scope Z_scope.

(** A request the scheduler has no reason to refuse. *)
Record well_formed (db : Db) (req : ClaimRequest) : Prop := {
  wf_worker : is_Some (workers db !! cr_worker_id req);
  wf_policy : policy_invalid (cr_policy req) = false;
  wf_lease : is_Some (checked_add (cr_now req) (cr_legacy_lease_seconds req));
  wf_fresh : forall i j, jobs db !! i = Some j -> j_capability_hash j <> Some (cr_capability_hash req);
}.

(** What a lease hands out with the job is there. *)
Definition serviceable (db : Db) (j : JobRow) : Prop :=
  is_Some (registered_repos db !! j_repo_id j) /\
  (j_kind j = Verify -> exists target f, j_target_finding_id j = Some target /\
     findings db !! target = Some f /\ fr_repo_id f = j_repo_id j).

(** The jobs waiting for kinds [ks]. *)
Definition waits (ks : list JobKind) (j : JobRow) : Prop :=
  j_state j = Queued /\ j_campaign_id j = None /\ j_kind j ∈ ks /\ legacy_kind (j_kind j) = true.
#[export] Instance waits_dec ks j : Decision (waits ks j).
Proof. unfold waits. apply _. Defined.

Definition queue (ks : list JobKind) (db : Db) : gmap Z JobRow := filter (fun p => waits ks p.2) (jobs db).

Lemma lookup_queue ks db i j : queue ks db !! i = Some j <-> jobs db !! i = Some j /\ waits ks j.
Proof. apply map_lookup_filter_Some. Qed.

(** The lease a request takes on a row. *)
Definition leased (req : ClaimRequest) (j : JobRow) : JobRow :=
  lease_row req (cr_now req + cr_legacy_lease_seconds req) j.

(** Replacing a row by one with the same key keeps an index unique. *)
Lemma unique_on_same {K} `{EqDecision K} (key : JobRow -> option K) t i j j' :
  t !! i = Some j -> key j' = key j -> unique_on key t = true -> unique_on key (<[i := j']> t) = true.
Proof.
  intros Hj Hk Hu. apply unique_on_replace; [|done]. intros k jk c Hne Hjk Hc. rewrite Hk. intros Hc'.
  rewrite unique_on_true in Hu. apply Hne. by eapply (Hu k i).
Qed.

Lemma lease_unique db req j :
  Inv db -> jobs db !! j_id j = Some j -> j_state j = Queued -> well_formed db req ->
  jobs_unique (<[j_id j := leased req j]> (jobs db)) = true.
Proof.
  intros Hi Hj Hq Hw. pose proof (g_unique _ _ Hi) as Hu. unfold jobs_unique in *.
  rewrite !andb_true_iff in *. destruct Hu as [[U1 U2] U3]. split_and!.
  - apply unique_on_replace; [|done]. intros k jk c _ Hk Hc [= <-]. by apply (wf_fresh _ _ Hw k jk Hk).
  - apply (unique_on_same _ _ _ j); [done| |done]. unfold active_verify_key. cbn. by rewrite Hq.
  - apply (unique_on_same _ _ _ j); [done| |done]. unfold active_drilldown_key. cbn. by rewrite Hq.
Qed.

(** ** One claim *)

Section Claims.
Context (phase_tail : JobRow -> Tx Claimed).

Lemma claim_raw_serves db req :
  Inv db -> well_formed db req -> queue (cr_kinds req) db <> ∅ ->
  exists j, queue (cr_kinds req) db !! j_id j = Some j /\
    (forall i k, queue (cr_kinds req) db !! i = Some k -> before j k) /\
    claim_raw phase_tail req db =
      Ok (Some {| cl_job := leased req j; cl_assigned_units := []; cl_resumed := false |},
          db <|jobs := <[j_id j := leased req j]> (jobs db)|>).
Proof.
  intros Hi Hw Hne. apply map_choose in Hne as (i0 & j0 & [H0 W0]%lookup_queue).
  pose proof (select_claim_legacy db req (claimable req)) as Hsel.
  destruct (select_claim db req (claimable req) []) as [j|] eqn:Es.
  2: { specialize (Hsel i0 j0 H0). apply (candidate_waiting db req) in W0. congruence. }
  destruct Hsel as ((i & Hj) & Wj%candidate_waiting & Hmin). pose proof (g_job_id _ _ Hi _ _ Hj) as <-.
  exists j. split; [by apply lookup_queue|]. split.
  { intros k jk [Hk Wk]%lookup_queue. apply (Hmin k jk Hk). by apply candidate_waiting. }
  unfold claim_raw, claim_filtered. fold (claimable req).
  destruct (claimable req) as [|k0 ks] eqn:Hks.
  { destruct W0 as (_ & _ & Hk & Hl). assert (j_kind j0 ∈ claimable req) as Hin by by apply elem_of_claimable.
    rewrite Hks in Hin. by apply not_elem_of_nil in Hin. }
  rewrite <- Hks in *. rewrite (wf_policy _ _ Hw). destruct (wf_lease _ _ Hw) as [lease Hl]. rewrite Hl.
  apply to_i64_Some in Hl as [-> _].
  assert (claim_update req (cr_now req + cr_legacy_lease_seconds req) (claimable req) [] db =
    Ok (Some (leased req j), db <|jobs := <[j_id j := leased req j]> (jobs db)|>)) as Hu.
  { unfold claim_update. rewrite (tx_bind_run _ _ _ _ _ (eq_refl : tx_get db = Ok (db, db))), Es.
    rewrite (proj2 (fk_true _ _)) by (intros k [= <-]; apply (wf_worker _ _ Hw)). cbn [negb].
    destruct Wj as (Hq & Hc & Hk & Hlk).
    assert (sql_update (fun r => j_id r =? j_id j) (lease_row req (cr_now req + cr_legacy_lease_seconds req))
      (jobs db) = <[j_id j := leased req j]> (jobs db)) as Et
      by (apply sql_update_by_id; [apply (g_job_id _ _ Hi)|done]).
    rewrite (tx_bind_run _ _ _ (sql_count (fun r => j_id r =? j_id j) (jobs db))
      (db <|jobs := <[j_id j := leased req j]> (jobs db)|>)).
    - pose proof (g_job _ _ Hi _ _ Hj) as (_ & Ha & _). specialize (Ha Hc Hlk). rewrite Hq in Ha.
      unfold MAX_ATTEMPTS in Ha. rewrite (proj2 (Z.ltb_ge _ _)) by (unfold u32_max; lia). done.
    - apply update_jobs_Ok. rewrite Et. split; [by apply lease_unique|done]. }
  cbn [sql_kind_list filter]. rewrite (tx_bind_run _ _ _ _ _ Hu). cbn.
  destruct Wj as (_ & -> & _). done.
Qed.

Lemma first_by_id {R} (table : Db -> gmap Z R) (P : R -> bool) db i r :
  table db !! i = Some r -> P r = true -> exists r', tx_first table P db = Ok (Some r', db).
Proof.
  intros Hr HP. unfold tx_first. destruct (head _) as [r'|] eqn:E; [by exists r'|].
  pose proof (proj1 (head_select_None _ _) E i r Hr). congruence.
Qed.

(** While jobs wait, a claim takes the first and changes nothing else. *)
Lemma claim_serves db req :
  Inv db -> well_formed db req -> queue (cr_kinds req) db <> ∅ ->
  (forall i j, queue (cr_kinds req) db !! i = Some j -> serviceable db j) ->
  exists j c, queue (cr_kinds req) db !! j_id j = Some j /\
    (forall i k, queue (cr_kinds req) db !! i = Some k -> before j k) /\
    cl_job (ce_claimed c) = leased req j /\
    claim phase_tail req db = Ok (Some c, db <|jobs := <[j_id j := leased req j]> (jobs db)|>).
Proof.
  intros Hi Hw Hne Hs. destruct (claim_raw_serves db req Hi Hw Hne) as (j & Hj & Hmin & Hraw).
  destruct (Hs _ _ Hj) as ((repo & Hrepo) & Hv).
  set (db1 := db <|jobs := <[j_id j := leased req j]> (jobs db)|>) in *.
  destruct (first_by_id registered_repos (fun r => r_id r =? j_repo_id j) db1 _ repo Hrepo) as (row & Hrow).
  { apply Z.eqb_eq. by apply (g_repo_id _ _ Hi). }
  assert (exists c, cl_job (ce_claimed c) = leased req j /\ claim phase_tail req db = Ok (Some c, db1)) as (c & Hc & Hcl);
    [|by exists j, c].
  unfold claim, immediate, transaction. unfold mbind at 1, tx_bind at 1.
  rewrite (tx_bind_run _ _ _ _ _ Hraw). cbv zeta. cbn [cl_job].
  change (j_repo_id (leased req j)) with (j_repo_id j). change (j_kind (leased req j)) with (j_kind j).
  change (j_target_finding_id (leased req j)) with (j_target_finding_id j).
  unfold Repos.get_raw at 1. rewrite (tx_bind_run _ _ _ _ _ Hrow). case_bool_decide as Hk.
  - destruct (Hv Hk) as (target & f & -> & Hf & Hfr).
    destruct (first_by_id findings (fun x => (fr_id x =? target) && (fr_repo_id x =? j_repo_id j)) db1 target f Hf)
      as (f' & Hf').
    { rewrite Hfr, Z.eqb_refl, (g_finding_id _ _ Hi _ _ Hf), Z.eqb_refl. done. }
    unfold get_selected. rewrite (tx_bind_run _ _ _ _ _ Hf').
    eexists; split; [|reflexivity]; reflexivity.
  - eexists; split; [|reflexivity]; reflexivity.
Qed.

(** ** Many claims *)

(** The lease of [req] takes exactly its row out of the queue. *)
Lemma queue_after ks req j db :
  queue ks (db <|jobs := <[j_id j := leased req j]> (jobs db)|>) = delete (j_id j) (queue ks db).
Proof.
  unfold queue. cbn. rewrite map_filter_insert_False by (intros (H & _); done). by rewrite map_filter_delete.
Qed.

Lemma exec_claim req h :
  Inv (h_db h) -> well_formed (h_db h) req -> queue (cr_kinds req) (h_db h) <> ∅ ->
  (forall i j, queue (cr_kinds req) (h_db h) !! i = Some j -> serviceable (h_db h) j) ->
  exists j, queue (cr_kinds req) (h_db h) !! j_id j = Some j /\
    (forall i k, queue (cr_kinds req) (h_db h) !! i = Some k -> before j k) /\
    h_db (exec phase_tail (OpClaim req) h) = (h_db h) <|jobs := <[j_id j := leased req j]> (jobs (h_db h))|>.
Proof.
  intros Hi Hw Hne Hs. destruct (claim_serves _ _ Hi Hw Hne Hs) as (j & c & Hj & Hmin & _ & E).
  exists j. split_and!; [done..|]. cbn [exec]. unfold with_conn. by rewrite E.
Qed.

Lemma exec_claim_idle req h :
  queue (cr_kinds req) (h_db h) = ∅ -> h_db (exec phase_tail (OpClaim req) h) = h_db h.
Proof.
  intros Hq. cbn [exec]. unfold with_conn. destruct (claim phase_tail req (h_db h)) as [[c db]|e] eqn:E; [|done]. cbn.
  apply (proj1 (immediate_Ok _ _ _ _)), tx_bind_Ok in E as (r & d & Hr & E).
  apply claim_raw_cases in Hr as [(-> & -> & _)|(j & n & Hsel & _)]; [by tx_inv E|]. exfalso.
  pose proof (select_claim_legacy (h_db h) req (claimable req)) as Hs. rewrite Hsel in Hs.
  destruct Hs as ((i & Hj) & Hw%candidate_waiting & _).
  assert (queue (cr_kinds req) (h_db h) !! i = Some j) as Hin by by apply lookup_queue. by rewrite Hq in Hin.
Qed.

(** A claim leaves the others well formed. *)
Lemma well_formed_after db req j req' :
  cr_capability_hash req <> cr_capability_hash req' -> well_formed db req' ->
  well_formed (db <|jobs := <[j_id j := leased req j]> (jobs db)|>) req'.
Proof.
  intros Hne [? ? ? Hf]. constructor; cbn; [done..|].
  intros i r [[<- <-]|[_ Hr]]%lookup_insert_Some; [cbn; congruence|by eapply Hf].
Qed.

(** C15: the queue drains.  Let every job that waits for kinds [ks] be
    serviceable: its repository is registered and, if it is a verification, it
    names a finding of that repository.  Let a registered worker make [n]
    well-formed claims for these kinds, with fresh capabilities, while [n] or
    fewer jobs wait.  Then no job is left waiting: each of the jobs is leased,
    to the worker and under the capability of one of the claims, and no other
    job has changed.  (The scheduler always picks the first waiting job, so one
    that is not serviceable fails every claim until it is cancelled: the
    hypothesis is needed.) *)
Theorem queue_drains ks reqs h :
  Inv (h_db h) ->
  Forall (fun req => cr_kinds req = ks /\ well_formed (h_db h) req) reqs ->
  NoDup (cr_capability_hash <$> reqs) ->
  (forall i j, queue ks (h_db h) !! i = Some j -> serviceable (h_db h) j) ->
  (size (queue ks (h_db h)) <= length reqs)%nat ->
  let db' := h_db (exec_all phase_tail (OpClaim <$> reqs) h) in
  queue ks db' = ∅ /\
  (forall i j, queue ks (h_db h) !! i = Some j ->
     exists req, req ∈ reqs /\ jobs db' !! i = Some (leased req j)) /\
  (forall i, queue ks (h_db h) !! i = None -> jobs db' !! i = jobs (h_db h) !! i).
Proof.
  revert h. induction reqs as [|req reqs IH]; intros h Hi Hreqs Hnd Hs Hn db'.
  { assert (queue ks (h_db h) = ∅) as Hq by (apply map_size_empty_inv; cbn in Hn; lia).
    split_and!; [done| |done]. intros i j. by rewrite Hq. }
  apply Forall_cons_1 in Hreqs as [[Hks Hw] Hreqs]. apply list.NoDup_cons in Hnd as [Hfresh Hnd].
  set (h1 := exec phase_tail (OpClaim req) h).
  change db' with (h_db (exec_all phase_tail (OpClaim <$> reqs) h1)).
  assert (Inv (h_db h1)) as Hi1 by by apply exec_ok.
  destruct (decide (queue ks (h_db h) = ∅)) as [Hq|Hq].
  - assert (h_db h1 = h_db h) as E1 by (apply exec_claim_idle; by rewrite Hks).
    destruct (IH h1) as (Hq' & Hl & Ho); rewrite ?E1; try done; [by rewrite Hq, map_size_empty; lia|].
    rewrite E1, Hq in Hl, Ho. split_and!; [done|intros i j; by rewrite Hq|]. intros i _. by apply Ho.
  - rewrite <- Hks in Hq, Hs. destruct (exec_claim req h Hi Hw Hq Hs) as (j0 & Hj0 & _ & E1). fold h1 in E1.
    rewrite Hks in Hq, Hs, Hj0. pose proof (queue_after ks req j0 (h_db h)) as Hq1. rewrite <- E1 in Hq1.
    destruct (IH h1) as (Hq' & Hl & Ho); try done.
    + apply list.Forall_forall. intros req' Hin. destruct (proj1 (list.Forall_forall _ _) Hreqs req' Hin) as [Hk' Hw'].
      split; [done|]. rewrite E1. apply well_formed_after; [|done]. intros Heq. apply Hfresh. rewrite Heq.
      by apply list_elem_of_fmap_2.
    + intros i j. rewrite Hq1. intros [_ Hj]%lookup_delete_Some. rewrite E1. by apply (Hs i j).
    + rewrite Hq1. rewrite map_size_delete_Some by by eexists. cbn in Hn. lia.
    + split; [done|]. split.
      * intros i j Hj. destruct (decide (i = j_id j0)) as [->|Hne].
        -- exists req. split; [by left|]. rewrite Ho by (rewrite Hq1; apply lookup_delete_eq). rewrite E1. cbn.
           rewrite lookup_insert_eq. by simplify_eq.
        -- destruct (Hl i j) as (req' & Hin & Hr); [by rewrite Hq1, lookup_delete_ne|].
           exists req'. split; [by right|done].
      * intros i Hn0. assert (i <> j_id j0) by congruence.
        rewrite Ho by (by rewrite Hq1, lookup_delete_ne). rewrite E1. cbn. by rewrite lookup_insert_ne.
Qed.

End Claims.

(** The second queued scan is leased by one more claim. *)
Lemma queue_drains_witness :
  let h := handle_after (scanning true None) in
  queue [Scan; Verify] (h_db (exec_all no_phase (OpClaim <$> [a_claim [2] 4]) h)) = ∅.
Proof.
  intros h. pose proof (fun P => rows_check (jobs (h_db h)) P) as Hall.
  apply (queue_drains no_phase [Scan; Verify] [a_claim [2] 4] h (handle_after_Inv _)).
  - apply Forall_cons_2; [|apply Forall_nil_2]. split; [reflexivity|]. constructor.
    + apply (bool_decide_unpack _). vm_compute. exact I.
    + vm_compute. reflexivity.
    + vm_compute. by eexists.
    + intros i j Hj. apply (Hall (fun j => bool_decide (j_capability_hash j <> Some [2]))) in Hj;
        [|vm_compute; reflexivity]. by apply bool_decide_eq_true in Hj.
  - repeat constructor. apply not_elem_of_nil.
  - intros i j [Hj (Hq & _)]%lookup_queue.
    apply (Hall (fun j => bool_decide (j_state j = Queued -> j_kind j = Scan /\
      is_Some (registered_repos (h_db h) !! j_repo_id j)))) in Hj; [|vm_compute; reflexivity].
    apply bool_decide_eq_true in Hj. destruct (Hj Hq) as [Hk Hr]. split; [exact Hr|]. by rewrite Hk.
  - assert (size (queue [Scan; Verify] (h_db h)) = 1%nat) as -> by (vm_compute; reflexivity). cbn. lia.
Defined.
