(* ===== verification/FindingTheorems.v ===== *)
(** * What the finding operations do

    Functional specifications of the flip after a successful scan, the verdict
    rollup, the validating deadline, the operator's decision, and the keyword
    sanitiser. *)

From S2P Require Import Prelude Sql Domain StateMachine Vocabulary SchedPolicy Store TxLogic Scope Repos Findings Jobs Issuer Claim Reports Recovery Invariant Preservation System Fixture JobTheorems.
From Stdlib Require Import ZArith Lia.
From stdpp Require Import base gmap sets list strings relations.
Local Open Scope Z_scope.

(** ** After a successful scan *)

(** What becomes of one finding when scan [job] of [repo] succeeds. *)
Definition after_scan (repo job : Z) (require_approval : bool) (deadline now : Z) (f : FindingRow)
    : FindingRow :=
  if negb ((fr_job_id f =? job) && (fr_repo_id f =? repo) && bool_decide (fr_state f = Pending)) then f
  else if fr_verification_required f then
    f <|fr_state := Validating|> <|fr_validating_deadline := Some deadline|>
  else if require_approval then f <|fr_state := AwaitingApproval|>
  else f <|fr_state := Confirmed|> <|fr_confirmed_at := Some now|>.

(** The flip always succeeds; it moves exactly the pending findings of that
    scan and counts them. *)
Lemma transition_scan_run repo job require_approval deadline now db :
  transition_scan_findings_after_success repo job require_approval deadline now db =
    Ok (sql_count (fun f => (fr_job_id f =? job) && (fr_repo_id f =? repo) &&
                            bool_decide (fr_state f = Pending)) (findings db),
        db <|findings := after_scan repo job require_approval deadline now <$> findings db|>).
Proof.
  destruct (transition_scan_runs repo job require_approval deadline now db)
    as (n1 & n2 & d1 & d2 & H1 & H2 & ->).
  apply update_findings_Ok in H1 as (-> & ->), H2 as (-> & ->). cbn [findings over]. f_equal. f_equal.
  - rewrite sql_count_update.
    match goal with |- sql_count ?P _ + sql_count ?Q _ = _ =>
      rewrite (sql_count_ext Q (fun f => (fr_job_id f =? job) && fr_verification_required f &&
        bool_decide (fr_state f = Pending) && (fr_repo_id f =? repo))) end.
    2: { intros i f _. destruct (_ && negb _ && _ && _) eqn:E; [|done]. bool_prop.
         assert (fr_verification_required f = false) as Hv by done.
         destruct require_approval; cbn; by rewrite Hv, !andb_false_r. }
    rewrite sql_count_split by (intros f Hf1 Hf2; bool_prop; congruence).
    apply sql_count_ext. intros i f _. destruct (fr_job_id f =? job), (fr_verification_required f),
      (fr_repo_id f =? repo); cbn; by rewrite ?andb_true_r, ?andb_false_r, ?orb_false_r.
  - match goal with |- ?l = ?r => enough (findings l = findings r) as E
      by (change (db <|findings := findings l|> = db <|findings := findings r|>); by rewrite E) end.
    apply map_eq. intros i. cbn [findings over]. rewrite !lookup_sql_update, lookup_fmap.
    destruct (findings db !! i) as [f|]; [|done]. cbn. f_equal. unfold after_scan.
    destruct (fr_job_id f =? job) eqn:Ej, (fr_verification_required f) eqn:Ev, (fr_repo_id f =? repo) eqn:Er,
      (bool_decide (fr_state f = Pending)) eqn:Es; cbn; rewrite ?Ej, ?Ev, ?Er, ?Es; cbn; try done.
    destruct require_approval; cbn; by rewrite Ev, andb_false_r.
Qed.

(** ** Verdicts *)

(** Some verdict of [o] on finding [id] is on record. *)
Definition has_outcome (db : Db) (id : Z) (o : Outcome) : bool :=
  sql_exists (fun v => (v_finding_id v =? id) && bool_decide (v_verdict v = o))
    (finding_verifications db).

Lemma has_verdict_for_run db repo id f o :
  Inv db -> findings db !! id = Some f -> fr_repo_id f = repo ->
  has_verdict_for repo id o db = Ok (has_outcome db id o, db).
Proof.
  intros Hi Hf Hr. unfold has_verdict_for, tx_exists, mbind, tx_bind, mret, tx_ret.
  assert (sql_exists (fun f => (fr_id f =? id) && (fr_repo_id f =? repo)) (findings db) = true) as ->.
  { apply sql_exists_true. exists id, f. split; [done|].
    by rewrite (g_finding_id _ _ Hi _ _ Hf), Hr, !Z.eqb_refl. }
  by rewrite andb_true_r.
Qed.

(** The decision of the rollup. *)
Definition decision (db : Db) (id : Z) (terminal_inconclusive require_approval : bool) (f : FindingRow)
    : option FindingState :=
  if negb (bool_decide (fr_state f = Validating)) then None
  else if terminal_inconclusive || has_outcome db id ODismissed then Some Dismissed
  else if has_outcome db id OConfirmed then Some (if require_approval then AwaitingApproval else Confirmed)
  else None.

(** the verdict rollup.  A validating finding is dismissed as soon as any
    verifier dismissed it or the submitted verdict is a terminal inconclusive
    one, whatever confirmations are on record; otherwise any confirmation
    confirms it, or parks it for approval when the repository requires that;
    otherwise it keeps validating.  A finding in any other state is left
    alone, and one of another repository is not found.  The decision is
    stamped with the time and nothing else changes. *)
Theorem roll_up_verdicts_for_finding_spec db repo id terminal_inconclusive require_approval now :
  Inv db ->
  roll_up_verdicts_for_finding repo id terminal_inconclusive require_approval now db =
    match findings db !! id with
    | Some f =>
        if fr_repo_id f =? repo then
          Ok match decision db id terminal_inconclusive require_approval f with
             | None => (None, db)
             | Some s => (Some s, db <|findings := <[id := rollup_stamp s now f]> (findings db)|>)
             end
        else Err (Sqlite QueryReturnedNoRows)
    | None => Err (Sqlite QueryReturnedNoRows)
    end.
Proof.
  intros Hi. unfold roll_up_verdicts_for_finding.
  rewrite (tx_bind_run _ _ _ _ _ (get_selected_keyed db repo id Hi)).
  destruct (findings db !! id) as [f|] eqn:Hf; [|done].
  destruct (Z.eqb_spec (fr_repo_id f) repo) as [Hr|]; [|done].
  rewrite !(tx_bind_run _ _ _ _ _ (has_verdict_for_run db repo id f _ Hi Hf Hr)).
  rewrite (transition_bind _ _ _ _ (roll_up_verdicts_eq _ _)). unfold decision.
  cbn [StateMachine.terminal_inconclusive StateMachine.has_dismissed StateMachine.has_confirmed StateMachine.require_approval].
  match goal with |- (match ?o with Some _ => _ | None => _ end) db = _ => destruct o as [s|]; [|done] end.
  unfold update_findings, mbind, tx_bind.
  rewrite (sql_update_picks _ _ _ id) by (apply finding_picks; [done|]; intros g Hg; by bool_prop).
  by rewrite Hf, (g_finding_id _ _ Hi _ _ Hf), Hr, !Z.eqb_refl.
Qed.

Lemma roll_up_verdicts_for_finding_spec_witness :
  exists f, findings (h_db (handle_after (scanned true None))) !! 1 = Some f /\
    roll_up_verdicts_for_finding 1 1 true false 9 (h_db (handle_after (scanned true None))) =
      Ok (Some Dismissed, (h_db (handle_after (scanned true None))) <|findings :=
        <[1 := rollup_stamp Dismissed 9 f]> (findings (h_db (handle_after (scanned true None))))|>).
Proof.
  destruct (findings (h_db (handle_after (scanned true None))) !! 1) as [f|] eqn:E;
    [|vm_compute in E; discriminate E].
  exists f. split; [reflexivity|].
  rewrite (roll_up_verdicts_for_finding_spec _ 1 1 true false 9 (handle_after_Inv (scanned true None))), E.
  assert ((fr_repo_id f =? 1) = true) as ->
    by (apply (row_value _ _ _ (fun f => fr_repo_id f =? 1) _ E); vm_compute; reflexivity).
  assert (bool_decide (fr_state f = Validating) = true) as Hs
    by (apply (row_value _ _ _ (fun f => bool_decide (fr_state f = Validating)) _ E); vm_compute; reflexivity).
  unfold decision. rewrite Hs. reflexivity.
Defined.

(** ** The operator's decision *)

Definition approved (by_cn : str) (now : Z) (f : FindingRow) : FindingRow :=
  f <|fr_state := Confirmed|> <|fr_approved_at := Some now|> <|fr_approved_by_cn := Some by_cn|>.

Definition rejected_row (by_cn : str) (now : Z) (f : FindingRow) : FindingRow :=
  f <|fr_state := Dismissed|> <|fr_dismissed_at := Some now|> <|fr_rejected_at := Some now|>
    <|fr_rejected_by_cn := Some by_cn|>.

(** The outcome of a decision that turns an awaiting finding into [g f]. *)
Definition decided (db : Db) (repo id : Z) (g : FindingRow -> FindingRow) : ApprovalOutcome * Db :=
  match findings db !! id with
  | Some f =>
      if negb (fr_repo_id f =? repo) then (ApprovalNotFound, db)
      else if bool_decide (fr_state f = AwaitingApproval)
      then (Applied, db <|findings := <[id := g f]> (findings db)|>)
      else (NotPending, db)
  | None => (ApprovalNotFound, db)
  end.

(** The guarded update both decisions run. *)
Lemma decide_update db repo id g :
  Inv db ->
  let P f := (fr_id f =? id) && bool_decide (fr_state f = AwaitingApproval) && (fr_repo_id f =? repo) in
  update_findings P g db =
    Ok match (decided db repo id g).1 with
       | Applied => (1, (decided db repo id g).2)
       | _ => (0, db)
       end.
Proof.
  intros Hi P. unfold update_findings, decided.
  assert (picks P (findings db) id) as Hp by (apply finding_picks; [done|]; intros f Hf; subst P; by bool_prop).
  rewrite (sql_count_picks _ _ _ Hp), (sql_update_picks _ _ _ _ Hp). subst P. cbv beta.
  destruct (findings db !! id) as [f|] eqn:Hf; [|by rewrite set_findings_same].
  rewrite (g_finding_id _ _ Hi _ _ Hf), Z.eqb_refl. cbn [andb].
  destruct (fr_repo_id f =? repo); rewrite ?andb_false_r, ?andb_true_r; cbn [negb];
    [case_bool_decide|]; by rewrite ?set_findings_same.
Qed.

(** approval and rejection.  Either decision applies to a finding exactly
    when it awaits approval in that repository, stamping who decided and when;
    a finding in another state is reported as not pending, one that is absent
    or belongs to another repository as not found, both without a change; and
    a rejection needs an operator's scope. *)
Theorem approval_decisions_spec db repo scope id by_cn now :
  Inv db ->
  Findings.approve repo id by_cn now db = Ok (decided db repo id (approved by_cn now)) /\
  Findings.reject scope id by_cn now db =
    (if rs_operator scope then Ok (decided db (rs_repo_id scope) id (rejected_row by_cn now))
     else Err ScopeDenied).
Proof.
  intros Hi. split.
  - unfold Findings.approve. rewrite (transition_bind _ Confirmed) by done.
    rewrite (tx_bind_pair _ _ _ _ (decide_update db repo id (approved by_cn now) Hi)).
    pose proof (get_selected_keyed db repo id Hi) as Hg. unfold decided.
    destruct (findings db !! id) as [f|] eqn:Hf; [destruct (fr_repo_id f =? repo) eqn:Hr|];
      [case_bool_decide| |]; cbn; unfold mbind, tx_bind; by rewrite ?Hg.
  - unfold Findings.reject, require_operator, Findings.get.
    destruct (rs_operator scope); [|done]. rewrite (tx_bind_run _ _ db tt db) by done. cbv beta.
    rewrite (transition_bind _ Dismissed) by done.
    rewrite (tx_bind_pair _ _ _ _ (decide_update db (rs_repo_id scope) id (rejected_row by_cn now) Hi)).
    pose proof (get_selected_keyed db (rs_repo_id scope) id Hi) as Hg. unfold decided.
    destruct (findings db !! id) as [f|] eqn:Hf; [destruct (fr_repo_id f =? rs_repo_id scope) eqn:Hr|];
      [case_bool_decide| |]; cbn; unfold mbind, tx_bind; by rewrite ?Hg.
Qed.

Lemma approval_decisions_spec_witness :
  Findings.approve 1 1 (lit "admin") 9 (h_db (handle_after (scanned false (Some true)))) =
    Ok (decided (h_db (handle_after (scanned false (Some true)))) 1 1 (approved (lit "admin") 9)) /\
  (decided (h_db (handle_after (scanned false (Some true)))) 1 1 (approved (lit "admin") 9)).1 = Applied.
Proof.
  split; [|vm_compute; reflexivity].
  exact (proj1 (approval_decisions_spec (h_db (handle_after (scanned false (Some true)))) 1 {| rs_repo_id := 1; rs_identity := 7; rs_operator := true;
    rs_committed := 0 |} 1 (lit "admin") 9 (handle_after_Inv (scanned false (Some true))))).
Defined.

(** ** The validating deadline *)

Definition expire (now : Z) (f : FindingRow) : FindingRow :=
  f <|fr_state := Dismissed|> <|fr_dismissed_at := Some now|>.

(** The verdict the system records when the deadline passes. *)
Definition deadline_verdict (v : VerificationRow) (id now : Z) : Prop :=
  v_finding_id v = id /\ v_job_id v = None /\ v_verdict v = OInconclusive /\
  v_notes v = Some VALIDATING_DEADLINE_EXPIRED_NOTE /\ v_created_at v = now.

Definition expire_one (now : Z) (f : FindingRow) : Tx unit :=
  _ ← insert_verification (fr_repo_id f) (fr_id f) DeadlineExpired now;
  _ ← update_findings (fun g => (fr_id g =? fr_id f) && bool_decide (fr_state g = Validating) &&
                                (fr_repo_id g =? fr_repo_id f)) (expire now);
  mret tt.

(** A finding whose verification ran out of time, outside the phase runtime: it
    has no review details and no verification intent, and its scan is not
    campaign work. *)
Definition overdue (db : Db) (now : Z) (f : FindingRow) : Prop :=
  fr_state f = Validating /\
  (exists deadline, fr_validating_deadline f = Some deadline /\ deadline < now) /\
  (forall i d, finding_review_details db !! i = Some d -> rd_finding_id d <> fr_id f) /\
  fr_id f ∉ finding_verification_intents db /\
  (forall i j, jobs db !! i = Some j -> j_id j = fr_job_id f -> j_campaign_id j = None).

Lemma stale_overdue db now f : stale_validating db now f = true <-> overdue db now f.
Proof.
  unfold stale_validating, phase_marked, overdue.
  rewrite !andb_true_iff, negb_true_iff, !orb_false_iff, !sql_exists_false, bool_decide_eq_true,
    bool_decide_eq_false, sql_lt_true.
  assert ((forall i d, finding_review_details db !! i = Some d -> (rd_finding_id d =? fr_id f) = false) <->
    (forall i d, finding_review_details db !! i = Some d -> rd_finding_id d <> fr_id f)) as ->
    by (setoid_rewrite Z.eqb_neq; done).
  assert ((forall i j, jobs db !! i = Some j -> (j_id j =? fr_job_id f) && sql_some (j_campaign_id j) = false) <->
    (forall i j, jobs db !! i = Some j -> j_id j = fr_job_id f -> j_campaign_id j = None)) as ->.
  { split; intros H i j Hj; specialize (H i j Hj).
    - intros E%Z.eqb_eq. rewrite E in H. by destruct (j_campaign_id j).
    - destruct (Z.eqb_spec (j_id j) (fr_job_id f)) as [E|]; [|done]. by rewrite (H E). }
  tauto.
Qed.

(** The state of the reaper's loop, with the findings still to expire. *)
Record expiring (db : Db) (now : Z) (done_ : FindingRow -> bool) (d : Db) : Prop := {
  ex_rest : d = db <|findings := findings d|> <|finding_verifications := finding_verifications d|>;
  ex_findings : findings d = (fun f => if done_ f then expire now f else f) <$> findings db;
  ex_kept : forall k v, finding_verifications db !! k = Some v -> finding_verifications d !! k = Some v;
  ex_verdict : forall i f, findings db !! i = Some f -> done_ f = true ->
    exists k v, finding_verifications d !! k = Some v /\ deadline_verdict v i now;
}.

Lemma expire_one_step db now done_ d f :
  Inv db -> expiring db now done_ d -> findings db !! fr_id f = Some f -> fr_state f = Validating ->
  done_ f = false ->
  match expire_one now f d with
  | Ok (_, d') => expiring db now (fun g => done_ g || (fr_id g =? fr_id f)) d'
  | Err e => e = Sqlite RowIdsExhausted
  end.
Proof.
  intros Hi Hex Hf Hs Hd. unfold expire_one, insert_verification. cbn [verification_columns].
  assert (findings d !! fr_id f = Some f) as Hfd.
  { by rewrite (ex_findings _ _ _ _ Hex), lookup_fmap, Hf; cbn; rewrite Hd. }
  assert (sql_exists (fun g => (fr_id g =? fr_id f) && (fr_repo_id g =? fr_repo_id f)) (findings d) = true)
    as Hex1 by (apply sql_exists_true; exists (fr_id f), f; by rewrite !Z.eqb_refl).
  unfold tx_exists, mbind, tx_bind, mret, tx_ret. rewrite Hex1. cbn [andb].
  destruct (insert_verification_row _ d) as [[k d1]|e] eqn:E.
  - apply insert_verification_row_Ok in E as (Hk & _ & ->). cbn [findings over update_findings].
    pose proof (next_rowid_fresh _ _ Hk) as Hfresh.
    assert (forall i g, findings db !! i = Some g -> fr_id g = i) as Hid by apply Hi.
    constructor.
    + rewrite (ex_rest _ _ _ _ Hex). reflexivity.
    + cbn. apply map_eq. intros i. rewrite lookup_sql_update, (ex_findings _ _ _ _ Hex), !lookup_fmap.
      destruct (findings db !! i) as [g|] eqn:Hg; [|done]. cbn. f_equal.
      destruct (Z.eqb_spec (fr_id g) (fr_id f)) as [Hgf|Hgf].
      * assert (g = f) as -> by (rewrite <- (Hid _ _ Hg), Hgf, Hf in Hg; congruence).
        by rewrite Hd, !Z.eqb_refl, bool_decide_eq_true_2.
      * destruct (done_ g); cbn; rewrite (proj2 (Z.eqb_neq _ _) Hgf); done.
    + intros j v Hv. cbn. rewrite lookup_insert_ne; [by apply (ex_kept _ _ _ _ Hex)|].
      intros <-. apply (ex_kept _ _ _ _ Hex) in Hv. congruence.
    + intros i g Hg Hdone. destruct (done_ g) eqn:Hdg.
      * destruct (ex_verdict _ _ _ _ Hex i g Hg Hdg) as (j & v & Hv & Hdv). exists j, v.
        split; [|done]. cbn. rewrite lookup_insert_ne; [done|]. intros <-. congruence.
      * cbn in Hdone. bool_prop. exists k. eexists. split; [apply lookup_insert_eq|].
        pose proof (Hid _ _ Hg). unfold deadline_verdict. cbn. split; [congruence|done].
  - unfold insert_verification_row in E. cbn in E. destruct (next_rowid _); [|congruence].
    rewrite Hfd in E. cbn in E. discriminate E.
Qed.

Lemma expire_loop db now xs done_ d :
  Inv db -> expiring db now done_ d -> NoDup (fr_id <$> xs) ->
  (forall f, f ∈ xs -> findings db !! fr_id f = Some f /\ fr_state f = Validating /\ done_ f = false) ->
  match tx_for xs (expire_one now) d with
  | Ok (_, d') => expiring db now (fun g => done_ g || existsb (fun x => fr_id g =? fr_id x) xs) d'
  | Err e => e = Sqlite RowIdsExhausted
  end.
Proof.
  intros Hi. revert done_ d. induction xs as [|x xs IH]; intros done_ d Hex Hnd Hxs; cbn [tx_for].
  - destruct Hex. constructor; cbn; try done.
    + rewrite ex_findings0. apply map_fmap_ext. intros i f _. by rewrite orb_false_r.
    + intros i f Hf Hd. rewrite orb_false_r in Hd. eauto.
  - apply list.NoDup_cons in Hnd as [Hx Hnd]. destruct (Hxs x) as (Hf & Hs & Hd); [by left|].
    pose proof (expire_one_step db now done_ d x Hi Hex Hf Hs Hd) as Hstep. unfold mbind, tx_bind.
    destruct (expire_one now x d) as [[u d1]|e]; [|done]. cbv beta iota.
    specialize (IH _ d1 Hstep Hnd). cbn beta in IH. destruct (tx_for xs (expire_one now) d1) as [[u' d2]|e].
    + destruct IH as [R F K V].
      { intros f Hin. destruct (Hxs f) as (? & ? & Hdf); [by right|]. split; [done|]. split; [done|].
        rewrite Hdf. cbn. apply Z.eqb_neq. intros E. apply Hx. rewrite <- E. by apply list_elem_of_fmap_2. }
      constructor; try done.
      * rewrite F. apply map_fmap_ext. intros i f _. cbn. by rewrite orb_assoc.
      * intros i f Hf' Hd'. eapply V; [done|]. cbn in Hd'. by rewrite <- orb_assoc.
    + apply IH. intros f Hin. destruct (Hxs f) as (? & ? & Hdf); [by right|]. split; [done|]. split; [done|].
      rewrite Hdf. cbn. apply Z.eqb_neq. intros E. apply Hx. rewrite <- E. by apply list_elem_of_fmap_2.
Qed.

(** the validating deadline.  The reaper either runs out of row ids or
    dismisses exactly the findings that were validating past their deadline and
    carry no mark of phase work, recording for each the system's inconclusive
    verdict with the fixed note (the mark by which an operator may later revive
    it); no other finding, no earlier verdict and no other table changes. *)
Theorem reap_stale_validating_spec db now :
  Inv db ->
  match reap_stale_validating now db with
  | Ok (n, db') => exists gone,
      (forall f, gone f = true <-> overdue db now f) /\
      n = sql_count gone (findings db) /\ expiring db now gone db'
  | Err e => e = Sqlite RowIdsExhausted
  end.
Proof.
  intros Hi. unfold reap_stale_validating. rewrite (transition_bind _ Dismissed) by done.
  set (stale := sql_select (stale_validating db now) (findings db)).
  assert (forall f, f ∈ stale -> findings db !! fr_id f = Some f /\ fr_state f = Validating /\
    (fun _ : FindingRow => false) f = false) as Hst.
  { intros f (HP & i & Hf)%elem_of_sql_select. rewrite (g_finding_id _ _ Hi _ _ Hf).
    unfold stale_validating in HP. by bool_prop. }
  assert (expiring db now (fun _ => false) db) as H0.
  { constructor; try done; [by destruct db|]. by rewrite map_fmap_id. }
  pose proof (expire_loop db now stale _ db Hi H0 (sql_select_NoDup _ _ _ (g_finding_id _ _ Hi)) Hst) as Hloop.
  unfold immediate, transaction, mbind, tx_bind, tx_get, tx_select, mret, tx_ret.
  fold stale. change (tx_for stale _ db) with (tx_for stale (expire_one now) db).
  destruct (tx_for stale (expire_one now) db) as [[u d]|e]; [|done].
  exists (stale_validating db now). split; [apply stale_overdue|]. split; [done|].
  assert (forall i f, findings db !! i = Some f ->
    existsb (fun x => fr_id f =? fr_id x) stale = stale_validating db now f) as Hd.
  { intros i f Hf. destruct (stale_validating db now f) eqn:E.
    - apply existsb_exists. exists f. split; [|apply Z.eqb_refl].
      apply list_elem_of_In, elem_of_sql_select. eauto.
    - apply not_true_is_false. intros (x & Hx & Hxf)%existsb_exists. apply list_elem_of_In in Hx.
      destruct (Hst x Hx) as (Hx' & _). bool_prop. rewrite <- Hxf, (g_finding_id _ _ Hi _ _ Hf), Hf in Hx'.
      apply elem_of_sql_select in Hx as [Hx _]. congruence. }
  destruct Hloop as [R F K V]. constructor; try done.
  - rewrite F. apply map_fmap_ext. intros i f Hf. cbn. by rewrite (Hd i f Hf).
  - intros i f Hf Hs. eapply V; [done|]. cbn. by rewrite (Hd i f Hf).
Qed.

Lemma reap_stale_validating_spec_witness :
  exists n db', reap_stale_validating 2000 (h_db (handle_after (scanned true None))) = Ok (n, db') /\
    n = 1 /\ fr_state <$> (findings db' !! 1) = Some Dismissed.
Proof.
  pose proof (reap_stale_validating_spec _ 2000 (handle_after_Inv (scanned true None))) as H.
  assert (is_ok (reap_stale_validating 2000 (h_db (handle_after (scanned true None)))) = true) as V
    by (vm_compute; reflexivity).
  destruct (reap_stale_validating 2000 (h_db (handle_after (scanned true None)))) as [[n db']|e];
    [|discriminate V].
  destruct H as (gone & Hg & Hn & Hex). exists n, db'. split; [reflexivity|].
  assert (forall f, gone f = stale_validating (h_db (handle_after (scanned true None))) 2000 f) as Eg.
  { intros f. apply eq_true_iff_eq. rewrite Hg. symmetry. apply stale_overdue. }
  split.
  - rewrite Hn, (sql_count_ext gone (stale_validating (h_db (handle_after (scanned true None))) 2000)) by
      (intros; apply Eg). vm_compute. reflexivity.
  - rewrite (ex_findings _ _ _ _ Hex), lookup_fmap.
    destruct (findings (h_db (handle_after (scanned true None))) !! 1) as [f|] eqn:E;
      [|vm_compute in E; discriminate E].
    assert (gone f = true) as G.
    { rewrite Eg. apply (row_value _ _ _ (stale_validating (h_db (handle_after (scanned true None))) 2000) _ E).
      vm_compute. reflexivity. }
    cbn. rewrite G. reflexivity.
Defined.

(** ** Keyword search *)

(** A token that is safe between double quotes in a full-text query. *)
Definition safe_token (t : str) : Prop :=
  Forall (fun c => fts_operator c = false /\ is_whitespace c = false) t /\ 2 <= str_len t.

Lemma split_ws_no_ws current s :
  Forall (fun c => is_whitespace c = false) current ->
  Forall (Forall (fun c => is_whitespace c = false)) (split_ws current s).
Proof.
  revert current. induction s as [|c s IH]; intros current Hc; cbn.
  - destruct (str_is_empty current); [constructor|]. constructor; [|constructor].
    by rewrite Forall_reverse.
  - destruct (is_whitespace c) eqn:E; [|by apply IH; constructor].
    apply Forall_app. split; [|by apply IH]. destruct (str_is_empty current); [constructor|].
    constructor; [|constructor]. by rewrite Forall_reverse.
Qed.

Lemma drop_while_sub (P : Z -> Prop) p s : Forall P s -> Forall P (drop_while p s).
Proof. induction 1 as [|c s Hc Hs IH]; cbn; [done|]. destruct (p c); [done|by constructor]. Qed.

Lemma trim_sub (P : Z -> Prop) s : Forall P s -> Forall P (trim s).
Proof.
  intros Hs. unfold trim. rewrite Forall_reverse. apply drop_while_sub. rewrite Forall_reverse.
  by apply drop_while_sub.
Qed.

Lemma fts_terms_safe input : Forall safe_token (fts_terms input).
Proof.
  apply list.Forall_forall. intros t (Hlen & Ht)%list_elem_of_filter.
  apply list_elem_of_fmap in Ht as (w & -> & Hw). split; [|done]. apply trim_sub.
  pose proof (split_ws_no_ws [] input (Forall_nil_2 _)) as Hws. rewrite list.Forall_forall in Hws.
  specialize (Hws w Hw). rewrite list.Forall_forall in Hws |- *.
  intros c (Hop & Hc)%list_elem_of_filter. auto.
Qed.

(** The unquoted part of a query: what lies outside an even number of double
    quotes. *)
Fixpoint outside_quotes (inside : bool) (q : str) : str :=
  match q with
  | [] => []
  | c :: q' => if c =? 34 then outside_quotes (negb inside) q'
               else if inside then outside_quotes inside q' else c :: outside_quotes inside q'
  end.

Lemma outside_quotes_token t rest :
  safe_token t -> outside_quotes false ([34] ++ t ++ [34] ++ rest) = outside_quotes false rest.
Proof.
  intros [Ht _]. cbn. induction Ht as [|c t [Hop _] _ IH]; [done|]. cbn.
  unfold fts_operator in Hop. bool_prop. rewrite (proj2 (Z.eqb_neq c 34)) by done. exact IH.
Qed.

Lemma outside_quotes_join ts :
  Forall safe_token ts ->
  Forall (fun c => c = 32) (outside_quotes false (join_space ((fun t => [34] ++ t ++ [34]) <$> ts))).
Proof.
  induction ts as [|t ts IH]; intros Hts; [constructor|]. apply Forall_cons_1 in Hts as [Ht Hts].
  destruct ts as [|t2 ts].
  - pose proof (outside_quotes_token t [] Ht) as H. rewrite app_nil_r in H. cbn [fmap list_fmap join_space].
    rewrite H. constructor.
  - change (join_space ((fun t => [34] ++ t ++ [34]) <$> t :: t2 :: ts)) with
      (([34] ++ t ++ [34]) ++ [32] ++ join_space ((fun t => [34] ++ t ++ [34]) <$> t2 :: ts)).
    rewrite <- !app_assoc, outside_quotes_token by done. cbn [app outside_quotes Z.eqb].
    constructor; [done|]. by apply IH.
Qed.

(** keyword search cannot inject query syntax.  The full-text query made of
    a user's keywords is the list of its terms, each between double quotes and
    separated by single spaces; no term holds a quote, another operator
    character or whitespace, each is at least two bytes long, and outside the
    quotes there is nothing but spaces, so no keyword can act as a column
    filter, a prefix query or a boolean operator. *)
Theorem sanitize_fts_query_safe input :
  sanitize_fts_query input = join_space ((fun t => [34] ++ t ++ [34]) <$> fts_terms input) /\
  Forall safe_token (fts_terms input) /\
  Forall (fun c => c = 32) (outside_quotes false (sanitize_fts_query input)).
Proof.
  split; [done|]. split; [apply fts_terms_safe|].
  unfold sanitize_fts_query. apply outside_quotes_join, fts_terms_safe.
Qed.
