(* ===== verification/ReportTheorems.v ===== *)
(** * What reporting does

    The receipt of a prepared report marks its findings, exactly those and only
    after its transaction committed; a prepared report holds exactly the
    confirmed findings of its selection; and a completed assignment leaves the
    queue and the findings of its scan in the state the next stage expects. *)

From S2P Require Import Prelude Sql Domain StateMachine Vocabulary SchedPolicy Store TxLogic Scope Repos Findings Jobs Issuer Claim Reports Recovery Invariant Preservation System Fixture JobTheorems FindingTheorems.
From Stdlib Require Import ZArith Lia.
From stdpp Require Import base gmap sets list strings relations.
Local Open Scope Z_scope.

(** ** Receipts *)

(** Finding [f] is the one member [m] of repository [repo] stands for. *)
Definition stands_for (repo : Z) (m : Member) (f : FindingRow) : bool :=
  (fr_id f =? m_id m) && (fr_repo_id f =? repo) && bool_decide (fr_report_identity f = m_identity m).

Definition present (db : Db) (repo : Z) (m : Member) : bool := sql_exists (stands_for repo m) (findings db).

(** A confirmed finding one of the members stands for. *)
Definition hit (repo : Z) (ms : list Member) (f : FindingRow) : bool :=
  bool_decide (fr_state f = Confirmed) && existsb (fun m => stands_for repo m f) ms.

Definition reported_row (now : Z) (f : FindingRow) : FindingRow :=
  f <|fr_state := Reported|> <|fr_reported_at := Some now|>.

Definition report_hits (repo now : Z) (ms : list Member) (f : FindingRow) : FindingRow :=
  if hit repo ms f then reported_row now f else f.

(** The members [complete] acts on, from position [i]: chosen and not completed
    before. *)
Fixpoint due_members (sel : option nat) (i : nat) (ms : list Member) : list Member :=
  match ms with
  | [] => []
  | m :: ms' =>
      if negb (m_completed m) && chosen sel i then m :: due_members sel (S i) ms'
      else due_members sel (S i) ms'
  end.

Lemma stands_for_stable repo m now (P : FindingRow -> bool) f :
  stands_for repo m (if P f then reported_row now f else f) = stands_for repo m f.
Proof. by destruct (P f). Qed.

Lemma present_stable repo now P ms db db' :
  findings db' = sql_update P (reported_row now) (findings db) ->
  forallb (present db' repo) ms = forallb (present db repo) ms.
Proof.
  intros E. induction ms as [|m ms IH]; [done|]. cbn. rewrite IH. f_equal. unfold present. rewrite E.
  apply eq_bool_prop_intro. rewrite !Is_true_true, !sql_exists_true.
  setoid_rewrite lookup_sql_update_Some. split.
  - intros (i & r & (f & Hf & ->) & HP). rewrite stands_for_stable in HP. eauto.
  - intros (i & f & Hf & HP). exists i. eexists. split; [eauto|]. by rewrite stands_for_stable.
Qed.

Lemma mark_member_run repo now m db :
  mark_member repo now m db =
    if present db repo m then
      Ok (sql_count (hit repo [m]) (findings db),
          db <|findings := sql_update (hit repo [m]) (reported_row now) (findings db)|>)
    else Err ReportReceiptError.
Proof.
  unfold mark_member.
  rewrite (tx_bind_run _ _ db (present db repo m) db) by reflexivity.
  destruct (present db repo m); [|done]. cbn [negb]. unfold update_findings.
  assert (forall f, (fr_id f =? m_id m) && (fr_repo_id f =? repo) &&
    bool_decide (fr_report_identity f = m_identity m) && bool_decide (fr_state f = Confirmed) =
    hit repo [m] f) as Hhit.
  { intros f. unfold hit, stands_for. cbn. by rewrite orb_false_r, andb_comm. }
  rewrite (sql_count_ext _ (hit repo [m])) by (intros; apply Hhit).
  by rewrite (sql_update_ext _ (hit repo [m])).
Qed.

(** The marking of a list of members. *)
Definition marked (repo now : Z) (ms : list Member) (changed : Z) (db : Db) : result Error (Z * Db) :=
  if forallb (present db repo) ms then
    Ok (changed + sql_count (hit repo ms) (findings db),
        db <|findings := report_hits repo now ms <$> findings db|>)
  else Err ReportReceiptError.

Lemma marked_cons repo now m ms changed db :
  present db repo m = true ->
  marked repo now ms (changed + sql_count (hit repo [m]) (findings db))
    (db <|findings := sql_update (hit repo [m]) (reported_row now) (findings db)|>) =
  marked repo now (m :: ms) changed db.
Proof.
  intros Hm. unfold marked. rewrite (present_stable repo now (hit repo [m]) ms db) by done.
  cbn [forallb]. rewrite Hm. cbn [andb]. destruct (forallb _ ms); [|done]. cbn [findings over].
  assert (forall f, hit repo ms (if hit repo [m] f then reported_row now f else f) =
    hit repo ms f && negb (hit repo [m] f)) as Hh.
  { intros f. destruct (hit repo [m] f) eqn:E; cbn; by rewrite ?andb_true_r, ?andb_false_r. }
  assert (forall f, hit repo (m :: ms) f = hit repo [m] f || hit repo ms f && negb (hit repo [m] f)) as Hc.
  { intros f. unfold hit. cbn. destruct (bool_decide _), (stands_for repo m f); cbn; by rewrite ?andb_true_r. }
  f_equal. f_equal.
  - rewrite sql_count_update, <- Z.add_assoc. f_equal.
    rewrite (sql_count_ext (fun r => hit repo ms _) (fun f => hit repo ms f && negb (hit repo [m] f)))
      by (intros; apply Hh).
    rewrite sql_count_split.
    + apply sql_count_ext. intros i f _. by rewrite Hc.
    + intros f H1 H2. rewrite H1, andb_false_r in H2. done.
  - match goal with |- ?l = ?r => enough (findings l = findings r) as E
      by (change (db <|findings := findings l|> = db <|findings := findings r|>); by rewrite E) end.
    cbn. unfold sql_update. rewrite <- map_fmap_compose. apply map_fmap_ext. intros i f _. cbn.
    unfold report_hits. rewrite Hh, Hc. destruct (hit repo [m] f), (hit repo ms f); done.
Qed.

Lemma mark_members_run repo now sel ms i changed db :
  mark_members repo now (chosen sel) i ms changed db = marked repo now (due_members sel i ms) changed db.
Proof.
  revert i changed db. induction ms as [|m ms IH]; intros i changed db; cbn [mark_members due_members].
  - unfold marked. cbn. rewrite (proj2 (sql_count_zero _ _)) by (intros; by apply andb_false_r).
    rewrite Z.add_0_r. unfold report_hits, hit. cbn.
    rewrite (map_fmap_ext _ id) by (intros j f _; by rewrite andb_false_r).
    by rewrite map_fmap_id, set_findings_same.
  - destruct (negb (m_completed m) && chosen sel i); [|apply IH].
    unfold mbind, tx_bind. rewrite mark_member_run. destruct (present db repo m) eqn:Hm.
    + rewrite IH. by apply marked_cons.
    + unfold marked. cbn. by rewrite Hm.
Qed.

(** The outcome of marking the members [sel] picks. *)
Definition receipt_outcome (receipt : ReportReceipt) (h : Handle) (sel : option nat) (now : Z)
    : result Error Z * ReportReceipt * Handle :=
  let db := h_db h in
  let repo := rr_repo_id receipt in
  let ms := due_members sel 0 (rr_members receipt) in
  if forallb (present db repo) ms then
    (Ok (sql_count (hit repo ms) (findings db)),
     receipt <|rr_members := imap (fun i m => if chosen sel i then m <|m_completed := true|> else m)
                               (rr_members receipt)|>,
     h <|h_db := db <|findings := report_hits repo now ms <$> findings db|> |>)
  else (Err ReportReceiptError, receipt, h).

Lemma complete_receipt_run receipt h sel now :
  complete_receipt receipt h sel now = receipt_outcome receipt h sel now.
Proof.
  unfold complete_receipt, receipt_outcome, immediate, transaction, mbind, tx_bind, mret, tx_ret.
  rewrite mark_members_run. unfold marked. by destruct (forallb _ _).
Qed.

(** The handle published the commit of the receipt's own transaction, and its
    database issued it. *)
Definition issued_by (receipt : ReportReceipt) (h : Handle) : Prop :=
  rr_committed receipt ∈ h_published h /\ rr_database receipt = h_identity h.

#[export] Instance issued_by_dec receipt h : Decision (issued_by receipt h).
Proof. unfold issued_by. apply _. Defined.

Lemma receipt_bound_issued receipt h : receipt_bound receipt h = bool_decide (issued_by receipt h).
Proof.
  apply eq_true_iff_eq. unfold receipt_bound, issued_by.
  by rewrite andb_true_iff, !bool_decide_eq_true, Z.eqb_eq.
Qed.

(** The member [mark_one] acts on: the first with that id. *)
Definition member_at (receipt : ReportReceipt) (id : Z) (k : nat) : Prop :=
  (exists m, rr_members receipt !! k = Some m /\ m_id m = id) /\
  forall i m, (i < k)%nat -> rr_members receipt !! i = Some m -> m_id m <> id.

Lemma position_first id ms k :
  position id ms = Some k <->
  (exists m, ms !! k = Some m /\ m_id m = id) /\
  forall i m, (i < k)%nat -> ms !! i = Some m -> m_id m <> id.
Proof.
  revert k. induction ms as [|m ms IH]; intros k; cbn [position].
  - split; [done|]. by intros [(x & Hx & _) _].
  - destruct (Z.eqb_spec (m_id m) id) as [E|E].
    + split.
      * intros [= <-]. split; [by exists m|lia].
      * intros [_ Hmin]. destruct k as [|k]; [done|]. by destruct (Hmin 0%nat m ltac:(lia)).
    + rewrite fmap_Some. split.
      * intros (i & Hi & ->). apply IH in Hi as [Hx Hmin]. split; [done|].
        intros [|i'] x Hlt Hx'; cbn in Hx'; [congruence|]. eapply Hmin; [|done]. lia.
      * intros [(x & Hx & Hid) Hmin]. destruct k as [|k]; cbn in Hx; [congruence|]. exists k.
        split; [|done]. apply IH. split; [eauto|]. intros i y Hlt Hy. apply (Hmin (S i)); [lia|done].
Qed.

(** C12: a receipt marks exactly its members.  A receipt whose transaction did
    not commit, or that another database issued, is refused.  Otherwise each
    finding that a chosen, not yet completed member stands for (same id,
    repository and report identity) and that is still confirmed becomes
    reported, with the time; the count is the number of findings changed; every
    other finding and every other table is untouched; and the chosen members
    are completed.  If one of them stands for no finding any more, nothing
    changes at all. *)
Theorem receipts_mark_exactly_their_members receipt h id now :
  if decide (issued_by receipt h) then
    mark_all receipt h now = receipt_outcome receipt h None now /\
    (forall k, member_at receipt id k -> mark_one receipt h id now = receipt_outcome receipt h (Some k) now) /\
    ((forall m, m ∈ rr_members receipt -> m_id m <> id) ->
       mark_one receipt h id now = (Err ReportReceiptError, receipt, h))
  else
    mark_all receipt h now = (Err ReportReceiptError, receipt, h) /\
    mark_one receipt h id now = (Err ReportReceiptError, receipt, h).
Proof.
  unfold mark_all, mark_one. rewrite !receipt_bound_issued. unfold bool_decide, decide.
  destruct (issued_by_dec receipt h); cbn [negb]; [|done].
  split; [apply complete_receipt_run|]. split.
  - intros k ->%position_first. apply complete_receipt_run.
  - intros Hno. destruct (position _ _) as [k|] eqn:E; [|done].
    apply position_first in E as [(m & Hm%list_elem_of_lookup_2%Hno & Hid) _]. done.
Qed.

Lemma due_members_completed i sel ms :
  (forall m, m ∈ ms -> m_completed m = true) -> due_members sel i ms = [].
Proof.
  revert i. induction ms as [|m ms IH]; intros i Hms; [done|]. cbn [due_members].
  rewrite (Hms m) by (by left). cbn. apply IH. intros x Hx. apply Hms. by right.
Qed.

Lemma report_hits_nil repo now (t : gmap Z FindingRow) : report_hits repo now [] <$> t = t.
Proof.
  rewrite (map_fmap_ext _ id) by (intros j f _; unfold report_hits, hit; by rewrite andb_false_r).
  by rewrite map_fmap_id.
Qed.

Lemma position_completed id ms :
  position id ((fun m => m <|m_completed := true|>) <$> ms) = position id ms.
Proof. induction ms as [|m ms IH]; [done|]. cbn. by rewrite IH. Qed.

(** reporting is idempotent.  Once every member of a receipt was marked,
    marking them again, all or one of them, at any later time, changes no
    finding and reports a count of 0. *)
Theorem marking_is_idempotent receipt h now n receipt' h' again id :
  mark_all receipt h now = (Ok n, receipt', h') ->
  mark_all receipt' h' again = (Ok 0, receipt', h') /\
  (is_Some (position id (rr_members receipt)) -> mark_one receipt' h' id again = (Ok 0, receipt', h')).
Proof.
  intros H. unfold mark_all in H. destruct (receipt_bound receipt h) eqn:Hb; [|done]. cbn [negb] in H.
  rewrite complete_receipt_run in H. unfold receipt_outcome in H.
  destruct (forallb _ _); [|done]. injection H as _ <- <-.
  set (ms := imap _ (rr_members receipt)).
  assert (forall m, m ∈ ms -> m_completed m = true) as Hall.
  { intros m (k & Hk)%list_elem_of_lookup. subst ms. rewrite list_lookup_imap in Hk.
    by apply fmap_Some in Hk as (x & _ & ->). }
  assert (forall sel, receipt_outcome (receipt <|rr_members := ms|>)
    (h <|h_db := (h_db h) <|findings := report_hits (rr_repo_id receipt) now
       (due_members None 0 (rr_members receipt)) <$> findings (h_db h)|> |>) sel again =
    (Ok 0, receipt <|rr_members := ms|>, h <|h_db := (h_db h) <|findings := report_hits (rr_repo_id receipt) now
       (due_members None 0 (rr_members receipt)) <$> findings (h_db h)|> |>)) as Hout.
  { intros sel. unfold receipt_outcome. cbn [rr_members over rr_repo_id h_db].
    rewrite (due_members_completed _ _ ms Hall). cbn [forallb].
    rewrite report_hits_nil, (proj2 (sql_count_zero _ _)) by (intros; apply andb_false_r).
    assert (imap (fun i m => if chosen sel i then m <|m_completed := true|> else m) ms = ms) as ->; [|done].
    apply list_eq. intros k. rewrite list_lookup_imap. destruct (ms !! k) as [x|] eqn:Hx; [|done]. cbn.
    apply list_elem_of_lookup_2, Hall in Hx. destruct x; cbn in *. by case_match; subst. }
  split.
  - unfold mark_all. change (receipt_bound _ _) with (receipt_bound receipt h) at 1. rewrite Hb.
    rewrite complete_receipt_run. apply Hout.
  - intros [k Hk]. unfold mark_one. change (receipt_bound _ _) with (receipt_bound receipt h) at 1. rewrite Hb.
    cbn [negb]. assert (position id ms = Some k) as Hp.
    { rewrite <- Hk, <- (position_completed id (rr_members receipt)). f_equal. subst ms.
      apply list_eq. intros i. by rewrite list_lookup_imap, list_lookup_fmap. }
    cbn [rr_members over]. rewrite Hp, complete_receipt_run. apply Hout.
Qed.

Definition a_receipt : ReportReceipt := {|
  rr_database := 7; rr_committed := 0; rr_repo_id := 1;
  rr_members := [{| m_id := 1; m_identity := [11]; m_completed := false |}] |}.

Lemma marking_is_idempotent_witness :
  exists receipt' h', mark_all a_receipt (handle_after verified) 9 = (Ok 1, receipt', h') /\
    mark_all receipt' h' 10 = (Ok 0, receipt', h').
Proof.
  destruct (mark_all a_receipt (handle_after verified) 9) as [[r receipt'] h'] eqn:E.
  assert (r = Ok 1) as -> by
    (change r with (r, receipt', h').1.1; rewrite <- E; vm_compute; reflexivity).
  exists receipt', h'. split; [reflexivity|].
  exact (proj1 (marking_is_idempotent a_receipt (handle_after verified) 9 1 receipt' h' 10 1 E)).
Defined.

(** ** Selection *)

(** The findings a selection names, in row order. *)
Definition selected_by (scope : RepoScope) (sel : Selection) (f : FindingRow) : bool :=
  (fr_repo_id f =? rs_repo_id scope) &&
  match sel with SJob id => fr_job_id f =? id | SFinding id => fr_id f =? id end.

(** a prepared report is exact.  A report that is ready was made without
    changing the database, for a repository whose destination is not manual;
    its entries and its receipt name, in order, exactly the confirmed findings
    of the selection in that repository, at least one, each with its report
    identity and none completed; and it is bound to the database and to the
    transaction that prepared it. *)
Theorem prepared_reports_are_exact scope sel db report db' :
  prepare scope sel db = Ok (Ready report, db') ->
  let rows := filter (fun f => fr_state f = Confirmed) (sql_select (selected_by scope sel) (findings db)) in
  db' = db /\ rows <> [] /\ r_reporting (pr_repo report) <> Manual /\
  head (sql_select (fun r => r_id r =? rs_repo_id scope) (registered_repos db)) = Some (pr_repo report) /\
  re_id <$> pr_entries report = fr_id <$> rows /\
  pr_receipt report = {|
    rr_database := rs_identity scope; rr_committed := rs_committed scope;
    rr_repo_id := rs_repo_id scope;
    rr_members := (fun f => {| m_id := fr_id f; m_identity := fr_report_identity f;
                               m_completed := false |}) <$> rows |}.
Proof.
  intros H rows. pose proof (prepare_reads _ _ _ _ _ H) as ->. split; [done|].
  unfold prepare in H. destruct (select _ _ _ db) as [[p d]|e] eqn:E.
  2: { destruct e as [[] | | | | | |]; discriminate H. }
  injection H as -> ->. unfold select, Repos.get_raw in E.
  apply tx_bind_Ok in E as (o & ? & [-> ->]%tx_first_Ok & E).
  destruct (head _) as [r|]; [|by tx_inv E].
  destruct (r_reporting r) as [ow rp o|to_ from prefix|] eqn:Hr; [| |by apply tx_ret_Ok in E as []];
    apply tx_bind_Ok in E as (rows' & ? & [-> ->]%tx_select_Ok & E);
    change (filter _ (sql_select _ (findings db))) with rows in E;
    (destruct rows as [|f0 rest] eqn:Hrows; [by apply tx_ret_Ok in E as []|]);
    apply tx_bind_Ok in E as (c & dc & Hc & E);
    (destruct c as [c|]; [|by apply tx_ret_Ok in E as []]);
    apply tx_bind_Ok in E as (? & ? & [-> ->]%tx_get_Ok & E); apply tx_ret_Ok in E as [[= ->] _]; cbn;
    (split; [done|]); (split; [by rewrite Hr|]); (split; [done|]);
    (split; [by rewrite <- list_fmap_compose|done]).
Qed.

Lemma prepared_reports_are_exact_witness :
  exists report db', prepare {| rs_repo_id := 1; rs_identity := 7; rs_operator := true; rs_committed := 99 |}
      (SFinding 1) (h_db (handle_after verified)) = Ok (Ready report, db') /\
    re_id <$> pr_entries report = [1].
Proof.
  set (scope := {| rs_repo_id := 1; rs_identity := 7; rs_operator := true; rs_committed := 99 |}).
  assert (match prepare scope (SFinding 1) (h_db (handle_after verified)) with
          | Ok (Ready _, _) => true | _ => false end = true) as V by (vm_compute; reflexivity).
  destruct (prepare scope (SFinding 1) (h_db (handle_after verified))) as [[[| |report] db']|e] eqn:E;
    try discriminate V.
  exists report, db'. split; [reflexivity|].
  destruct (prepared_reports_are_exact scope (SFinding 1) _ report db' E) as (_ & _ & _ & _ & -> & _).
  vm_compute. reflexivity.
Defined.
