(* ===== verification/Completion.v ===== *)
(** * Completion of a scan

    What a worker's successful completion of a scan leaves behind: the job, the
    findings it submitted, the verify jobs queued for them, and the
    repository's scan state. *)

From S2P Require Import Prelude Sql Domain StateMachine Vocabulary SchedPolicy Store TxLogic Scope Repos Findings Jobs Issuer Claim Reports Recovery Invariant Preservation System Fixture JobTheorems FindingTheorems.
From Stdlib Require Import ZArith Lia.
From stdpp Require Import base gmap sets list strings relations.
Local Open Scope Z_scope.

(** The verify job queued for finding [target] of scan [job]. *)
Definition verify_row (repo job target now : Z) : JobRow :=
  queued_row {| nj_repo_id := repo; nj_kind := Verify; nj_incremental := false; nj_since_sha := None;
                nj_parent_job_id := Some job; nj_target_finding_id := Some target |} Queued now.

Lemma enqueue_loop repo job now (targets : list FindingRow) d u d' :
  tx_for targets (fun f => _ ← insert_job (verify_row repo job (fr_id f) now); mret tt) d = Ok (u, d') ->
  d' = d <|jobs := jobs d'|> /\
  (forall i j, jobs d !! i = Some j -> jobs d' !! i = Some j) /\
  (forall f, f ∈ targets -> exists k, jobs d' !! k = Some ((verify_row repo job (fr_id f) now) <|j_id := k|>)) /\
  (forall i j, jobs d !! i = None -> jobs d' !! i = Some j ->
     exists f, f ∈ targets /\ j = (verify_row repo job (fr_id f) now) <|j_id := i|>).
Proof.
  revert d. induction targets as [|f targets IH]; intros d H; cbn in H.
  - apply tx_ret_Ok in H as [_ ->]. split_and!; [by destruct d|done| |congruence].
    intros f Hf. by apply not_elem_of_nil in Hf.
  - apply tx_bind_Ok in H as (u1 & d1 & H1 & H). apply tx_bind_Ok in H1 as (k & d2 & Hk & H1). tx_inv H1.
    apply insert_job_Ok in Hk as (Hid & _ & _ & _ & ->). pose proof (next_rowid_fresh _ _ Hid) as Hfresh.
    destruct (IH _ H) as (F & J & T & N). cbn in F, J, N. split_and!.
    + rewrite F. by destruct d.
    + intros i j Hj. apply J. rewrite lookup_insert_ne; [done|]. intros <-. congruence.
    + intros g [->|Hg]%elem_of_cons; [|by apply T]. exists k. apply J. apply lookup_insert_eq.
    + intros i j Hn Hj. destruct (decide (i = k)) as [->|Hne].
      * rewrite (J k _ (lookup_insert_eq _ _ _)) in Hj. injection Hj as <-. exists f. split; [by left|done].
      * destruct (N i j) as (g & Hg & Hr); [by rewrite lookup_insert_ne|done|]. exists g. split; [by right|done].
Qed.

Lemma enqueue_verify_jobs_run repo job now db n db' :
  Jobs.enqueue_verify_jobs_for_scan repo job now db = Ok (n, db') ->
  db' = db <|jobs := jobs db'|> /\
  (forall i j, jobs db !! i = Some j -> jobs db' !! i = Some j) /\
  (forall i j, jobs db !! i = None -> jobs db' !! i = Some j ->
     exists t f, findings db !! t = Some f /\ fr_job_id f = job /\ fr_repo_id f = repo /\ fr_state f = Validating /\
       j = (verify_row repo job (fr_id f) now) <|j_id := i|>) /\
  (sql_exists (fun j => (j_id j =? job) && (j_repo_id j =? repo) && bool_decide (j_kind j = Scan)) (jobs db) = true ->
   forall i f, findings db !! i = Some f -> fr_job_id f = job -> fr_repo_id f = repo ->
     fr_state f = Validating ->
     exists k, jobs db' !! k = Some ((verify_row repo job (fr_id f) now) <|j_id := k|>)).
Proof.
  unfold Jobs.enqueue_verify_jobs_for_scan. rewrite (transition_bind _ Queued) by done. intros H.
  apply tx_bind_Ok in H as (b & ? & [-> ->]%tx_exists_Ok & H).
  apply tx_bind_Ok in H as (xs & d & Hxs & H). apply tx_bind_Ok in H as (u & d2 & Hfor & H). tx_inv H.
  assert (d = db /\ (sql_exists (fun j => (j_id j =? job) && (j_repo_id j =? repo) &&
    bool_decide (j_kind j = Scan)) (jobs db) = true -> xs = sql_select (fun f => (fr_job_id f =? job) &&
      (fr_repo_id f =? repo) && bool_decide (fr_state f = Validating)) (findings db)) /\
    (xs = [] \/ xs = sql_select (fun f => (fr_job_id f =? job) &&
      (fr_repo_id f =? repo) && bool_decide (fr_state f = Validating)) (findings db))) as (-> & Hsel & Hxs').
  { destruct (sql_exists _ _); tx_inv Hxs; split_and!; try done; [by right|by left]. }
  destruct (enqueue_loop repo job now xs db u d2 Hfor) as (F & J & T & N). split_and!; try done.
  { intros i j Hn Hj. destruct (N i j Hn Hj) as (f & Hf & ->). destruct Hxs' as [->| ->]; [by apply not_elem_of_nil in Hf|].
    apply elem_of_sql_select in Hf as (HP & t & Ht). rewrite !andb_true_iff, !Z.eqb_eq, bool_decide_eq_true in HP.
    exists t, f. by destruct HP as [[? ?] ?]. }
  intros Hex i f Hf Hj Hr Hs. apply T. rewrite (Hsel Hex). apply elem_of_sql_select.
  split; [|eauto]. by rewrite Hj, Hr, !Z.eqb_refl, bool_decide_eq_true_2.
Qed.

(** The lease of a live scope is the one completion looks for. *)
Lemma live_lease_held db scope :
  live db scope ->
  lease_held (li_job_id (al_identity (as_lease scope))) (li_worker_id (al_identity (as_lease scope)))
    (li_capability_hash (al_identity (as_lease scope))) (al_now (as_lease scope)) (as_job scope) = true.
Proof.
  intros Hl. pose proof (lv_active _ _ Hl) as Ha. unfold active_capability in Ha.
  unfold lease_held. rewrite (lv_id _ _ Hl), Z.eqb_refl.
  rewrite !andb_true_iff in Ha. destruct Ha as (((((-> & ->) & ->) & ->) & _) & ->). done.
Qed.

(** The history row of a scan finished at [revision], under the id [k]. *)
Lemma insert_history_run h db u db' :
  insert_history h db = Ok (u, db') ->
  exists k, scan_history db !! k = None /\
    db' = db <|scan_history := <[k := {| h_id := k; h_repo_id := h_repo_id h; h_job_id := h_job_id h;
      h_head_sha := h_head_sha h; h_base_sha := h_base_sha h; h_finding_count := h_finding_count h;
      h_duration_ms := h_duration_ms h; h_finished_at := h_finished_at h |}]> (scan_history db)|>.
Proof.
  unfold insert_history. destruct (next_rowid (scan_history db)) as [k|] eqn:E; [|done].
  case_match; [|done]. intros Hh. exists k. split; [by apply next_rowid_fresh|]. by injection Hh as _ <-.
Qed.

Definition history_row (scope : AssignmentScope) (revision : str) (db : Db) (ms k : Z) : ScanHistoryRow := {|
  h_id := k; h_repo_id := rs_repo_id (as_repo scope); h_job_id := j_id (as_job scope); h_head_sha := revision;
  h_base_sha := j_since_sha (as_job scope);
  h_finding_count := sql_count (fun f => (fr_job_id f =? j_id (as_job scope)) &&
                                         (fr_repo_id f =? rs_repo_id (as_repo scope))) (findings db);
  h_duration_ms := ms; h_finished_at := al_now (as_lease scope) |}.

(** A job that [db'] has and [db] has not. *)
Definition new_job (db db' : Db) (i : Z) (j : JobRow) : Prop := jobs db !! i = None /\ jobs db' !! i = Some j.

(** The facts of a completed scan: every row of the database after it. *)
Record scan_completed (scope : AssignmentScope) (revision : str) (error : option str)
    (require_approval_default : bool) (deadline : Z) (db db' : Db) (repo : RepoRow) : Prop := {
  cs_revision : str_is_empty (trim revision) = false;
  cs_repo : registered_repos db !! rs_repo_id (as_repo scope) = Some repo;
  cs_job : jobs db' !! j_id (as_job scope) =
    Some (completed Succeeded (Some revision) error (al_now (as_lease scope)) (as_job scope));
  cs_others : forall i j, i <> j_id (as_job scope) -> jobs db !! i = Some j -> jobs db' !! i = Some j;
  cs_findings : findings db' =
    after_scan (rs_repo_id (as_repo scope)) (j_id (as_job scope))
      (Repos.effective_require_approval repo require_approval_default) deadline
      (al_now (as_lease scope)) <$> findings db;
  cs_queue : forall i f, findings db !! i = Some f -> fr_job_id f = j_id (as_job scope) ->
    fr_state f = Pending -> fr_verification_required f = true ->
    exists k, jobs db' !! k = Some ((verify_row (rs_repo_id (as_repo scope)) (j_id (as_job scope)) i
                                       (al_now (as_lease scope))) <|j_id := k|>);
  cs_new : forall i j, new_job db db' i j -> exists t f,
    findings db' !! t = Some f /\ fr_job_id f = j_id (as_job scope) /\ fr_state f = Validating /\
    j = (verify_row (rs_repo_id (as_repo scope)) (j_id (as_job scope)) t (al_now (as_lease scope))) <|j_id := i|>;
  cs_once : forall i j i' j', new_job db db' i j -> new_job db db' i' j' ->
    j_target_finding_id j = j_target_finding_id j' -> i = i';
  cs_rest : exists k ms, scan_duration_ms (j_started_at (as_job scope)) (al_now (as_lease scope)) = Ok ms /\
    scan_history db !! k = None /\
    db' = db <|jobs := jobs db'|> <|findings := findings db'|>
             <|registered_repos := <[rs_repo_id (as_repo scope) :=
                 repo <|r_last_scanned_sha := Some revision|>
                      <|r_last_scanned_at := Some (al_now (as_lease scope))|>]> (registered_repos db)|>
             <|scan_history := <[k := history_row scope revision db ms k]> (scan_history db)|>;
}.

(** The state between the succeeded-scan branch and the end of the lease. *)
Lemma complete_scan_run db scope head_sha ra deadline p d :
  Inv db -> live db scope -> j_kind (as_job scope) = Scan ->
  complete_scan scope head_sha ra deadline db = Ok (p, d) ->
  exists revision repo, head_sha = Some revision /\ str_is_empty (trim revision) = false /\
    registered_repos db !! rs_repo_id (as_repo scope) = Some repo /\
    jobs d !! j_id (as_job scope) = Some ((as_job scope) <|j_head_sha := Some revision|>) /\
    (forall i j, i <> j_id (as_job scope) -> jobs db !! i = Some j -> jobs d !! i = Some j) /\
    findings d = after_scan (rs_repo_id (as_repo scope)) (j_id (as_job scope))
      (Repos.effective_require_approval repo ra) deadline (al_now (as_lease scope)) <$> findings db /\
    (forall i f, findings db !! i = Some f -> fr_job_id f = j_id (as_job scope) ->
       fr_state f = Pending -> fr_verification_required f = true ->
       exists k, jobs d !! k = Some ((verify_row (rs_repo_id (as_repo scope)) (j_id (as_job scope)) i
                                        (al_now (as_lease scope))) <|j_id := k|>)) /\
    (forall i j, new_job db d i j -> exists t f,
       findings d !! t = Some f /\ fr_job_id f = j_id (as_job scope) /\ fr_state f = Validating /\
       j = (verify_row (rs_repo_id (as_repo scope)) (j_id (as_job scope)) t (al_now (as_lease scope))) <|j_id := i|>) /\
    exists k ms, scan_duration_ms (j_started_at (as_job scope)) (al_now (as_lease scope)) = Ok ms /\
      scan_history db !! k = None /\
      d = db <|jobs := jobs d|> <|findings := findings d|>
             <|registered_repos := <[rs_repo_id (as_repo scope) :=
                 repo <|r_last_scanned_sha := Some revision|>
                      <|r_last_scanned_at := Some (al_now (as_lease scope))|>]> (registered_repos db)|>
             <|scan_history := <[k := history_row scope revision db ms k]> (scan_history db)|>.
Proof.
  intros Hi Hl Hk H. unfold complete_scan in H.
  apply tx_bind_Ok in H as (ms & ? & [Hms ->]%tx_lift_Ok & H).
  destruct head_sha as [rev|]; [|by tx_inv H]. destruct (str_is_empty _) eqn:Hrev; [by tx_inv H|].
  unfold Repos.get_raw in H. apply tx_bind_Ok in H as (o & ? & [-> ->]%tx_first_Ok & H).
  destruct (head _) as [repo|] eqn:Hrepo; [|by tx_inv H].
  apply head_select_Some in Hrepo as (Hrid & ri & Hrepo). bool_prop.
  rewrite (g_repo_id _ _ Hi _ _ Hrepo) in Hrid. subst ri.
  set (r := rs_repo_id (as_repo scope)) in *. set (k := j_id (as_job scope)) in *.
  apply tx_bind_Ok in H as (n1 & d1 & (_ & _ & ->)%update_jobs_Ok & H).
  apply tx_bind_Ok in H as (n2 & d2 & (_ & ->)%update_repos_Ok & H).
  apply tx_bind_Ok in H as (? & ? & [-> ->]%tx_get_Ok & H).
  apply tx_bind_Ok in H as (u & d3 & (hk & Hhk & ->)%insert_history_run & H).
  rewrite (tx_bind_run _ _ _ _ _ (transition_scan_run _ _ _ _ _ _)) in H.
  apply tx_bind_Ok in H as (n5 & d5 & (F & J & N & T)%enqueue_verify_jobs_run & H).
  assert (d = d5) as ->.
  { unfold prepare_assignment in H. rewrite Hk in H. by apply prepare_reads in H. }
  cbn in F, J, N, T. exists rev, repo.
  assert (forall i j, i <> k -> jobs db !! i = Some j -> jobs d5 !! i = Some j) as Hothers.
  { intros i j Hne Hj. apply J. rewrite lookup_sql_update, Hj. cbn.
    rewrite (g_job_id _ _ Hi _ _ Hj), (proj2 (Z.eqb_neq i k)) by done. done. }
  assert (jobs d5 !! k = Some ((as_job scope) <|j_head_sha := Some rev|>)) as Hjob.
  { apply J. rewrite lookup_sql_update. unfold k. rewrite (lv_job _ _ Hl). cbn.
    rewrite Z.eqb_refl, (live_leased _ _ Hl), <- (lv_repo _ _ Hl), Z.eqb_refl. done. }
  assert (findings d5 = after_scan r k (Repos.effective_require_approval repo ra) deadline (al_now (as_lease scope)) <$>
    findings db) as HF by (by rewrite F).
  split_and!; try done.
  - intros i f Hf Hfj Hp Hv. rewrite <- (g_finding_id _ _ Hi _ _ Hf).
    destruct (g_finding_job _ _ Hi _ _ Hf) as (j & Hj & Hr). rewrite Hfj in Hj.
    unfold k in Hj. rewrite (lv_job _ _ Hl) in Hj. injection Hj as <-. rewrite <- (lv_repo _ _ Hl) in Hr.
    set (f' := f <|fr_state := Validating|> <|fr_validating_deadline := Some deadline|>).
    assert (after_scan r k (Repos.effective_require_approval repo ra) deadline (al_now (as_lease scope)) f = f')
      as Hf'.
    { unfold after_scan, r. by rewrite Hfj, <- Hr, !Z.eqb_refl, (bool_decide_eq_true_2 _ Hp), Hv. }
    refine (T _ i f' _ Hfj _ eq_refl); [|by rewrite lookup_fmap, Hf; cbn; rewrite Hf'|done].
    apply sql_exists_true. exists k. eexists.
    split; [apply lookup_sql_update_Some; eauto using lv_job|].
    cbv beta. unfold k, r. rewrite Z.eqb_refl. repeat case_match; cbn;
      rewrite ?Z.eqb_refl, ?(lv_repo _ _ Hl), ?Hk; cbn; by rewrite ?Z.eqb_refl.
  - intros i j [Hn Hj]. destruct (N i j) as (t & f & Hf & Hfj & _ & Hs & ->); [by rewrite lookup_sql_update, Hn|done|].
    exists t, f. rewrite HF. split_and!; [done..|].
    rewrite lookup_fmap in Hf. destruct (findings db !! t) as [f0|] eqn:Ef; [|done]. cbn in Hf. injection Hf as <-.
    replace (fr_id _) with t; [done|]. unfold after_scan. rewrite <- (g_finding_id _ _ Hi _ _ Ef). by repeat case_match.
  - exists hk, ms. split_and!; [done..|]. rewrite F at 1. rewrite HF.
    by rewrite <- (sql_update_by_id r_id (fun x => x <|r_last_scanned_sha := Some rev|>
      <|r_last_scanned_at := Some (al_now (as_lease scope))|>) _ r repo (g_repo_id _ _ Hi) Hrepo).
Qed.

(** C13: a completed scan.  When a worker completes its scan as succeeded, its
    lease ends and the job is succeeded at the reported revision; every pending
    finding of the scan is settled as the repository asks, and each one that
    must be verified has a verify job queued for it; the only jobs added are
    verify jobs of findings of the scan that are validating, one per finding;
    the repository's last scan is stamped and one history row with the scan's
    finding count and duration is added.  No other row of any table changes.
    An empty revision is refused. *)
Theorem completed_scan_spec db scope head_sha error ra deadline p db' :
  Inv db -> live db scope -> j_kind (as_job scope) = Scan ->
  complete_assignment scope Succeeded head_sha error ra deadline db = Ok (p, db') ->
  exists revision repo, head_sha = Some revision /\
    scan_completed scope revision error ra deadline db db' repo.
Proof.
  intros Hi Hl Hk H. unfold complete_assignment in H. rewrite Hk in H.
  apply tx_bind_Ok in H as (p0 & d & Hp & H).
  destruct (complete_scan_run db scope head_sha ra deadline p0 d Hi Hl Hk Hp)
    as (rev & repo & -> & Hrev & Hrepo & Hjob & Hothers & Hf & Hq & Hnew & hk & ms & Hms & Hhk & Hd).
  apply tx_bind_Ok in H as (b & d' & Hc & H).
  assert (d' = db' /\ b = true) as [-> ->] by (destruct b; by tx_inv H). clear H.
  unfold Jobs.complete in Hc. rewrite (tx_bind_run (mret CompleteSucceeded) _ d CompleteSucceeded d) in Hc by done.
  rewrite (transition_bind _ Succeeded) in Hc by done.
  apply tx_bind_Ok in Hc as (n & d1 & (Hu & -> & ->)%update_jobs_Ok & Hc). apply tx_ret_Ok in Hc as [_ ->].
  assert (forall i j, jobs d !! i = Some j -> j_id j <> j_id (as_job scope) -> 
    sql_update (lease_held (li_job_id (al_identity (as_lease scope)))
      (li_worker_id (al_identity (as_lease scope))) (li_capability_hash (al_identity (as_lease scope)))
      (al_now (as_lease scope))) (completed Succeeded (Some rev) error (al_now (as_lease scope))) (jobs d) !! i
    = Some j) as Hkeep.
  { intros i j Hj Hne. rewrite lookup_sql_update, Hj. cbn. unfold lease_held.
    rewrite (lv_id _ _ Hl), (proj2 (Z.eqb_neq _ _) Hne). done. }
  set (final := d <|jobs := _|>) in *.
  assert (forall i j, new_job db final i j -> exists t f,
    findings final !! t = Some f /\ fr_job_id f = j_id (as_job scope) /\ fr_state f = Validating /\
    j = (verify_row (rs_repo_id (as_repo scope)) (j_id (as_job scope)) t (al_now (as_lease scope))) <|j_id := i|>) as Hnew'.
  { intros i j [Hn (j0 & Hj0 & ->)%lookup_sql_update_Some]. destruct (Hnew i j0) as (t & f & Hft & Hfj & Hs & ->); [done|].
    exists t, f. split_and!; [done..|]. unfold lease_held. cbn. by rewrite !andb_false_r. }
  exists rev, repo. split; [done|]. constructor; cbn; try done.
  - rewrite lookup_sql_update, Hjob. cbn [option_fmap option_map fmap].
    change (lease_held _ _ _ _ (_ <|j_head_sha := _|>)) with
      (lease_held (li_job_id (al_identity (as_lease scope))) (li_worker_id (al_identity (as_lease scope)))
         (li_capability_hash (al_identity (as_lease scope))) (al_now (as_lease scope)) (as_job scope)).
    by rewrite (live_lease_held _ _ Hl).
  - intros i j Hne Hj. apply Hkeep; [by apply Hothers|]. by rewrite (g_job_id _ _ Hi _ _ Hj).
  - intros i f Hfi Hfj Hpend Hv. destruct (Hq i f Hfi Hfj Hpend Hv) as (q & Hq'). exists q.
    apply Hkeep; [done|]. cbn. intros ->. rewrite Hjob in Hq'.
    apply (f_equal (fmap j_state)) in Hq'. cbn in Hq'. rewrite (live_leased _ _ Hl) in Hq'. done.
  - intros i j i' j' Hj Hj' Ht. destruct (Hnew' i j Hj) as (t & f & _ & _ & _ & ->).
    destruct (Hnew' i' j' Hj') as (t' & f' & _ & _ & _ & ->). cbn in Ht. injection Ht as <-.
    unfold jobs_unique in Hu. rewrite !andb_true_iff in Hu. destruct Hu as [[_ Hu] _]. rewrite unique_on_true in Hu.
    by eapply (Hu i i' _ _ t); [apply Hj|apply Hj'|..].
  - exists hk, ms. split_and!; [done..|]. unfold final. rewrite Hd. by destruct db.
Qed.

(** The lease of the running scan, as [with_active_lease] would issue it. *)
Definition a_scope : AssignmentScope := {|
  as_repo := {| rs_repo_id := 1; rs_identity := 7; rs_operator := false; rs_committed := 99 |};
  as_job := default (verify_row 0 0 0 0) (jobs (h_db (handle_after (scanning true None))) !! 1);
  as_lease := a_lease 1 [1] 5 |}.

Lemma a_scope_live : live (h_db (handle_after (scanning true None))) a_scope.
Proof. split; vm_compute; reflexivity. Qed.

Lemma completed_scan_spec_witness :
  exists p db' revision repo,
    complete_assignment a_scope Succeeded (Some (lit "c0ffee")) None false 1000
      (h_db (handle_after (scanning true None))) = Ok (p, db') /\
    scan_completed a_scope revision None false 1000 (h_db (handle_after (scanning true None))) db' repo.
Proof.
  assert (is_ok (complete_assignment a_scope Succeeded (Some (lit "c0ffee")) None false 1000
    (h_db (handle_after (scanning true None)))) = true) as V by (vm_compute; reflexivity).
  assert (j_kind (as_job a_scope) = Scan) as Hk by (vm_compute; reflexivity).
  destruct (complete_assignment a_scope Succeeded (Some (lit "c0ffee")) None false 1000
    (h_db (handle_after (scanning true None)))) as [[p db']|e] eqn:E; [|discriminate V].
  destruct (completed_scan_spec _ a_scope (Some (lit "c0ffee")) None false 1000 p db'
    (handle_after_Inv (scanning true None)) a_scope_live Hk E) as (revision & repo & _ & H).
  exists p, db', revision, repo. split; [reflexivity|exact H].
Defined.
