(* ===== verification/RecoveryTheorems.v ===== *)
(** * Recovery and maintenance

    A dry run of the recovery is an exact preview of the real one, and the
    periodic scheduler gives every due repository one scan. *)

From S2P Require Import Prelude Sql Domain StateMachine Vocabulary SchedPolicy Store TxLogic Scope Repos Findings Jobs Issuer Claim Reports Recovery Invariant Preservation System Fixture JobTheorems.
From Stdlib Require Import ZArith Lia.
From stdpp Require Import base gmap sets list strings relations sorting.
Local Open Scope Z_scope.

(** ** Recovery *)

(** A verify job of finding [c]. *)
Definition verifies (c : FindingRow) (j : JobRow) : bool :=
  bool_decide (j_kind j = Verify) && sql_eq (j_target_finding_id j) (fr_id c) && (j_repo_id j =? fr_repo_id c).

Definition being_verified (d : Db) (c : FindingRow) : bool :=
  sql_exists (fun j => verifies c j && active_state (j_state j)) (jobs d).

Definition has_failed_job (d : Db) (c : FindingRow) : bool :=
  sql_exists (fun j => verifies c j && bool_decide (j_state j = Failed)) (jobs d).

(** The counts after one candidate. *)
Definition count_one (d : Db) (out : RecoveryCounts) (c : FindingRow) : RecoveryCounts :=
  if being_verified d c then out <|rc_left_queued_or_leased := rc_left_queued_or_leased out + 1|>
  else
    let out := out <|rc_revived := rc_revived out + 1|> in
    if has_failed_job d c then out <|rc_requeued_jobs := rc_requeued_jobs out + 1|>
    else out <|rc_created_jobs := rc_created_jobs out + 1|>.

Lemma failed_verify_job_some d c :
  match failed_verify_job d (fr_id c) (fr_repo_id c) with
  | Some j => has_failed_job d c = true /\ verifies c j = true /\ exists i, jobs d !! i = Some j
  | None => has_failed_job d c = false
  end.
Proof.
  unfold failed_verify_job, has_failed_job, verifies. destruct (head _) as [j|] eqn:Hh.
  - assert (j ∈ sql_sort newest_first (sql_select (fun j => bool_decide (j_kind j = Verify) &&
      sql_eq (j_target_finding_id j) (fr_id c) && (j_repo_id j =? fr_repo_id c) &&
      bool_decide (j_state j = Failed)) (jobs d))) as Hin.
    { destruct (sql_sort _ _); [done|]. cbn in Hh. simplify_eq. by left. }
    apply elem_of_sql_sort, elem_of_sql_select in Hin as (HP & i & Hj).
    split; [apply sql_exists_true; eauto|]. split; [|eauto]. by apply andb_true_iff in HP as [? _].
  - apply sql_sort_head_None in Hh. apply sql_exists_false. by apply sql_select_nil.
Qed.

(** The verify jobs of the candidates still to come are the ones of the
    database the recovery started from. *)
Record untouched (db d : Db) (cs : list FindingRow) : Prop := {
  un_keyed : forall i j, jobs d !! i = Some j -> j_id j = i;
  un_jobs : forall c, c ∈ cs -> forall i j, verifies c j = true -> jobs d !! i = Some j <-> jobs db !! i = Some j;
}.

Lemma sql_exists_untouched db d cs c (Q : JobRow -> bool) :
  untouched db d cs -> c ∈ cs ->
  sql_exists (fun j => verifies c j && Q j) (jobs d) = sql_exists (fun j => verifies c j && Q j) (jobs db).
Proof.
  intros Hu Hc. apply eq_bool_prop_intro. rewrite !Is_true_true, !sql_exists_true.
  split; intros (i & j & Hj & HP); exists i, j; (split; [|done]); apply andb_true_iff in HP as [HP _];
    by apply (un_jobs _ _ _ Hu c Hc i j HP).
Qed.

Lemma count_one_untouched db d cs c out :
  untouched db d cs -> c ∈ cs -> count_one d out c = count_one db out c.
Proof.
  intros Hu Hc. unfold count_one, being_verified, has_failed_job.
  by rewrite !(sql_exists_untouched db d cs c _ Hu Hc).
Qed.

(** A change to the verify jobs of [c] alone. *)
Lemma untouched_step db d d' c cs :
  untouched db d (c :: cs) -> fr_id c ∉ fr_id <$> cs ->
  (forall i j, jobs d' !! i = Some j -> j_id j = i) ->
  (forall i j, verifies c j = false -> jobs d' !! i = Some j <-> jobs d !! i = Some j) ->
  untouched db d' cs.
Proof.
  intros Hu Hc Hk Hs. constructor; [done|]. intros x Hx i j Hv.
  rewrite <- (un_jobs _ _ _ Hu x) by (by first [right|done]). apply Hs.
  unfold verifies in *. bool_prop.
  assert (j_target_finding_id j = Some (fr_id x)) as -> by done. cbn. destruct (Z.eqb_spec (fr_id x) (fr_id c)) as [E|]; [|by rewrite andb_false_r].
  exfalso. apply Hc. rewrite <- E. by apply list_elem_of_fmap_2.
Qed.

Lemma requeue_failed_touches d c job now o d' :
  (forall i j, jobs d !! i = Some j -> j_id j = i) -> verifies c job = true ->
  (exists i, jobs d !! i = Some job) ->
  Jobs.requeue_failed (fr_repo_id c) (j_id job) now d = Ok (o, d') ->
  (forall i j, jobs d' !! i = Some j -> j_id j = i) /\
  (forall i j, verifies c j = false -> jobs d' !! i = Some j <-> jobs d !! i = Some j).
Proof.
  intros Hk Hv (k & Hjob) H. unfold Jobs.requeue_failed in H. rewrite (transition_bind _ Queued) in H by done.
  apply tx_bind_Ok in H as (n & d1 & Hu & H).
  assert (d' = d1) as ->
    by (destruct (n =? 0); [by apply tx_ret_Ok in H as [_ ->]|by apply tx_first_Ok in H as [_ ->]]).
  apply update_jobs_Ok in Hu as (_ & _ & ->). cbn. split.
  - intros i j' (j & Hj & ->)%lookup_sql_update_Some. pose proof (Hk _ _ Hj). by destruct (_ && _).
  - intros i j Hvj. rewrite lookup_sql_update_Some. 
    assert (forall x, jobs d !! i = Some x -> j_id x = j_id job -> verifies c x = true) as Hsame.
    { intros x Hx Hid. rewrite (Hk _ _ Hx), (Hk _ _ Hjob) in Hid. by simplify_eq. }
    split.
    + intros (x & Hx & ->). destruct (_ && _) eqn:E; [|done]. bool_prop.
      unfold verifies in Hvj. cbn in Hvj. pose proof (Hsame x Hx) as Hs. unfold verifies in Hs.
      rewrite Hs in Hvj by done. done.
    + intros Hx. exists j. split; [done|]. destruct (_ && _) eqn:E; [|done]. bool_prop.
      rewrite (Hsame j Hx) in Hvj by done. done.
Qed.

Lemma enqueue_raw_touches d c now id d' :
  (forall i j, jobs d !! i = Some j -> j_id j = i) ->
  Jobs.enqueue_raw {| nj_repo_id := fr_repo_id c; nj_kind := Verify; nj_incremental := false;
    nj_since_sha := None; nj_parent_job_id := Some (fr_job_id c);
    nj_target_finding_id := Some (fr_id c) |} now d = Ok (id, d') ->
  (forall i j, jobs d' !! i = Some j -> j_id j = i) /\
  (forall i j, verifies c j = false -> jobs d' !! i = Some j <-> jobs d !! i = Some j).
Proof.
  intros Hk H. unfold Jobs.enqueue_raw in H. cbn [nj_kind] in H.
  rewrite (transition_bind _ Queued) in H by done.
  apply insert_job_Ok in H as (Hid & _ & _ & _ & ->). pose proof (next_rowid_fresh _ _ Hid) as Hfresh. cbn.
  split.
  - intros i j [[<- <-]|[_ Hj]]%lookup_insert_Some; [done|by apply Hk].
  - intros i j Hv. rewrite lookup_insert_Some. split; [|intros Hj; right; split; [congruence|done]].
    intros [[<- <-]|[_ Hj]]; [|done]. exfalso. unfold verifies in Hv. cbn in Hv.
    by rewrite !Z.eqb_refl in Hv.
Qed.

Lemma retry_verification_jobs repo id deadline d b d' :
  retry_verification repo id deadline d = Ok (b, d') -> jobs d' = jobs d.
Proof.
  unfold retry_verification, get_selected. intros H.
  apply tx_bind_Ok in H as (o & ? & [-> ->]%tx_first_Ok & H). destruct (head _); [|by tx_inv H].
  apply tx_bind_Ok in H as (s & ? & [_ ->]%tx_lift_Ok & H).
  apply tx_bind_Ok in H as (n & d1 & (_ & ->)%update_findings_Ok & H). by tx_inv H.
Qed.

(** One candidate, dry or not. *)
Lemma recover_one_dry now budget out c d : recover_one true now budget out c d = Ok (count_one d out c, d).
Proof.
  unfold recover_one. rewrite (tx_bind_run _ _ d (being_verified d c) d) by reflexivity.
  unfold count_one. destruct (being_verified d c); [done|].
  rewrite (tx_bind_run _ _ d d d) by reflexivity. pose proof (failed_verify_job_some d c) as Hf.
  destruct (failed_verify_job _ _ _) as [j|]; [destruct Hf as (-> & _)|rewrite Hf]; reflexivity.
Qed.

Lemma recover_one_real now budget out c cs db d r d' :
  untouched db d (c :: cs) -> fr_id c ∉ fr_id <$> cs ->
  recover_one false now budget out c d = Ok (r, d') ->
  r = count_one d out c /\ untouched db d' cs.
Proof.
  intros Hu Hc H. unfold recover_one in H. rewrite (tx_bind_run _ _ d (being_verified d c) d) in H by reflexivity.
  unfold count_one. destruct (being_verified d c) eqn:Hb.
  { tx_inv H. split; [done|]. eapply untouched_step; [done..|by apply Hu|done]. }
  rewrite (tx_bind_run _ _ d d d) in H by reflexivity. pose proof (failed_verify_job_some d c) as Hf.
  apply tx_bind_Ok in H as (out' & d1 & H1 & H). apply tx_bind_Ok in H as (b & d2 & H2 & H).
  tx_inv H. apply retry_verification_jobs in H2.
  destruct (failed_verify_job _ _ _) as [j|].
  - destruct Hf as (-> & Hv & Hj). apply tx_bind_Ok in H1 as (o & d3 & Hq & H1). tx_inv H1. split; [done|].
    destruct (requeue_failed_touches _ _ _ _ _ _ (un_keyed _ _ _ Hu) Hv Hj Hq) as [K S].
    eapply untouched_step; [done..| |]; by rewrite H2.
  - rewrite Hf. apply tx_bind_Ok in H1 as (o & d3 & Hq & H1). tx_inv H1. split; [done|].
    destruct (enqueue_raw_touches _ _ _ _ _ (un_keyed _ _ _ Hu) Hq) as [K S].
    eapply untouched_step; [done..| |]; by rewrite H2.
Qed.

(** The counts of a list of candidates on one database. *)
Definition count_all (db : Db) (cs : list FindingRow) (out : RecoveryCounts) : RecoveryCounts :=
  foldl (count_one db) out cs.

Lemma recover_all_dry now budget cs out d :
  recover_all true now budget out cs d = Ok (count_all d cs out, d).
Proof.
  revert out. induction cs as [|c cs IH]; intros out; [done|]. cbn [recover_all count_all foldl].
  rewrite (tx_bind_run _ _ _ _ _ (recover_one_dry now budget out c d)). apply IH.
Qed.

Lemma recover_all_real now budget cs out db d r d' :
  untouched db d cs -> NoDup (fr_id <$> cs) ->
  recover_all false now budget out cs d = Ok (r, d') -> r = count_all db cs out.
Proof.
  revert out d. induction cs as [|c cs IH]; intros out d Hu Hnd H; cbn [recover_all] in H.
  - by apply tx_ret_Ok in H as [-> _].
  - apply list.NoDup_cons in Hnd as [Hc Hnd]. apply tx_bind_Ok in H as (out' & d1 & H1 & H).
    destruct (recover_one_real _ _ _ _ _ _ _ _ _ Hu Hc H1) as [-> Hu'].
    cbn [count_all foldl]. rewrite <- (count_one_untouched db d (c :: cs) c out Hu) by (by left).
    by apply (IH _ d1).
Qed.

(** Every candidate is counted once. *)
Lemma count_all_sums db cs out :
  let r := count_all db cs out in
  rc_matched r = rc_matched out /\ rc_dry_run r = rc_dry_run out /\
  rc_revived r + rc_left_queued_or_leased r =
    rc_revived out + rc_left_queued_or_leased out + Z.of_nat (length cs) /\
  rc_requeued_jobs r + rc_created_jobs r - rc_revived r =
    rc_requeued_jobs out + rc_created_jobs out - rc_revived out.
Proof.
  revert out. induction cs as [|c cs IH]; intros out; [cbn; split_and!; done || lia|].
  cbn [count_all foldl length]. rewrite Nat2Z.inj_succ.
  specialize (IH (count_one db out c)). cbn zeta in IH. unfold count_all in IH.
  destruct IH as (-> & -> & H3 & H4). unfold count_one in *.
  set (g := foldl (count_one db)) in *. clearbody g.
  destruct (being_verified db c), (has_failed_job db c); cbn [rc_matched rc_dry_run rc_revived
    rc_left_queued_or_leased rc_requeued_jobs rc_created_jobs over] in *; split_and!; done || lia.
Qed.

Lemma count_all_flag db cs out b :
  count_all db cs (out <|rc_dry_run := b|>) = (count_all db cs out) <|rc_dry_run := b|>.
Proof.
  revert out. induction cs as [|c cs IH]; intros out; [done|]. cbn [count_all foldl].
  unfold count_all in IH. rewrite <- IH. f_equal. unfold count_one.
  by destruct (being_verified db c), (has_failed_job db c).
Qed.

Lemma recovery_candidates_NoDup db req : Inv db -> NoDup (fr_id <$> recovery_candidates db req).
Proof.
  intros Hi. unfold recovery_candidates, sql_limit.
  assert (NoDup (fr_id <$> sql_sort recovery_order (sql_select (recovery_candidate db req) (findings db)))) as Hnd.
  { unfold sql_sort. rewrite merge_sort_Permutation. apply sql_select_NoDup, Hi. }
  destruct (_ <? 0); [done|]. rewrite <- (take_drop (Z.to_nat (default (-1) (rq_limit req)))
    (sql_sort recovery_order _)), fmap_app in Hnd. by apply NoDup_app in Hnd as [? _].
Qed.

(** a dry run is an exact preview.  A dry run of the verification recovery
    always succeeds and changes nothing; whenever the real run on the same
    database succeeds it reports the same counts; and the counts are
    consistent: every candidate was either left to its active verification or
    revived, and every revived one got a requeued or a new verify job. *)
Theorem recovery_dry_run_is_a_preview db req now budget :
  Inv db ->
  let dry := req <|rq_dry_run := true|> in
  let real := req <|rq_dry_run := false|> in
  exists c, retry_verification_candidates dry now budget db = Ok (c, db) /\
    rc_matched c = Z.of_nat (length (recovery_candidates db req)) /\
    rc_revived c + rc_left_queued_or_leased c = rc_matched c /\
    rc_requeued_jobs c + rc_created_jobs c = rc_revived c /\
    forall c' db', retry_verification_candidates real now budget db = Ok (c', db') ->
      c' = c <|rc_dry_run := false|>.
Proof.
  intros Hi dry real. unfold retry_verification_candidates, transaction. cbn [rq_dry_run over dry real].
  set (cs := recovery_candidates db req).
  change (recovery_candidates db dry) with cs. change (recovery_candidates db real) with cs.
  set (zero b := {| rc_dry_run := b; rc_matched := Z.of_nat (length cs); rc_revived := 0;
    rc_requeued_jobs := 0; rc_created_jobs := 0; rc_left_queued_or_leased := 0 |}).
  rewrite !(tx_bind_run _ _ db db db) by reflexivity.
  rewrite (tx_bind_run _ _ _ _ _ (recover_all_dry now budget cs (zero true) db)).
  exists (count_all db cs (zero true)). split; [done|].
  destruct (count_all_sums db cs (zero true)) as (H1 & H2 & H3 & H4). cbn in *.
  split; [done|]. split; [lia|]. split; [lia|]. intros c' db' H.
  match type of H with (match ?m with _ => _ end) = _ => destruct m as [[[x|x] d]|] eqn:E end;
    try done; injection H as -> ->;
    apply tx_bind_Ok in E as (out & d1 & E & E'); apply tx_ret_Ok in E' as [E' ->]; try discriminate E'.
  injection E' as ->.
  apply (recover_all_real now budget cs _ db) in E;
    [|constructor; [apply Hi|done]|by apply recovery_candidates_NoDup].
  rewrite E. exact (count_all_flag db cs (zero true) false).
Qed.

Lemma recovery_dry_run_is_a_preview_witness :
  exists c, retry_verification_candidates
      {| rq_repo_id := Some 1; rq_limit := None; rq_include_inconclusive := true; rq_dry_run := true |} 3000 100
      (h_db (handle_after (verify_failed ++ [OpReapValidating 2000]))) =
    Ok (c, h_db (handle_after (verify_failed ++ [OpReapValidating 2000]))) /\
    rc_matched c = 1.
Proof.
  destruct (recovery_dry_run_is_a_preview (h_db (handle_after (verify_failed ++ [OpReapValidating 2000])))
    {| rq_repo_id := Some 1; rq_limit := None; rq_include_inconclusive := true; rq_dry_run := true |} 3000 100
    (handle_after_Inv _)) as (c & H & Hm & _).
  exists c. split; [exact H|]. rewrite Hm. vm_compute. reflexivity.
Defined.

(** ** Scheduled scans *)

(** A queued or leased scan of repository [repo]. *)
Definition active_scan (repo : Z) (j : JobRow) : bool :=
  (j_repo_id j =? repo) && bool_decide (j_kind j = Scan) && active_state (j_state j).

Definition scanned_now (d : Db) (repo : Z) : bool := sql_exists (active_scan repo) (jobs d).

(** The scan the scheduler queues for a due repository. *)
Definition scan_row (r : RepoRow) (now : Z) : JobRow :=
  queued_row {| nj_repo_id := r_id r; nj_kind := Scan; nj_incremental := sql_some (r_last_scanned_sha r);
                nj_since_sha := r_last_scanned_sha r; nj_parent_job_id := None;
                nj_target_finding_id := None |} Queued now.

(** A repository with a scan interval, not disabled, that was never scanned or
    whose interval is over. *)
Definition scan_due (now : Z) (r : RepoRow) : Prop :=
  r_disabled_at r = None /\ exists interval, r_scan_interval_seconds r = Some interval /\
    forall last, r_last_scanned_at r = Some last -> last + interval < now.

Lemma due_for_scan_iff now r : Repos.due_for_scan now r = true <-> scan_due now r.
Proof.
  unfold Repos.due_for_scan, scan_due. destruct (r_scan_interval_seconds r) as [n|].
  - rewrite andb_true_iff, sql_null_true. split.
    + intros [Hd Hl]. split; [done|]. exists n. split; [done|]. intros last E. rewrite E in Hl. by apply Z.ltb_lt.
    + intros (Hd & m & [= <-] & Hl). split; [done|].
      destruct (r_last_scanned_at r) as [last|]; [|done]. by apply Z.ltb_lt, Hl.
  - split; [done|]. by intros (_ & m & [=] & _).
Qed.

(** The scheduler's loop, with the repositories still to visit. *)
Record scheduling (db : Db) (now : Z) (due todo : list RepoRow) (d : Db) : Prop := {
  sd_rest : d = db <|jobs := jobs d|>;
  sd_unique : jobs_unique (jobs d) = true;
  sd_kept : forall i j, jobs db !! i = Some j -> jobs d !! i = Some j;
  sd_new : forall i j, jobs db !! i = None -> jobs d !! i = Some j ->
    exists r, r ∈ due /\ r_id r ∉ r_id <$> todo /\ scanned_now db (r_id r) = false /\
      j = (scan_row r now) <|j_id := i|>;
  sd_once : forall i k a b, jobs db !! i = None -> jobs db !! k = None ->
    jobs d !! i = Some a -> jobs d !! k = Some b -> j_repo_id a = j_repo_id b -> i = k;
  sd_done : forall r, r ∈ due -> r ∈ todo \/ scanned_now d (r_id r) = true;
}.

Lemma scanned_now_todo db now due r todo d :
  scheduling db now due (r :: todo) d -> scanned_now d (r_id r) = scanned_now db (r_id r).
Proof.
  intros Hs. unfold scanned_now. apply eq_bool_prop_intro. rewrite !Is_true_true, !sql_exists_true.
  split; intros (i & j & Hj & HP).
  - destruct (jobs db !! i) as [j0|] eqn:E.
    + pose proof (sd_kept _ _ _ _ _ Hs _ _ E). exists i, j0. split; [done|]. congruence.
    + destruct (sd_new _ _ _ _ _ Hs i j E Hj) as (x & _ & Hx & _ & ->). exfalso. apply Hx.
      unfold active_scan in HP. cbn in HP. bool_prop.
      assert (r_id x = r_id r) as -> by done. by left.
  - exists i, j. split; [by apply (sd_kept _ _ _ _ _ Hs)|done].
Qed.

Lemma jobs_unique_insert t i row :
  t !! i = None -> j_capability_hash row = None -> j_kind row = Scan ->
  jobs_unique t = true -> jobs_unique (<[i := row]> t) = true.
Proof.
  intros Hi Hc Hk Hu. unfold jobs_unique in *. bool_prop.
  rewrite !unique_on_insert; try done; intros j rj k Hj Hkey.
  - unfold active_drilldown_key. rewrite Hk. by rewrite andb_false_r.
  - unfold active_verify_key. rewrite Hk. by rewrite andb_false_r.
  - unfold capability_key. by rewrite Hc.
Qed.

Lemma scheduling_skip db now due r todo d :
  scheduling db now due (r :: todo) d -> scanned_now d (r_id r) = true -> scheduling db now due todo d.
Proof.
  intros [] Ha. constructor; try done.
  - intros i j Hn Hj. destruct (sd_new0 i j Hn Hj) as (x & Hx & Hnot & Hs & ->). exists x.
    split_and!; try done. intros Hin. apply Hnot. by right.
  - intros x Hx. destruct (sd_done0 x Hx) as [[->|?]%elem_of_cons|?]; auto.
Qed.

Lemma scheduling_enqueue db now due r todo d id :
  scheduling db now due (r :: todo) d -> r ∈ due -> r_id r ∉ r_id <$> todo ->
  scanned_now d (r_id r) = false -> next_rowid (jobs d) = Some id ->
  scheduling db now due todo (d <|jobs := <[id := (scan_row r now) <|j_id := id|>]> (jobs d)|>).
Proof.
  intros Hs Hr Hnot Ha Hid. pose proof (next_rowid_fresh _ _ Hid) as Hfresh.
  pose proof (scanned_now_todo _ _ _ _ _ _ Hs) as Hsame. destruct Hs as [R U K N O D].
  assert (jobs db !! id = None) as Hdb.
  { destruct (jobs db !! id) eqn:E; [|done]. apply K in E. congruence. }
  assert (forall i a, jobs db !! i = None -> jobs d !! i = Some a -> j_repo_id a <> r_id r) as Hother.
  { intros i a Hn Ha'. destruct (N i a Hn Ha') as (x & _ & Hx & _ & ->). cbn. intros E. apply Hx.
    rewrite E. by left. }
  constructor; cbn.
  - rewrite R. done.
  - by apply jobs_unique_insert.
  - intros i j Hj. rewrite lookup_insert_ne; [by apply K|]. intros <-. congruence.
  - intros i j Hn [[<- <-]|[_ Hj]]%lookup_insert_Some.
    + exists r. by rewrite <- Hsame.
    + destruct (N i j Hn Hj) as (x & Hx & Hnx & Hs & ->). exists x. split_and!; try done.
      intros Hin. apply Hnx. by right.
  - intros i k a b Hi Hk [[<- <-]|[_ Hia]]%lookup_insert_Some [[<- <-]|[_ Hkb]]%lookup_insert_Some E; try done.
    + exfalso. by apply (Hother k b).
    + exfalso. by apply (Hother i a).
    + by eapply O.
  - intros x Hx. destruct (D x Hx) as [[->|?]%elem_of_cons|Hd]; [right|by left|right].
    + apply sql_exists_true. exists id. eexists. split; [apply lookup_insert_eq|].
      unfold active_scan. cbn. by rewrite Z.eqb_refl.
    + apply sql_exists_true in Hd as (i & j & Hj & HP). apply sql_exists_true. exists i, j.
      split; [|done]. cbn. rewrite lookup_insert_ne; [done|]. intros <-. congruence.
Qed.

Lemma count_active_scans_run repo d :
  exists n, Jobs.count_active_scans_for_repo repo d = Ok (n, d) /\ (n =? 0) = negb (scanned_now d repo).
Proof.
  eexists. split; [reflexivity|]. unfold scanned_now. destruct (sql_exists _ _) eqn:E; cbn [negb].
  - apply Z.eqb_neq. apply sql_exists_true, sql_count_pos in E.
    change (0 < sql_count (active_scan repo) (jobs d)) in E. intros H. unfold active_scan in E. lia.
  - apply Z.eqb_eq, sql_count_zero. by apply sql_exists_false.
Qed.

Lemma schedule_loop db now due todo n d :
  Inv db -> scheduling db now due todo d -> NoDup (r_id <$> todo) ->
  (forall r, r ∈ todo -> r ∈ due /\ registered_repos db !! r_id r = Some r) ->
  match schedule_repos now todo n d with
  | Ok (m, d') => scheduling db now due [] d'
  | Err e => e = Sqlite RowIdsExhausted
  end.
Proof.
  intros Hi. revert n d. induction todo as [|r todo IH]; intros n d Hs Hnd Hin; [done|].
  apply list.NoDup_cons in Hnd as [Hr Hnd]. destruct (Hin r) as [Hdue Hreg]; [by left|].
  assert (forall x, x ∈ todo -> x ∈ due /\ registered_repos db !! r_id x = Some x) as Hin'
    by (intros x Hx; apply Hin; by right).
  cbn [schedule_repos]. destruct (count_active_scans_run (r_id r) d) as (k & Hk & Hz).
  rewrite (tx_bind_run _ _ _ _ _ Hk), Hz. destruct (scanned_now d (r_id r)) eqn:Ha; cbn [negb].
  - apply IH; [by eapply scheduling_skip|done|done].
  - unfold Jobs.enqueue_raw. cbn [nj_kind].
    unfold mbind, tx_bind at 1. unfold apply_transition, tx_lift. cbn [map_err initial_job_state].
    unfold tx_bind. change (insert_job _ d) with (insert_job (scan_row r now) d).
    unfold insert_job. destruct (next_rowid (jobs d)) as [id|] eqn:Hid; [|done].
    pose proof (scheduling_enqueue _ _ _ _ _ _ _ Hs Hdue Hr Ha Hid) as Hs'.
    pose proof (sd_unique _ _ _ _ _ Hs') as Hu. cbn [jobs over] in Hu. rewrite Hu. cbn [andb fk].
    assert (registered_repos d = registered_repos db) as Hreg' by (by rewrite (sd_rest _ _ _ _ _ Hs)).
    cbn. rewrite Hreg', Hreg. cbn. by apply IH.
Qed.

(** scheduled scans.  One pass of the scheduler either runs out of row ids
    or leaves every due repository with a queued or leased scan; it adds only
    scans of due repositories that had none, at most one per repository, taken
    incrementally from the last scanned revision when there is one; and no
    existing job and no other table changes. *)
Theorem schedule_due_spec db now :
  Inv db ->
  match schedule_due now db with
  | Ok (n, db') => exists due,
      (forall r, r ∈ due <-> scan_due now r /\ exists i, registered_repos db !! i = Some r) /\
      scheduling db now due [] db'
  | Err e => e = Sqlite RowIdsExhausted
  end.
Proof.
  intros Hi. set (due := sql_select (Repos.due_for_scan now) (registered_repos db)).
  assert (match schedule_repos now due 0 db with
          | Ok (m, d') => scheduling db now due [] d' | Err e => e = Sqlite RowIdsExhausted end) as Hloop.
  { apply schedule_loop; [done| |by apply sql_select_NoDup, Hi|].
    - constructor; try done; [by destruct db|apply Hi|intros; congruence..|by left].
    - intros r Hr. split; [done|]. apply elem_of_sql_select in Hr as (_ & i & Hr).
      by rewrite (g_repo_id _ _ Hi _ _ Hr). }
  unfold schedule_due, immediate, transaction, mbind, tx_bind, mret, tx_ret, Repos.list_due_for_scan, tx_select.
  fold due. destruct (schedule_repos now due 0 db) as [[m d']|e]; [|done]. exists due. split; [|done].
  intros r. unfold due. by rewrite elem_of_sql_select, due_for_scan_iff.
Qed.

Lemma schedule_due_spec_witness :
  exists n db', schedule_due 100 (h_db (handle_after (scanned true None))) = Ok (n, db') /\
    scanned_now db' 1 = true /\ scanned_now db' 2 = true.
Proof.
  pose proof (schedule_due_spec _ 100 (handle_after_Inv (scanned true None))) as H.
  assert (is_ok (schedule_due 100 (h_db (handle_after (scanned true None)))) = true) as V
    by (vm_compute; reflexivity).
  destruct (schedule_due 100 (h_db (handle_after (scanned true None)))) as [[n db']|e]; [|discriminate V].
  exists n, db'. split; [reflexivity|]. destruct H as (due & Hdue & H).
  assert (forall k, k ∈ [1; 2] -> scanned_now db' k = true) as Hk.
  { intros k Hk. assert (k ∈ r_id <$> sql_select (Repos.due_for_scan 100)
      (registered_repos (h_db (handle_after (scanned true None))))) as Hin.
    { assert (r_id <$> sql_select (Repos.due_for_scan 100)
        (registered_repos (h_db (handle_after (scanned true None)))) = [1; 2]) as -> by (vm_compute; reflexivity).
      exact Hk. }
    apply list_elem_of_fmap in Hin as (r & -> & (Hs%due_for_scan_iff & Hr)%elem_of_sql_select).
    destruct (sd_done _ _ _ _ _ H r (proj2 (Hdue r) (conj Hs Hr))) as [Hnil|Hd];
      [by apply not_elem_of_nil in Hnil|exact Hd]. }
  split; apply Hk; rewrite !elem_of_cons; [left|right; left]; reflexivity.
Defined.
