(* ===== verification/CredentialTheorems.v ===== *)
(** * Report credentials

    A repository that reports to GitHub names either a stored token or the
    server-wide app.  Tokens are inserted, replaced and garbage-collected by
    the registry operations; this file shows that none of them, and nothing
    else the system does, ever leaves a repository without the credential it
    names. *)

From S2P Require Import Prelude Sql Domain StateMachine Vocabulary SchedPolicy Store TxLogic Scope Repos Findings Jobs Issuer Claim Reports Recovery Invariant Preservation System Fixture.
From Stdlib Require Import ZArith Lia.
From stdpp Require Import base gmap sets list strings relations.
Local Open Scope Z_scope.

Definition is_pat (s : SecretRow) : bool := bool_decide (s_kind s = GithubPat).

(** What the reporting column of a repository refers to is stored. *)
Definition resolves (t : gmap Z SecretRow) (d : ReportingDestination) : Prop :=
  match d with
  | GithubIssue _ _ (Some id) => exists s, t !! id = Some s /\ is_pat s = true
  | GithubIssue _ _ None => exists i s, t !! i = Some s /\ GithubAppStore.is_app s = true
  | _ => True
  end.

Record credentials_ok (db : Db) : Prop := {
  co_secret_id : forall i s, secrets db !! i = Some s -> s_id s = i;
  co_repo_id : forall i r, registered_repos db !! i = Some r -> r_id r = i;
  co_resolves : forall i r, registered_repos db !! i = Some r -> resolves (secrets db) (r_reporting r);
}.

(** ** Steps that leave secrets, destinations and workers alone *)

Record calm_step (db db' : Db) : Prop := {
  ca_secrets : secrets db' = secrets db;
  ca_workers : workers db' = workers db;
  ca_repos : forall i r', registered_repos db' !! i = Some r' ->
    exists r, registered_repos db !! i = Some r /\ r_reporting r' = r_reporting r /\ r_id r' = r_id r;
}.

#[export] Instance calm_step_refl : Reflexive calm_step.
Proof. intros db. constructor; eauto. Qed.

#[export] Instance calm_step_trans : Transitive calm_step.
Proof.
  intros a b c [S1 W1 R1] [S2 W2 R2]. constructor; [congruence..|]. intros i r2 H2.
  destruct (R2 _ _ H2) as (r1 & H1 & E1 & I1). destruct (R1 _ _ H1) as (r & H & E & I).
  exists r. split; [done|]. split; congruence.
Qed.

Lemma credentials_ok_calm db db' : credentials_ok db -> calm_step db db' -> credentials_ok db'.
Proof.
  intros [S I R] [ES _ ER]. constructor; [by rewrite ES|..].
  - intros i r' Hr. destruct (ER _ _ Hr) as (r & Hr0 & _ & ->). by apply I.
  - intros i r' Hr. destruct (ER _ _ Hr) as (r & Hr0 & -> & _). rewrite ES. by eapply R.
Qed.

Definition calm {A} (m : Tx A) : Prop := forall db a db', m db = Ok (a, db') -> calm_step db db'.

Lemma calm_same {A} (m : Tx A) :
  (forall db a db', m db = Ok (a, db') ->
     secrets db' = secrets db /\ workers db' = workers db /\ registered_repos db' = registered_repos db) ->
  calm m.
Proof. intros Hm db a db' (E & W & R)%Hm. constructor; [done..|]. rewrite R. eauto. Qed.

Lemma calm_bind {A B} (m : Tx A) (f : A -> Tx B) : calm m -> (forall a, calm (f a)) -> calm (m ≫= f).
Proof. intros Hm Hf db b db' (a & d & Ha & Hb)%tx_bind_Ok. etrans; [by eapply Hm|by eapply Hf]. Qed.

Lemma calm_immediate {A} (m : Tx A) : calm m -> calm (immediate m).
Proof. intros Hm db a db' H%(proj1 (immediate_Ok _ _ _ _)). by eapply Hm. Qed.

Lemma calm_transaction {A} (m : Tx (Ending A)) : calm m -> calm (transaction m).
Proof. intros Hm db a db' [H|(d & H & ->)]%transaction_Ok; [by eapply Hm|reflexivity]. Qed.

Lemma calm_for {A} (xs : list A) f : (forall x, calm (f x)) -> calm (tx_for xs f).
Proof.
  intros Hf. induction xs as [|x xs IH]; [|by apply calm_bind]. apply calm_same.
  by intros db a db' [_ ->]%tx_ret_Ok.
Qed.

Lemma calm_update_repos P f :
  (forall r, r_reporting (f r) = r_reporting r /\ r_id (f r) = r_id r) -> calm (update_repos P f).
Proof.
  intros Hf db n db' (_ & ->)%update_repos_Ok. constructor; [done..|].
  intros i r' (r & Hr & ->)%lookup_sql_update_Some. exists r. split; [done|].
  destruct (P r); [apply Hf|done].
Qed.

(** Statements on the other tables, and reads. *)
Ltac calm_leaf :=
  apply calm_same; intros ? ? ?;
  first
    [ by intros [_ ->]%tx_ret_Ok | by intros [_ ->]%tx_get_Ok | by intros [_ ->]%tx_exists_Ok
    | by intros [_ ->]%tx_select_Ok | by intros [_ ->]%tx_first_Ok | by intros [_ ->]%tx_lift_Ok
    | by intros []%tx_err_Ok | by intros (_ & _ & ->)%update_jobs_Ok
    | by intros (_ & _ & _ & _ & ->)%insert_job_Ok | by intros (_ & ->)%update_findings_Ok
    | by intros (_ & _ & ->)%insert_verification_row_Ok | by intros (? & ->)%insert_history_Ok
    | by intros [= _ <-]
    | let H := fresh in intros H; repeat case_match; by simplify_eq ].

Ltac calm :=
  repeat first
    [ progress cbv beta
    | solve [auto with loupe]
    | apply calm_immediate
    | apply calm_transaction
    | apply calm_bind; [|intros ?]
    | apply calm_for; intros ?
    | calm_leaf
    | case_match ].

Lemma calm_prepare scope sel : calm (prepare scope sel).
Proof. apply calm_same. by intros db p db' ->%prepare_reads. Qed.

Lemma calm_insert_finding row : calm (insert_finding_row row).
Proof. unfold insert_finding_row. calm_leaf. Qed.

Lemma calm_transition {A} (r : result StateTransitionError A) : calm (apply_transition r).
Proof. unfold apply_transition. calm_leaf. Qed.

Lemma calm_insert_verification repo f input now : calm (insert_verification repo f input now).
Proof. unfold insert_verification. destruct (verification_columns input) as [[? ?] ?]. calm. Qed.
#[export] Hint Resolve calm_prepare calm_insert_finding calm_transition calm_insert_verification : loupe.

(** ** The queue, finding and report operations are calm *)

Lemma calm_retry_verification repo f deadline : calm (retry_verification repo f deadline).
Proof. unfold retry_verification, get_selected. calm. Qed.

Lemma calm_requeue_failed repo job now : calm (Jobs.requeue_failed repo job now).
Proof. unfold Jobs.requeue_failed, get_scoped_raw. calm. Qed.

Lemma calm_enqueue_raw new now : calm (Jobs.enqueue_raw new now).
Proof. unfold Jobs.enqueue_raw. calm. Qed.

Lemma calm_require_operator scope : calm (require_operator scope).
Proof. unfold require_operator. calm. Qed.

Lemma calm_roll_up repo f ti ra now : calm (roll_up_verdicts_for_finding repo f ti ra now).
Proof. unfold roll_up_verdicts_for_finding, get_selected, has_verdict_for. calm. Qed.

Lemma calm_attach repo f p n cn now : calm (attach_proposed_patch repo f p n cn now).
Proof. unfold attach_proposed_patch. calm. Qed.

Lemma calm_enqueue_verify_jobs repo job now : calm (Jobs.enqueue_verify_jobs_for_scan repo job now).
Proof. unfold Jobs.enqueue_verify_jobs_for_scan. calm. Qed.

Lemma calm_transition_scan repo job ra deadline now :
  calm (transition_scan_findings_after_success repo job ra deadline now).
Proof. unfold transition_scan_findings_after_success. calm. Qed.

Lemma calm_delete_pending repo job : calm (delete_pending_for_job repo job).
Proof. unfold delete_pending_for_job. calm. Qed.

Lemma calm_prepare_assignment scope : calm (prepare_assignment scope).
Proof. unfold prepare_assignment. calm. Qed.

Lemma calm_complete lease st head err now : calm (Jobs.complete lease st head err now).
Proof. unfold Jobs.complete. calm. Qed.
#[export] Hint Resolve calm_retry_verification calm_requeue_failed calm_enqueue_raw calm_require_operator
  calm_roll_up calm_attach calm_enqueue_verify_jobs calm_transition_scan calm_delete_pending
  calm_prepare_assignment calm_complete : loupe.

Lemma calm_enqueue scope new now : calm (Jobs.enqueue scope new now).
Proof. unfold Jobs.enqueue, Jobs.get, get_scoped_raw, Findings.get, get_selected. calm. Qed.

Lemma calm_cancel job now : calm (Jobs.cancel job now).
Proof. unfold Jobs.cancel, Jobs.get_raw. calm. Qed.

Lemma calm_retry_failed job now deadline : calm (Jobs.retry_failed job now deadline).
Proof.
  unfold Jobs.retry_failed, Jobs.get_raw, retry_verify_target, Findings.get_raw,
    is_deadline_dismissed_without_terminal_verdict. calm.
Qed.

Lemma calm_recovery req now budget : calm (retry_verification_candidates req now budget).
Proof.
  unfold retry_verification_candidates. apply calm_transaction, calm_bind; [calm|intros db].
  apply calm_bind; [|intros ?; calm]. generalize (recovery_candidates db req). intros cs.
  match goal with |- calm (recover_all _ _ _ ?o _) => generalize o end.
  induction cs as [|c cs IH]; intros out; cbn [recover_all]; [calm|].
  apply calm_bind; [|intros ?; apply IH]. unfold recover_one. calm.
Qed.

Lemma calm_reject scope id cn now : calm (Findings.reject scope id cn now).
Proof. unfold Findings.reject, Findings.get, get_selected. calm. Qed.

Lemma calm_approve_report scope id cn now : calm (Reports.approve scope id cn now).
Proof. unfold Reports.approve, Findings.approve, prepare_operator, get_selected. calm. Qed.

Lemma calm_claim phase_tail req : calm (claim phase_tail req).
Proof.
  unfold claim, Repos.get_raw, get_selected. apply calm_immediate, calm_bind; [|intros ?; calm].
  apply calm_same. intros db a db' [(_ & -> & _)|(j & n & _ & _ & _ & Hu)]%claim_raw_cases; [done|].
  by apply update_jobs_Ok in Hu as (_ & _ & ->).
Qed.

Lemma calm_submit scope f g : calm (submit scope f g).
Proof. unfold submit, Repos.get, Repos.get_raw, insert_with_identity. calm. Qed.

Lemma calm_submit_verdict scope v cn ti ra : calm (submit_verdict scope v cn ti ra).
Proof. unfold submit_verdict, Repos.get_raw. calm. Qed.

Lemma calm_complete_assignment scope st head err ra deadline :
  calm (complete_assignment scope st head err ra deadline).
Proof.
  unfold complete_assignment, complete_scan, complete_verify, Repos.get_raw. calm.
  by apply calm_update_repos.
Qed.

Lemma calm_reap_legacy now : calm (Jobs.reap_legacy now).
Proof. unfold Jobs.reap_legacy. calm. Qed.

Lemma calm_reap_stale_validating now : calm (reap_stale_validating now).
Proof. unfold reap_stale_validating. calm. Qed.

Lemma calm_schedule_due now : calm (schedule_due now).
Proof.
  unfold schedule_due, Repos.list_due_for_scan. calm. generalize 0.
  match goal with |- forall _, calm (schedule_repos _ ?l _) => induction l as [|r l IH] end;
    intros n; cbn [schedule_repos]; [calm|]. unfold Jobs.count_active_scans_for_repo. calm; apply IH.
Qed.

Lemma calm_mark_members repo now ch i ms changed : calm (mark_members repo now ch i ms changed).
Proof.
  revert i changed. induction ms as [|m ms IH]; intros i changed; cbn [mark_members]; [calm|].
  case_match; [|apply IH]. apply calm_bind; [|intros ?; apply IH]. unfold mark_member. calm.
Qed.

Lemma calm_update_repo scope patch now : calm (Repos.update scope patch now).
Proof.
  unfold Repos.update, Repos.update_raw, Repos.get_raw. calm.
  apply calm_update_repos. intros r. unfold Repos.apply_patch. by repeat case_match.
Qed.

(** ** The registry operations *)

Lemma resolves_mono t t' d :
  (forall i s, t !! i = Some s -> exists s', t' !! i = Some s' /\ s_kind s' = s_kind s /\ s_label s' = s_label s) ->
  resolves t d -> resolves t' d.
Proof.
  intros Ht. unfold resolves, is_pat, GithubAppStore.is_app. destruct d as [o n [id|]| |]; try done.
  - intros (s & Hs & HP). destruct (Ht _ _ Hs) as (s' & Hs' & Ek & _). exists s'. by rewrite Ek.
  - intros (i & s & Hs & HP). destruct (Ht _ _ Hs) as (s' & Hs' & Ek & El). exists i, s'. by rewrite Ek, El.
Qed.

Lemma secret_insert_Ok kind label value now db id db' :
  Secrets.insert kind label value now db = Ok (id, db') ->
  secrets db !! id = None /\
  db' = db <|secrets := <[id := {| s_id := id; s_kind := kind; s_label := label; s_value := value;
                                   s_created_at := now |}]> (secrets db)|>.
Proof.
  unfold Secrets.insert. destruct (next_rowid (secrets db)) as [k|] eqn:Hk; [|done].
  case_match; [|done]. intros [= <- <-]. split; [by apply next_rowid_fresh|done].
Qed.

Lemma credentials_secret_insert kind label value now db id db' :
  credentials_ok db -> Secrets.insert kind label value now db = Ok (id, db') ->
  credentials_ok db' /\ registered_repos db' = registered_repos db /\
  exists s, secrets db' !! id = Some s /\ s_kind s = kind /\ s_label s = label.
Proof.
  intros [S I R] (Hn & ->)%secret_insert_Ok. split; [constructor; cbn|split; [done|]].
  - intros i s [[<- <-]|[_ Hs]]%lookup_insert_Some; [done|by apply S].
  - done.
  - intros i r Hr. eapply resolves_mono; [|by eapply R]. intros k s Hs. exists s.
    split; [|done]. rewrite lookup_insert_ne; [done|]. intros <-. congruence.
  - eexists. cbn. rewrite lookup_insert_eq. done.
Qed.

Lemma credentials_repo_insert new now db id db' :
  credentials_ok db -> resolves (secrets db) (Repos.nr_reporting new) ->
  Repos.insert new now db = Ok (id, db') -> credentials_ok db'.
Proof.
  intros [S I R] Hn H. unfold Repos.insert in H.
  destruct (next_rowid (registered_repos db)) as [k|]; [|done]. case_match; [|done]. simplify_eq.
  constructor; cbn; [done|..].
  - intros i r [[<- <-]|[_ Hr]]%lookup_insert_Some; [done|by apply I].
  - intros i r [[<- <-]|[_ Hr]]%lookup_insert_Some; [done|by eapply R].
Qed.

Lemma app_found db o d :
  GithubAppStore.get db = Ok (Some o, d) ->
  d = db /\ exists i s, secrets db !! i = Some s /\ GithubAppStore.is_app s = true.
Proof.
  unfold GithubAppStore.get. intros (row & d1 & [-> ->]%tx_first_Ok & [E ->]%tx_ret_Ok)%tx_bind_Ok.
  split; [done|]. destruct (head _) as [s|] eqn:Hs; [|done].
  apply head_select_Some in Hs as (HP & i & Hi). eauto.
Qed.

Lemma credentials_register new pat now db r db' :
  credentials_ok db -> Registry.register_repository new pat now db = Ok (r, db') -> credentials_ok db'.
Proof.
  intros Hc H%(proj1 (immediate_Ok _ _ _ _)).
  destruct (Repos.nr_reporting new) as [o n [id|]| |] eqn:Hrep; [by tx_inv H|..].
  - destruct pat as [pat|].
    + apply tx_bind_Ok in H as (secret & d & Hs & H). apply tx_bind_Ok in H as (id & d2 & Hi & H).
      apply tx_ret_Ok in H as [_ ->].
      destruct (credentials_secret_insert _ _ _ _ _ _ _ Hc Hs) as (Hc' & _ & s & Hs' & Hk & _).
      eapply credentials_repo_insert; [exact Hc'| |exact Hi]. cbn. exists s. split; [done|].
      unfold is_pat. by rewrite bool_decide_eq_true.
    + apply tx_bind_Ok in H as (app & d & Ha & H). destruct app as [app|].
      * apply app_found in Ha as (-> & Happ). apply tx_bind_Ok in H as (id & d2 & Hi & H).
        apply tx_ret_Ok in H as [_ ->]. eapply credentials_repo_insert; [exact Hc| |exact Hi].
        by rewrite Hrep.
      * apply tx_ret_Ok in H as [_ ->]. unfold GithubAppStore.get in Ha. by tx_inv Ha.
  - destruct pat; [by tx_inv H|]. apply tx_bind_Ok in H as (id & d2 & Hi & H). apply tx_ret_Ok in H as [_ ->].
    eapply credentials_repo_insert; [exact Hc| |exact Hi]. by rewrite Hrep.
  - destruct pat; [by tx_inv H|]. apply tx_bind_Ok in H as (id & d2 & Hi & H). apply tx_ret_Ok in H as [_ ->].
    eapply credentials_repo_insert; [exact Hc| |exact Hi]. by rewrite Hrep.
Qed.

Lemma credentials_update_reporting repo dest db b db' :
  credentials_ok db -> resolves (secrets db) dest ->
  Repos.update_reporting repo dest db = Ok (b, db') -> credentials_ok db' /\ secrets db' = secrets db.
Proof.
  intros [S I R] Hd H. unfold Repos.update_reporting in H.
  apply tx_bind_Ok in H as (n & d & (_ & ->)%update_repos_Ok & [_ ->]%tx_ret_Ok).
  split; [constructor; cbn|]; try done.
  - intros i r' (r & Hr & ->)%lookup_sql_update_Some. pose proof (I _ _ Hr). by case_match.
  - intros i r' (r & Hr & ->)%lookup_sql_update_Some. case_match; [done|by eapply R].
Qed.

(** Deleting a token nobody references. *)
Lemma credentials_secret_delete id db b db' :
  credentials_ok db ->
  (forall i r, registered_repos db !! i = Some r ->
     match r_reporting r with GithubIssue _ _ p => p <> Some id | _ => True end) ->
  (forall s, secrets db !! id = Some s -> is_pat s = true) ->
  Secrets.delete id db = Ok (b, db') -> credentials_ok db'.
Proof.
  intros [S I R] Hno Hpat [= _ <-]. constructor; cbn; [|done|].
  - intros i s [Hs _]%lookup_sql_delete_Some. by apply S.
  - intros i r Hr. specialize (R i r Hr). specialize (Hno i r Hr). unfold resolves in *.
    destruct (r_reporting r) as [o n [p|]| |]; try done.
    + destruct R as (s & Hs & HP). exists s. split; [|done]. apply lookup_sql_delete_Some. split; [done|].
      apply Z.eqb_neq. rewrite (S _ _ Hs). congruence.
    + destruct R as (k & s & Hs & HP). exists k, s. split; [|done]. apply lookup_sql_delete_Some.
      split; [done|]. apply Z.eqb_neq. rewrite (S _ _ Hs). intros ->. apply Hpat in Hs.
      unfold is_pat, GithubAppStore.is_app in *. bool_prop. congruence.
Qed.

(** The tail of [set_github_reporting]: write the destination, then drop the
    token it replaced unless another repository still uses it. *)
Lemma credentials_write repo dest previous db r db' :
  credentials_ok db -> resolves (secrets db) dest ->
  (forall p s, previous = Some p -> secrets db !! p = Some s -> is_pat s = true) ->
  (changed ← Repos.update_reporting repo dest;
   _ ← match previous with
       | Some previous =>
           n ← Repos.count_github_pat_references previous;
           if n =? 0 then Secrets.delete previous else mret false
       | None => mret false
       end;
   mret (Repos.Done changed)) db = Ok (r, db') -> credentials_ok db'.
Proof.
  intros Hc Hd Hp H. apply tx_bind_Ok in H as (b & d & Hu & H).
  destruct (credentials_update_reporting _ _ _ _ _ Hc Hd Hu) as [Hc' Hs].
  apply tx_bind_Ok in H as (b2 & d2 & H2 & [_ ->]%tx_ret_Ok).
  destruct previous as [p|]; [|by apply tx_ret_Ok in H2 as [_ ->]].
  apply tx_bind_Ok in H2 as (n & d3 & Hn & H2).
  unfold Repos.count_github_pat_references, Repos.count_github_destinations in Hn. injection Hn as <- <-.
  destruct (_ =? 0) eqn:E; [|by apply tx_ret_Ok in H2 as [_ ->]].
  eapply credentials_secret_delete; [exact Hc'| |by rewrite Hs; intros s; apply Hp|exact H2].
  apply Z.eqb_eq in E. intros i x Hx. pose proof (proj1 (sql_count_zero _ _) E i x Hx) as Hx'. cbn in Hx'.
  destruct (r_reporting x) as [o' n' [q|]| |]; try done. cbn in Hx'. bool_prop. congruence.
Qed.

Lemma credentials_set_reporting scope owner name pat now db r db' :
  credentials_ok db -> Repos.set_github_reporting scope owner name pat now db = Ok (r, db') -> credentials_ok db'.
Proof.
  intros Hc H. unfold Repos.set_github_reporting in H.
  apply tx_bind_Ok in H as (u & d & Hop & H).
  assert (d = db) as -> by (unfold require_operator in Hop; destruct (rs_operator scope); by tx_inv Hop).
  unfold Repos.get, Repos.get_raw in H. apply tx_bind_Ok in H as (o & ? & [-> ->]%tx_first_Ok & H).
  destruct (head _) as [old|] eqn:Hold; [|by apply tx_ret_Ok in H as [_ ->]].
  apply head_select_Some in Hold as (_ & ri & Hold).
  assert (forall p s, match r_reporting old with GithubIssue _ _ p => p | _ => None end = Some p ->
    secrets db !! p = Some s -> is_pat s = true) as Hprev.
  { intros p s Hp Hs. pose proof (co_resolves _ Hc _ _ Hold) as Hr. unfold resolves in Hr.
    destruct (r_reporting old) as [o' n' [q|]| |]; try done. injection Hp as ->.
    destruct Hr as (s' & Hs' & HP). congruence. }
  destruct pat as [pat|].
  - apply tx_bind_Ok in H as (id & d & Hs & H).
    destruct (credentials_secret_insert _ _ _ _ _ _ _ Hc Hs) as (Hc' & _ & s & Hs' & Hk & _).
    eapply (credentials_write _ (GithubIssue owner name (Some id))); [exact Hc'| | |exact H].
    + cbn. exists s. split; [done|]. unfold is_pat. by rewrite bool_decide_eq_true.
    + intros p s' Hp Hps. apply secret_insert_Ok in Hs as (Hn & ->). cbn in Hps.
      apply lookup_insert_Some in Hps as [[<- <-]|[_ Hps]]; [done|]. by eapply Hprev.
  - apply tx_bind_Ok in H as (app & d & Ha & H). destruct app as [app|].
    + apply app_found in Ha as (-> & Happ).
      by eapply (credentials_write _ (GithubIssue owner name None)); [exact Hc|exact Happ| |exact H].
    + apply tx_ret_Ok in H as [_ ->]. unfold GithubAppStore.get in Ha. by tx_inv Ha.
Qed.

Lemma credentials_rotate scope pat now db r db' :
  credentials_ok db -> Repos.rotate_github_pat scope pat now db = Ok (r, db') -> credentials_ok db'.
Proof.
  intros Hc H. unfold Repos.rotate_github_pat in H. apply tx_bind_Ok in H as (u & d & Hop & H).
  assert (d = db) as -> by (unfold require_operator in Hop; destruct (rs_operator scope); by tx_inv Hop).
  unfold Repos.get, Repos.get_raw in H. apply tx_bind_Ok in H as (o & ? & [-> ->]%tx_first_Ok & H).
  destruct (head _) as [old|]; [|by apply tx_ret_Ok in H as [_ ->]].
  destruct (r_reporting old) as [ow rp [q|]| |]; try by apply tx_ret_Ok in H as [_ ->].
  apply tx_bind_Ok in H as (w & d & Hs & [_ ->]%tx_ret_Ok). by eapply credentials_set_reporting.
Qed.

Lemma credentials_clear_app db r db' :
  credentials_ok db -> Registry.clear_github_app db = Ok (r, db') -> credentials_ok db'.
Proof.
  intros Hc H%(proj1 (immediate_Ok _ _ _ _)). apply tx_bind_Ok in H as (n & d & Hn & H).
  unfold Repos.count_github_app_references, Repos.count_github_destinations in Hn. injection Hn as <- <-.
  destruct (negb _) eqn:E; [by apply tx_ret_Ok in H as [_ ->]|]. bool_prop.
  apply tx_bind_Ok in H as (b & d & [= _ <-] & [_ ->]%tx_ret_Ok). destruct Hc as [S I R].
  constructor; cbn; [|done|].
  - intros i s [Hs _]%lookup_sql_delete_Some. by apply S.
  - intros i x Hx. pose proof (proj1 (sql_count_zero _ _) E i x Hx) as Hno. cbn in Hno.
    specialize (R i x Hx). unfold resolves in *. destruct (r_reporting x) as [o n [p|]| |]; try done.
    destruct R as (s & Hs & HP). exists s. split; [|done]. apply lookup_sql_delete_Some. split; [done|].
    unfold is_pat, GithubAppStore.is_app in *. bool_prop. by rewrite HP.
Qed.

Lemma credentials_set_app v now db r db' :
  credentials_ok db -> GithubAppStore.set_app v now db = Ok (r, db') -> credentials_ok db'.
Proof.
  intros Hc H. unfold GithubAppStore.set_app in H. destruct (sql_exists _ _).
  - injection H as _ <-. destruct Hc as [S I R]. constructor; cbn; [|done|].
    + intros i s' (s & Hs & ->)%lookup_sql_update_Some. pose proof (S _ _ Hs). by case_match.
    + intros i x Hx. eapply resolves_mono; [|by eapply R]. intros k s Hs. eexists.
      split; [apply lookup_sql_update_Some; eauto|]. by case_match.
  - destruct (Secrets.insert _ _ _ _ db) as [[id d]|] eqn:E; [|done]. injection H as _ <-.
    by apply (credentials_secret_insert _ _ _ _ _ _ _ Hc E).
Qed.

Lemma credentials_delete_repo id db b db' :
  credentials_ok db -> Repos.delete_raw id db = Ok (b, db') -> credentials_ok db'.
Proof.
  intros [S I R] [= _ <-]. constructor; cbn; [done|..].
  - intros i r [Hr _]%lookup_sql_delete_Some. by apply I.
  - intros i r [Hr _]%lookup_sql_delete_Some. by eapply R.
Qed.

(** ** The running system *)

Section Lifting.
  Context (P : Db -> Prop).

Definition preserves {A} (m : Tx A) : Prop := forall db a db', P db -> m db = Ok (a, db') -> P db'.

Lemma preserves_conn {A} (m : Tx A) h : preserves m -> P (h_db h) -> P (h_db (with_conn m h).2).
Proof.
  intros Hm HP. unfold with_conn. destruct (m (h_db h)) as [[a db]|e] eqn:E; [|done].
  by eapply Hm.
Qed.

Lemma preserves_issue {A} scope (body : RepoScope -> Tx A) h :
  (forall s, preserves (body s)) -> P (h_db h) -> P (h_db (issue scope body h).2).
Proof.
  intros Hb HP. unfold issue. destruct (body _ (h_db h)) as [[a db]|e] eqn:E; [|done].
  by eapply Hb.
Qed.

Lemma preserves_operator {A} target (body : RepoScope -> Tx A) h :
  (forall s, preserves (body s)) -> P (h_db h) -> P (h_db (with_operator_repository target body h).2).
Proof.
  intros Hb HP. unfold with_operator_repository. destruct (target_repository _ _); [|done].
  by apply preserves_issue.
Qed.

Lemma preserves_lease {A} lease (body : AssignmentScope -> Tx A) h :
  (forall s, preserves (body s)) -> P (h_db h) -> P (h_db (with_active_lease lease body h).2).
Proof.
  intros Hb HP. unfold with_active_lease. destruct (Jobs.get_active_by_capability_hash _ _ _ _) as [[[j|] d]|e];
    try done. destruct (negb _); [done|].
  match goal with |- context [issue ?s ?b h] =>
    pose proof (preserves_issue s b h (fun r => Hb _) HP) as Hi; destruct (issue s b h) as [r h'] end.
  exact Hi.
Qed.

Lemma preserves_receipt receipt sel now h :
  (forall repo t ch i ms n, preserves (mark_members repo t ch i ms n)) ->
  P (h_db h) -> P (h_db (complete_receipt receipt h sel now).2).
Proof.
  intros Hm HP. unfold complete_receipt. destruct (immediate _ _) as [[n db]|e] eqn:E; [|done].
  apply (proj1 (immediate_Ok _ _ _ _)) in E. by eapply Hm.
Qed.

End Lifting.

Lemma preserves_calm {A} (m : Tx A) : calm m -> preserves credentials_ok m.
Proof. intros Hm db a db' Hc H. eapply credentials_ok_calm; [exact Hc|by eapply Hm]. Qed.

Lemma calm_extend_lease scope seconds : calm (Jobs.extend_lease scope seconds).
Proof. unfold Jobs.extend_lease, Jobs.heartbeat. calm. Qed.

Lemma calm_submit_batch scope batch : calm (submit_batch scope batch).
Proof.
  unfold submit_batch. apply calm_for. intros fg. apply calm_bind; [apply calm_submit|intros ?; calm].
Qed.

Lemma preserves_delete_repo scope : preserves credentials_ok (Repos.delete scope).
Proof.
  intros db b db' Hc H. unfold Repos.delete, require_operator in H.
  destruct (rs_operator scope); tx_inv H. by eapply credentials_delete_repo.
Qed.

#[export] Hint Resolve calm_enqueue calm_cancel calm_retry_failed calm_recovery calm_reject
  calm_approve_report calm_claim calm_submit_batch calm_submit_verdict calm_complete_assignment
  calm_reap_legacy calm_reap_stale_validating calm_schedule_due calm_mark_members calm_update_repo
  calm_extend_lease calm_immediate preserves_calm preserves_delete_repo : loupe.

Lemma preserves_workers :
  (forall n k fp now, preserves credentials_ok (Workers.insert n k fp now)) /\
  (forall id now, preserves credentials_ok (Workers.revoke id now)) /\
  (forall id now, preserves credentials_ok (Workers.touch_last_seen id now)).
Proof.
  split_and!; intros; intros db a db' [S I R] H; unfold Workers.insert, Workers.revoke, Workers.touch_last_seen in H;
    repeat case_match; simplify_eq; by constructor.
Qed.

Section Credentials.
  Context (phase_tail : JobRow -> Tx Claimed).

Lemma exec_credentials op h : credentials_ok (h_db h) -> credentials_ok (h_db (exec phase_tail op h)).
Proof.
  destruct preserves_workers as (W1 & W2 & W3).
  destruct op; cbn [exec];
    try (apply preserves_conn; first
      [ solve [auto with loupe]
      | intros ? ? ? Hc H; solve [by eapply credentials_register | by eapply credentials_set_app
                                 | by eapply credentials_clear_app] ]);
    try (apply preserves_operator; intros ?; first
      [ solve [auto with loupe]
      | intros ? ? ? Hc H; solve [by eapply credentials_set_reporting | by eapply credentials_rotate] ]);
    try (apply preserves_lease; solve [auto with loupe]); intros Hc.
  - unfold mark_one. destruct (negb _); [done|]. destruct (position _ _); [|done].
    apply preserves_receipt; auto with loupe.
  - unfold mark_all. destruct (negb _); [done|]. apply preserves_receipt; auto with loupe.
Qed.

Lemma exec_all_credentials ops h :
  credentials_ok (h_db h) -> credentials_ok (h_db (exec_all phase_tail ops h)).
Proof.
  unfold exec_all. revert h. induction ops as [|op ops IH]; intros h Hc; [done|].
  by apply IH, exec_credentials.
Qed.

Lemma credentials_empty : credentials_ok empty_db.
Proof. by constructor. Qed.

Lemma secret_by_id db id s :
  credentials_ok db -> secrets db !! id = Some s -> Secrets.read id db = Ok (Some (s_value s), db).
Proof.
  intros Hc Hs. unfold Secrets.read, tx_first, mbind, tx_bind.
  destruct (head (sql_select _ _)) as [s'|] eqn:E.
  - apply head_select_Some in E as (HP & i & Hi). apply Z.eqb_eq in HP.
    rewrite (co_secret_id _ Hc _ _ Hi) in HP. subst i. rewrite Hs in Hi. by injection Hi as ->.
  - exfalso. apply head_None in E. pose proof (proj1 (sql_select_nil _ _) E id s Hs) as HP. cbn in HP.
    rewrite (co_secret_id _ Hc _ _ Hs), Z.eqb_refl in HP. done.
Qed.

Lemma app_present db i s :
  secrets db !! i = Some s -> GithubAppStore.is_app s = true ->
  exists v, GithubAppStore.get db = Ok (Some v, db).
Proof.
  intros Hs HP. unfold GithubAppStore.get, tx_first, mbind, tx_bind.
  destruct (head (sql_select _ _)) as [s'|] eqn:E; [by eexists|].
  exfalso. apply head_None in E. pose proof (proj1 (sql_select_nil _ _) E i s Hs). congruence.
Qed.

(** report credentials stay available.  Whatever sequence of operations
    has run since the database was created (registrations, changes of
    destination, token rotations with their garbage collection, storing and
    clearing the server's app, deletions of repositories, and everything
    workers do), the credential the reporting column of a registered
    repository names can be read: preparing its reports never ends in
    [Unavailable::Credential].  A destination with its own token resolves to a
    stored personal access token, never to the app's key. *)
Theorem report_credentials_stay_available identity ops (i : Z) repo :
  let db := h_db (exec_all phase_tail ops (initial_handle identity)) in
  registered_repos db !! i = Some repo ->
  match r_reporting repo with
  | GithubIssue _ _ (Some id) => exists s, secrets db !! id = Some s /\ s_kind s = GithubPat
  | _ => True
  end /\ exists c, select_credential (r_reporting repo) db = Ok (Ok c, db).
Proof.
  intros db Hr. assert (credentials_ok db) as Hc by apply exec_all_credentials, credentials_empty.
  pose proof (co_resolves _ Hc _ _ Hr) as Hres. unfold resolves in Hres.
  unfold select_credential. destruct (r_reporting repo) as [o n [id|]| |]; try (split; [|eexists]; done).
  - destruct Hres as (s & Hs & HP). split; [exists s; unfold is_pat in HP; bool_prop; done|].
    eexists. rewrite (tx_bind_run _ _ _ _ _ (secret_by_id _ _ _ Hc Hs)). done.
  - destruct Hres as (k & s & Hs & HP). split; [done|]. destruct (app_present _ _ _ Hs HP) as [v Hv].
    eexists. rewrite (tx_bind_run _ _ _ _ _ Hv). done.
Qed.

End Credentials.

(** The token of a repository that reports to GitHub is rotated, which drops
    the one it was registered with. *)
Definition rotated : list Op :=
  let github := {|
    Repos.nr_clone_url := lit "https://forge.example/acme/widget"; Repos.nr_host := lit "forge.example";
    Repos.nr_owner := lit "acme"; Repos.nr_repo := lit "widget"; Repos.nr_default_branch := None;
    Repos.nr_scan_interval_seconds := None; Repos.nr_scanner_config := lit "{}";
    Repos.nr_reporting := GithubIssue (lit "acme") (lit "widget") None;
    Repos.nr_verification_enabled := true; Repos.nr_require_approval := None |} in
  [ OpRegisterRepository github (Some [1; 2]) 0; OpRotatePat 1 [3; 4] 5 ].

Lemma report_credentials_stay_available_witness :
  exists r, registered_repos (h_db (handle_after rotated)) !! 1 = Some r /\
    r_reporting r = GithubIssue (lit "acme") (lit "widget") (Some 2) /\
    exists c, select_credential (r_reporting r) (h_db (handle_after rotated)) =
      Ok (Ok c, h_db (handle_after rotated)).
Proof.
  destruct (registered_repos (h_db (handle_after rotated)) !! 1) as [r|] eqn:E;
    [|vm_compute in E; discriminate E].
  exists r. split; [reflexivity|]. split.
  - apply (row_value _ _ _ r_reporting _ E). vm_compute. reflexivity.
  - rewrite handle_after_eq in *.
    exact (proj2 (report_credentials_stay_available no_phase 7 rotated 1 r E)).
Defined.
