(* ===== verification/Buffers.v ===== *)
(** * Body buffers

    The two growing byte buffers through which bodies enter the programs:
    [loupe-http]'s [ResponseBuffer] for responses and the server's
    [RequestBuffer] for requests, with the loops that fill them.  A buffer is
    an allocation of fixed length and a count of used bytes; growing replaces
    the allocation, and every allocation is wiped when it is dropped. *)

From S2P Require Import Prelude.
From Stdlib Require Import ZArith Lia.
From stdpp Require Import base list.
Local Open Scope Z_scope.

(** [slice.len()] *)
Definition len {A} (l : list A) : Z := Z.of_nat (length l).

(** [usize::next_power_of_two] *)
Definition next_power_of_two (n : Z) : Z := if n <=? 1 then 1 else 2 ^ (Z.log2 (n - 1) + 1).

(** [a[from..to].copy_from_slice(src)], for [src] of length [to - from]. *)
Definition copy_into (a : list Z) (from : Z) (src : list Z) : list Z :=
  take (Z.to_nat from) a ++ src ++ drop (Z.to_nat from + length src) a.

(** [zero_bytes] *)
Definition zero_bytes (a : list Z) : list Z := (fun _ => 0) <$> a.

Record Buffer := { allocation : list Z; used : Z }.

(** [Default::default()] *)
Definition empty_buffer : Buffer := {| allocation := []; used := 0 |}.

(** [AsRef::as_ref] *)
Definition as_ref (b : Buffer) : list Z := take (Z.to_nat (used b)) (allocation b).

(** [Drop::drop]: the storage as it is returned to the allocator. *)
Definition drop_buffer (b : Buffer) : list Z := zero_bytes (allocation b).

(** The part of [append] after its admission check, shared by both buffers;
    [cap] is the buffer's ceiling.  The storage dropped on the way is returned
    with the buffer. *)
Definition append_required (cap : Z) (b : Buffer) (chunk : list Z) (required : Z)
    : Buffer * list (list Z) :=
  let '(b, freed) :=
    if len (allocation b) <? required then
      let capacity := Z.min (next_power_of_two required) cap in
      let replacement := {| allocation := copy_into (replicate (Z.to_nat capacity) 0) 0 (as_ref b);
                            used := used b |} in
      (replacement, [drop_buffer b])
    else (b, []) in
  ({| allocation := copy_into (allocation b) (used b) chunk; used := required |}, freed).

(** [http::StatusCode], by number. *)
Definition StatusCode := Z.
Definition BAD_REQUEST : StatusCode := 400.
Definition PAYLOAD_TOO_LARGE : StatusCode := 413.
Definition TOO_MANY_REQUESTS : StatusCode := 429.

(** ** Responses *)
Module Response.

Definition MAX_RESPONSE_BYTES : Z := 16 * 1024 * 1024.

Inductive ResponseBodyError (T : Type) := TooLarge | Transport (e : T).
Arguments TooLarge {T}.
Arguments Transport {T} e.

(** [ResponseBuffer::append] *)
Definition append {T} (b : Buffer) (chunk : list Z)
    : result (ResponseBodyError T) (Buffer * list (list Z)) :=
  if MAX_RESPONSE_BYTES - used b <? len chunk then Err TooLarge
  else Ok (append_required MAX_RESPONSE_BYTES b chunk (used b + len chunk)).

(** [collect]: the body, and the storage freed while collecting it.  The
    stream yields chunks or a transport error. *)
Fixpoint collect {T} (chunks : list (result T (list Z))) (body : Buffer)
    : result (ResponseBodyError T) Buffer * list (list Z) :=
  match chunks with
  | [] => (Ok body, [])
  | Err e :: _ => (Err (Transport e), [drop_buffer body])
  | Ok chunk :: rest =>
      match append body chunk with
      | Err e => (Err e, [drop_buffer body])
      | Ok (body, freed) => let '(r, freed') := collect rest body in (r, freed ++ freed')
      end
  end.

Definition read_response_bytes {T} (content_length : option Z) (chunks : list (result T (list Z)))
    : result (ResponseBodyError T) Buffer * list (list Z) :=
  if match content_length with Some n => MAX_RESPONSE_BYTES <? n | None => false end then (Err TooLarge, [])
  else collect chunks empty_buffer.

End Response.

(** ** Requests *)
Module Request.

Definition BODY_CAP : Z := 2 * 1024 * 1024.

Definition request_body_next_len (used incoming : Z) : option Z :=
  let required := used + incoming in
  if (required <=? usize_max) && (required <=? BODY_CAP) then Some required else None.

(** [RequestBuffer::append] *)
Definition append (b : Buffer) (chunk : list Z) : result StatusCode (Buffer * list (list Z)) :=
  match request_body_next_len (used b) (len chunk) with
  | None => Err PAYLOAD_TOO_LARGE
  | Some required => Ok (append_required BODY_CAP b chunk required)
  end.

Fixpoint collect_operator_body_limited (chunks : list (result unit (list Z))) (buffered : Buffer)
    (limit : Z) : result StatusCode Buffer * list (list Z) :=
  match chunks with
  | [] => (Ok buffered, [])
  | Err _ :: _ => (Err BAD_REQUEST, [drop_buffer buffered])
  | Ok chunk :: rest =>
      if (limit <? BODY_CAP) && (Z.max 0 (limit - used buffered) <? len chunk)
      then (Err PAYLOAD_TOO_LARGE, [drop_buffer buffered])
      else match append buffered chunk with
           | Err e => (Err e, [drop_buffer buffered])
           | Ok (buffered, freed) =>
               let '(r, freed') := collect_operator_body_limited rest buffered limit in
               (r, freed ++ freed')
           end
  end.

Definition collect_operator_body (chunks : list (result unit (list Z))) (buffered : Buffer)
    : result StatusCode Buffer * list (list Z) := collect_operator_body_limited chunks buffered BODY_CAP.

End Request.

(** ** What a buffer holds *)

(** The used bytes fit, the allocation is within the ceiling and at most twice
    what is used. *)
Record buffer_ok (cap : Z) (b : Buffer) : Prop := {
  bo_used : 0 <= used b <= len (allocation b);
  bo_cap : len (allocation b) <= cap;
  bo_tight : len (allocation b) <= 2 * used b;
}.

Definition wiped (freed : list (list Z)) : Prop := Forall (Forall (fun byte => byte = 0)) freed.

Lemma len_app {A} (a b : list A) : len (a ++ b) = len a + len b.
Proof. unfold len. rewrite length_app. lia. Qed.

Lemma len_nonneg {A} (a : list A) : 0 <= len a.
Proof. unfold len. lia. Qed.

Lemma next_power_of_two_bounds n : 1 <= n -> n <= next_power_of_two n <= 2 * n.
Proof.
  intros Hn. unfold next_power_of_two. destruct (Z.leb_spec n 1); [lia|].
  pose proof (Z.log2_spec (n - 1) ltac:(lia)) as [Hlo Hhi].
  pose proof (Z.log2_nonneg (n - 1)). rewrite Z.pow_succ_r in Hhi by lia. rewrite Z.add_1_r, Z.pow_succ_r by lia.
  lia.
Qed.

Lemma drop_buffer_wiped b : wiped [drop_buffer b].
Proof.
  unfold wiped. rewrite list.Forall_singleton. unfold drop_buffer, zero_bytes.
  apply list.Forall_forall. by intros x (? & -> & _)%list_elem_of_fmap.
Qed.

Lemma empty_buffer_ok cap : 0 <= cap -> buffer_ok cap empty_buffer.
Proof. intros H. constructor; unfold len; cbn; lia. Qed.

Lemma copy_into_len a from src :
  0 <= from -> from + len src <= len a -> len (copy_into a from src) = len a.
Proof.
  unfold len, copy_into. intros H1 H2. rewrite !length_app, length_take, length_drop. lia.
Qed.

(** Writing [src] at [from] leaves what is before it and holds [src] after it. *)
Lemma copy_into_prefix a from src :
  0 <= from -> from + len src <= len a ->
  take (Z.to_nat (from + len src)) (copy_into a from src) = take (Z.to_nat from) a ++ src.
Proof.
  unfold copy_into, len. intros H1 H2.
  rewrite app_assoc, take_app_length'; [done|]. rewrite length_app, length_take. lia.
Qed.

Lemma append_required_ok cap b chunk :
  buffer_ok cap b -> used b + len chunk <= cap ->
  let '(b', freed) := append_required cap b chunk (used b + len chunk) in
  buffer_ok cap b' /\ as_ref b' = as_ref b ++ chunk /\ used b' = used b + len chunk /\ wiped freed.
Proof.
  intros [[U0 U1] C T] Hcap. pose proof (len_nonneg chunk) as Hc. unfold append_required.
  destruct (Z.ltb_spec (len (allocation b)) (used b + len chunk)) as [Hlt|Hge].
  - set (req := used b + len chunk) in *. set (n := Z.min (next_power_of_two req) cap).
    pose proof (len_nonneg (allocation b)).
    pose proof (next_power_of_two_bounds req ltac:(lia)) as Hn.
    assert (len (replicate (Z.to_nat n) 0) = n) as Hrep by (unfold len; rewrite length_replicate; lia).
    assert (len (as_ref b) = used b) as Href by (unfold as_ref, len in *; rewrite length_take; lia).
    set (a := copy_into (replicate (Z.to_nat n) 0) 0 (as_ref b)).
    assert (len a = n) as Ha by (unfold a; rewrite copy_into_len; lia).
    assert (take (Z.to_nat (used b)) a = as_ref b) as Hpre.
    { pose proof (copy_into_prefix (replicate (Z.to_nat n) 0) 0 (as_ref b) ltac:(lia) ltac:(lia)) as E.
      rewrite Href in E. exact E. }
    cbn [used allocation]. split; [|split; [|split; [done|apply drop_buffer_wiped]]].
    + constructor; cbn; rewrite copy_into_len; lia.
    + unfold as_ref at 1. cbn [used allocation]. unfold req. rewrite copy_into_prefix by lia. by rewrite Hpre.
  - split; [|split; [|split; [done|by constructor]]].
    + constructor; cbn; rewrite copy_into_len; lia.
    + unfold as_ref at 1. cbn [used allocation]. by rewrite copy_into_prefix by lia.
Qed.

(** ** Bodies without buffers *)

(** The body a stream of chunks amounts to: the chunks one after another, or
    the first reason to give up, a transport error or a chunk that makes the
    body longer than [cap]. *)
Fixpoint body_within {E T} (cap : Z) (too_large : E) (transport : T -> E)
    (chunks : list (result T (list Z))) (acc : list Z) : result E (list Z) :=
  match chunks with
  | [] => Ok acc
  | Err e :: _ => Err (transport e)
  | Ok chunk :: rest =>
      if cap <? len (acc ++ chunk) then Err too_large
      else body_within cap too_large transport rest (acc ++ chunk)
  end.

(** A collected buffer stands for a body when it holds it, within its bounds,
    and nothing but wiped storage was freed. *)
Definition stands_for_body {E} (cap : Z) (out : result E Buffer * list (list Z)) (body : result E (list Z))
    : Prop :=
  wiped out.2 /\
  match out.1, body with
  | Ok b, Ok bytes => as_ref b = bytes /\ buffer_ok cap b
  | Err e, Err e' => e = e'
  | _, _ => False
  end.

Lemma as_ref_len cap b : buffer_ok cap b -> len (as_ref b) = used b.
Proof. intros [U _ _]. unfold as_ref, len in *. rewrite length_take. lia. Qed.

Lemma stands_for_more {E} cap (out : result E Buffer * list (list Z)) body freed :
  wiped freed -> stands_for_body cap out body -> stands_for_body cap (let '(r, f) := out in (r, freed ++ f)) body.
Proof.
  destruct out as [r f]. intros Hf [Hw Hm]. split; [|done]. cbn in *. unfold wiped in *. by apply Forall_app.
Qed.

Lemma response_collect_body {T} (chunks : list (result T (list Z))) b :
  buffer_ok Response.MAX_RESPONSE_BYTES b ->
  stands_for_body Response.MAX_RESPONSE_BYTES (Response.collect chunks b)
    (body_within Response.MAX_RESPONSE_BYTES Response.TooLarge Response.Transport chunks (as_ref b)).
Proof.
  revert b. induction chunks as [|[chunk|e] chunks IH]; intros b Hb; cbn [Response.collect body_within].
  - split; [by constructor|done].
  - rewrite len_app, (as_ref_len _ _ Hb). unfold Response.append.
    destruct (Z.ltb_spec (Response.MAX_RESPONSE_BYTES - used b) (len chunk)) as [H|H].
    + rewrite (proj2 (Z.ltb_lt _ _)) by lia. split; [apply drop_buffer_wiped|done].
    + rewrite (proj2 (Z.ltb_ge _ _)) by lia.
      pose proof (append_required_ok _ b chunk Hb ltac:(lia)) as Ha.
      destruct (append_required _ _ _ _) as [b' freed]. destruct Ha as (Hb' & <- & _ & Hf).
      by apply stands_for_more, IH.
  - split; [apply drop_buffer_wiped|done].
Qed.

Lemma request_collect_body (chunks : list (result unit (list Z))) limit b :
  let cap := Z.min limit Request.BODY_CAP in
  0 <= limit -> used b <= cap -> buffer_ok Request.BODY_CAP b ->
  stands_for_body Request.BODY_CAP (Request.collect_operator_body_limited chunks b limit)
    (body_within cap PAYLOAD_TOO_LARGE (fun _ => BAD_REQUEST) chunks (as_ref b)).
Proof.
  intros cap Hl. revert b. induction chunks as [|[chunk|e] chunks IH]; intros b Hu Hb;
    cbn [Request.collect_operator_body_limited body_within].
  - split; [by constructor|done].
  - rewrite len_app, (as_ref_len _ _ Hb). pose proof (len_nonneg chunk). pose proof (bo_used _ _ Hb).
    destruct ((limit <? Request.BODY_CAP) && _) eqn:E.
    + rewrite andb_true_iff, !Z.ltb_lt in E. rewrite (proj2 (Z.ltb_lt _ _)) by lia.
      split; [apply drop_buffer_wiped|done].
    + rewrite andb_false_iff, !Z.ltb_ge in E. unfold Request.append, Request.request_body_next_len.
      destruct (Z.ltb_spec cap (used b + len chunk)) as [H1|H1].
      * assert ((used b + len chunk <=? Request.BODY_CAP) = false) as -> by (apply Z.leb_gt; lia).
        rewrite andb_false_r. split; [apply drop_buffer_wiped|done].
      * assert ((used b + len chunk <=? usize_max) && (used b + len chunk <=? Request.BODY_CAP) = true)
          as -> by (rewrite andb_true_iff, !Z.leb_le; unfold usize_max, Request.BODY_CAP in *; lia).
        pose proof (append_required_ok _ b chunk Hb ltac:(lia)) as Ha.
        destruct (append_required _ _ _ _) as [b' freed]. destruct Ha as (Hb' & <- & Hu' & Hf).
        apply stands_for_more; [done|]. apply IH; [lia|done].
  - split; [apply drop_buffer_wiped|done].
Qed.

(** C33: collected bodies are exact.  A response body collected through the
    growing buffer, and an operator's request body, are what a plain
    concatenation of the chunks up to the ceiling gives: the same bytes, or the
    same first error in the same place.  A response declared too large is
    refused unread.  The allocation never exceeds the ceiling nor twice the
    bytes it holds, and every allocation given up on the way, on success or on
    failure, was wiped. *)
Theorem bodies_are_exact :
  (forall T content_length (chunks : list (result T (list Z))),
     stands_for_body Response.MAX_RESPONSE_BYTES (Response.read_response_bytes content_length chunks)
       (if decide (Response.MAX_RESPONSE_BYTES < default 0 content_length)
        then Err Response.TooLarge
        else body_within Response.MAX_RESPONSE_BYTES Response.TooLarge Response.Transport chunks [])) /\
  (forall chunks,
     stands_for_body Request.BODY_CAP (Request.collect_operator_body chunks empty_buffer)
       (body_within Request.BODY_CAP PAYLOAD_TOO_LARGE (fun _ => BAD_REQUEST) chunks [])) /\
  (forall chunks limit, 0 <= limit ->
     stands_for_body Request.BODY_CAP
       (Request.collect_operator_body_limited chunks empty_buffer limit)
       (body_within (Z.min limit Request.BODY_CAP) PAYLOAD_TOO_LARGE (fun _ => BAD_REQUEST)
          chunks [])).
Proof.
  assert (forall chunks limit, 0 <= limit -> stands_for_body Request.BODY_CAP
    (Request.collect_operator_body_limited chunks empty_buffer limit)
    (body_within (Z.min limit Request.BODY_CAP) PAYLOAD_TOO_LARGE (fun _ => BAD_REQUEST)
       chunks [])) as Hreq.
  { intros chunks limit Hl. apply (request_collect_body chunks limit empty_buffer Hl).
    - cbn. unfold Request.BODY_CAP. lia.
    - by apply empty_buffer_ok. }
  split; [|split; [|done]].
  - intros T n chunks. unfold Response.read_response_bytes. destruct n as [n|]; cbn [default].
    + destruct (Z.ltb_spec Response.MAX_RESPONSE_BYTES n) as [H|H].
      * rewrite decide_True by done. split; [by constructor|done].
      * rewrite decide_False by (cbn; lia). by apply response_collect_body, empty_buffer_ok.
    + rewrite decide_False by done. by apply response_collect_body, empty_buffer_ok.
  - intros chunks. apply (Hreq chunks Request.BODY_CAP). done.
Qed.

Example response_grows :
  Response.read_response_bytes (T := unit) None [Ok [1; 2; 3]; Ok [4]; Ok [5]] =
    (Ok {| allocation := [1; 2; 3; 4; 5; 0; 0; 0]; used := 5 |}, [[]; [0; 0; 0; 0]]).
Proof. vm_compute. reflexivity. Qed.
