(* ===== verification/Budgets.v ===== *)
(** * Request budgets

    [loupe-server/src/request_budget.rs]: a token bucket per worker and
    resource, shared by every authenticated route, with the reclamation of idle
    buckets and the body loop that charges while it reads.  The shared map is
    guarded by one mutex, so concurrent charges are a sequence of [charge_at]
    calls; each brings the second it read before it waited for the mutex. *)

From S2P Require Import Prelude Buffers.
From Stdlib Require Import ZArith Lia.
From stdpp Require Import base gmap list strings.
Local Open Scope Z_scope.

(** ** [u64] arithmetic *)

Definition u64_max : Z := 18446744073709551615.
Definition saturating_add_u64 (a b : Z) : Z := Z.min (a + b) u64_max.
Definition saturating_mul_u64 (a b : Z) : Z := Z.min (a * b) u64_max.
Definition saturating_sub_u64 (a b : Z) : Z := Z.max (a - b) 0.

(** ** Configuration *)

Record BucketConfig := { bc_capacity : Z; bc_refill_per_second : Z }.

Record WorkerBudgetConfig := {
  wb_requests : BucketConfig;
  wb_bytes : BucketConfig;
  wb_leases : BucketConfig;
  wb_max_workers : Z;
  wb_idle_seconds : Z;
}.

Definition worker_budget_default : WorkerBudgetConfig := {|
  wb_requests := {| bc_capacity := 600; bc_refill_per_second := 10 |};
  wb_bytes := {| bc_capacity := 16 * 1024 * 1024; bc_refill_per_second := 256 * 1024 |};
  wb_leases := {| bc_capacity := 60; bc_refill_per_second := 1 |};
  wb_max_workers := 4096;
  wb_idle_seconds := 120;
|}.

(** [WorkerBudgetConfig::validate]; an error is its message. *)
Definition validate (c : WorkerBudgetConfig) : result str unit :=
  if negb (0 <? wb_max_workers c) then Err (lit "worker_budgets.max_workers must be positive")
  else if negb (0 <? wb_idle_seconds c) then Err (lit "worker_budgets.idle_seconds must be positive")
  else (fix check (buckets : list (str * BucketConfig)) : result str unit :=
    match buckets with
    | [] => Ok tt
    | (name, b) :: rest =>
        if negb ((0 <? bc_capacity b) && (0 <? bc_refill_per_second b))
        then Err (lit "worker_budgets." ++ name ++ lit " capacity and refill_per_second must be positive")
        else check rest
    end) [(lit "requests", wb_requests c); (lit "bytes", wb_bytes c); (lit "leases", wb_leases c)].

(** ** One bucket *)

Record Budget := { capacity : Z; remaining : Z; refill_per_second : Z; last : Z }.

(** [Budget::new] *)
Definition budget_new (c : BucketConfig) (now : Z) : Budget := {|
  capacity := bc_capacity c; remaining := bc_capacity c;
  refill_per_second := bc_refill_per_second c; last := now |}.

Definition budget_admit (b : Budget) (now cost : Z) : bool * Budget :=
  let elapsed := saturating_sub_u64 now (last b) in
  let remaining := Z.min (saturating_add_u64 (remaining b)
                            (saturating_mul_u64 elapsed (refill_per_second b))) (capacity b) in
  let b := {| capacity := capacity b; remaining := remaining;
              refill_per_second := refill_per_second b; last := Z.max (last b) now |} in
  if remaining <? cost then (false, b)
  else (true, {| capacity := capacity b; remaining := remaining - cost;
                 refill_per_second := refill_per_second b; last := last b |}).

(** ** The buckets of a worker *)

Record Entry := { requests : Budget; bytes : Budget; leases : Budget; last_seen : Z }.

(** [Entry::full]: refills the buckets it looks at, and stops at the first that
    is not full. *)
Definition full (e : Entry) (now : Z) : bool * Entry :=
  let r := (budget_admit (requests e) now 0).2 in
  let e := {| requests := r; bytes := bytes e; leases := leases e; last_seen := last_seen e |} in
  if negb (remaining r =? capacity r) then (false, e)
  else
    let b := (budget_admit (bytes e) now 0).2 in
    let e := {| requests := r; bytes := b; leases := leases e; last_seen := last_seen e |} in
    if negb (remaining b =? capacity b) then (false, e)
    else
      let l := (budget_admit (leases e) now 0).2 in
      let e := {| requests := r; bytes := b; leases := l; last_seen := last_seen e |} in
      (remaining l =? capacity l, e).

Inductive Charge := ChargeRequest | ChargeBytes (n : Z) | ChargeLease.

(** The [&'static str] categories. *)
Inductive Category := CatRequests | CatBytes | CatLeases | CatWorkers.

Definition category (c : Charge) : Category :=
  match c with ChargeRequest => CatRequests | ChargeBytes _ => CatBytes | ChargeLease => CatLeases end.

Abbreviation Entries := (gmap Z Entry).

Definition entry_new (c : WorkerBudgetConfig) (now : Z) : Entry := {|
  requests := budget_new (wb_requests c) now; bytes := budget_new (wb_bytes c) now;
  leases := budget_new (wb_leases c) now; last_seen := now |}.

(** [entries.retain(..)]: an idle entry is refilled, and dropped when full. *)
Definition reclaim (c : WorkerBudgetConfig) (now : Z) (entries : Entries) : Entries :=
  omap (fun e =>
    if wb_idle_seconds c <=? saturating_sub_u64 now (last_seen e) then
      let '(is_full, e) := full e now in if (is_full : bool) then None else Some e
    else Some e) entries.

(** The charge on the entry of a worker. *)
Definition charge_entry (e : Entry) (now : Z) (charge : Charge) : bool * Entry :=
  let seen := Z.max (last_seen e) now in
  match charge with
  | ChargeRequest => let '(ok, b) := budget_admit (requests e) now 1 in
      (ok, {| requests := b; bytes := bytes e; leases := leases e; last_seen := seen |})
  | ChargeBytes n => let '(ok, b) := budget_admit (bytes e) now n in
      (ok, {| requests := requests e; bytes := b; leases := leases e; last_seen := seen |})
  | ChargeLease => let '(ok, b) := budget_admit (leases e) now 1 in
      (ok, {| requests := requests e; bytes := bytes e; leases := b; last_seen := seen |})
  end.

Definition charge_at (c : WorkerBudgetConfig) (entries : Entries) (worker now : Z) (charge : Charge)
    : result Category unit * Entries :=
  let charge_known e entries :=
    let '(ok, e) := charge_entry e now charge in
    ((if (ok : bool) then Ok tt else Err (category charge)), <[worker := e]> entries) in
  match entries !! worker with
  | Some e => charge_known e entries
  | None =>
      let entries := reclaim c now entries in
      if wb_max_workers c <=? Z.of_nat (size entries) then (Err CatWorkers, entries)
      else charge_known (entry_new c now) entries
  end.

(** [WorkerBudgets::charge]: every refusal is a 429. *)
Definition charge_status (c : WorkerBudgetConfig) (entries : Entries) (worker now : Z) (ch : Charge)
    : result StatusCode unit * Entries :=
  let '(r, entries) := charge_at c entries worker now ch in (map_err (fun _ => TOO_MANY_REQUESTS) r, entries).

(** The body loop of [WorkerBudgets::enforce]: a chunk with the second at which
    it arrives, or a failure to read one. *)
Fixpoint enforce_body (c : WorkerBudgetConfig) (worker : Z) (lease : bool) (entries : Entries)
    (stream : list (Z * result unit (list Z))) (buffered : Buffer)
    : result StatusCode (list Z) * Entries :=
  match stream with
  | [] => (Ok (as_ref buffered), entries)
  | (_, Err _) :: _ => (Err BAD_REQUEST, entries)
  | (now, Ok chunk) :: rest =>
      let '(r, entries) := charge_status c entries worker now (ChargeBytes (len chunk)) in
      match r with
      | Err e => (Err e, entries)
      | Ok _ =>
          if (lease : bool) && (Z.max (8192 - len (as_ref buffered)) 0 <? len chunk)
          then (Err PAYLOAD_TOO_LARGE, entries)
          else match Request.append buffered chunk with
               | Err e => (Err e, entries)
               | Ok (buffered, _) => enforce_body c worker lease entries rest buffered
               end
      end
  end.

(** [WorkerBudgets::enforce]; [lease] is whether this is [POST /v1/jobs/lease];
    the clock is read for each charge. *)
Definition enforce (c : WorkerBudgetConfig) (entries : Entries) (worker : Z) (lease : bool) (now lease_now : Z)
    (stream : list (Z * result unit (list Z))) : result StatusCode (list Z) * Entries :=
  let '(r, entries) := charge_status c entries worker now ChargeRequest in
  match r with
  | Err e => (Err e, entries)
  | Ok _ =>
      let '(r, entries) := if lease then charge_status c entries worker lease_now ChargeLease
                           else (Ok tt, entries) in
      match r with
      | Err e => (Err e, entries)
      | Ok _ => enforce_body c worker lease entries stream empty_buffer
      end
  end.

(** ** The balance of a worker *)

(** The three metered resources, uniformly. *)
Inductive Resource := RRequests | RBytes | RLeases.
#[export] Instance resource_eq_dec : EqDecision Resource.
Proof. solve_decision. Defined.

Definition bucket (r : Resource) (e : Entry) : Budget :=
  match r with RRequests => requests e | RBytes => bytes e | RLeases => leases e end.

Definition config (r : Resource) (c : WorkerBudgetConfig) : BucketConfig :=
  match r with RRequests => wb_requests c | RBytes => wb_bytes c | RLeases => wb_leases c end.

(** What a charge takes, and of which resource. *)
Definition charged (ch : Charge) : Resource :=
  match ch with ChargeRequest => RRequests | ChargeBytes _ => RBytes | ChargeLease => RLeases end.
Definition cost (ch : Charge) : Z := match ch with ChargeBytes n => n | _ => 1 end.

Section Balance.
  Context (c : WorkerBudgetConfig) (Hvalid : validate c = Ok tt).
  Context (Hwidth : forall r, bc_capacity (config r c) <= u64_max).

Lemma valid_config r : 0 < bc_capacity (config r c) /\ 0 < bc_refill_per_second (config r c).
Proof.
  clear Hwidth. unfold validate in Hvalid. repeat case_match; try done.
  repeat match goal with H : negb _ = false |- _ => apply negb_false_iff in H end.
  repeat match goal with H : _ && _ = true |- _ => apply andb_true_iff in H as [? ?] end.
  repeat match goal with H : (_ <? _) = true |- _ => apply Z.ltb_lt in H end.
  by destruct r.
Qed.

Lemma valid_workers : 0 < wb_max_workers c.
Proof.
  clear Hwidth. unfold validate in Hvalid. destruct (negb (0 <? _)) eqn:E; [done|].
  by apply negb_false_iff, Z.ltb_lt in E.
Qed.

(** What [b] holds at second [now]. *)
Definition level (r : Resource) (b : Budget) (now : Z) : Z :=
  Z.min (bc_capacity (config r c))
        (remaining b + bc_refill_per_second (config r c) * (now - last b)).

(** What [worker] may still take of [r] at second [now]: a worker without an
    entry has the whole capacity. *)
Definition available (r : Resource) (entries : Entries) (worker now : Z) : Z :=
  match entries !! worker with
  | None => bc_capacity (config r c)
  | Some e => level r (bucket r e) now
  end.

Record budget_ok (r : Resource) (now : Z) (b : Budget) : Prop := {
  bk_capacity : capacity b = bc_capacity (config r c);
  bk_refill : refill_per_second b = bc_refill_per_second (config r c);
  bk_remaining : 0 <= remaining b <= bc_capacity (config r c);
  bk_last : 0 <= last b <= now;
}.

Definition entries_ok (now : Z) (entries : Entries) : Prop :=
  Z.of_nat (size entries) <= wb_max_workers c /\
  forall w e, entries !! w = Some e -> forall r, budget_ok r now (bucket r e).

(** A charge at a second no earlier than the bucket's: exact although the
    arithmetic saturates. *)
Lemma admit_exact r b now n :
  budget_ok r now b -> 0 <= n ->
  let '(ok, b') := budget_admit b now n in
  ok = (n <=? level r b now) /\ budget_ok r now b' /\ last b' = now /\
  remaining b' = level r b now - if ok then n else 0.
Proof.
  intros [C R Hrem Hl] Hn. pose proof (valid_config r) as [V1 V2]. pose proof (Hwidth r) as W.
  unfold budget_admit. rewrite C, R. unfold saturating_sub_u64, saturating_add_u64, saturating_mul_u64.
  assert (Z.min (Z.min (remaining b + Z.min (Z.max (now - last b) 0 * bc_refill_per_second (config r c)) u64_max) u64_max)
    (bc_capacity (config r c)) = level r b now) as ->.
  { unfold level. rewrite Z.max_l by lia.
    assert (0 <= (now - last b) * bc_refill_per_second (config r c)) by nia. lia. }
  assert (0 <= level r b now <= bc_capacity (config r c)) as Hlev by (unfold level; nia).
  cbn [last]. rewrite Z.max_r by lia.
  destruct (Z.ltb_spec (level r b now) n); destruct (Z.leb_spec n (level r b now)); try lia;
    split_and!; try done; cbn; try lia; constructor; cbn; lia.
Qed.

(** Looking at a bucket leaves its level. *)
Lemma admit_zero r b now :
  budget_ok r now b ->
  let b' := (budget_admit b now 0).2 in
  budget_ok r now b' /\ level r b' now = level r b now /\ remaining b' = level r b now /\
  capacity b' = bc_capacity (config r c).
Proof.
  intros Hb. pose proof (admit_exact r b now 0 Hb ltac:(lia)) as H.
  destruct (budget_admit b now 0) as [ok b']. destruct H as (_ & Hb' & Hl & Hr). cbn.
  assert (remaining b' = level r b now) as Hr' by (rewrite Hr; case_match; lia).
  split; [done|]. split; [|split; [done|apply Hb']].
  unfold level at 1. rewrite Hr', Hl. unfold level. lia.
Qed.

(** [full] refills without changing any level, and its answer is that every
    level is the capacity. *)
Lemma full_exact e now :
  (forall r, budget_ok r now (bucket r e)) ->
  let '(is_full, e') := full e now in
  (forall r, budget_ok r now (bucket r e') /\ level r (bucket r e') now = level r (bucket r e) now) /\
  (is_full = true -> forall r, level r (bucket r e) now = bc_capacity (config r c)).
Proof.
  intros He. unfold full.
  destruct (admit_zero RRequests _ now (He RRequests)) as (R1 & R2 & R3 & R4).
  destruct (admit_zero RBytes _ now (He RBytes)) as (B1 & B2 & B3 & B4).
  destruct (admit_zero RLeases _ now (He RLeases)) as (L1 & L2 & L3 & L4).
  pose proof (He RBytes). pose proof (He RLeases). cbn [bucket bytes leases requests] in *.
  destruct (Z.eqb_spec (remaining (budget_admit (requests e) now 0).2) (capacity (budget_admit (requests e) now 0).2));
    cbn [negb]; [|split; [intros []; by split|done]].
  destruct (Z.eqb_spec (remaining (budget_admit (bytes e) now 0).2) (capacity (budget_admit (bytes e) now 0).2));
    cbn [negb]; [|split; [intros []; by split|done]].
  split; [intros []; by split|].
  intros E%Z.eqb_eq. intros []; cbn [bucket]; congruence.
Qed.

(** Reclaiming idle entries mints no credit: no worker's balance changes. *)
Lemma reclaim_exact now entries :
  entries_ok now entries ->
  entries_ok now (reclaim c now entries) /\
  (forall r w, available r (reclaim c now entries) w now = available r entries w now) /\
  (forall w, entries !! w = None -> reclaim c now entries !! w = None).
Proof.
  intros [Hs He].
  assert (forall w, match entries !! w, reclaim c now entries !! w with
    | None, o => o = None
    | Some e, Some e' => forall r, budget_ok r now (bucket r e') /\ level r (bucket r e') now = level r (bucket r e) now
    | Some e, None => forall r, level r (bucket r e) now = bc_capacity (config r c)
    end) as Hrow.
  { intros w. unfold reclaim. rewrite lookup_omap. destruct (entries !! w) as [e|] eqn:E; cbn; [|done].
    destruct (_ <=? _); [|by intros r; split; [apply (He w e E)|]].
    pose proof (full_exact e now (He w e E)) as Hf. destruct (full e now) as [[] e']; [by apply Hf|apply Hf]. }
  split; [split|split].
  - transitivity (Z.of_nat (size entries)); [|done]. apply inj_le.
    rewrite <- !size_dom. apply subseteq_size. intros w Hw.
    apply elem_of_dom in Hw as [e' He']. apply elem_of_dom. specialize (Hrow w).
    destruct (entries !! w); [done|]. congruence.
  - intros w e' E. specialize (Hrow w). rewrite E in Hrow.
    destruct (entries !! w) as [e|]; [|done]. intros r. apply Hrow.
  - intros r w. unfold available. specialize (Hrow w).
    destruct (entries !! w) as [e|]; [|by rewrite Hrow].
    destruct (reclaim c now entries !! w) as [e'|]; [apply Hrow|by rewrite Hrow].
  - intros w E. specialize (Hrow w). by rewrite E in Hrow.
Qed.

(** Charging the entry [e] of a worker. *)
Lemma charge_entry_exact e now ch :
  (forall r, budget_ok r now (bucket r e)) -> 0 <= cost ch ->
  let '(ok, e') := charge_entry e now ch in
  ok = (cost ch <=? level (charged ch) (bucket (charged ch) e) now) /\
  forall r, budget_ok r now (bucket r e') /\
    level r (bucket r e') now =
      level r (bucket r e) now - if decide (r = charged ch) then if ok then cost ch else 0 else 0.
Proof.
  intros He Hc. pose proof (admit_exact _ _ now (cost ch) (He (charged ch)) Hc) as H.
  assert (forall b b' n, level (charged ch) b now - n = remaining b' -> last b' = now ->
    0 <= n -> level (charged ch) b' now = level (charged ch) b now - n) as Hlev.
  { intros b b' n E1 E2 Hn. unfold level in *. rewrite E2, <- E1. lia. }
  destruct ch; cbn [charged cost bucket charge_entry] in *;
    destruct (budget_admit _ now _) as [ok b'] eqn:E; destruct H as (Hok & Hb & Hl & Hr);
    (split; [done|]); (assert (0 <= if ok then _ else 0) as Hn by (destruct ok; [exact Hc|lia]));
    intros []; cbn [bucket requests bytes leases]; case_decide; try done;
    (split; [try done; apply (He RRequests) || apply (He RBytes) || apply (He RLeases)|]); try lia;
    by apply Hlev.
Qed.

Lemma entry_new_ok now r : 0 <= now -> budget_ok r now (bucket r (entry_new c now)) /\
  level r (bucket r (entry_new c now)) now = bc_capacity (config r c).
Proof.
  intros Hn. pose proof (valid_config r). assert (bucket r (entry_new c now) = budget_new (config r c) now) as ->
    by (by destruct r).
  split; [constructor; cbn; lia|]. unfold level. cbn. lia.
Qed.

(** Time passing adds at most the refill. *)
Lemma available_later r entries w now later :
  entries_ok now entries -> now <= later ->
  entries_ok later entries /\
  available r entries w later <= available r entries w now + bc_refill_per_second (config r c) * (later - now).
Proof.
  intros [Hs He] Hl. pose proof (valid_config r) as [_ V]. split.
  - split; [done|]. intros x e E q. destruct (He x e E q). constructor; try done; lia.
  - unfold available, level. case_match; [nia|]. nia.
Qed.

Lemma available_nonneg r entries w now : entries_ok now entries -> 0 <= available r entries w now.
Proof.
  intros [_ He]. pose proof (valid_config r) as [V1 V2]. unfold available, level.
  destruct (entries !! w) as [e|] eqn:E; [|lia]. destruct (He w e E r). nia.
Qed.

(** One charge: it is admitted exactly when the worker is known or there is
    room for it, and its balance covers the cost; it takes the cost from that
    balance and leaves every other. *)
Lemma charge_at_exact entries w now ch :
  entries_ok now entries -> 0 <= now -> 0 <= cost ch ->
  let '(out, entries') := charge_at c entries w now ch in
  entries_ok now entries' /\
  (forall r x, available r entries' x now =
     available r entries x now - if decide (x = w /\ r = charged ch) then if is_ok out then cost ch else 0 else 0) /\
  (out = Ok tt -> cost ch <= available (charged ch) entries w now) /\
  (is_Some (entries !! w) -> cost ch <= available (charged ch) entries w now -> out = Ok tt).
Proof.
  intros Hok Hn Hc.
  assert (forall e entries1, entries_ok now entries1 -> (forall r, budget_ok r now (bucket r e)) ->
    (forall r, level r (bucket r e) now = available r entries w now) ->
    (forall r x, available r entries1 x now = available r entries x now) ->
    (is_Some (entries1 !! w) \/ Z.of_nat (size entries1) < wb_max_workers c) ->
    let '(out, entries') :=
      (let '(ok, e') := charge_entry e now ch in
       ((if (ok : bool) then Ok tt else Err (category ch)), <[w := e']> entries1)) in
    entries_ok now entries' /\
    (forall r x, available r entries' x now =
       available r entries x now - if decide (x = w /\ r = charged ch) then if is_ok out then cost ch else 0 else 0) /\
    (out = Ok tt <-> cost ch <= available (charged ch) entries w now)) as Hcore.
  { intros e entries1 [Hs1 He1] He Hlev Hav Hroom. pose proof (charge_entry_exact e now ch He Hc) as H.
    destruct (charge_entry e now ch) as [ok e']. destruct H as [Eok He']. rewrite Hlev in Eok. split; [split|split].
    - destruct (entries1 !! w) as [x|] eqn:E.
      + by rewrite map_size_insert_Some by (by eexists).
      + rewrite map_size_insert_None by done. destruct Hroom as [[x Hx]|?]; [done|lia].
    - intros x y [[<- <-]|[_ Hx]]%lookup_insert_Some; [intros r; apply He'|by eapply He1].
    - intros r x. unfold available at 1. destruct (decide (x = w)) as [->|Hx].
      + rewrite lookup_insert_eq. rewrite (proj2 (He' r)), Hlev.
        destruct (decide (r = charged ch)); [rewrite decide_True by done|rewrite decide_False by tauto]; by destruct ok.
      + rewrite lookup_insert_ne by done. rewrite decide_False by tauto. rewrite Z.sub_0_r, <- Hav. done.
    - rewrite Eok. destruct (Z.leb_spec (cost ch) (available (charged ch) entries w now)); naive_solver lia. }
  unfold charge_at. destruct (entries !! w) as [e|] eqn:E.
  - pose proof (Hcore e entries Hok) as H. destruct (charge_entry e now ch) as [ok e'].
    destruct H as (H1 & H2 & H3); [by apply (proj2 Hok w)|intros r; unfold available; by rewrite E|done|
      left; by rewrite E|]. split; [done|]. split; [done|]. split; [apply H3|intros _; apply H3].
  - destruct (reclaim_exact now entries Hok) as (Hok1 & Hav & Hnone).
    destruct (Z.leb_spec (wb_max_workers c) (Z.of_nat (size (reclaim c now entries)))) as [Hfull|Hroom].
    + split; [done|]. split; [|split; [done|by intros [? [=]]]].
      intros r x. rewrite Hav. case_decide; cbn; lia.
    + pose proof (Hcore (entry_new c now) (reclaim c now entries) Hok1) as H.
      destruct (charge_entry _ now ch) as [ok e'].
      destruct H as (H1 & H2 & H3); [intros r; by apply entry_new_ok| |done|by right|].
      { intros r. unfold available. rewrite E. by apply entry_new_ok. }
      split; [done|]. split; [done|]. split; [apply H3|by intros [? [=]]].
Qed.

(** A refusal in the name of the resource means the balance is too small. *)
Lemma refused_category entries w now ch :
  entries_ok now entries -> 0 <= now -> 0 <= cost ch ->
  (charge_at c entries w now ch).1 = Err (category ch) -> available (charged ch) entries w now < cost ch.
Proof.
  intros Hok Hn Hc. pose proof (charge_at_exact entries w now ch Hok Hn Hc) as H.
  unfold charge_at in *. destruct (entries !! w) as [e|] eqn:E.
  - pose proof (charge_entry_exact e now ch ltac:(by apply (proj2 Hok w)) Hc) as H2.
    destruct (charge_entry e now ch) as [ok e']. destruct H2 as [-> _]. cbn [fst].
    unfold available. rewrite E. by destruct (Z.leb_spec (cost ch) (level (charged ch) (bucket (charged ch) e) now)).
  - destruct (_ <=? _); [by destruct ch|].
    pose proof (charge_entry_exact (entry_new c now) now ch ltac:(intros r; by apply entry_new_ok) Hc) as H2.
    destruct (charge_entry (entry_new c now) now ch) as [ok e']. destruct H2 as [-> _]. cbn [fst].
    unfold available. rewrite E, (proj2 (entry_new_ok now (charged ch) Hn)).
    by destruct (Z.leb_spec (cost ch) (bc_capacity (config (charged ch) c))).
Qed.

End Balance.

(** ** Runs of charges *)

(** A charge by a worker at a second of the server's clock. *)
Abbreviation Event := (Z * Z * Charge)%type.

(** What [w] was granted of [r] over a run. *)
Fixpoint granted (c : WorkerBudgetConfig) (entries : Entries) (run : list Event) (r : Resource) (w : Z) : Z :=
  match run with
  | [] => 0
  | (x, now, ch) :: rest =>
      let '(out, entries) := charge_at c entries x now ch in
      (if decide (w = x /\ r = charged ch) then if is_ok out then cost ch else 0 else 0) +
      granted c entries rest r w
  end.

(** The charges of the run are taken in the order of their seconds, between
    [from] and [until], and their costs are [u64]s. *)
Fixpoint within (from until : Z) (run : list Event) : Prop :=
  match run with
  | [] => from <= until
  | (_, now, ch) :: rest => from <= now /\ 0 <= cost ch /\ within now until rest
  end.

Lemma within_le from until run : within from until run -> from <= until.
Proof.
  revert from. induction run as [|[[x now] ch] run IH]; intros from; cbn; [done|].
  intros (H1 & _ & H2%IH). lia.
Qed.

(** The entries after a run. *)
Fixpoint after (c : WorkerBudgetConfig) (entries : Entries) (run : list Event) : Entries :=
  match run with
  | [] => entries
  | (x, now, ch) :: rest => after c (charge_at c entries x now ch).2 rest
  end.

Lemma after_ok c entries run from until :
  validate c = Ok tt -> (forall q, bc_capacity (config q c) <= u64_max) ->
  0 <= from -> entries_ok c from entries -> within from until run ->
  entries_ok c until (after c entries run).
Proof.
  intros Hv Hw. revert entries from. induction run as [|[[x now] ch] run IH]; intros entries from H0 Hok; cbn [after within].
  - intros Hle. by apply (available_later c Hv RRequests entries 0 from until Hok Hle).
  - intros (Hfrom & Hcost & Hrest).
    destruct (available_later c Hv RRequests entries x from now Hok Hfrom) as [Hok1 _].
    pose proof (charge_at_exact c Hv Hw entries x now ch Hok1 ltac:(lia) Hcost) as H.
    destruct (charge_at c entries x now ch) as [out entries']. apply (IH entries' now); [lia|apply H|done].
Qed.

Lemma empty_entries_ok c : validate c = Ok tt -> entries_ok c 0 ∅.
Proof.
  intros Hv. split; [|done]. rewrite map_size_empty. pose proof (valid_workers c Hv). lia.
Qed.

(** ** Charges out of order

    [charge] reads the clock before [charge_at] takes the lock, so the seconds
    of a run need not be sorted: a charge may be taken after one with a later
    second. *)
Section OutOfOrder.
  Context (c : WorkerBudgetConfig) (Hvalid : validate c = Ok tt).
  Context (Hwidth : forall r, bc_capacity (config r c) <= u64_max).

(** A charge at any second: a second before the bucket's neither refills it nor
    moves it back. *)
Lemma admit_any r high b now n :
  budget_ok c r high b -> 0 <= now -> 0 <= n ->
  let '(ok, b') := budget_admit b now n in
  budget_ok c r (Z.max high now) b' /\ last b' = Z.max (last b) now /\
  remaining b' = Z.min (bc_capacity (config r c))
    (remaining b + bc_refill_per_second (config r c) * Z.max 0 (now - last b)) - (if ok then n else 0).
Proof.
  intros [C R Hrem Hl] H0 Hn. pose proof (valid_config c Hvalid r) as [V1 V2]. pose proof (Hwidth r) as W.
  unfold budget_admit. rewrite C, R. unfold saturating_sub_u64, saturating_add_u64, saturating_mul_u64.
  set (q := Z.max (now - last b) 0). set (f := bc_refill_per_second (config r c)) in *.
  assert (0 <= q * f) by (unfold q; nia). rewrite (Z.max_comm 0). fold q. rewrite (Z.mul_comm f q).
  destruct (Z.ltb_spec (Z.min (Z.min (remaining b + Z.min (q * f) u64_max) u64_max) (bc_capacity (config r c))) n);
    cbn; split_and!; try constructor; cbn; try done; lia.
Qed.

(** What a bucket can grant between the seconds [from] and [until]. *)
Definition reserve (r : Resource) (from until : Z) (b : Budget) : Z :=
  Z.min (bc_capacity (config r c) + bc_refill_per_second (config r c) * (until - from))
        (remaining b + bc_refill_per_second (config r c) * Z.max 0 (until - last b)).

Lemma admit_reserve r high b now n from until :
  budget_ok c r high b -> 0 <= now -> 0 <= n -> from <= now <= until ->
  let '(ok, b') := budget_admit b now n in reserve r from until b' <= reserve r from until b - (if ok then n else 0).
Proof.
  intros Hb H0 Hn Hnow. pose proof (admit_any r high b now n Hb H0 Hn) as H.
  destruct (budget_admit b now n) as [ok b']. destruct H as (_ & Hl & Hr).
  unfold reserve. rewrite Hl, Hr. destruct (valid_config c Hvalid r) as [_ V]. destruct Hb as [_ _ [_ Hcap] _].
  set (f := bc_refill_per_second (config r c)) in *. set (m := if ok then n else 0).
  destruct (Z.le_gt_cases (last b) now).
  - rewrite (Z.max_r (last b) now), (Z.max_r 0 (now - last b)), (Z.max_r 0 (until - now)),
      (Z.max_r 0 (until - last b)) by lia. nia.
  - rewrite (Z.max_l (last b) now), (Z.max_l 0 (now - last b)) by lia.
    assert (f * Z.max 0 (until - last b) <= f * (until - from)) by nia. lia.
Qed.

(** [full] refills some of the buckets, and when it answers that all are full
    they hold their capacity at a second no earlier than [now]. *)
Lemma full_any e high now from until :
  (forall r, budget_ok c r high (bucket r e)) -> 0 <= now -> from <= now <= until ->
  let '(is_full, e') := full e now in
  (forall r, budget_ok c r (Z.max high now) (bucket r e') /\
     reserve r from until (bucket r e') <= reserve r from until (bucket r e)) /\
  last_seen e' = last_seen e /\
  (is_full = true -> forall r, remaining (bucket r e') = bc_capacity (config r c)).
Proof.
  intros He H0 Hnow.
  assert (forall r, let b' := (budget_admit (bucket r e) now 0).2 in
    budget_ok c r (Z.max high now) b' /\ reserve r from until b' <= reserve r from until (bucket r e) /\
    capacity b' = bc_capacity (config r c)) as Hadmit.
  { intros r. pose proof (admit_any r high _ now 0 (He r) H0 ltac:(lia)) as H1.
    pose proof (admit_reserve r high _ now 0 from until (He r) H0 ltac:(lia) Hnow) as H2.
    destruct (budget_admit (bucket r e) now 0) as [ok b']. cbn. destruct H1 as (Hb & _ & _).
    split; [done|]. split; [case_match; lia|apply Hb]. }
  assert (forall r, budget_ok c r (Z.max high now) (bucket r e) /\
    reserve r from until (bucket r e) <= reserve r from until (bucket r e)) as Hsame.
  { intros r. split; [|lia]. destruct (He r). constructor; try done; lia. }
  destruct (Hadmit RRequests) as (R1 & R2 & R3), (Hadmit RBytes) as (B1 & B2 & B3), (Hadmit RLeases) as (L1 & L2 & L3).
  pose proof (Hsame RBytes). pose proof (Hsame RLeases). unfold full. cbn [bucket bytes leases requests] in *.
  destruct (Z.eqb_spec (remaining (budget_admit (requests e) now 0).2) (capacity (budget_admit (requests e) now 0).2));
    cbn [negb]; [|split_and!; [intros []; done || (by split)|done..]].
  destruct (Z.eqb_spec (remaining (budget_admit (bytes e) now 0).2) (capacity (budget_admit (bytes e) now 0).2));
    cbn [negb]; [|split_and!; [intros []; done || (by split)|done..]].
  split; [intros []; done || (by split)|split; [done|]].
  intros E%Z.eqb_eq. intros []; cbn [bucket requests bytes leases]; congruence.
Qed.

(** The entries of a run whose newest second is [high]. *)
Definition entries_known (high : Z) (entries : Entries) : Prop :=
  forall w e, entries !! w = Some e -> forall r, budget_ok c r high (bucket r e).

(** What [w] can be granted, when a charge is at most [lag] seconds older than
    the newest second seen. *)
Definition headroom (r : Resource) (from until lag high : Z) (entry : option Entry) : Z :=
  match entry with
  | None => bc_capacity (config r c) +
      bc_refill_per_second (config r c) * Z.min (until - from) (Z.max 0 (until - high) + lag)
  | Some e => reserve r from until (bucket r e)
  end.

(** Reclaiming: an entry is kept with no more to grant, or it is forgotten when
    idle and full, which lets it grant the refill of [lag] seconds again. *)
Lemma reclaim_any high now from until lag entries :
  entries_known high entries -> 0 <= now -> from <= now <= until -> 0 <= lag ->
  entries_known (Z.max high now) (reclaim c now entries) /\
  forall w, match entries !! w, reclaim c now entries !! w with
  | None, o => o = None
  | Some e, Some e' => last_seen e' = last_seen e /\
      forall r, reserve r from until (bucket r e') <= reserve r from until (bucket r e)
  | Some e, None => last_seen e + wb_idle_seconds c <= now /\
      forall r, headroom r from until lag (Z.max high now) None <=
        reserve r from until (bucket r e) + bc_refill_per_second (config r c) * lag
  end.
Proof.
  intros He H0 Hnow Hlag.
  assert (forall w e, entries !! w = Some e -> match reclaim c now entries !! w with
    | Some e' => last_seen e' = last_seen e /\
        forall r, budget_ok c r (Z.max high now) (bucket r e') /\
          reserve r from until (bucket r e') <= reserve r from until (bucket r e)
    | None => last_seen e + wb_idle_seconds c <= now /\
        forall r, headroom r from until lag (Z.max high now) None <=
          reserve r from until (bucket r e) + bc_refill_per_second (config r c) * lag
    end) as Hrow.
  { intros w e E. unfold reclaim. rewrite lookup_omap, E. cbn.
    destruct (Z.leb_spec (wb_idle_seconds c) (saturating_sub_u64 now (last_seen e))) as [Hidle|].
    2:{ split; [done|]. intros r. split; [|lia]. destruct (He w e E r). constructor; try done; lia. }
    pose proof (full_any e high now from until (He w e E) H0 Hnow) as Hf.
    destruct (full e now) as [[] e']; destruct Hf as (Hb & Hseen & Hfull); [|by split].
    assert (0 < wb_idle_seconds c) as Hpos.
    { unfold validate in Hvalid. repeat case_match; try done.
      repeat match goal with H : negb _ = false |- _ => apply negb_false_iff, Z.ltb_lt in H end. done. }
    split; [unfold saturating_sub_u64 in Hidle; lia|]. intros r. destruct (Hb r) as [[_ _ _ Hl] Hres].
    specialize (Hfull eq_refl r). destruct (valid_config c Hvalid r) as [V1 V2].
    cbn [headroom]. unfold reserve at 1 in Hres. rewrite Hfull in Hres.
    set (f := bc_refill_per_second (config r c)) in *. set (l := last (bucket r e')) in *.
    assert (f * Z.max 0 (until - Z.max high now) <= f * Z.max 0 (until - l)) by nia. nia. }
  split.
  - intros w e' E r. unfold reclaim in E. rewrite lookup_omap in E.
    destruct (entries !! w) as [e|] eqn:E1; [|done]. specialize (Hrow w e E1).
    unfold reclaim in Hrow. rewrite lookup_omap, E1 in Hrow. cbn in *. rewrite E in Hrow. apply Hrow.
  - intros w. destruct (entries !! w) as [e|] eqn:E.
    + specialize (Hrow w e E). destruct (reclaim c now entries !! w); destruct Hrow as [H1 H2]; split; [done| |done..].
      intros r. apply H2.
    + unfold reclaim. by rewrite lookup_omap, E.
Qed.

Lemma charge_entry_any e high now ch from until :
  (forall r, budget_ok c r high (bucket r e)) -> 0 <= now -> 0 <= cost ch -> from <= now <= until ->
  let '(ok, e') := charge_entry e now ch in
  last_seen e <= last_seen e' /\ now <= last_seen e' /\
  forall r, budget_ok c r (Z.max high now) (bucket r e') /\
    reserve r from until (bucket r e') <=
      reserve r from until (bucket r e) - if decide (r = charged ch) then if ok then cost ch else 0 else 0.
Proof.
  intros He H0 Hc Hnow.
  pose proof (admit_any _ high _ now (cost ch) (He (charged ch)) H0 Hc) as H1.
  pose proof (admit_reserve _ high _ now (cost ch) from until (He (charged ch)) H0 Hc Hnow) as H2.
  assert (forall r, budget_ok c r (Z.max high now) (bucket r e)) as Hsame.
  { intros r. destruct (He r). constructor; try done; lia. }
  pose proof (Hsame RRequests). pose proof (Hsame RBytes). pose proof (Hsame RLeases).
  destruct ch; cbn [charged cost bucket charge_entry] in *;
    destruct (budget_admit _ now _) as [ok b']; cbn [last_seen]; (split; [lia|]); (split; [lia|]);
    intros []; cbn [bucket requests bytes leases]; case_decide; try done; (split; [done || apply H1|]); lia.
Qed.

(** Whether a step forgets [w]. *)
Definition forgets (entries entries' : Entries) (w : Z) : Z :=
  match entries !! w, entries' !! w with Some _, None => 1 | _, _ => 0 end.

(** One charge, at a second at most [lag] behind the newest. *)
Lemma charge_at_any entries x now ch r w from until lag high :
  entries_known high entries -> 0 <= now -> 0 <= cost ch -> from <= now <= until -> 0 <= lag -> high - lag <= now ->
  let '(out, entries') := charge_at c entries x now ch in
  entries_known (Z.max high now) entries' /\
  (if decide (w = x /\ r = charged ch) then if is_ok out then cost ch else 0 else 0) +
    headroom r from until lag (Z.max high now) (entries' !! w) <=
  headroom r from until lag high (entries !! w) + bc_refill_per_second (config r c) * lag * forgets entries entries' w /\
  match entries !! w, entries' !! w with
  | Some e, Some e' => last_seen e <= last_seen e'
  | None, Some e' => now <= last_seen e'
  | Some e, None => last_seen e + wb_idle_seconds c <= now
  | None, None => True
  end.
Proof.
  intros He H0 Hc Hnow Hlag Hhigh. destruct (valid_config c Hvalid r) as [V1 V2].
  unfold charge_at, forgets. destruct (entries !! x) as [e|] eqn:E.
  - pose proof (charge_entry_any e high now ch from until (He x e E) H0 Hc Hnow) as Hch.
    destruct (charge_entry e now ch) as [ok e']. destruct Hch as (S1 & S2 & Hch). split.
    { intros y e1 [[<- <-]|[_ Hy]]%lookup_insert_Some q; [apply Hch|].
      destruct (He y e1 Hy q). constructor; try done; lia. }
    destruct (decide (w = x)) as [->|Hx].
    + rewrite lookup_insert_eq, E. cbn [headroom]. split; [|done]. specialize (Hch r) as [_ Hch].
      destruct (decide (r = charged ch)); [rewrite decide_True by done|rewrite decide_False by tauto];
        destruct ok; cbn [is_ok]; lia.
    + rewrite lookup_insert_ne by done. rewrite decide_False by tauto.
      destruct (entries !! w); cbn [headroom]; (split; [|done || lia]); nia.
  - destruct (reclaim_any high now from until lag entries He H0 Hnow Hlag) as [Hk Hrow].
    assert (headroom r from until lag (Z.max high now) (reclaim c now entries !! w) <=
      headroom r from until lag high (entries !! w) + bc_refill_per_second (config r c) * lag *
        match entries !! w, reclaim c now entries !! w with Some _, None => 1 | _, _ => 0 end) as Hw.
    { specialize (Hrow w). destruct (entries !! w), (reclaim c now entries !! w); try done; cbn [headroom] in *.
      - destruct Hrow as [_ Hrow]. specialize (Hrow r). lia.
      - destruct Hrow as [_ Hrow]. specialize (Hrow r). lia.
      - nia. }
    assert (match entries !! w, reclaim c now entries !! w with
      | Some e, Some e' => last_seen e <= last_seen e'
      | None, Some e' => now <= last_seen e'
      | Some e, None => last_seen e + wb_idle_seconds c <= now
      | None, None => True end) as Hs.
    { specialize (Hrow w). destruct (entries !! w), (reclaim c now entries !! w); try done; destruct Hrow; lia. }
    destruct (wb_max_workers c <=? _).
    { split; [done|]. cbn [is_ok]. split; [|done]. case_decide; lia. }
    assert (forall q, budget_ok c q now (bucket q (entry_new c now))) as Hnew by (intros q; by apply (entry_new_ok c Hvalid now q)).
    pose proof (charge_entry_any (entry_new c now) now now ch from until Hnew H0 Hc Hnow) as Hch.
    destruct (charge_entry (entry_new c now) now ch) as [ok e']. destruct Hch as (_ & S2 & Hch). split.
    { intros y e1 [[<- <-]|[_ Hy]]%lookup_insert_Some q; [|by apply (Hk y)].
      destruct (Hch q) as [[] _]. constructor; try done; lia. }
    destruct (decide (w = x)) as [->|Hx].
    + rewrite lookup_insert_eq, E. cbn [headroom]. split; [|done].
      specialize (Hch r) as [_ Hch].
      assert (reserve r from until (bucket r (entry_new c now)) <=
        bc_capacity (config r c) + bc_refill_per_second (config r c) * Z.min (until - from) (Z.max 0 (until - high) + lag)) as Hres.
      { assert (bucket r (entry_new c now) = budget_new (config r c) now) as -> by (by destruct r).
        unfold reserve. cbn. rewrite (Z.max_r 0 (until - now)) by lia. nia. }
      destruct (decide (r = charged ch)); [rewrite decide_True by done|rewrite decide_False by tauto];
        destruct ok; cbn [is_ok]; lia.
    + rewrite lookup_insert_ne by done. rewrite decide_False by tauto. by split.
Qed.

End OutOfOrder.

(** The newest second of a run, and its admissible seconds: the run's charges
    lie between [from] and [until] in any order, each at most [lag] seconds
    behind the newest taken before it. *)
Fixpoint newest (high : Z) (run : list Event) : Z :=
  match run with [] => high | (_, now, _) :: rest => newest (Z.max high now) rest end.

Fixpoint lagging (lag high from until : Z) (run : list Event) : Prop :=
  match run with
  | [] => True
  | (_, now, ch) :: rest =>
      from <= now <= until /\ high - lag <= now /\ 0 <= cost ch /\ lagging lag (Z.max high now) from until rest
  end.

(** How often a run forgets the entry of [w]. *)
Fixpoint forgotten (c : WorkerBudgetConfig) (entries : Entries) (run : list Event) (w : Z) : Z :=
  match run with
  | [] => 0
  | (x, now, ch) :: rest =>
      let entries' := (charge_at c entries x now ch).2 in
      forgets entries entries' w + forgotten c entries' rest w
  end.

Lemma headroom_nonneg c r from until lag high entries w :
  validate c = Ok tt -> entries_known c high entries -> from <= until -> 0 <= lag ->
  0 <= headroom c r from until lag high (entries !! w).
Proof.
  intros Hv He Hle Hlag. destruct (valid_config c Hv r). destruct (entries !! w) as [e|] eqn:E; cbn [headroom]; [|nia].
  destruct (He w e E r). unfold reserve. nia.
Qed.

Lemma granted_any c run r w from until lag :
  validate c = Ok tt -> (forall q, bc_capacity (config q c) <= u64_max) -> 0 <= from <= until -> 0 <= lag ->
  forall entries high, entries_known c high entries -> lagging lag high from until run ->
  granted c entries run r w <= headroom c r from until lag high (entries !! w) +
    bc_refill_per_second (config r c) * lag * forgotten c entries run w.
Proof.
  intros Hv Hw Hfu Hlag. induction run as [|[[x now] ch] run IH]; intros entries high He; cbn [granted forgotten lagging].
  - intros _. pose proof (headroom_nonneg c r from until lag high entries w Hv He ltac:(lia) Hlag). lia.
  - intros (Hnow & Hhigh & Hcost & Hrest).
    pose proof (charge_at_any c Hv Hw entries x now ch r w from until lag high He ltac:(lia) Hcost Hnow Hlag Hhigh) as H.
    destruct (charge_at c entries x now ch) as [out entries']. destruct H as (He' & Hstep & _). cbn [snd].
    specialize (IH entries' _ He' Hrest). lia.
Qed.

(** Between two times a run forgets a worker, the worker was seen and then idle. *)
Lemma forgotten_any c run w from until lag :
  validate c = Ok tt -> (forall q, bc_capacity (config q c) <= u64_max) -> 0 <= from -> 0 <= lag ->
  forall entries high, entries_known c high entries -> lagging lag high from until run ->
  let k := forgotten c entries run w in
  0 <= k /\ (k = 0 \/ match entries !! w with
                      | Some e => last_seen e + wb_idle_seconds c + (k - 1) * (wb_idle_seconds c - lag) <= until
                      | None => high - lag + wb_idle_seconds c + (k - 1) * (wb_idle_seconds c - lag) <= until
                      end).
Proof.
  intros Hv Hw H0 Hlag. induction run as [|[[x now] ch] run IH]; intros entries high He; cbn [forgotten lagging].
  - intros _. split; [done|]. by left.
  - intros (Hnow & Hhigh & Hcost & Hrest).
    pose proof (charge_at_any c Hv Hw entries x now ch RRequests w from until lag high He ltac:(lia) Hcost Hnow Hlag Hhigh) as H.
    destruct (charge_at c entries x now ch) as [out entries']. destruct H as (He' & _ & Hs). cbn [snd].
    specialize (IH entries' _ He' Hrest) as [Hk IH]. unfold forgets.
    destruct (entries !! w) as [e|], (entries' !! w) as [e'|]; (split; [lia|]);
      set (k := forgotten c entries' run w) in *; destruct IH as [->|IH]; try (by left); right; nia.
Qed.

Lemma forgotten_from c run w from until lag :
  validate c = Ok tt -> (forall q, bc_capacity (config q c) <= u64_max) -> 0 <= from -> 0 <= lag ->
  forall entries high, entries_known c high entries -> lagging lag high from until run ->
  let k := forgotten c entries run w in
  k = 0 \/ (1 <= k /\ (k - 1) * (wb_idle_seconds c - lag) <= until - from).
Proof.
  intros Hv Hw H0 Hlag. induction run as [|[[x now] ch] run IH]; intros entries high He; cbn [forgotten lagging].
  - by left.
  - intros (Hnow & Hhigh & Hcost & Hrest).
    pose proof (charge_at_any c Hv Hw entries x now ch RRequests w from until lag high He ltac:(lia) Hcost Hnow Hlag Hhigh) as H.
    destruct (charge_at c entries x now ch) as [out entries']. destruct H as (He' & _ & _). cbn [snd].
    unfold forgets. destruct (entries !! w) as [e|], (entries' !! w) as [e'|] eqn:E'; try (by apply (IH entries' _ He' Hrest)).
    pose proof (forgotten_any c run w from until lag Hv Hw H0 Hlag entries' _ He' Hrest) as [Hk Hb].
    rewrite E' in Hb. right. split; [lia|]. set (k := forgotten c entries' run w) in *. destruct Hb as [->|Hb]; lia.
Qed.

(** Whatever the order, the entries keep their bounds. *)
Lemma after_known c run : validate c = Ok tt -> (forall q, bc_capacity (config q c) <= u64_max) ->
  forall entries high, entries_known c high entries -> Forall (fun '(_, now, ch) => 0 <= now /\ 0 <= cost ch) run ->
  entries_known c (newest high run) (after c entries run).
Proof.
  intros Hv Hw. induction run as [|[[x now] ch] run IH]; intros entries high He; [done|].
  intros [[Hnow Hcost] Hrest]%Forall_cons. cbn [after newest]. apply IH; [|done].
  pose proof (charge_at_any c Hv Hw entries x now ch RRequests x now now (Z.max 0 (high - now)) high He Hnow Hcost
    ltac:(lia) ltac:(lia) ltac:(lia)) as H.
  by destruct (charge_at c entries x now ch); destruct H.
Qed.

(** C34: a worker cannot exceed its budget, in whatever order the charges are
    taken.  After any earlier charges, over a run of charges whose seconds lie
    between [from] and [until] and are each at most [lag] seconds older than the
    newest second charged before (the clock is read before the lock is taken),
    a worker is granted at most the capacity of a bucket plus the refill of the
    seconds of the interval, plus the refill of [lag] seconds for each time its
    idle entry was reclaimed in between; and it is reclaimed at most once and
    then once more for each [idle_seconds - lag] seconds of the interval.  So
    when charges are taken in the order of their seconds, or nothing is
    reclaimed, the bound is exactly capacity plus refill: the saturating
    arithmetic and a clock that goes back never grant more. *)
Theorem budgets_bound_consumption c earlier run r w from until lag :
  validate c = Ok tt -> (forall q, bc_capacity (config q c) <= u64_max) ->
  Forall (fun '(_, now, ch) => 0 <= now /\ 0 <= cost ch) earlier ->
  0 <= from <= until -> 0 <= lag -> lagging lag (newest 0 earlier) from until run ->
  let entries := after c ∅ earlier in
  let reclaimed := forgotten c entries run w in
  granted c entries run r w <=
    bc_capacity (config r c) + bc_refill_per_second (config r c) * (until - from + lag * reclaimed) /\
  (reclaimed = 0 \/ (1 <= reclaimed /\ (reclaimed - 1) * (wb_idle_seconds c - lag) <= until - from)).
Proof.
  intros Hv Hw He Hfu Hlag Hr entries reclaimed.
  pose proof (after_known c earlier Hv Hw ∅ 0 ltac:(by intros ???) He) as Hk. fold entries in Hk.
  pose proof (granted_any c run r w from until lag Hv Hw Hfu Hlag entries _ Hk Hr) as HB.
  destruct (valid_config c Hv r) as [V1 V2]. split.
  - enough (headroom c r from until lag (newest 0 earlier) (entries !! w) <=
      bc_capacity (config r c) + bc_refill_per_second (config r c) * (until - from)) by (unfold reclaimed; nia).
    unfold headroom, reserve. case_match; nia.
  - by apply (forgotten_from c run w from until lag Hv Hw ltac:(lia) Hlag entries _ Hk Hr).
Qed.

(** A reclamation that a late charge outruns: worker 1 spends its 240 leases,
    its entry is reclaimed when full at second 240, and a charge read at second
    239 but taken afterwards finds a fresh bucket. *)
Definition late_config : WorkerBudgetConfig := {|
  wb_requests := {| bc_capacity := 600; bc_refill_per_second := 10 |};
  wb_bytes := {| bc_capacity := 16 * 1024 * 1024; bc_refill_per_second := 256 * 1024 |};
  wb_leases := {| bc_capacity := 240; bc_refill_per_second := 1 |};
  wb_max_workers := 4096; wb_idle_seconds := 120 |}.
Definition late : list Event :=
  replicate 240 (1, 0, ChargeLease) ++ [(2, 240, ChargeRequest)] ++ replicate 240 (1, 239, ChargeLease) ++
  [(1, 240, ChargeLease)].

Lemma budgets_bound_consumption_witness :
  granted late_config (after late_config ∅ [(1, 0, ChargeRequest)]) late RLeases 1 = 481 /\
  forgotten late_config (after late_config ∅ [(1, 0, ChargeRequest)]) late 1 = 1 /\
  481 <= bc_capacity (wb_leases late_config) + bc_refill_per_second (wb_leases late_config) * (240 - 0 + 1 * 1).
Proof.
  assert (granted late_config (after late_config ∅ [(1, 0, ChargeRequest)]) late RLeases 1 = 481) as E
    by (vm_compute; reflexivity).
  assert (forgotten late_config (after late_config ∅ [(1, 0, ChargeRequest)]) late 1 = 1) as F
    by (vm_compute; reflexivity).
  split; [exact E|]. split; [exact F|]. rewrite <- E. rewrite <- F at 2.
  apply (budgets_bound_consumption late_config [(1, 0, ChargeRequest)] late RLeases 1 0 240 1).
  - vm_compute. reflexivity.
  - intros []; vm_compute; discriminate.
  - repeat constructor; discriminate.
  - lia.
  - lia.
  - vm_compute. repeat split; discriminate.
Defined.

(** Without the late charge the same seconds grant 480 at most: the
    [late] run takes one more. *)
Theorem late_charge_exceeds_the_bucket :
  granted late_config ∅ late RLeases 1 >
    bc_capacity (wb_leases late_config) + bc_refill_per_second (wb_leases late_config) * (240 - 0).
Proof. vm_compute. reflexivity. Qed.

(** A burst: two workers, the first of which asks for more leases than a bucket
    holds. *)
Definition burst : list Event := replicate 70 (1, 5, ChargeLease) ++ [(2, 6, ChargeLease); (1, 7, ChargeLease)].

(** charges are decided exactly.  After earlier charges taken in the order of
    their seconds, a charge that is not older by a worker the server knows is
    granted exactly when its balance at that second
    covers the cost (the balance being the refilled, capped remainder computed
    without overflow); the charge takes its cost from that one balance if
    granted and nothing otherwise, and changes no other balance of any worker;
    an unknown worker with an admissible charge is refused only for want of
    room; and the server never keeps more entries than configured. *)
Theorem charges_are_exact c earlier w now ch :
  validate c = Ok tt -> (forall q, bc_capacity (config q c) <= u64_max) ->
  within 0 now earlier -> 0 <= cost ch ->
  let entries := after c ∅ earlier in
  let '(out, entries') := charge_at c entries w now ch in
  (is_Some (entries !! w) -> out = Ok tt <-> cost ch <= available c (charged ch) entries w now) /\
  (out = Err (category ch) -> available c (charged ch) entries w now < cost ch) /\
  (forall r x, available c r entries' x now =
     available c r entries x now - if decide (x = w /\ r = charged ch) then if is_ok out then cost ch else 0 else 0) /\
  Z.of_nat (size entries') <= wb_max_workers c.
Proof.
  intros Hv Hw He Hc entries. pose proof (within_le _ _ _ He) as Hn.
  pose proof (after_ok c ∅ earlier 0 now Hv Hw ltac:(lia) (empty_entries_ok c Hv) He) as Hok.
  fold entries in Hok. pose proof (charge_at_exact c Hv Hw entries w now ch Hok Hn Hc) as H.
  pose proof (refused_category c Hv Hw entries w now ch Hok Hn Hc) as Hr.
  destruct (charge_at c entries w now ch) as [out entries']. destruct H as ([Hs _] & Hav & H1 & H2).
  split_and!; try done. intros Hk. split; [done|by apply H2].
Qed.

Lemma charges_are_exact_witness :
  (charge_at worker_budget_default (after worker_budget_default ∅ burst) 1 9 ChargeLease).1 = Ok tt /\
  available worker_budget_default RLeases (after worker_budget_default ∅ burst) 1 9 = 3 /\
  available worker_budget_default RLeases
    (charge_at worker_budget_default (after worker_budget_default ∅ burst) 1 9 ChargeLease).2 1 9 = 2.
Proof.
  pose proof (charges_are_exact worker_budget_default burst 1 9 ChargeLease eq_refl
    ltac:(intros []; vm_compute; discriminate) ltac:(vm_compute; repeat split; discriminate)
    ltac:(vm_compute; discriminate)) as H. cbv zeta in H.
  destruct (charge_at worker_budget_default (after worker_budget_default ∅ burst) 1 9 ChargeLease)
    as [out entries'] eqn:E.
  destruct H as (H1 & _ & Hav & _).
  assert (available worker_budget_default RLeases (after worker_budget_default ∅ burst) 1 9 = 3) as A
    by (vm_compute; reflexivity).
  assert (out = Ok tt) as ->.
  { apply H1; [vm_compute; eexists; reflexivity|]. cbn [charged cost]. rewrite A. lia. }
  split; [reflexivity|]. split; [exact A|]. cbn [snd]. rewrite (Hav RLeases 1), A. reflexivity.
Defined.

(** ** Bodies under a budget *)

(** The charges of one request, in order. *)
Definition request_charges (w : Z) (lease : bool) (now lease_now : Z) (chunks : list (Z * list Z)) : list Event :=
  (w, now, ChargeRequest) :: (if lease then [(w, lease_now, ChargeLease)] else []) ++
  ((fun '(at_, chunk) => (w, at_, ChargeBytes (len chunk))) <$> chunks).

(** Every charge of a run was granted. *)
Fixpoint all_granted (c : WorkerBudgetConfig) (entries : Entries) (run : list Event) : Prop :=
  match run with
  | [] => True
  | (x, now, ch) :: rest =>
      (charge_at c entries x now ch).1 = Ok tt /\ all_granted c (charge_at c entries x now ch).2 rest
  end.

Lemma charge_status_Ok c entries w now ch u entries' :
  charge_status c entries w now ch = (Ok u, entries') <->
  (charge_at c entries w now ch).1 = Ok tt /\ entries' = (charge_at c entries w now ch).2 /\ u = tt.
Proof.
  unfold charge_status. destruct (charge_at c entries w now ch) as [[[]|e] entries1]; cbn; destruct u; naive_solver.
Qed.

Lemma enforce_body_ok c w lease stream entries b body entries' :
  buffer_ok Request.BODY_CAP b -> (lease = true -> used b <= 8192) ->
  enforce_body c w lease entries stream b = (Ok body, entries') ->
  exists chunks, stream = (fun x : Z * list Z => (x.1, Ok x.2)) <$> chunks /\
    body = as_ref b ++ concat chunks.*2 /\ len body <= Request.BODY_CAP /\
    (lease = true -> len body <= 8192) /\
    all_granted c entries ((fun '(at_, chunk) => (w, at_, ChargeBytes (len chunk))) <$> chunks) /\
    entries' = after c entries ((fun '(at_, chunk) => (w, at_, ChargeBytes (len chunk))) <$> chunks).
Proof.
  revert entries b. induction stream as [|[at_ [chunk|e]] stream IH]; intros entries b Hb Hl; cbn [enforce_body].
  - intros [= <- <-]. exists []. cbn. rewrite app_nil_r. pose proof (as_ref_len _ _ Hb).
    pose proof (bo_used _ _ Hb). pose proof (bo_cap _ _ Hb). split_and!; try done; try lia. intros; rewrite H; auto.
  - destruct (charge_status _ _ _ _ _) as [[u|e] e1] eqn:E; [|done].
    apply charge_status_Ok in E as (Hg & -> & _). rewrite (as_ref_len _ _ Hb).
    destruct (lease && _) eqn:El; [done|]. unfold Request.append, Request.request_body_next_len.
    destruct ((used b + len chunk <=? usize_max) && _) eqn:Ec; [|done].
    rewrite andb_true_iff, !Z.leb_le in Ec. destruct Ec as [_ Ec].
    pose proof (append_required_ok _ b chunk Hb Ec) as Ha. destruct (append_required _ _ _ _) as [b' f].
    destruct Ha as (Hb' & Hr & Hu & _). intros H. apply IH in H; [|done|].
    + destruct H as (cs & -> & -> & H1 & H2 & H3 & H4). exists ((at_, chunk) :: cs). cbn.
      rewrite Hr, <- app_assoc in *. by split_and!.
    + intros ->. cbn in El. apply Z.ltb_ge in El. specialize (Hl eq_refl). pose proof (len_nonneg chunk). lia.
  - done.
Qed.

(** admitted requests are bounded and paid for.  When the budget lets a
    worker's request through, its body is the concatenation of the chunks
    received, at most [BODY_CAP] bytes, at most 8 KiB for a lease request; and
    the request, the lease and every chunk were charged to the worker and
    granted, before the chunk was copied. *)
Theorem enforced_requests_are_paid c entries w lease now lease_now stream body entries' :
  enforce c entries w lease now lease_now stream = (Ok body, entries') ->
  exists chunks, stream = (fun x : Z * list Z => (x.1, Ok x.2)) <$> chunks /\
    body = concat chunks.*2 /\ len body <= Request.BODY_CAP /\ (lease = true -> len body <= 8192) /\
    all_granted c entries (request_charges w lease now lease_now chunks) /\
    entries' = after c entries (request_charges w lease now lease_now chunks).
Proof.
  unfold enforce. destruct (charge_status _ _ _ _ ChargeRequest) as [[u|e] e1] eqn:E; [|done].
  apply charge_status_Ok in E as (Hg & -> & _).
  destruct (if lease then charge_status _ _ _ _ _ else _) as [[u'|e] e2] eqn:E2; [|done].
  intros (cs & -> & -> & H1 & H2 & H3 & ->)%enforce_body_ok; [|by apply empty_buffer_ok|by cbn].
  exists cs. split_and!; try done; destruct lease; cbn;
    [apply charge_status_Ok in E2 as (Hg2 & -> & _)|injection E2 as _ <-|
     apply charge_status_Ok in E2 as (Hg2 & -> & _)|injection E2 as _ <-]; done.
Qed.

Lemma enforced_requests_are_paid_witness :
  exists entries', enforce worker_budget_default ∅ 1 true 5 5 [(5, Ok [123]); (6, Ok [125])] = (Ok [123; 125], entries') /\
  exists chunks, [123; 125] = concat chunks.*2 /\
    all_granted worker_budget_default ∅ (request_charges 1 true 5 5 chunks).
Proof.
  destruct (enforce worker_budget_default ∅ 1 true 5 5 [(5, Ok [123]); (6, Ok [125])]) as [r entries'] eqn:E.
  assert (r = Ok [123; 125]) as -> by
    (change r with (r, entries').1; rewrite <- E; vm_compute; reflexivity).
  exists entries'. split; [reflexivity|].
  destruct (enforced_requests_are_paid worker_budget_default ∅ 1 true 5 5 _ _ _ E) as (cs & _ & Hb & _ & _ & Hg & _).
  exists cs. split; [exact Hb|exact Hg].
Defined.
