(* ===== verification/JsonString.v ===== *)
(** * Bounded JSON strings

    [loupe-core/src/text/json_string.rs]: the decoder of one JSON string token
    with limits on the decoded bytes and characters, whose counting pass runs
    before anything is allocated. *)

From S2P Require Import Prelude.
From Stdlib Require Import ZArith Lia.
From stdpp Require Import base sets list strings.
Local Open Scope Z_scope.

(** [text::Rule], [text::Error] *)
Inductive Rule :=
| Character | Chars | Bytes | Whitespace | Empty | Identifier | IdentityLocation | IdentityHash
| IdentityTransientId | Path | JsonSyntax | JsonDepth | JsonNodes | JsonDuplicateKey.
#[export] Instance rule_eq_dec : EqDecision Rule.
Proof. solve_decision. Defined.

Record TextError := { te_field : str; te_rule : Rule; te_code_point : option Z }.

(** [Error::new] *)
Definition text_error (field : str) (rule : Rule) : TextError :=
  {| te_field := field; te_rule := rule; te_code_point := None |}.

(** [char::to_digit(16)] *)
Definition to_digit16 (c : Z) : option Z :=
  if (48 <=? c) && (c <=? 57) then Some (c - 48)
  else if (97 <=? c) && (c <=? 102) then Some (c - 87)
  else if (65 <=? c) && (c <=? 70) then Some (c - 55)
  else None.

(** [char::from_u32] *)
Definition char_from_u32 (n : Z) : option Z :=
  if (0 <=? n) && (n <=? 1114111) && negb ((55296 <=? n) && (n <=? 57343)) then Some n else None.

(** [str::strip_prefix('"')], [strip_suffix('"')] *)
Definition contents (raw : str) : option str :=
  match raw with
  | 34 :: rest =>
      match reverse rest with
      | 34 :: body => Some (reverse body)
      | _ => None
      end
  | _ => None
  end.

(** [DecodedChars::hex_quad]: the value and what is left; the [u32] product
    cannot overflow on four digits. *)
Fixpoint hex_digits (n : nat) (value : Z) (s : str) : option (Z * str) :=
  match n with
  | O => Some (value, s)
  | S n =>
      match s with
      | [] => None
      | c :: s => match to_digit16 c with
                  | None => None
                  | Some d => hex_digits n (value * 16 + d) s
                  end
      end
  end.

Definition hex_quad (s : str) : option (Z * str) := hex_digits 4 0 s.

(** [DecodedChars::escaped], after the backslash. *)
Definition escaped (s : str) : option (Z * str) :=
  match s with
  | [] => None
  | c :: s =>
      if c =? 34 then Some (34, s)
      else if c =? 92 then Some (92, s)
      else if c =? 47 then Some (47, s)
      else if c =? 98 then Some (8, s)
      else if c =? 102 then Some (12, s)
      else if c =? 110 then Some (10, s)
      else if c =? 114 then Some (13, s)
      else if c =? 116 then Some (9, s)
      else if c =? 117 then
        match hex_quad s with
        | None => None
        | Some (first, s) =>
            let scalar :=
              if (55296 <=? first) && (first <=? 56319) then
                match s with
                | 92 :: 117 :: s =>
                    match hex_quad s with
                    | Some (second, s) =>
                        if (56320 <=? second) && (second <=? 57343)
                        then Some ((first - 55296) * 1024 + (second - 56320) + 65536, s)
                        else None
                    | None => None
                    end
                | _ => None
                end
              else Some (first, s) in
            match scalar with
            | None => None
            | Some (scalar, s) =>
                match char_from_u32 scalar with Some c => Some (c, s) | None => None end
            end
        end
      else None
  end.

(** [DecodedChars::next]: no item at the end, else a character or a syntax
    error ([None]) with what is left. *)
Definition next (s : str) : option (option Z * str) :=
  match s with
  | [] => None
  | c :: s =>
      Some (if c =? 92 then match escaped s with Some (c, s) => (Some c, s) | None => (None, s) end
            else if (c =? 34) || (c <=? 31) then (None, s)
            else (Some c, s))
  end.

(** The items the loops below take from the iterator: all up to the first
    syntax error, at which both loops return.  Every item consumes a
    character, so as many steps as characters are enough. *)
Fixpoint items (fuel : nat) (s : str) : list (option Z) :=
  match fuel with
  | O => []
  | S fuel => match next s with
              | None => []
              | Some (None, _) => [None]
              | Some (Some c, s) => Some c :: items fuel s
              end
  end.

Definition decoded_chars (s : str) : list (option Z) := items (length s) s.

Record Size := { sz_bytes : Z; sz_chars : Z; sz_escaped : bool }.

(** The loop of [preflight]. *)
Fixpoint preflight_loop (field : str) (max_bytes max_chars : Z) (chars : list (option Z)) (size : Size)
    : result TextError Size :=
  match chars with
  | [] => Ok size
  | None :: _ => Err (text_error field JsonSyntax)
  | Some ch :: rest =>
      let bytes := sz_bytes size + len_utf8 ch in
      if negb ((bytes <=? usize_max) && (bytes <=? max_bytes)) then Err (text_error field Bytes)
      else
        let chars := sz_chars size + 1 in
        if negb ((chars <=? usize_max) && (chars <=? max_chars)) then Err (text_error field Chars)
        else preflight_loop field max_bytes max_chars rest
               {| sz_bytes := bytes; sz_chars := chars; sz_escaped := sz_escaped size |}
  end.

Definition preflight (raw field : str) (max_bytes max_chars : Z) : result TextError Size :=
  match contents raw with
  | None => Err (text_error field JsonSyntax)
  | Some contents =>
      preflight_loop field max_bytes max_chars (decoded_chars contents)
        {| sz_bytes := 0; sz_chars := 0; sz_escaped := bool_decide (92 ∈ contents) |}
  end.

(** The decoding loop. *)
Fixpoint push_all (field : str) (chars : list (option Z)) (decoded : str) : result TextError str :=
  match chars with
  | [] => Ok decoded
  | None :: _ => Err (text_error field JsonSyntax)
  | Some ch :: rest => push_all field rest (decoded ++ [ch])
  end.

Definition decode_json_string_bounded (raw field : str) (max_decoded_bytes max_decoded_chars : Z)
    : result TextError str :=
  match preflight raw field max_decoded_bytes max_decoded_chars with
  | Err e => Err e
  | Ok size =>
      match contents raw with
      | None => Err (text_error field JsonSyntax)
      | Some contents =>
          if negb (sz_escaped size) then Ok contents
          else push_all field (decoded_chars contents) []
      end
  end.

(** ** The grammar of JSON strings *)

(** Four hexadecimal digits and their value. *)
Definition hex4 (q : str) (n : Z) : Prop :=
  exists a b c d x y z w, q = [a; b; c; d] /\ to_digit16 a = Some x /\ to_digit16 b = Some y /\
    to_digit16 c = Some z /\ to_digit16 d = Some w /\ n = ((x * 16 + y) * 16 + z) * 16 + w.

Definition simple_escapes : list (Z * Z) :=
  [(34, 34); (92, 92); (47, 47); (98, 8); (102, 12); (110, 10); (114, 13); (116, 9)].

(** The spellings of one character in a JSON string (RFC 8259, section 7),
    with surrogates only in pairs. *)
Inductive json_char : str -> Z -> Prop :=
| jc_plain c : 32 <= c -> c <> 34 -> c <> 92 -> json_char [c] c
| jc_escape e c : (e, c) ∈ simple_escapes -> json_char [92; e] c
| jc_unicode q n : hex4 q n -> ~ (55296 <= n <= 57343) -> json_char (92 :: 117 :: q) n
| jc_pair q1 q2 high low :
    hex4 q1 high -> hex4 q2 low -> 55296 <= high <= 56319 -> 56320 <= low <= 57343 ->
    json_char (92 :: 117 :: q1 ++ 92 :: 117 :: q2) ((high - 55296) * 1024 + (low - 56320) + 65536).

Inductive json_chars : str -> str -> Prop :=
| jcs_nil : json_chars [] []
| jcs_cons token c rest s : json_char token c -> json_chars rest s -> json_chars (token ++ rest) (c :: s).

Lemma to_digit16_range c d : to_digit16 c = Some d -> 0 <= d <= 15.
Proof. unfold to_digit16. repeat case_match; intros [= <-]; bool_prop; lia. Qed.

Lemma hex4_range q n : hex4 q n -> 0 <= n <= 65535.
Proof.
  intros (a & b & c & d & x & y & z & w & _ & H1%to_digit16_range & H2%to_digit16_range &
    H3%to_digit16_range & H4%to_digit16_range & ->). lia.
Qed.

Lemma hex_quad_Some s n rest : hex_quad s = Some (n, rest) <-> exists q, hex4 q n /\ s = q ++ rest.
Proof.
  unfold hex_quad. split.
  - intros H. cbn in H. repeat case_match; try done; simplify_eq.
    eexists [_; _; _; _]. split; [|reflexivity]. do 8 eexists. split_and!; done.
  - intros (q & (a & b & c & d & x & y & z & w & -> & H1 & H2 & H3 & H4 & ->) & ->).
    cbn. by rewrite H1, H2, H3, H4.
Qed.

Lemma char_from_u32_Some n c :
  char_from_u32 n = Some c <-> c = n /\ 0 <= n <= 1114111 /\ ~ (55296 <= n <= 57343).
Proof.
  unfold char_from_u32. destruct ((0 <=? n) && (n <=? 1114111) && _) eqn:E.
  - rewrite !andb_true_iff, negb_true_iff, andb_false_iff, !Z.leb_le, !Z.leb_gt in E.
    split; [intros [= <-]; split; [done|lia]|by intros (-> & _)].
  - split; [done|]. intros (_ & H1 & H2).
    rewrite !andb_false_iff, negb_false_iff, andb_true_iff, !Z.leb_le, !Z.leb_gt in E. lia.
Qed.

(** What follows a backslash. *)
Lemma escaped_Some s c rest :
  escaped s = Some (c, rest) <-> exists token, json_char (92 :: token) c /\ s = token ++ rest.
Proof.
  split.
  - intros H. unfold escaped in H. destruct s as [|e s]; [done|].
    assert (forall x, (e, x) ∈ simple_escapes -> Some (x, s) = Some (c, rest) ->
      exists token, json_char (92 :: token) c /\ e :: s = token ++ rest) as Hsimple.
    { intros x Hx [= -> ->]. exists [e]. split; [by constructor|done]. }
    repeat match type of H with (if ?b then _ else _) = _ =>
      destruct b eqn:?; [match goal with E : (e =? ?k) = true |- _ => apply Z.eqb_eq in E; subst e end|] end;
      try (eapply Hsimple; [|exact H]; unfold simple_escapes; set_solver); try done.
    destruct (hex_quad s) as [[first s1]|] eqn:Hq; [|done]. apply hex_quad_Some in Hq as (q & Hq & ->).
    destruct ((55296 <=? first) && (first <=? 56319)) eqn:Hs.
    + destruct s1 as [|[|p|] s1]; try done. do 7 (destruct p; try done).
      destruct s1 as [|[|p|] s1]; try done. do 7 (destruct p; try done).
      destruct (hex_quad s1) as [[second s2]|] eqn:Hq2; [|done].
      apply hex_quad_Some in Hq2 as (q2 & Hq2 & ->).
      destruct ((56320 <=? second) && (second <=? 57343)) eqn:Hs2; [|done].
      rewrite andb_true_iff, !Z.leb_le in Hs, Hs2.
      destruct (char_from_u32 _) eqn:Hc; [|done]. apply char_from_u32_Some in Hc as (-> & _). injection H as <- <-.
      exists (117 :: q ++ 92 :: 117 :: q2). split; [by apply jc_pair|].
      cbn. by rewrite <- app_assoc.
    + destruct (char_from_u32 first) eqn:Hc; [|done]. apply char_from_u32_Some in Hc as (-> & _ & Hn).
      injection H as <- <-. exists (117 :: q). split; [by apply jc_unicode|done].
  - intros (token & Hj & ->). inversion Hj; subst; try done.
    + match goal with H : _ ∈ simple_escapes |- _ => unfold simple_escapes in H; set_unfold in H end.
      repeat match goal with H : _ \/ _ |- _ => destruct H end; simplify_eq; done.
    + cbn [app]. unfold escaped. cbn [Z.eqb Pos.eqb]. rewrite (proj2 (hex_quad_Some _ c rest)) by eauto.
      assert (0 <= c <= 65535) by (by eapply hex4_range).
      destruct ((55296 <=? c) && (c <=? 56319)) eqn:E; [rewrite andb_true_iff, !Z.leb_le in E; lia|].
      by rewrite (proj2 (char_from_u32_Some c c)) by lia.
    + cbn [app]. unfold escaped. cbn [Z.eqb Pos.eqb].
      rewrite (proj2 (hex_quad_Some _ high (92 :: 117 :: q2 ++ rest))) by (exists q1; by rewrite <- app_assoc).
      rewrite (proj2 (andb_true_iff _ _)) by (rewrite !Z.leb_le; lia).
      rewrite (proj2 (hex_quad_Some _ low rest)) by eauto.
      rewrite (proj2 (andb_true_iff _ _)) by (rewrite !Z.leb_le; lia).
      by rewrite (proj2 (char_from_u32_Some _ _)) by (split; [reflexivity|lia]).
Qed.

(** ** The iterator *)

Lemma next_Some s c rest :
  next s = Some (Some c, rest) <-> exists token, json_char token c /\ s = token ++ rest.
Proof.
  destruct s as [|x s]; cbn [next].
  { split; [done|]. intros (token & Hj & E). by inversion Hj; subst. }
  destruct (Z.eqb_spec x 92) as [->|Hx].
  - split.
    + destruct (escaped s) as [[y s']|] eqn:E; [|done]. intros [= -> ->].
      apply escaped_Some in E as (token & Hj & ->). by exists (92 :: token).
    + intros (token & Hj & E). destruct token as [|t token]; [by inversion Hj|]. cbn in E. simplify_eq.
      by rewrite (proj2 (escaped_Some _ c rest)) by eauto.
  - destruct ((x =? 34) || (x <=? 31)) eqn:E.
    + split; [done|]. intros (token & Hj & Et). apply orb_true_iff in E. rewrite Z.eqb_eq, Z.leb_le in E.
      inversion Hj; subst; cbn in Et; simplify_eq; lia.
    + rewrite orb_false_iff, Z.eqb_neq, Z.leb_gt in E. split.
      * intros [= <- <-]. exists [x]. split; [constructor; lia|done].
      * intros (token & Hj & Et). inversion Hj; subst; cbn in Et; by simplify_eq.
Qed.

Lemma next_None s : next s = None <-> s = [].
Proof. destruct s; cbn; [done|]. split; intros; discriminate. Qed.

Lemma json_char_nonempty token c : json_char token c -> (0 < length token)%nat.
Proof. intros []; cbn; lia. Qed.

(** The iterator yields exactly the characters the grammar gives. *)
Lemma items_json n s cs : (length s <= n)%nat -> items n s = Some <$> cs <-> json_chars s cs.
Proof.
  revert s cs. induction n as [|n IH]; intros s cs Hn.
  - destruct s; [|cbn in Hn; lia]. cbn. split.
    + intros E. destruct cs; [constructor|done].
    + inversion 1; subst; [done|]. match goal with H : json_char _ _ |- _ => inversion H; subst; done end.
  - cbn [items]. destruct (next s) as [[[c|] rest]|] eqn:E.
    + apply next_Some in E as (token & Hj & ->). pose proof (json_char_nonempty _ _ Hj).
      rewrite length_app in Hn. assert (length rest <= n)%nat as Hr by lia. split.
      * destruct cs as [|c' cs]; [done|]. cbn. intros [= <- Hcs]. constructor; [done|]. by apply IH.
      * intros Hjs. inversion Hjs as [E|token' c' rest' cs' Hj' Hjs' E]; subst;
          [symmetry in E; apply app_nil in E as [-> _]; inversion Hj|].
        pose proof (proj2 (next_Some (token ++ rest) c rest) ltac:(eauto)) as N1.
        pose proof (proj2 (next_Some (token' ++ rest') c' rest') ltac:(eauto)) as N2.
        rewrite E in N2. rewrite N1 in N2. injection N2 as <- <-. cbn. f_equal. by apply IH.
    + split; [by destruct cs as [|? []]|]. intros Hjs. inversion Hjs; subst; [done|].
      rewrite (proj2 (next_Some _ c rest0)) in E by eauto. done.
    + apply next_None in E as ->. split.
      * intros Ecs. destruct cs; [constructor|done].
      * inversion 1; subst; [done|]. match goal with H : json_char _ _ |- _ => inversion H; subst; done end.
Qed.

(** Items are characters up to a final syntax error. *)
Lemma items_shape n s : exists cs, items n s = Some <$> cs \/ items n s = (Some <$> cs) ++ [None].
Proof.
  revert s. induction n as [|n IH]; intros s; cbn [items]; [exists []; by left|].
  destruct (next s) as [[[c|] rest]|]; [|exists []; by right|exists []; by left].
  destruct (IH rest) as [cs [->| ->]]; exists (c :: cs); [by left|by right].
Qed.

(** ** The bounded decoder *)

Section Bounds.
  Context (field : str) (max_bytes max_chars : Z).
  Context (Hb : 0 <= max_bytes <= usize_max) (Hc : 0 <= max_chars <= usize_max).

Lemma preflight_loop_Ok cs tail size size' :
  preflight_loop field max_bytes max_chars ((Some <$> cs) ++ tail) size = Ok size' ->
  preflight_loop field max_bytes max_chars tail
    {| sz_bytes := sz_bytes size + str_len cs; sz_chars := sz_chars size + Z.of_nat (length cs);
       sz_escaped := sz_escaped size |} = Ok size'.
Proof.
  revert size. induction cs as [|c cs IH]; intros [b n e]; cbn [fmap list_fmap app preflight_loop str_len foldr length].
  - by rewrite !Z.add_0_r.
  - repeat case_match; try done. intros Hp%IH. rewrite <- Hp. f_equal. cbn. fold (str_len cs). f_equal; lia.
Qed.

Lemma preflight_loop_bounds cs size :
  0 <= sz_bytes size <= max_bytes -> 0 <= sz_chars size <= max_chars ->
  is_ok (preflight_loop field max_bytes max_chars (Some <$> cs) size) = true <->
  sz_bytes size + str_len cs <= max_bytes /\ sz_chars size + Z.of_nat (length cs) <= max_chars.
Proof.
  revert size. induction cs as [|c cs IH]; intros [b n e] H1 H2; cbn in H1, H2;
    cbn [fmap list_fmap preflight_loop str_len foldr length sz_bytes sz_chars].
  - split; [intros _; cbn; lia|done].
  - fold (str_len cs). pose proof (len_utf8_pos c). pose proof (str_len_nonneg cs).
    destruct (negb ((b + len_utf8 c <=? usize_max) && _)) eqn:E1.
    { rewrite negb_true_iff, andb_false_iff, !Z.leb_gt in E1. split; [done|]. lia. }
    destruct (negb ((n + 1 <=? usize_max) && _)) eqn:E2.
    { rewrite negb_true_iff, andb_false_iff, !Z.leb_gt in E2. split; [done|]. lia. }
    rewrite negb_false_iff, andb_true_iff, !Z.leb_le in E1, E2. rewrite IH; cbn; lia.
Qed.

Lemma preflight_loop_error chars size e :
  preflight_loop field max_bytes max_chars chars size = Err e ->
  te_field e = field /\ te_code_point e = None /\ te_rule e ∈ [JsonSyntax; Bytes; Chars].
Proof.
  clear Hb Hc. revert size. induction chars as [|[c|] chars IH]; intros size; cbn [preflight_loop]; [done|..].
  - repeat case_match; try (intros [= <-]; cbn; split_and!; try done; set_solver). apply IH.
  - intros [= <-]. cbn. split_and!; try done. set_solver.
Qed.

End Bounds.

Lemma json_chars_det s a b : json_chars s a -> json_chars s b -> a = b.
Proof.
  intros Ha%(items_json (length s)) Hb%(items_json (length s)); [|done..].
  rewrite Ha in Hb. by apply (inj (fmap Some)) in Hb.
Qed.

Lemma contents_Some raw body : contents raw = Some body <-> raw = [34] ++ body ++ [34].
Proof.
  split.
  - unfold contents. intros H.
    destruct raw as [|[|p|] raw]; try done. do 6 (destruct p; try done).
    destruct (reverse raw) as [|[|p|] r] eqn:E; try done. do 6 (destruct p; try done).
    injection H as <-. cbn. f_equal. by rewrite <- (reverse_involutive raw), E, reverse_cons.
  - intros ->. unfold contents. cbn [app]. by rewrite reverse_snoc, reverse_involutive.
Qed.

Lemma json_chars_plain s cs : 92 ∉ s -> json_chars s cs -> cs = s.
Proof.
  intros Hn. induction 1 as [|token c rest cs Hj _ IH]; [done|]. rewrite elem_of_app in Hn.
  rewrite IH by tauto. destruct Hj; [done|set_solver..].
Qed.

Lemma push_all_Some field cs acc : push_all field (Some <$> cs) acc = Ok (acc ++ cs).
Proof.
  revert acc. induction cs as [|c cs IH]; intros acc; cbn; [by rewrite app_nil_r|].
  by rewrite IH, <- app_assoc.
Qed.

(** The decoder against the grammar. *)
Lemma decoded_exactly raw field max_bytes max_chars :
  0 <= max_bytes <= usize_max -> 0 <= max_chars <= usize_max ->
  (forall s, decode_json_string_bounded raw field max_bytes max_chars = Ok s <->
     (exists body, raw = [34] ++ body ++ [34] /\ json_chars body s) /\
     str_len s <= max_bytes /\ Z.of_nat (length s) <= max_chars) /\
  (forall e, decode_json_string_bounded raw field max_bytes max_chars = Err e ->
     te_field e = field /\ te_code_point e = None /\ te_rule e ∈ [JsonSyntax; Bytes; Chars]).
Proof.
  intros Hb Hc. unfold decode_json_string_bounded, preflight. destruct (contents raw) as [body|] eqn:Hraw.
  - pose proof (proj1 (contents_Some _ _) Hraw) as Hbody.
    assert (forall b, raw = [34] ++ b ++ [34] -> b = body) as Huniq.
    { intros b E%contents_Some. congruence. }
    set (size0 := {| sz_bytes := 0; sz_chars := 0; sz_escaped := _ |}).
    unfold decoded_chars. destruct (items_shape (length body) body) as [cs [Hcs|Hcs]]; rewrite Hcs.
    + pose proof (proj1 (items_json _ body cs ltac:(done)) Hcs) as Hjs.
      pose proof (preflight_loop_bounds field _ _ Hb Hc cs size0 ltac:(cbn; lia) ltac:(cbn; lia)) as Hok.
      cbn [sz_bytes sz_chars size0] in Hok.
      assert (forall s, json_chars body s -> s = cs) as Hdet by (intros s Hs; by eapply json_chars_det).
      destruct (preflight_loop _ _ _ _ size0) as [size|e] eqn:Hp.
      * pose proof Hp as Hp'. rewrite <- (app_nil_r (Some <$> cs)) in Hp'. apply preflight_loop_Ok in Hp'.
        injection Hp' as <-. cbn [sz_escaped size0]. split; [|by intros e; case_match; rewrite ?push_all_Some].
        intros s. transitivity (s = cs).
        { case_bool_decide as Hesc; cbn [negb].
          - rewrite push_all_Some. cbn. naive_solver.
          - pose proof (json_chars_plain _ _ Hesc Hjs) as ->. naive_solver. }
        split.
        -- intros ->. split; [eauto|]. by apply Hok.
        -- intros [(b & ->%Huniq & Hs) _]. by apply Hdet.
      * split; [|intros e' [= <-]; by eapply preflight_loop_error]. intros s. split; [done|].
        intros ((b & ->%Huniq & ->%Hdet) & H1 & H2). assert (is_ok (Err e : result TextError Size) = true) by
          (apply Hok; cbn; lia). done.
    + split.
      * intros s. split.
        { destruct (preflight_loop _ _ _ _ _) as [size|e] eqn:Hp; [|done]. by apply preflight_loop_Ok in Hp. }
        intros [(b & ->%Huniq & Hs) _]. apply (items_json (length body)) in Hs; [|done].
        rewrite Hcs in Hs. exfalso. assert (None ∈ Some <$> s) as Hin by (rewrite <- Hs; set_solver).
        by apply list_elem_of_fmap in Hin as (x & [=] & _).
      * destruct (preflight_loop _ _ _ _ _) as [size|e] eqn:Hp; [by apply preflight_loop_Ok in Hp|].
        intros e' [= <-]. by eapply preflight_loop_error.
  - split.
    + intros s. split; [done|]. intros [(b & E%contents_Some & _) _]. congruence.
    + intros e [= <-]. cbn. split_and!; try done. set_solver.
Qed.

(** C36: the bounded decoder is a JSON string decoder.  It returns a text exactly
    when the token is a quoted sequence of JSON string characters that spell
    it, escapes and surrogate pairs included, and the text is within both
    limits; so the fast path that returns the token's own contents, the
    counting pass and the decoding pass agree.  Everything else is an error on
    that field that carries one of the three rules. *)
Theorem decode_json_string_bounded_spec raw field max_bytes max_chars :
  0 <= max_bytes <= usize_max -> 0 <= max_chars <= usize_max ->
  (forall s, decode_json_string_bounded raw field max_bytes max_chars = Ok s <->
     (exists body, raw = [34] ++ body ++ [34] /\ json_chars body s) /\
     str_len s <= max_bytes /\ Z.of_nat (length s) <= max_chars) /\
  (forall e, decode_json_string_bounded raw field max_bytes max_chars = Err e ->
     te_field e = field /\ te_code_point e = None /\ te_rule e ∈ [JsonSyntax; Bytes; Chars]).
Proof. apply decoded_exactly. Qed.

Lemma decode_json_string_bounded_spec_witness :
  exists body, [34; 92; 117; 48; 48; 101; 57; 34] = [34] ++ body ++ [34] /\ json_chars body [233].
Proof.
  assert (decode_json_string_bounded [34; 92; 117; 48; 48; 101; 57; 34] (lit "f") 16 16 = Ok [233]) as E
    by (vm_compute; reflexivity).
  exact (proj1 (proj1 (proj1 (decode_json_string_bounded_spec [34; 92; 117; 48; 48; 101; 57; 34] (lit "f") 16 16
    ltac:(unfold usize_max; lia) ltac:(unfold usize_max; lia)) [233]) E)).
Defined.
