(* ===== verification/Text.v ===== *)
(** * Validated text

    [loupe-core/src/text/{mod,policy,checked}.rs]: what a field of untrusted
    text must satisfy before it becomes a domain value.  The general category
    of a character and the NFC normal form come from third-party tables and are
    parameters; everything else is computed here: the character policy, the
    limits in characters and in UTF-8 bytes, whitespace, identifiers and
    repository paths. *)

From S2P Require Import Prelude JsonString.
From Stdlib Require Import ZArith Lia.
From stdpp Require Import base sets list strings.
Local Open Scope Z_scope.

(** ** UTF-8 *)

(** [char::encode_utf8] *)
Definition utf8_char (c : Z) : list Z :=
  if c <? 128 then [c]
  else if c <? 2048 then [Z.lor 192 (Z.shiftr c 6); Z.lor 128 (Z.land c 63)]
  else if c <? 65536 then
    [Z.lor 224 (Z.shiftr c 12); Z.lor 128 (Z.land (Z.shiftr c 6) 63); Z.lor 128 (Z.land c 63)]
  else
    [Z.lor 240 (Z.shiftr c 18); Z.lor 128 (Z.land (Z.shiftr c 12) 63);
     Z.lor 128 (Z.land (Z.shiftr c 6) 63); Z.lor 128 (Z.land c 63)].

(** [str::as_bytes] *)
Definition as_bytes (s : str) : list Z := s ≫= utf8_char.

(** ** Policies *)

Inductive Normalization := Semantic | Exact.
Inductive WhitespacePolicy := Prose | Significant.
#[export] Instance normalization_eq_dec : EqDecision Normalization.
Proof. solve_decision. Defined.
#[export] Instance whitespace_eq_dec : EqDecision WhitespacePolicy.
Proof. solve_decision. Defined.

Record TextPolicy := {
  FIELD : str;
  MAX_CHARS : Z;
  MAX_BYTES : Z;
  MULTILINE : bool;
  ALLOW_EMPTY : bool;
  NORMALIZATION : Normalization;
  WHITESPACE : WhitespacePolicy;
  ALLOW_CR : bool;
}.

Definition LEGACY_TEXT_MAX_BYTES : Z := 2 * 1024 * 1024.

(** The macro [exact_texts!]. *)
Definition exact_text (field : string) (multi : bool) : TextPolicy := {|
  FIELD := lit field; MAX_CHARS := LEGACY_TEXT_MAX_BYTES; MAX_BYTES := LEGACY_TEXT_MAX_BYTES;
  MULTILINE := multi; ALLOW_EMPTY := true; NORMALIZATION := Exact; WHITESPACE := Significant;
  ALLOW_CR := multi |}.

Definition exact_texts : list TextPolicy := [
  exact_text "finding_title" false; exact_text "finding_description" true; exact_text "poc_unified" true;
  exact_text "patch_unified" true; exact_text "verdict_notes" true; exact_text "verdict_reason" true;
  exact_text "patch_notes" true; exact_text "scanner_id" false; exact_text "scanner_extension" false;
  exact_text "scanner_exclude_pattern" false; exact_text "cwe" false; exact_text "finding_fingerprint" false;
  exact_text "worker_name" false; exact_text "lease_capability_name" false;
  exact_text "github_app_slug" false; exact_text "revision" false; exact_text "audit_common_name" false;
  exact_text "job_diagnostic" true; exact_text "job_kind" false; exact_text "repo_host" false;
  exact_text "repo_owner" false; exact_text "repo_name" false; exact_text "clone_url" false;
  exact_text "git_branch" false; exact_text "mail_address" false; exact_text "mail_subject_prefix" false ].

(** The macro [texts!]: the trait's defaults for the rest. *)
Definition prose_text (field : string) (chars : Z) (multi : bool) : TextPolicy := {|
  FIELD := lit field; MAX_CHARS := chars; MAX_BYTES := chars * 2; MULTILINE := multi;
  ALLOW_EMPTY := false; NORMALIZATION := Semantic; WHITESPACE := Prose; ALLOW_CR := false |}.

Definition texts : list TextPolicy := [
  prose_text "title" 200 false; prose_text "objective" 2000 true; prose_text "reason" 1000 false;
  prose_text "reason" 500 false; prose_text "argument" 4000 true; prose_text "symbol" 256 false;
  prose_text "media_type" 100 false; prose_text "original_name" 512 false;
  prose_text "identity_anchor" 300 false; prose_text "identity_instance_key" 200 false;
  prose_text "title" 100 false; prose_text "description" 16384 true;
  prose_text "security_model_notes" 8000 true; prose_text "rejection_argument" 8000 true;
  prose_text "hardening_argument" 8000 true; prose_text "attacker_source" 2000 true;
  prose_text "control" 2000 true; prose_text "sink" 2000 true; prose_text "reachable_path" 4000 true;
  prose_text "trust_boundary" 1000 true; prose_text "counterevidence" 4000 true;
  prose_text "assumptions_gaps" 4000 true; prose_text "symbol" 200 false;
  prose_text "revalidation_rationale" 2000 true; prose_text "e2e_rationale" 2000 true;
  prose_text "blocker" 2000 true; prose_text "notes" 4000 true; prose_text "continuation" 4000 true;
  prose_text "duplicate_rationale" 1000 true; prose_text "defer_reason" 1000 true;
  prose_text "retry_explanation" 1000 true ].

Definition JsonLeaf : TextPolicy := {|
  FIELD := lit "json_leaf"; MAX_CHARS := 4000; MAX_BYTES := 8000; MULTILINE := true;
  ALLOW_EMPTY := true; NORMALIZATION := Semantic; WHITESPACE := Prose; ALLOW_CR := false |}.

Definition text_policies : list TextPolicy := JsonLeaf :: exact_texts ++ texts.

(** ** Characters and limits *)

(** [unicode_general_category::GeneralCategory] *)
Inductive GeneralCategory :=
| ClosePunctuation | ConnectorPunctuation | Control | CurrencySymbol | DashPunctuation | DecimalNumber
| EnclosingMark | FinalPunctuation | Format | InitialPunctuation | LetterNumber | LineSeparator
| LowercaseLetter | MathSymbol | ModifierLetter | ModifierSymbol | NonspacingMark | OpenPunctuation
| OtherLetter | OtherNumber | OtherPunctuation | OtherSymbol | ParagraphSeparator | PrivateUse
| SpaceSeparator | SpacingMark | Surrogate | TitlecaseLetter | Unassigned | UppercaseLetter.

(** [count_within] *)
Definition count_within (text : list Z) (max_chars max_bytes : Z) : result Rule unit :=
  if max_chars <? Z.of_nat (length (filter (fun byte => Z.land byte 192 <> 128) text)) then Err Chars
  else if max_bytes <? Z.of_nat (length text) then Err Bytes
  else Ok tt.

Definition limits (P : TextPolicy) (text : str) : result TextError unit :=
  map_err (text_error (FIELD P)) (count_within (as_bytes text) (MAX_CHARS P) (MAX_BYTES P)).

(** [str::replace("\r\n", "\n")], [replace('\r', "\n")] *)
Fixpoint replace_crlf (s : str) : str :=
  match s with
  | [] => []
  | c :: s' =>
      match s' with
      | d :: s'' => if (c =? 13) && (d =? 10) then 10 :: replace_crlf s'' else c :: replace_crlf s'
      | [] => [c]
      end
  end.

Definition replace_cr (s : str) : str := (fun c => if c =? 13 then 10 else c) <$> s.

(** [str::contains] of a pattern *)
Fixpoint starts_with (p s : str) : bool :=
  match p, s with
  | [], _ => true
  | a :: p, b :: s => (a =? b) && starts_with p s
  | _ :: _, [] => false
  end.
Fixpoint contains_str (p s : str) : bool :=
  starts_with p s || match s with [] => false | _ :: s => contains_str p s end.

Definition saturating_mul_usize (a b : Z) : Z := Z.min (a * b) usize_max.

Definition oversized (field raw : str) (max_bytes : Z) : result TextError unit :=
  if saturating_mul_usize max_bytes 4 <? str_len raw then Err (text_error field Bytes) else Ok tt.

(** [std::str::from_utf8] accepts exactly well-formed UTF-8. *)
Fixpoint valid_utf8 (bs : list Z) : bool :=
  let cont b := (128 <=? b) && (b <=? 191) in
  match bs with
  | [] => true
  | b0 :: t0 =>
      if (0 <=? b0) && (b0 <=? 127) then valid_utf8 t0
      else if (194 <=? b0) && (b0 <=? 223) then
        match t0 with b1 :: t1 => cont b1 && valid_utf8 t1 | _ => false end
      else if (224 <=? b0) && (b0 <=? 239) then
        match t0 with
        | b1 :: b2 :: t2 =>
            (if b0 =? 224 then (160 <=? b1) && (b1 <=? 191)
             else if b0 =? 237 then (128 <=? b1) && (b1 <=? 159) else cont b1) &&
            cont b2 && valid_utf8 t2
        | _ => false
        end
      else if (240 <=? b0) && (b0 <=? 244) then
        match t0 with
        | b1 :: b2 :: b3 :: t3 =>
            (if b0 =? 240 then (144 <=? b1) && (b1 <=? 191)
             else if b0 =? 244 then (128 <=? b1) && (b1 <=? 143) else cont b1) &&
            cont b2 && cont b3 && valid_utf8 t3
        | _ => false
        end
      else false
  end.

(** ** Repository paths *)

(** [slice::split] *)
Fixpoint split_on (sep : Z) (s : list Z) : list (list Z) :=
  match s with
  | [] => [[]]
  | c :: s =>
      if c =? sep then [] :: split_on sep s
      else match split_on sep s with
           | part :: parts => (c :: part) :: parts
           | [] => [[c]]
           end
  end.

Definition is_repo_path (raw : list Z) : bool :=
  negb (bool_decide (92 ∈ raw)) && negb (bool_decide (0 ∈ raw)) &&
  negb (existsb (fun part => bool_decide (part ∈ [[]; lit "."; lit ".."])) (split_on 47 raw)).

(** ** Identifiers *)

Definition is_ascii_lowercase (b : Z) : bool := (97 <=? b) && (b <=? 122).
Definition is_ascii_uppercase (b : Z) : bool := (65 <=? b) && (b <=? 90).
Definition is_ascii_digit (b : Z) : bool := (48 <=? b) && (b <=? 57).
Definition is_ascii_alphabetic (b : Z) : bool := is_ascii_lowercase b || is_ascii_uppercase b.
Definition is_ascii_alphanumeric (b : Z) : bool := is_ascii_alphabetic b || is_ascii_digit b.

Record IdentPolicy := { ID_FIELD : str; MAX_LEN : Z; accepts : str -> bool }.

Definition first_is (p : Z -> bool) (s : str) : bool :=
  match as_bytes s with b :: _ => p b | [] => false end.
Definition all_bytes (p : Z -> bool) (s : str) : bool := forallb p (as_bytes s).

Definition ClientKey : IdentPolicy := {|
  ID_FIELD := lit "client_key"; MAX_LEN := 128;
  accepts := fun s => first_is is_ascii_alphanumeric s &&
    all_bytes (fun b => is_ascii_alphanumeric b || bool_decide (b ∈ lit "._-")) s |}.
Definition Family : IdentPolicy := {|
  ID_FIELD := lit "identity_family"; MAX_LEN := 64;
  accepts := fun s => (3 <=? str_len s) &&
    all_bytes (fun b => is_ascii_lowercase b || is_ascii_digit b || (b =? 45)) s |}.
Definition Label : IdentPolicy := {|
  ID_FIELD := lit "label"; MAX_LEN := 64;
  accepts := fun s => first_is is_ascii_alphanumeric s &&
    all_bytes (fun b => is_ascii_alphanumeric b || bool_decide (b ∈ lit "._ -")) s |}.
Definition JsonKey : IdentPolicy := {|
  ID_FIELD := lit "json_key"; MAX_LEN := 64;
  accepts := fun s => first_is (fun b => is_ascii_alphabetic b || (b =? 95)) s &&
    all_bytes (fun b => is_ascii_alphanumeric b || (b =? 95)) s |}.
Definition Cwe : IdentPolicy := {|
  ID_FIELD := lit "cwe"; MAX_LEN := 64;
  accepts := fun s => starts_with (lit "CWE-") s &&
    negb (str_is_empty (drop 4 s)) && all_bytes is_ascii_digit (drop 4 s) |}.

(** ** The checks *)

Section Checks.
  (** [get_general_category] and the NFC iterator of the two Unicode crates. *)
  Context (get_general_category : Z -> GeneralCategory) (nfc : str -> str).

Definition rejects_code_point (cp : Z) : bool :=
  match char_from_u32 cp with
  | None => true
  | Some c =>
      match get_general_category c with
      | Control | Format | Unassigned | PrivateUse | LineSeparator | ParagraphSeparator => true
      | _ => false
      end || ((64976 <=? cp) && (cp <=? 65007)) || (65534 <=? Z.land cp 65535)
  end.

Fixpoint characters (field text : str) (multiline allow_cr : bool) : result TextError unit :=
  match text with
  | [] => Ok tt
  | c :: rest =>
      if multiline && ((c =? 10) || (c =? 9) || (allow_cr && (c =? 13)))
      then characters field rest multiline allow_cr
      else if rejects_code_point c
           then Err {| te_field := field; te_rule := Character; te_code_point := Some c |}
           else characters field rest multiline allow_cr
  end.

Definition normalized (raw : str) : str := nfc (replace_cr (replace_crlf raw)).

(** [checked::text] after normalization *)
Definition checked_text (P : TextPolicy) (text : str) : result TextError str :=
  if str_is_empty text && negb (ALLOW_EMPTY P) then Err (text_error (FIELD P) JsonString.Empty)
  else
    _ ← characters (FIELD P) text (MULTILINE P) (ALLOW_CR P);
    _ ← limits P text;
    if bool_decide (WHITESPACE P = Prose) &&
       (negb (str_eqb (trim text) text) || contains_str [10; 10; 10] text)
    then Err (text_error (FIELD P) Whitespace)
    else mret text.

(** [checked::text] *)
Definition text (P : TextPolicy) (raw : str) : result TextError str :=
  text ← match NORMALIZATION P with
         | Semantic => _ ← oversized (FIELD P) raw (MAX_BYTES P); mret (normalized raw)
         | Exact => if MAX_BYTES P <? str_len raw then Err (text_error (FIELD P) Bytes) else mret raw
         end;
  checked_text P text.

(** [checked::check_identifier], [identifier] *)
Definition check_identifier (P : IdentPolicy) (raw : str) : result TextError unit :=
  if MAX_LEN P <? str_len raw then Err (text_error (ID_FIELD P) Bytes)
  else
    _ ← characters (ID_FIELD P) raw false false;
    if negb (accepts P raw) then Err (text_error (ID_FIELD P) Identifier)
    else if negb (str_eqb (trim raw) raw) || contains_str [32; 32] raw
         then Err (text_error (ID_FIELD P) Whitespace)
         else mret tt.

Definition identifier (P : IdentPolicy) (raw : str) : result TextError str :=
  _ ← check_identifier P raw; mret raw.

(** [checked::path] *)
Definition path (raw : str) : result TextError str :=
  _ ← characters (lit "path") raw false false;
  if 512 <? str_len raw then Err (text_error (lit "path") Bytes)
  else if negb (is_repo_path (as_bytes raw)) then Err (text_error (lit "path") Path)
  else mret raw.

End Checks.

(** ** UTF-8 lengths *)

Lemma continuation_byte c : Z.land (Z.lor 128 (Z.land c 63)) 192 = 128.
Proof. by rewrite Z.land_lor_distr_l, <- Z.land_assoc, Z.land_0_r. Qed.

Lemma leading_byte k c : Z.land k 192 = 192 -> Z.land (Z.lor k c) 192 <> 128.
Proof.
  intros Hk E. rewrite Z.land_lor_distr_l, Hk in E. apply (f_equal (fun z => Z.testbit z 6)) in E.
  rewrite Z.lor_spec in E. change (Z.testbit 192 6) with true in E. done.
Qed.

Lemma ascii_byte c : 0 <= c < 128 -> Z.land c 192 <> 128.
Proof.
  intros Hc E. apply (f_equal (fun z => Z.testbit z 7)) in E. rewrite Z.land_spec in E.
  change (Z.testbit 192 7) with true in E. change (Z.testbit 128 7) with true in E.
  rewrite andb_true_r in E. destruct (Z.eq_dec c 0) as [->|Hn]; [done|].
  rewrite Z.bits_above_log2 in E; [done|lia|]. assert (Z.log2 c < 7); [|lia].
  apply Z.log2_lt_pow2; lia.
Qed.

(** One leading byte per character, and [len_utf8] bytes. *)
Lemma utf8_char_counts c :
  0 <= c ->
  length (filter (fun byte => Z.land byte 192 <> 128) (utf8_char c)) = 1%nat /\
  Z.of_nat (length (utf8_char c)) = len_utf8 c.
Proof.
  intros Hc. unfold utf8_char, len_utf8.
  destruct (Z.ltb_spec c 128); [|destruct (Z.ltb_spec c 2048); [|destruct (Z.ltb_spec c 65536)]];
    (split; [|done]); rewrite ?filter_cons, ?filter_nil.
  - by rewrite decide_True by (apply ascii_byte; lia).
  - rewrite decide_True by (by apply leading_byte).
    rewrite !decide_False by (rewrite continuation_byte; tauto). done.
  - rewrite decide_True by (by apply leading_byte).
    rewrite !decide_False by (rewrite continuation_byte; tauto). done.
  - rewrite decide_True by (by apply leading_byte).
    rewrite !decide_False by (rewrite continuation_byte; tauto). done.
Qed.

Lemma as_bytes_counts s :
  Forall (fun c => 0 <= c) s ->
  length (filter (fun byte => Z.land byte 192 <> 128) (as_bytes s)) = length s /\
  Z.of_nat (length (as_bytes s)) = str_len s.
Proof.
  induction 1 as [|c s Hc _ [IH1 IH2]]; [done|]. destruct (utf8_char_counts c Hc) as [H1 H2].
  unfold as_bytes in *. cbn [mbind list_bind]. rewrite filter_app, !length_app, H1. split; [cbn; lia|].
  cbn [str_len foldr]. fold (str_len s). lia.
Qed.

Lemma count_within_Ok s max_chars max_bytes :
  Forall (fun c => 0 <= c) s ->
  count_within (as_bytes s) max_chars max_bytes = Ok tt <->
  Z.of_nat (length s) <= max_chars /\ str_len s <= max_bytes.
Proof.
  intros [H1 H2]%as_bytes_counts. unfold count_within. rewrite H1, H2.
  destruct (Z.ltb_spec max_chars (Z.of_nat (length s))), (Z.ltb_spec max_bytes (str_len s));
    split; try done; lia.
Qed.

(** ** What the checks accept *)

Lemma starts_with_true p s : starts_with p s = true <-> exists b, s = p ++ b.
Proof.
  revert s. induction p as [|a p IH]; intros s; [split; [eauto|done]|].
  destruct s as [|c s]; cbn; [split; [done|by intros (b & [=])]|].
  rewrite andb_true_iff, Z.eqb_eq, IH. split; [intros (-> & b & ->); eauto|intros (b & [= -> ->]); eauto].
Qed.

Lemma contains_str_true p s : contains_str p s = true <-> exists a b, s = a ++ p ++ b.
Proof.
  induction s as [|c s IH]; cbn [contains_str]; rewrite orb_true_iff, starts_with_true.
  - split; [intros [(b & E)|]; [by exists [], b|done]|]. intros (a & b & E). left.
    symmetry in E. apply app_nil in E as [-> E]. by exists b.
  - rewrite IH. split.
    + intros [(b & ->)|(a & b & ->)]; [by exists [], b|by exists (c :: a), b].
    + intros ([|x a] & b & E); [left; eauto|]. injection E as <- ->. right. eauto.
Qed.

Section Laws.
  Context (get_general_category : Z -> GeneralCategory) (nfc : str -> str).
  (** NFC is a normal form, and a carriage return is a control character
      (Unicode Standard Annex 15, section 1.3; the category table). *)
  Context (nfc_idempotent : forall s, nfc (nfc s) = nfc s).
  Context (cr_is_control : get_general_category 13 = Control).

  Abbreviation rejects := (rejects_code_point get_general_category).
  Abbreviation check := (text get_general_category nfc).

(** A text that satisfies a field's policy. *)
Record well_formed (P : TextPolicy) (t : str) : Prop := {
  wf_characters : Forall (fun c => rejects c = false \/
    (MULTILINE P = true /\ (c = 10 \/ c = 9 \/ (ALLOW_CR P = true /\ c = 13)))) t;
  wf_chars : Z.of_nat (length t) <= MAX_CHARS P;
  wf_bytes : str_len t <= MAX_BYTES P;
  wf_nonempty : ALLOW_EMPTY P = false -> t <> [];
  wf_prose : WHITESPACE P = Prose -> trim t = t /\ ~ exists a b, t = a ++ [10; 10; 10] ++ b;
}.

(** The text a field keeps of its input. *)
Definition kept (P : TextPolicy) (raw : str) : str :=
  match NORMALIZATION P with Semantic => normalized nfc raw | Exact => raw end.

(** Inputs short enough to be looked at. *)
Definition readable (P : TextPolicy) (raw : str) : Prop :=
  match NORMALIZATION P with
  | Semantic => str_len raw <= 4 * MAX_BYTES P
  | Exact => str_len raw <= MAX_BYTES P
  end.

Lemma characters_Ok field t multiline allow_cr u :
  characters get_general_category field t multiline allow_cr = Ok u <->
  Forall (fun c => rejects c = false \/
    (multiline = true /\ (c = 10 \/ c = 9 \/ (allow_cr = true /\ c = 13)))) t.
Proof.
  clear cr_is_control. induction t as [|c t IH]; cbn [characters]; [destruct u; done|]. rewrite Forall_cons.
  destruct (multiline && _) eqn:E.
  - rewrite IH. split; [|tauto]. intros H. split; [|done]. right.
    rewrite !andb_true_iff, !orb_true_iff, andb_true_iff, !Z.eqb_eq in E. tauto.
  - destruct (rejects c) eqn:R.
    + split; [done|]. intros [[?|(-> & H)] _]; [done|].
      rewrite !andb_false_iff, !orb_false_iff, andb_false_iff, !Z.eqb_neq in E.
      destruct E as [?|((? & ?) & [->|?])]; [done|..]; destruct H as [?|[?|[? ?]]]; congruence.
    + rewrite IH. split; [|tauto]. intros H. split; [by left|done].
Qed.

Lemma rejects_false_scalar c : rejects c = false -> 0 <= c.
Proof.
  unfold rejects_code_point. destruct (char_from_u32 c) eqn:E; [|done].
  apply char_from_u32_Some in E. lia.
Qed.

Lemma well_formed_scalars P t : well_formed P t -> Forall (fun c => 0 <= c) t.
Proof.
  intros [Hc _ _ _ _]. eapply list.Forall_impl; [exact Hc|]. cbn. intros c [H%rejects_false_scalar|H]; lia.
Qed.

Lemma checked_text_Ok P r t :
  checked_text get_general_category P r = Ok t <-> t = r /\ well_formed P r.
Proof.
  unfold checked_text. destruct (str_is_empty r && negb (ALLOW_EMPTY P)) eqn:Ee.
  { rewrite andb_true_iff, negb_true_iff in Ee. destruct Ee as [Er Ea]. destruct r; [|done].
    split; [done|]. intros (_ & Hwf). by destruct (wf_nonempty _ _ Hwf Ea). }
  assert (ALLOW_EMPTY P = false -> r <> []) as Hne by (intros Ea ->; by rewrite Ea in Ee).
  rewrite result_bind_Ok. setoid_rewrite result_bind_Ok. split.
  - intros (u & Hc%characters_Ok & v & Hl & Hr).
    assert (Forall (fun c => 0 <= c) r) as Hs.
    { eapply list.Forall_impl; [exact Hc|]. cbn. intros c [H%rejects_false_scalar|H]; lia. }
    unfold limits in Hl. destruct (count_within _ _ _) as [[]|] eqn:Hcw; [|done].
    apply (count_within_Ok _ _ _ Hs) in Hcw as [L1 L2].
    destruct (bool_decide _ && _) eqn:Ew; [done|]. injection Hr as <-. split; [done|]. constructor; try done.
    intros Hp. rewrite bool_decide_eq_true_2 in Ew by done. cbn [andb] in Ew.
    rewrite orb_false_iff, negb_false_iff, str_eqb_eq, <- not_true_iff_false, contains_str_true in Ew. done.
  - intros (-> & Hwf). exists tt. split; [by apply characters_Ok, Hwf|]. exists tt. split.
    { unfold limits. rewrite (proj2 (count_within_Ok _ _ _ (well_formed_scalars _ _ Hwf))); [done|].
      split; apply Hwf. }
    rewrite (proj2 (andb_false_iff _ _)); [done|]. case_bool_decide as Hp; [right|by left].
    apply orb_false_iff. rewrite negb_false_iff, str_eqb_eq, <- not_true_iff_false, contains_str_true.
    apply (wf_prose _ _ Hwf Hp).
Qed.

(** The checks, in order, amount to the policy. *)
Lemma text_Ok P raw t :
  0 <= MAX_BYTES P -> 4 * MAX_BYTES P <= usize_max ->
  check P raw = Ok t <-> readable P raw /\ t = kept P raw /\ well_formed P t.
Proof.
  intros H0 Hw. unfold text, readable, kept. destruct (NORMALIZATION P).
  - unfold oversized, saturating_mul_usize. rewrite Z.min_l by lia.
    destruct (Z.ltb_spec (MAX_BYTES P * 4) (str_len raw)); cbn [mbind result_bind].
    + split; [done|lia].
    + cbn. rewrite checked_text_Ok.
      split; [intros [-> ?]; split_and!; try done; lia|intros (_ & -> & ?); done].
  - destruct (Z.ltb_spec (MAX_BYTES P) (str_len raw)); cbn [mbind result_bind].
    + split; [done|lia].
    + cbn. rewrite checked_text_Ok.
      split; [intros [-> ?]; split_and!; try done; lia|intros (_ & -> & ?); done].
Qed.

(** What all the policies of the code have in common. *)
Lemma text_policies_sound P :
  P ∈ text_policies ->
  0 <= MAX_BYTES P /\ 4 * MAX_BYTES P <= usize_max /\ (NORMALIZATION P = Semantic -> ALLOW_CR P = false).
Proof.
  intros HP. assert (Forall (fun P => 0 <= MAX_BYTES P /\ 4 * MAX_BYTES P <= usize_max /\
    (NORMALIZATION P = Semantic -> ALLOW_CR P = false)) text_policies) as HF.
  { unfold text_policies, exact_texts, texts. repeat apply Forall_cons_2; try apply Forall_nil_2;
      (split_and!; [vm_compute; discriminate..|intros; done || (vm_compute in *; congruence)]). }
  rewrite list.Forall_forall in HF. by apply HF.
Qed.

(** Folding line ends does nothing without carriage returns. *)
Lemma no_cr_fold s : 13 ∉ s -> replace_cr (replace_crlf s) = s.
Proof.
  intros Hn. assert (forall n s, (length s <= n)%nat -> 13 ∉ s -> replace_crlf s = s) as Hcrlf.
  { clear. intros n. induction n as [|n IH]; intros [|c s] Hl Hn; cbn in Hl; try done; try lia.
    cbn [replace_crlf]. destruct s as [|d s]; [done|].
    destruct (Z.eqb_spec c 13); [set_solver|]. cbn [andb]. f_equal. apply IH; [cbn in *; lia|set_solver]. }
  rewrite (Hcrlf (length s)) by done. unfold replace_cr. rewrite <- (list_fmap_id s) at 2.
  apply list_fmap_ext. intros i c Hc%list_elem_of_lookup_2. cbn. by destruct (Z.eqb_spec c 13) as [->|].
Qed.

Lemma well_formed_no_cr P t : ALLOW_CR P = false -> well_formed P t -> 13 ∉ t.
Proof.
  intros Ha [Hc _ _ _ _] H13. rewrite list.Forall_forall in Hc. destruct (Hc 13 H13) as [R|(_ & [?|[?|[? _]]])];
    try congruence. unfold rejects_code_point in R. cbn in R. by rewrite cr_is_control in R.
Qed.

(** C37: validated text.  For every text field of the domain, the check accepts
    exactly the inputs that are short enough to be read and whose kept form
    (the input itself, or its line-folded NFC form) satisfies the field's
    policy: no control, format, unassigned, private or non-character code point
    beyond the line breaks the field allows, the limits in characters and in
    UTF-8 bytes, no emptiness, surrounding whitespace or run of three line
    breaks where forbidden; what it returns is that form.  And what it returned
    once is accepted again, unchanged: stored text survives revalidation. *)
Theorem text_fields_are_validated P raw t :
  P ∈ text_policies ->
  (check P raw = Ok t <-> readable P raw /\ t = kept P raw /\ well_formed P t) /\
  (check P raw = Ok t -> check P t = Ok t).
Proof.
  intros HP. destruct (text_policies_sound P HP) as (H0 & Hw & Hcr). split; [by apply text_Ok|].
  rewrite !text_Ok by done. intros (_ & -> & Hwf). split_and!; [| |done].
  - pose proof (wf_bytes _ _ Hwf). unfold readable. destruct (NORMALIZATION P); lia.
  - unfold kept in *. destruct (NORMALIZATION P) eqn:E; [|done].
    unfold normalized at 2. rewrite no_cr_fold by (by eapply well_formed_no_cr; [apply Hcr|]).
    unfold normalized. by rewrite nfc_idempotent.
Qed.

End Laws.

(** Tables for ASCII. *)
Definition ascii_category (c : Z) : GeneralCategory :=
  if (c <? 32) || (c =? 127) then Control else OtherLetter.

Lemma text_fields_are_validated_witness :
  text ascii_category id (prose_text "title" 200 false) (lit "heap overflow") = Ok (lit "heap overflow") /\
  text ascii_category id (prose_text "title" 200 false) (lit " x") =
    Err (text_error (lit "title") Whitespace) /\
  well_formed ascii_category (prose_text "title" 200 false) (lit "heap overflow").
Proof.
  assert (text ascii_category id (prose_text "title" 200 false) (lit "heap overflow") = Ok (lit "heap overflow"))
    as E by (vm_compute; reflexivity).
  split; [exact E|]. split; [vm_compute; reflexivity|].
  assert (prose_text "title" 200 false ∈ text_policies) as HP.
  { unfold text_policies. right. apply elem_of_app. right. left. }
  exact (proj2 (proj2 (proj1 (proj1 (text_fields_are_validated ascii_category id (fun _ => eq_refl) eq_refl
    (prose_text "title" 200 false) (lit "heap overflow") (lit "heap overflow") HP)) E))).
Defined.

(** ** Repository paths *)

(** Following a path from a directory: empty and [.] components stay, [..]
    goes up, a name goes down. *)
Fixpoint walk (dir parts : list (list Z)) : list (list Z) :=
  match parts with
  | [] => dir
  | part :: parts =>
      walk (if bool_decide (part = [] \/ part = lit ".") then dir
            else if bool_decide (part = lit "..") then removelast dir
            else dir ++ [part]) parts
  end.

Lemma walk_names dir parts :
  Forall (fun part => part ∉ [[]; lit "."; lit ".."]) parts -> walk dir parts = dir ++ parts.
Proof.
  intros Hp. revert dir. induction Hp as [|part parts Hn _ IH]; intros dir; cbn [walk]; [by rewrite app_nil_r|].
  rewrite !bool_decide_eq_false_2 by set_solver. by rewrite IH, <- app_assoc.
Qed.

Lemma split_on_no_sep sep s : Forall (fun part => sep ∉ part) (split_on sep s).
Proof.
  induction s as [|c s IH]; cbn [split_on]; [repeat constructor; set_solver|].
  destruct (Z.eqb_spec c sep); [constructor; [set_solver|done]|].
  destruct (split_on sep s) as [|part parts]; [repeat constructor; set_solver|].
  apply Forall_cons in IH as [H1 H2]. constructor; [set_solver|done].
Qed.

Lemma split_on_cons sep s : exists part parts, split_on sep s = part :: parts.
Proof.
  destruct s as [|c s]; cbn [split_on]; [eauto|]. destruct (c =? sep); [eauto|].
  destruct (split_on sep s); eauto.
Qed.

Lemma is_repo_path_true raw :
  is_repo_path raw = true <->
  92 ∉ raw /\ 0 ∉ raw /\ Forall (fun part => part ∉ [[]; lit "."; lit ".."]) (split_on 47 raw).
Proof.
  unfold is_repo_path. rewrite !andb_true_iff, !negb_true_iff, !bool_decide_eq_false.
  assert (existsb (fun part => bool_decide (part ∈ [[]; lit "."; lit ".."])) (split_on 47 raw) = false <->
    Forall (fun part => part ∉ [[]; lit "."; lit ".."]) (split_on 47 raw)) as ->; [|tauto].
  rewrite <- not_true_iff_false, existsb_exists, list.Forall_forall. setoid_rewrite bool_decide_eq_true.
  setoid_rewrite <- list_elem_of_In. split; [|naive_solver]. intros H part Hp Hb. apply H. eauto.
Qed.

(** accepted repository paths stay inside the repository.  The check
    accepts a path, as it is spelled, exactly when its characters are allowed,
    it is at most 512 bytes long, has no backslash and no NUL, and none of its
    components is empty, [.] or [..]; so it is relative and not empty, and
    following it from any directory goes down once per component and never up. *)
Theorem repo_paths_stay_inside category raw p :
  (path category raw = Ok p <->
     p = raw /\ Forall (fun c => rejects_code_point category c = false) raw /\ str_len raw <= 512 /\
     92 ∉ as_bytes raw /\ 0 ∉ as_bytes raw /\
     Forall (fun part => part ∉ [[]; lit "."; lit ".."]) (split_on 47 (as_bytes raw))) /\
  (path category raw = Ok p ->
     p <> [] /\ (forall rest, p <> 47 :: rest) /\
     forall dir, exists name names, split_on 47 (as_bytes p) = name :: names /\
       walk dir (split_on 47 (as_bytes p)) = dir ++ name :: names).
Proof.
  assert (path category raw = Ok p <->
     p = raw /\ Forall (fun c => rejects_code_point category c = false) raw /\ str_len raw <= 512 /\
     92 ∉ as_bytes raw /\ 0 ∉ as_bytes raw /\
     Forall (fun part => part ∉ [[]; lit "."; lit ".."]) (split_on 47 (as_bytes raw))) as Hiff.
  { unfold path. rewrite result_bind_Ok. setoid_rewrite characters_Ok.
    assert (forall r, Forall (fun c => rejects_code_point category c = false \/
      (false = true /\ (c = 10 \/ c = 9 \/ (false = true /\ c = 13)))) r <->
      Forall (fun c => rejects_code_point category c = false) r) as Hf.
    { intros r. apply Forall_iff. intros c. naive_solver. }
    setoid_rewrite Hf. destruct (Z.ltb_spec 512 (str_len raw)) as [Hl|Hl].
    { split; [by intros (_ & _ & [=])|intros (_ & _ & ? & _); lia]. }
    destruct (is_repo_path (as_bytes raw)) eqn:E; cbn [negb].
    - apply is_repo_path_true in E. split; [intros (u & ? & [= ->]); done|]. intros (-> & ? & _). by exists tt.
    - split; [by intros (_ & _ & [=])|]. intros (_ & _ & _ & Hp). apply is_repo_path_true in Hp. congruence. }
  split; [exact Hiff|]. intros (-> & _ & _ & _ & _ & Hparts)%Hiff. split_and!.
  - intros ->. cbn in Hparts. apply Forall_cons in Hparts as [H _]. set_solver.
  - intros rest ->. unfold as_bytes in Hparts. cbn in Hparts. apply Forall_cons in Hparts as [H _]. set_solver.
  - intros dir. destruct (split_on_cons 47 (as_bytes raw)) as (name & names & E). exists name, names.
    split; [done|]. rewrite <- E. by apply walk_names.
Qed.
