(* ===== verification/Utf8.v ===== *)
(** * Decoding UTF-8

    What the standard library does for [std::str::from_utf8] and [str::chars]
    on a byte slice, as one executable decoder: the characters of well-formed
    UTF-8, [None] otherwise.  [Text.utf8_char] and [Text.as_bytes] are the
    encoders; the lemmas say that the two are inverse to each other. *)

From S2P Require Import Prelude Text.
From Stdlib Require Import ZArith Lia.
From stdpp Require Import base list numbers.
Local Open Scope Z_scope.

(** A Unicode scalar value, the values of [char]. *)
Definition scalar (c : Z) : bool :=
  ((0 <=? c) && (c <? 55296)) || ((57344 <=? c) && (c <? 1114112)).

Definition cont (b : Z) : bool := (128 <=? b) && (b <=? 191).

(** The second byte a leading byte of three or four bytes allows. *)
Definition second3 (b0 b1 : Z) : bool :=
  if b0 =? 224 then (160 <=? b1) && (b1 <=? 191)
  else if b0 =? 237 then (128 <=? b1) && (b1 <=? 159) else cont b1.
Definition second4 (b0 b1 : Z) : bool :=
  if b0 =? 240 then (144 <=? b1) && (b1 <=? 191)
  else if b0 =? 244 then (128 <=? b1) && (b1 <=? 143) else cont b1.

(** The code point of a sequence of two, three and four bytes. *)
Definition point2 (b0 b1 : Z) : Z := Z.lor (Z.shiftl (Z.land b0 31) 6) (Z.land b1 63).
Definition point3 (b0 b1 b2 : Z) : Z :=
  Z.lor (Z.shiftl (Z.land b0 15) 12) (Z.lor (Z.shiftl (Z.land b1 63) 6) (Z.land b2 63)).
Definition point4 (b0 b1 b2 b3 : Z) : Z :=
  Z.lor (Z.shiftl (Z.land b0 7) 18)
    (Z.lor (Z.shiftl (Z.land b1 63) 12) (Z.lor (Z.shiftl (Z.land b2 63) 6) (Z.land b3 63))).

(** [std::str::from_utf8] followed by [chars] *)
Fixpoint from_utf8 (bs : list Z) : option str :=
  match bs with
  | [] => Some []
  | b0 :: t0 =>
      if (0 <=? b0) && (b0 <=? 127) then cons b0 <$> from_utf8 t0
      else if (194 <=? b0) && (b0 <=? 223) then
        match t0 with
        | b1 :: t1 => if cont b1 then cons (point2 b0 b1) <$> from_utf8 t1 else None
        | _ => None
        end
      else if (224 <=? b0) && (b0 <=? 239) then
        match t0 with
        | b1 :: b2 :: t2 =>
            if second3 b0 b1 && cont b2 then cons (point3 b0 b1 b2) <$> from_utf8 t2 else None
        | _ => None
        end
      else if (240 <=? b0) && (b0 <=? 244) then
        match t0 with
        | b1 :: b2 :: b3 :: t3 =>
            if second4 b0 b1 && cont b2 && cont b3 then cons (point4 b0 b1 b2 b3) <$> from_utf8 t3
            else None
        | _ => None
        end
      else None
  end.

(** ** Agreement with the recogniser *)

(** Induction along the lengths of a sequence. *)
Lemma bytes_suffix_ind (P : list Z -> Prop) :
  P [] -> (forall b t, (forall l t', t = l ++ t' -> P t') -> P (b :: t)) -> forall bs, P bs.
Proof.
  intros Hnil Hcons bs. remember (length bs) as n eqn:Hn. revert bs Hn.
  induction n as [n IH] using lt_wf_ind. intros [|b t] Hn; [assumption|].
  apply Hcons. intros l t' ->. eapply IH; [|reflexivity]. subst n. simpl. rewrite length_app. lia.
Qed.

Lemma fmap_cons_is_Some (c : Z) (o : option str) : is_Some (cons c <$> o) <-> is_Some o.
Proof. apply fmap_is_Some. Qed.

Lemma none_is_not_Some : (false = true <-> is_Some (@None str)).
Proof. split; [discriminate|intros [? [=]]]. Qed.

Lemma guarded_is_Some (g v : bool) c (o : option str) :
  (v = true <-> is_Some o) -> (g && v = true <-> is_Some (if g then cons c <$> o else None)).
Proof.
  intros H. destruct g; cbn [andb]; [|by apply none_is_not_Some].
  rewrite H. symmetry. apply fmap_cons_is_Some.
Qed.

Lemma from_utf8_valid bs : valid_utf8 bs = true <-> is_Some (from_utf8 bs).
Proof.
  induction bs as [|b0 t0 IH] using bytes_suffix_ind; [split; [eexists; reflexivity|reflexivity]|].
  cbn -[Z.leb Z.eqb].
  destruct ((0 <=? b0) && (b0 <=? 127)); [rewrite (IH [] t0 eq_refl); symmetry; apply fmap_cons_is_Some|].
  unfold second3, second4, cont.
  destruct ((194 <=? b0) && (b0 <=? 223)).
  { destruct t0 as [|b1 t1]; [by apply none_is_not_Some|].
    apply guarded_is_Some, (IH [b1] t1 eq_refl). }
  destruct ((224 <=? b0) && (b0 <=? 239)).
  { destruct t0 as [|b1 [|b2 t2]]; [by apply none_is_not_Some..|].
    apply guarded_is_Some, (IH [b1; b2] t2 eq_refl). }
  destruct ((240 <=? b0) && (b0 <=? 244)); [|by apply none_is_not_Some].
  destruct t0 as [|b1 [|b2 [|b3 t3]]]; [by apply none_is_not_Some..|].
  apply guarded_is_Some, (IH [b1; b2; b3] t3 eq_refl).
Qed.

(** ** Inverse of the encoder *)

Lemma lor_low k x n : 0 <= n -> 0 <= x < 2 ^ n -> Z.lor (k * 2 ^ n) x = k * 2 ^ n + x.
Proof.
  intros Hn Hx. assert (H : Z.land (k * 2 ^ n) x = 0).
  { apply Z.bits_inj'. intros i Hi. rewrite Z.land_spec, Z.bits_0.
    destruct (Z.lt_ge_cases i n) as [Hlt|Hge].
    - rewrite Z.mul_pow2_bits_low by lia. reflexivity.
    - rewrite (Z.testbit_eqb x) by lia.
      rewrite Z.div_small by (pose proof (Z.pow_le_mono_r 2 n i); lia). apply andb_false_r. }
  rewrite Z.add_nocarry_lxor, Z.lxor_lor by exact H. reflexivity.
Qed.

(** The four constants of the encoder and the masks of the decoder, as arithmetic. *)
Lemma lead_byte k n x : 0 <= n -> 0 <= x < 2 ^ n -> k mod 2 ^ n = 0 -> Z.lor k x = k + x.
Proof.
  intros Hn Hx Hk. pose proof (Z.div_mod k (2 ^ n) ltac:(lia)) as H.
  rewrite Hk, Z.add_0_r, Z.mul_comm in H. rewrite H. apply lor_low; assumption.
Qed.

Lemma shifted k n x : 0 <= n -> 0 <= x < 2 ^ n -> Z.lor (Z.shiftl k n) x = k * 2 ^ n + x.
Proof. intros Hn Hx. rewrite Z.shiftl_mul_pow2 by lia. apply lor_low; assumption. Qed.

Lemma mask7 x : Z.land x 7 = x mod 8. Proof. apply (Z.land_ones x 3). lia. Qed.
Lemma mask15 x : Z.land x 15 = x mod 16. Proof. apply (Z.land_ones x 4). lia. Qed.
Lemma mask31 x : Z.land x 31 = x mod 32. Proof. apply (Z.land_ones x 5). lia. Qed.
Lemma mask63 x : Z.land x 63 = x mod 64. Proof. apply (Z.land_ones x 6). lia. Qed.

Lemma point2_eq b0 b1 : point2 b0 b1 = b0 mod 32 * 64 + b1 mod 64.
Proof.
  unfold point2. rewrite mask31, mask63.
  apply (shifted _ 6); [lia|]. apply Z.mod_pos_bound. lia.
Qed.

Lemma point3_eq b0 b1 b2 : point3 b0 b1 b2 = b0 mod 16 * 4096 + (b1 mod 64 * 64 + b2 mod 64).
Proof.
  unfold point3.
  rewrite mask15, !mask63.
  pose proof (Z.mod_pos_bound b1 64). pose proof (Z.mod_pos_bound b2 64).
  rewrite (shifted (b1 mod 64) 6) by (try apply Z.mod_pos_bound; lia).
  apply (shifted _ 12); [lia|]. change (2 ^ 12) with 4096. lia.
Qed.

Lemma point4_eq b0 b1 b2 b3 :
  point4 b0 b1 b2 b3 = b0 mod 8 * 262144 + (b1 mod 64 * 4096 + (b2 mod 64 * 64 + b3 mod 64)).
Proof.
  unfold point4.
  rewrite mask7, !mask63.
  pose proof (Z.mod_pos_bound b1 64). pose proof (Z.mod_pos_bound b2 64). pose proof (Z.mod_pos_bound b3 64).
  rewrite (shifted (b2 mod 64) 6) by (try apply Z.mod_pos_bound; lia).
  rewrite (shifted (b1 mod 64) 12) by (change (2 ^ 12) with 4096; lia).
  apply (shifted _ 18); [lia|]. change (2 ^ 12) with 4096. change (2 ^ 18) with 262144. lia.
Qed.

Lemma utf8_char_eq c : 0 <= c < 1114112 -> utf8_char c =
  if c <? 128 then [c]
  else if c <? 2048 then [192 + c / 64; 128 + c mod 64]
  else if c <? 65536 then [224 + c / 4096; 128 + c / 64 mod 64; 128 + c mod 64]
  else [240 + c / 262144; 128 + c / 4096 mod 64; 128 + c / 64 mod 64; 128 + c mod 64].
Proof.
  intros Hc. unfold utf8_char.
  assert (Hcont : forall x, Z.lor 128 (Z.land x 63) = 128 + x mod 64).
  { intros x. rewrite mask63. apply (lead_byte 128 6); [lia| |reflexivity].
    apply Z.mod_pos_bound. lia. }
  rewrite !Hcont, !Z.shiftr_div_pow2 by lia.
  destruct (c <? 128) eqn:H1; [reflexivity|]. destruct (c <? 2048) eqn:H2.
  { rewrite (lead_byte 192 5); [reflexivity|lia| |reflexivity].
    change (2 ^ 6) with 64. change (2 ^ 5) with 32. Z.to_euclidean_division_equations. lia. }
  destruct (c <? 65536) eqn:H3.
  { rewrite (lead_byte 224 4); [reflexivity|lia| |reflexivity].
    change (2 ^ 12) with 4096. change (2 ^ 4) with 16. Z.to_euclidean_division_equations. lia. }
  rewrite (lead_byte 240 3); [reflexivity|lia| |reflexivity].
  change (2 ^ 18) with 262144. change (2 ^ 3) with 8. Z.to_euclidean_division_equations. lia.
Qed.

(** Decoding takes one encoded character off the front. *)
Lemma from_utf8_char c s : scalar c = true -> from_utf8 (utf8_char c ++ s) = cons c <$> from_utf8 s.
Proof.
  unfold scalar. intros Hc. bool_prop. rewrite utf8_char_eq by lia.
  destruct (c <? 128) eqn:H1; [|destruct (c <? 2048) eqn:H2; [|destruct (c <? 65536) eqn:H3]]; bool_prop.
  - cbn -[Z.leb Z.eqb]. replace ((0 <=? c) && (c <=? 127)) with true by lia. reflexivity.
  - cbn -[Z.leb Z.add Z.div Z.modulo]. unfold cont.
    assert (Hp : point2 (192 + c / 64) (128 + c mod 64) = c)
      by (rewrite point2_eq; Z.to_euclidean_division_equations; lia).
    rewrite Hp. case_tests; first [reflexivity|exfalso; Z.to_euclidean_division_equations; lia].
  - cbn -[Z.leb Z.eqb Z.add Z.div Z.modulo]. unfold cont, second3, cont.
    assert (Hp : point3 (224 + c / 4096) (128 + c / 64 mod 64) (128 + c mod 64) = c)
      by (rewrite point3_eq; Z.to_euclidean_division_equations; lia).
    rewrite Hp. case_tests; first [reflexivity|exfalso; Z.to_euclidean_division_equations; lia].
  - cbn -[Z.leb Z.eqb Z.add Z.div Z.modulo]. unfold cont, second4, cont.
    assert (Hp : point4 (240 + c / 262144) (128 + c / 4096 mod 64) (128 + c / 64 mod 64) (128 + c mod 64) = c)
      by (rewrite point4_eq; Z.to_euclidean_division_equations; lia).
    rewrite Hp. case_tests; first [reflexivity|exfalso; Z.to_euclidean_division_equations; lia].
Qed.

(** [str::from_utf8] reads back what [str::as_bytes] gives. *)
Lemma from_utf8_as_bytes s : Forall (fun c => scalar c = true) s -> from_utf8 (as_bytes s) = Some s.
Proof.
  induction 1 as [|c s Hc _ IH]; [reflexivity|].
  change (as_bytes (c :: s)) with (utf8_char c ++ as_bytes s).
  rewrite from_utf8_char, IH by exact Hc. reflexivity.
Qed.

(** One well-formed sequence at the front: its length, and the character. *)
Definition utf8_width (b0 : Z) : option nat :=
  if (0 <=? b0) && (b0 <=? 127) then Some 1%nat
  else if (194 <=? b0) && (b0 <=? 223) then Some 2%nat
  else if (224 <=? b0) && (b0 <=? 239) then Some 3%nat
  else if (240 <=? b0) && (b0 <=? 244) then Some 4%nat
  else None.
