(* ===== verification/Fingerprint.v ===== *)
(** * Fingerprints of findings

    [loupe-worker/src/fingerprint.rs] hashes a window of source text after
    normalising it; [loupe-worker/src/mcp/citation/fingerprint.rs] computes the
    same hash from a stream of characters, keeping two hasher states while it
    does not know yet whether a capital sigma ends its word.  Both are modelled
    here; [stream_matches_reference] says that they agree.

    The Unicode tables behind [str::to_lowercase] (the properties [Cased] and
    [Case_Ignorable] and the per-character mapping) are the class
    [UnicodeCase], with the entries the code relies on as [UnicodeCaseLaws].
    BLAKE3 is a parameter; an incremental hasher is the bytes it was given. *)

From S2P Require Import Prelude Text Utf8.
From Stdlib Require Import ZArith Lia.
From stdpp Require Import base sets list numbers strings.
Local Open Scope Z_scope.

(** ** The standard library's text functions *)

(** [slice::split_inclusive], [str::split_inclusive] *)
Fixpoint split_inclusive (sep : Z) (s : list Z) : list (list Z) :=
  match s with
  | [] => []
  | c :: s =>
      if c =? sep then [c] :: split_inclusive sep s
      else match split_inclusive sep s with
           | part :: parts => (c :: part) :: parts
           | [] => [[c]]
           end
  end.

(** [strip_suffix] of one character *)
Definition strip_last (c : Z) (s : list Z) : option (list Z) :=
  match reverse s with
  | d :: r => if d =? c then Some (reverse r) else None
  | [] => None
  end.

(** [str::lines] *)
Definition line_text (line : str) : str :=
  match strip_last 10 line with
  | None => line
  | Some body => default body (strip_last 13 body)
  end.
Definition lines (s : str) : list str := line_text <$> split_inclusive 10 s.

(** [str::split_whitespace]: a word the text starts with, and the others. *)
Fixpoint split_ws (s : str) : str * list str :=
  match s with
  | [] => ([], [])
  | c :: s =>
      let '(word, rest) := split_ws s in
      if is_whitespace c then ([], if str_is_empty word then rest else word :: rest)
      else (c :: word, rest)
  end.
Definition split_whitespace (s : str) : list str :=
  let '(word, rest) := split_ws s in if str_is_empty word then rest else word :: rest.

(** [slice::join] *)
Fixpoint join (sep : str) (parts : list str) : str :=
  match parts with
  | [] => []
  | [part] => part
  | part :: parts => part ++ sep ++ join sep parts
  end.

(** [u32::saturating_add] *)
Definition saturating_add_u32 (a b : Z) : Z := Z.min (a + b) u32_max.

(** ** Lower case *)

Class UnicodeCase := {
  cased : Z -> bool;
  case_ignorable : Z -> bool;
  (** [char::to_lowercase] *)
  to_lower : Z -> str;
}.

Definition SIGMA : Z := 931.
Definition SMALL_SIGMA : Z := 963.
Definition FINAL_SIGMA : Z := 962.

Section Lowercase.
Context {U : UnicodeCase}.

(** [case_ignorable_then_cased] of the standard library. *)
Definition ignorable_then_cased (s : str) : bool :=
  match drop_while case_ignorable s with
  | c :: _ => cased c
  | [] => false
  end.

(** [before] is the text before the position, last character first. *)
Fixpoint lowercase_from (before after : str) : str :=
  match after with
  | [] => []
  | c :: after =>
      (if c =? SIGMA then
         if ignorable_then_cased before && negb (ignorable_then_cased after)
         then [FINAL_SIGMA] else [SMALL_SIGMA]
       else to_lower c) ++ lowercase_from (c :: before) after
  end.

(** [str::to_lowercase] *)
Definition to_lowercase (s : str) : str := lowercase_from [] s.

(** ** [fingerprint.rs] *)

(** The loop body of [normalize_window]. *)
Definition normalize_line (out line : str) : str :=
  let trimmed := trim line in
  if str_is_empty trimmed then out
  else
    let collapsed := join [32] (split_whitespace trimmed) in
    let out := if str_is_empty out then out else out ++ [10] in
    out ++ to_lowercase collapsed.

Definition normalize_window (s : str) : str := foldl normalize_line [] (lines s).

Definition extract_window (source : str) (line_start line_end context : Z) : str :=
  let ls := lines source in
  match ls with
  | [] => []
  | _ =>
      let start := saturating_sub_u32 (saturating_sub_u32 line_start context) 1 in
      let stop := Z.min (saturating_add_u32 line_end context) (Z.of_nat (length ls)) in
      if stop <=? start then []
      else join [10] (take (Z.to_nat (stop - start)) (drop (Z.to_nat start) ls))
  end.

(** The bytes [compute] feeds to the hasher, the normalised window apart. *)
Definition hash_header (scanner_id file_path : str) : list Z :=
  as_bytes scanner_id ++ [0] ++ as_bytes file_path ++ [0].

Definition compute {Hash : Type} (blake3 : list Z -> Hash) (to_hex : Hash -> str)
    (scanner_id file_path content_window : str) : str :=
  let normalized := normalize_window content_window in
  to_hex (blake3 (hash_header scanner_id file_path ++ as_bytes normalized)).

(** ** [citation/fingerprint.rs] *)

Record Fingerprint := {
  hash : list Z;
  final_sigma : option (list Z);
  preceding_cased : bool;
  content : bool;
  line_content : bool;
  space : bool;
}.

(** [mcp::SCANNER_ID] *)
Definition SCANNER_ID : str := lit "llm-code-review".

Definition new (file : str) : Fingerprint :=
  {| hash := hash_header SCANNER_ID file; final_sigma := None; preceding_cased := false;
     content := false; line_content := false; space := false |}.

(** [unicode_context]: the standard library is asked about [AΣcA] and [AΣc!]. *)
Definition unicode_context (ch : Z) : bool * bool :=
  let followed_by_cased := starts_with [97; SMALL_SIGMA] (to_lowercase [65; SIGMA; ch; 65]) in
  let followed_by_boundary := starts_with [97; SMALL_SIGMA] (to_lowercase [65; SIGMA; ch; 33]) in
  (followed_by_cased && negb followed_by_boundary, followed_by_boundary).

(** [case_context]: the table of the ASCII answers holds the same values. *)
Definition case_context (ch : Z) : bool * bool := unicode_context ch.

Definition lower (f : Fingerprint) (ch : Z) : Fingerprint :=
  let '(ignorable, cased) := case_context ch in
  let '(h, final) :=
    if ignorable then (hash f, final_sigma f)
    else match final_sigma f with
         | Some final => (if cased then hash f else final, None)
         | None => (hash f, None)
         end in
  let '(h, final) :=
    if (ch =? SIGMA) && preceding_cased f then
      (h ++ utf8_char SMALL_SIGMA, Some (h ++ utf8_char FINAL_SIGMA))
    else
      let encoded := as_bytes (to_lower ch) in
      (h ++ encoded, (fun final => final ++ encoded) <$> final) in
  {| hash := h; final_sigma := final;
     preceding_cased := if ignorable then preceding_cased f else cased;
     content := content f; line_content := line_content f; space := space f |}.

Definition finish_case (f : Fingerprint) : Fingerprint :=
  {| hash := default (hash f) (final_sigma f); final_sigma := None; preceding_cased := false;
     content := content f; line_content := line_content f; space := space f |}.

Definition set_flags (f : Fingerprint) (c lc sp : bool) : Fingerprint :=
  {| hash := hash f; final_sigma := final_sigma f; preceding_cased := preceding_cased f;
     content := c; line_content := lc; space := sp |}.

Definition push (f : Fingerprint) (ch : Z) : Fingerprint :=
  if ch =? 10 then let f := finish_case f in set_flags f (content f) false false
  else if is_whitespace ch then set_flags f (content f) (line_content f) (space f || line_content f)
  else
    let f :=
      if negb (line_content f) then
        let f := if content f then lower f 10 else f in
        set_flags f true true (space f)
      else if space f then lower f 32 else f in
    lower (set_flags f (content f) (line_content f) false) ch.

Definition finish {Hash : Type} (blake3 : list Z -> Hash) (f : Fingerprint) : Hash :=
  blake3 (hash (finish_case f)).

End Lowercase.

#[global] Arguments case_context : simpl never.

(** The entries of the Unicode tables the streaming hasher relies on. *)
Class UnicodeCaseLaws (U : UnicodeCase) : Prop := {
  lower_nonempty c : to_lower c <> [];
  lower_newline : to_lower 10 = [10];
  lower_A : to_lower 65 = [97];
  lower_sigma : to_lower SIGMA = [SMALL_SIGMA];
  newline_uncased : cased 10 = false;
  A_cased : cased 65 = true /\ case_ignorable 65 = false;
  bang_plain : cased 33 = false /\ case_ignorable 33 = false;
  sigma_cased : cased SIGMA = true /\ case_ignorable SIGMA = false;
}.

(** ** Words and lines *)

Lemma split_ws_spaces_front l s : Forall (fun c => is_whitespace c = true) l ->
  split_whitespace (l ++ s) = split_whitespace s.
Proof.
  induction 1 as [|c l Hc _ IH]; [reflexivity|]. unfold split_whitespace in *. cbn.
  destruct (split_ws (l ++ s)) as [w ws]. rewrite Hc. exact IH.
Qed.

Lemma split_ws_spaces_back l s : Forall (fun c => is_whitespace c = true) l ->
  split_ws (s ++ l) = split_ws s.
Proof.
  intros Hl. induction s as [|c s IH]; cbn; [|rewrite IH; reflexivity].
  induction Hl as [|c l Hc _ IH]; [reflexivity|]. cbn. rewrite IH, Hc. reflexivity.
Qed.

Lemma split_whitespace_back l s : Forall (fun c => is_whitespace c = true) l ->
  split_whitespace (s ++ l) = split_whitespace s.
Proof. intros Hl. unfold split_whitespace. rewrite (split_ws_spaces_back l s Hl). reflexivity. Qed.

Lemma drop_while_split p s :
  exists l, s = l ++ drop_while p s /\ Forall (fun c => p c = true) l.
Proof.
  induction s as [|c s (l & Hs & Hl)]; cbn; [exists []; auto|].
  destruct (p c) eqn:Hp; [|exists []; auto]. exists (c :: l). split; [cbn; congruence|auto].
Qed.

Lemma trim_split s : exists a b, s = a ++ trim s ++ b /\
  Forall (fun c => is_whitespace c = true) a /\ Forall (fun c => is_whitespace c = true) b.
Proof.
  unfold trim. destruct (drop_while_split is_whitespace s) as (a & Hs & Ha).
  set (t := drop_while is_whitespace s) in *.
  destruct (drop_while_split is_whitespace (reverse t)) as (b & Ht & Hb).
  exists a, (reverse b). split; [|split; [exact Ha|apply Forall_reverse, Hb]].
  rewrite <- reverse_app, <- Ht, reverse_involutive. exact Hs.
Qed.

Lemma split_whitespace_trim s : split_whitespace (trim s) = split_whitespace s.
Proof.
  destruct (trim_split s) as (a & b & Hs & Ha & Hb). rewrite Hs at 2.
  rewrite split_ws_spaces_front, split_whitespace_back by assumption. reflexivity.
Qed.

Lemma split_ws_nil s : split_whitespace s = [] <-> Forall (fun c => is_whitespace c = true) s.
Proof.
  split.
  - induction s as [|c s IH]; [auto|]. unfold split_whitespace in *. cbn.
    destruct (split_ws s) as [w ws]. destruct (is_whitespace c) eqn:Hc; [|discriminate].
    cbn. auto.
  - intros H. rewrite <- (app_nil_r s), split_ws_spaces_front by exact H. reflexivity.
Qed.

Lemma trim_nil s : trim s = [] <-> split_whitespace s = [].
Proof.
  rewrite <- split_whitespace_trim. split; [intros ->; reflexivity|]. intros H.
  rewrite split_whitespace_trim in H. apply split_ws_nil in H. unfold trim.
  enough (Hd : forall t, Forall (fun c => is_whitespace c = true) t -> drop_while is_whitespace t = [])
    by (rewrite (Hd _ H); reflexivity).
  induction 1 as [|c t Hc _ IH]; [reflexivity|]. cbn. rewrite Hc. exact IH.
Qed.

Lemma strip_last_Some c s r : strip_last c s = Some r <-> s = r ++ [c].
Proof.
  unfold strip_last. destruct (reverse s) as [|d t] eqn:Hr.
  - apply (f_equal reverse) in Hr. rewrite reverse_involutive in Hr. subst s.
    split; [discriminate|]. destruct r; discriminate.
  - apply (f_equal reverse) in Hr. rewrite reverse_involutive, reverse_cons in Hr. subst s.
    destruct (d =? c) eqn:Hd; bool_prop; subst; split; intros H; try (by simplify_eq);
      apply app_inj_2 in H as [? ?]; congruence || reflexivity.
Qed.

(** The words of the lines of a text that has any: what normalisation keeps. *)
Definition nonempty (ws : list str) : bool := match ws with [] => false | _ => true end.
Definition line_words (s : str) : list (list str) :=
  List.filter nonempty (split_whitespace <$> split_on 10 s).

Lemma line_words_of_lines s : List.filter nonempty (split_whitespace <$> lines s) = line_words s.
Proof.
  unfold line_words, lines. rewrite <- list_fmap_compose.
  set (body := line_text).
  assert (Hb : forall p, 10 ∉ p -> split_whitespace (body (p ++ [10])) = split_whitespace p).
  { intros p _. subst body. unfold line_text. replace (strip_last 10 (p ++ [10])) with (Some p)
      by (symmetry; apply strip_last_Some; reflexivity).
    destruct (strip_last 13 p) as [q|] eqn:Hq; [|reflexivity]. apply strip_last_Some in Hq. subst p.
    cbn. symmetry. apply split_whitespace_back. repeat constructor. }
  assert (Hl : forall p, 10 ∉ p -> body p = p).
  { intros p Hp. subst body. unfold line_text. destruct (strip_last 10 p) eqn:H; [|reflexivity].
    apply strip_last_Some in H. subst p. set_solver. }
  assert (H : forall s p, 10 ∉ p ->
    List.filter nonempty ((split_whitespace ∘ body) <$>
      match split_inclusive 10 s with [] => if str_is_empty p then [] else [p] | q :: qs => (p ++ q) :: qs end)
    = List.filter nonempty (split_whitespace <$>
      match split_on 10 s with [] => [] | q :: qs => (p ++ q) :: qs end)).
  { clear s. induction s as [|c s IH]; intros p Hp.
    - cbn. destruct p; [reflexivity|]. cbn -[split_whitespace]. rewrite app_nil_r, (Hl _ Hp). reflexivity.
    - cbn -[split_whitespace]. destruct (c =? 10) eqn:Hc; bool_prop.
      + subst c. cbn -[split_whitespace]. rewrite (Hb _ Hp), app_nil_r.
        specialize (IH [] ltac:(set_solver)). destruct (split_on_cons 10 s) as (q & qs & Hq).
        rewrite Hq in *. cbn -[split_whitespace] in *.
        assert (Hi : match split_inclusive 10 s with [] => [] | q :: qs => q :: qs end = split_inclusive 10 s)
          by (destruct (split_inclusive 10 s); reflexivity).
        cbn in IH. rewrite Hi in IH. rewrite IH. reflexivity.
      + specialize (IH (p ++ [c]) ltac:(set_solver)).
        destruct (split_on_cons 10 s) as (q & qs & Hq). rewrite Hq in *.
        destruct (split_inclusive 10 s) as [|r rs].
        * destruct (str_is_empty (p ++ [c])) eqn:He; [destruct p; discriminate|].
          rewrite <- app_assoc in IH. exact IH.
        * rewrite <- !app_assoc in IH. exact IH. }
  specialize (H s [] ltac:(set_solver)). destruct (split_on_cons 10 s) as (q & qs & Hq).
  rewrite Hq in *. destruct (split_inclusive 10 s); exact H.
Qed.

Lemma split_on_app_free sep p s : sep ∉ p ->
  split_on sep (p ++ s) = match split_on sep s with [] => [] | q :: qs => (p ++ q) :: qs end.
Proof.
  intros Hp. destruct (split_on_cons sep s) as (q & qs & Hq). rewrite Hq.
  induction p as [|c p IH]; [exact Hq|]. cbn. rewrite IH by set_solver.
  destruct (c =? sep) eqn:Hc; bool_prop; [set_solver|reflexivity].
Qed.

Lemma split_on_free sep p : sep ∉ p -> split_on sep p = [p].
Proof. intros Hp. rewrite <- (app_nil_r p) at 1. rewrite split_on_app_free by exact Hp. cbn. by rewrite app_nil_r. Qed.

Lemma line_words_free p : 10 ∉ p -> line_words p = List.filter nonempty [split_whitespace p].
Proof. intros Hp. unfold line_words. rewrite (split_on_free 10 p Hp). reflexivity. Qed.

Lemma line_words_cons p s : 10 ∉ p ->
  line_words (p ++ 10 :: s) = List.filter nonempty [split_whitespace p] ++ line_words s.
Proof.
  intros Hp. unfold line_words. rewrite split_on_app_free by exact Hp. cbn -[split_whitespace].
  rewrite app_nil_r. destruct (nonempty (split_whitespace p)); reflexivity.
Qed.

Lemma line_words_join ls : Forall (fun l => 10 ∉ l) ls ->
  line_words (join [10] ls) = List.filter nonempty (split_whitespace <$> ls).
Proof.
  induction 1 as [|l ls Hl Hls IH]; [reflexivity|].
  destruct ls as [|m ls]; [exact (line_words_free l Hl)|].
  change (join [10] (l :: m :: ls)) with (l ++ 10 :: join [10] (m :: ls)).
  rewrite (line_words_cons l _ Hl), IH. cbn -[split_whitespace].
  destruct (nonempty (split_whitespace l)); reflexivity.
Qed.

(** ** The reference, in terms of words *)

Section Reference.
Context {U : UnicodeCase} {L : UnicodeCaseLaws U}.

Definition normalize_words (out : str) (words : list str) : str :=
  (if str_is_empty out then out else out ++ [10]) ++ to_lowercase (join [32] words).

Lemma foldl_normalize_lines ls out :
  foldl normalize_line out ls = foldl normalize_words out (List.filter nonempty (split_whitespace <$> ls)).
Proof.
  revert out. induction ls as [|l ls IH]; intros out; [reflexivity|].
  cbn -[split_whitespace]. rewrite IH. unfold normalize_line.
  rewrite split_whitespace_trim. destruct (trim l) as [|c t] eqn:Ht; cbn [str_is_empty].
  - apply trim_nil in Ht. rewrite Ht. reflexivity.
  - destruct (split_whitespace l) as [|w ws] eqn:Hw; [|reflexivity].
    apply trim_nil in Hw. congruence.
Qed.

Lemma normalize_window_words s : normalize_window s = foldl normalize_words [] (line_words s).
Proof. unfold normalize_window. rewrite foldl_normalize_lines, line_words_of_lines. reflexivity. Qed.

Lemma lowercase_nonempty before s : s <> [] -> lowercase_from before s <> [].
Proof.
  destruct s as [|c s]; [congruence|]. intros _. cbn.
  destruct (c =? SIGMA); [case_match; discriminate|].
  pose proof (lower_nonempty c). destruct (to_lower c); [contradiction|discriminate].
Qed.

(** ** The streaming lower-casing *)

(** The continuation of a text, as far as a sigma before it can tell. *)
Definition itc_with (s : str) (next : bool) : bool :=
  match drop_while case_ignorable s with c :: _ => cased c | [] => next end.

(** The lower case of [after] when what follows it answers [next]. *)
Fixpoint lower_with (before after : str) (next : bool) : str :=
  match after with
  | [] => []
  | c :: after =>
      (if c =? SIGMA then
         if ignorable_then_cased before && negb (itc_with after next)
         then [FINAL_SIGMA] else [SMALL_SIGMA]
       else to_lower c) ++ lower_with (c :: before) after next
  end.

Lemma lower_with_false before s : lower_with before s false = lowercase_from before s.
Proof. revert before. induction s as [|c s IH]; intros before; [reflexivity|]. cbn. rewrite IH. reflexivity. Qed.

Lemma itc_with_snoc s c next :
  itc_with (s ++ [c]) next = itc_with s (if case_ignorable c then next else cased c).
Proof.
  unfold itc_with. induction s as [|d s IH]; cbn.
  - destruct (case_ignorable c); reflexivity.
  - destruct (case_ignorable d); [exact IH|reflexivity].
Qed.

Lemma lower_with_snoc before s c next :
  lower_with before (s ++ [c]) next =
  lower_with before s (if case_ignorable c then next else cased c) ++
  lower_with (reverse s ++ before) [c] next.
Proof.
  revert before. induction s as [|d s IH]; intros before; [reflexivity|].
  cbn [app lower_with]. rewrite IH, itc_with_snoc, reverse_cons, <- !app_assoc. reflexivity.
Qed.

Lemma unicode_context_spec c :
  case_context c = (case_ignorable c, negb (case_ignorable c) && cased c).
Proof.
  unfold case_context, unicode_context, to_lowercase.
  destruct A_cased as [HA HA'], bang_plain as [HB HB'], sigma_cased as [HS HS'].
  assert (Hlow : forall b, starts_with [97; SMALL_SIGMA] (lowercase_from [] [65; SIGMA; c; b]) =
                           ignorable_then_cased [c; b]).
  { intros b. change (lowercase_from [] [65; SIGMA; c; b]) with
      (to_lower 65 ++ (if ignorable_then_cased [65] && negb (ignorable_then_cased [c; b])
                       then [FINAL_SIGMA] else [SMALL_SIGMA]) ++ lowercase_from [SIGMA; 65] [c; b]).
    rewrite lower_A. replace (ignorable_then_cased [65]) with true
      by (unfold ignorable_then_cased; cbn; rewrite HA'; cbn; rewrite HA; reflexivity).
    destruct (ignorable_then_cased [c; b]); reflexivity. }
  rewrite !Hlow. unfold ignorable_then_cased. cbn.
  destruct (case_ignorable c) eqn:Hc; cbn; rewrite ?HA', ?HB'; cbn; rewrite ?HA, ?HB; [reflexivity|].
  destruct (cased c); reflexivity.
Qed.

(** The text [s] of the current line has been lowered after [base]. *)
Definition lowered (base : list Z) (s : str) (f : Fingerprint) : Prop :=
  hash f = base ++ as_bytes (lower_with [] s true) /\
  default (hash f) (final_sigma f) = base ++ as_bytes (lower_with [] s false) /\
  preceding_cased f = ignorable_then_cased (reverse s).

Definition same_flags (f g : Fingerprint) : Prop :=
  content f = content g /\ line_content f = line_content g /\ space f = space g.

Lemma lower_flags f c : same_flags (lower f c) f.
Proof.
  unfold lower, same_flags. destruct (case_context c) as [[] []], (final_sigma f); cbn;
    destruct ((c =? SIGMA) && preceding_cased f); cbn; auto.
Qed.

Lemma as_bytes_app s t : as_bytes (s ++ t) = as_bytes s ++ as_bytes t.
Proof. apply bind_app. Qed.

Lemma lower_step base s f c : lowered base s f -> lowered base (s ++ [c]) (lower f c).
Proof.
  intros (Hh & Hd & Hp). destruct sigma_cased as [HS HS'].
  assert (Hp' : preceding_cased (lower f c) = ignorable_then_cased (reverse (s ++ [c]))).
  { unfold lower. rewrite unicode_context_spec, reverse_app.
    change (reverse [c] ++ reverse s) with (c :: reverse s). unfold ignorable_then_cased in *. cbn.
    destruct (case_ignorable c), (final_sigma f), (c =? SIGMA), (preceding_cased f); cbn; auto. }
  assert (Hset : forall b, b = cased c ->
    match final_sigma f with
    | Some final => (if b then hash f else final, None)
    | None => (hash f, None)
    end = (base ++ as_bytes (lower_with [] s b), @None (list Z)))
    by (intros b _; destruct (final_sigma f), b; cbn in Hd; congruence).
  unfold lowered. rewrite Hp', !lower_with_snoc, !as_bytes_app, app_nil_r, !app_assoc.
  cbn [lower_with]. rewrite <- Hp. cbn [itc_with drop_while]. unfold lower. rewrite unicode_context_spec.
  destruct (case_ignorable c) eqn:Hi; cbn [negb andb].
  - destruct (c =? SIGMA) eqn:Hc; bool_prop; [congruence|]. cbn. rewrite !app_nil_r, Hh, <- Hd.
    split; [reflexivity|split; [|reflexivity]]. destruct (final_sigma f); cbn; congruence.
  - rewrite (Hset (cased c) eq_refl). destruct (c =? SIGMA) eqn:Hc; bool_prop.
    + subst c. destruct (preceding_cased f); cbn; rewrite ?app_nil_r, ?lower_sigma; auto.
    + cbn. rewrite app_nil_r. auto.
Qed.

Lemma lower_all base s f t : lowered base s f -> lowered base (s ++ t) (foldl lower f t).
Proof.
  revert s f. induction t as [|c t IH]; intros s f H; cbn; [by rewrite app_nil_r|].
  replace (s ++ c :: t) with ((s ++ [c]) ++ t) by (rewrite <- app_assoc; reflexivity).
  apply IH, lower_step, H.
Qed.

Lemma lower_newline_step base f : lowered base [] f -> lowered (base ++ [10]) [] (lower f 10).
Proof.
  intros H. pose proof (lower_step base [] f 10 H) as (Hh & Hd & Hp).
  assert (Hl : forall b, as_bytes (lower_with [] ([] ++ [10]) b) = [10] ++ as_bytes [])
    by (intros b; cbn; rewrite lower_newline; reflexivity).
  rewrite Hl in Hh, Hd. unfold lowered. rewrite Hd, Hh, Hp. cbn [lower_with].
  rewrite !app_assoc. split; [reflexivity|split; [reflexivity|]].
  unfold ignorable_then_cased. cbn. destruct (case_ignorable 10); [reflexivity|apply newline_uncased].
Qed.

(** ** What [push] passes on to [lower] on one line *)

Fixpoint emit (c lc sp : bool) (l : str) : str :=
  match l with
  | [] => []
  | ch :: l =>
      if is_whitespace ch then emit c lc (sp || lc) l
      else (if negb lc then if c then [10] else [] else if sp then [32] else []) ++
           [ch] ++ emit true true false l
  end.

Lemma emit_words c l :
  (forall w ws, split_ws l = (w, ws) -> emit c true false l = w ++ (ws ≫= cons 32)) /\
  emit c true true l = (split_whitespace l ≫= cons 32) /\
  emit c false false l =
    match split_whitespace l with [] => [] | ws => (if c then [10] else []) ++ join [32] ws end.
Proof.
  assert (Hjoin : forall w ws, join [32] (w :: ws) = w ++ (ws ≫= cons 32)).
  { intros w ws. revert w. induction ws as [|v ws IH]; intros w; cbn; [by rewrite app_nil_r|].
    cbn in IH. rewrite IH. reflexivity. }
  revert c. induction l as [|ch l IH]; intros c; [split; [|split]; cbn; intros; simplify_eq; reflexivity|].
  unfold split_whitespace. cbn -[join]. destruct (split_ws l) as [w ws] eqn:Hl.
  assert (Hw : split_whitespace l = if str_is_empty w then ws else w :: ws)
    by (unfold split_whitespace; rewrite Hl; reflexivity).
  destruct (is_whitespace ch).
  - destruct (IH c) as (_ & H2 & H3). rewrite H2, H3, Hw. cbn -[join].
    split; [intros ? ? [= <- <-]; reflexivity|split; reflexivity].
  - destruct (IH true) as (H1 & _ & _). rewrite (H1 _ _ eq_refl). cbn -[join].
    split; [intros ? ? [= <- <-]; reflexivity|split; [reflexivity|]]. rewrite Hjoin. reflexivity.
Qed.

Lemma lower_set_flags f c lc sp ch : lower (set_flags f c lc sp) ch = set_flags (lower f ch) c lc sp.
Proof.
  unfold lower, set_flags. cbn. destruct (case_context ch) as [[] []], (final_sigma f); cbn;
    destruct ((ch =? SIGMA) && preceding_cased f); reflexivity.
Qed.

Lemma lower_all_set_flags l f c lc sp :
  foldl lower (set_flags f c lc sp) l = set_flags (foldl lower f l) c lc sp.
Proof. revert f. induction l as [|ch l IH]; intros f; cbn; [reflexivity|]. rewrite lower_set_flags. apply IH. Qed.

Lemma push_line l f : 10 ∉ l -> (line_content f = true -> content f = true) -> exists sp,
  foldl push f l = set_flags (foldl lower f (emit (content f) (line_content f) (space f) l))
    (content f || nonempty (split_whitespace l)) (line_content f || nonempty (split_whitespace l)) sp.
Proof.
  revert f. induction l as [|ch l IH]; intros f Hl Himp.
  { exists (space f). cbn. rewrite !orb_false_r. destruct f; reflexivity. }
  assert (Hne : nonempty (split_whitespace (ch :: l)) = negb (is_whitespace ch) || nonempty (split_whitespace l)).
  { unfold split_whitespace. cbn. destruct (split_ws l) as [[|] ?], (is_whitespace ch); reflexivity. }
  assert (Hpush : exists g, push f ch = g /\ (line_content g = true -> content g = true) /\
    g = if is_whitespace ch then set_flags f (content f) (line_content f) (space f || line_content f)
        else set_flags (foldl lower f (emit (content f) (line_content f) (space f) [ch])) true true false).
  { eexists. split; [reflexivity|]. unfold push.
    destruct (ch =? 10) eqn:H10; bool_prop; [set_solver|]. cbn [emit].
    destruct (is_whitespace ch); [split; [exact Himp|reflexivity]|].
    destruct (line_content f) eqn:Hlc; cbn [negb].
    - destruct (lower_flags f 32) as (E1 & E2 & E3).
      destruct (space f); rewrite lower_set_flags; cbn [content line_content set_flags app foldl];
        rewrite ?E1, ?E2, ?Hlc, ?(Himp eq_refl); auto.
    - destruct (content f); rewrite !lower_set_flags; cbn [content line_content set_flags app foldl]; auto. }
  destruct Hpush as (g & Hg & Hginv & Hgeq). cbn [foldl]. rewrite Hg.
  destruct (IH g ltac:(set_solver) Hginv) as [sp ->]. exists sp. rewrite Hne. subst g. rewrite Hgeq.
  cbn [emit]. destruct (is_whitespace ch); cbn [content line_content space set_flags negb orb].
  - rewrite lower_all_set_flags. reflexivity.
  - rewrite lower_all_set_flags, !orb_true_r, !foldl_app. reflexivity.
Qed.

(** ** Whole texts *)

(** The start of a line, after [base] has been hashed. *)
Definition fresh (base : list Z) (c : bool) (f : Fingerprint) : Prop :=
  lowered base [] f /\ content f = c /\ line_content f = false /\ space f = false.

Lemma push_fresh_line base c f l : fresh base c f -> 10 ∉ l ->
  let g := finish_case (foldl push f l) in
  let ws := split_whitespace l in
  hash g = base ++ as_bytes
    (match ws with [] => [] | _ => (if c then [10] else []) ++ to_lowercase (join [32] ws) end) /\
  content g = c || nonempty ws.
Proof.
  intros (Hlow & Hc & Hlc & Hsp) Hl. destruct (push_line l f Hl) as [sp ->]; [congruence|].
  rewrite Hc, Hlc, Hsp. destruct (emit_words c l) as (_ & _ & ->).
  cbn [finish_case set_flags hash content final_sigma]. split; [|reflexivity].
  destruct (split_whitespace l) as [|w ws]; [exact (proj1 (proj2 Hlow))|].
  set (line := join [32] (w :: ws)). rewrite as_bytes_app, app_assoc.
  assert (H : lowered (base ++ as_bytes (if c then [10] else [])) line
                (foldl lower f ((if c then [10] else []) ++ line))).
  { rewrite foldl_app. change line with ([] ++ line) at 1. apply lower_all.
    destruct c; cbn [foldl]; [apply lower_newline_step|rewrite app_nil_r]; exact Hlow. }
  destruct H as (_ & Hd & _). rewrite Hd, lower_with_false. reflexivity.
Qed.

Lemma finish_case_fresh base f c :
  hash (finish_case f) = base -> content (finish_case f) = c -> fresh base c (push f 10).
Proof.
  intros Hh Hc. unfold push, fresh, lowered. cbn in *. rewrite Hh, app_nil_r. auto.
Qed.

Lemma split_on_join sep s : join [sep] (split_on sep s) = s.
Proof.
  induction s as [|c s IH]; [reflexivity|]. cbn. destruct (split_on_cons sep s) as (q & qs & Hq).
  rewrite Hq in *. destruct (c =? sep) eqn:Hc; bool_prop; cbn.
  - subst c. cbn in IH. rewrite IH. reflexivity.
  - cbn in IH. destruct qs; cbn; rewrite <- IH; reflexivity.
Qed.

Lemma normalize_words_empty out ws : ws <> [] -> [] ∉ ws -> str_is_empty (normalize_words out ws) = false.
Proof.
  intros Hws Hn. unfold normalize_words, to_lowercase.
  destruct (lowercase_from [] (join [32] ws)) eqn:H.
  - apply lowercase_nonempty in H; [contradiction|]. destruct ws as [|w [|v ws]]; [contradiction| |].
    + cbn. set_solver.
    + cbn. destruct w; discriminate.
  - destruct (if str_is_empty out then out else out ++ [10]); reflexivity.
Qed.

Lemma split_whitespace_nonempty s : [] ∉ split_whitespace s.
Proof.
  unfold split_whitespace. enough (H : forall w ws, split_ws s = (w, ws) -> [] ∉ ws).
  { destruct (split_ws s) as [w ws] eqn:Hs. specialize (H _ _ eq_refl). destruct w; cbn; [exact H|set_solver]. }
  induction s as [|c s IH]; cbn; [intros w ws [= <- <-]; set_solver|].
  destruct (split_ws s) as [w ws]. specialize (IH _ _ eq_refl).
  destruct (is_whitespace c); intros ? ? [= <- <-]; [|exact IH]. destruct w; cbn; [exact IH|set_solver].
Qed.

Lemma push_lines ls base out f : Forall (fun l => 10 ∉ l) ls -> ls <> [] ->
  fresh (base ++ as_bytes out) (negb (str_is_empty out)) f ->
  hash (finish_case (foldl push f (join [10] ls))) =
  base ++ as_bytes (foldl normalize_words out (List.filter nonempty (split_whitespace <$> ls))).
Proof.
  intros Hls. revert out f. induction Hls as [|l ls Hl Hls IH]; intros out f Hne Hf; [contradiction|].
  destruct (push_fresh_line _ _ _ l Hf Hl) as [Hh Hc].
  assert (Hout : let out' := foldl normalize_words out (List.filter nonempty [split_whitespace l]) in
    hash (finish_case (foldl push f l)) = base ++ as_bytes out' /\
    content (finish_case (foldl push f l)) = negb (str_is_empty out')).
  { pose proof (split_whitespace_nonempty l) as Hw.
    destruct (split_whitespace l) as [|w ws] eqn:Hsw; cbn [List.filter nonempty foldl].
    - rewrite Hh, Hc. cbn [nonempty]. rewrite orb_false_r. split; [|reflexivity].
      change (as_bytes []) with (@nil Z). apply app_nil_r.
    - rewrite Hh, Hc. cbn [nonempty]. rewrite normalize_words_empty, orb_true_r by (congruence || exact Hw).
      split; [|reflexivity]. unfold normalize_words. rewrite <- app_assoc. f_equal.
      rewrite <- as_bytes_app. f_equal. destruct out; [reflexivity|]. cbn [str_is_empty negb].
      rewrite <- app_assoc. reflexivity. }
  cbv zeta in Hout. destruct Hout as [Hoh Hoc].
  destruct ls as [|m ls]; [exact Hoh|].
  change (join [10] (l :: m :: ls)) with (l ++ 10 :: join [10] (m :: ls)).
  rewrite foldl_app. cbn [foldl].
  rewrite (IH _ _ ltac:(discriminate) (finish_case_fresh _ _ _ Hoh Hoc)). f_equal. f_equal.
  cbn [fmap list_fmap List.filter]. destruct (nonempty (split_whitespace l)); reflexivity.
Qed.

(** Hashing a text character by character hashes its normalised form. *)
Lemma push_text {Hash : Type} (blake3 : list Z -> Hash) file s :
  finish blake3 (foldl push (new file) s) =
  blake3 (hash_header SCANNER_ID file ++ as_bytes (normalize_window s)).
Proof.
  unfold finish. f_equal. rewrite normalize_window_words. unfold line_words.
  rewrite <- (split_on_join 10 s) at 1. apply push_lines.
  - apply split_on_no_sep.
  - destruct (split_on_cons 10 s) as (? & ? & ->). discriminate.
  - repeat split; cbn; rewrite ?app_nil_r; reflexivity.
Qed.
End Reference.

(** ** Windows of lines *)

(** The shape of what [split_inclusive] returns. *)
Inductive pieces (sep : Z) : list (list Z) -> Prop :=
| pieces_nil : pieces sep []
| pieces_last p : p <> [] -> sep ∉ p -> pieces sep [p]
| pieces_cons p ls : sep ∉ p -> pieces sep ls -> pieces sep ((p ++ [sep]) :: ls).

Lemma split_inclusive_free sep p : p <> [] -> sep ∉ p -> split_inclusive sep p = [p].
Proof.
  intros Hne Hp. destruct p as [|c p]; [congruence|]. clear Hne. revert c Hp.
  induction p as [|d p IH]; intros c Hp; cbn in *;
    (destruct (c =? sep) eqn:Hc; bool_prop; [set_solver|]); [reflexivity|].
  rewrite IH by set_solver. reflexivity.
Qed.

Lemma split_inclusive_app sep p s : sep ∉ p ->
  split_inclusive sep (p ++ sep :: s) = (p ++ [sep]) :: split_inclusive sep s.
Proof.
  intros Hp. induction p as [|c p IH]; cbn; [by rewrite Z.eqb_refl|].
  rewrite IH by set_solver. destruct (c =? sep) eqn:Hc; bool_prop; [set_solver|reflexivity].
Qed.

Lemma first_line (sep : Z) (s : list Z) : (sep ∉ s) \/ exists p t, s = p ++ sep :: t /\ sep ∉ p.
Proof.
  induction s as [|c s [IH|(p & t & -> & Hp)]]; [left; set_solver|..].
  - destruct (decide (c = sep)) as [->|Hc]; [right; exists [], s; set_solver|left; set_solver].
  - right. destruct (decide (c = sep)) as [->|Hc]; [exists [], (p ++ sep :: t); set_solver|].
    exists (c :: p), t. set_solver.
Qed.

Lemma lines_ind (P : list Z -> Prop) (sep : Z) :
  (forall p, sep ∉ p -> P p) -> (forall p s, sep ∉ p -> P s -> P (p ++ sep :: s)) -> forall s, P s.
Proof.
  intros Hlast Hcons s. remember (length s) as n eqn:Hn. revert s Hn.
  induction n as [n IH] using lt_wf_ind. intros s ->.
  destruct (first_line sep s) as [Hs|(p & t & -> & Hp)]; [auto|]. apply Hcons; [exact Hp|].
  eapply IH; [|reflexivity]. rewrite length_app. simpl. lia.
Qed.

Lemma split_inclusive_pieces sep s : pieces sep (split_inclusive sep s).
Proof.
  induction s as [p Hp|p s Hp IH] using (fun P a b => lines_ind P sep a b).
  - destruct p as [|c p]; [constructor|]. rewrite split_inclusive_free by (congruence || exact Hp).
    constructor; [congruence|exact Hp].
  - rewrite split_inclusive_app by exact Hp. constructor; assumption.
Qed.

Lemma split_inclusive_concat sep ls : pieces sep ls -> split_inclusive sep (concat ls) = ls.
Proof.
  induction 1 as [|p Hp Hf|p ls Hp _ IH]; cbn; [reflexivity| |].
  - rewrite app_nil_r. apply split_inclusive_free; assumption.
  - rewrite <- app_assoc. cbn. rewrite split_inclusive_app, IH by exact Hp. reflexivity.
Qed.

Lemma concat_split_inclusive sep s : concat (split_inclusive sep s) = s.
Proof.
  induction s as [p Hp|p s Hp IH] using (fun P a b => lines_ind P sep a b).
  - destruct p as [|c p]; [reflexivity|].
    rewrite split_inclusive_free by (congruence || exact Hp). apply app_nil_r.
  - rewrite split_inclusive_app by exact Hp. cbn. rewrite IH, <- app_assoc. reflexivity.
Qed.

Lemma pieces_take sep n ls : pieces sep ls -> pieces sep (take n ls).
Proof.
  intros H. revert n. induction H as [|p Hp Hf|p ls Hp H IH]; intros [|n]; cbn; rewrite ?take_nil;
    constructor; auto.
Qed.

Lemma pieces_drop sep n ls : pieces sep ls -> pieces sep (drop n ls).
Proof.
  intros H. revert n. induction H as [|p Hp Hf|p ls Hp H IH]; intros [|n]; cbn; rewrite ?drop_nil;
    auto; constructor; auto.
Qed.

(** The lines [first] to [last] of a text or file, numbered from one, with
    their line ends. *)
Definition line_range (s : list Z) (first last : Z) : list Z :=
  concat (take (Z.to_nat (last - first + 1)) (drop (Z.to_nat (first - 1)) (split_inclusive 10 s))).

Lemma lines_line_range s first last : lines (line_range s first last) =
  take (Z.to_nat (last - first + 1)) (drop (Z.to_nat (first - 1)) (lines s)).
Proof.
  unfold lines, line_range.
  rewrite split_inclusive_concat by apply pieces_take, pieces_drop, split_inclusive_pieces.
  rewrite fmap_take, fmap_drop. reflexivity.
Qed.

Lemma lines_free s : Forall (fun l => 10 ∉ l) (lines s).
Proof.
  unfold lines. pose proof (split_inclusive_pieces 10 s) as H.
  induction H as [|p Hp Hf|p ls Hp _ IH]; cbn; constructor; auto.
  - unfold line_text. destruct (strip_last 10 p) eqn:E; [|exact Hf].
    apply strip_last_Some in E. subst p. set_solver.
  - unfold line_text. replace (strip_last 10 (p ++ [10])) with (Some p)
      by (symmetry; apply strip_last_Some; reflexivity).
    destruct (strip_last 13 p) eqn:E; cbn; [|exact Hp]. apply strip_last_Some in E. subst p. set_solver.
Qed.

(** The window the reference extracts is, once normalised, the range of lines
    the streaming hasher is given. *)
Lemma window_is_line_range `{UnicodeCase} s line_start line_end context :
  0 <= line_start <= u32_max -> 0 <= line_end <= u32_max -> 0 <= context ->
  normalize_window (extract_window s line_start line_end context) =
  normalize_window (line_range s (Z.max (saturating_sub_u32 line_start context) 1)
                      (saturating_add_u32 line_end context)).
Proof.
  intros Hs He Hc. rewrite !normalize_window_words. f_equal.
  rewrite <- (line_words_of_lines (line_range _ _ _)), lines_line_range.
  unfold extract_window, saturating_sub_u32, saturating_add_u32.
  destruct (lines s) as [|l ls] eqn:Hl; [rewrite drop_nil, take_nil; reflexivity|]. rewrite <- Hl.
  set (first := Z.max (Z.max 0 (line_start - context)) 1).
  set (last := Z.min (line_end + context) u32_max).
  replace (Z.max 0 (Z.max 0 (line_start - context) - 1)) with (first - 1) by lia.
  destruct (Z.min last (Z.of_nat (length (lines s))) <=? first - 1) eqn:Hle; bool_prop.
  - assert (Hnil : take (Z.to_nat (last - first + 1)) (drop (Z.to_nat (first - 1)) (lines s)) = []).
    { apply nil_length_inv. rewrite length_take, length_drop. lia. }
    rewrite Hnil. reflexivity.
  - rewrite line_words_join by (apply Forall_take, Forall_drop, lines_free). do 2 f_equal.
    destruct (Z.le_ge_cases last (Z.of_nat (length (lines s)))) as [Hb|Hb].
    + f_equal. lia.
    + rewrite !take_ge by (rewrite length_drop; lia). reflexivity.
Qed.
