(* ===== verification/QuoteSearch.v ===== *)
(** * The quotation search

    [Search] of [loupe-worker/src/mcp/citation.rs]: the search of one quoted
    text in a stream of bytes, with the prefix table of Knuth, Morris and Pratt.
    Indexing of the table and the inner loops are partial in the model ([None]
    stands for a panic or for an exhausted loop bound); [search_finds_first]
    shows that they never are, and that the search finds exactly the first
    occurrence. *)

From S2P Require Import Prelude Text.
From Stdlib Require Import ZArith Lia.
From stdpp Require Import base sets list option numbers.
Local Open Scope nat_scope.

Record Search := {
  quote : list Z;
  prefix : list nat;
  matched : nat;
  found : option (Z * Z);
}.

(** The [while] loop shared by [new] and [push]: [target] is [quote.get(at)]
    in the first and [Some(&byte)] in the second. *)
Fixpoint fall_back (fuel : nat) (quote : list Z) (prefix : list nat) (target : option Z) (matched : nat)
    : option nat :=
  if (0 <? matched) && bool_decide (quote !! matched <> target) then
    match fuel with
    | O => None
    | S fuel => m ← prefix !! (matched - 1); fall_back fuel quote prefix target m
    end
  else Some matched.

(** The loop and the comparison after it. *)
Definition advance (quote : list Z) (prefix : list nat) (target : option Z) (matched : nat) : option nat :=
  m ← fall_back matched quote prefix target matched;
  Some (if bool_decide (quote !! m = target) then S m else m).

(** The [for] loop of [Search::new], with [n] positions left. *)
Fixpoint fill (n at_ : nat) (quote : list Z) (prefix : list nat) (matched : nat) : option (list nat) :=
  match n with
  | O => Some prefix
  | S n =>
      m ← advance quote prefix (quote !! at_) matched;
      fill n (S at_) quote (<[at_ := m]> prefix) m
  end.

Definition new (quote : list Z) : option Search :=
  prefix ← fill (length quote - 1) 1 quote (replicate (length quote) 0) 0;
  Some {| quote := quote; prefix := prefix; matched := 0; found := None |}.

Definition push (s : Search) (byte : Z) (offset : Z) : option Search :=
  match found s with
  | Some _ => Some s
  | None =>
      m ← advance (quote s) (prefix s) (Some byte) (matched s);
      let len := Z.of_nat (length (quote s)) in
      Some {| quote := quote s; prefix := prefix s; matched := m;
              found := if m =? length (quote s) then Some (offset + 1 - len, offset + 1)%Z else None |}
  end.

(** ** Specification *)

(** The position of the first occurrence. *)
Fixpoint find (q t : list Z) : option nat :=
  if starts_with q t then Some 0
  else match t with [] => None | _ :: t => S <$> find q t end.

(** A run of the search over consecutive bytes. *)
Fixpoint push_bytes (s : Search) (t : list Z) (offset : Z) : option Search :=
  match t with
  | [] => Some s
  | b :: t => s ← push s b offset; push_bytes s t (offset + 1)
  end.

(** ** Borders *)

Definition border (q s : list Z) (k : nat) : Prop := take k q `suffix_of` s.

(** The longest prefix of [q] below the bound that ends [s]. *)
Definition longest (q s : list Z) (bound m : nat) : Prop :=
  m < bound /\ m <= length q /\ border q s m /\
  forall k, k < bound -> k <= length q -> border q s k -> k <= m.

Definition table_ok (q : list Z) (prefix : list nat) (n : nat) : Prop :=
  forall i, i < n -> exists p, prefix !! i = Some p /\ longest q (take (S i) q) (S i) p.

Lemma suffix_shorter {A} (l1 l2 s : list A) :
  l1 `suffix_of` s -> l2 `suffix_of` s -> length l1 <= length l2 -> l1 `suffix_of` l2.
Proof.
  intros [k1 H1] [k2 H2] Hle. subst s.
  pose proof (f_equal length H2) as Hlen. rewrite !length_app in Hlen.
  exists (drop (length k2) k1). apply (f_equal (drop (length k2))) in H2.
  rewrite (drop_app_length k2), drop_app_le in H2 by lia. symmetry. exact H2.
Qed.

Lemma border_0 q s : border q s 0.
Proof. exists s. cbn. by rewrite app_nil_r. Qed.

Lemma border_S q s b k : border q (s ++ [b]) (S k) <-> k < length q /\ border q s k /\ q !! k = Some b
  \/ length q <= k /\ border q (s ++ [b]) (length q).
Proof.
  unfold border. destruct (Nat.lt_ge_cases k (length q)) as [Hk|Hk].
  - destruct (lookup_lt_is_Some_2 q k Hk) as [c Hc]. rewrite (take_S_r q k c Hc). split.
    + intros [l Hl]. left. rewrite app_assoc in Hl. apply app_inj_2 in Hl as [Hs Hb]; [|reflexivity].
      injection Hb as ->. split; [exact Hk|]. split; [exists l; exact Hs|exact Hc].
    + intros [(_ & [l ->] & Hb)|[? _]]; [|lia]. exists l.
      rewrite Hc in Hb. injection Hb as ->. by rewrite app_assoc.
  - rewrite !take_ge by lia. split; [right; auto|]. intros [[? _]|[_ H]]; [lia|exact H].
Qed.

Lemma fall_back_spec q prefix target s n m fuel :
  table_ok q prefix n -> m <= n -> m <= length q -> m <= fuel -> border q s m ->
  exists m', fall_back fuel q prefix target m = Some m' /\ m' <= m /\ border q s m' /\
    (m' = 0 \/ q !! m' = target) /\
    forall k, m' < k <= m -> border q s k -> q !! k <> target.
Proof.
  intros Htab. revert m. induction fuel as [|fuel IH]; intros m Hn Hq Hf Hb.
  { assert (m = 0) as -> by lia. exists 0. split_and!; auto; intros; lia. }
  cbn [fall_back]. destruct (0 <? m) eqn:H0; cbn [andb].
  2: { apply Nat.ltb_ge in H0. exists m. split_and!; auto; first [left; lia|intros; lia]. }
  apply Nat.ltb_lt in H0. case_bool_decide as Ht.
  2: { exists m. split_and!; auto; first [right; by apply dec_stable|intros; lia]. }
  destruct (Htab (m - 1) ltac:(lia)) as (p & Hp & Hpm & _ & Hpb & Hplong). rewrite Hp. cbn [mbind option_bind].
  replace (S (m - 1)) with m in * by lia.
  assert (Hbp : border q s p) by (unfold border in *; etrans; eassumption).
  destruct (IH p ltac:(lia) ltac:(lia) ltac:(lia) Hbp) as (m' & Hm' & Hle & Hb' & Hend & Hno).
  exists m'. repeat split; auto; [lia|]. intros k Hk Hbk.
  destruct (decide (k = m)) as [->|Hkm]; [exact Ht|].
  destruct (Nat.le_gt_cases k p) as [Hkp|Hkp]; [apply Hno; auto; lia|].
  enough (k <= p) by lia. apply Hplong; [lia|lia|].
  unfold border in *. eapply suffix_shorter; [exact Hbk|exact Hb|]. rewrite !length_take. lia.
Qed.

Lemma advance_spec q prefix s bound m n b :
  table_ok q prefix n -> m <= n -> longest q s bound m -> bound <= length q ->
  exists m', advance q prefix (Some b) m = Some m' /\ longest q (s ++ [b]) (S bound) m'.
Proof.
  intros Htab Hn (Hlt & Hq & Hb & Hlong) Hbound.
  destruct (fall_back_spec q prefix (Some b) s n m m Htab Hn Hq (Nat.le_refl m) Hb)
    as (m' & Hf & Hle & Hb' & Hend & Hno).
  unfold advance. rewrite Hf. cbn [mbind option_bind]. eexists. split; [reflexivity|].
  assert (Hmax : forall k, k < S bound -> k <= length q -> border q (s ++ [b]) k ->
    k = 0 \/ exists j, k = S j /\ j <= m' /\ q !! j = Some b).
  { intros [|j] Hk Hkq Hbk; [auto|]. right. exists j. split; [reflexivity|].
    apply border_S in Hbk as [(Hjq & Hbj & Hj)|[? _]]; [|lia].
    split; [|exact Hj]. destruct (Nat.le_gt_cases j m'); [assumption|].
    exfalso. apply (Hno j); auto. split; [assumption|]. apply Hlong; auto; lia. }
  case_bool_decide as Hm'.
  - assert (m' < length q) by (apply lookup_lt_Some in Hm'; exact Hm').
    split; [lia|]. split; [lia|]. split; [apply border_S; left; auto|].
    intros k Hk Hkq Hbk. destruct (Hmax k Hk Hkq Hbk) as [->|(j & -> & Hj & _)]; lia.
  - destruct Hend as [->|?]; [|contradiction]. split; [lia|]. split; [lia|]. split; [apply border_0|].
    intros k Hk Hkq Hbk. destruct (Hmax k Hk Hkq Hbk) as [->|(j & -> & Hj & Hjb)]; [lia|].
    assert (j = 0) as -> by lia. contradiction.
Qed.

(** ** The table *)

Lemma table_insert q prefix n m :
  table_ok q prefix n -> n < length prefix -> longest q (take (S n) q) (S n) m ->
  table_ok q (<[n := m]> prefix) (S n).
Proof.
  intros Htab Hlen Hm i Hi. destruct (decide (i = n)) as [->|Hne].
  - exists m. split; [|exact Hm]. apply list_lookup_insert_eq, Hlen.
  - destruct (Htab i ltac:(lia)) as (p & Hp & Hpl). exists p. split; [|exact Hpl].
    rewrite list_lookup_insert_ne by lia. exact Hp.
Qed.

Lemma fill_spec q n at_ prefix m :
  at_ + n = length q -> 0 < at_ -> length prefix = length q ->
  table_ok q prefix at_ -> longest q (take at_ q) at_ m ->
  exists prefix', fill n at_ q prefix m = Some prefix' /\ table_ok q prefix' (length q).
Proof.
  revert at_ prefix m. induction n as [|n IH]; intros at_ prefix m Hn Hat Hlen Htab Hm; cbn [fill].
  { exists prefix. replace (length q) with at_ by lia. auto. }
  destruct (lookup_lt_is_Some_2 q at_ ltac:(lia)) as [b Hb]. rewrite Hb.
  destruct (advance_spec q prefix _ _ m at_ b Htab ltac:(destruct Hm; lia) Hm ltac:(lia)) as (m' & -> & Hm').
  cbn [mbind option_bind]. rewrite <- (take_S_r q at_ b Hb) in Hm'.
  apply IH; [lia|lia|rewrite length_insert; exact Hlen| |exact Hm'].
  apply table_insert; [exact Htab|lia|exact Hm'].
Qed.

(** [Search::new] neither panics nor loops, and its table is right. *)
Lemma new_spec q : exists s, new q = Some s /\ quote s = q /\ matched s = 0 /\ found s = None /\
  table_ok q (prefix s) (length q).
Proof.
  assert (exists prefix, fill (length q - 1) 1 q (replicate (length q) 0) 0 = Some prefix /\
    table_ok q prefix (length q)) as (prefix & Hf & Ht).
  { destruct (decide (length q = 0)) as [H0|H0].
    - rewrite H0. cbn. eexists. split; [reflexivity|]. intros i Hi. lia.
    - assert (Hl : longest q (take 1 q) 1 0).
      { split; [lia|]. split; [lia|]. split; [apply border_0|]. intros k Hk _ _. lia. }
      apply fill_spec; [lia|lia|apply length_replicate| |exact Hl].
      intros i Hi. assert (i = 0) as -> by lia. exists 0. split; [|exact Hl].
      apply lookup_replicate. lia. }
  unfold new. rewrite Hf. eexists. split; [reflexivity|]. auto.
Qed.

(** ** The search *)

Lemma find_Some q t i : find q t = Some i <->
  (exists u v, t = u ++ q ++ v /\ length u = i) /\
  forall u v, t = u ++ q ++ v -> i <= length u.
Proof.
  revert i. induction t as [|b t IH]; intros i; cbn [find].
  - destruct (starts_with q []) eqn:Hs.
    + apply starts_with_true in Hs as [v Hv]. split.
      * intros [= <-]. split; [exists [], v; auto|]. intros; lia.
      * intros [(u & w & Hu & <-) _]. destruct u; [reflexivity|discriminate].
    + split; [discriminate|]. intros [(u & v & Hu & _) _]. destruct u; [|discriminate].
      cbn in Hu. enough (starts_with q [] = true) by congruence. apply starts_with_true. eauto.
  - destruct (starts_with q (b :: t)) eqn:Hs.
    + apply starts_with_true in Hs as [v Hv]. split.
      * intros [= <-]. split; [exists [], v; auto|]. intros; lia.
      * intros [_ Hmin]. f_equal. specialize (Hmin [] v Hv). simpl in Hmin. lia.
    + assert (Hn : forall u v, b :: t = u ++ q ++ v -> exists u', u = b :: u' /\ t = u' ++ q ++ v).
      { intros [|c u] v H; [|injection H as -> ->; eauto].
        enough (starts_with q (b :: t) = true) by congruence. apply starts_with_true. eauto. }
      rewrite fmap_Some. split.
      * intros (j & Hj & ->). apply IH in Hj as [(u & v & -> & Hu) Hmin]. split.
        -- exists (b :: u), v. simpl. auto.
        -- intros u' v' H. destruct (Hn _ _ H) as (u'' & -> & Ht). simpl. specialize (Hmin _ _ Ht). lia.
      * intros [(u & v & H & Hu) Hmin]. destruct (Hn _ _ H) as (u' & -> & ->).
        exists (length u'). split; [|simpl in Hu; congruence]. apply IH. split; [eauto|].
        intros u2 v2 H2. specialize (Hmin (b :: u2) v2). simpl in Hmin, Hu. rewrite H2 in Hmin.
        specialize (Hmin eq_refl). lia.
Qed.

Lemma find_None q t : find q t = None <-> forall u v, t <> u ++ q ++ v.
Proof.
  split.
  - intros H u v Ht. revert t H Ht. induction u as [|b u IH]; intros t H ->.
    + assert (Hs : starts_with q (q ++ v) = true) by (apply starts_with_true; eauto).
      cbn [app] in H. destruct (q ++ v) eqn:E; cbn [find] in H; rewrite Hs in H; discriminate.
    + cbn [app find] in H. case_match; [discriminate|]. apply fmap_None in H. eapply IH; eauto.
  - intros H. destruct (find q t) as [i|] eqn:E; [|reflexivity].
    apply find_Some in E as [(u & v & Ht & _) _]. by destruct (H u v).
Qed.

(** The search after the bytes [t], fed from the offset [o] on. *)
Definition searched (q t : list Z) (o : Z) (s : Search) : Prop :=
  quote s = q /\ table_ok q (prefix s) (length q) /\
  found s = (fun i => (o + Z.of_nat i, o + Z.of_nat i + Z.of_nat (length q))%Z) <$> find q t /\
  (found s = None -> longest q t (length q) (matched s)).

Lemma new_searched q o : q <> [] -> exists s, new q = Some s /\ searched q [] o s.
Proof.
  intros Hq. destruct (new_spec q) as (s & Hs & Hqs & Hm & Hf & Ht). exists s. split; [exact Hs|].
  destruct q as [|c q]; [contradiction|]. split; [exact Hqs|]. split; [exact Ht|]. split; [exact Hf|].
  intros _. rewrite Hm. split; [simpl; lia|]. split; [lia|]. split; [apply border_0|].
  intros k _ Hk [l Hl]. destruct l; [|discriminate]. apply (f_equal length) in Hl.
  rewrite length_app, length_take in Hl. simpl in *. lia.
Qed.

Lemma find_snoc q t b : find q t = None ->
  find q (t ++ [b]) = if bool_decide (q `suffix_of` t ++ [b]) then Some (length t + 1 - length q) else None.
Proof.
  intros Hn. rewrite find_None in Hn.
  assert (Hend : forall u v, t ++ [b] = u ++ q ++ v -> v = [] \/ q = [] ).
  { intros u v H. destruct v as [|c v _] using rev_ind; [auto|]. exfalso.
    rewrite !app_assoc in H. apply app_inj_2 in H as [H _]; [|reflexivity].
    rewrite <- app_assoc in H. exact (Hn _ _ H). }
  case_bool_decide as Hs.
  - destruct Hs as [u Hu]. apply find_Some. split.
    + exists u, []. rewrite app_nil_r. split; [exact Hu|].
      apply (f_equal length) in Hu. rewrite !length_app in Hu. simpl in Hu. lia.
    + intros u' v' H. destruct (Hend _ _ H) as [->| ->].
      * apply (f_equal length) in H. rewrite !length_app in H. simpl in H. lia.
      * destruct (Hn t []). by rewrite app_nil_r.
  - apply find_None. intros u v H. destruct (Hend _ _ H) as [->| ->]; apply Hs.
    + rewrite app_nil_r in H. exists u. exact H.
    + apply suffix_nil.
Qed.

Lemma find_found_snoc q t b i : find q t = Some i -> find q (t ++ [b]) = Some i.
Proof.
  rewrite !find_Some. intros [(u & v & -> & Hu) Hmin]. split.
  - exists u, (v ++ [b]). rewrite <- !app_assoc. auto.
  - intros u' v' H. destruct (Nat.le_gt_cases i (length u')) as [|Hlt]; [assumption|].
    destruct v' as [|c v' _] using rev_ind.
    + apply (f_equal length) in H. rewrite !length_app in H. simpl in H. lia.
    + rewrite !app_assoc in H. apply app_inj_2 in H as [H _]; [|reflexivity].
      rewrite <- !app_assoc in H. apply (Hmin _ _ H).
Qed.

Lemma push_searched q t o s b : q <> [] -> searched q t o s ->
  exists s', push s b (o + Z.of_nat (length t)) = Some s' /\ searched q (t ++ [b]) o s'.
Proof.
  intros Hq (Hqs & Htab & Hf & Hl). unfold push. destruct (find q t) as [i|] eqn:Hi; cbn in Hf; rewrite Hf.
  { exists s. split; [reflexivity|]. split; [exact Hqs|]. split; [exact Htab|].
    rewrite (find_found_snoc q t b i Hi), Hf. split; [reflexivity|discriminate]. }
  specialize (Hl Hf). rewrite Hqs.
  destruct (advance_spec q (prefix s) t (length q) (matched s) (length q) b Htab ltac:(destruct Hl; lia) Hl
              ltac:(lia)) as (m & -> & Hm).
  cbn [mbind option_bind]. eexists. split; [reflexivity|]. split; [reflexivity|]. split; [exact Htab|].
  cbn [found matched]. rewrite (find_snoc q t b Hi). destruct Hm as (Hlt & Hle & Hb & Hlong).
  destruct (m =? length q) eqn:He.
  - apply Nat.eqb_eq in He. subst m. unfold border in Hb. rewrite take_ge in Hb by lia.
    rewrite bool_decide_eq_true_2 by exact Hb. split; [|discriminate].
    apply suffix_length in Hb. rewrite length_app in Hb. simpl in Hb. cbn. f_equal. f_equal; lia.
  - apply Nat.eqb_neq in He. rewrite bool_decide_eq_false_2.
    + split; [reflexivity|]. intros _. split; [lia|]. split; [lia|]. split; [exact Hb|].
      intros k Hk Hkq Hbk. apply Hlong; auto; lia.
    + intros Hs. enough (length q <= m) by lia. apply Hlong; [lia|lia|].
      unfold border. rewrite take_ge by lia. exact Hs.
Qed.

Lemma push_bytes_searched q t u o s : q <> [] -> searched q u o s ->
  exists s', push_bytes s t (o + Z.of_nat (length u)) = Some s' /\ searched q (u ++ t) o s'.
Proof.
  intros Hq. revert u s. induction t as [|b t IH]; intros u s Hs; cbn [push_bytes].
  { exists s. rewrite app_nil_r. auto. }
  destruct (push_searched q u o s b Hq Hs) as (s' & -> & Hs'). cbn [mbind option_bind].
  destruct (IH _ _ Hs') as (s2 & Hs2 & Hd). exists s2. split.
  - rewrite <- Hs2. f_equal. rewrite length_app. simpl. lia.
  - rewrite <- app_assoc in Hd. exact Hd.
Qed.

(** Searching a nonempty quote in a stream never panics and always
    terminates, and the range it reports is that of the first occurrence of the
    quote in the bytes, none exactly when the quote does not occur. *)
Theorem search_finds_first q t o : q <> [] ->
  exists s s', new q = Some s /\ push_bytes s t o = Some s' /\
  found s' = (fun i => (o + Z.of_nat i, o + Z.of_nat i + Z.of_nat (length q))%Z) <$> find q t /\
  forall i, find q t = Some i <->
    (exists u v, t = u ++ q ++ v /\ length u = i) /\ forall u v, t = u ++ q ++ v -> i <= length u.
Proof.
  intros Hq. destruct (new_searched q o Hq) as (s & Hs & Hn).
  destruct (push_bytes_searched q t [] o s Hq Hn) as (s' & Hs' & Hd).
  rewrite Z.add_0_r in Hs'. exists s, s'. destruct Hd as (_ & _ & Hf & _).
  split; [exact Hs|]. split; [exact Hs'|]. split; [exact Hf|]. intros i. apply find_Some.
Qed.

Lemma search_finds_first_witness :
  exists s s', new [97; 98; 97; 98; 99]%Z = Some s /\
    push_bytes s [97; 98; 97; 98; 97; 98; 99; 100]%Z 10 = Some s' /\ found s' = Some (12, 17)%Z.
Proof.
  destruct (search_finds_first [97; 98; 97; 98; 99]%Z [97; 98; 97; 98; 97; 98; 99; 100]%Z 10
              ltac:(discriminate)) as (s & s' & H1 & H2 & H3 & _).
  exists s, s'. split; [exact H1|]. split; [exact H2|]. rewrite H3. reflexivity.
Defined.
