(* ===== verification/Citation.v ===== *)
(** * Citations of agent findings

    [loupe-worker/src/mcp/citation.rs]: before a finding of an agent leaves the
    worker, the lines it cites must exist in the file it names, and every fenced
    block of its description must occur, byte for byte, in these lines.  One
    pass over the file does both and computes the finding's fingerprint.

    The file is what its reads return, chunk by chunk or as an error.  The
    cancellation token is asked at numbered points; [cancel n] is its answer to
    the n-th question.  The result is [None] where the code would panic. *)

From S2P Require Import Prelude Text Utf8 Fingerprint QuoteSearch.
From Stdlib Require Import ZArith Lia.
From stdpp Require Import base sets list option numbers strings.
Local Open Scope Z_scope.

Inductive CitationError := Missing | NotRegular | Range | Quote | Io | Utf8 | Task | Cancelled.
#[export] Instance citation_error_eq_dec : EqDecision CitationError.
Proof. solve_decision. Defined.

(** ** Fences *)

(** [iter().take_while(p).count()] *)
Fixpoint count_while (p : Z -> bool) (s : list Z) : nat :=
  match s with
  | c :: s => if p c then S (count_while p s) else O
  | [] => O
  end.

Definition line_body (line : list Z) : list Z :=
  match strip_last 10 line with
  | Some body => default body (strip_last 13 body)
  | None => line
  end.

Definition delimiter (line : list Z) : option (Z * nat * list Z) :=
  let line := line_body line in
  let spaces := count_while (Z.eqb 32) line in
  if (3 <? spaces)%nat then None
  else
    match drop spaces line with
    | [] => None
    | kind :: _ as rest =>
        if negb ((kind =? 96) || (kind =? 126)) then None
        else
          let len := count_while (Z.eqb kind) rest in
          if (3 <=? len)%nat then Some (kind, len, drop len rest) else None
    end.

(** [slice.get(a..b)] *)
Definition slice (s : list Z) (a b : nat) : option (list Z) :=
  if (a <=? b)%nat && (b <=? length s)%nat then Some (take (b - a) (drop a s)) else None.

Definition is_blank (b : Z) : bool := (b =? 32) || (b =? 9).

(** A line closes the open block: same character, as long, nothing after it. *)
Definition closes (kind : Z) (len : nat) (line : list Z) : bool :=
  match delimiter line with
  | Some (close, close_length, tail) =>
      (close =? kind) && (len <=? close_length)%nat && forallb is_blank tail
  | None => false
  end.

(** The payload without its last line end. *)
Definition strip_payload (payload : list Z) : list Z :=
  match strip_last 10 payload with
  | Some body => default body (strip_last 13 body)
  | None => payload
  end.

(** The loop of [fences]: [open], [offset] and [quotes] are its variables. *)
Fixpoint fences_loop (description : list Z) (ls : list (list Z)) (open : option (Z * nat * nat))
    (offset : nat) (quotes : list (list Z)) : result CitationError (list (list Z)) :=
  match ls with
  | [] => match open with Some _ => Err Quote | None => Ok quotes end
  | line :: ls =>
      match open with
      | Some (kind, len, start) =>
          if closes kind len line then
            match slice description start offset with
            | None => Err Quote
            | Some payload =>
                let payload := strip_payload payload in
                if str_is_empty payload then Err Quote
                else fences_loop description ls None (offset + length line) (quotes ++ [payload])
            end
          else fences_loop description ls open (offset + length line) quotes
      | None =>
          let open := match delimiter line with
                      | Some (kind, len, _) => Some (kind, len, (offset + length line)%nat)
                      | None => None
                      end in
          fences_loop description ls open (offset + length line) quotes
      end
  end.

Definition fences (description : list Z) : result CitationError (list (list Z)) :=
  fences_loop description (split_inclusive 10 description) None 0 [].

(** ** The scan *)

(** [mcp::FINGERPRINT_CONTEXT_LINES] *)
Definition FINGERPRINT_CONTEXT_LINES : Z := 2.

Definition u64_max : Z := 18446744073709551615.
Definition u64_add (a b : Z) : option Z := if a + b <=? u64_max then Some (a + b) else None.

(** What one [read] returns. *)
Inductive Read := Chunk (bytes : list Z) | Failed.

Record Scan := {
  search : list Search;
  hash : Fingerprint;
  scalar : list Z;
  scalar_width : nat;
  line : Z;
  offset : Z;
  final_lf : bool;
  checks : nat;
}.

(** Results of code that may panic. *)
Abbreviation outcome A := (option (result CitationError A)).
Definition obind {A B} (m : outcome A) (k : A -> outcome B) : outcome B :=
  match m with
  | Some (Ok a) => k a
  | Some (Err e) => Some (Err e)
  | None => None
  end.
Notation "x <-- m ;; k" := (obind m (fun x => k)) (at level 100, m at next level, right associativity).
Notation "' p <-- m ;; k" := (obind m (fun x => match x with p => k end))
  (at level 100, p pattern, m at next level, right associativity).

Section Scan.
Context {U : UnicodeCase} {Hash : Type} (blake3 : list Z -> Hash) (cancel : nat -> bool).

Definition check_cancellation (n : nat) : outcome nat :=
  if cancel n then Some (Err Cancelled) else Some (Ok (S n)).

(** The number of bytes a leading byte announces. *)
Definition lead_width (byte : Z) : option nat :=
  if (194 <=? byte) && (byte <=? 223) then Some 2%nat
  else if (224 <=? byte) && (byte <=? 239) then Some 3%nat
  else if (240 <=? byte) && (byte <=? 244) then Some 4%nat
  else None.

Definition is_ascii (byte : Z) : bool := (0 <=? byte) && (byte <=? 127).

(** The character a byte completes, and what is kept of the others. *)
Definition decode_step (scalar : list Z) (width : nat) (byte : Z)
    : result CitationError (option Z * list Z * nat) :=
  if str_is_empty scalar && is_ascii byte then Ok (Some byte, scalar, width)
  else
    match (if str_is_empty scalar then lead_width byte else Some width) with
    | None => Err Utf8
    | Some width =>
        if (4 <=? length scalar)%nat then Err Utf8
        else
          let scalar := scalar ++ [byte] in
          if (length scalar =? width)%nat then
            match from_utf8 scalar with
            | None => Err Utf8
            | Some cs => Ok (head cs, [], width)
            end
          else Ok (None, scalar, width)
    end.

(** The body of the loop over the bytes of a chunk. *)
Definition scan_byte (start stop from through : Z) (st : Scan) (byte : Z) : outcome Scan :=
  n <-- (if offset st mod 256 =? 0 then check_cancellation (checks st) else Some (Ok (checks st)));;
  searched <-- (if (start <=? line st) && (line st <=? stop)
                then Ok <$> mapM (fun s => QuoteSearch.push s byte (offset st)) (search st)
                else Some (Ok (search st)));;
  '(ch, kept, width) <-- Some (decode_step (scalar st) (scalar_width st) byte);;
  let hashed := match ch with
                | Some ch => if (from <=? line st) && (line st <=? through)
                             then Fingerprint.push (hash st) ch else hash st
                | None => hash st
                end in
  let lf := byte =? 10 in
  next_line <-- (if lf then Some (ok_or (u64_add (line st) 1) Io) else Some (Ok (line st)));;
  next_offset <-- Some (ok_or (u64_add (offset st) 1) Io);;
  Some (Ok {| search := searched; hash := hashed; scalar := kept; scalar_width := width;
              line := next_line; offset := next_offset; final_lf := lf; checks := n |}).

Fixpoint scan_bytes (start stop from through : Z) (bs : list Z) (st : Scan) : outcome Scan :=
  match bs with
  | [] => Some (Ok st)
  | b :: bs => st <-- scan_byte start stop from through st b;; scan_bytes start stop from through bs st
  end.

Definition with_checks (st : Scan) (n : nat) : Scan :=
  {| search := search st; hash := hash st; scalar := scalar st; scalar_width := scalar_width st;
     line := line st; offset := offset st; final_lf := final_lf st; checks := n |}.

(** The reading loop, up to a read that returns nothing. *)
Fixpoint scan_reads (start stop from through : Z) (reads : list Read) (st : Scan) : outcome Scan :=
  n <-- check_cancellation (checks st);;
  match reads with
  | Failed :: _ => Some (Err Io)
  | [] | Chunk [] :: _ =>
      n <-- check_cancellation n;; Some (Ok (with_checks st n))
  | Chunk bs :: reads =>
      n <-- check_cancellation n;;
      st <-- scan_bytes start stop from through bs (with_checks st n);;
      scan_reads start stop from through reads st
  end.

Definition ScanOutput : Type := Z * Hash * list (option (Z * Z)).

Definition scan (reads : list Read) (file : str) (start stop : Z) (quotes : list (list Z)) (n : nat)
    : outcome ScanOutput :=
  n <-- check_cancellation n;;
  searches <-- Ok <$> mapM QuoteSearch.new quotes;;
  let from := Z.max (saturating_sub_u32 start FINGERPRINT_CONTEXT_LINES) 1 in
  let through := saturating_add_u32 stop FINGERPRINT_CONTEXT_LINES in
  st <-- scan_reads start stop from through reads
           {| search := searches; hash := Fingerprint.new file; scalar := []; scalar_width := 0;
              line := 1; offset := 0; final_lf := false; checks := n |};;
  _ <-- check_cancellation (checks st);;
  if negb (str_is_empty (scalar st)) then Some (Err Utf8)
  else
    let lines := Z.max (if final_lf st then line st - 1 else line st) 1 in
    Some (Ok (lines, Fingerprint.finish blake3 (hash st), found <$> search st)).

Definition check_source (reads : list Read) (file : str) (start stop : Z) (description : list Z) (n : nat)
    : outcome Hash :=
  n <-- check_cancellation n;;
  quotes <-- Some (fences description);;
  '(lines, fingerprint, matches) <-- scan reads file start stop quotes n;;
  if (start =? 0) || (stop <? start) || (lines <? stop) then Some (Err Range)
  else if existsb (fun m => bool_decide (m = None)) matches then Some (Err Quote)
  else Some (Ok fingerprint).

End Scan.

(** [CitationClaim] *)
Record CitationClaim := {
  claim_file : str;
  claim_description : str;
  claim_start : Z;
  claim_end : Z;
}.

(** [CitationClaim::validate]: [metadata] is whether the open file is regular,
    when the system can tell. *)
Definition validate `{UnicodeCase} {Hash : Type} (blake3 : list Z -> Hash) (to_hex : Hash -> str)
    (cancel : nat -> bool) (claim : CitationClaim) (metadata : option bool) (reads : list Read)
    : outcome str :=
  n <-- check_cancellation cancel 0;;
  match metadata with
  | None => Some (Err Io)
  | Some false => Some (Err NotRegular)
  | Some true =>
      hash <-- check_source blake3 cancel reads (claim_file claim) (claim_start claim) (claim_end claim)
                 (as_bytes (claim_description claim)) n;;
      Some (Ok (to_hex hash))
  end.

(** ** The grammar of fenced blocks *)

(** The quoted texts of a description, by its lines: a block is opened by a
    delimiter and ends at the first line that closes it; its lines, without the
    last line end, are one nonempty quote; no block is left open. *)
Inductive fenced : list (list Z) -> list (list Z) -> Prop :=
| fenced_end : fenced [] []
| fenced_prose l ls qs : delimiter l = None -> fenced ls qs -> fenced (l :: ls) qs
| fenced_block l kind len info body close ls qs :
    delimiter l = Some (kind, len, info) ->
    Forall (fun l => closes kind len l = false) body -> closes kind len close = true ->
    strip_payload (concat body) <> [] -> fenced ls qs ->
    fenced (l :: body ++ close :: ls) (strip_payload (concat body) :: qs).

Lemma slice_app (a b c : list Z) : slice (a ++ b ++ c) (length a) (length a + length b) = Some b.
Proof.
  unfold slice. rewrite !length_app.
  replace (length a <=? length a + length b)%nat with true by (symmetry; apply Nat.leb_le; lia).
  replace (length a + length b <=? length a + (length b + length c))%nat with true
    by (symmetry; apply Nat.leb_le; lia). cbn [andb].
  rewrite drop_app_length. replace (length a + length b - length a)%nat with (length b) by lia.
  rewrite take_app_length. reflexivity.
Qed.

Lemma str_is_empty_false (s : list Z) : str_is_empty s = false <-> s <> [].
Proof. destruct s; cbn; split; congruence. Qed.

Lemma fences_body d body ls kind len start off qs :
  Forall (fun l => closes kind len l = false) body ->
  fences_loop d (body ++ ls) (Some (kind, len, start)) off qs =
  fences_loop d ls (Some (kind, len, start)) (off + length (concat body)) qs.
Proof.
  intros H. revert off. induction H as [|l body Hl _ IH]; intros off; cbn; [by rewrite Nat.add_0_r|].
  rewrite Hl, IH, length_app. f_equal. lia.
Qed.

Lemma fences_loop_complete ls qs : fenced ls qs -> forall d done acc,
  d = done ++ concat ls -> fences_loop d ls None (length done) acc = Ok (acc ++ qs).
Proof.
  induction 1 as [|l ls qs Hl _ IH|l kind len info body close ls qs Ho Hb Hc Hne _ IH]; intros d done acc Hd.
  - cbn. by rewrite app_nil_r.
  - cbn. rewrite Hl, <- length_app. apply IH. rewrite Hd. cbn. by rewrite app_assoc.
  - cbn [fences_loop]. rewrite Ho, <- length_app. rewrite (fences_body _ _ _ _ _ _ _ _ Hb).
    cbn [fences_loop]. rewrite Hc.
    assert (Hd' : d = (done ++ l) ++ concat body ++ (close ++ concat ls)).
    { rewrite Hd. cbn. rewrite concat_app. cbn. by rewrite <- !app_assoc. }
    rewrite Hd' at 1. rewrite slice_app. apply str_is_empty_false in Hne. cbv zeta. rewrite Hne.
    replace (length (done ++ l) + length (concat body) + length close)%nat
      with (length (((done ++ l) ++ concat body) ++ close)) by (rewrite !length_app; lia).
    rewrite (IH d); [|rewrite Hd'; by rewrite <- !app_assoc]. by rewrite <- app_assoc.
Qed.

Lemma fences_loop_sound ls : forall d done acc r,
  (d = done ++ concat ls -> fences_loop d ls None (length done) acc = r ->
   r = Err Quote \/ exists qs, r = Ok (acc ++ qs) /\ fenced ls qs) /\
  (forall kind len pre body, d = pre ++ concat body ++ concat ls -> done = pre ++ concat body ->
   Forall (fun l => closes kind len l = false) body ->
   fences_loop d ls (Some (kind, len, length pre)) (length done) acc = r ->
   r = Err Quote \/ exists more close rest qs, ls = more ++ close :: rest /\
     Forall (fun l => closes kind len l = false) more /\ closes kind len close = true /\
     strip_payload (concat (body ++ more)) <> [] /\ fenced rest qs /\
     r = Ok (acc ++ strip_payload (concat (body ++ more)) :: qs)).
Proof.
  induction ls as [|l ls IH]; intros d done acc r.
  { split; [|cbn; auto]. cbn. intros _ <-. right. exists []. rewrite app_nil_r. split; constructor. }
  assert (Hdone : forall A, d = A ++ concat (l :: ls) -> d = (A ++ l) ++ concat ls)
    by (intros A ->; cbn; by rewrite app_assoc).
  split.
  - intros Hd. cbn [fences_loop]. rewrite <- length_app.
    destruct (delimiter l) as [[[kind len] info]|] eqn:Hl; intros Hr.
    + destruct (IH d (done ++ l) acc r) as [_ IHo].
      destruct (IHo kind len (done ++ l) []) as [->|(more & close & rest & qs & -> & Hm & Hc & Hne & Hf & ->)];
        [cbn; exact (Hdone _ Hd)|cbn; by rewrite app_nil_r|constructor|exact Hr|auto|].
      right. eexists. split; [reflexivity|]. cbn. eapply fenced_block; eassumption.
    + destruct (IH d (done ++ l) acc r) as [IHn _].
      destruct (IHn (Hdone _ Hd) Hr) as [->|(qs & -> & Hf)]; [auto|].
      right. exists qs. split; [reflexivity|]. by apply fenced_prose.
  - intros kind len pre body Hd Hdn Hb. cbn [fences_loop]. rewrite <- length_app.
    destruct (closes kind len l) eqn:Hl; intros Hr.
    + assert (Hs : slice d (length pre) (length done) = Some (concat body))
        by (rewrite Hd, Hdn, length_app; apply slice_app).
      rewrite Hs in Hr. cbv zeta in Hr. destruct (str_is_empty (strip_payload (concat body))) eqn:He; [auto|].
      apply str_is_empty_false in He.
      destruct (IH d (done ++ l) (acc ++ [strip_payload (concat body)]) r) as [IHn _].
      destruct IHn as [->|(qs & -> & Hf)]; [|exact Hr|auto|].
      { rewrite Hdn. apply Hdone. rewrite Hd. by rewrite app_assoc. }
      right. exists [], l, ls, qs. rewrite app_nil_r, <- app_assoc. split_and!; auto.
    + destruct (IH d (done ++ l) acc r) as [_ IHo].
      destruct (IHo kind len pre (body ++ [l]))
        as [->|(more & close & rest & qs & -> & Hm & Hc & Hne & Hf & ->)]; [..|exact Hr|auto|].
      { rewrite Hd, concat_app. cbn. by rewrite app_nil_r, <- !app_assoc. }
      { rewrite Hdn, concat_app. cbn. by rewrite app_nil_r, <- !app_assoc. }
      { apply Forall_app. auto. }
      right. exists (l :: more), close, rest, qs. rewrite <- app_assoc in *. split_and!; auto.
Qed.

(** The quoted texts of a description are exactly those of its fenced
    blocks, in order; an unclosed or an empty block is refused, and nothing else. *)
Theorem fences_are_exact d :
  (forall qs, fences d = Ok qs <-> fenced (split_inclusive 10 d) qs) /\
  (forall e, fences d = Err e <-> e = Quote /\ forall qs, ~ fenced (split_inclusive 10 d) qs).
Proof.
  unfold fences.
  assert (Hd : d = [] ++ concat (split_inclusive 10 d)) by (symmetry; apply concat_split_inclusive).
  assert (Hc : forall qs, fenced (split_inclusive 10 d) qs ->
    fences_loop d (split_inclusive 10 d) None 0 [] = Ok qs).
  { intros qs H. exact (fences_loop_complete _ _ H d [] [] Hd). }
  destruct (fences_loop_sound (split_inclusive 10 d) d [] []
              (fences_loop d (split_inclusive 10 d) None 0 [])) as [Hs _].
  destruct (Hs Hd eq_refl) as [Hr|(qs & Hr & Hf)]; cbn [length app] in Hr; rewrite Hr in *.
  - split; [intros qs; split; [discriminate|intros H; by apply Hc in H]|].
    intros e. split; [intros [= <-]; split; [reflexivity|]; intros qs H; by apply Hc in H|].
    intros [-> _]. reflexivity.
  - split; [intros qs'; split; [intros [= <-]; exact Hf|apply Hc]|].
    intros e. split; [discriminate|]. intros [_ Hno]. by destruct (Hno qs).
Qed.
