(* ===== verification/CitationTheorems.v ===== *)
(** * What the citation check decides

    The one pass of [Citation.scan] over the chunks of a file computes what a
    reference would compute from the whole file: whether it is UTF-8, how many
    lines it has, where each quote first occurs in the cited lines, and the
    fingerprint [Fingerprint.compute] of the window around them. *)

From S2P Require Import Prelude Text Utf8 Fingerprint QuoteSearch Citation.
From Stdlib Require Import ZArith Lia.
From stdpp Require Import base sets list option numbers strings.
Local Open Scope Z_scope.

(** ** Lines of a stream *)

Fixpoint newlines (s : list Z) : Z :=
  match s with
  | [] => 0
  | c :: s => (if c =? 10 then 1 else 0) + newlines s
  end.

(** The characters of the lines [first] to [last], when the text starts on line [n]. *)
Fixpoint select (n : Z) (s : list Z) (first last : Z) : list Z :=
  match s with
  | [] => []
  | c :: s =>
      (if (first <=? n) && (n <=? last) then [c] else []) ++
      select (if c =? 10 then n + 1 else n) s first last
  end.

Lemma newlines_app s t : newlines (s ++ t) = newlines s + newlines t.
Proof. induction s as [|c s IH]; cbn -[Z.add]; [reflexivity|]. rewrite IH. lia. Qed.

Lemma newlines_nonneg s : 0 <= newlines s.
Proof. induction s as [|c s IH]; cbn -[Z.add]; [lia|]. destruct (c =? 10); lia. Qed.

Lemma newlines_length s : newlines s <= Z.of_nat (length s).
Proof. induction s as [|c s IH]; cbn -[Z.add Z.of_nat]; [lia|]. destruct (c =? 10); lia. Qed.

Lemma newlines_free s : 10 ∉ s -> newlines s = 0.
Proof.
  induction s as [|c s IH]; intros Hs; [reflexivity|]. cbn -[Z.add]. rewrite IH by set_solver.
  destruct (c =? 10) eqn:Hc; bool_prop; [set_solver|lia].
Qed.

Lemma select_app n s t first last :
  select n (s ++ t) first last = select n s first last ++ select (n + newlines s) t first last.
Proof.
  revert n. induction s as [|c s IH]; intros n; cbn -[Z.add]; [by rewrite Z.add_0_r|].
  rewrite IH, <- app_assoc. do 3 f_equal. destruct (c =? 10); lia.
Qed.

Lemma select_free n p first last : 10 ∉ p ->
  select n p first last = if (first <=? n) && (n <=? last) then p else [].
Proof.
  induction p as [|c p IH]; intros Hp; cbn; [destruct (_ && _); reflexivity|].
  destruct (c =? 10) eqn:Hc; bool_prop; [set_solver|]. rewrite IH by set_solver.
  destruct (_ && _); reflexivity.
Qed.

Lemma select_pieces ls n first last : pieces 10 ls ->
  select n (concat ls) first last =
  concat (take (Z.to_nat (last - Z.max first n + 1)) (drop (Z.to_nat (first - n)) ls)).
Proof.
  intros H. revert n. induction H as [|p Hne Hp|p ls Hp H IH]; intros n; cbn [concat].
  - by rewrite drop_nil, take_nil.
  - rewrite app_nil_r, select_free by exact Hp.
    destruct (first <=? n) eqn:H1, (n <=? last) eqn:H2; bool_prop; cbn [andb].
    + replace (Z.to_nat (first - n)) with 0%nat by lia.
      replace (Z.to_nat (last - Z.max first n + 1)) with (S (Z.to_nat (last - n))) by lia.
      cbn. by rewrite take_nil, app_nil_r.
    + replace (Z.to_nat (last - Z.max first n + 1)) with 0%nat by lia. reflexivity.
    + replace (Z.to_nat (first - n)) with (S (Z.to_nat (first - n - 1))) by lia. cbn. by rewrite drop_nil, take_nil.
    + replace (Z.to_nat (first - n)) with (S (Z.to_nat (first - n - 1))) by lia. cbn. by rewrite drop_nil, take_nil.
  - rewrite <- app_assoc, select_app, newlines_free, Z.add_0_r, select_free by exact Hp.
    cbn [app select]. change (10 =? 10) with true. cbv iota. rewrite IH.
    destruct (first <=? n) eqn:H1; bool_prop; cbn [andb].
    + replace (Z.to_nat (first - n)) with 0%nat by lia.
      replace (Z.to_nat (first - (n + 1))) with 0%nat by lia. cbn [drop].
      destruct (n <=? last) eqn:H2; bool_prop.
      * replace (Z.to_nat (last - Z.max first n + 1)) with (S (Z.to_nat (last - Z.max first (n + 1) + 1))) by lia.
        cbn. by rewrite <- app_assoc.
      * replace (Z.to_nat (last - Z.max first n + 1)) with 0%nat by lia.
        replace (Z.to_nat (last - Z.max first (n + 1) + 1)) with 0%nat by lia. reflexivity.
    + replace (Z.to_nat (first - n)) with (S (Z.to_nat (first - (n + 1)))) by lia. cbn [app drop].
      do 3 f_equal. lia.
Qed.

Lemma select_line_range s first last : 1 <= first -> select 1 s first last = line_range s first last.
Proof.
  intros Hf. rewrite <- (concat_split_inclusive 10 s) at 1.
  rewrite select_pieces by apply split_inclusive_pieces. unfold line_range. do 2 f_equal. lia.
Qed.

Lemma count_pieces ls : pieces 10 ls ->
  Z.of_nat (length ls) = newlines (concat ls) +
    (if match last (concat ls) with Some c => c =? 10 | None => true end then 0 else 1).
Proof.
  induction 1 as [|p Hne Hp|p ls Hp H IH]; cbn [concat length].
  - reflexivity.
  - rewrite app_nil_r, newlines_free by exact Hp. destruct (last p) as [c|] eqn:Hl.
    + destruct (c =? 10) eqn:Hc; bool_prop; [|reflexivity]. subst c.
      apply last_Some_elem_of in Hl. contradiction.
    + apply last_None in Hl. contradiction.
  - rewrite Nat2Z.inj_succ, IH, newlines_app, newlines_app, (newlines_free p Hp). cbn [newlines].
    change (10 =? 10) with true. cbv iota.
    destruct (concat ls) as [|c l] eqn:Hl.
    + rewrite app_nil_r, last_snoc. cbn. lia.
    + rewrite last_app_cons. lia.
Qed.

(** The number of lines as the scan counts them. *)
Lemma scanned_lines s : let lf := match last s with Some c => c =? 10 | None => false end in
  Z.max (if lf then 1 + newlines s - 1 else 1 + newlines s) 1 = Z.max (Z.of_nat (length (lines s))) 1.
Proof.
  unfold lines. rewrite length_fmap, (count_pieces _ (split_inclusive_pieces 10 s)), concat_split_inclusive.
  pose proof (newlines_nonneg s). cbv zeta. destruct (last s) as [c|] eqn:Hl.
  - destruct (c =? 10); lia.
  - apply last_None in Hl. subst s. reflexivity.
Qed.

(** ** Sequences of bytes *)

Definition complete (l : list Z) : Prop := exists b t, l = b :: t /\ utf8_width b = Some (length l).
Definition pending (l : list Z) (width : nat) : Prop :=
  l = [] \/ exists b t, l = b :: t /\ utf8_width b = Some width /\ (length l < width)%nat.

Ltac width_cases H :=
  unfold utf8_width in H;
  repeat match type of H with context [if ?b then _ else _] => destruct b eqn:? end.

Lemma utf8_width_None b t : utf8_width b = None -> from_utf8 (b :: t) = None.
Proof. intros H. cbn -[Z.leb Z.eqb]. width_cases H; try discriminate. reflexivity. Qed.

Lemma pending_None l width : pending l width -> l <> [] -> from_utf8 l = None.
Proof.
  intros [->|(b & t & -> & Hw & Hlen)] Hne; [contradiction|]. cbn -[Z.leb Z.eqb].
  width_cases Hw; try discriminate; injection Hw as <-; simpl in Hlen.
  - lia.
  - destruct t; [reflexivity|simpl in Hlen; lia].
  - destruct t as [|? [|? ?]]; [reflexivity..|simpl in Hlen; lia].
  - destruct t as [|? [|? [|? ?]]]; [reflexivity..|simpl in Hlen; lia].
Qed.

(** A complete sequence decodes to one character, which is a newline only as
    itself, and the rest decodes on its own. *)
Lemma complete_decodes l : complete l ->
  (exists c, from_utf8 l = Some [c] /\ newlines l = newlines [c] /\ newlines (removelast l) = 0 /\
             forall rest, from_utf8 (l ++ rest) = cons c <$> from_utf8 rest) \/
  (from_utf8 l = None /\ forall rest, from_utf8 (l ++ rest) = None).
Proof.
  intros (b & t & -> & Hw). cbn -[Z.leb Z.eqb newlines removelast].
  width_cases Hw; try discriminate; injection Hw as Hlen; bool_prop.
  - destruct t; [|discriminate]. left. exists b. auto.
  - destruct t as [|b1 [|? ?]]; try discriminate. cbn [app]. destruct (cont b1) eqn:Hc; [|right; auto].
    unfold cont in Hc. bool_prop. left. exists (point2 b b1). split; [reflexivity|].
    assert (128 <= point2 b b1) by (rewrite point2_eq; Z.to_euclidean_division_equations; lia).
    rewrite !newlines_free by (cbn; rewrite ?elem_of_cons, elem_of_nil; lia). auto.
  - destruct t as [|b1 [|b2 [|? ?]]]; try discriminate. cbn [app].
    destruct (second3 b b1 && cont b2) eqn:Hc; [|right; auto].
    assert (128 <= b1 /\ 128 <= b2 /\ 128 <= point3 b b1 b2) as (? & ? & ?).
    { bool_prop. unfold second3, cont in *. rewrite point3_eq.
      destruct (b =? 224) eqn:?, (b =? 237) eqn:?; bool_prop; Z.to_euclidean_division_equations; lia. }
    left. exists (point3 b b1 b2). split; [reflexivity|].
    rewrite !newlines_free by (cbn; rewrite ?elem_of_cons, elem_of_nil; lia). auto.
  - destruct t as [|b1 [|b2 [|b3 [|? ?]]]]; try discriminate. cbn [app].
    destruct (second4 b b1 && cont b2 && cont b3) eqn:Hc; [|right; auto].
    assert (128 <= b1 /\ 128 <= b2 /\ 128 <= b3 /\ 128 <= point4 b b1 b2 b3) as (? & ? & ? & ?).
    { bool_prop. unfold second4, cont in *. rewrite point4_eq.
      destruct (b =? 240) eqn:?, (b =? 244) eqn:?; bool_prop; Z.to_euclidean_division_equations; lia. }
    left. exists (point4 b b1 b2 b3). split; [reflexivity|].
    rewrite !newlines_free by (cbn; rewrite ?elem_of_cons, elem_of_nil; lia). auto.
Qed.

(** One byte of the decoder: the bytes kept before it, then the byte. *)
Lemma decode_step_spec l width b : pending l width ->
  (exists ch kept w, decode_step l width b = Ok (ch, kept, w) /\ pending kept w /\
     match ch with
     | Some c => kept = [] /\ newlines (l ++ [b]) = newlines [c] /\ newlines l = 0 /\
                 forall rest, from_utf8 (l ++ b :: rest) = cons c <$> from_utf8 rest
     | None => kept = l ++ [b]
     end) \/
  (decode_step l width b = Err Utf8 /\ forall rest, from_utf8 (l ++ b :: rest) = None).
Proof.
  intros Hp. unfold decode_step.
  assert (Hlead : forall w, lead_width b = Some w -> utf8_width b = Some w /\ (1 < w)%nat).
  { intros w H. unfold lead_width in H. unfold utf8_width.
    repeat match type of H with context [if ?b then _ else _] => destruct b eqn:? end; try discriminate;
      injection H as <-; bool_prop; split; try lia;
      replace ((0 <=? b) && (b <=? 127)) with false by lia; reflexivity. }
  assert (Hfull : forall seq : list Z, complete seq -> seq = l ++ [b] ->
    (exists ch kept w, match from_utf8 seq with None => Err Utf8 | Some cs => Ok (head cs, [], length seq) end
        = @Ok CitationError _ (ch, kept, w) /\ pending kept w /\
      match ch with
      | Some c => kept = [] /\ newlines (l ++ [b]) = newlines [c] /\ newlines l = 0 /\
                  forall rest, from_utf8 (l ++ b :: rest) = cons c <$> from_utf8 rest
      | None => kept = l ++ [b]
      end) \/
    (match from_utf8 seq with None => Err Utf8 | Some cs => Ok (head cs, [], length seq) end
       = @Err _ (option Z * list Z * nat) Utf8 /\ forall rest, from_utf8 (l ++ b :: rest) = None)).
  { intros seq Hc Hseq.
    assert (Hrest : forall rest, l ++ b :: rest = seq ++ rest)
      by (intros rest; rewrite Hseq, <- app_assoc; reflexivity).
    destruct (complete_decodes seq Hc) as [(c & Hd & Hn & Hn' & Hr)|[Hd Hr]]; rewrite Hd.
    - left. exists (Some c), [], (length seq). split; [reflexivity|]. split; [left; reflexivity|].
      rewrite <- Hseq. split; [reflexivity|]. split; [exact Hn|].
      rewrite Hseq, removelast_last in Hn'. split; [exact Hn'|]. intros rest. rewrite Hrest. apply Hr.
    - right. split; [reflexivity|]. intros rest. rewrite Hrest. apply Hr. }
  destruct Hp as [->|(b0 & t & -> & Hw & Hlen)]; cbn [str_is_empty andb].
  - destruct (is_ascii b) eqn:Ha.
    { left. exists (Some b), [], width. split; [reflexivity|]. split; [left; reflexivity|].
      split; [reflexivity|]. split; [reflexivity|]. split; [reflexivity|]. intros rest. cbn -[Z.leb].
      unfold is_ascii in Ha. rewrite Ha. reflexivity. }
    destruct (lead_width b) as [w|] eqn:Hl.
    + destruct (Hlead w eq_refl) as [Hu H1]. cbn [length Nat.leb app].
      destruct (1 =? w)%nat eqn:E; [apply Nat.eqb_eq in E; lia|].
      left. exists None, [b], w. split; [reflexivity|]. split; [|reflexivity].
      right. exists b, []. simpl. auto.
    + right. split; [reflexivity|]. intros rest. apply utf8_width_None. unfold utf8_width, lead_width, is_ascii in *.
      rewrite Ha. destruct (_ && _); [discriminate|]. destruct (_ && _); [discriminate|].
      destruct (_ && _); [discriminate|reflexivity].
  - assert (Hw4 : (width <= 4)%nat) by (width_cases Hw; try discriminate; injection Hw as <-; lia).
    destruct (4 <=? length (b0 :: t))%nat eqn:H4; [apply Nat.leb_le in H4; lia|].
    destruct (length ((b0 :: t) ++ [b]) =? width)%nat eqn:E.
    + apply Nat.eqb_eq in E. cbv zeta. rewrite <- E. apply Hfull; [|reflexivity].
      exists b0, (t ++ [b]). split; [reflexivity|]. rewrite E. exact Hw.
    + apply Nat.eqb_neq in E. left. exists None, ((b0 :: t) ++ [b]), width.
      split; [reflexivity|]. split; [|reflexivity]. right. exists b0, (t ++ [b]). split; [reflexivity|].
      split; [exact Hw|]. rewrite length_app in *. simpl in *. lia.
Qed.

(** ** The searches *)

Lemma select_before n s first last : n + newlines s < first -> select n s first last = [].
Proof.
  revert n. induction s as [|c s IH]; intros n H; [reflexivity|]. cbn -[Z.add] in *.
  pose proof (newlines_nonneg s). destruct (c =? 10);
    (rewrite IH by lia; destruct (first <=? n) eqn:E; bool_prop; [lia|reflexivity]).
Qed.

Lemma select_split n s start stop : 0 <= n -> n + newlines s <= stop ->
  length s = (length (select n s 0 (start - 1)) + length (select n s start stop))%nat.
Proof.
  revert n. induction s as [|c s IH]; intros n Hn H; [reflexivity|]. cbn -[Z.add] in *.
  pose proof (newlines_nonneg s). rewrite !length_app.
  rewrite (IH (if c =? 10 then n + 1 else n)) by (destruct (c =? 10); lia).
  destruct (0 <=? n) eqn:E0; bool_prop; [|lia]. replace (n <=? stop) with true by (destruct (c =? 10); lia).
  destruct (n <=? start - 1) eqn:E1, (start <=? n) eqn:E2; bool_prop; cbn; lia.
Qed.

Lemma searched_nil_offset q o o' s : q <> [] -> searched q [] o s -> searched q [] o' s.
Proof.
  intros Hq (H1 & H2 & H3 & H4). split_and!; auto. rewrite H3. destruct q; [contradiction|reflexivity].
Qed.

Lemma Forall2_left_impl {A B} (P : A -> Prop) (R R' : A -> B -> Prop) l k :
  Forall P l -> Forall2 R l k -> (forall a b, P a -> R a b -> R' a b) -> Forall2 R' l k.
Proof. intros HP HR H. revert HP. induction HR; intros HP; inversion_clear HP; constructor; auto. Qed.

Lemma push_all_searched qs ss t o b : Forall (fun q => q <> []) qs ->
  Forall2 (fun q s => searched q t o s) qs ss ->
  exists ss', mapM (fun s => QuoteSearch.push s b (o + Z.of_nat (length t))) ss = Some ss' /\
    Forall2 (fun q s => searched q (t ++ [b]) o s) qs ss'.
Proof.
  intros Hne H. revert Hne. induction H as [|q s qs ss Hs _ IH]; intros Hne; [exists []; auto|].
  inversion_clear Hne as [|? ? Hq Hqs]. destruct (IH Hqs) as (ss' & Hm & Hf).
  destruct (push_searched q t o s b Hq Hs) as (s' & Hp & Hs'). exists (s' :: ss').
  cbn. rewrite Hp. cbn. rewrite Hm. split; [reflexivity|]. constructor; assumption.
Qed.

Lemma new_all_searched qs o : Forall (fun q => q <> []) qs ->
  exists ss, mapM QuoteSearch.new qs = Some ss /\ Forall2 (fun q s => searched q [] o s) qs ss.
Proof.
  induction 1 as [|q qs Hq _ (ss & Hm & Hf)]; [exists []; auto|].
  destruct (new_searched q o Hq) as (s & Hs & Hd). exists (s :: ss).
  cbn. rewrite Hs. cbn. rewrite Hm. split; [reflexivity|]. constructor; assumption.
Qed.

(** ** The pass over the file *)

(** The bytes up to the end of the file, unless a read fails. *)
Fixpoint read_all (reads : list Read) : option (list Z) :=
  match reads with
  | [] => Some []
  | Failed :: _ => None
  | Chunk bs :: reads => match bs with [] => Some [] | _ => app bs <$> read_all reads end
  end.

(** All the bytes the reads carry. *)
Definition delivered (reads : list Read) : list Z :=
  reads ≫= fun r => match r with Chunk bs => bs | Failed => [] end.

Section Pass.
Context {U : UnicodeCase} (cancel : nat -> bool) (file : str) (start stop from through : Z)
  (quotes : list (list Z)) (Hquotes : Forall (fun q => q <> []) quotes).

Definition after_last (p : list Z) : bool := match last p with Some c => c =? 10 | None => false end.

(** The state after the bytes [p]. *)
Definition scanned (p : list Z) (st : Scan) : Prop := exists text,
  pending (scalar st) (scalar_width st) /\
  (forall rest, from_utf8 (p ++ rest) = app text <$> from_utf8 (scalar st ++ rest)) /\
  newlines p = newlines text + newlines (scalar st) /\
  hash st = foldl Fingerprint.push (Fingerprint.new file) (select 1 text from through) /\
  line st = 1 + newlines p /\ offset st = Z.of_nat (length p) /\ final_lf st = after_last p /\
  Forall2 (fun q s => searched q (select 1 p start stop) (Z.of_nat (length (select 1 p 0 (start - 1)))) s)
    quotes (search st).

Definition cancelled : Prop := exists n, cancel n = true.

Lemma after_last_snoc p b : after_last (p ++ [b]) = (b =? 10).
Proof. unfold after_last. rewrite last_snoc. reflexivity. Qed.

Lemma searches_step p b ss :
  Forall2 (fun q s => searched q (select 1 p start stop) (Z.of_nat (length (select 1 p 0 (start - 1)))) s)
    quotes ss ->
  exists ss', (if (start <=? 1 + newlines p) && (1 + newlines p <=? stop)
               then Ok <$> mapM (fun s => QuoteSearch.push s b (Z.of_nat (length p))) ss
               else Some (@Ok CitationError _ ss)) = Some (Ok ss') /\
    Forall2 (fun q s => searched q (select 1 (p ++ [b]) start stop)
                          (Z.of_nat (length (select 1 (p ++ [b]) 0 (start - 1)))) s) quotes ss'.
Proof.
  intros H. pose proof (newlines_nonneg p). rewrite !select_app. cbn [select]. rewrite !app_nil_r.
  destruct (start <=? 1 + newlines p) eqn:E1; bool_prop; cbn [andb].
  - replace (1 + newlines p <=? start - 1) with false by lia. rewrite andb_false_r, app_nil_r.
    destruct (1 + newlines p <=? stop) eqn:E2; bool_prop; [|exists ss; rewrite app_nil_r; auto].
    pose proof (select_split 1 p start stop ltac:(lia) ltac:(lia)) as Hlen.
    destruct (push_all_searched quotes ss _ _ b Hquotes H) as (ss' & Hm & Hf).
    rewrite Hlen, Nat2Z.inj_add, Hm. exists ss'. auto.
  - exists ss. split; [reflexivity|]. rewrite app_nil_r. rewrite (select_before 1 p start stop) in * by lia.
    eapply Forall2_left_impl; [exact Hquotes|exact H|].
    intros q s Hq Hs. exact (searched_nil_offset q _ _ s Hq Hs).
Qed.

Lemma check_cases n : check_cancellation cancel n = Some (Ok (S n)) \/
  check_cancellation cancel n = Some (Err Cancelled) /\ cancelled.
Proof. unfold check_cancellation, cancelled. destruct (cancel n) eqn:H; eauto. Qed.

Lemma scan_byte_spec p st b : scanned p st -> Z.of_nat (length p) + 1 < u64_max ->
  (exists st', scan_byte cancel start stop from through st b = Some (Ok st') /\ scanned (p ++ [b]) st') \/
  (scan_byte cancel start stop from through st b = Some (Err Utf8) /\
   forall rest, from_utf8 (p ++ b :: rest) = None) \/
  (scan_byte cancel start stop from through st b = Some (Err Cancelled) /\ cancelled).
Proof.
  intros (text & Hpend & Hdec & Hnl & Hh & Hl & Ho & Hlf & Hs) Hsize. unfold scan_byte.
  assert (Hcheck : exists n, (if offset st mod 256 =? 0 then check_cancellation cancel (checks st)
                              else Some (Ok (checks st))) = Some (Ok n) \/
    (if offset st mod 256 =? 0 then check_cancellation cancel (checks st) else Some (Ok (checks st)))
      = Some (Err Cancelled) /\ cancelled).
  { destruct (offset st mod 256 =? 0); [|eauto]. destruct (check_cases (checks st)) as [H|H];
      [exists (S (checks st))|exists O]; auto. }
  destruct Hcheck as [n [-> |[-> Hc]]]; cbn [obind]; [|right; right; auto].
  rewrite Hl, Ho. destruct (searches_step p b (search st) Hs) as (ss & -> & Hss). cbn [obind].
  pose proof (newlines_length p). pose proof (newlines_nonneg p).
  destruct (decode_step_spec (scalar st) (scalar_width st) b Hpend)
    as [(ch & kept & w & -> & Hkept & Hch)|[-> Hnone]]; cbn [obind].
  2: { right. left. split; [reflexivity|]. intros rest.
       rewrite Hdec, Hnone. reflexivity. }
  left. unfold u64_add.
  replace (1 + newlines p + 1 <=? u64_max) with true by lia.
  replace (Z.of_nat (length p) + 1 <=? u64_max) with true by lia. cbn [ok_or].
  assert (Hline : exists m, (if b =? 10 then Some (@Ok CitationError _ (1 + newlines p + 1))
                             else Some (Ok (1 + newlines p))) = Some (Ok m) /\ m = 1 + newlines (p ++ [b])).
  { rewrite newlines_app. cbn [newlines]. destruct (b =? 10); eexists; (split; [reflexivity|lia]). }
  destruct Hline as (m & -> & Hm). cbn [obind]. eexists. split; [reflexivity|].
  assert (Hlen : Z.of_nat (length p) + 1 = Z.of_nat (length (p ++ [b]))) by (rewrite length_app; simpl; lia).
  destruct ch as [c|].
  - destruct Hch as (-> & Hc & Hp0 & Hrest). exists (text ++ [c]). cbn.
    split; [exact Hkept|]. split.
    { intros rest. rewrite <- app_assoc. cbn. rewrite Hdec, Hrest.
      destruct (from_utf8 rest); cbn; [by rewrite <- app_assoc|reflexivity]. }
    rewrite newlines_app in Hc. rewrite !newlines_app.
    split; [lia|]. split.
    { rewrite select_app, foldl_app, <- Hh. replace (1 + newlines text) with (1 + newlines p) by lia.
      cbn [select]. rewrite app_nil_r. destruct (_ && _); reflexivity. }
    rewrite newlines_app in Hm. rewrite after_last_snoc. split_and!; auto.
  - subst kept. exists text. cbn. split; [exact Hkept|]. split.
    { intros rest. rewrite <- !app_assoc. cbn. apply Hdec. }
    rewrite !newlines_app in *. split; [lia|]. rewrite after_last_snoc. split_and!; auto.
Qed.

Lemma scan_bytes_spec bs p st : scanned p st -> Z.of_nat (length (p ++ bs)) < u64_max ->
  (exists st', scan_bytes cancel start stop from through bs st = Some (Ok st') /\ scanned (p ++ bs) st') \/
  (scan_bytes cancel start stop from through bs st = Some (Err Utf8) /\
   forall rest, from_utf8 (p ++ bs ++ rest) = None) \/
  (scan_bytes cancel start stop from through bs st = Some (Err Cancelled) /\ cancelled).
Proof.
  revert p st. induction bs as [|b bs IH]; intros p st Hs Hlen; cbn [scan_bytes].
  { left. exists st. rewrite app_nil_r. auto. }
  rewrite length_app in Hlen. simpl in Hlen.
  destruct (scan_byte_spec p st b Hs ltac:(lia)) as [(st' & -> & Hs')|[[-> Hn]|[-> Hc]]]; cbn [obind].
  - replace (p ++ b :: bs) with ((p ++ [b]) ++ bs) by (rewrite <- app_assoc; reflexivity).
    destruct (IH _ _ Hs') as [H|[[H1 H2]|H]]; [rewrite !length_app; simpl; lia|left; exact H| |right; right; exact H].
    right. left. split; [exact H1|]. intros rest. specialize (H2 rest). rewrite <- !app_assoc in H2. exact H2.
  - right. left. split; [reflexivity|]. intros rest. apply Hn.
  - right. right. auto.
Qed.

Lemma scanned_with_checks p st n : scanned p st -> scanned p (with_checks st n).
Proof. intros H. exact H. Qed.

Lemma scan_reads_spec reads p st : scanned p st -> Z.of_nat (length (p ++ delivered reads)) < u64_max ->
  let r := scan_reads cancel start stop from through reads st in
  (exists src st', read_all reads = Some src /\ r = Some (Ok st') /\ scanned (p ++ src) st') \/
  (r = Some (Err Utf8) /\ forall src, read_all reads = Some src -> from_utf8 (p ++ src) = None) \/
  (r = Some (Err Io) /\ read_all reads = None) \/
  (r = Some (Err Cancelled) /\ cancelled).
Proof.
  revert p st. induction reads as [|read reads IH]; intros p st Hs Hlen; cbv zeta; cbn [scan_reads];
    (destruct (check_cases (checks st)) as [-> |[-> Hc]]; cbn [obind]; [|do 3 right; auto]).
  - destruct (check_cases (S (checks st))) as [-> |[-> Hc]]; cbn [obind]; [|do 3 right; auto].
    left. exists [], (with_checks st (S (S (checks st)))). rewrite app_nil_r. auto.
  - destruct read as [bs|]; [|do 2 right; left; auto].
    destruct bs as [|b bs];
      (destruct (check_cases (S (checks st))) as [-> |[-> Hc]]; cbn [obind]; [|do 3 right; auto]).
    { left. exists [], (with_checks st (S (S (checks st)))). rewrite app_nil_r. auto. }
    assert (Hd : delivered (Chunk (b :: bs) :: reads) = (b :: bs) ++ delivered reads) by reflexivity.
    rewrite Hd, !length_app in Hlen. set (chunk := b :: bs) in *.
    assert (Hra : read_all (Chunk chunk :: reads) = app chunk <$> read_all reads) by reflexivity.
    destruct (scan_bytes_spec chunk p _ (scanned_with_checks p st (S (S (checks st))) Hs))
      as [(st' & -> & Hs')|[[-> Hn]|[-> Hc]]]; cbn [obind]; [rewrite length_app; lia|..].
    + destruct (IH (p ++ chunk) st' Hs') as [(src & st2 & Hr & Hres & Hs2)|[[Hres Hr]|[[Hres Hr]|[Hres Hr]]]];
        [rewrite !length_app; lia|..]; cbv zeta in Hres; rewrite Hres, Hra.
      * left. exists (chunk ++ src), st2. rewrite Hr, app_assoc. auto.
      * right. left. split; [reflexivity|]. intros src Hsrc. apply fmap_Some in Hsrc as (s & Hs0 & ->).
        rewrite app_assoc. auto.
      * right. right. left. rewrite Hr. auto.
      * do 3 right. auto.
    + right. left. split; [reflexivity|]. intros src Hsrc. rewrite Hra in Hsrc.
      apply fmap_Some in Hsrc as (s & _ & ->). apply Hn.
    + do 3 right. auto.
Qed.
End Pass.

(** ** The reference *)

(** What the check decides, from the whole file. *)
Definition reference `{UnicodeCase} {Hash : Type} (blake3 : list Z -> Hash) (to_hex : Hash -> str)
    (claim : CitationClaim) (src : list Z) : result CitationError str :=
  match fences (as_bytes (claim_description claim)) with
  | Err e => Err e
  | Ok quotes =>
      match from_utf8 src with
      | None => Err Utf8
      | Some text =>
          if (claim_start claim =? 0) || (claim_end claim <? claim_start claim) ||
             (Z.max (Z.of_nat (length (lines src))) 1 <? claim_end claim) then Err Range
          else if forallb (fun q => contains_str q (line_range src (claim_start claim) (claim_end claim))) quotes
          then Ok (compute blake3 to_hex SCANNER_ID (claim_file claim)
                     (extract_window text (claim_start claim) (claim_end claim) FINGERPRINT_CONTEXT_LINES))
          else Err Quote
      end
  end.

Lemma fenced_nonempty ls qs : fenced ls qs -> Forall (fun q => q <> []) qs.
Proof. induction 1; auto. Qed.

Lemma fences_Ok d qs : fences d = Ok qs -> Forall (fun q => q <> []) qs.
Proof.
  unfold fences. intros H.
  destruct (fences_loop_sound (split_inclusive 10 d) d [] [] (Ok qs)) as [Hs _].
  destruct (Hs (eq_sym (concat_split_inclusive 10 d)) H) as [?|(qs' & [= <-] & Hf)]; [discriminate|].
  exact (fenced_nonempty _ _ Hf).
Qed.

Lemma fences_Err d e : fences d = Err e -> e = Quote.
Proof.
  unfold fences. intros H.
  destruct (fences_loop_sound (split_inclusive 10 d) d [] [] (Err e)) as [Hs _].
  destruct (Hs (eq_sym (concat_split_inclusive 10 d)) H) as [[=]|(qs' & [=] & _)]. assumption.
Qed.

Lemma find_contains q t : bool_decide (QuoteSearch.find q t = None) = negb (contains_str q t).
Proof.
  destruct (contains_str q t) eqn:H; cbn.
  - apply contains_str_true in H as (u & v & H). apply bool_decide_eq_false. rewrite find_None. intros Hn.
    exact (Hn u v H).
  - apply bool_decide_eq_true, find_None. intros u v Ht.
    enough (contains_str q t = true) by congruence. apply contains_str_true. eauto.
Qed.

Lemma searches_found quotes t o ss : Forall2 (fun q s => searched q t o s) quotes ss ->
  existsb (fun m => bool_decide (m = None)) (found <$> ss) = negb (forallb (fun q => contains_str q t) quotes).
Proof.
  induction 1 as [|q s qs ss (_ & _ & Hf & _) _ IH]; [reflexivity|]. cbn. rewrite IH, negb_andb. f_equal.
  rewrite <- find_contains. apply bool_decide_ext. rewrite Hf. apply fmap_None.
Qed.

Section Exact.
Context {U : UnicodeCase} {L : UnicodeCaseLaws U} {Hash : Type} (blake3 : list Z -> Hash) (to_hex : Hash -> str).

Lemma check_source_spec cancel claim reads n :
  0 <= claim_start claim <= u32_max -> 0 <= claim_end claim <= u32_max ->
  Z.of_nat (length (delivered reads)) < u64_max ->
  let r := check_source blake3 cancel reads (claim_file claim) (claim_start claim) (claim_end claim)
             (as_bytes (claim_description claim)) n in
  (r = Some (Err Cancelled) /\ cancelled cancel) \/
  (exists e, r = Some (Err e) /\ read_all reads = None) \/
  (exists src, read_all reads = Some src /\
     (x <-- r;; Some (Ok (to_hex x))) = Some (reference blake3 to_hex claim src)).
Proof.
  destruct claim as [file description start stop]. cbn [claim_file claim_description claim_start claim_end].
  intros Hs He Hsize. cbv zeta. unfold check_source, reference.
  cbn [claim_file claim_description claim_start claim_end].
  destruct (check_cases cancel n) as [-> |[-> Hc]]; cbn [obind]; [|auto].
  destruct (fences (as_bytes description)) as [quotes|e] eqn:Hf; cbn [obind].
  2: { destruct (read_all reads) as [src|]; right; [right; exists src|left]; eauto. }
  apply fences_Ok in Hf. unfold scan.
  destruct (check_cases cancel (S n)) as [-> |[-> Hc]]; cbn [obind]; [|auto].
  destruct (new_all_searched quotes 0 Hf) as (ss & -> & Hss). cbn [fmap option_fmap option_map obind].
  set (from := Z.max (saturating_sub_u32 start FINGERPRINT_CONTEXT_LINES) 1).
  set (through := saturating_add_u32 stop FINGERPRINT_CONTEXT_LINES).
  set (st := {| search := ss |}).
  assert (Hst : scanned file start stop from through quotes [] st).
  { exists []. cbn. split; [left; reflexivity|]. split; [|auto 10].
    intros rest. destruct (from_utf8 rest); reflexivity. }
  destruct (scan_reads_spec cancel file start stop from through quotes Hf reads [] st Hst Hsize)
    as [(src & st' & Hr & -> & Hs')|[[-> Hn]|[[-> Hr]|[-> Hc]]]]; cbn [obind app] in *.
  - destruct (check_cases cancel (checks st')) as [-> |[-> Hc]]; cbn [obind]; [|auto].
    right. right. exists src. split; [exact Hr|].
    destruct Hs' as (text & Hpend & Hdec & Hnl & Hh & Hl & Ho & Hlf & Hss').
    specialize (Hdec []). rewrite !app_nil_r in Hdec.
    destruct (str_is_empty (scalar st')) eqn:Hsc; cbn [negb].
    2: { apply str_is_empty_false in Hsc. rewrite Hdec, (pending_None _ _ Hpend Hsc). reflexivity. }
    destruct (scalar st'); [|discriminate]. cbn in Hdec. rewrite app_nil_r in Hdec. rewrite Hdec. cbn [obind].
    rewrite Hl, Hlf. unfold after_last. rewrite scanned_lines.
    destruct ((start =? 0) || (stop <? start)) eqn:Hrange; cbn [orb]; [reflexivity|].
    destruct (Z.max (Z.of_nat (length (lines src))) 1 <? stop); [reflexivity|].
    bool_prop. rewrite (searches_found _ _ _ _ Hss').
    rewrite (select_line_range src start stop) by lia.
    destruct (forallb _ quotes); cbn [negb obind]; [|reflexivity]. do 2 f_equal.
    unfold compute. rewrite Hh, push_text, window_is_line_range by (unfold FINGERPRINT_CONTEXT_LINES; lia).
    rewrite select_line_range by (subst from; lia). reflexivity.
  - destruct (read_all reads) as [src|] eqn:Hr; [|right; left; eauto]. right. right. exists src.
    split; [reflexivity|]. rewrite (Hn src eq_refl). reflexivity.
  - right. left. eauto.
  - auto.
Qed.

(** C26: For a file of fewer than 2^64 bytes, read in any chunks, the check of a
    citation never panics.  Unless it is cancelled it answers exactly what the
    reference decides from the whole file: the fences must close and be nonempty,
    the file must be UTF-8 and have the cited lines, every fenced text must occur
    byte for byte within them, and the fingerprint is that of the reference
    normalisation of the window; a failed read or a file that is not regular is
    refused. *)
Theorem citations_are_exact cancel claim metadata reads :
  0 <= claim_start claim <= u32_max -> 0 <= claim_end claim <= u32_max ->
  Z.of_nat (length (delivered reads)) < u64_max ->
  exists r, validate blake3 to_hex cancel claim metadata reads = Some r /\
    ((r = Err Cancelled /\ exists n, cancel n = true) \/
     match metadata, read_all reads with
     | None, _ => r = Err Io
     | Some false, _ => r = Err NotRegular
     | Some true, None => exists e, r = Err e
     | Some true, Some src => r = reference blake3 to_hex claim src
     end).
Proof.
  intros Hs He Hsize. unfold validate.
  destruct (check_cases cancel 0) as [-> |[-> Hc]]; cbn [obind]; [|eauto].
  destruct metadata as [[]|]; [|eauto..].
  destruct (check_source_spec cancel claim reads 1 Hs He Hsize) as [[-> Hc]|[(e & -> & Hr)|(src & Hr & H)]];
    cbv zeta in *; cbn [obind] in *.
  - eauto.
  - exists (Err e). rewrite Hr. eauto.
  - rewrite Hr. eauto.
Qed.
End Exact.

(** ** An instance *)

(** The tables on ASCII and sigma, with the apostrophe case-ignorable. *)
#[local] Instance ascii_case : UnicodeCase := {
  cased c := is_ascii_alphabetic c || bool_decide (c ∈ [SIGMA; SMALL_SIGMA; FINAL_SIGMA]);
  case_ignorable c := (c =? 39) || (c =? 46);
  to_lower c := [if is_ascii_uppercase c then c + 32 else if c =? SIGMA then SMALL_SIGMA else c];
}.

#[local] Instance ascii_case_laws : UnicodeCaseLaws ascii_case.
Proof. split; try (split; reflexivity); try reflexivity. intros c. discriminate. Qed.

Definition example_claim : CitationClaim := {|
  claim_file := lit "a.rs"; claim_description := lit "See" ++ [10] ++ lit "```rust" ++ [10] ++
    lit "fn Vuln() {}" ++ [10] ++ lit "```" ++ [10];
  claim_start := 2; claim_end := 2 |}.

Definition example_reads : list Read :=
  [Chunk (lit "use x;" ++ [10] ++ lit "  fn Vu"); Chunk (lit "ln() {}" ++ [13; 10] ++ as_bytes [65; SIGMA; 33])].

Lemma citations_are_exact_witness :
  validate (fun bs => bs) (fun bs => bs) (fun _ => false) example_claim (Some true) example_reads =
  Some (Ok (as_bytes (lit "llm-code-review") ++ [0] ++ lit "a.rs" ++ [0] ++
            lit "use x;" ++ [10] ++ lit "fn vuln() {}" ++ [10] ++ as_bytes [97; FINAL_SIGMA; 33])).
Proof.
  destruct (citations_are_exact (fun bs => bs) (fun bs => bs) (fun _ => false) example_claim (Some true)
              example_reads) as (r & -> & [[_ [n Hn]]|H]).
  - cbn. unfold u32_max. lia.
  - cbn. unfold u32_max. lia.
  - vm_compute. reflexivity.
  - discriminate.
  - rewrite H. vm_compute. reflexivity.
Defined.
