(* ===== verification/Canary.v ===== *)
(** * The canary and the quarantine of a job

    [loupe-worker/src/canary.rs] and [canary/observe.rs].  Every job of a worker
    carries a fake credential, and watches the real ones; a record of the
    sandbox that contains one, verbatim or inside a JSON string in whatever
    spelling, puts the job in quarantine, after which no brokered operation is
    admitted.  The observer is not a JSON parser: it reads runs of decoded
    characters and resumes after what it cannot decode. *)

From S2P Require Import Prelude JsonString Text Utf8 Citation.
From Stdlib Require Import ZArith Lia.
From stdpp Require Import base sets list option numbers strings.
Local Open Scope Z_scope.

(** ** [canary/observe.rs] *)

(** [hex_unit]: the value when all four bytes are digits, and what is left; a
    quote or a backslash is not consumed. *)
Fixpoint hex_loop (n : nat) (record : list Z) (value : Z) (valid : bool) : option Z * list Z :=
  match n with
  | O => (if valid then Some value else None, record)
  | S n =>
      match record with
      | [] => (None, [])
      | byte :: rest =>
          if (byte =? 34) || (byte =? 92) then (None, record)
          else match to_digit16 byte with
               | Some digit => hex_loop n rest (value * 16 + digit) valid
               | None => hex_loop n rest value false
               end
      end
  end.
Definition hex_unit (record : list Z) : option Z * list Z := hex_loop 4 record 0 true.

(** The branch of [unit] after [\u]. *)
Definition unicode_unit (record : list Z) : option Z * list Z :=
  match hex_unit record with
  | (None, rest) => (None, rest)
  | (Some scalar, rest) =>
      if (55296 <=? scalar) && (scalar <=? 56319) then
        match rest with
        | 92 :: 117 :: next =>
            match hex_unit next with
            | (Some low, next) =>
                if negb ((56320 <=? low) && (low <=? 57343)) then (None, rest)
                else (char_from_u32 (65536 + Z.shiftl (scalar - 55296) 10 + low - 56320), next)
            | (None, _) => (None, rest)
            end
        | _ => (None, rest)
        end
      else (char_from_u32 scalar, rest)
  end.

(** [unit]: one decoded character, if there is one, and what is left. *)
Definition unit_ (record : list Z) : option Z * list Z :=
  match record with
  | [] => (None, [])
  | byte :: rest =>
      if negb (byte =? 92) then
        if is_ascii byte then (if 32 <=? byte then Some byte else None, rest)
        else
          match lead_width byte with
          | None => (None, rest)
          | Some width =>
              match slice record 0 width with
              | None => (None, rest)
              | Some bytes =>
                  match from_utf8 bytes with
                  | Some (ch :: _) => (Some ch, drop width record)
                  | _ => (None, rest)
                  end
              end
          end
      else
        match rest with
        | [] => (None, [])
        | escaped :: rest =>
            if escaped =? 34 then (Some 34, rest)
            else if escaped =? 92 then (Some 92, rest)
            else if escaped =? 47 then (Some 47, rest)
            else if escaped =? 98 then (Some 8, rest)
            else if escaped =? 102 then (Some 12, rest)
            else if escaped =? 110 then (Some 10, rest)
            else if escaped =? 114 then (Some 13, rest)
            else if escaped =? 116 then (Some 9, rest)
            else if escaped =? 117 then unicode_unit rest
            else (None, rest)
        end
  end.

Section Contains.
Context {A : Type} (matches : list Z -> option A).

(** The loop inside a string: a match, or what is left and the open run.
    [None] is an exhausted bound. *)
Fixpoint string_loop (fuel : nat) (record run : list Z) : option (A + list Z * list Z) :=
  match record with
  | [] => Some (inr ([], run))
  | byte :: rest =>
      if byte =? 34 then Some (inr (rest, run))
      else
        match fuel with
        | O => None
        | S fuel =>
            match unit_ record with
            | (Some ch, rest) => string_loop fuel rest (run ++ utf8_char ch)
            | (None, rest) =>
                match matches run with
                | Some a => Some (inl a)
                | None => string_loop fuel rest []
                end
            end
        end
  end.

(** The loop over the record. *)
Fixpoint record_loop (fuel : nat) (record : list Z) : option (option A) :=
  match fuel with
  | O => match record with [] => Some None | _ => None end
  | S fuel =>
      match record with
      | [] => Some None
      | byte :: rest =>
          if negb (byte =? 34) then record_loop fuel rest
          else
            match string_loop (length rest) rest [] with
            | None => None
            | Some (inl a) => Some (Some a)
            | Some (inr (rest, run)) =>
                match matches run with
                | Some a => Some (Some a)
                | None => record_loop fuel rest
                end
            end
      end
  end.

(** [contains]: the answer of the callback that stopped it, if one did. *)
Definition contains (record : list Z) : option (option A) :=
  match matches record with
  | Some a => Some (Some a)
  | None => record_loop (length record) record
  end.
End Contains.

(** ** [canary.rs] *)

Inductive SecretCategory := Canary | HostCredential.
Inductive Broker := Model | Mcp.
Inductive Operation :=
| Authenticate | RequireAdmin | RequireWorker | Heartbeat | SubmitFindings | SubmitLlmFinding | SubmitVerdict
| CompleteJob | SearchFindings | ReadFinding | ModelRequest | McpSubmitFinding | McpSubmitVerdict
| McpSubmitPatch.
Inductive JobQuarantined := JobQuarantinedError.

(** [slice::windows] for a nonzero length *)
Definition windows (n : nat) (s : list Z) : list (list Z) :=
  (fun i => take n (drop i s)) <$> seq 0 (length s + 1 - n).

Definition contains_bytes (candidate needle : list Z) : bool :=
  negb (str_is_empty needle) &&
  existsb (fun window => bool_decide (window = needle)) (windows (length needle) candidate).

(** [CanaryFile::new]: the key of a seed, and the file published with it. *)
Definition hex_digit (n : Z) : Z := if n <? 10 then 48 + n else 87 + n.
Definition encode_seed (seed : list Z) : str :=
  seed ≫= fun byte => [hex_digit (Z.shiftr byte 4); hex_digit (Z.land byte 15)].
Definition QUOTE : str := [34].
Definition credentials_json (key : str) : list Z :=
  lit "{" ++ QUOTE ++ lit "provider" ++ QUOTE ++ lit ":" ++ QUOTE ++ lit "loupe-test" ++ QUOTE ++ lit "," ++
  QUOTE ++ lit "api_key" ++ QUOTE ++ lit ":" ++ QUOTE ++ as_bytes key ++ QUOTE ++ lit "}" ++ [10].

(** The events a job emits. *)
Inductive SecurityEvent :=
| CanaryHit (broker : Broker) (category : SecretCategory)
| CapabilityDenied (operation : Operation).

Record JobSecurity := {
  quarantined : bool;
  cancelled : bool;
  key : str;
  watches : list str;
  events : list SecurityEvent;
}.

Definition job_security (seed : list Z) (watches : list str) : JobSecurity :=
  {| quarantined := false; cancelled := false; key := encode_seed seed; watches := watches; events := [] |}.

(** The callback of [observe]; [CredentialWatch::matches] compares bytes. *)
Definition secret_of (job : JobSecurity) (run : list Z) : option SecretCategory :=
  if contains_bytes run (as_bytes (key job)) then Some Canary
  else if existsb (fun watch => contains_bytes run (as_bytes watch)) (watches job) then Some HostCredential
  else None.

Definition emit (job : JobSecurity) (event : SecurityEvent) : JobSecurity :=
  {| quarantined := quarantined job; cancelled := cancelled job; key := key job; watches := watches job;
     events := events job ++ [event] |}.

(** [JobSecurity::observe]; [None] only if the scan had run out of its bound. *)
Definition observe (job : JobSecurity) (record : list Z) (broker : Broker) : option (bool * JobSecurity) :=
  match contains (secret_of job) record with
  | None => None
  | Some None => Some (false, job)
  | Some (Some category) =>
      Some (true,
        if quarantined job then job
        else emit {| quarantined := true; cancelled := true; key := key job; watches := watches job;
                     events := events job |} (CanaryHit broker category))
  end.

Definition admit_operation (job : JobSecurity) (operation : Operation) : result JobQuarantined unit * JobSecurity :=
  if quarantined job then (Err JobQuarantinedError, emit job (CapabilityDenied operation))
  else (Ok tt, job).

(** Observations of the other sessions of the job, in their order. *)
Fixpoint observe_all (job : JobSecurity) (records : list (list Z * Broker)) : option JobSecurity :=
  match records with
  | [] => Some job
  | (record, broker) :: records =>
      match observe job record broker with
      | None => None
      | Some (_, job) => observe_all job records
      end
  end.

(** [JobSecurity::run]: [during] is what other sessions observe while [work]
    is pending; a published hit cancels it. *)
Definition run {T E} (job : JobSecurity) (operation : Operation) (during : list (list Z * Broker))
    (work : result E T) : option (result (JobQuarantined + E) T * JobSecurity) :=
  match admit_operation job operation with
  | (Err e, job) => Some (Err (inl e), job)
  | (Ok _, job) =>
      match observe_all job during with
      | None => None
      | Some job =>
          if cancelled job then Some (Err (inl JobQuarantinedError), job)
          else
            match admit_operation job operation with
            | (Err e, job) => Some (Err (inl e), job)
            | (Ok _, job) => Some (match work with Ok t => Ok t | Err e => Err (inr e) end, job)
            end
      end
  end.
