(* ===== verification/CanaryTheorems.v ===== *)
(** * What the canary catches

    The observer of [Canary.v] always ends; on a record whose strings are JSON
    strings it compares the record itself and exactly the texts of its strings;
    and a job whose sessions let one secret through is in quarantine from then
    on. *)

From S2P Require Import Prelude JsonString Text Utf8 Citation Canary.
From Stdlib Require Import ZArith Lia.
From stdpp Require Import base sets list option numbers strings.
Local Open Scope Z_scope.

(** ** Termination *)

Lemma hex_loop_shorter n record value valid : (length (hex_loop n record value valid).2 <= length record)%nat.
Proof.
  revert record value valid. induction n as [|n IH]; intros [|b record] value valid; cbn [hex_loop]; cbn; try lia.
  destruct (_ || _); cbn; [lia|]. destruct (to_digit16 b); (etrans; [apply IH|lia]).
Qed.

Lemma unicode_unit_shorter record : (length (unicode_unit record).2 <= length record)%nat.
Proof.
  unfold unicode_unit. pose proof (hex_loop_shorter 4 record 0 true) as H. fold (hex_unit record) in H.
  destruct (hex_unit record) as [[scalar|] rest]; cbn in H; [|exact H].
  destruct (_ && _); [|exact H].
  destruct rest as [|x [|y next]]; [exact H|destruct x; exact H || (repeat (destruct p; try exact H))|].
  pose proof (hex_loop_shorter 4 next 0 true) as H2. fold (hex_unit next) in H2.
  destruct (hex_unit next) as [[low|] next']; cbn in H2.
  - destruct (Z.eq_dec x 92) as [->|Hx]; [destruct (Z.eq_dec y 117) as [->|Hy]|].
    + destruct (negb _); cbn in *; lia.
    + repeat case_match; simplify_eq; cbn in *; lia.
    + repeat case_match; simplify_eq; cbn in *; lia.
  - repeat case_match; simplify_eq; cbn in *; lia.
Qed.

Lemma unit_shorter b t : (length (unit_ (b :: t)).2 <= length t)%nat.
Proof.
  cbn [unit_]. destruct (negb (b =? 92)).
  - destruct (is_ascii b); [cbn; lia|]. destruct (lead_width b) as [w|] eqn:Hw; [|cbn; lia].
    assert (1 <= w)%nat by (unfold lead_width in Hw; repeat case_match; simplify_eq; lia).
    destruct (slice (b :: t) 0 w); [|cbn; lia]. destruct (from_utf8 l) as [[|]|]; cbn; try lia.
    rewrite length_drop. simpl. lia.
  - destruct t as [|e t]; [cbn; lia|]. pose proof (unicode_unit_shorter t).
    repeat (destruct (_ =? _); [cbn; lia|]). cbn; lia.
Qed.

Section Total.
Context {A : Type} (matches : list Z -> option A).

Lemma string_loop_total fuel record run : (length record <= fuel)%nat ->
  exists r, string_loop matches fuel record run = Some r /\
    match r with inr (rest, _) => (length rest <= length record)%nat | inl _ => True end.
Proof.
  revert record run. induction fuel as [|fuel IH]; intros [|b t] run Hf; cbn [string_loop].
  - eexists. split; [reflexivity|]. cbn. lia.
  - simpl in Hf. lia.
  - eexists. split; [reflexivity|]. cbn. lia.
  - destruct (b =? 34); [eexists; split; [reflexivity|cbn; lia]|].
    pose proof (unit_shorter b t) as Hs. destruct (unit_ (b :: t)) as [[ch|] rest]; cbn in Hs, Hf.
    + destruct (IH rest (run ++ utf8_char ch) ltac:(lia)) as ([a|[rest' run']] & -> & Hr);
        eexists; (split; [reflexivity|]); cbn in *; auto; lia.
    + destruct (matches run); [eexists; split; [reflexivity|exact I]|].
      destruct (IH rest [] ltac:(lia)) as ([a|[rest' run']] & -> & Hr);
        eexists; (split; [reflexivity|]); cbn in *; auto; lia.
Qed.

Lemma record_loop_total fuel record : (length record <= fuel)%nat -> is_Some (record_loop matches fuel record).
Proof.
  revert record. induction fuel as [|fuel IH]; intros [|b t] Hf; cbn [record_loop]; try (eexists; reflexivity).
  { simpl in Hf. lia. }
  simpl in Hf. destruct (negb (b =? 34)); [apply IH; lia|].
  destruct (string_loop_total (length t) t [] ltac:(lia)) as ([a|[rest run]] & -> & Hr); [eexists; reflexivity|].
  destruct (matches run); [eexists; reflexivity|]. apply IH. lia.
Qed.

(** The observer always ends. *)
Lemma contains_total record : is_Some (contains matches record).
Proof. unfold contains. destruct (matches record); [eexists; reflexivity|]. apply record_loop_total. lia. Qed.
End Total.

(** ** Records with JSON strings *)

(** A record and the texts of its strings: outside of strings any byte but a
    quote, inside characters of the JSON grammar in UTF-8. *)
Inductive document : list Z -> list str -> Prop :=
| document_end : document [] []
| document_byte b rest texts : b <> 34 -> document rest texts -> document (b :: rest) texts
| document_string body text rest texts :
    json_chars body text -> Forall (fun c => Utf8.scalar c = true) body -> document rest texts ->
    document (34 :: as_bytes body ++ 34 :: rest) (text :: texts).

Lemma unit_plain c rest : Utf8.scalar c = true -> 32 <= c -> c <> 34 -> c <> 92 ->
  unit_ (utf8_char c ++ rest) = (Some c, rest) /\ exists b t, utf8_char c = b :: t /\ b <> 34.
Proof.
  intros Hs H32 H34 H92.
  assert (Hc : 0 <= c < 1114112) by (unfold Utf8.scalar in Hs; lia).
  destruct (Z.lt_ge_cases c 128) as [Hlt|Hge].
  { rewrite (utf8_char_eq c Hc). replace (c <? 128) with true by lia. split; [|eauto].
    cbn -[Z.leb]. unfold is_ascii. replace (c =? 92) with false by lia. cbn [negb].
    replace ((0 <=? c) && (c <=? 127)) with true by lia. replace (32 <=? c) with true by lia. reflexivity. }
  assert (Hlead : exists b t, utf8_char c = b :: t /\ lead_width b = Some (length (utf8_char c)) /\ 128 <= b).
  { rewrite (utf8_char_eq c Hc). replace (c <? 128) with false by lia. unfold lead_width.
    destruct (c <? 2048) eqn:E2; [|destruct (c <? 65536) eqn:E3]; bool_prop; eexists _, _;
      (split; [reflexivity|]); cbn [length]; case_tests;
      first [split; [reflexivity|Z.to_euclidean_division_equations; lia]
            |exfalso; bool_prop; Z.to_euclidean_division_equations; lia]. }
  destruct Hlead as (b & t & Hb & Hw & H128). split; [|exists b, t; split; [exact Hb|lia]].
  pose proof (from_utf8_char c [] Hs) as Hd. rewrite app_nil_r in Hd. cbn [from_utf8 fmap option_fmap option_map] in Hd.
  pose proof (slice_app [] (utf8_char c) rest) as Hsl. cbn [length app Nat.add] in Hsl.
  rewrite Hb in *. cbn [app] in *. cbn [unit_]. unfold is_ascii.
  replace (b =? 92) with false by lia. replace (b <=? 127) with false by lia. rewrite andb_false_r.
  cbn [negb]. rewrite Hw, Hsl, Hd. f_equal. rewrite app_comm_cons. apply drop_app_length.
Qed.

Lemma ascii_bytes s : Forall (fun c => 0 <= c < 128) s -> as_bytes s = s.
Proof.
  induction 1 as [|c s Hc _ IH]; [reflexivity|]. change (as_bytes (c :: s)) with (utf8_char c ++ as_bytes s).
  rewrite IH, utf8_char_eq by lia. replace (c <? 128) with true by lia. reflexivity.
Qed.

Lemma to_digit16_ascii c d : to_digit16 c = Some d -> 48 <= c <= 102 /\ c <> 92.
Proof. unfold to_digit16. intros H. repeat case_match; bool_prop; simplify_eq; lia. Qed.

Lemma hex_unit_quad q n rest : hex4 q n -> hex_unit (q ++ rest) = (Some n, rest).
Proof.
  intros (a & b & c & d & x & y & z & w & -> & Ha & Hb & Hc & Hd & ->). unfold hex_unit.
  assert (Hq : forall e v, to_digit16 e = Some v -> (e =? 34) || (e =? 92) = false)
    by (intros e v H; apply to_digit16_ascii in H; lia).
  cbn [app hex_loop]. rewrite (Hq _ _ Ha), Ha, (Hq _ _ Hb), Hb, (Hq _ _ Hc), Hc, (Hq _ _ Hd), Hd.
  reflexivity.
Qed.

Lemma hex4_ascii q n : hex4 q n -> Forall (fun c => 0 <= c < 128) q.
Proof.
  intros (a & b & c & d & x & y & z & w & -> & Ha & Hb & Hc & Hd & _).
  repeat constructor; match goal with H : to_digit16 ?e = _ |- context [?e] => apply to_digit16_ascii in H; lia end.
Qed.

(** The observer decodes each spelling of a character as the grammar does. *)
Lemma unit_json token c rest : json_char token c -> Forall (fun c => Utf8.scalar c = true) token ->
  unit_ (as_bytes token ++ rest) = (Some c, rest) /\ exists b t, as_bytes token = b :: t /\ b <> 34.
Proof.
  intros H Hs. inversion H as [c' H32 H34 H92|e c' He|q n Hq Hn|q1 q2 high low Hq1 Hq2 Hh Hl]; subst.
  - inversion_clear Hs as [|? ? Hc _]. cbn [as_bytes mbind list_bind]. rewrite app_nil_r.
    apply unit_plain; assumption.
  - unfold simple_escapes in He. set_unfold in He.
    repeat match type of He with _ \/ _ => destruct He as [He|He] | False => destruct He end;
      simplify_eq; (split; [reflexivity|eexists _, _; split; [reflexivity|lia]]).
  - rewrite ascii_bytes by (repeat constructor; try lia; exact (hex4_ascii _ _ Hq)).
    split; [|eexists _, _; split; [reflexivity|lia]]. cbn [app unit_ Z.eqb Pos.eqb negb].
    pose proof (hex4_range _ _ Hq). unfold unicode_unit. rewrite (hex_unit_quad _ _ _ Hq).
    replace ((55296 <=? c) && (c <=? 56319)) with false by lia.
    rewrite (proj2 (char_from_u32_Some c c)) by lia. reflexivity.
  - pose proof (hex4_ascii _ _ Hq1). pose proof (hex4_ascii _ _ Hq2).
    rewrite ascii_bytes by (repeat (constructor; [lia|]); apply Forall_app; auto with lia).
    split; [|eexists _, _; split; [reflexivity|lia]]. cbn [app unit_ Z.eqb Pos.eqb negb].
    rewrite <- app_assoc. unfold unicode_unit. rewrite (hex_unit_quad _ _ _ Hq1).
    replace ((55296 <=? high) && (high <=? 56319)) with true by lia. cbn [app].
    rewrite (hex_unit_quad _ _ _ Hq2). replace ((56320 <=? low) && (low <=? 57343)) with true by lia. cbn [negb].
    rewrite Z.shiftl_mul_pow2 by lia. change (2 ^ 10) with 1024.
    rewrite (proj2 (char_from_u32_Some _ _)) by (split; [reflexivity|lia]). f_equal. f_equal. lia.
Qed.

Lemma json_chars_string {A} (matches : list Z -> option A) body text rest fuel acc :
  json_chars body text -> Forall (fun c => Utf8.scalar c = true) body ->
  (length (as_bytes body ++ 34%Z :: rest) <= fuel)%nat ->
  string_loop matches fuel (as_bytes body ++ 34 :: rest) acc = Some (inr (rest, acc ++ as_bytes text)).
Proof.
  intros H. revert fuel acc. induction H as [|token c body text Hj _ IH]; intros fuel acc Hs Hf.
  { cbn. destruct fuel; cbn; rewrite app_nil_r; reflexivity. }
  apply Forall_app in Hs as [Hs1 Hs2]. destruct (unit_json token c (as_bytes body ++ 34 :: rest) Hj Hs1) as
    (Hu & b & t & Hb & H34).
  unfold as_bytes in *. rewrite bind_app, <- app_assoc in Hf |- *. fold (as_bytes token) (as_bytes body) in *.
  rewrite Hb in *. cbn [app] in *. destruct fuel as [|fuel]; [simpl in Hf; lia|].
  cbn [string_loop]. replace (b =? 34) with false by lia. rewrite Hu, IH.
  - cbn [mbind list_bind]. rewrite <- app_assoc. reflexivity.
  - exact Hs2.
  - simpl in Hf. rewrite length_app in Hf. lia.
Qed.

Lemma observer_texts {A} (matches : list Z -> option A) record texts :
  document record texts ->
  contains matches record = Some (head (omap matches (record :: (as_bytes <$> texts)))).
Proof.
  intros H.
  assert (Hloop : forall fuel, (length record <= fuel)%nat ->
    record_loop matches fuel record = Some (head (omap matches (as_bytes <$> texts)))).
  { induction H as [|b rest texts Hb _ IH|body text rest texts Hj Hs _ IH]; intros fuel Hf.
    - destruct fuel; reflexivity.
    - destruct fuel as [|fuel]; [simpl in Hf; lia|]. cbn [record_loop].
      replace (b =? 34) with false by lia. cbn [negb]. apply IH. simpl in Hf. lia.
    - destruct fuel as [|fuel]; [simpl in Hf; lia|]. cbn [record_loop Z.eqb Pos.eqb negb].
      rewrite (json_chars_string matches body text rest _ [] Hj Hs) by lia. cbn [app fmap list_fmap omap list_omap].
      destruct (matches (as_bytes text)); [reflexivity|]. apply IH.
      simpl in Hf. rewrite length_app in Hf. simpl in Hf. lia. }
  unfold contains. cbn [omap list_omap]. destruct (matches record); [reflexivity|]. apply Hloop. lia.
Qed.

(** On a record whose strings are JSON strings in UTF-8, the observer offers
    to its callback the record itself and then, in order, exactly the texts that
    the strings denote, however their characters are spelt, and stops at the
    first one that matches. *)
Theorem observer_reads_every_string {A} (matches : list Z -> option A) record texts :
  document record texts ->
  contains matches record = Some (head (omap matches (record :: (as_bytes <$> texts)))).
Proof. apply observer_texts. Qed.

Lemma observer_reads_every_string_witness :
  contains (fun run => if contains_bytes run (lit "key") then Some tt else None)
    (lit "{" ++ QUOTE ++ lit "a" ++ QUOTE ++ lit ":" ++ QUOTE ++ lit "-\u006b\u0065y" ++ QUOTE ++ lit "}")
  = Some (Some tt).
Proof.
  rewrite (observer_reads_every_string _ _ [lit "a"; lit "-key"]); [reflexivity|].
  cbn [lit QUOTE fmap list_fmap String.list_ascii_of_string app].
  apply document_byte; [discriminate|]. apply (document_string (lit "a") (lit "a")).
  { apply (jcs_cons (lit "a")); [apply jc_plain; vm_compute; discriminate|constructor]. }
  { repeat constructor. }
  apply document_byte; [discriminate|]. apply (document_string (lit "-\u006b\u0065y") (lit "-key")).
  { apply (jcs_cons (lit "-")); [apply jc_plain; vm_compute; discriminate|].
    apply (jcs_cons (lit "\u006b")); [apply (jc_unicode (lit "006b") 107); [|lia]; do 8 eexists; split_and!; reflexivity|].
    apply (jcs_cons (lit "\u0065")); [apply (jc_unicode (lit "0065") 101); [|lia]; do 8 eexists; split_and!; reflexivity|].
    apply (jcs_cons (lit "y")); [apply jc_plain; vm_compute; discriminate|constructor]. }
  { repeat constructor. }
  apply document_byte; [discriminate|]. constructor.
Defined.

(** ** Nothing else is flagged *)

Ltac encoded := rewrite ?point2_eq, ?point3_eq, ?point4_eq in *; unfold Utf8.scalar;
  case_tests; try (exfalso; Z.to_euclidean_division_equations; lia);
  split_and!; try (Z.to_euclidean_division_equations; lia);
  repeat (f_equal; try (Z.to_euclidean_division_equations; lia)).

Lemma point2_encoded b0 b1 : 194 <= b0 <= 223 -> cont b1 = true ->
  let c := point2 b0 b1 in Utf8.scalar c = true /\ 128 <= c /\ utf8_char c = [b0; b1].
Proof. intros H H1. cbv zeta. unfold cont in H1. bool_prop. rewrite utf8_char_eq; encoded. Qed.

Lemma point3_encoded b0 b1 b2 : 224 <= b0 <= 239 -> second3 b0 b1 && cont b2 = true ->
  let c := point3 b0 b1 b2 in Utf8.scalar c = true /\ 128 <= c /\ utf8_char c = [b0; b1; b2].
Proof.
  intros H H1. cbv zeta. unfold second3, cont in H1.
  assert (128 <= b1 <= 191 /\ 128 <= b2 <= 191 /\ (b0 = 224 -> 160 <= b1) /\ (b0 = 237 -> b1 <= 159)) as (B1 & B2 & B3 & B4).
  { destruct (Z.eqb_spec b0 224); [|destruct (Z.eqb_spec b0 237)]; bool_prop; lia. }
  clear H1. rewrite utf8_char_eq; encoded.
Qed.

Lemma point4_encoded b0 b1 b2 b3 : 240 <= b0 <= 244 -> second4 b0 b1 && cont b2 && cont b3 = true ->
  let c := point4 b0 b1 b2 b3 in Utf8.scalar c = true /\ 128 <= c /\ utf8_char c = [b0; b1; b2; b3].
Proof.
  intros H H1. cbv zeta. unfold second4, cont in H1.
  assert (128 <= b1 <= 191 /\ 128 <= b2 <= 191 /\ 128 <= b3 <= 191 /\ (b0 = 240 -> 144 <= b1) /\ (b0 = 244 -> b1 <= 143))
    as (B1 & B2 & B3 & B4 & B5).
  { destruct (Z.eqb_spec b0 240); [|destruct (Z.eqb_spec b0 244)]; bool_prop; lia. }
  clear H1. rewrite utf8_char_eq; encoded.
Qed.

(** A sequence of the length its first byte announces that decodes is the
    encoding of one character. *)
Lemma decoded_lead b t w bytes ch tl : lead_width b = Some w -> slice (b :: t) 0 w = Some bytes ->
  from_utf8 bytes = Some (ch :: tl) ->
  Utf8.scalar ch = true /\ 128 <= ch /\ b :: t = utf8_char ch ++ drop w (b :: t).
Proof.
  intros Hw Hs Hd. unfold slice in Hs. destruct (_ && _) eqn:Hlen; [|done]. rewrite Nat.sub_0_r in Hs.
  change (drop 0 (b :: t)) with (b :: t) in Hs. apply andb_true_iff in Hlen as [_ Hlen%Nat.leb_le].
  apply (inj Some) in Hs. subst bytes.
  enough (Utf8.scalar ch = true /\ 128 <= ch /\ utf8_char ch = take w (b :: t)) as (H1 & H2 & ->)
    by (split_and!; [done..|by rewrite take_drop]).
  unfold lead_width in Hw.
  destruct ((194 <=? b) && (b <=? 223)) eqn:E2; [|destruct ((224 <=? b) && (b <=? 239)) eqn:E3;
    [|destruct ((240 <=? b) && (b <=? 244)) eqn:E4; [|done]]]; injection Hw as <-; cbn [length] in Hlen.
  - destruct t as [|b1 t]; [simpl in Hlen; lia|]. cbn -[Z.leb point2 cont] in Hd.
    rewrite E2 in Hd. replace ((0 <=? b) && (b <=? 127)) with false in Hd by lia.
    destruct (cont b1) eqn:Ec; [|done]. cbn in Hd. injection Hd as <- _. apply point2_encoded; [lia|done].
  - destruct t as [|b1 [|b2 t]]; [simpl in Hlen; lia..|]. cbn -[Z.leb point3 second3 cont] in Hd.
    rewrite E2, E3 in Hd. replace ((0 <=? b) && (b <=? 127)) with false in Hd by lia.
    destruct (second3 b b1 && cont b2) eqn:Ec; [|done]. cbn in Hd. injection Hd as <- _. apply point3_encoded; [lia|done].
  - destruct t as [|b1 [|b2 [|b3 t]]]; [simpl in Hlen; lia..|]. cbn -[Z.leb point4 second4 cont] in Hd.
    rewrite E2, E3, E4 in Hd. replace ((0 <=? b) && (b <=? 127)) with false in Hd by lia.
    destruct (second4 b b1 && cont b2 && cont b3) eqn:Ec; [|done]. cbn in Hd. injection Hd as <- _.
    apply point4_encoded; [lia|done].
Qed.

Lemma hex_unit_inv record n rest : hex_unit record = (Some n, rest) -> exists q, hex4 q n /\ record = q ++ rest.
Proof.
  assert (forall m r v, (hex_loop m r v false).1 = None) as Hbad.
  { induction m as [|m IH]; intros [|b r] v; cbn [hex_loop]; try done. destruct (_ || _); [done|]. destruct (to_digit16 b); apply IH. }
  unfold hex_unit. intros H.
  assert (forall m r v, hex_loop (S m) r v true = (Some n, rest) -> exists b t d, r = b :: t /\ to_digit16 b = Some d /\
    hex_loop m t (v * 16 + d) true = (Some n, rest)) as Hstep.
  { intros m [|b t] v Hs; cbn [hex_loop] in Hs; [done|]. destruct (_ || _); [done|]. destruct (to_digit16 b) as [d|] eqn:Hd; [by eexists _, _, _|].
    pose proof (Hbad m t v) as Hb. by rewrite Hs in Hb. }
  apply Hstep in H as (a & t1 & x & -> & Ha & H). apply Hstep in H as (b & t2 & y & -> & Hb & H).
  apply Hstep in H as (c & t3 & z & -> & Hc & H). apply Hstep in H as (d & t4 & w & -> & Hd & H).
  cbn in H. injection H as <- <-. exists [a; b; c; d]. split; [|done]. by do 8 eexists; split_and!.
Qed.

Lemma unicode_sound t ch rest : unicode_unit t = (Some ch, rest) ->
  exists q, json_char (92 :: 117 :: q) ch /\ Forall (fun c => 0 <= c < 128) q /\ t = q ++ rest.
Proof.
  unfold unicode_unit. destruct (hex_unit t) as [[n|] r] eqn:Hn; [|done]. apply hex_unit_inv in Hn as (q & Hq & ->).
  pose proof (hex4_ascii _ _ Hq) as Ha. destruct ((55296 <=? n) && (n <=? 56319)) eqn:Hs.
  - assert (forall x, (None, r) = (Some ch, rest) -> x) as Hno by done.
    destruct r as [|x [|y next]]; [done|repeat case_match; done|].
    destruct (Z.eq_dec x 92) as [->|]; [|repeat case_match; simplify_eq; done].
    destruct (Z.eq_dec y 117) as [->|]; [|repeat case_match; simplify_eq; done].
    destruct (hex_unit next) as [[low|] next'] eqn:Hl; [|done]. apply hex_unit_inv in Hl as (q2 & Hq2 & ->).
    destruct (negb _) eqn:Hrange; [done|]. apply negb_false_iff in Hrange.
    intros H. rewrite pair_equal_spec in H. destruct H as [Hc <-]. apply char_from_u32_Some in Hc as (-> & _).
    exists (q ++ 92 :: 117 :: q2). split; [|split].
    + rewrite Z.shiftl_mul_pow2 by lia. change (2 ^ 10) with 1024.
      replace (65536 + (n - 55296) * 1024 + low - 56320) with ((n - 55296) * 1024 + (low - 56320) + 65536) by lia.
      apply jc_pair; [done|done|lia..].
    + apply Forall_app. split; [done|]. repeat (constructor; [lia|]). by eapply hex4_ascii.
    + by rewrite <- app_assoc.
  - intros H. rewrite pair_equal_spec in H. destruct H as [Hc <-]. apply char_from_u32_Some in Hc as (-> & _ & Hn).
    exists q. split; [by apply jc_unicode|]. by split.
Qed.

(** What the observer decodes is a character of the JSON grammar in UTF-8. *)
Lemma unit_sound b t ch rest : b <> 34 -> unit_ (b :: t) = (Some ch, rest) ->
  exists token, json_char token ch /\ Forall (fun c => Utf8.scalar c = true) token /\ b :: t = as_bytes token ++ rest.
Proof.
  intros H34 H. cbn [unit_] in H. destruct (Z.eqb_spec b 92) as [->|H92]; cbn [negb] in H.
  - destruct t as [|e t]; [done|].
    assert (Hesc : forall c, (e, c) ∈ simple_escapes -> (Some c, t) = (Some ch, rest) -> exists token, json_char token ch /\
      Forall (fun c => Utf8.scalar c = true) token /\ 92 :: e :: t = as_bytes token ++ rest).
    { intros c Hin Hc. injection Hc as -> ->. exists [92; e]. split; [by apply jc_escape|].
      assert (0 <= e < 128) by (unfold simple_escapes in Hin; set_unfold in Hin; repeat (destruct Hin as [Hin|Hin]; [injection Hin; lia|]); done).
      rewrite ascii_bytes by (repeat constructor; lia). split; [|done]. repeat constructor. unfold Utf8.scalar. lia. }
    repeat match type of H with (if ?e =? ?n then _ else _) = _ =>
      destruct (Z.eqb_spec e n) as [->|]; [first [by refine (Hesc _ _ H); unfold simple_escapes; set_solver|idtac]|] end; [|done].
    apply unicode_sound in H as (q & Hj & Hq & ->). exists (92 :: 117 :: q). split; [done|].
    rewrite ascii_bytes by (repeat (constructor; [lia|]); done). split; [|done].
    repeat (constructor; [unfold Utf8.scalar; lia|]). eapply Forall_impl; [exact Hq|]. intros c Hc. cbn in Hc. unfold Utf8.scalar. lia.
  - destruct (is_ascii b) eqn:Ea; unfold is_ascii in Ea.
    + destruct (Z.leb_spec 32 b); [|done]. injection H as <- <-. exists [b]. split; [by apply jc_plain|].
      rewrite ascii_bytes by (repeat constructor; lia). split; [|done]. repeat constructor. unfold Utf8.scalar. lia.
    + destruct (lead_width b) as [w|] eqn:Hw; [|done]. destruct (slice (b :: t) 0 w) as [bytes|] eqn:Hs; [|done].
      destruct (from_utf8 bytes) as [[|c tl]|] eqn:Hd; try done.
      destruct (decoded_lead b t w bytes c tl Hw Hs Hd) as (Hsc & H128 & He).
      rewrite pair_equal_spec in H. destruct H as [[= ->] <-]. exists [ch]. split; [apply jc_plain; lia|].
      split; [by repeat constructor|]. unfold as_bytes. cbn [mbind list_bind]. by rewrite app_nil_r.
Qed.

Lemma hex_loop_suffix n r v valid : exists l, r = l ++ (hex_loop n r v valid).2.
Proof.
  revert r v valid. induction n as [|n IH]; intros [|b r] v valid; cbn [hex_loop]; try by exists [].
  destruct (_ || _); [by exists []|]. destruct (to_digit16 b) as [d|]; [destruct (IH r (v * 16 + d) valid) as [l Hl]|
    destruct (IH r v false) as [l Hl]]; exists (b :: l); by rewrite Hl at 1.
Qed.

Lemma unicode_suffix t : exists l, t = l ++ (unicode_unit t).2.
Proof.
  destruct (unicode_unit t) as [[ch|] rest] eqn:Hu; cbn [snd].
  { apply unicode_sound in Hu as (q & _ & _ & ->). by exists q. }
  unfold unicode_unit in Hu. destruct (hex_loop_suffix 4 t 0 true) as [l Hl]. fold (hex_unit t) in Hl.
  destruct (hex_unit t) as [[n|] r]; cbn in Hl; [|injection Hu as <-; by exists l].
  assert (rest = r \/ exists next low, hex_unit next = (Some low, rest) /\ r = 92 :: 117 :: next) as [->|(next & low & Hn & ->)].
  { destruct (_ && _); [|injection Hu; auto].
    destruct r as [|x [|y next]]; [injection Hu; auto|left; repeat case_match; by simplify_eq|].
    destruct (Z.eq_dec x 92) as [->|]; [|left; repeat case_match; by simplify_eq].
    destruct (Z.eq_dec y 117) as [->|]; [|left; repeat case_match; by simplify_eq].
    destruct (hex_unit next) as [[low|] next'] eqn:Hl2; [|injection Hu; auto].
    destruct (negb _); [injection Hu; auto|]. rewrite pair_equal_spec in Hu. destruct Hu as [_ <-]. right. eauto. }
  - by exists l.
  - apply hex_unit_inv in Hn as (q & _ & ->). exists (l ++ 92 :: 117 :: q). rewrite Hl. by rewrite <- app_assoc.
Qed.

Lemma unit_suffix b t : exists l, b :: t = l ++ (unit_ (b :: t)).2.
Proof.
  cbn [unit_]. destruct (negb (b =? 92)).
  - destruct (is_ascii b); [by exists [b]|]. destruct (lead_width b) as [w|]; [|by exists [b]].
    destruct (slice (b :: t) 0 w) as [bytes|]; [|by exists [b]]. destruct (from_utf8 bytes) as [[|c tl]|]; [by exists [b]| |by exists [b]].
    exists (take w (b :: t)). cbn [snd]. by rewrite take_drop.
  - destruct t as [|e t]; [by exists [b]|]. repeat (destruct (e =? _); [by exists [b; e]|]).
    destruct (e =? 117); [|by exists [b; e]]. destruct (unicode_suffix t) as [l Hl]. exists (b :: e :: l). by rewrite Hl at 1.
Qed.

(** A run of characters that [whole] spells somewhere. *)
Definition spelt (whole run : list Z) : Prop :=
  exists pre body text post, whole = pre ++ as_bytes body ++ post /\ json_chars body text /\
    Forall (fun c => Utf8.scalar c = true) body /\ run = as_bytes text.

Lemma spelt_bytes_app a b : as_bytes (a ++ b) = as_bytes a ++ as_bytes b.
Proof. apply bind_app. Qed.

Lemma json_chars_snoc body text token c : json_chars body text -> json_char token c -> json_chars (body ++ token) (text ++ [c]).
Proof.
  intros H Hc. induction H as [|tk x rest s Hj _ IH]; cbn [app].
  - rewrite <- (app_nil_r token). apply (jcs_cons token c [] []); [done|constructor].
  - rewrite <- app_assoc. by constructor.
Qed.

Section Sound.
Context {A : Type} (matches : list Z -> option A) (whole : list Z).

Lemma string_loop_sound fuel : forall record pre body text r,
  whole = pre ++ as_bytes body ++ record -> json_chars body text -> Forall (fun c => Utf8.scalar c = true) body ->
  string_loop matches fuel record (as_bytes text) = Some r ->
  match r with
  | inl a => exists run, matches run = Some a /\ spelt whole run
  | inr (rest, run) => spelt whole run /\ exists pre', whole = pre' ++ rest
  end.
Proof.
  induction fuel as [|fuel IH]; intros [|b t] pre body text r Hw Hj Hs; cbn [string_loop];
    try (intros [= <-]; split; [by exists pre, body, text, []|by exists (pre ++ as_bytes body); rewrite <- app_assoc]).
  - destruct (b =? 34); [|done].
    intros [= <-]. split; [by exists pre, body, text, (b :: t)|]. exists (pre ++ as_bytes body ++ [b]). by rewrite <- !app_assoc.
  - destruct (Z.eqb_spec b 34) as [->|H34].
    { intros [= <-]. split; [by exists pre, body, text, (34 :: t)|]. exists (pre ++ as_bytes body ++ [34]). by rewrite <- !app_assoc. }
    destruct (unit_ (b :: t)) as [[ch|] rest] eqn:Hu.
    + destruct (unit_sound b t ch rest H34 Hu) as (token & Hc & Hsc & He).
      replace (as_bytes text ++ utf8_char ch) with (as_bytes (text ++ [ch]))
        by (rewrite spelt_bytes_app; f_equal; unfold as_bytes; cbn; by rewrite app_nil_r).
      apply (IH rest pre (body ++ token)); [|by apply json_chars_snoc|by apply Forall_app].
      rewrite spelt_bytes_app, <- app_assoc, <- He. done.
    + destruct (matches (as_bytes text)) as [a|] eqn:Hm.
      { intros [= <-]. exists (as_bytes text). split; [done|]. by exists pre, body, text, (b :: t). }
      destruct (unit_suffix b t) as [l Hl]. rewrite Hu in Hl. cbn in Hl.
      apply (IH rest (pre ++ as_bytes body ++ l) [] []); [|constructor..].
      rewrite Hw, Hl. cbn. by rewrite <- !app_assoc.
Qed.

Lemma record_loop_sound fuel : forall record pre a, whole = pre ++ record ->
  record_loop matches fuel record = Some (Some a) -> exists run, matches run = Some a /\ spelt whole run.
Proof.
  induction fuel as [|fuel IH]; intros [|b t] pre a Hw; cbn [record_loop]; try done.
  destruct (negb (b =? 34)); [apply (IH t (pre ++ [b])); by rewrite <- app_assoc|].
  destruct (string_loop matches (length t) t []) as [r|] eqn:Hs; [|done].
  apply (string_loop_sound (length t) t (pre ++ [b]) [] [] r) in Hs; [|by rewrite <- app_assoc|constructor..].
  destruct r as [a'|[rest run]]; [intros [= ->]; exact Hs|]. destruct Hs as [Hrun (pre' & Hpre)].
  destruct (matches run) as [a'|] eqn:Hm; [intros [= ->]; eauto|]. by apply IH with pre'.
Qed.
End Sound.

(** What stops the observer is the record itself or a run that it spells. *)
Lemma contains_sound {A} (matches : list Z -> option A) record a :
  contains matches record = Some (Some a) ->
  matches record = Some a \/ exists run, matches run = Some a /\ spelt record run.
Proof.
  unfold contains. destruct (matches record) as [a'|]; [intros [= ->]; by left|].
  intros H. right. by apply (record_loop_sound matches record (length record) record [] a).
Qed.

(** ** Secrets *)

Lemma contains_bytes_true s needle :
  contains_bytes s needle = true <-> needle <> [] /\ exists u v, s = u ++ needle ++ v.
Proof.
  unfold contains_bytes, windows. rewrite andb_true_iff, negb_true_iff, str_is_empty_false, existsb_exists.
  apply and_iff_compat_l. split.
  - intros (w & Hw & Hb). apply bool_decide_eq_true in Hb. subst w.
    apply list_elem_of_In, list_elem_of_fmap in Hw as (i & Hi & _).
    exists (take i s), (drop (length needle) (drop i s)). 
    rewrite <- (take_drop i s) at 1. f_equal.
    rewrite <- (take_drop (length needle) (drop i s)) at 1. f_equal. symmetry. exact Hi.
  - intros (u & v & ->). exists needle. split; [|by apply bool_decide_eq_true].
    apply list_elem_of_In, list_elem_of_fmap. exists (length u).
    rewrite drop_app_length, take_app_length. split; [reflexivity|]. apply elem_of_seq. rewrite !length_app. lia.
Qed.

(** The secrets of a job, as bytes. *)
Definition secrets (job : JobSecurity) : list (list Z) := as_bytes <$> key job :: watches job.

Lemma secret_of_Some job run :
  is_Some (secret_of job run) <-> exists s, s ∈ secrets job /\ contains_bytes run s = true.
Proof.
  unfold secret_of, secrets. cbn [fmap list_fmap]. split.
  - destruct (contains_bytes run (as_bytes (key job))) eqn:H; [intros _; exists (as_bytes (key job)); set_solver|].
    destruct (existsb _ _) eqn:He; [|intros [? [=]]]. intros _. apply existsb_exists in He as (w & Hw & Hc).
    apply list_elem_of_In in Hw. exists (as_bytes w). split; [|exact Hc]. apply elem_of_cons. right.
    apply list_elem_of_fmap. eauto.
  - intros (s & Hs & Hc). apply elem_of_cons in Hs as [->|Hs]; [rewrite Hc; eauto|].
    destruct (contains_bytes run (as_bytes (key job))); [eauto|].
    apply list_elem_of_fmap in Hs as (w & -> & Hw).
    replace (existsb (fun watch => contains_bytes run (as_bytes watch)) (watches job)) with true; [eauto|].
    symmetry. apply existsb_exists. exists w. split; [by apply list_elem_of_In|exact Hc].
Qed.

(** A record discloses a secret: verbatim, or in the text of one of its strings. *)
Definition discloses (job : JobSecurity) (record : list Z) : Prop :=
  exists s, s ∈ secrets job /\ (contains_bytes record s = true \/
    exists texts text, document record texts /\ text ∈ texts /\ contains_bytes (as_bytes text) s = true).

Lemma head_omap_Some {A B} (f : A -> option B) l x : x ∈ l -> is_Some (f x) -> is_Some (head (omap f l)).
Proof.
  intros Hx [y Hy]. induction l as [|a l IH]; [set_solver|]. cbn. destruct (f a) eqn:Ha; [eexists; reflexivity|].
  apply IH. apply elem_of_cons in Hx as [->|Hx]; [congruence|exact Hx].
Qed.

Lemma discloses_contains job record : discloses job record ->
  exists category, contains (secret_of job) record = Some (Some category).
Proof.
  intros (s & Hs & [Hc|(texts & text & Hd & Ht & Hc)]).
  - destruct (proj2 (secret_of_Some job record) ltac:(eauto)) as [c Hsome].
    exists c. unfold contains. rewrite Hsome. reflexivity.
  - rewrite (observer_texts (secret_of job) record texts Hd).
    destruct (head_omap_Some (secret_of job) (record :: (as_bytes <$> texts)) (as_bytes text)) as [c ->]; [..|eauto].
    + apply elem_of_cons. right. apply list_elem_of_fmap. eauto.
    + apply secret_of_Some. eauto.
Qed.

(** A record without a secret: no secret is in it verbatim, and none in a run of
    characters that it spells anywhere; or it is a document and none of its
    texts has one. *)
Definition clean (job : JobSecurity) (record : list Z) : Prop :=
  (forall s, s ∈ secrets job -> contains_bytes record s = false /\
     forall run, spelt record run -> contains_bytes run s = false) \/
  ((exists texts, document record texts) /\ ~ discloses job record).

Lemma clean_contains job record : clean job record -> contains (secret_of job) record = Some None.
Proof.
  destruct (contains_total (secret_of job) record) as [[c|] Hc]; [|done]. intros H. exfalso.
  assert (forall run, secret_of job run = Some c -> exists s, s ∈ secrets job /\ contains_bytes run s = true) as Hs
    by (intros run E; apply secret_of_Some; by eexists).
  destruct H as [Hno|[[texts Hd] Hno]].
  - apply contains_sound in Hc as [Hm|(run & Hm & Hrun)]; apply Hs in Hm as (s & Hin & Hc);
      destruct (Hno s Hin) as [H1 H2]; [congruence|]. by rewrite H2 in Hc.
  - rewrite (observer_texts _ _ _ Hd) in Hc. apply (inj Some) in Hc. apply Hno.
    assert (exists x, x ∈ record :: (as_bytes <$> texts) /\ secret_of job x = Some c) as (x & Hx & Hm).
    { apply head_Some_elem_of, list_elem_of_omap in Hc as (x & Hx & Hm). by exists x. }
    apply Hs in Hm as (s & Hin & Hcon). exists s. split; [done|].
    apply elem_of_cons in Hx as [->|(text & -> & Ht)%list_elem_of_fmap]; [by left|]. right. by exists texts, text.
Qed.

(** ** The quarantine *)

(** What the sessions of a job do with its security state. *)
Inductive Action :=
| Observe (record : list Z) (broker : Broker)
| Admit (operation : Operation)
| Run (operation : Operation) (during : list (list Z * Broker)) (work : result unit Z).

Inductive Reply := Observed (hit : bool) | Granted | Returned (work : result unit Z) | Refused.

Definition act (job : JobSecurity) (a : Action) : option (Reply * JobSecurity) :=
  match a with
  | Observe record broker =>
      match observe job record broker with Some (hit, job) => Some (Observed hit, job) | None => None end
  | Admit operation =>
      match admit_operation job operation with (Ok _, job) => Some (Granted, job) | (Err _, job) => Some (Refused, job) end
  | Run operation during work =>
      match run job operation during work with
      | Some (Ok t, job) => Some (Returned (Ok t), job)
      | Some (Err (inr e), job) => Some (Returned (Err e), job)
      | Some (Err (inl _), job) => Some (Refused, job)
      | None => None
      end
  end.

Fixpoint acts (job : JobSecurity) (l : list Action) : option (list Reply * JobSecurity) :=
  match l with
  | [] => Some ([], job)
  | a :: l =>
      match act job a with
      | None => None
      | Some (reply, job) =>
          match acts job l with Some (replies, job) => Some (reply :: replies, job) | None => None end
      end
  end.

(** The records an action shows to the observer. *)
Definition shown (a : Action) : list (list Z) :=
  match a with Observe r _ => [r] | Admit _ => [] | Run _ during _ => during.*1 end.

Definition hits (l : list SecurityEvent) : nat :=
  length (List.filter (fun e => match e with CanaryHit _ _ => true | _ => false end) l).

(** A well-formed job: the token is cancelled, and one hit reported, exactly in
    quarantine; the secrets never change. *)
Definition job_ok (k : str) (ws : list str) (job : JobSecurity) : Prop :=
  key job = k /\ watches job = ws /\ cancelled job = quarantined job /\
  hits (events job) = if quarantined job then 1%nat else 0%nat.

Lemma hits_app a b : hits (a ++ b) = (hits a + hits b)%nat.
Proof. unfold hits. rewrite List.filter_app, length_app. reflexivity. Qed.

Section Quarantine.
Context (k : str) (ws : list str).
Abbreviation ok := (job_ok k ws).

Lemma observe_ok job record broker : ok job -> exists hit job', observe job record broker = Some (hit, job') /\
  ok job' /\ (quarantined job = true -> quarantined job' = true) /\
  (discloses job record -> quarantined job' = true) /\ (quarantined job' = true -> quarantined job = true \/ hit = true).
Proof.
  intros (Hk & Hw & Hc & Hh). unfold observe.
  destruct (contains_total (secret_of job) record) as [[category|] H]; rewrite H.
  - exists true. eexists. split; [reflexivity|]. destruct (quarantined job) eqn:Hq.
    + split; [unfold job_ok; rewrite Hq; auto|auto].
    + split; [|cbn; auto]. unfold job_ok, emit. cbn -[hits]. rewrite hits_app, Hh. auto.
  - exists false, job. split; [reflexivity|]. split; [unfold job_ok; auto|]. split; [auto|]. split; [|auto].
    intros Hd. destruct (discloses_contains job record Hd) as [c Hs]. congruence.
Qed.

Lemma discloses_same job job' record : ok job -> ok job' -> discloses job record -> discloses job' record.
Proof.
  intros (Hk & Hw & _) (Hk' & Hw' & _) (s & Hs & H). exists s. split; [|exact H].
  unfold secrets in *. congruence.
Qed.

Lemma observe_all_ok during job : ok job -> exists job', observe_all job during = Some job' /\ ok job' /\
  (quarantined job = true -> quarantined job' = true) /\
  (forall r, r ∈ during.*1 -> discloses job r -> quarantined job' = true).
Proof.
  revert job. induction during as [|[r b] during IH]; intros job Hj; cbn [observe_all].
  { exists job. split; [reflexivity|]. split; [exact Hj|]. split; [auto|]. set_solver. }
  destruct (observe_ok job r b Hj) as (hit & job1 & -> & Hj1 & Hmono & Hd & _).
  destruct (IH job1 Hj1) as (job2 & Ho & Hj2 & Hmono2 & Hd2). exists job2. split; [exact Ho|].
  split; [exact Hj2|]. split; [auto|]. intros r' Hr' Hdis. cbn in Hr'. apply elem_of_cons in Hr' as [->|Hr']; [auto|].
  eapply Hd2; [exact Hr'|]. exact (discloses_same job job1 r' Hj Hj1 Hdis).
Qed.

Lemma admit_ok job operation : ok job ->
  exists job', ok job' /\ quarantined job' = quarantined job /\
    admit_operation job operation = (if quarantined job then Err JobQuarantinedError else Ok tt, job').
Proof.
  intros (Hk & Hw & Hc & Hh). unfold admit_operation. destruct (quarantined job) eqn:Hq.
  - eexists. split; [|split; [|reflexivity]]; unfold job_ok, emit; cbn -[hits]; [|auto].
    rewrite hits_app, Hh, Hq. auto.
  - exists job. split; [unfold job_ok; rewrite Hq; auto|]. auto.
Qed.

(** A guarded operation: refused in quarantine, and whenever a secret is
    disclosed while it is pending; otherwise its own result. *)
Lemma run_ok {T E} job op during (work : result E T) : ok job ->
  exists r job', run job op during work = Some (r, job') /\ ok job' /\
  (quarantined job = true -> quarantined job' = true) /\
  (forall x, x ∈ during.*1 -> discloses job x -> quarantined job' = true) /\
  r = if quarantined job' then Err (inl JobQuarantinedError)
      else match work with Ok t => Ok t | Err e => Err (inr e) end.
Proof.
  intros Hj. unfold run. destruct (admit_ok job op Hj) as (job1 & Hj1 & Hq1 & ->). destruct (quarantined job) eqn:Hq.
  { eexists _, job1. rewrite Hq1. split_and!; auto. }
  destruct (observe_all_ok during job1 Hj1) as (job2 & -> & Hj2 & Hm & Hd).
  assert (Hcancel : cancelled job2 = quarantined job2) by apply Hj2. rewrite Hcancel.
  assert (Hd' : forall x, x ∈ during.*1 -> discloses job x -> quarantined job2 = true).
  { intros x Hx Hdis. eapply Hd; [exact Hx|]. exact (discloses_same job job1 x Hj Hj1 Hdis). }
  destruct (quarantined job2) eqn:Hq2; [eexists _, job2; rewrite Hq2; split_and!; auto|].
  destruct (admit_ok job2 op Hj2) as (job3 & Hj3 & Hq3 & ->). rewrite Hq2 in *.
  eexists _, job3. rewrite Hq3. split_and!; auto; congruence.
Qed.

(** One action: it never gets stuck, keeps the job well formed and in quarantine,
    and in quarantine admits nothing. *)
Lemma act_ok job a : ok job -> exists reply job', act job a = Some (reply, job') /\ ok job' /\
  (quarantined job = true -> quarantined job' = true /\
     match a with Observe _ _ => True | _ => reply = Refused end) /\
  (forall r, r ∈ shown a -> discloses job r -> quarantined job' = true /\
     match a with Run _ _ _ => reply = Refused | _ => True end) /\
  (quarantined job' = false ->
     reply = match a with Observe _ _ => Observed false | Admit _ => Granted | Run _ _ work => Returned work end).
Proof.
  intros Hj. destruct a as [r b|op|op during work]; cbn [act shown].
  - destruct (observe_ok job r b Hj) as (hit & job' & Ho & Hj' & Hm & Hd & Hh). rewrite Ho.
    exists (Observed hit), job'. split; [reflexivity|]. split; [exact Hj'|]. split; [auto|].
    split; [intros r' Hr'; apply list_elem_of_singleton in Hr' as ->; auto|].
    intros Hq. unfold observe in Ho. destruct (contains _ r) as [[c|]|]; simplify_eq; [|reflexivity].
    destruct (quarantined job) eqn:E; cbn in Hq; congruence.
  - destruct (admit_ok job op Hj) as (job' & Hj' & Hq & ->).
    destruct (quarantined job); eexists _, job'; (split; [reflexivity|]); (split; [exact Hj'|]);
      rewrite Hq; (split; [auto|]); (split; [set_solver|]); intros; congruence.
  - destruct (run_ok job op during work Hj) as (r & job' & -> & Hj' & Hm & Hd & ->).
    destruct (quarantined job') eqn:Hq.
    + eexists _, job'. rewrite Hq. split; [reflexivity|]. split_and!; auto; congruence.
    + exists (Returned work), job'. rewrite Hq. split; [destruct work as [z|[]]; reflexivity|].
      split_and!; auto; [intros H; discriminate (Hm H)|intros r Hr Hdis; discriminate (Hd r Hr Hdis)].
Qed.

Lemma acts_ok l job : ok job -> exists replies job', acts job l = Some (replies, job') /\ ok job' /\
  (quarantined job = true -> quarantined job' = true /\
     Forall2 (fun a reply => match a with Observe _ _ => True | _ => reply = Refused end) l replies) /\
  (forall a r, a ∈ l -> r ∈ shown a -> discloses job r -> quarantined job' = true) /\
  (quarantined job' = false -> Forall2 (fun a reply =>
     reply = match a with Observe _ _ => Observed false | Admit _ => Granted | Run _ _ work => Returned work end)
     l replies).
Proof.
  revert job. induction l as [|a l IH]; intros job Hj; cbn [acts].
  { exists [], job. split; [reflexivity|]. split; [exact Hj|]. split; [auto|]. split; [set_solver|auto]. }
  destruct (act_ok job a Hj) as (reply & job1 & -> & Hj1 & Hq1 & Hd1 & Hr1).
  destruct (IH job1 Hj1) as (replies & job2 & -> & Hj2 & Hq2 & Hd2 & Hr2).
  exists (reply :: replies), job2. split; [reflexivity|]. split; [exact Hj2|]. split; [|split].
  - intros Hq. destruct (Hq1 Hq) as [H1 H1']. destruct (Hq2 H1) as [H2 H2']. split; [exact H2|].
    constructor; assumption.
  - intros a' r Ha Hr Hdis. apply elem_of_cons in Ha as [->|Ha].
    + apply Hq2. exact (proj1 (Hd1 r Hr Hdis)).
    + eapply Hd2; [exact Ha|exact Hr|]. exact (discloses_same job job1 r Hj Hj1 Hdis).
  - intros Hq. constructor; [|auto]. apply Hr1. destruct (quarantined job1) eqn:E; [|reflexivity].
    destruct (Hq2 eq_refl). congruence.
Qed.

Lemma observe_all_clean during job : (forall r, r ∈ during.*1 -> clean job r) -> observe_all job during = Some job.
Proof.
  induction during as [|[r b] during IH]; intros H; [done|]. cbn [observe_all]. unfold observe.
  rewrite clean_contains by (apply H; by left). apply IH. intros x Hx. apply H. by right.
Qed.

(** Without a secret nothing happens to a job. *)
Lemma act_clean job a : ok job -> quarantined job = false -> (forall r, r ∈ shown a -> clean job r) ->
  exists reply, act job a = Some (reply, job).
Proof.
  intros Hj Hq Hc. destruct a as [r b|op|op during work]; cbn [act shown] in *.
  - unfold observe. rewrite clean_contains by (apply Hc; by left). by eexists.
  - unfold admit_operation. rewrite Hq. by eexists.
  - unfold run, admit_operation. rewrite Hq, observe_all_clean by done.
    destruct Hj as (_ & _ & -> & _). rewrite Hq. destruct work; by eexists.
Qed.

Lemma acts_clean l job : ok job -> quarantined job = false ->
  (forall a r, a ∈ l -> r ∈ shown a -> clean job r) -> exists replies, acts job l = Some (replies, job).
Proof.
  intros Hj Hq. induction l as [|a l IH]; intros Hc; cbn [acts]; [by eexists|].
  destruct (act_clean job a Hj Hq) as [reply ->]; [intros r; apply Hc; by left|].
  destruct IH as [replies ->]; [|by eexists]. intros x r Hx. apply Hc. by right.
Qed.
End Quarantine.

(** C8: Whatever the sessions of a job do, in any order and interleaving, no
    observation fails to end; from the first record on that discloses the canary
    or a watched credential, verbatim or in a JSON string, every brokered
    operation is refused for the rest of the job, also one that was already
    pending, and the hit is reported exactly once.  And while no record shown
    has a secret, verbatim or spelt in JSON characters, the job is not put in
    quarantine: no observation reports a hit, no operation is refused and every
    result is passed on. *)
Theorem disclosures_quarantine_the_job seed watches before a after :
  exists replies0 job0 reply job1 replies job2,
    acts (job_security seed watches) before = Some (replies0, job0) /\
    act job0 a = Some (reply, job1) /\ acts job1 after = Some (replies, job2) /\
    hits (events job2) = (if quarantined job2 then 1 else 0)%nat /\
    (quarantined job2 = false -> Forall2 (fun a reply =>
       reply = match a with Observe _ _ => Observed false | Admit _ => Granted | Run _ _ work => Returned work end)
       (before ++ a :: after) (replies0 ++ reply :: replies)) /\
    ((forall a' r, a' ∈ before ++ a :: after -> r ∈ shown a' -> clean (job_security seed watches) r) ->
     quarantined job2 = false) /\
    forall r, r ∈ shown a -> discloses (job_security seed watches) r ->
      quarantined job2 = true /\
      match a with Run _ _ _ => reply = Refused | _ => True end /\
      Forall2 (fun a reply => match a with Observe _ _ => True | _ => reply = Refused end) after replies.
Proof.
  set (k := encode_seed seed).
  assert (H0 : job_ok k watches (job_security seed watches)) by (split_and!; reflexivity).
  destruct (acts_ok k watches before _ H0) as (replies0 & job0 & Hb & Hj0 & _ & _ & Hr0).
  destruct (act_ok k watches job0 a Hj0) as (reply & job1 & Ha & Hj1 & Hq1 & Hd1 & Hr1).
  destruct (acts_ok k watches after job1 Hj1) as (replies & job2 & Hc & Hj2 & Hq2 & _ & Hr2).
  exists replies0, job0, reply, job1, replies, job2. split; [exact Hb|]. split; [exact Ha|].
  split; [exact Hc|]. split; [apply Hj2|]. split.
  - intros Hq.
    assert (E1 : quarantined job1 = false)
      by (destruct (quarantined job1); [destruct (Hq2 eq_refl); congruence|reflexivity]).
    assert (E0 : quarantined job0 = false)
      by (destruct (quarantined job0); [destruct (Hq1 eq_refl); congruence|reflexivity]).
    apply Forall2_app; [auto|]. constructor; auto.
  - split.
    { intros Hclean. set (start := job_security seed watches) in *.
      assert (quarantined start = false) as Hs by done.
      destruct (acts_clean k watches before start H0 Hs) as [r0 E0];
        [intros x r Hx; apply Hclean, elem_of_app; by left|]. rewrite E0 in Hb. injection Hb as _ <-.
      destruct (act_clean k watches start a H0 Hs) as [r1 E1];
        [intros r; apply Hclean, elem_of_app; right; by left|]. rewrite E1 in Ha. injection Ha as _ <-.
      destruct (acts_clean k watches after start H0 Hs) as [r2 E2];
        [intros x r Hx; apply Hclean, elem_of_app; right; by right|]. rewrite E2 in Hc. by injection Hc as _ <-. }
    intros r Hr Hdis. destruct (Hd1 r Hr) as [Hq Hreply].
    { exact (discloses_same k watches _ _ r H0 Hj0 Hdis). }
    destruct (Hq2 Hq) as [H2 Hall]. auto.
Qed.
