(* ===== verification/ModelBroker.v ===== *)
(** * The model broker

    [loupe-worker/src/llm/model_broker.rs] and [model_broker/ingress.rs]: the
    only way from a job's sandbox to its model provider.  The broker forwards
    POST requests to one endpoint, with the job's credential in place of whatever
    the sandbox sent, the configured model and effort, no tool that makes the
    provider fetch URLs, and within ceilings on requests, output and tokens; a
    job in quarantine ([Canary.v]) reaches no provider.

    JSON parsing and printing, the parsing of header names and values, and the
    provider are parameters. *)

From S2P Require Import Prelude Text Fingerprint Utf8 Citation Canary.
From Stdlib Require Import ZArith Lia.
From stdpp Require Import base sets list option numbers strings.
Local Open Scope Z_scope.

(** ** [serde_json::Value] *)
Module Json.

(** An object is its entries; a number is an integer or anything else. *)
Inductive Value :=
| Null
| Bool (b : bool)
| Integer (n : Z)
| Float (text : str)
| String (s : str)
| Array (items : list Value)
| Object (fields : list (str * Value)).

Fixpoint get (key : str) (fields : list (str * Value)) : option Value :=
  match fields with
  | [] => None
  | (k, v) :: fields => if str_eqb k key then Some v else get key fields
  end.

(** [Map::insert] *)
Fixpoint insert (key : str) (value : Value) (fields : list (str * Value)) : list (str * Value) :=
  match fields with
  | [] => [(key, value)]
  | (k, v) :: fields => if str_eqb k key then (k, value) :: fields else (k, v) :: insert key value fields
  end.

Definition as_object (v : Value) : option (list (str * Value)) :=
  match v with Object fields => Some fields | _ => None end.
Definition as_array (v : Value) : option (list Value) :=
  match v with Array items => Some items | _ => None end.
Definition as_str (v : Value) : option str :=
  match v with String s => Some s | _ => None end.
Definition as_u64 (v : Value) : option Z :=
  match v with Integer n => if (0 <=? n) && (n <=? u64_max) then Some n else None | _ => None end.

(** [Value::get] of a key *)
Definition field (v : Value) (key : str) : option Value := fields ← as_object v; get key fields.

End Json.

(** ** The configured policy *)

Inductive ModelProvider := Claude | Codex.
#[export] Instance provider_eq_dec : EqDecision ModelProvider.
Proof. solve_decision. Defined.

Inductive CodexDaybreak := DaybreakDefault | DaybreakOff | DaybreakBlue | DaybreakRed.

Record ModelBrokerBackend := {
  provider : ModelProvider;
  model : str;
  effort : str;
  daybreak : CodexDaybreak;
}.

Definition endpoint (p : ModelProvider) : str :=
  match p with Claude => lit "/v1/messages" | Codex => lit "/v1/responses" end.

(** [ModelBrokerBackend::access_program], [CodexDaybreak::access_program] *)
Definition access_program (backend : ModelBrokerBackend) : option str :=
  match provider backend with
  | Claude => None
  | Codex =>
      match daybreak backend with
      | DaybreakDefault => None
      | DaybreakOff => Some (lit "standard")
      | DaybreakBlue => Some (lit "daybreak_blue")
      | DaybreakRed => Some (lit "daybreak_red")
      end
  end.

Module Policy.

Inductive DeniedToolReason := ProviderFetch | RemoteMcp | McpServers.
Inductive RequestPolicyError := InvalidJson | DeniedTool (reason : DeniedToolReason).

Definition denied_tool_type (p : ModelProvider) (tool_type : str) : bool :=
  match p with
  | Claude => str_eqb tool_type (lit "web_fetch") || starts_with (lit "web_fetch_") tool_type
  | Codex =>
      bool_decide (tool_type ∈ [lit "mcp"; lit "remote_mcp"; lit "web_fetch"]) ||
      starts_with (lit "web_fetch_") tool_type
  end.

(** The loop over the declared tools. *)
Fixpoint check_tools (p : ModelProvider) (tools : list Json.Value) : result RequestPolicyError unit :=
  match tools with
  | [] => Ok tt
  | tool :: tools =>
      match Json.field tool (lit "type") ≫= Json.as_str with
      | Some tool_type =>
          if denied_tool_type p tool_type then
            Err (DeniedTool (if bool_decide (tool_type ∈ [lit "mcp"; lit "remote_mcp"])
                             then RemoteMcp else ProviderFetch))
          else check_tools p tools
      | None => check_tools p tools
      end
  end.

Definition effort_field (p : ModelProvider) : str :=
  match p with Claude => lit "output_config" | Codex => lit "reasoning" end.

(** One turn of the loop that writes the selected values. *)
Definition select_value (fields : list (str * Json.Value)) (name key : str) (selected : option str)
    : list (str * Json.Value) :=
  match selected with
  | None => fields
  | Some selected =>
      let config := default (Json.Object []) (Json.get name fields) in
      let config := default [] (Json.as_object config) in
      Json.insert name (Json.Object (Json.insert key (Json.String selected) config)) fields
  end.

(** What a request already says. *)
Definition model_matches (backend : ModelBrokerBackend) (fields : list (str * Json.Value)) : bool :=
  bool_decide (Json.get (lit "model") fields ≫= Json.as_str = Some (model backend)).
Definition effort_matches (backend : ModelBrokerBackend) (fields : list (str * Json.Value)) : bool :=
  bool_decide ((v ← Json.get (effort_field (provider backend)) fields; config ← Json.as_object v;
                e ← Json.get (lit "effort") config; Json.as_str e) = Some (effort backend)).
Definition program_matches (backend : ModelBrokerBackend) (fields : list (str * Json.Value)) : bool :=
  match access_program backend with
  | None => true
  | Some program =>
      bool_decide ((a ← Json.get (lit "access_programs") fields; c ← Json.field a (lit "cyber"); Json.as_str c)
                   = Some program)
  end.

Definition has_mcp_servers (fields : list (str * Json.Value)) : bool :=
  match Json.get (lit "mcp_servers") fields with
  | None => false
  | Some (Json.Array []) => false
  | Some _ => true
  end.

(** [apply_request_policy]: whether the value was changed, and the value. *)
Definition apply_request_policy (value : Json.Value) (backend : ModelBrokerBackend)
    : result RequestPolicyError (bool * Json.Value) :=
  match Json.as_object value with
  | None => Err InvalidJson
  | Some fields =>
      if has_mcp_servers fields then Err (DeniedTool McpServers)
      else
        match check_tools (provider backend)
                (default [] (Json.get (lit "tools") fields ≫= Json.as_array)) with
        | Err e => Err e
        | Ok _ =>
            if model_matches backend fields && effort_matches backend fields && program_matches backend fields
            then Ok (false, value)
            else
              let fields := Json.insert (lit "model") (Json.String (model backend)) fields in
              let fields := select_value fields (effort_field (provider backend)) (lit "effort")
                              (Some (effort backend)) in
              let fields := select_value fields (lit "access_programs") (lit "cyber") (access_program backend) in
              Ok (true, Json.Object fields)
        end
  end.

(** [enforce_request_policy], with the parser and the printer of [serde_json]. *)
Definition enforce_request_policy (parse : list Z -> option Json.Value) (print : Json.Value -> option (list Z))
    (body : list Z) (backend : ModelBrokerBackend) : result RequestPolicyError (list Z) :=
  match parse body with
  | None => Err InvalidJson
  | Some value =>
      match apply_request_policy value backend with
      | Err e => Err e
      | Ok (false, _) => Ok body
      | Ok (true, value) => ok_or (print value) InvalidJson
      end
  end.

End Policy.

(** ** Headers *)
Module Headers.

(** Names are the lower-case names of [HeaderName]. *)
Abbreviation HeaderMap := (list (str * list Z)).

Definition is_hop_by_hop_name (name : str) : bool :=
  bool_decide (name ∈ [lit "connection"; lit "keep-alive"; lit "proxy-authenticate"; lit "proxy-authorization";
                       lit "te"; lit "trailer"; lit "transfer-encoding"; lit "upgrade"]).

Definition strip_request_header_name (name : str) (connection_named : bool) : bool :=
  bool_decide (name ∈ [lit "authorization"; lit "cookie"; lit "x-api-key"; lit "host"; lit "content-length"]) ||
  is_hop_by_hop_name name || connection_named || starts_with (lit "proxy-") name.

(** [HeaderMap::insert]: replaces every value of the name. *)
Definition insert_header (name : str) (value : list Z) (headers : HeaderMap) : HeaderMap :=
  List.filter (fun h => negb (str_eqb h.1 name)) headers ++ [(name, value)].

Section Sanitize.
(** [HeaderValue::to_str] and [HeaderName::from_bytes] *)
Context (to_str : list Z -> option str) (header_name : str -> option str).

Definition connection_header_names (headers : HeaderMap) : list str :=
  h ← List.filter (fun h => str_eqb h.1 (lit "connection")) headers;
  match to_str h.2 with
  | None => []
  | Some value => omap (fun name => header_name (trim name)) (split_on 44 value)
  end.

Definition sanitize_request_headers (headers : HeaderMap) (auth : str * list Z) : HeaderMap :=
  let named := connection_header_names headers in
  insert_header auth.1 auth.2
    (List.filter (fun h => negb (strip_request_header_name h.1 (bool_decide (h.1 ∈ named)))) headers).

Definition sanitize_response_headers (headers : HeaderMap) : HeaderMap :=
  let named := connection_header_names headers in
  List.filter (fun h => negb (str_eqb h.1 (lit "content-length")) && negb (is_hop_by_hop_name h.1) &&
                        negb (bool_decide (h.1 ∈ named))) headers.
End Sanitize.

Inductive CredentialKind := AnthropicApiKey | AnthropicOAuthToken | OpenAiApiKey.
Inductive PrepareError := EmptyCredential | WrongProvider | InvalidHeaderValue.

(** [ModelCredential::prepare_for]; [header_value] is [HeaderValue::from_maybe_shared]. *)
Definition prepare_for (header_value : list Z -> option (list Z)) (kind : CredentialKind) (secret : str)
    (p : ModelProvider) : result PrepareError (str * list Z) :=
  if str_is_empty secret then Err EmptyCredential
  else
    match p, kind with
    | Claude, OpenAiApiKey | Codex, AnthropicApiKey | Codex, AnthropicOAuthToken => Err WrongProvider
    | _, _ =>
        let '(name, value) := match kind with
                              | AnthropicApiKey => (lit "x-api-key", as_bytes secret)
                              | _ => (lit "authorization", lit "Bearer " ++ as_bytes secret)
                              end in
        match header_value value with
        | None => Err InvalidHeaderValue
        | Some value => Ok (name, value)
        end
    end.

End Headers.

(** ** Ceilings *)
Module Usage.

Record ModelBrokerLimits := {
  request_ceiling : Z;
  output_ceiling_bytes : Z;
  token_ceiling : option Z;
}.

Inductive LimitsError := ZeroRequests | ZeroOutput | ZeroTokens.

(** [ModelBrokerLimits::validate] *)
Definition validate (limits : ModelBrokerLimits) : result LimitsError unit :=
  if request_ceiling limits =? 0 then Err ZeroRequests
  else if output_ceiling_bytes limits =? 0 then Err ZeroOutput
  else if bool_decide (token_ceiling limits = Some 0) then Err ZeroTokens
  else Ok tt.

Record UsageCounters := {
  requests : Z;
  output_bytes : Z;
  tokens : Z;
}.

Definition no_usage : UsageCounters := {| requests := 0; output_bytes := 0; tokens := 0 |}.

Inductive LimitKind := Requests | Output | Tokens.

Definition code (kind : LimitKind) : str :=
  match kind with
  | Requests => lit "request_ceiling_exhausted"
  | Output => lit "output_ceiling_exhausted"
  | Tokens => lit "token_ceiling_exhausted"
  end.

(** [start_request], its compare-and-exchange loop taken as one step
    ([ModelBrokerTheorems.v] says why that is right). *)
Definition start_request (u : UsageCounters) (limits : ModelBrokerLimits)
    : result LimitKind unit * UsageCounters :=
  if match token_ceiling limits with Some ceiling => ceiling <=? tokens u | None => false end
  then (Err Tokens, u)
  else if output_ceiling_bytes limits <=? output_bytes u then (Err Output, u)
  else if request_ceiling limits <=? requests u then (Err Requests, u)
  else (Ok tt, {| requests := requests u + 1; output_bytes := output_bytes u; tokens := tokens u |}).

(** [u64::saturating_sub] *)
Definition saturating_sub_u64 (a b : Z) : Z := Z.max 0 (a - b).

(** [reserve_output], its loop taken as one step. *)
Definition reserve_output (u : UsageCounters) (requested ceiling : Z) : Z * UsageCounters :=
  let remaining := saturating_sub_u64 ceiling (output_bytes u) in
  let allowed := Z.min remaining requested in
  if allowed =? 0 then (0, u)
  else (allowed, {| requests := requests u; output_bytes := output_bytes u + allowed; tokens := tokens u |}).

(** [ParsedTokenUsage] *)
Record ParsedTokenUsage := { input : Z; output : Z; total : Z }.

Definition count_field (usage : list (str * Json.Value)) (key : string) : Z :=
  default 0 (v ← Json.get (lit key) usage; Json.as_u64 v).

(** [ParsedTokenUsage::observe] *)
Fixpoint observe (value : Json.Value) (p : ParsedTokenUsage) : ParsedTokenUsage :=
  match value with
  | Json.Object fields =>
      let p := match (v ← Json.get (lit "usage") fields; Json.as_object v) with
               | Some usage =>
                   {| input := Z.max (input p) (count_field usage "input_tokens");
                      output := Z.max (output p) (count_field usage "output_tokens");
                      total := Z.max (total p) (count_field usage "total_tokens") |}
               | None => p
               end in
      (fix each (fields : list (str * Json.Value)) (p : ParsedTokenUsage) : ParsedTokenUsage :=
         match fields with
         | [] => p
         | (_, v) :: fields => each fields (observe v p)
         end) fields p
  | Json.Array items =>
      (fix each (items : list Json.Value) (p : ParsedTokenUsage) : ParsedTokenUsage :=
         match items with
         | [] => p
         | v :: items => each items (observe v p)
         end) items p
  | _ => p
  end.

(** [str::strip_prefix] *)
Definition strip_prefix (p s : str) : option str :=
  if starts_with p s then Some (drop (length p) s) else None.

(** [token_usage_from_response]; [parse] is [serde_json::from_slice]. *)
Definition token_usage_from_response (parse : list Z -> option Json.Value) (body : list Z) : Z :=
  let none := {| input := 0; output := 0; total := 0 |} in
  let usage :=
    match parse body with
    | Some value => observe value none
    | None =>
        match from_utf8 body with
        | None => none
        | Some text =>
            foldl (fun usage line =>
              match strip_prefix (lit "data:") line with
              | None => usage
              | Some data =>
                  let data := trim data in
                  if str_eqb data (lit "[DONE]") then usage
                  else match parse (as_bytes data) with
                       | Some value => observe value usage
                       | None => usage
                       end
              end) none (lines text)
        end
    end in
  Z.max (total usage) (Z.min (input usage + output usage) u64_max).

(** [fetch_add] wraps around. *)
Definition add_tokens (u : UsageCounters) (n : Z) : UsageCounters :=
  {| requests := requests u; output_bytes := output_bytes u; tokens := (tokens u + n) mod (u64_max + 1) |}.

End Usage.

(** ** The proxy *)
Module Proxy.

Record Config := {
  backend : ModelBrokerBackend;
  auth : str * list Z;
  limits : Usage.ModelBrokerLimits;
  model_request_bytes : Z;
}.

(** A request of the sandbox: [body] is [None] when it cannot be read;
    [before] and [during] are the records that other sessions of the job show to
    the observer while the body is collected and while the provider answers;
    [answer] is the status of the provider, if it answers. *)
Record Request := {
  method : str;
  path : str;
  query : option str;
  headers : list (str * list Z);
  body : option (list Z);
  before : list (list Z * Broker);
  during : list (list Z * Broker);
  answer : option Z;
}.

(** What reaches the provider. *)
Record Sent := {
  sent_path : str;
  sent_query : option str;
  sent_headers : list (str * list Z);
  sent_body : list Z;
}.

Inductive Frame := Data (bytes : list Z) | Trailers | Failed.

(** [OutputStreamState], with the chunks received and the frames given out. *)
Record Stream := {
  received : list Z;
  capture : list Z;
  overflowed : bool;
  terminal : bool;
  ended : bool;
  frames : list Frame;
}.

Definition new_stream : Stream :=
  {| received := []; capture := []; overflowed := false; terminal := false; ended := false; frames := [] |}.

Record State := {
  job : JobSecurity;
  usage : Usage.UsageCounters;
  sent : list Sent;
  streams : list Stream;
}.

Inductive Response :=
| Local (status : Z) (code : str)
| Empty (status : Z)
| Streaming (stream : nat).

Definition with_job (st : State) (j : JobSecurity) : State :=
  {| job := j; usage := usage st; sent := sent st; streams := streams st |}.

Definition quarantined_response : Response := Local 403 (lit "job_quarantined").

Definition query_allowed (p : ModelProvider) (query : option str) : bool :=
  match p with
  | Claude => bool_decide (query = None) || bool_decide (query = Some (lit "beta=true"))
  | Codex => bool_decide (query = None)
  end.

Section Handle.
Context (parse : list Z -> option Json.Value) (print : Json.Value -> option (list Z)).
Context (to_str : list Z -> option str) (header_name : str -> option str).
Context (config : Config).

(** The body the collector returns under the limit. *)
Definition collect (body : option (list Z)) : result unit (list Z) :=
  match body with
  | Some b => if Z.of_nat (length b) <=? model_request_bytes config then Ok b else Err tt
  | None => Err tt
  end.

(** [UpstreamRequest::send] inside [JobSecurity::run]: the request leaves when
    it is admitted; what happens meanwhile decides the answer. *)
Definition send (st : State) (request : Sent) (during : list (list Z * Broker)) (answer : option Z)
    : option (result (JobQuarantined + unit) Z * State) :=
  let admitted := negb (quarantined (job st)) in
  match run (job st) ModelRequest during (ok_or answer tt) with
  | None => None
  | Some (r, j) =>
      Some (r, {| job := j; usage := usage st;
                  sent := if admitted then sent st ++ [request] else sent st; streams := streams st |})
  end.

(** [handle_request] and [proxy_request]; [None] only if an observation had run
    out of its bound. *)
Definition handle_request (r : Request) (st : State) : option (Response * State) :=
  let p := provider (backend config) in
  match admit_operation (job st) ModelRequest with
  | (Err _, j) => Some (quarantined_response, with_job st j)
  | (Ok _, j) =>
      let st := with_job st j in
      if bool_decide (p = Claude) && str_eqb (method r) (lit "HEAD") && str_eqb (path r) (lit "/api/hello") &&
         bool_decide (query r = None)
      then Some (Empty 200, st)
      else if negb (str_eqb (method r) (lit "POST")) || negb (str_eqb (path r) (endpoint p)) ||
              negb (query_allowed p (query r))
      then Some (Local 404 (lit "endpoint_not_allowed"), st)
      else
        let hs := Headers.sanitize_request_headers to_str header_name (headers r) (auth config) in
        match run (job st) ModelRequest (before r) (collect (body r)) with
        | None => None
        | Some (Err (inl _), j) => Some (quarantined_response, with_job st j)
        | Some (Err (inr _), j) => Some (Local 413 (lit "request_body_too_large"), with_job st j)
        | Some (Ok b, j) =>
            match observe j b Model with
            | None => None
            | Some (_, j) =>
                match admit_operation j ModelRequest with
                | (Err _, j) => Some (quarantined_response, with_job st j)
                | (Ok _, j) =>
                    let st := with_job st j in
                    match Policy.enforce_request_policy parse print b (backend config) with
                    | Err Policy.InvalidJson => Some (Local 400 (lit "invalid_request_json"), st)
                    | Err (Policy.DeniedTool _) => Some (Local 422 (lit "tool_policy_denied"), st)
                    | Ok b =>
                        match Usage.start_request (usage st) (limits config) with
                        | (Err kind, u) => Some (Local 429 (Usage.code kind), st)
                        | (Ok _, u) =>
                            let st := {| job := job st; usage := u; sent := sent st; streams := streams st |} in
                            match send st {| sent_path := endpoint p; sent_query := query r; sent_headers := hs;
                                             sent_body := b |} (during r) (answer r) with
                            | None => None
                            | Some (Err (inl _), st) => Some (quarantined_response, st)
                            | Some (Err (inr _), st) => Some (Local 502 (lit "upstream_error"), st)
                            | Some (Ok status, st) =>
                                if (300 <=? status) && (status <=? 399)
                                then Some (Local 502 (lit "upstream_redirect_denied"), st)
                                else Some (Streaming (length (streams st)),
                                       {| job := job st; usage := usage st; sent := sent st;
                                          streams := streams st ++ [new_stream] |})
                            end
                        end
                    end
                end
            end
        end
  end.

(** What the provider's stream yields next. *)
Inductive Item := Chunk (bytes : list Z) | Error | End.

Definition frame (s : Stream) (f : Frame) (terminal' : bool) : Stream :=
  {| received := received s; capture := capture s; overflowed := overflowed s; terminal := terminal';
     ended := ended s; frames := frames s ++ [f] |}.

(** One turn of the stream of [stream_upstream_response]. *)
Definition pull (s : Stream) (u : Usage.UsageCounters) (quarantined : bool) (item : Item)
    : Stream * Usage.UsageCounters :=
  let stop := {| received := received s; capture := capture s; overflowed := overflowed s;
                 terminal := terminal s; ended := true; frames := frames s |} in
  if ended s then (s, u)
  else if terminal s || quarantined then (stop, u)
  else if overflowed s then (frame s Trailers true, u)
  else
    match item with
    | Chunk bytes =>
        let '(allowed, u) :=
          Usage.reserve_output u (Z.of_nat (length bytes)) (Usage.output_ceiling_bytes (limits config)) in
        let got := {| received := received s ++ bytes; capture := capture s; overflowed := true;
                      terminal := terminal s; ended := false; frames := frames s |} in
        if allowed =? 0 then (frame got Trailers true, u)
        else
          let part := take (Z.to_nat allowed) bytes in
          (frame {| received := received s ++ bytes; capture := capture s ++ part;
                    overflowed := allowed <? Z.of_nat (length bytes); terminal := terminal s; ended := false;
                    frames := frames s |} (Data part) (terminal s), u)
    | Error => (frame s Failed true, u)
    | End => (stop, Usage.add_tokens u (Usage.token_usage_from_response parse (capture s)))
    end.

(** What happens at a broker. *)
Inductive Event :=
| Serve (r : Request)
| Pull (stream : nat) (item : Item)
| Other (record : list Z) (broker : Broker).

Definition broker_step (e : Event) (st : State) : option State :=
  match e with
  | Serve r => match handle_request r st with Some (_, st) => Some st | None => None end
  | Pull i item =>
      match streams st !! i with
      | None => Some st
      | Some s =>
          let '(s, u) := pull s (usage st) (quarantined (job st)) item in
          Some {| job := job st; usage := u; sent := sent st; streams := <[i := s]> (streams st) |}
      end
  | Other record broker =>
      match observe (job st) record broker with Some (_, j) => Some (with_job st j) | None => None end
  end.

Fixpoint broker_run (es : list Event) (st : State) : option State :=
  match es with
  | [] => Some st
  | e :: es => match broker_step e st with Some st => broker_run es st | None => None end
  end.

End Handle.

Definition start (j : JobSecurity) : State :=
  {| job := j; usage := Usage.no_usage; sent := []; streams := [] |}.

End Proxy.
