(* ===== verification/ModelBrokerTheorems.v ===== *)
(** * What reaches a model provider

    The request policy, the headers, the ceilings and their composition in the
    broker of [ModelBroker.v], along any sequence of requests, stream reads and
    observations of other sessions. *)

From S2P Require Import Prelude Text Fingerprint Utf8 Citation Canary CanaryTheorems ModelBroker.
From Stdlib Require Import ZArith Lia.
From stdpp Require Import base sets list option numbers strings relations.
Local Open Scope Z_scope.

(** ** The request policy *)

Lemma get_insert_eq k v fields : Json.get k (Json.insert k v fields) = Some v.
Proof.
  induction fields as [|[k' v'] fields IH]; cbn.
  - replace (str_eqb k k) with true by (symmetry; apply str_eqb_eq; reflexivity). reflexivity.
  - destruct (str_eqb k' k) eqn:E; cbn; rewrite E; [reflexivity|exact IH].
Qed.

Lemma get_insert_ne k k' v fields : k <> k' -> Json.get k (Json.insert k' v fields) = Json.get k fields.
Proof.
  intros Hne. induction fields as [|[j w] fields IH]; cbn.
  - destruct (str_eqb k' k) eqn:E; bool_prop; congruence.
  - destruct (str_eqb j k') eqn:E; bool_prop; cbn.
    + subst j. destruct (str_eqb k' k) eqn:E; bool_prop; congruence.
    + destruct (str_eqb j k); [reflexivity|exact IH].
Qed.

(** A request the policy asks for. *)
Definition lawful (b : ModelBrokerBackend) (fields : list (str * Json.Value)) : Prop :=
  Policy.has_mcp_servers fields = false /\
  Policy.check_tools (provider b) (default [] (Json.get (lit "tools") fields ≫= Json.as_array)) = Ok tt /\
  Policy.model_matches b fields = true /\ Policy.effort_matches b fields = true /\
  Policy.program_matches b fields = true.

(** No declared tool is of a denied type. *)
Lemma check_tools_Ok p tools : Policy.check_tools p tools = Ok tt <->
  forall tool t, tool ∈ tools -> Json.field tool (lit "type") ≫= Json.as_str = Some t ->
    Policy.denied_tool_type p t = false.
Proof.
  induction tools as [|tool tools IH]; cbn [Policy.check_tools]; [split; [set_solver|reflexivity]|].
  destruct (Json.field tool (lit "type") ≫= Json.as_str) as [t|] eqn:Ht.
  - destruct (Policy.denied_tool_type p t) eqn:Hd.
    + split; [discriminate|]. intros H. rewrite (H tool t) in Hd; [discriminate|set_solver|exact Ht].
    + rewrite IH. split; intros H tool' t' Hin Ht'; [|apply (H tool'); [set_solver|exact Ht']].
      apply elem_of_cons in Hin as [->|Hin]; [congruence|eauto].
  - rewrite IH. split; intros H tool' t' Hin Ht'; [|apply (H tool'); [set_solver|exact Ht']].
    apply elem_of_cons in Hin as [->|Hin]; [congruence|eauto].
Qed.

Lemma check_tools_Err p tools e : Policy.check_tools p tools = Err e ->
  exists reason tool t, e = Policy.DeniedTool reason /\ tool ∈ tools /\
    Json.field tool (lit "type") ≫= Json.as_str = Some t /\ Policy.denied_tool_type p t = true.
Proof.
  induction tools as [|tool tools IH]; cbn [Policy.check_tools]; [discriminate|].
  assert (Hrest : Policy.check_tools p tools = Err e -> exists reason tool' t, e = Policy.DeniedTool reason /\
    tool' ∈ tool :: tools /\ Json.field tool' (lit "type") ≫= Json.as_str = Some t /\
    Policy.denied_tool_type p t = true).
  { intros H. destruct (IH H) as (reason & tool' & t & He & Hin & Hr). exists reason, tool', t.
    split; [exact He|]. split; [set_solver|exact Hr]. }
  destruct (Json.field tool (lit "type") ≫= Json.as_str) as [t|] eqn:Ht; [|exact Hrest].
  destruct (Policy.denied_tool_type p t) eqn:Hd; [|exact Hrest].
  intros [= <-]. eexists _, tool, t. split; [reflexivity|]. split; [set_solver|auto].
Qed.

(** The fields the policy may write. *)
Definition policy_fields (b : ModelBrokerBackend) : list str :=
  [lit "model"; Policy.effort_field (provider b); lit "access_programs"].

Lemma policy_fields_distinct b : lit "model" <> Policy.effort_field (provider b) /\
  lit "access_programs" <> Policy.effort_field (provider b) /\ lit "model" <> lit "access_programs" /\
  lit "tools" ∉ policy_fields b /\ lit "mcp_servers" ∉ policy_fields b.
Proof.
  unfold policy_fields, Policy.effort_field. destruct (provider b); split_and!;
    try discriminate; rewrite !elem_of_cons, elem_of_nil; intros H; repeat destruct H as [H|H]; discriminate H || exact H.
Qed.

Lemma select_value_other fields name key selected k :
  k <> name -> Json.get k (Policy.select_value fields name key selected) = Json.get k fields.
Proof. intros H. destruct selected; cbn; [apply get_insert_ne, H|reflexivity]. Qed.

Lemma select_value_eq fields name key s :
  exists config, Json.get name (Policy.select_value fields name key (Some s)) = Some (Json.Object config) /\
    Json.get key config = Some (Json.String s) /\
    forall k, k <> key ->
      Json.get k config = (v ← Json.get name fields; c ← Json.as_object v; Json.get k c).
Proof.
  cbn. eexists. split; [apply get_insert_eq|]. split; [apply get_insert_eq|]. intros k Hk.
  rewrite get_insert_ne by exact Hk. destruct (Json.get name fields) as [v|]; cbn; [|reflexivity].
  destruct (Json.as_object v); reflexivity.
Qed.

Lemma policy_result value b :
  match Policy.apply_request_policy value b with
  | Err Policy.InvalidJson => Json.as_object value = None
  | Err (Policy.DeniedTool reason) => exists fields, value = Json.Object fields /\
      if Policy.has_mcp_servers fields then reason = Policy.McpServers
      else exists tool t, tool ∈ default [] (Json.get (lit "tools") fields ≫= Json.as_array) /\
             Json.field tool (lit "type") ≫= Json.as_str = Some t /\
             Policy.denied_tool_type (provider b) t = true
  | Ok (changed, value') => exists fields fields',
      value = Json.Object fields /\ value' = Json.Object fields' /\ lawful b fields' /\
      (changed = false <-> lawful b fields) /\ (changed = false -> value' = value) /\
      (forall k, k ∉ policy_fields b -> Json.get k fields' = Json.get k fields) /\
      (forall k, k <> lit "effort" ->
         (v ← Json.get (Policy.effort_field (provider b)) fields'; c ← Json.as_object v; Json.get k c) =
         (v ← Json.get (Policy.effort_field (provider b)) fields; c ← Json.as_object v; Json.get k c))
  end.
Proof.
  unfold Policy.apply_request_policy. destruct (Json.as_object value) as [fields|] eqn:Hv; [|reflexivity].
  destruct value; cbn in Hv; simplify_eq. destruct (Policy.has_mcp_servers fields) eqn:Hm.
  { exists fields. rewrite Hm. auto. }
  destruct (Policy.check_tools _ _) as [[]|[|reason]] eqn:Ht.
  2: { destruct (check_tools_Err _ _ _ Ht) as (? & ? & ? & [=] & _). }
  2: { destruct (check_tools_Err _ _ _ Ht) as (reason' & tool & t & _ & H).
       exists fields. rewrite Hm. split; [reflexivity|eauto]. }
  destruct (Policy.model_matches b fields && Policy.effort_matches b fields && Policy.program_matches b fields) eqn:Hall.
  { bool_prop. exists fields, fields. unfold lawful. split_and!; auto. split; auto. }
  destruct (policy_fields_distinct b) as (D1 & D2 & D3 & D4 & D5).
  set (f1 := Json.insert (lit "model") _ fields).
  set (f2 := Policy.select_value f1 _ (lit "effort") _).
  set (f3 := Policy.select_value f2 (lit "access_programs") _ _).
  assert (Hother : forall k, k ∉ policy_fields b -> Json.get k f3 = Json.get k fields).
  { intros k Hk. unfold policy_fields in Hk. subst f3 f2 f1.
    rewrite !select_value_other, get_insert_ne by set_solver. reflexivity. }
  destruct (select_value_eq f1 (Policy.effort_field (provider b)) (lit "effort") (effort b))
    as (config & Hc & He & Hck). fold f2 in Hc.
  assert (Hc3 : Json.get (Policy.effort_field (provider b)) f3 = Some (Json.Object config))
    by (subst f3; rewrite select_value_other by congruence; exact Hc).
  exists fields, f3. split; [reflexivity|]. split; [reflexivity|]. split; [|split; [|split; [discriminate|split]]].
  - unfold lawful, Policy.has_mcp_servers in *. rewrite !Hother by assumption. split; [exact Hm|]. split; [exact Ht|].
    split; [|split].
    + apply bool_decide_eq_true. subst f3 f2. rewrite !select_value_other by congruence.
      subst f1. rewrite get_insert_eq. reflexivity.
    + apply bool_decide_eq_true. rewrite Hc3. cbn [mbind option_bind Json.as_object]. rewrite He. reflexivity.
    + unfold Policy.program_matches. destruct (access_program b) as [program|] eqn:Hp; [|reflexivity].
      apply bool_decide_eq_true. subst f3.
      destruct (select_value_eq f2 (lit "access_programs") (lit "cyber") program) as (c & -> & Hcy & _).
      cbn [mbind option_bind Json.field Json.as_object]. rewrite Hcy. reflexivity.
  - split; [discriminate|]. unfold lawful. intros (_ & _ & H1 & H2 & H3). rewrite H1, H2, H3 in Hall. discriminate.
  - exact Hother.
  - intros k Hk. rewrite Hc3. cbn [mbind option_bind Json.as_object]. rewrite Hck by exact Hk.
    subst f1. rewrite get_insert_ne by congruence. reflexivity.
Qed.

(** A request body is refused exactly when it is no object, declares MCP
    servers or a tool by which the provider would fetch URLs; any other becomes,
    or already is, a request with the configured model, effort and access
    program, in which everything the policy does not name is unchanged. *)
Theorem request_policy_is_enforced value b :
  match Policy.apply_request_policy value b with
  | Err Policy.InvalidJson => Json.as_object value = None
  | Err (Policy.DeniedTool reason) => exists fields, value = Json.Object fields /\
      if Policy.has_mcp_servers fields then reason = Policy.McpServers
      else exists tool t, tool ∈ default [] (Json.get (lit "tools") fields ≫= Json.as_array) /\
             Json.field tool (lit "type") ≫= Json.as_str = Some t /\
             Policy.denied_tool_type (provider b) t = true
  | Ok (changed, value') => exists fields fields',
      value = Json.Object fields /\ value' = Json.Object fields' /\ lawful b fields' /\
      (changed = false <-> lawful b fields) /\ (changed = false -> value' = value) /\
      (forall k, k ∉ policy_fields b -> Json.get k fields' = Json.get k fields) /\
      (forall k, k <> lit "effort" ->
         (v ← Json.get (Policy.effort_field (provider b)) fields'; c ← Json.as_object v; Json.get k c) =
         (v ← Json.get (Policy.effort_field (provider b)) fields; c ← Json.as_object v; Json.get k c))
  end.
Proof. apply policy_result. Qed.

(** ** Headers *)

(** What the provider is sent as headers: the job's credential, and of the
    sandbox's headers those that are neither credentials nor connection headers. *)
Lemma sanitized_headers to_str header_name headers auth n v :
  (n, v) ∈ Headers.sanitize_request_headers to_str header_name headers auth <->
  (n, v) = auth \/
  n <> auth.1 /\ (n, v) ∈ headers /\
  Headers.strip_request_header_name n (bool_decide (n ∈ Headers.connection_header_names to_str header_name headers))
    = false.
Proof.
  unfold Headers.sanitize_request_headers, Headers.insert_header. destruct auth as [an av]. cbn [fst snd].
  rewrite elem_of_app, list_elem_of_singleton, !list_elem_of_In, !filter_In.
  cbn [fst snd]. rewrite !negb_true_iff. split.
  - intros [[[Hin Hs] Hn]|H]; [right|left; exact H]. bool_prop.
    split; [intros ->; rewrite (proj2 (str_eqb_eq an an) eq_refl) in Hn; discriminate|]. auto.
  - intros [H|(Hn & Hin & Hs)]; [right; exact H|left]. split; [auto|].
    destruct (str_eqb n an) eqn:E; bool_prop; [contradiction|reflexivity].
Qed.

Definition credential_names : list str := [lit "authorization"; lit "cookie"; lit "x-api-key"; lit "proxy-authorization"].

Lemma credentials_are_stripped n named : n ∈ credential_names -> Headers.strip_request_header_name n named = true.
Proof.
  unfold credential_names. intros H. unfold Headers.strip_request_header_name, Headers.is_hop_by_hop_name.
  repeat (apply elem_of_cons in H as [->|H]; [reflexivity|]). by apply not_elem_of_nil in H.
Qed.

(** ** The counters under concurrency *)

(** The callers of [UsageCounters], one atomic access at a time: the loads, and
    the weak compare-and-exchange, which may also fail for no reason. *)
Inductive Caller :=
| CheckTokens | CheckOutput | LoadRequests
| ExchangeRequests (current : Z)
| Started (r : result Usage.LimitKind unit)
| LoadOutput (requested : Z)
| ExchangeOutput (requested current allowed : Z)
| Reserved (requested allowed : Z).

Section Concurrent.
Import Usage.
Context (limits : ModelBrokerLimits).

Inductive access : UsageCounters -> Caller -> UsageCounters -> Caller -> Prop :=
| a_tokens u :
    access u CheckTokens u
      (if match token_ceiling limits with Some c => c <=? tokens u | None => false end
       then Started (Err Tokens) else CheckOutput)
| a_output u :
    access u CheckOutput u
      (if output_ceiling_bytes limits <=? output_bytes u then Started (Err Output) else LoadRequests)
| a_load_requests u : access u LoadRequests u (ExchangeRequests (requests u))
| a_full u current : request_ceiling limits <= current ->
    access u (ExchangeRequests current) u (Started (Err Requests))
| a_exchanged u current : current < request_ceiling limits -> requests u = current ->
    access u (ExchangeRequests current)
      {| requests := current + 1; output_bytes := output_bytes u; tokens := tokens u |} (Started (Ok tt))
| a_failed u current : current < request_ceiling limits ->
    access u (ExchangeRequests current) u (ExchangeRequests (requests u))
| a_load_output u requested :
    let allowed := Z.min (saturating_sub_u64 (output_ceiling_bytes limits) (output_bytes u)) requested in
    access u (LoadOutput requested) u
      (if allowed =? 0 then Reserved requested 0 else ExchangeOutput requested (output_bytes u) allowed)
| a_reserved u requested current allowed : output_bytes u = current ->
    access u (ExchangeOutput requested current allowed)
      {| requests := requests u; output_bytes := current + allowed; tokens := tokens u |}
      (Reserved requested allowed)
| a_retry u requested current allowed :
    access u (ExchangeOutput requested current allowed) u (LoadOutput requested).

(** Callers come at any time, take their accesses in any order, and tokens are
    added by the streams. *)
Inductive interleaving : UsageCounters * list Caller -> UsageCounters * list Caller -> Prop :=
| i_start u cs : interleaving (u, cs) (u, cs ++ [CheckTokens])
| i_reserve u cs requested : 0 <= requested -> interleaving (u, cs) (u, cs ++ [LoadOutput requested])
| i_access u cs1 c cs2 u' c' : access u c u' c' ->
    interleaving (u, cs1 ++ c :: cs2) (u', cs1 ++ c' :: cs2)
| i_tokens u cs n : interleaving (u, cs) (add_tokens u n, cs).

Definition granted_request (c : Caller) : Z := match c with Started (Ok _) => 1 | _ => 0 end.
Definition granted_output (c : Caller) : Z := match c with Reserved _ n => n | _ => 0 end.
Definition total (f : Caller -> Z) (cs : list Caller) : Z := foldr (fun c n => f c + n) 0 cs.

Lemma total_app f a b : total f (a ++ b) = total f a + total f b.
Proof. unfold total. induction a as [|c a IH]; cbn [app foldr]; [reflexivity|]. rewrite IH. lia. Qed.

Definition caller_ok (c : Caller) : Prop :=
  match c with
  | LoadOutput requested => 0 <= requested
  | ExchangeOutput requested current allowed =>
      0 < allowed <= requested /\ current + allowed <= output_ceiling_bytes limits
  | Reserved requested allowed => 0 <= allowed <= requested
  | _ => True
  end.

Definition counters_ok (s : UsageCounters * list Caller) : Prop :=
  requests s.1 = total granted_request s.2 /\ requests s.1 <= request_ceiling limits /\
  output_bytes s.1 = total granted_output s.2 /\ output_bytes s.1 <= output_ceiling_bytes limits /\
  Forall caller_ok s.2.

Lemma access_ok u c u' c' : access u c u' c' -> caller_ok c ->
  requests u <= request_ceiling limits -> output_bytes u <= output_ceiling_bytes limits ->
  caller_ok c' /\ requests u' - requests u = granted_request c' - granted_request c /\
  output_bytes u' - output_bytes u = granted_output c' - granted_output c /\
  requests u' <= request_ceiling limits /\ output_bytes u' <= output_ceiling_bytes limits.
Proof.
  intros H Hc Hr Ho. destruct H; cbn in *; try (repeat case_match; cbn; lia).
  subst allowed. unfold saturating_sub_u64. case_match; bool_prop; cbn; lia.
Qed.

Lemma interleaving_ok s s' : interleaving s s' -> counters_ok s -> counters_ok s'.
Proof.
  intros H (H1 & H2 & H3 & H4 & H5). destruct H as [u cs|u cs n Hn|u cs1 c cs2 u' c' Ha|u cs n]; cbn [fst snd] in *.
  - unfold counters_ok. cbn [fst snd]. rewrite !total_app. cbn. split_and!; try lia.
    apply Forall_app. split; [exact H5|repeat constructor].
  - unfold counters_ok. cbn [fst snd]. rewrite !total_app. cbn. split_and!; try lia.
    apply Forall_app. split; [exact H5|repeat constructor; exact Hn].
  - apply Forall_app in H5 as [Hc1 Hc]. inversion_clear Hc as [|? ? Hc0 Hc2].
    destruct (access_ok u c u' c' Ha Hc0 H2 H4) as (Hok & Hd1 & Hd2 & Hb1 & Hb2).
    unfold counters_ok. cbn [fst snd]. rewrite !total_app in *. cbn [total foldr] in *. unfold total in *.
    split_and!; try lia. apply Forall_app. split; [exact Hc1|]. constructor; assumption.
  - exact (conj H1 (conj H2 (conj H3 (conj H4 H5)))).
Qed.

(** A caller that nobody interrupts does what the step functions say. *)
Lemma alone u c u' c' : access u c u' c' -> interleaving (u, [c]) (u', [c']).
Proof. apply (i_access u [] c []). Qed.

Lemma start_alone u : rtc interleaving (u, [CheckTokens])
  ((start_request u limits).2, [Started (start_request u limits).1]).
Proof.
  unfold start_request. eapply rtc_l; [apply alone, a_tokens|].
  destruct (match token_ceiling limits with Some c => c <=? tokens u | None => false end); [constructor|].
  eapply rtc_l; [apply alone, a_output|]. destruct (output_ceiling_bytes limits <=? output_bytes u); [constructor|].
  eapply rtc_l; [apply alone, a_load_requests|].
  destruct (request_ceiling limits <=? requests u) eqn:E; bool_prop; apply rtc_once, alone;
    [by apply a_full|by apply a_exchanged].
Qed.

Lemma reserve_alone u requested : rtc interleaving (u, [LoadOutput requested])
  ((reserve_output u requested (output_ceiling_bytes limits)).2,
   [Reserved requested (reserve_output u requested (output_ceiling_bytes limits)).1]).
Proof.
  unfold reserve_output. eapply rtc_l; [apply alone, a_load_output|]. cbv zeta.
  destruct (Z.min _ _ =? 0); [constructor|]. apply rtc_once, alone, a_reserved. reflexivity.
Qed.
End Concurrent.

(** C29: However the callers of the usage counters interleave, and however often
    their compare-and-exchange fails, the requests let through never exceed the
    request ceiling, the bytes reserved for output never exceed the output
    ceiling, each reservation is at most what was asked for, and the counters
    are exactly the sums of what was granted; a caller that is not interrupted
    gets what the step functions give. *)
Theorem usage_ceilings_hold limits s :
  0 <= Usage.request_ceiling limits -> 0 <= Usage.output_ceiling_bytes limits ->
  rtc (interleaving limits) (Usage.no_usage, []) s ->
  Usage.requests s.1 = total granted_request s.2 /\
  total granted_request s.2 <= Usage.request_ceiling limits /\
  Usage.output_bytes s.1 = total granted_output s.2 /\
  total granted_output s.2 <= Usage.output_ceiling_bytes limits /\
  (forall requested allowed, Reserved requested allowed ∈ s.2 -> 0 <= allowed <= requested) /\
  (forall u, let r := Usage.start_request u limits in
     rtc (interleaving limits) (u, [CheckTokens]) (r.2, [Started r.1])) /\
  (forall u requested, let r := Usage.reserve_output u requested (Usage.output_ceiling_bytes limits) in
     rtc (interleaving limits) (u, [LoadOutput requested]) (r.2, [Reserved requested r.1])).
Proof.
  intros Hr Ho Hs.
  assert (H : counters_ok limits s).
  { remember (Usage.no_usage, []) as s0 eqn:E.
    assert (H0 : counters_ok limits s0) by (subst s0; unfold counters_ok; cbn; split_and!; auto).
    clear E. induction Hs as [|x y z Hxy _ IH]; [exact H0|]. apply IH. exact (interleaving_ok limits x y Hxy H0). }
  destruct H as (H1 & H2 & H3 & H4 & H5). split; [exact H1|]. split; [lia|]. split; [exact H3|]. split; [lia|].
  split; [|split; intros; [apply start_alone|apply reserve_alone]].
  intros requested allowed Hin. rewrite Forall_forall in H5. exact (H5 _ Hin).
Qed.

Lemma usage_ceilings_hold_witness :
  let limits := {| Usage.request_ceiling := 1; Usage.output_ceiling_bytes := 5; Usage.token_ceiling := None |} in
  let s := ({| Usage.requests := 0; Usage.output_bytes := 5; Usage.tokens := 0 |}, [Reserved 7 5]) in
  rtc (interleaving limits) (Usage.no_usage, []) s /\ Usage.output_bytes s.1 = total granted_output s.2.
Proof.
  intros limits s.
  assert (H : rtc (interleaving limits) (Usage.no_usage, []) s).
  { eapply rtc_l; [apply (i_reserve limits Usage.no_usage [] 7); lia|].
    eapply rtc_l; [apply (i_access limits Usage.no_usage [] (LoadOutput 7) [] _ _ (a_load_output limits _ 7))|].
    eapply rtc_l; [exact (i_access limits Usage.no_usage [] (ExchangeOutput 7 0 5) [] _ _
                            (a_retry limits Usage.no_usage 7 0 5))|].
    eapply rtc_l; [apply (i_access limits Usage.no_usage [] (LoadOutput 7) [] _ _ (a_load_output limits _ 7))|].
    eapply rtc_l; [exact (i_access limits Usage.no_usage [] (ExchangeOutput 7 0 5) [] _ _
                            (a_reserved limits Usage.no_usage 7 0 5 eq_refl))|].
    constructor. }
  split; [exact H|].
  apply (usage_ceilings_hold limits s); [cbn; lia|cbn; lia|exact H].
Defined.

(** ** The broker *)

Section Broker.
Import Proxy.
Context (parse : list Z -> option Json.Value) (print : Json.Value -> option (list Z)).
Context (to_str : list Z -> option str) (header_name : str -> option str) (config : Config).
Context (seed : list Z) (watches : list str).
Abbreviation broker_run := (Proxy.broker_run parse print to_str header_name config).
Abbreviation fresh_job := (job_security seed watches).
Abbreviation ok := (job_ok (encode_seed seed) watches).

(** A request the broker takes up: a POST to the provider's endpoint with an
    admissible query. *)
Definition asks (r : Request) : Prop :=
  method r = lit "POST" /\ path r = endpoint (provider (backend config)) /\
  query_allowed (provider (backend config)) (query r) = true.

(** [b'] is the body [b] under the request policy: [b] itself when it is
    lawful, and otherwise the text of a lawful object that differs from it only
    in the fields of the policy. *)
Definition under_policy (b b' : list Z) : Prop :=
  exists fields fields', parse b = Some (Json.Object fields) /\ lawful (backend config) fields' /\
    (lawful (backend config) fields /\ b' = b /\ fields' = fields \/
     ~ lawful (backend config) fields /\ print (Json.Object fields') = Some b') /\
    (forall k, k ∉ policy_fields (backend config) -> Json.get k fields' = Json.get k fields).

(** A request the provider may see: one of the sandbox's requests, to the
    endpoint of the configured provider, with its query, its headers less any
    credential, the job's credential, and its body under the policy, which
    discloses no secret. *)
Definition lawful_request (es : list Event) (s : Sent) : Prop :=
  exists r b, Serve r ∈ es /\ asks r /\ collect config (body r) = Ok b /\ ~ discloses fresh_job b /\
    sent_path s = endpoint (provider (backend config)) /\ sent_query s = query r /\
    auth config ∈ sent_headers s /\
    (forall n v, (n, v) ∈ sent_headers s -> (n, v) = auth config \/ (n, v) ∈ headers r /\ n ∉ credential_names) /\
    under_policy b (sent_body s).

Lemma enforced_under_policy b b' :
  Policy.enforce_request_policy parse print b (backend config) = Ok b' -> under_policy b b'.
Proof.
  unfold Policy.enforce_request_policy. destruct (parse b) as [value|] eqn:Hp; [|discriminate].
  pose proof (policy_result value (backend config)) as H.
  destruct (Policy.apply_request_policy value (backend config)) as [[[] value']|]; [..|discriminate].
  - destruct H as (fields & fields' & -> & -> & Hl & Hch & _ & Hk & _). intros H. apply ok_or_Ok in H.
    exists fields, fields'. split_and!; auto. right. split; [|done]. intros Hf. apply Hch in Hf. discriminate.
  - destruct H as (fields & fields' & -> & -> & Hl & Hch & Heq & Hk & _). intros [= <-].
    specialize (Heq eq_refl). injection Heq as ->. exists fields, fields. split_and!; auto.
Qed.

Definition output_of (ss : list Stream) : Z := foldr (fun s n => Z.of_nat (length (capture s)) + n) 0 ss.

Definition data_of (fs : list Frame) : list Z := fs ≫= fun f => match f with Data bytes => bytes | _ => [] end.

(** A stream: what was given out is what was captured, a first part of what was
    received, and all of it as long as no ceiling was met. *)
Definition stream_ok (s : Stream) : Prop :=
  data_of (frames s) = capture s /\ capture s `prefix_of` received s /\
  (overflowed s = false -> capture s = received s).

Definition governed (es : list Event) (st : State) : Prop :=
  ok (job st) /\ Z.of_nat (length (sent st)) <= Usage.requests (usage st) /\
  Usage.requests (usage st) <= Usage.request_ceiling (limits config) /\
  Usage.output_bytes (usage st) = output_of (streams st) /\
  Usage.output_bytes (usage st) <= Usage.output_ceiling_bytes (limits config) /\
  Forall (lawful_request es) (sent st) /\ Forall stream_ok (streams st).

(** A step in quarantine: nothing more is sent or given out. *)
Definition silenced (st st' : State) : Prop :=
  quarantined (job st) = true -> quarantined (job st') = true /\ sent st' = sent st /\
    capture <$> streams st' = capture <$> streams st.

Lemma output_of_app a b : output_of (a ++ b) = output_of a + output_of b.
Proof. unfold output_of. induction a as [|s a IH]; cbn [app foldr]; [reflexivity|]. rewrite IH. lia. Qed.

Lemma fresh_job_ok : ok fresh_job.
Proof. split_and!; reflexivity. Qed.

Lemma job_step_ok es st j : governed es st -> ok j -> (quarantined (job st) = true -> quarantined j = true) ->
  governed es (with_job st j) /\ silenced st (with_job st j).
Proof. intros (_ & H) Hj Hm. split; [exact (conj Hj H)|]. intros Hq. cbn. auto. Qed.

Lemma sent_is_lawful es r b b' :
  Serve r ∈ es -> asks r -> collect config (body r) = Ok b -> ~ discloses fresh_job b ->
  Policy.enforce_request_policy parse print b (backend config) = Ok b' ->
  lawful_request es {| sent_path := endpoint (provider (backend config)); sent_query := query r;
    sent_headers := Headers.sanitize_request_headers to_str header_name (headers r) (auth config);
    sent_body := b' |}.
Proof.
  intros Hin Ha Hb Hd He. exists r, b. cbn. split_and!; try done; try apply Ha.
  - rewrite (surjective_pairing (auth config)) at 1. apply sanitized_headers. left. symmetry. apply surjective_pairing.
  - intros n v Hn. apply sanitized_headers in Hn as [H|(_ & Hh & Hs)]; [by left|]. right. split; [done|].
    intros Hc. rewrite credentials_are_stripped in Hs by exact Hc. discriminate.
  - by apply enforced_under_policy.
Qed.

Lemma start_request_Ok u l u' : Usage.start_request u l = (Ok tt, u') ->
  Usage.requests u < Usage.request_ceiling l /\
  u' = {| Usage.requests := Usage.requests u + 1; Usage.output_bytes := Usage.output_bytes u;
          Usage.tokens := Usage.tokens u |}.
Proof.
  unfold Usage.start_request. intros H. repeat match type of H with context [if ?b then _ else _] => destruct b eqn:? end;
    simplify_eq; bool_prop; auto with lia.
Qed.

(** Sending an admitted request. *)
Lemma send_ok es st u request during answer :
  governed es st -> quarantined (job st) = false -> lawful_request es request ->
  Usage.start_request (usage st) (limits config) = (Ok tt, u) ->
  exists r st', send {| job := job st; usage := u; sent := sent st; streams := streams st |} request during answer
      = Some (r, st') /\ governed es st' /\ (forall ss, Forall stream_ok ss -> output_of ss = 0 ->
        governed es {| job := job st'; usage := usage st'; sent := sent st'; streams := streams st' ++ ss |}) /\
      (forall x, x ∈ during.*1 -> discloses fresh_job x -> quarantined (job st') = true).
Proof.
  intros (Hj & Hs & Hr & Ho & Hob & Hl & Hst) Hq Hreq Hu. unfold send. cbn [job usage sent streams].
  destruct (run_ok (encode_seed seed) watches (job st) ModelRequest during (ok_or answer tt) Hj)
    as (r & j & -> & Hj' & _ & Hdur & _). rewrite Hq. cbn [negb]. eexists r, _. split; [reflexivity|].
  assert (Hbase : forall ss, Forall stream_ok ss -> output_of ss = 0 ->
    governed es {| job := j; usage := u; sent := sent st ++ [request]; streams := streams st ++ ss |}).
  { intros ss Hss Hzero. apply start_request_Ok in Hu as [Hlt ->].
    unfold governed. cbn. rewrite length_app, output_of_app. cbn [length]. split_and!; try lia; auto;
      apply Forall_app; auto. }
  split; [|split; [exact Hbase|]].
  - specialize (Hbase [] ltac:(constructor) eq_refl). rewrite app_nil_r in Hbase. exact Hbase.
  - intros x Hx Hdis. apply (Hdur x Hx). exact (discloses_same _ _ _ _ x fresh_job_ok Hj Hdis).
Qed.

(** The records that a request shows to the observer: those of the other
    sessions while its body is read, the body, and, when it is sent, those of
    the other sessions until the provider answers. *)
Definition shown_by (r : Request) (st st' : State) (record : list Z) : Prop :=
  asks r /\ (record ∈ (before r).*1 \/ collect config (body r) = Ok record \/
            sent st' <> sent st /\ record ∈ (during r).*1).

(** What a request leaves of the job and of what was sent. *)
Definition guarded (r : Request) (st st' : State) : Prop :=
  (forall record, shown_by r st st' record -> discloses fresh_job record -> quarantined (job st') = true) /\
  (forall b, collect config (body r) = Ok b -> discloses fresh_job b -> sent st' = sent st).

Lemma guarded_quarantined r st j : quarantined j = true -> guarded r st (with_job st j).
Proof. intros Hq. by split. Qed.

Lemma guarded_refused r st j : ~ asks r -> guarded r st (with_job st j).
Proof. intros Hn. split; [|done]. by intros record [Ha _]. Qed.

Lemma handle_governed es r st : governed es st -> Serve r ∈ es ->
  exists resp st', handle_request parse print to_str header_name config r st = Some (resp, st') /\
    governed es st' /\ silenced st st' /\ guarded r st st'.
Proof.
  intros Hg Hin. unfold handle_request. pose proof Hg as (Hj & _).
  destruct (admit_ok _ _ (job st) ModelRequest Hj) as (j1 & Hj1 & Hq1 & ->).
  assert (Hsame : forall j (resp : Response), ok j -> (quarantined (job st) = true -> quarantined j = true) ->
    guarded r st (with_job st j) ->
    exists resp' st', Some (resp, with_job st j) = Some (resp', st') /\ governed es st' /\ silenced st st' /\ guarded r st st').
  { intros j resp Hok Hm Hgd. destruct (job_step_ok es st j Hg Hok Hm). eexists _, _. by split_and!. }
  destruct (quarantined (job st)) eqn:Hq; [apply Hsame; [exact Hj1|congruence|apply guarded_quarantined; congruence]|].
  match goal with |- context [if ?c then Some (Empty 200, _) else _] => destruct c eqn:Hhello end.
  { apply Hsame; [exact Hj1|congruence|]. apply guarded_refused. intros (Hm & _). rewrite Hm in Hhello. bool_prop. done. }
  destruct (_ || _) eqn:Hend.
  { apply Hsame; [exact Hj1|congruence|]. apply guarded_refused. intros (Hm & Hp & Hqa).
    rewrite Hm, Hp, Hqa, !(proj2 (str_eqb_eq _ _) eq_refl) in Hend. discriminate. }
  rewrite !orb_false_iff, !negb_false_iff, !str_eqb_eq in Hend. destruct Hend as [[Hm Hp] Hquery].
  assert (asks r) as Hasks by done. cbn [with_job job].
  destruct (run_ok _ _ j1 ModelRequest (before r) (collect config (body r)) Hj1)
    as (res & j2 & -> & Hj2 & _ & Hbefore & ->).
  assert (forall j, ok j -> forall x, discloses fresh_job x -> discloses j x) as Hdisc
    by (intros j Hok x; exact (discloses_same _ _ _ _ x fresh_job_ok Hok)).
  destruct (quarantined j2) eqn:Hq2; [apply Hsame; [exact Hj2|congruence|by apply guarded_quarantined]|].
  assert (Hclean : forall x, x ∈ (before r).*1 -> ~ discloses fresh_job x)
    by (intros x Hx Hd; discriminate (Hbefore x Hx (Hdisc j1 Hj1 x Hd))).
  destruct (collect config (body r)) as [b|] eqn:Hcol.
  2:{ apply Hsame; [exact Hj2|congruence|]. split; [|by rewrite Hcol].
      intros x (_ & [Hx|[Hx|[Hx _]]]) Hd; [by destruct (Hclean x Hx)|congruence|done]. }
  destruct (observe_ok _ _ j2 b Model Hj2) as (hit & j3 & -> & Hj3 & _ & Hdis & _).
  destruct (admit_ok _ _ j3 ModelRequest Hj3) as (j4 & Hj4 & Hq4 & ->).
  destruct (quarantined j3) eqn:Hq3; [apply Hsame; [exact Hj4|congruence|apply guarded_quarantined; congruence]|].
  assert (Hnot : ~ discloses fresh_job b) by (intros H; discriminate (Hdis (Hdisc j2 Hj2 b H))).
  assert (Hunsent : guarded r st (with_job st j4)).
  { split; [|done]. intros x (_ & [Hx|[Hx|[Hx _]]]) Hd; [by destruct (Hclean x Hx)| |done].
    rewrite Hcol in Hx. injection Hx as ->. by destruct Hnot. }
  cbn [with_job usage sent streams job].
  destruct (Policy.enforce_request_policy parse print b (backend config)) as [b'|[]] eqn:He;
    [|apply Hsame; [exact Hj4|congruence|exact Hunsent]..].
  destruct (Usage.start_request (usage st) (limits config)) as [[[]|kind] u] eqn:Hu;
    [|apply Hsame; [exact Hj4|congruence|exact Hunsent]].
  destruct (job_step_ok es st j4 Hg Hj4 ltac:(congruence)) as [Hg4 _].
  destruct (send_ok es (with_job st j4) u _ (during r) (answer r) Hg4 Hq4 (sent_is_lawful es r b b' Hin Hasks Hcol Hnot He) Hu)
    as (res & st' & Hsend & Hg' & Hg'' & Hdur). cbn [with_job job sent streams] in Hsend. rewrite Hsend.
  assert (Hsil : forall s, silenced st s) by (intros s Hs; congruence).
  assert (Hgd : forall s, job s = job st' -> guarded r st s).
  { intros s Es. split; [|intros x Hx Hd; rewrite Hcol in Hx; injection Hx as ->; by destruct Hnot].
    intros x (_ & [Hx|[Hx|[_ Hx]]]) Hd; [by destruct (Hclean x Hx)| |rewrite Es; by apply (Hdur x)].
    rewrite Hcol in Hx. injection Hx as ->. by destruct Hnot. }
  destruct res as [status|[]]; [|eauto 10..].
  destruct ((300 <=? status) && (status <=? 399)); [eauto 10|]. eexists _, _. split; [reflexivity|]. split; [|split; [apply Hsil|by apply Hgd]].
  apply Hg''; [|reflexivity]. repeat constructor. exists []. reflexivity.
Qed.

Lemma pull_ok s u q item s' u' : stream_ok s -> pull parse config s u q item = (s', u') ->
  Usage.output_bytes u <= Usage.output_ceiling_bytes (limits config) ->
  stream_ok s' /\ Usage.requests u' = Usage.requests u /\
  Usage.output_bytes u' - Usage.output_bytes u = Z.of_nat (length (capture s')) - Z.of_nat (length (capture s)) /\
  Usage.output_bytes u' <= Usage.output_ceiling_bytes (limits config) /\
  (q = true -> capture s' = capture s).
Proof.
  intros (Hd & Hp & Hall) H Hu. unfold pull in H.
  assert (Hframe : forall f, data_of (frames s ++ [f]) = capture s ++ match f with Data b => b | _ => [] end).
  { intros f. unfold data_of in *. rewrite bind_app, Hd. cbn. by rewrite app_nil_r. }
  destruct (ended s); [injection H as <- <-; split_and!; auto; unfold stream_ok; auto; lia|].
  destruct (terminal s || q) eqn:Hq; [injection H as <- <-; unfold stream_ok; cbn; split_and!; auto; lia|].
  apply orb_false_iff in Hq as [_ ->].
  destruct (overflowed s) eqn:Hov.
  { injection H as <- <-. unfold stream_ok. cbn. rewrite Hov, Hframe, app_nil_r. split_and!; auto; congruence || lia. }
  specialize (Hall eq_refl).
  destruct item as [bytes| |]; cbv beta zeta in H.
  - unfold Usage.reserve_output, Usage.saturating_sub_u64 in H.
    set (len := Z.of_nat (length bytes)) in *.
    set (allowed := Z.min _ len) in H.
    destruct (allowed =? 0) eqn:E0; cbn [Z.eqb] in H; [|rewrite E0 in H]; injection H as <- <-; bool_prop; cbn.
    + unfold stream_ok. cbn. rewrite Hframe, app_nil_r, Hall. split_and!; auto; try congruence; try lia.
      by eexists.
    + assert (Hpart : allowed <= len /\ 0 < allowed /\
        Usage.output_bytes u + allowed <= Usage.output_ceiling_bytes (limits config)) by lia.
      unfold stream_ok. cbn. rewrite Hframe, !length_app, length_take, Hall. split_and!; auto; try lia.
      * apply prefix_app, take_prefix || (exists (drop (Z.to_nat allowed) bytes); by rewrite <- app_assoc, take_drop).
      * intros Hlt. bool_prop. rewrite take_ge by lia. reflexivity.
  - injection H as <- <-. unfold stream_ok. cbn. rewrite Hframe, app_nil_r, Hov. split_and!; auto; lia.
  - injection H as <- <-. unfold stream_ok, Usage.add_tokens. cbn. split_and!; auto; lia.
Qed.

Lemma output_of_insert ss i s s' : ss !! i = Some s ->
  output_of (<[i := s']> ss) = output_of ss + Z.of_nat (length (capture s')) - Z.of_nat (length (capture s)).
Proof.
  revert i. induction ss as [|x ss IH]; intros [|i] H; cbn in H; simplify_eq.
  - unfold output_of. cbn. lia.
  - change (<[S i := s']> (x :: ss)) with (x :: <[i := s']> ss). specialize (IH i H).
    unfold output_of in *. cbn [foldr]. rewrite IH. lia.
Qed.

(** The records an event shows to the observer. *)
Definition shows (e : Event) (st st' : State) (record : list Z) : Prop :=
  match e with Serve r => shown_by r st st' record | Pull _ _ => False | Other x _ => record = x end.

Lemma broker_step_ok es e st : governed es st -> e ∈ es ->
  exists st', broker_step parse print to_str header_name config e st = Some st' /\ governed es st' /\ silenced st st' /\
    (forall record, shows e st st' record -> discloses fresh_job record -> quarantined (job st') = true) /\
    (forall r b, e = Serve r -> collect config (body r) = Ok b -> discloses fresh_job b -> sent st' = sent st).
Proof.
  intros Hg Hin. pose proof Hg as (Hj & Hs & Hr & Ho & Hob & Hl & Hst). destruct e as [r|i item|record b]; cbn [broker_step].
  - destruct (handle_governed es r st Hg Hin) as (resp & st' & -> & Hg' & Hsil & Hgd1 & Hgd2). exists st'.
    split_and!; auto. intros r' b [= <-]. apply Hgd2.
  - destruct (streams st !! i) as [s|] eqn:Hi; [|exists st; split_and!; try done; try (intros Hq; by split_and!)].
    destruct (pull parse config s (usage st) (quarantined (job st)) item) as [s' u'] eqn:Hp.
    assert (Hs0 : stream_ok s) by (rewrite Forall_forall in Hst; apply Hst; eapply list_elem_of_lookup_2; exact Hi).
    destruct (pull_ok s _ _ item s' u' Hs0 Hp Hob) as (Hs' & Hreq & Hout & Hob' & Hquiet).
    eexists. split; [reflexivity|]. split; [|split; [|split; done]].
    + unfold governed. cbn. rewrite (output_of_insert _ _ _ _ Hi), Hreq. split_and!; auto; [lia|].
      apply Forall_insert; assumption.
    + intros Hq. cbn. split; [exact Hq|]. split; [reflexivity|]. rewrite list_fmap_insert, Hquiet by exact Hq.
      apply list_insert_id. rewrite list_lookup_fmap, Hi. reflexivity.
  - destruct (observe_ok _ _ (job st) record b Hj) as (hit & j & -> & Hj' & Hm & Hd & _).
    destruct (job_step_ok es st j Hg Hj' Hm) as [Hg' Hsil]. exists (with_job st j). split_and!; auto; try done.
    intros x -> Hdis. apply Hd. exact (discloses_same _ _ _ _ record fresh_job_ok Hj Hdis).
Qed.

Lemma silenced_trans a b c : silenced a b -> silenced b c -> silenced a c.
Proof.
  intros H1 H2 Hq. destruct (H1 Hq) as (Hq1 & Hs1 & Hc1). destruct (H2 Hq1) as (Hq2 & Hs2 & Hc2).
  split; [exact Hq2|]. split; congruence.
Qed.

Lemma broker_run_ok all es st : governed all st -> es ⊆ all ->
  exists st', broker_run es st = Some st' /\ governed all st' /\ silenced st st'.
Proof.
  revert st. induction es as [|e es IH]; intros st Hg Hsub; cbn [Proxy.broker_run].
  { exists st. split_and!; auto. intros Hq; auto. }
  destruct (broker_step_ok all e st Hg) as (st1 & -> & Hg1 & Hs1 & _); [apply Hsub; by left|].
  destruct (IH st1 Hg1) as (st2 & Hr & Hg2 & Hs2); [intros x Hx; apply Hsub; by right|].
  exists st2. split_and!; auto. exact (silenced_trans _ _ _ Hs1 Hs2).
Qed.

(** C7: Along any sequence of requests, stream reads and observations of the
    job's other sessions, everything a provider receives is a request of the
    sandbox to the configured endpoint, with its query, its headers less every
    credential, the job's credential, and its body under the request policy
    (the body itself, or rewritten in the policy's fields only), where that body
    discloses no secret; there are at most as many requests as the request
    ceiling and at most as many bytes given back as the output ceiling, each
    stream a first part of what the provider sent and all of it until a ceiling
    is met.  A request whose body discloses a secret is not sent; and from an
    event on that shows a secret, in a request's own body or in a record of
    another session, before, while or after it is handled, nothing more is sent
    or given back. *)
Theorem provider_traffic_is_governed es1 e es2 :
  0 <= Usage.request_ceiling (limits config) -> 0 <= Usage.output_ceiling_bytes (limits config) ->
  exists st0 st1 st2, broker_run es1 (start fresh_job) = Some st0 /\
    broker_step parse print to_str header_name config e st0 = Some st1 /\ broker_run es2 st1 = Some st2 /\
    Forall (lawful_request (es1 ++ e :: es2)) (sent st2) /\
    Z.of_nat (length (sent st2)) <= Usage.request_ceiling (limits config) /\
    output_of (streams st2) <= Usage.output_ceiling_bytes (limits config) /\
    Forall stream_ok (streams st2) /\
    (forall r b, e = Serve r -> collect config (body r) = Ok b -> discloses fresh_job b -> sent st1 = sent st0) /\
    forall record, shows e st0 st1 record -> discloses fresh_job record ->
      sent st2 = sent st1 /\ capture <$> streams st2 = capture <$> streams st1.
Proof.
  intros Hr Ho. set (all := es1 ++ e :: es2).
  assert (Hg : governed all (start fresh_job)).
  { split; [exact fresh_job_ok|]. unfold start. cbn [sent usage streams Usage.requests Usage.output_bytes Usage.no_usage].
    split_and!; try reflexivity; try constructor; lia. }
  destruct (broker_run_ok all es1 _ Hg) as (st0 & H0 & Hg0 & _); [set_solver|].
  destruct (broker_step_ok all e st0 Hg0) as (st1 & H1 & Hg1 & _ & Hshow & Hown); [set_solver|].
  destruct (broker_run_ok all es2 _ Hg1) as (st2 & H2 & Hg2 & Hs); [set_solver|].
  exists st0, st1, st2. destruct Hg2 as (_ & G1 & G2 & G3 & G4 & G5 & G6). split_and!; auto; try lia.
  intros record Hrec Hdis. destruct (Hs (Hshow record Hrec Hdis)) as (_ & H). exact H.
Qed.
End Broker.

(** ** An instance *)

Definition example_backend : ModelBrokerBackend :=
  {| provider := Claude; model := lit "m"; effort := lit "high"; daybreak := DaybreakDefault |}.
Definition example_config : Proxy.Config :=
  {| Proxy.backend := example_backend; Proxy.auth := (lit "x-api-key", lit "real");
     Proxy.limits := {| Usage.request_ceiling := 2; Usage.output_ceiling_bytes := 3; Usage.token_ceiling := None |};
     Proxy.model_request_bytes := 100 |}.
Definition example_request : Proxy.Request :=
  {| Proxy.method := lit "POST"; Proxy.path := lit "/v1/messages"; Proxy.query := None;
     Proxy.headers := [(lit "authorization", lit "Bearer mine"); (lit "accept", lit "*/*")];
     Proxy.body := Some (lit "{}"); Proxy.before := []; Proxy.during := []; Proxy.answer := Some 200 |}.
Definition example_parse (b : list Z) : option Json.Value := if str_eqb b (lit "{}") then Some (Json.Object []) else None.
Definition example_print (v : Json.Value) : option (list Z) := Some (lit "{}").
Definition example_run :=
  Proxy.broker_run example_parse example_print (fun v => Some v) (fun n => Some n) example_config.

Definition example_leak : Proxy.Request :=
  {| Proxy.method := lit "POST"; Proxy.path := lit "/v1/messages"; Proxy.query := None; Proxy.headers := [];
     Proxy.body := Some (lit "key is 0102"); Proxy.before := []; Proxy.during := []; Proxy.answer := Some 200 |}.

Lemma provider_traffic_is_governed_witness :
  let es1 := [Proxy.Serve example_request; Proxy.Pull 0 (Proxy.Chunk (lit "abcd"))] in
  let es2 := [Proxy.Serve example_request; Proxy.Pull 0 (Proxy.Chunk (lit "e"))] in
  exists st0 st1 st2, example_run es1 (Proxy.start (job_security [1; 2] [])) = Some st0 /\
    example_run es2 st1 = Some st2 /\ Proxy.sent st1 = Proxy.sent st0 /\ Proxy.sent st2 = Proxy.sent st1 /\
    (Proxy.sent_headers <$> Proxy.sent st0) = [[(lit "accept", lit "*/*"); (lit "x-api-key", lit "real")]] /\
    (Proxy.capture <$> Proxy.streams st2) = (Proxy.capture <$> Proxy.streams st1).
Proof.
  intros es1 es2.
  destruct (provider_traffic_is_governed example_parse example_print (fun v => Some v) (fun n => Some n)
              example_config [1; 2] [] es1 (Proxy.Serve example_leak) es2 ltac:(cbn; lia) ltac:(cbn; lia))
    as (st0 & st1 & st2 & H0 & _ & H2 & _ & _ & _ & _ & Hown & H).
  exists st0, st1, st2. split; [exact H0|]. split; [exact H2|].
  assert (discloses (job_security [1; 2] []) (lit "key is 0102")) as Hd.
  { exists (lit "0102"). split; [vm_compute; left|left; reflexivity]. }
  destruct (H (lit "key is 0102")) as [Hs Hc]; [|exact Hd|].
  - split; [split_and!; reflexivity|]. right. left. reflexivity.
  - split; [exact (Hown _ _ eq_refl eq_refl Hd)|]. split; [exact Hs|]. split; [|exact Hc].
    vm_compute in H0. injection H0 as <-. reflexivity.
Defined.
