(* ===== verification/McpFraming.v ===== *)
(** * Records of the tool protocol

    [loupe-worker/src/mcp/framing.rs]: the bounded reader of line-framed records
    from a sandbox.  A record ends at a line feed, before which one carriage
    return is framing; at the end of the stream the rest is a record, and a
    carriage return in it is content.  No record is longer than the limit, and
    at most one byte more is ever held. *)

From S2P Require Import Prelude Text Fingerprint.
From Stdlib Require Import ZArith Lia.
From stdpp Require Import base sets list option numbers strings.
Local Open Scope Z_scope.

(** What the buffer of the reader is filled with next. *)
Inductive Fill := Bytes (available : list Z) | Broken.

Inductive FrameError := Oversized | BrokenStream.

(** [admitted_record_len] *)
Definition admitted_record_len (current take limit : Z) (pending_cr eof : bool) : option Z :=
  match usize_add current take with
  | None => None
  | Some required =>
      let framing := if pending_cr && negb eof then 1 else 0 in
      if Z.max 0 (required - framing) <=? limit then Some required else None
  end.

(** [iter().position] of the line feed *)
Fixpoint position (s : list Z) : option nat :=
  match s with
  | [] => None
  | b :: s => if b =? 10 then Some O else S <$> position s
  end.

(** [Vec::pop] *)
Definition pop (s : list Z) : list Z := take (length s - 1) s.

(** What is left in the buffer after [consume]. *)
Definition consume (n : nat) (available : list Z) (reader : list Fill) : list Fill :=
  match drop n available with
  | [] => reader
  | rest => Bytes rest :: reader
  end.

(** [next_record]: the record, if the stream has one, and the reader after it.
    The loop takes a whole buffer unless it returns. *)
Fixpoint next_record (limit : Z) (record : list Z) (reader : list Fill)
    : result FrameError (option (list Z) * list Fill) :=
  match reader with
  | Broken :: _ => Err BrokenStream
  | [] | Bytes [] :: _ =>
      match admitted_record_len (Z.of_nat (length record)) 0 limit false true with
      | None => Err Oversized
      | Some _ => Ok (if str_is_empty record then None else Some record, reader)
      end
  | Bytes available :: reader =>
      let newline := position available in
      let n := default (length available) newline in
      let last := match list.last (take n available) with Some b => Some b | None => list.last record end in
      let cr := bool_decide (last = Some 13) in
      match admitted_record_len (Z.of_nat (length record)) (Z.of_nat n) limit cr false with
      | None => Err Oversized
      | Some _ =>
          let record := record ++ take n available in
          match newline with
          | Some n => Ok (Some (if cr then pop record else record), consume (S n) available reader)
          | None => next_record limit record reader
          end
      end
  end.

(** ** Specification *)

(** The bytes of a stream whose reads do not fail. *)
Definition stream_bytes (reader : list Fill) : list Z :=
  reader ≫= fun f => match f with Bytes b => b | Broken => [] end.
Definition sound (reader : list Fill) : Prop :=
  Forall (fun f => match f with Bytes b => b <> [] | Broken => False end) reader.

(** The content of a line: without one carriage return at its end. *)
Definition content (line : list Z) : list Z := default line (strip_last 13 line).

Lemma position_None s : position s = None <-> 10 ∉ s.
Proof.
  induction s as [|b s IH]; cbn; [set_solver|]. destruct (b =? 10) eqn:E; bool_prop.
  - subst b. split; [discriminate|set_solver].
  - rewrite fmap_None, IH. set_solver.
Qed.

Lemma position_Some s n : position s = Some n ->
  exists p t, s = p ++ 10 :: t /\ 10 ∉ p /\ length p = n.
Proof.
  revert n. induction s as [|b s IH]; intros n; cbn; [discriminate|]. destruct (b =? 10) eqn:E; bool_prop.
  - subst b. intros [= <-]. exists [], s. set_solver.
  - intros H. apply fmap_Some in H as (m & Hm & ->). destruct (IH m Hm) as (p & t & -> & Hp & Hl).
    exists (b :: p), t. split; [reflexivity|]. split; [set_solver|]. simpl. congruence.
Qed.

Lemma last_default {A} (l k : list A) :
  match list.last k with Some b => Some b | None => list.last l end = list.last (l ++ k).
Proof.
  destruct k as [|x k _] using rev_ind; [by rewrite app_nil_r|]. by rewrite app_assoc, !last_snoc.
Qed.

Lemma pop_snoc s b : pop (s ++ [b]) = s.
Proof. unfold pop. rewrite length_app. simpl. rewrite Nat.add_sub. apply take_app_length. Qed.

Lemma content_cases s :
  (list.last s = Some 13 /\ content s = pop s /\ Z.of_nat (length (content s)) = Z.of_nat (length s) - 1) \/
  (list.last s <> Some 13 /\ content s = s).
Proof.
  unfold content, strip_last. destruct s as [|b s _] using rev_ind; [right; split; [discriminate|reflexivity]|].
  rewrite reverse_snoc, last_snoc. destruct (b =? 13) eqn:E; bool_prop.
  - subst b. left. rewrite reverse_involutive, pop_snoc, length_app. simpl. split_and!; auto; lia.
  - right. split; [congruence|reflexivity].
Qed.

Lemma stream_bytes_consume p t reader : stream_bytes (consume (S (length p)) (p ++ 10 :: t) reader) = t ++ stream_bytes reader.
Proof.
  unfold consume. replace (drop (S (length p)) (p ++ 10 :: t)) with t; [destruct t; reflexivity|].
  replace (p ++ 10 :: t) with ((p ++ [10]) ++ t) by (rewrite <- app_assoc; reflexivity).
  rewrite drop_app_le by (rewrite length_app; simpl; lia).
  rewrite drop_ge by (rewrite length_app; simpl; lia). reflexivity.
Qed.

Lemma sound_consume n available reader : sound reader -> sound (consume n available reader).
Proof. unfold consume. intros H. destruct (drop n available) eqn:E; [exact H|]. constructor; [discriminate|exact H]. Qed.

Lemma content_shorter s : Z.of_nat (length (content s)) <= Z.of_nat (length s).
Proof. destruct (content_cases s) as [(_ & _ & ->)|(_ & ->)]; lia. Qed.

Lemma content_grows s q : Z.of_nat (length (content s)) <= Z.of_nat (length (content (s ++ q))).
Proof.
  destruct q as [|c q]; [rewrite app_nil_r; lia|].
  pose proof (content_shorter s). destruct (content_cases (s ++ c :: q)) as [(_ & _ & ->)|(_ & ->)];
    rewrite length_app; simpl; lia.
Qed.

Lemma position_app p t : 10 ∉ p -> position (p ++ 10 :: t) = Some (length p).
Proof.
  induction p as [|b p IH]; intros Hp; [reflexivity|]. cbn.
  destruct (b =? 10) eqn:E; bool_prop; [subst b; set_solver|]. rewrite IH by set_solver. reflexivity.
Qed.

(** One turn of the loop on a buffer. *)
Lemma next_record_bytes limit record available reader : available <> [] ->
  next_record limit record (Bytes available :: reader) =
  let n := default (length available) (position available) in
  let record' := record ++ take n available in
  let cr := bool_decide (list.last record' = Some 13) in
  match admitted_record_len (Z.of_nat (length record)) (Z.of_nat n) limit cr false with
  | None => Err Oversized
  | Some _ => match position available with
              | Some n => Ok (Some (if cr then pop record' else record'), consume (S n) available reader)
              | None => next_record limit record' reader
              end
  end.
Proof. intros H. destruct available; [contradiction|]. cbn [next_record]. cbv zeta. by rewrite last_default. Qed.

Section Framing.
Context (limit : Z) (Hlimit : 0 <= limit < usize_max).

(** The first record of a stream of which [record] has been taken. *)
Definition framed (record : list Z) (reader : list Fill) (r : result FrameError (option (list Z) * list Fill)) : Prop :=
  (forall p t, record ++ stream_bytes reader = p ++ 10 :: t -> 10 ∉ p ->
     if Z.of_nat (length (content p)) <=? limit
     then exists reader', r = Ok (Some (content p), reader') /\ stream_bytes reader' = t /\ sound reader'
     else r = Err Oversized) /\
  (10 ∉ record ++ stream_bytes reader ->
     let s := record ++ stream_bytes reader in
     if Z.of_nat (length s) <=? limit then r = Ok (if str_is_empty s then None else Some s, []) else r = Err Oversized).

(** Lengths that fit a machine word, as those of buffers do. *)
Lemma admitted_within current n cr eof : 0 <= current -> 0 <= n -> current + n <= usize_max ->
  admitted_record_len current n limit cr eof =
  if Z.max 0 (current + n - (if cr && negb eof then 1 else 0)) <=? limit then Some (current + n) else None.
Proof.
  intros Hc Hn Hu. unfold admitted_record_len, usize_add, to_usize.
  replace ((0 <=? current + n) && (current + n <=? usize_max)) with true by lia. reflexivity.
Qed.

Lemma first_newline (p q t u : list Z) : p ++ 10 :: t = q ++ 10 :: u -> 10 ∉ p -> 10 ∉ q -> p = q /\ t = u.
Proof.
  revert q. induction p as [|a p IH]; intros [|b q] H Hp Hq; cbn [app] in H.
  - by injection H as ->.
  - injection H as <- _. set_solver.
  - injection H as -> _. set_solver.
  - injection H as -> H. destruct (IH q H) as [-> ->]; [set_solver|set_solver|auto].
Qed.

(** A line that starts with bytes that are no line feed runs past them. *)
Lemma line_extends (x r p t : list Z) : x ++ r = p ++ 10 :: t -> 10 ∉ x -> exists q, p = x ++ q.
Proof.
  revert p. induction x as [|c x IH]; intros p H Hx; [by exists p|].
  destruct p as [|d p]; cbn [app] in H; [injection H as -> _; set_solver|].
  injection H as -> H. destruct (IH p H ltac:(set_solver)) as [q ->]. by exists q.
Qed.

Lemma framed_end record : 10 ∉ record -> Z.of_nat (length record) <= usize_max ->
  framed record [] (next_record limit record []).
Proof.
  intros Hr Hlen. unfold framed. cbn [next_record stream_bytes mbind list_bind]. rewrite app_nil_r. split.
  - intros p t -> Hp. set_solver.
  - intros _. rewrite admitted_within by lia. cbn [andb negb].
    replace (Z.max 0 (Z.of_nat (length record) + 0 - 0)) with (Z.of_nat (length record)) by lia.
    destruct (_ <=? limit); reflexivity.
Qed.

(** The decision on a line is the one on its content. *)
Lemma admitted_content s : Z.of_nat (length s) <= usize_max ->
  (Z.max 0 (Z.of_nat (length s) - (if bool_decide (list.last s = Some 13) && negb false then 1 else 0)) <=? limit) =
  (Z.of_nat (length (content s)) <=? limit).
Proof.
  intros Hs. destruct (content_cases s) as [(Hl & _ & Hn)|(Hl & ->)].
  - rewrite bool_decide_eq_true_2 by exact Hl. cbn [andb negb]. rewrite Hn. f_equal.
    destruct s; [discriminate|simpl; lia].
  - rewrite bool_decide_eq_false_2 by exact Hl. cbn [andb negb]. f_equal. lia.
Qed.

Lemma content_popped s : (if bool_decide (list.last s = Some 13) then pop s else s) = content s.
Proof.
  destruct (content_cases s) as [(Hl & -> & _)|(Hl & ->)];
    [by rewrite bool_decide_eq_true_2|by rewrite bool_decide_eq_false_2].
Qed.

(** A buffer with a line feed ends the record. *)
Lemma framed_line record p t reader : 10 ∉ record -> 10 ∉ p -> sound reader ->
  Z.of_nat (length (record ++ p)) <= usize_max ->
  framed record (Bytes (p ++ 10 :: t) :: reader) (next_record limit record (Bytes (p ++ 10 :: t) :: reader)).
Proof.
  intros Hr Hp Hs Hlen. split.
  - intros p' t' H Hp'. change (stream_bytes _) with ((p ++ 10 :: t) ++ stream_bytes reader) in H.
    rewrite <- app_assoc in H. cbn [app] in H. rewrite app_assoc in H.
    destruct (first_newline (record ++ p) p' (t ++ stream_bytes reader) t' H) as [<- <-]; [set_solver|exact Hp'|].
    rewrite next_record_bytes by (destruct p; discriminate).
    rewrite position_app by exact Hp. cbv zeta. cbn [from_option id]. rewrite take_app_length.
    rewrite admitted_within by (rewrite length_app in Hlen; lia).
    rewrite <- Nat2Z.inj_add, <- length_app, admitted_content by exact Hlen.
    destruct (_ <=? limit); [|reflexivity]. rewrite content_popped. eexists. split; [reflexivity|].
    split; [apply stream_bytes_consume|apply sound_consume, Hs].
  - change (stream_bytes _) with ((p ++ 10 :: t) ++ stream_bytes reader). set_solver.
Qed.

(** A buffer without one is either taken or already too much. *)
Lemma framed_more record available reader : 10 ∉ record ++ available -> available <> [] ->
  Z.of_nat (length (record ++ available)) <= usize_max ->
  framed (record ++ available) reader (next_record limit (record ++ available) reader) ->
  framed record (Bytes available :: reader) (next_record limit record (Bytes available :: reader)).
Proof.
  intros Hr Ha Hlen [H1 H2]. unfold framed.
  change (stream_bytes (Bytes available :: reader)) with (available ++ stream_bytes reader). rewrite app_assoc.
  rewrite next_record_bytes by exact Ha.
  assert (Hpos : position available = None) by (apply position_None; set_solver).
  rewrite Hpos. cbv zeta. cbn [from_option id]. rewrite firstn_all.
  rewrite admitted_within by (rewrite length_app in Hlen; lia).
  rewrite <- Nat2Z.inj_add, <- length_app, admitted_content by exact Hlen.
  destruct (_ <=? limit) eqn:Hfit; bool_prop; [split; assumption|]. split.
  - intros p t H Hp. destruct (line_extends _ _ _ _ H Hr) as [q ->].
    replace (_ <=? limit) with false; [reflexivity|]. symmetry. apply Z.leb_gt.
    pose proof (content_grows (record ++ available) q). lia.
  - intros _. replace (_ <=? limit) with false; [reflexivity|]. symmetry. apply Z.leb_gt.
    rewrite length_app. pose proof (content_shorter (record ++ available)). lia.
Qed.

Lemma next_record_framed reader record : sound reader -> 10 ∉ record ->
  Z.of_nat (length (record ++ stream_bytes reader)) <= usize_max ->
  framed record reader (next_record limit record reader).
Proof.
  revert record. induction reader as [|f reader IH]; intros record Hs Hr Hlen.
  - apply framed_end; [exact Hr|]. by rewrite app_nil_r in Hlen.
  - inversion_clear Hs as [|? ? Hf Hs']. destruct f as [available|]; [|contradiction].
    change (stream_bytes _) with (available ++ stream_bytes reader) in Hlen.
    destruct (position available) as [n|] eqn:Hpos.
    + destruct (position_Some _ _ Hpos) as (p & t & -> & Hp & _). apply framed_line; auto.
      rewrite !length_app in *. lia.
    + apply position_None in Hpos. rewrite app_assoc in Hlen.
      apply framed_more; [set_solver|exact Hf|rewrite length_app in Hlen; lia|].
      apply IH; [exact Hs'|set_solver|exact Hlen].
Qed.
End Framing.

(** Every record takes at least a byte of the stream. *)
Lemma next_record_shorter limit reader record r reader' :
  next_record limit record reader = Ok (Some r, reader') ->
  (length (stream_bytes reader') < length record + length (stream_bytes reader))%nat.
Proof.
  revert record. induction reader as [|[available|] reader IH]; intros record; [| |discriminate].
  - cbn. destruct (admitted_record_len _ _ _ _ _); [|discriminate]. destruct record; [discriminate|]. intros [= <- <-]. cbn. lia.
  - destruct (decide (available = [])) as [->|Ha].
    { cbn. destruct (admitted_record_len _ _ _ _ _); [|discriminate]. destruct record; [discriminate|]. intros [= <- <-]. cbn. lia. }
    rewrite next_record_bytes by exact Ha. cbv zeta. destruct (admitted_record_len _ _ _ _ _); [|discriminate].
    change (stream_bytes (Bytes available :: reader)) with (available ++ stream_bytes reader). rewrite length_app.
    destruct (position available) as [n|] eqn:Hpos.
    + destruct (position_Some _ _ Hpos) as (p & t & -> & _ & <-). intros [= _ <-]. rewrite stream_bytes_consume.
      rewrite !length_app. cbn. lia.
    + cbn [from_option id]. rewrite firstn_all. intros H. specialize (IH _ H). rewrite length_app in IH. lia.
Qed.

(** C31: the reader of protocol records returns, however the stream is cut into
    buffers, exactly the bytes up to the first line feed without one trailing
    carriage return and leaves the reader just behind that line feed; without a
    line feed it returns all that is left, if anything is, a final carriage
    return included; and it refuses the record as oversized exactly when that
    content is longer than the limit, whatever was buffered. *)
Theorem records_are_framed_exactly limit reader :
  0 <= limit < usize_max -> sound reader -> Z.of_nat (length (stream_bytes reader)) <= usize_max ->
  let r := next_record limit [] reader in
  (forall line rest, stream_bytes reader = line ++ 10 :: rest -> 10 ∉ line ->
     if Z.of_nat (length (content line)) <=? limit
     then exists reader', r = Ok (Some (content line), reader') /\ stream_bytes reader' = rest /\ sound reader'
     else r = Err Oversized) /\
  (10 ∉ stream_bytes reader ->
     if Z.of_nat (length (stream_bytes reader)) <=? limit
     then r = Ok (if str_is_empty (stream_bytes reader) then None else Some (stream_bytes reader), [])
     else r = Err Oversized).
Proof. intros Hl Hs Hlen r. apply (next_record_framed limit Hl reader [] Hs); [set_solver|exact Hlen]. Qed.

(** A record of the limit whose carriage return and line feed come in later buffers. *)
Lemma records_are_framed_exactly_witness :
  exists reader', next_record 2 [] [Bytes [104; 105]; Bytes [13]; Bytes [10; 120]] = Ok (Some [104; 105], reader') /\
    stream_bytes reader' = [120] /\ sound reader'.
Proof.
  apply (proj1 (records_are_framed_exactly 2 [Bytes [104; 105]; Bytes [13]; Bytes [10; 120]]
    ltac:(unfold usize_max; lia) ltac:(unfold sound; repeat constructor; discriminate) ltac:(vm_compute; discriminate))
    [104; 105; 13] [120] eq_refl).
  rewrite !elem_of_cons. intros [?|[?|[?|?%elem_of_nil]]]; (discriminate || assumption).
Defined.
