(* ===== verification/LlmFinding.v ===== *)
(** * Strict findings of a language model: [loupe-proto/src/job_io.rs]

    The checks a server can make of a finding the model's broker submits:
    lengths, line range, path, CWE, fingerprint and the shape of the proof of
    concept, in the order of the code. *)
From Stdlib Require Import ZArith Lia.
From stdpp Require Import base list strings numbers.
From S2P Require Import Prelude Domain Text.
Local Open Scope Z_scope.

Definition LLM_FINDING_TITLE_MIN_CHARS : Z := 8.
Definition LLM_FINDING_TITLE_MAX_CHARS : Z := 100.
Definition LLM_FINDING_DESCRIPTION_MIN_CHARS : Z := 80.
Definition LLM_FINDING_DESCRIPTION_MAX_CHARS : Z := 16384.
Definition LLM_FINDING_POC_MAX_BYTES : Z := 256 * 1024.
Definition LLM_CODE_REVIEW_SCANNER_ID : str := lit "llm-code-review".

(** [LlmInput] of [loupe-server/src/ingress/jobs.rs], after decoding. *)
Record LlmInput := {
  li_protocol_version : Z;
  li_severity : Severity;
  li_title : str;
  li_description : str;
  li_file_path : str;
  li_line_start : Z;
  li_line_end : Z;
  li_cwe : option str;
  li_poc_unified : str;
  li_fingerprint : str;
}.

(** The refusals, one per message. *)
Inductive LlmRefusal :=
| LContent | LTitle | LDescription | LLines | LPath | LCwe | LFingerprint | LPocBytes | LPocShape.

#[export] Instance LlmRefusal_eq_dec : EqDecision LlmRefusal.
Proof. solve_decision. Defined.

(** [std::path::Path::components] of a Unix path. *)
Inductive Component := RootDir | CurDir | ParentDir | NormalName (name : str).

Definition component (leading : bool) (part : str) : list Component :=
  if str_is_empty part then []
  else if str_eqb part (lit ".") then (if leading then [CurDir] else [])
  else if str_eqb part (lit "..") then [ParentDir]
  else [NormalName part].

Definition is_absolute (raw : str) : bool := starts_with (lit "/") raw.

Definition components (raw : str) : list Component :=
  match split_on 47 raw with
  | [] => []
  | first :: rest =>
      (if is_absolute raw then [RootDir] else []) ++ component (negb (is_absolute raw)) first ++
      concat (component false <$> rest)
  end.

Definition is_normal (c : Component) : bool := match c with NormalName _ => true | _ => false end.

Definition llm_path_is_normalized (raw : str) : bool :=
  negb (str_is_empty (trim raw)) && negb (is_absolute raw) && forallb is_normal (components raw).

(** [str::lines]: lines end at a line feed, which takes a carriage return
    before it along; an empty last line is dropped. *)
Definition strip_cr (l : str) : str :=
  match reverse l with 13 :: r => reverse r | _ => l end.

Fixpoint lines_acc (line s : str) : list str :=
  match s with
  | [] => match line with [] => [] | _ => [line] end
  | c :: s' => if c =? 10 then strip_cr line :: lines_acc [] s' else lines_acc (line ++ [c]) s'
  end.
Definition str_lines (s : str) : list str := lines_acc [] s.

(** The state of [validate_llm_poc]'s loop. *)
Record PocScan := {
  has_old_file : bool;
  has_new_file : bool;
  in_hunk : bool;
  has_substantive_addition : bool;
}.

Definition substantive_addition (line : str) : bool :=
  starts_with (lit "+") line && negb (starts_with (lit "+++") line) && negb (str_is_empty (trim (drop 1 line))).

Definition poc_line (s : PocScan) (line : str) : PocScan :=
  if starts_with (lit "@@ ") line then {|
    has_old_file := has_old_file s; has_new_file := has_new_file s; in_hunk := true;
    has_substantive_addition := has_substantive_addition s |}
  else {|
    has_old_file := has_old_file s || (negb (in_hunk s) && starts_with (lit "--- ") line);
    has_new_file := has_new_file s || (negb (in_hunk s) && starts_with (lit "+++ ") line);
    in_hunk := in_hunk s;
    has_substantive_addition := has_substantive_addition s || (in_hunk s && substantive_addition line) |}.

Definition validate_llm_poc (poc : str) : result LlmRefusal unit :=
  if LLM_FINDING_POC_MAX_BYTES <? str_len poc then Err LPocBytes
  else
    let s := foldl poc_line {| has_old_file := false; has_new_file := false; in_hunk := false;
                               has_substantive_addition := false |} (str_lines poc) in
    if negb (has_old_file s) || negb (has_new_file s) || negb (in_hunk s) || negb (has_substantive_addition s)
    then Err LPocShape else Ok tt.

Definition within (lo hi n : Z) : bool := (lo <=? n) && (n <=? hi).

Definition cwe_ok (cwe : str) : bool :=
  let digits := if starts_with (lit "CWE-") cwe then drop 4 cwe else [] in
  negb (str_is_empty digits) && forallb is_ascii_digit (as_bytes digits).

Definition fingerprint_ok (fp : str) : bool :=
  (str_len fp =? 64) && forallb (fun b => is_ascii_digit b || ((97 <=? b) && (b <=? 102))) (as_bytes fp).

Definition validate_llm_finding (f : LlmInput) : result LlmRefusal unit :=
  _ ← map_err (fun _ => LContent)
        (ReportLimits.validate_report_content (li_description f) (Some (li_poc_unified f)) None);
  let title_len := Z.of_nat (length (trim (li_title f))) in
  if negb (within LLM_FINDING_TITLE_MIN_CHARS LLM_FINDING_TITLE_MAX_CHARS title_len) then Err LTitle
  else
  let description_len := Z.of_nat (length (trim (li_description f))) in
  if negb (within LLM_FINDING_DESCRIPTION_MIN_CHARS LLM_FINDING_DESCRIPTION_MAX_CHARS description_len)
  then Err LDescription
  else if (li_line_start f =? 0) || (li_line_end f <? li_line_start f) then Err LLines
  else if negb (llm_path_is_normalized (li_file_path f)) then Err LPath
  else if match li_cwe f with Some cwe => negb (cwe_ok cwe) | None => false end then Err LCwe
  else if negb (fingerprint_ok (li_fingerprint f)) then Err LFingerprint
  else validate_llm_poc (li_poc_unified f).

(** [LlmInput::into_finding] *)
Definition into_finding (f : LlmInput) : Finding := {|
  f_scanner_id := LLM_CODE_REVIEW_SCANNER_ID; f_severity := li_severity f; f_title := li_title f;
  f_description := li_description f; f_file_path := Some (li_file_path f);
  f_line_start := Some (li_line_start f); f_line_end := Some (li_line_end f); f_cwe := li_cwe f;
  f_patch_unified := None; f_poc_unified := Some (li_poc_unified f); f_fingerprint := li_fingerprint f |}.

(** ** Bytes of ASCII predicates *)

Lemma utf8_char_ascii p c :
  (forall b, p b = true -> 0 <= b < 128) -> forallb p (utf8_char c) = p c.
Proof.
  intros Hp. unfold utf8_char.
  assert (forall x, p (Z.lor 128 (Z.land x 63)) = false) as Hc.
  { intros x. apply not_true_is_false. intros Hx%Hp%ascii_byte. by rewrite continuation_byte in Hx. }
  repeat case_match; cbn; rewrite ?Hc, ?andb_true_r, ?andb_false_r; try done.
  all: symmetry; apply not_true_is_false; intros Hx%Hp; bool_prop; lia.
Qed.

Lemma as_bytes_ascii p s :
  (forall b, p b = true -> 0 <= b < 128) -> forallb p (as_bytes s) = forallb p s.
Proof.
  intros Hp. induction s as [|c s IH]; [done|].
  change (as_bytes (c :: s)) with (utf8_char c ++ as_bytes s). by rewrite forallb_app, utf8_char_ascii, IH.
Qed.

Lemma digit_ascii b : is_ascii_digit b = true -> 0 <= b < 128.
Proof. unfold is_ascii_digit. intros. bool_prop. lia. Qed.

Lemma ascii_str_len s : forallb (fun c => (0 <=? c) && (c <? 128)) s = true -> str_len s = Z.of_nat (length s).
Proof.
  induction s as [|c s IH]; cbn -[Z.of_nat]; [done|]. fold (str_len s). intros [Hc Hs]%andb_true_iff.
  rewrite (IH Hs). bool_prop. unfold len_utf8. destruct (Z.ltb_spec c 128); lia.
Qed.

(** ** The shape of a proof of concept *)

(** A unified diff: both file headers before the first hunk, and an added line
    that is not blank after it. *)
Definition unified_diff (poc : str) : Prop :=
  exists before hunk after,
    str_lines poc = before ++ hunk :: after /\
    starts_with (lit "@@ ") hunk = true /\
    Forall (fun l => starts_with (lit "@@ ") l = false) before /\
    Exists (fun l => starts_with (lit "--- ") l = true) before /\
    Exists (fun l => starts_with (lit "+++ ") l = true) before /\
    Exists (fun l => substantive_addition l = true) after.

Lemma addition_no_hunk l : substantive_addition l = true -> starts_with (lit "@@ ") l = false.
Proof.
  unfold substantive_addition. destruct l as [|c l]; [done|]. cbn. intros H. bool_prop. subst c. done.
Qed.

Lemma poc_line_hunk a b h t l :
  starts_with (lit "@@ ") l = true ->
  poc_line {| has_old_file := a; has_new_file := b; in_hunk := h; has_substantive_addition := t |} l =
  {| has_old_file := a; has_new_file := b; in_hunk := true; has_substantive_addition := t |}.
Proof. intros E. unfold poc_line. by rewrite E. Qed.

Lemma poc_line_other a b h t l :
  starts_with (lit "@@ ") l = false ->
  poc_line {| has_old_file := a; has_new_file := b; in_hunk := h; has_substantive_addition := t |} l =
  {| has_old_file := a || (negb h && starts_with (lit "--- ") l);
     has_new_file := b || (negb h && starts_with (lit "+++ ") l); in_hunk := h;
     has_substantive_addition := t || (h && substantive_addition l) |}.
Proof. intros E. unfold poc_line. by rewrite E. Qed.

Lemma scan_in_hunk a b ls t :
  foldl poc_line {| has_old_file := a; has_new_file := b; in_hunk := true; has_substantive_addition := t |} ls =
  {| has_old_file := a; has_new_file := b; in_hunk := true;
     has_substantive_addition := t || existsb substantive_addition ls |}.
Proof.
  revert t. induction ls as [|l ls IH]; intros t; [by rewrite orb_false_r|]. cbn [foldl existsb].
  destruct (starts_with (lit "@@ ") l) eqn:E; [rewrite poc_line_hunk by done|rewrite poc_line_other by done].
  - rewrite IH. destruct (substantive_addition l) eqn:Es; [|done].
    apply addition_no_hunk in Es. congruence.
  - cbn [negb andb]. rewrite !orb_false_r, IH. by rewrite orb_assoc.
Qed.

Lemma scan_before a b ls :
  Forall (fun l => starts_with (lit "@@ ") l = false) ls ->
  foldl poc_line {| has_old_file := a; has_new_file := b; in_hunk := false; has_substantive_addition := false |} ls =
  {| has_old_file := a || existsb (starts_with (lit "--- ")) ls;
     has_new_file := b || existsb (starts_with (lit "+++ ")) ls; in_hunk := false;
     has_substantive_addition := false |}.
Proof.
  intros H. revert a b. induction H as [|l ls Hl _ IH]; intros a b; [by rewrite !orb_false_r|].
  cbn [foldl existsb]. rewrite poc_line_other by done. cbn [negb andb orb]. rewrite IH. by rewrite !orb_assoc.
Qed.

(** The lines before the first hunk. *)
Lemma first_hunk ls :
  Forall (fun l => starts_with (lit "@@ ") l = false) ls \/
  exists before hunk after, ls = before ++ hunk :: after /\ starts_with (lit "@@ ") hunk = true /\
    Forall (fun l => starts_with (lit "@@ ") l = false) before.
Proof.
  induction ls as [|l ls [IH|(before & hunk & after & -> & Hh & Hb)]]; [by left|..];
    destruct (starts_with (lit "@@ ") l) eqn:E.
  - right. exists [], l, ls. done.
  - left. by apply Forall_cons_2.
  - right. exists [], l, (before ++ hunk :: after). done.
  - right. exists (l :: before), hunk, after. split; [done|]. split; [done|]. by apply Forall_cons_2.
Qed.

Lemma existsb_Exists {A} (p : A -> bool) l : existsb p l = true <-> Exists (fun x => p x = true) l.
Proof.
  rewrite existsb_exists, list.Exists_exists. setoid_rewrite list_elem_of_In. done.
Qed.

Lemma validate_llm_poc_Ok poc u :
  validate_llm_poc poc = Ok u <-> str_len poc <= LLM_FINDING_POC_MAX_BYTES /\ unified_diff poc.
Proof.
  destruct u. unfold validate_llm_poc. destruct (Z.ltb_spec LLM_FINDING_POC_MAX_BYTES (str_len poc)) as [|Hle].
  { split; [done|lia]. }
  cbv zeta. split.
  - intros H. split; [done|]. destruct (first_hunk (str_lines poc)) as [Hn|(before & hunk & after & E & Hh & Hb)].
    + rewrite scan_before in H by done. cbn in H. by rewrite orb_true_r in H.
    + rewrite E, foldl_app, scan_before in H by done. cbn [foldl] in H.
      rewrite poc_line_hunk, scan_in_hunk in H by done.
      cbn [has_old_file has_new_file in_hunk has_substantive_addition orb negb] in H. rewrite orb_false_r in H.
      destruct (existsb (starts_with (lit "--- ")) before) eqn:E1; [|discriminate].
      destruct (existsb (starts_with (lit "+++ ")) before) eqn:E2; [|discriminate].
      destruct (existsb substantive_addition after) eqn:E3; [|discriminate].
      exists before, hunk, after. rewrite existsb_Exists in E1, E2, E3. done.
  - intros (_ & before & hunk & after & E & Hh & Hb & H1 & H2 & H3). rewrite <- existsb_Exists in H1, H2, H3.
    rewrite E, foldl_app, scan_before by done. cbn [foldl]. rewrite poc_line_hunk, scan_in_hunk by done.
    cbn [has_old_file has_new_file in_hunk has_substantive_addition orb negb]. by rewrite H1, H2, H3.
Qed.

(** ** What the checks accept *)

Definition relative_path (raw : str) : Prop :=
  trim raw <> [] /\ ~ (exists rest, raw = lit "/" ++ rest) /\
  lit ".." ∉ split_on 47 raw /\ (forall rest, split_on 47 raw <> lit "." :: rest).

Lemma component_normal leading part :
  forallb is_normal (component leading part) = true <->
  part <> lit ".." /\ (leading = true -> part <> lit ".").
Proof.
  unfold component. destruct part as [|c part]; [by split|]. cbn [str_is_empty].
  destruct (str_eqb (c :: part) (lit ".")) eqn:E1; [apply str_eqb_eq in E1; rewrite E1; by destruct leading; naive_solver|].
  destruct (str_eqb (c :: part) (lit "..")) eqn:E2; [apply str_eqb_eq in E2; rewrite E2; naive_solver|].
  split; [intros _|done].
  split; [intros E|intros _ E]; rewrite E in *; [by rewrite (proj2 (str_eqb_eq _ _) eq_refl) in E2|].
  by rewrite (proj2 (str_eqb_eq _ _) eq_refl) in E1.
Qed.

Lemma components_normal parts :
  forallb is_normal (concat (component false <$> parts)) = true <-> lit ".." ∉ parts.
Proof.
  induction parts as [|part parts IH]; cbn [fmap list_fmap concat].
  - split; [intros _; apply not_elem_of_nil|done].
  - rewrite forallb_app, andb_true_iff, component_normal, IH, not_elem_of_cons. naive_solver.
Qed.

Lemma llm_path_is_normalized_true raw : llm_path_is_normalized raw = true <-> relative_path raw.
Proof.
  unfold llm_path_is_normalized, relative_path.
  rewrite !andb_true_iff, !negb_true_iff.
  assert (str_is_empty (trim raw) = false <-> trim raw <> []) as -> by (destruct (trim raw); naive_solver).
  assert (is_absolute raw = false <-> ~ (exists rest, raw = lit "/" ++ rest)) as ->
    by (rewrite <- not_true_iff_false; unfold is_absolute; by rewrite starts_with_true).
  cut (~ (exists rest, raw = lit "/" ++ rest) ->
    forallb is_normal (components raw) = true <->
    lit ".." ∉ split_on 47 raw /\ (forall rest, split_on 47 raw <> lit "." :: rest)); [tauto|intros Habs].
  unfold components. destruct (split_on_cons 47 raw) as (first & rest & E). rewrite E.
  assert (is_absolute raw = false) as ->
    by (rewrite <- not_true_iff_false; unfold is_absolute; by rewrite starts_with_true).
  cbn [app negb]. rewrite forallb_app, andb_true_iff, component_normal, components_normal, not_elem_of_cons.
  naive_solver.
Qed.

Definition digits (s : str) : Prop := s <> [] /\ Forall (fun c => 48 <= c <= 57) s.

Lemma cwe_ok_true cwe : cwe_ok cwe = true <-> exists n, cwe = lit "CWE-" ++ n /\ digits n.
Proof.
  unfold cwe_ok, digits. rewrite as_bytes_ascii by apply digit_ascii.
  assert (forall n, negb (str_is_empty n) && forallb is_ascii_digit n = true <->
                    n <> [] /\ Forall (fun c => 48 <= c <= 57) n) as Hd.
  { intros n. rewrite andb_true_iff, forallb_forall, list.Forall_forall. setoid_rewrite list_elem_of_In.
    unfold is_ascii_digit. setoid_rewrite andb_true_iff. setoid_rewrite Z.leb_le.
    assert (negb (str_is_empty n) = true <-> n <> []) as -> by (destruct n; naive_solver). done. }
  rewrite Hd. destruct (starts_with (lit "CWE-") cwe) eqn:E.
  - apply starts_with_true in E as (n & ->). change (drop 4 (lit "CWE-" ++ n)) with n.
    split; [intros H; by exists n|]. intros (n' & E & H). by apply app_inv_head in E as <-.
  - split; [naive_solver|]. intros (n & -> & _). assert (starts_with (lit "CWE-") (lit "CWE-" ++ n) = true)
      by (apply starts_with_true; by exists n). congruence.
Qed.

Lemma fingerprint_ok_true fp :
  fingerprint_ok fp = true <-> length fp = 64%nat /\ Forall (fun c => 48 <= c <= 57 \/ 97 <= c <= 102) fp.
Proof.
  unfold fingerprint_ok.
  rewrite as_bytes_ascii by (intros b; unfold is_ascii_digit; rewrite orb_true_iff, !andb_true_iff, !Z.leb_le; lia).
  set (p := fun b => is_ascii_digit b || ((97 <=? b) && (b <=? 102))).
  assert (forall c, p c = true <-> 48 <= c <= 57 \/ 97 <= c <= 102) as Hp.
  { intros c. unfold p, is_ascii_digit. rewrite orb_true_iff, !andb_true_iff, !Z.leb_le. lia. }
  assert (forallb p fp = true <-> Forall (fun c => 48 <= c <= 57 \/ 97 <= c <= 102) fp) as Hf.
  { rewrite forallb_forall, list.Forall_forall. setoid_rewrite list_elem_of_In. setoid_rewrite Hp. done. }
  rewrite andb_true_iff, Hf, Z.eqb_eq. split; intros [Hl Ha]; split; try done.
  - rewrite ascii_str_len in Hl; [lia|]. apply forallb_forall. intros c Hc%list_elem_of_In.
    rewrite list.Forall_forall in Ha. specialize (Ha c Hc). apply andb_true_iff. rewrite Z.leb_le, Z.ltb_lt. lia.
  - rewrite ascii_str_len; [lia|]. apply forallb_forall. intros c Hc%list_elem_of_In.
    rewrite list.Forall_forall in Ha. specialize (Ha c Hc). apply andb_true_iff. rewrite Z.leb_le, Z.ltb_lt. lia.
Qed.

(** A finding the strict endpoint may store. *)
Record admissible (f : LlmInput) : Prop := {
  adm_content : Z.of_nat (length (li_description f)) + Z.of_nat (length (li_poc_unified f)) <=
                ReportLimits.REPORT_CONTENT_MAX_CHARS;
  adm_title : 8 <= Z.of_nat (length (trim (li_title f))) <= 100;
  adm_description : 80 <= Z.of_nat (length (trim (li_description f))) <= 16384;
  adm_lines : li_line_start f <> 0 /\ li_line_start f <= li_line_end f;
  adm_path : relative_path (li_file_path f);
  adm_cwe : forall cwe, li_cwe f = Some cwe -> exists n, cwe = lit "CWE-" ++ n /\ digits n;
  adm_fingerprint : length (li_fingerprint f) = 64%nat /\
                    Forall (fun c => 48 <= c <= 57 \/ 97 <= c <= 102) (li_fingerprint f);
  adm_poc_bytes : str_len (li_poc_unified f) <= 262144;
  adm_poc : unified_diff (li_poc_unified f);
}.

Lemma within_true lo hi n : within lo hi n = true <-> lo <= n <= hi.
Proof. unfold within. by rewrite andb_true_iff, !Z.leb_le. Qed.

(** C40: the strict endpoint accepts exactly the admissible findings of a
    language model: bounded title, description and report content, an ordered
    line range, a relative path that never leaves the repository, a CWE and a
    fingerprint of their forms, and a proof of concept that is a unified diff
    with both file headers before its first hunk and a non-blank added line in
    one. *)
Theorem llm_findings_are_exact f : validate_llm_finding f = Ok tt <-> admissible f.
Proof.
  unfold validate_llm_finding. cbv zeta. rewrite result_bind_Ok.
  assert ((exists a, map_err (fun _ => LContent) (ReportLimits.validate_report_content (li_description f)
      (Some (li_poc_unified f)) None) = Ok a) <->
    Z.of_nat (length (li_description f)) + Z.of_nat (length (li_poc_unified f)) <=
    ReportLimits.REPORT_CONTENT_MAX_CHARS) as Hc.
  { unfold ReportLimits.validate_report_content, ReportLimits.report_content_within_cap, ReportLimits.opt_chars.
    rewrite Z.add_0_r. destruct (Z.leb_spec (Z.of_nat (length (li_description f)) + Z.of_nat (length (li_poc_unified f)))
      ReportLimits.REPORT_CONTENT_MAX_CHARS); cbn; split; try done; try lia; [by exists tt|by intros (? & ?)]. }
  pose proof (within_true LLM_FINDING_TITLE_MIN_CHARS LLM_FINDING_TITLE_MAX_CHARS
    (Z.of_nat (length (trim (li_title f))))) as Ht.
  pose proof (within_true LLM_FINDING_DESCRIPTION_MIN_CHARS LLM_FINDING_DESCRIPTION_MAX_CHARS
    (Z.of_nat (length (trim (li_description f))))) as Hd.
  pose proof (llm_path_is_normalized_true (li_file_path f)) as Hp.
  pose proof (fingerprint_ok_true (li_fingerprint f)) as Hf.
  split.
  - intros (a & Ha & H).
    destruct (within LLM_FINDING_TITLE_MIN_CHARS _ _); [|done]. destruct (within LLM_FINDING_DESCRIPTION_MIN_CHARS _ _); [|done].
    cbn [negb] in H.
    destruct ((li_line_start f =? 0) || (li_line_end f <? li_line_start f)) eqn:El; [done|]. bool_prop.
    destruct (llm_path_is_normalized (li_file_path f)); [|done]. cbn [negb] in H.
    destruct (match li_cwe f with Some _ => _ | None => _ end) eqn:Ec; [done|].
    destruct (fingerprint_ok (li_fingerprint f)); [|done]. cbn [negb] in H.
    apply validate_llm_poc_Ok in H as [Hb Hu].
    split; try done; [apply Hc; by exists a|by apply Ht|by apply Hd|by apply Hp| |by apply Hf].
    intros cwe Ew. rewrite Ew in Ec. apply negb_false_iff in Ec. by apply cwe_ok_true.
  - intros [H1 H2 H3 [H4 H4'] H5 H6 H7 H8 H9]. apply Hc in H1 as [a Ha]. exists a. split; [done|].
    rewrite (proj2 Ht H2), (proj2 Hd H3), (proj2 Hp H5), (proj2 Hf H7). cbn [negb].
    destruct (Z.eqb_spec (li_line_start f) 0); [done|]. destruct (Z.ltb_spec (li_line_end f) (li_line_start f)); [lia|].
    cbn [orb].
    assert (match li_cwe f with Some cwe => negb (cwe_ok cwe) | None => false end = false) as ->.
    { destruct (li_cwe f) as [cwe|]; [|done]. apply negb_false_iff, cwe_ok_true. by apply H6. }
    by apply validate_llm_poc_Ok.
Qed.
