(* ===== verification/InventoryManifest.v ===== *)
(** * Inventory manifests ([loupe-core/src/inventory_manifest.rs])

    The identity of a repository's inventory: entries admitted from raw Git
    observations, and the streaming hasher over their canonical encoding that
    the worker's host and the server both run.  The hash function is a
    parameter; the hasher is the bytes it was fed. *)

From Stdlib Require Import ZArith Lia.
From stdpp Require Import base list strings numbers sorting.
From S2P Require Import Prelude Store Text.
Local Open Scope Z_scope.

Definition MAX_ENTRIES : Z := 1000000.
Definition MAX_BYTES : Z := 256 * 1024 * 1024.
Definition MAX_PATH_BYTES : Z := 64 * 1024.
Definition u64_max : Z := 18446744073709551615.

Record ManifestEntry := { raw_path : bytes; git_mode : Z; object_id : str }.

(** The [&'static str] errors. *)
Inductive ManifestError :=
| UnsupportedMode
| InvalidObjectId
| InvalidPathEncoding
| InvalidPath
| EntryLimit
| NotOrdered
| ByteLimit
| Incomplete.

Definition is_hex (byte : Z) : bool := ((48 <=? byte) && (byte <=? 57)) || ((97 <=? byte) && (byte <=? 102)).

Definition is_git_oid (value : str) : bool :=
  ((str_len value =? 40) || (str_len value =? 64)) && forallb is_hex value.

Definition is_submodule_mode (mode : Z) : result ManifestError bool :=
  if (mode =? 33188) || (mode =? 33261) || (mode =? 40960) then Ok false
  else if mode =? 57344 then Ok true
  else Err UnsupportedMode.

Definition digit (byte : Z) : Z := if byte <=? 57 then byte - 48 else byte - 97 + 10.

(** Over the whole pairs of [as_chunks::<2>()]. *)
Fixpoint hex_bytes (value : str) : bytes :=
  match value with
  | a :: b :: value' => (digit a * 16 + digit b) :: hex_bytes value'
  | _ => []
  end.

Definition oid_bytes (value : str) : result ManifestError bytes :=
  if negb (is_git_oid value) then Err InvalidObjectId else Ok (hex_bytes value).

Definition from_parts (raw : bytes) (mode : Z) (oid : str) : result ManifestError ManifestEntry :=
  if bool_decide (raw = []) || (MAX_PATH_BYTES <? Z.of_nat (length raw)) || existsb (fun b => b =? 0) raw ||
     existsb (fun part => bool_decide (part = []) || bool_decide (part = [46]) || bool_decide (part = [46; 46]))
       (split_on 47 raw)
  then Err InvalidPath
  else
    _ ← is_submodule_mode mode;
    if negb (is_git_oid oid) then Err InvalidObjectId
    else Ok {| raw_path := raw; git_mode := mode; object_id := oid |}.

Definition from_encoded (raw : str) (mode : Z) (oid : str) : result ManifestError ManifestEntry :=
  if bool_decide (raw = []) || (MAX_PATH_BYTES * 2 <? str_len raw) || negb (str_len raw mod 2 =? 0) ||
     negb (forallb is_hex raw)
  then Err InvalidPathEncoding
  else from_parts (hex_bytes raw) mode oid.

(** [as u64] of sums that cannot reach [u64::MAX]. *)
Definition canonical_len (e : ManifestEntry) : Z :=
  4 + Z.of_nat (length (raw_path e)) + 4 + 1 + str_len (object_id e) / 2.

(** [to_be_bytes] of a [width]-byte integer. *)
Fixpoint to_be_bytes (width : nat) (n : Z) : bytes :=
  match width with
  | O => []
  | S w => (n / 256 ^ Z.of_nat w) mod 256 :: to_be_bytes w n
  end.

(** [Ord for Vec<u8>] *)
Fixpoint bytes_ge (a b : bytes) : bool :=
  match a, b with
  | _, [] => true
  | [], _ :: _ => false
  | x :: a', y :: b' => (y <? x) || ((x =? y) && bytes_ge a' b')
  end.

Record ManifestHasher := {
  mh_fed : bytes;
  mh_expected : Z;
  mh_received : Z;
  mh_bytes : Z;
  mh_previous : option bytes;
}.

Definition hasher_new (commit : str) (expected : Z) : result ManifestError ManifestHasher :=
  if MAX_ENTRIES <? expected then Err EntryLimit
  else
    commit ← oid_bytes commit;
    Ok {| mh_fed := lit "loupe.inventory.v1" ++ [0] ++ [Z.of_nat (length commit) mod 256] ++ commit ++
                    to_be_bytes 8 expected;
          mh_expected := expected; mh_received := 0; mh_bytes := 0; mh_previous := None |}.

Definition push (h : ManifestHasher) (e : ManifestEntry) : result ManifestError ManifestHasher :=
  let len := canonical_len e in
  if (mh_expected h <=? mh_received h) ||
     match mh_previous h with Some previous => bytes_ge previous (raw_path e) | None => false end
  then Err NotOrdered
  else
    let total := mh_bytes h + len in
    if (u64_max <? total) || (MAX_BYTES <? total) then Err ByteLimit
    else
      oid ← oid_bytes (object_id e);
      Ok {| mh_fed := mh_fed h ++ to_be_bytes 4 (Z.of_nat (length (raw_path e)) mod 4294967296) ++ raw_path e ++
                      to_be_bytes 4 (git_mode e) ++ [Z.of_nat (length oid) mod 256] ++ oid;
            mh_expected := mh_expected h; mh_received := mh_received h + 1; mh_bytes := total;
            mh_previous := Some (raw_path e) |}.

(** [*self.hasher.finalize().as_bytes()] of what was fed. *)
Definition finish (blake3 : bytes -> bytes) (h : ManifestHasher) : result ManifestError bytes :=
  if negb (mh_received h =? mh_expected h) then Err Incomplete else Ok (blake3 (mh_fed h)).

(** ** The canonical encoding *)

Definition bytes_lt (a b : bytes) : Prop := bytes_ge a b = false.

(** Entries as the constructors admit them. *)
Definition admitted (e : ManifestEntry) : Prop := from_parts (raw_path e) (git_mode e) (object_id e) = Ok e.

Definition encode_entry (e : ManifestEntry) : bytes :=
  to_be_bytes 4 (Z.of_nat (length (raw_path e)) mod 4294967296) ++ raw_path e ++
  to_be_bytes 4 (git_mode e) ++ [Z.of_nat (length (hex_bytes (object_id e))) mod 256] ++ hex_bytes (object_id e).

Definition encode_header (commit : str) (expected : Z) : bytes :=
  lit "loupe.inventory.v1" ++ [0] ++ [Z.of_nat (length (hex_bytes commit)) mod 256] ++ hex_bytes commit ++
  to_be_bytes 8 expected.

Definition encode (commit : str) (es : list ManifestEntry) : bytes :=
  encode_header commit (Z.of_nat (length es)) ++ concat (encode_entry <$> es).

Definition entries_len (es : list ManifestEntry) : Z := foldr (fun e n => canonical_len e + n) 0 es.

(** A whole stream. *)
Fixpoint push_all (h : ManifestHasher) (es : list ManifestEntry) : result ManifestError ManifestHasher :=
  match es with
  | [] => Ok h
  | e :: es' => h ← push h e; push_all h es'
  end.

Definition digest (blake3 : bytes -> bytes) (commit : str) (expected : Z) (es : list ManifestEntry)
    : result ManifestError bytes :=
  h ← hasher_new commit expected; h ← push_all h es; finish blake3 h.

Lemma is_submodule_mode_range mode b : is_submodule_mode mode = Ok b -> 0 <= mode < 65536.
Proof. unfold is_submodule_mode. repeat case_match; try done; intros _; lia. Qed.

Lemma admitted_Some e :
  admitted e -> 0 < Z.of_nat (length (raw_path e)) <= MAX_PATH_BYTES /\ 0 <= git_mode e < 65536 /\
  is_git_oid (object_id e) = true.
Proof.
  unfold admitted, from_parts. destruct (_ || _) eqn:E; [done|]. rewrite !orb_false_iff in E.
  destruct E as [[[E1 E2] _] _]. destruct (is_submodule_mode (git_mode e)) as [b|] eqn:Em; [|done]. cbn.
  apply is_submodule_mode_range in Em. destruct (negb (is_git_oid _)) eqn:Eo; [done|]. intros _.
  apply negb_false_iff in Eo. apply bool_decide_eq_false in E1. apply Z.ltb_ge in E2. split; [|done].
  destruct (raw_path e); [done|]. cbn [length] in *. lia.
Qed.

(** ** Accepting streams *)

Lemma canonical_len_pos e : 0 < canonical_len e.
Proof.
  unfold canonical_len. pose proof (Z.div_pos (str_len (object_id e)) 2 (str_len_nonneg _) eq_refl). lia.
Qed.

Lemma entries_len_nonneg es : 0 <= entries_len es.
Proof.
  unfold entries_len. induction es as [|e es IH]; cbn [foldr]; [lia|]. pose proof (canonical_len_pos e). lia.
Qed.

Fixpoint ordered (previous : option bytes) (es : list ManifestEntry) : Prop :=
  match es with
  | [] => True
  | e :: es' =>
      match previous with Some p => bytes_lt p (raw_path e) | None => True end /\ ordered (Some (raw_path e)) es'
  end.

Lemma push_Ok h e h' :
  admitted e ->
  push h e = Ok h' <->
  mh_received h < mh_expected h /\
  match mh_previous h with Some p => bytes_lt p (raw_path e) | None => True end /\
  mh_bytes h + canonical_len e <= MAX_BYTES /\
  h' = {| mh_fed := mh_fed h ++ encode_entry e; mh_expected := mh_expected h; mh_received := mh_received h + 1;
          mh_bytes := mh_bytes h + canonical_len e; mh_previous := Some (raw_path e) |}.
Proof.
  intros (_ & _ & Ho)%admitted_Some. unfold push, oid_bytes. rewrite Ho. cbn [negb mbind result_bind].
  destruct (mh_expected h <=? mh_received h) eqn:E1; cbn [orb]; [apply Z.leb_le in E1; split; [done|lia]|].
  apply Z.leb_gt in E1. unfold bytes_lt.
  destruct (match mh_previous h with Some p => bytes_ge p (raw_path e) | None => false end) eqn:E2.
  { split; [done|]. destruct (mh_previous h); [|done]. intros (_ & H & _). congruence. }
  destruct ((u64_max <? _) || _) eqn:E3.
  - split; [done|]. apply orb_true_iff in E3 as [H%Z.ltb_lt|H%Z.ltb_lt]; unfold MAX_BYTES, u64_max in *; lia.
  - apply orb_false_iff in E3 as [_ E3%Z.ltb_ge]. split.
    + intros [= <-]. split_and!; try done. by destruct (mh_previous h).
    + by intros (_ & _ & _ & ->).
Qed.

Definition last_path (previous : option bytes) (es : list ManifestEntry) : option bytes :=
  match last es with Some e => Some (raw_path e) | None => previous end.

Lemma last_path_cons previous e es : last_path previous (e :: es) = last_path (Some (raw_path e)) es.
Proof. unfold last_path. rewrite last_cons. by destruct (last es). Qed.

Lemma push_all_Ok es h h' :
  Forall admitted es -> mh_received h <= mh_expected h -> mh_bytes h <= MAX_BYTES ->
  push_all h es = Ok h' <->
  mh_received h + Z.of_nat (length es) <= mh_expected h /\ ordered (mh_previous h) es /\
  mh_bytes h + entries_len es <= MAX_BYTES /\
  h' = {| mh_fed := mh_fed h ++ concat (encode_entry <$> es); mh_expected := mh_expected h;
          mh_received := mh_received h + Z.of_nat (length es); mh_bytes := mh_bytes h + entries_len es;
          mh_previous := last_path (mh_previous h) es |}.
Proof.
  intros Ha. revert h. induction Ha as [|e es He Ha IH]; intros h Hr Hb.
  { cbn. rewrite app_nil_r, !Z.add_0_r. destruct h; cbn in *. split; [by intros [= <-]|by intros (_ & _ & _ & ->)]. }
  cbn [push_all length entries_len foldr ordered fmap list_fmap concat]. fold (entries_len es).
  pose proof (entries_len_nonneg es). split.
  - intros (h1 & H1 & H2)%result_bind_Ok. apply (push_Ok _ _ _ He) in H1 as (Hlt & Hp & Hm & ->).
    apply IH in H2 as (? & ? & ? & ->); cbn [mh_fed mh_expected mh_received mh_bytes mh_previous] in *; [|lia..]. split_and!; [lia|done|done|lia|].
    rewrite last_path_cons. cbn [concat fmap list_fmap]. f_equal; [by rewrite ?app_assoc|lia|lia].
  - intros (Hlt & [Hp Ho] & Hm & ->). apply result_bind_Ok. eexists. split.
    + apply (push_Ok _ _ _ He). split_and!; [lia|done|lia|reflexivity].
    + apply IH; cbn [mh_fed mh_expected mh_received mh_bytes mh_previous]; [lia..|]. split_and!; [lia|done|lia|].
      rewrite last_path_cons. cbn [concat fmap list_fmap]. f_equal; [by rewrite ?app_assoc|lia|lia].
Qed.

(** ** The encoding is injective *)

Fixpoint be_value (bs : bytes) : Z :=
  match bs with [] => 0 | b :: bs' => b * 256 ^ Z.of_nat (length bs') + be_value bs' end.

Lemma to_be_bytes_length w n : length (to_be_bytes w n) = w.
Proof. induction w as [|w IH]; cbn; [done|by rewrite IH]. Qed.

Lemma be_value_to_be w n : be_value (to_be_bytes w n) = n mod 256 ^ Z.of_nat w.
Proof.
  induction w as [|w IH]; [cbn; by rewrite Z.mod_1_r|].
  cbn [to_be_bytes be_value]. rewrite to_be_bytes_length, IH, Nat2Z.inj_succ, Z.pow_succ_r by lia.
  rewrite (Z.mul_comm 256), Z.rem_mul_r by lia. lia.
Qed.

Lemma to_be_bytes_inj w n m :
  0 <= n < 256 ^ Z.of_nat w -> 0 <= m < 256 ^ Z.of_nat w -> to_be_bytes w n = to_be_bytes w m -> n = m.
Proof.
  intros Hn Hm E. apply (f_equal be_value) in E. rewrite !be_value_to_be, !Z.mod_small in E by done. done.
Qed.

Lemma is_hex_range b : is_hex b = true -> 48 <= b <= 57 \/ 97 <= b <= 102.
Proof. unfold is_hex. rewrite orb_true_iff, !andb_true_iff, !Z.leb_le. lia. Qed.

Lemma hex_len v : forallb is_hex v = true -> str_len v = Z.of_nat (length v).
Proof.
  induction v as [|c v IH]; [done|]. cbn [forallb]. intros [Hc Hv]%andb_true_iff.
  change (str_len (c :: v)) with (len_utf8 c + str_len v). rewrite (IH Hv). cbn [length].
  apply is_hex_range in Hc. unfold len_utf8. repeat case_match; lia.
Qed.

Lemma digit_inj a b : is_hex a = true -> is_hex b = true -> digit a = digit b -> a = b.
Proof. intros Ha%is_hex_range Hb%is_hex_range. unfold digit. repeat case_match; lia. Qed.

Lemma digit_range a : is_hex a = true -> 0 <= digit a < 16.
Proof. intros Ha%is_hex_range. unfold digit. case_match; lia. Qed.

(** Induction over pairs of characters. *)
Lemma pairs_ind (P : str -> Prop) :
  P [] -> (forall a, P [a]) -> (forall a b v, P v -> P (a :: b :: v)) -> forall v, P v.
Proof.
  intros H0 H1 H2 v. enough (P v /\ forall a, P (a :: v)) by tauto.
  induction v as [|b v [IHv IH]]; split; auto.
Qed.

Lemma hex_bytes_inj v w :
  forallb is_hex v = true -> forallb is_hex w = true -> length v = length w -> Nat.Even (length v) ->
  hex_bytes v = hex_bytes w -> v = w.
Proof.
  revert w. induction v as [|a|a b v IH] using pairs_ind; intros [|c [|d w]]; cbn [length]; try done.
  - intros _ _ _ [n Hn]. lia.
  - cbn [forallb hex_bytes]. rewrite !andb_true_iff. intros (Ha & Hb & Hv) (Hc & Hd & Hw) Hl [n Hn] [= E Et].
    assert (digit a = digit c /\ digit b = digit d) as [Eac Ebd].
    { pose proof (digit_range _ Ha). pose proof (digit_range _ Hb). pose proof (digit_range _ Hc).
      pose proof (digit_range _ Hd). lia. }
    rewrite (digit_inj _ _ Ha Hc Eac), (digit_inj _ _ Hb Hd Ebd). do 2 f_equal.
    apply IH; try done; [lia|]. exists (Nat.pred n). lia.
Qed.

Lemma hex_bytes_length v : length (hex_bytes v) = Nat.div2 (length v).
Proof. induction v as [|a|a b v IH] using pairs_ind; cbn; [done..|by rewrite IH]. Qed.

(** An object id, its length byte and its bytes. *)
Lemma oid_cases v :
  is_git_oid v = true ->
  forallb is_hex v = true /\ Nat.Even (length v) /\ (length v = 40 \/ length v = 64)%nat.
Proof.
  unfold is_git_oid. rewrite andb_true_iff, orb_true_iff, !Z.eqb_eq. intros [Hl Hh]. rewrite (hex_len _ Hh) in Hl.
  assert (length v = 40 \/ length v = 64)%nat as Hc by lia.
  split_and!; [done| |done]. destruct Hc as [-> | ->]; [by exists 20%nat|by exists 32%nat].
Qed.

Definition encode_oid (v : str) : bytes := [Z.of_nat (length (hex_bytes v)) mod 256] ++ hex_bytes v.

Lemma encode_oid_inj v w r s :
  is_git_oid v = true -> is_git_oid w = true -> encode_oid v ++ r = encode_oid w ++ s -> v = w /\ r = s.
Proof.
  intros (Hv & Ev & Lv)%oid_cases (Hw & Ew & Lw)%oid_cases. unfold encode_oid.
  rewrite <- !app_assoc. cbn [app]. intros [= El E].
  assert (length v = length w) as Hl.
  { rewrite !hex_bytes_length in El. destruct Lv as [Lv|Lv], Lw as [Lw|Lw]; rewrite Lv, Lw in El; vm_compute in El; congruence. }
  apply app_inj_1 in E as [E Er]; [|by rewrite !hex_bytes_length, Hl]. split; [|done].
  by apply hex_bytes_inj.
Qed.

Lemma encode_entry_inj a b r s :
  admitted a -> admitted b -> encode_entry a ++ r = encode_entry b ++ s -> a = b /\ r = s.
Proof.
  intros (Pa & Ma & Oa)%admitted_Some (Pb & Mb & Ob)%admitted_Some. unfold MAX_PATH_BYTES in *.
  unfold encode_entry. fold (encode_oid (object_id a)) (encode_oid (object_id b)). rewrite <- !app_assoc. intros E.
  apply app_inj_1 in E as [El E]; [|by rewrite !to_be_bytes_length].
  apply to_be_bytes_inj in El; [|apply Z.mod_pos_bound; lia..].
  rewrite !Z.mod_small in El by lia. apply Nat2Z.inj in El.
  apply app_inj_1 in E as [Ep E]; [|done].
  apply app_inj_1 in E as [Em E]; [|by rewrite !to_be_bytes_length].
  apply to_be_bytes_inj in Em; [|lia..].
  apply encode_oid_inj in E as [Eo ->]; [|done..]. destruct a, b; cbn in *. by simplify_eq.
Qed.

Lemma encode_entries_inj es es' :
  Forall admitted es -> Forall admitted es' -> length es = length es' ->
  concat (encode_entry <$> es) = concat (encode_entry <$> es') -> es = es'.
Proof.
  intros Ha. revert es'. induction Ha as [|e es He Ha IH]; intros [|e' es'] Ha' Hl E; try done.
  apply Forall_cons_1 in Ha' as [He' Ha']. cbn in E. apply encode_entry_inj in E as [-> E]; [|done..].
  f_equal. apply IH; [done| |done]. by injection Hl.
Qed.

Lemma encode_inj commit es commit' es' :
  is_git_oid commit = true -> is_git_oid commit' = true ->
  Z.of_nat (length es) <= MAX_ENTRIES -> Z.of_nat (length es') <= MAX_ENTRIES ->
  Forall admitted es -> Forall admitted es' -> encode commit es = encode commit' es' -> commit = commit' /\ es = es'.
Proof.
  intros Hc Hc' Hn Hn' Ha Ha' E. unfold MAX_ENTRIES in *. unfold encode, encode_header in E.
  rewrite <- !app_assoc in E. apply app_inv_head, app_inv_head in E. rewrite !app_assoc in E.
  rewrite <- !(app_assoc (_ ++ _)) in E.
  fold (encode_oid commit) (encode_oid commit') in E. apply encode_oid_inj in E as [-> E]; [|done..].
  apply app_inj_1 in E as [El E]; [|by rewrite !to_be_bytes_length].
  apply to_be_bytes_inj in El; [|lia..]. split; [done|]. apply encode_entries_inj; [done..|lia|done].
Qed.

(** ** The digest *)

Lemma from_parts_admitted raw mode oid e : from_parts raw mode oid = Ok e -> admitted e.
Proof.
  intros H. unfold admitted.
  enough (raw_path e = raw /\ git_mode e = mode /\ object_id e = oid) as (-> & -> & ->) by done.
  revert H. unfold from_parts. case_match; [done|]. intros (b & _ & Hb)%result_bind_Ok.
  destruct (negb _); [done|]. by injection Hb as <-.
Qed.

Lemma from_encoded_admitted raw mode oid e : from_encoded raw mode oid = Ok e -> admitted e.
Proof. unfold from_encoded. case_match; [done|]. apply from_parts_admitted. Qed.

Lemma hasher_new_Ok commit expected h :
  hasher_new commit expected = Ok h <->
  expected <= MAX_ENTRIES /\ is_git_oid commit = true /\
  h = {| mh_fed := encode_header commit expected; mh_expected := expected; mh_received := 0; mh_bytes := 0;
         mh_previous := None |}.
Proof.
  unfold hasher_new, oid_bytes, encode_header. destruct (MAX_ENTRIES <? expected) eqn:E.
  { apply Z.ltb_lt in E. split; [done|lia]. }
  apply Z.ltb_ge in E. destruct (is_git_oid commit); cbn [negb mbind result_bind].
  - split; [by intros [= <-]|by intros (_ & _ & ->)].
  - split; [done|by intros (_ & ? & _)].
Qed.

Section Digest.
Variable blake3 : bytes -> bytes.

Lemma digest_Ok commit expected es d :
  Forall admitted es -> 0 <= expected ->
  digest blake3 commit expected es = Ok d <->
  is_git_oid commit = true /\ expected = Z.of_nat (length es) /\ expected <= MAX_ENTRIES /\ ordered None es /\
  entries_len es <= MAX_BYTES /\ d = blake3 (encode commit es).
Proof.
  intros Ha He. unfold digest, encode. split.
  - intros (h & (Hm & Hc & ->)%hasher_new_Ok & H)%result_bind_Ok. apply result_bind_Ok in H as (h' & Hp & Hf).
    apply push_all_Ok in Hp as (_ & Ho & Ht & ->); [|done..]. unfold finish in Hf.
    cbn [mh_fed mh_expected mh_received mh_bytes mh_previous] in *. rewrite !Z.add_0_l in *.
    destruct (negb _) eqn:E; [done|]. apply negb_false_iff, Z.eqb_eq in E as <-. by injection Hf as <-.
  - intros (Hc & -> & Hm & Ho & Ht & ->). apply result_bind_Ok. eexists. split; [by apply hasher_new_Ok|].
    apply result_bind_Ok. eexists. split.
    + apply push_all_Ok; [done|cbn; lia|cbn; unfold MAX_BYTES; lia|]. split_and!; [cbn; lia|done|cbn; lia|done].
    + unfold finish. cbn [mh_fed mh_expected mh_received]. by rewrite Z.add_0_l, Z.eqb_refl.
Qed.
End Digest.

(** C35: a digest of an inventory is produced exactly for a commit that is a
    Git object id and the announced number of admitted entries, in strictly
    increasing order of their raw paths and within the entry and byte limits,
    and it is then the hash of their canonical encoding; the encoding is
    lossless, so two inventories with the same digest are the same commit and
    the same entries, unless their two encodings are a collision of the hash
    function. *)
Theorem inventory_digests_identify_manifests (blake3 : bytes -> bytes) commit expected es d :
  Forall (fun e => exists raw mode oid, from_encoded raw mode oid = Ok e \/ from_parts raw mode oid = Ok e) es ->
  0 <= expected ->
  (digest blake3 commit expected es = Ok d <->
   is_git_oid commit = true /\ expected = Z.of_nat (length es) /\ expected <= MAX_ENTRIES /\ ordered None es /\
   entries_len es <= MAX_BYTES /\ d = blake3 (encode commit es)) /\
  (forall commit' expected' es',
    Forall admitted es' -> 0 <= expected' ->
    digest blake3 commit expected es = Ok d -> digest blake3 commit' expected' es' = Ok d ->
    (commit = commit' /\ es = es') \/
    (encode commit es <> encode commit' es' /\ blake3 (encode commit es) = blake3 (encode commit' es'))).
Proof.
  intros Hes He.
  assert (Forall admitted es) as Ha.
  { eapply Forall_impl; [exact Hes|]. intros e (raw & mode & oid & [H|H]).
    - by eapply from_encoded_admitted.
    - by eapply from_parts_admitted. }
  split; [by apply digest_Ok|]. intros commit' expected' es' Ha' He' H H'.
  apply digest_Ok in H as (Hc & -> & Hm & _ & _ & ->); [|done..].
  apply digest_Ok in H' as (Hc' & -> & Hm' & _ & _ & E); [|done..].
  destruct (decide (encode commit es = encode commit' es')) as [Ee|Ee]; [left|by right].
  by apply encode_inj in Ee.
Qed.

(** One file and one submodule, under the identity function. *)
Lemma inventory_digests_identify_manifests_witness :
  let oid := lit "0123456789abcdef0123456789abcdef01234567" in
  let es := [ {| raw_path := lit "a/b.rs"; git_mode := 33188; object_id := oid |};
              {| raw_path := lit "vendor"; git_mode := 57344; object_id := oid |} ] in
  exists d, digest (fun b => b) oid 2 es = Ok d /\ d = encode oid es.
Proof.
  intros oid es. exists (encode oid es). split; [|done].
  apply (inventory_digests_identify_manifests (fun b => b) oid 2 es).
  - repeat constructor.
    + exists (lit "612f622e7273"), 33188, oid. left. by vm_compute.
    + exists (lit "vendor"), 57344, oid. right. by vm_compute.
  - lia.
  - by split_and!.
Defined.
