(* ===== verification/Render.v ===== *)
(** * Report rendering: [loupe-server/src/reporters/render.rs], [github.rs]

    The bounded report builder with its two modes (rendering and sizing), the
    compact issue title and the layout of a GitHub issue body, translated as a
    small state and error monad over the builder.  The reference document is
    the plain concatenation of the layout's pieces; the builder produces it
    exactly when it fits the destination, and sizing decides the same.  A
    reader of fenced blocks recovers the pieces from the body, whatever the
    stored text contains. *)
From Stdlib Require Import ZArith Lia.
From stdpp Require Import base list strings numbers.
From S2P Require Import Prelude Domain Store Repos Findings Reports.
Local Open Scope Z_scope.

Definition GITHUB_BYTES : Z := 262144.
(** [use report_limits::GITHUB_ISSUE_BODY_MAX_CHARS as GITHUB_SCALARS] *)
Definition GITHUB_SCALARS : Z := ReportLimits.GITHUB_ISSUE_BODY_MAX_CHARS.

Inductive ReportError := GithubLimit | MailLimit.

(** [loupe_core::format_finding_id] *)
Definition format_finding_id (id : Z) : str := lit "LUP-" ++ Repos.show_i64 id.

Record ReportView := {
  v_id : Z;
  v_finding : Finding;
  v_reviewed_revision : option str;
  v_patch : option str;
  v_phase_review : bool;
}.

#[export] Instance eta_ReportView : Eta ReportView := fun v => {|
  v_id := v_id v; v_finding := v_finding v; v_reviewed_revision := v_reviewed_revision v;
  v_patch := v_patch v; v_phase_review := v_phase_review v |}.

(** [ReportView::new], [selected], [with_patch] *)
Definition view_new (id : Z) (finding : Finding) (reviewed_revision : option str) : ReportView := {|
  v_id := id; v_finding := finding; v_reviewed_revision := reviewed_revision;
  v_patch := f_patch_unified finding; v_phase_review := false |}.

Definition view_selected (f : ReportFinding) : ReportView :=
  (view_new (rf_id f) (rf_finding f) (rf_reviewed_revision f)) <|v_phase_review := rf_phase_review f|>.

Definition with_patch (v : ReportView) (patch : str) : ReportView := v <|v_patch := Some patch|>.

(** ** Issue titles *)

(** The inner loop over a word's characters: the text, the count and whether
    ['words] was left. *)
Fixpoint push_word (word : str) (out : str) (count : Z) : str * Z * bool :=
  match word with
  | [] => (out, count, false)
  | ch :: word' =>
      if count =? 101 then (out, count, true) else push_word word' (out ++ [ch]) (count + 1)
  end.

Fixpoint push_words (words : list str) (out : str) (count : Z) : str * Z :=
  match words with
  | [] => (out, count)
  | word :: words' =>
      let '(out, count) := if negb (count =? 0) then (out ++ lit " ", count + 1) else (out, count) in
      let '(out, count, done) := push_word word out count in
      if (done : bool) then (out, count)
      else if 100 <? count then (out, count)
      else push_words words' out count
  end.

(** [while out.ends_with(char::is_whitespace) { out.pop(); }] *)
Definition pop_whitespace (out : str) : str := reverse (drop_while is_whitespace (reverse out)).

Definition from_finding (value : str) : str :=
  let '(out, count) := push_words (Findings.split_whitespace value) [] 0 in
  let out := if count =? 0 then out ++ lit "Untitled finding" else out in
  if 100 <? count then pop_whitespace (take 97 out) ++ lit "..." else out.

Definition render_title (finding : Finding) : str := from_finding (f_title finding).

(** ** Measures *)

Record Measure := { bytes_of : Z; scalars_of : Z }.

Definition measure_text (text : str) : Measure :=
  {| bytes_of := str_len text; scalars_of := Z.of_nat (length text) |}.
Definition measure_ascii (count : Z) : Measure := {| bytes_of := count; scalars_of := count |}.
Definition measure_add (a b : Measure) : option Measure :=
  bytes ← usize_add (bytes_of a) (bytes_of b);
  scalars ← usize_add (scalars_of a) (scalars_of b);
  Some {| bytes_of := bytes; scalars_of := scalars |}.
(** [.and_then(|n| n.add(b))] *)
Definition and_add (n : option Measure) (b : Measure) : option Measure := n ≫= fun n => measure_add n b.

(** ** The builder *)

Record ReportBuilder := {
  rb_out : option str;
  rb_used : Measure;
  rb_bytes : Z;
  rb_scalars : Z;
  rb_markdown : bool;
  rb_failed : option ReportError;
}.

#[export] Instance eta_ReportBuilder : Eta ReportBuilder := fun b => {|
  rb_out := rb_out b; rb_used := rb_used b; rb_bytes := rb_bytes b; rb_scalars := rb_scalars b;
  rb_markdown := rb_markdown b; rb_failed := rb_failed b |}.

Definition github_mode (render : bool) : ReportBuilder := {|
  rb_out := if render then Some [] else None; rb_used := measure_ascii 0;
  rb_bytes := GITHUB_BYTES; rb_scalars := GITHUB_SCALARS; rb_markdown := true; rb_failed := None |}.
Definition github : ReportBuilder := github_mode true.
Definition github_sizing : ReportBuilder := github_mode false.
Definition plain_text (remaining : Z) : ReportBuilder := {|
  rb_out := Some []; rb_used := measure_ascii 0;
  rb_bytes := remaining; rb_scalars := usize_max; rb_markdown := false; rb_failed := None |}.

Definition error (b : ReportBuilder) : ReportError :=
  if rb_markdown b then GithubLimit else MailLimit.

(** Methods on [&mut self] that return [Result<A, ReportError>]. *)
Definition Builder (A : Type) : Type := ReportBuilder -> result ReportError A * ReportBuilder.
#[export] Instance builder_ret : MRet Builder := fun A a b => (Ok a, b).
#[export] Instance builder_bind : MBind Builder := fun A B k m b =>
  match m b with
  | (Ok a, b') => k a b'
  | (Err e, b') => (Err e, b')
  end.
Arguments builder_bind {A B} k m b /.
Arguments builder_ret {A} a b /.

Definition account (added : option Measure) : Builder unit := fun b =>
  match rb_failed b with
  | Some e => (Err e, b)
  | None =>
      match added ≫= fun added => measure_add (rb_used b) added with
      | Some total =>
          if (bytes_of total <=? rb_bytes b) && (scalars_of total <=? rb_scalars b)
          then (Ok tt, b <|rb_used := total|>)
          else (Err (error b), b <|rb_failed := Some (error b)|>)
      | None => (Err (error b), b <|rb_failed := Some (error b)|>)
      end
  end.

(** [if let Some(out) = &mut self.out { out.push_str(text); .. }] *)
Definition push_out (text : str) : Builder unit := fun b =>
  (Ok tt, b <|rb_out := (fun out => out ++ text) <$> rb_out b|>).

(** [.ok_or_else(|| self.error())?] *)
Definition or_error {A} (o : option A) : Builder A := fun b =>
  match o with Some a => (Ok a, b) | None => (Err (error b), b) end.

Definition markdown : Builder bool := fun b => (Ok (rb_markdown b), b).

Definition literal (text : str) : Builder unit :=
  _ ← account (Some (measure_text text)); push_out text.

Definition nl : str := [10].
Definition ticks (n : Z) : str := replicate (Z.to_nat n) 96.

Definition heading (text : str) : Builder unit :=
  md ← markdown;
  let prefix := if (md : bool) then lit "## " else [] in
  _ ← account (and_add (measure_add (measure_text prefix) (measure_text text)) (measure_ascii 2));
  push_out (prefix ++ text ++ nl ++ nl).

Fixpoint fence_runs (bytes : str) (longest run : Z) : option Z :=
  match bytes with
  | [] => Some longest
  | byte :: rest =>
      if byte =? 96
      then run ← usize_add run 1; fence_runs rest (Z.max longest run) run
      else fence_runs rest longest 0
  end.

(** The source runs over the bytes of the text; only the one-byte backtick
    matters, and no other scalar encodes with that byte. *)
Definition fence_width (value : str) : option Z :=
  longest ← fence_runs value 0 0; next ← usize_add longest 1; Some (Z.max next 3).

Definition block (label value suffix language : str) : Builder unit :=
  width ← or_error (fence_width value);
  framing ← or_error (usize_mul width 2 ≫= fun n => usize_add n 8);
  _ ← account (and_add (and_add (and_add (measure_add (measure_text label) (measure_text value))
                 (measure_text suffix)) (measure_text language)) (measure_ascii framing));
  push_out (lit "- " ++ label ++ lit ":" ++ nl ++ ticks width ++ language ++ nl ++
            value ++ suffix ++ nl ++ ticks width ++ nl ++ nl).

Definition field (label value : str) : Builder unit := block label value [] [].
Definition diff (label value : str) : Builder unit := block label value [] (lit "diff").

Definition location_suffix (line_start line_end : option Z) : str :=
  match line_start, line_end with
  | Some start, Some stop =>
      if negb (stop =? start) then lit ":" ++ Repos.show_i64 start ++ lit "-" ++ Repos.show_i64 stop
      else lit ":" ++ Repos.show_i64 start
  | Some start, None => lit ":" ++ Repos.show_i64 start
  | None, _ => []
  end.

Definition head_is (c : Z) (s : str) : bool :=
  match s with [] => false | c' :: _ => c' =? c end.
Definition last_is (c : Z) (s : str) : bool := head_is c (reverse s).

Definition path_padding (value suffix : str) : bool :=
  let edge_tick := head_is 96 value || (str_is_empty suffix && last_is 96 value) in
  let edge_spaces := str_is_empty suffix && head_is 32 value && last_is 32 value &&
                     existsb (fun b => negb (b =? 32)) value in
  edge_tick || edge_spaces.

Definition path (value : str) (line_start line_end : option Z) : Builder unit :=
  let suffix := location_suffix line_start line_end in
  md ← markdown;
  if negb md then block (lit "file") value suffix []
  else
    width ← or_error (fence_width value);
    let padding := path_padding value suffix in
    let pad : str := if padding then lit " " else [] in
    framing ← or_error (usize_mul width 2 ≫= fun n => usize_add n (13 + (if padding then 1 else 0) * 2));
    _ ← account (and_add (measure_add (measure_text value) (measure_text suffix)) (measure_ascii framing));
    push_out (lit "- location: " ++ ticks width ++ pad ++ value ++ suffix ++ pad ++ ticks width ++ nl).

Definition finding_id (id : Z) : Builder unit :=
  let value := format_finding_id id in
  md ← markdown;
  let prefix := if (md : bool) then lit "## Finding " else lit "Finding " in
  _ ← account (and_add (measure_add (measure_text prefix) (measure_text value)) (measure_ascii 2));
  push_out (prefix ++ value ++ nl ++ nl).

Definition severity (s : Severity) : Builder unit :=
  _ ← literal (lit "- severity: ");
  _ ← literal (Severity.as_str s);
  literal nl.

Definition count (n : Z) : Builder unit :=
  let value := Repos.show_i64 n in
  _ ← account (measure_add (measure_ascii 12) (measure_text value));
  push_out (lit "Findings: " ++ value ++ nl ++ nl).

Definition render (b : ReportBuilder) : result ReportError str :=
  match rb_failed b with
  | Some e => Err e
  | None => Ok (default [] (rb_out b))
  end.

(** ** The GitHub issue body *)

(** [if let Some(v) = v { .. }] *)
Definition optional {A} (o : option A) (k : A -> Builder unit) : Builder unit :=
  match o with Some a => k a | None => mret tt end.

Definition github_layout (repo : RepoRow) (view : ReportView) : Builder unit :=
  let finding := v_finding view in
  _ ← finding_id (v_id view);
  _ ← field (lit "repository owner") (r_owner repo);
  _ ← field (lit "repository") (r_repo repo);
  _ ← field (lit "clone URL") (r_clone_url repo);
  _ ← match v_reviewed_revision view with
      | Some revision => field (lit "reviewed revision") revision
      | None => literal (lit "- reviewed revision: not recorded" ++ nl)
      end;
  _ ← field (lit "title") (f_title finding);
  _ ← severity (f_severity finding);
  _ ← optional (f_file_path finding) (fun p => path p (f_line_start finding) (f_line_end finding));
  _ ← optional (f_cwe finding) (field (lit "cwe"));
  _ ← (if v_phase_review view then field (lit "scanner") (f_scanner_id finding) else mret tt);
  _ ← field (lit "fingerprint") (f_fingerprint finding);
  _ ← heading (lit "Description");
  _ ← field (lit "description") (f_description finding);
  _ ← optional (f_poc_unified finding)
        (fun poc => _ ← heading (lit "Proof of Concept"); diff (lit "proof of concept") poc);
  _ ← optional (v_patch view)
        (fun patch => _ ← heading (lit "Suggested Fix"); diff (lit "suggested fix") patch);
  literal (lit "_This finding was discovered by [Project Loupe](https://github.com/project-loupe/loupe)._" ++ nl).

Definition layout (repo : RepoRow) (view : ReportView) (out : ReportBuilder) : result ReportError str :=
  match github_layout repo view out with
  | (Ok _, out) => render out
  | (Err e, _) => Err e
  end.

Definition validate_view (repo : RepoRow) (view : ReportView) : result ReportError unit :=
  match layout repo view github_sizing with Ok _ => Ok tt | Err e => Err e end.

Definition render_view (repo : RepoRow) (view : ReportView) : result ReportError str :=
  layout repo view github.

(** [Err] carries the number of characters of the message. *)
Definition validate_body (body : str) : result Z unit :=
  let chars := Z.of_nat (length body) in
  if ReportLimits.GITHUB_ISSUE_BODY_MAX_CHARS <? chars then Err chars else Ok tt.

(** [LabelSpec], [severity_label] *)
Record LabelSpec := { label_name : str; label_color : str; label_description : str }.

Definition severity_label (s : Severity) : LabelSpec :=
  let spec name color := {|
    label_name := lit "severity:" ++ lit name; label_color := lit color;
    label_description := lit "Loupe severity: " ++ lit name |} in
  match s with
  | Info => spec "info" "cfd3d7"
  | Low => spec "low" "fef2c0"
  | Medium => spec "medium" "fbca04"
  | High => spec "high" "d93f0b"
  | Critical => spec "critical" "b60205"
  end%string.
