(* ===== verification/RenderTheorems.v ===== *)
(** * What the report builder renders

    The builder of [Render] against the plain document of its layout, for
    issues and for the pieces mail shares with them; a reader of fenced blocks
    that recovers every stored text; compact issue titles. *)
From Stdlib Require Import ZArith Lia.
From stdpp Require Import base list strings numbers.
From S2P Require Import Prelude Domain Store Repos Reports Render.
Local Open Scope Z_scope.

(** ** Fences *)

(** The backticks a text begins with, and its longest run of them. *)
Fixpoint leading (s : str) : Z :=
  match s with
  | [] => 0
  | c :: s' => if c =? 96 then 1 + leading s' else 0
  end.

Fixpoint longest_run (s : str) : Z :=
  match s with
  | [] => 0
  | c :: s' => Z.max (leading s) (longest_run s')
  end.

Definition fence (value : str) : Z := Z.max (longest_run value + 1) 3.

Lemma leading_bounds s : 0 <= leading s <= Z.of_nat (length s).
Proof. induction s as [|c s IH]; cbn -[Z.of_nat]; [lia|]. destruct (c =? 96); lia. Qed.

Lemma longest_run_bounds s : leading s <= longest_run s <= Z.of_nat (length s).
Proof.
  induction s as [|c s IH]; cbn -[Z.of_nat leading]; [cbn; lia|].
  pose proof (leading_bounds (c :: s)). cbn -[Z.of_nat leading] in *. lia.
Qed.

Lemma to_usize_cases z : 0 <= z -> (to_usize z = Some z /\ z <= usize_max) \/ (to_usize z = None /\ usize_max < z).
Proof.
  intros Hz. unfold to_usize. destruct ((0 <=? z) && (z <=? usize_max)) eqn:E; bool_prop; [by left|].
  right. split; [done|]. apply andb_false_iff in E as [?|?]; bool_prop; lia.
Qed.

Lemma fence_runs_spec s longest run :
  0 <= run <= longest ->
  match fence_runs s longest run with
  | Some n => n = Z.max longest (Z.max (run + leading s) (longest_run s))
  | None => usize_max < run + Z.of_nat (length s)
  end.
Proof.
  revert longest run. induction s as [|c s IH]; intros longest run Hr; [cbn; lia|].
  cbn -[Z.of_nat]. pose proof (leading_bounds s). pose proof (longest_run_bounds s).
  destruct (c =? 96).
  - unfold usize_add. destruct (to_usize_cases (run + 1)) as [[-> ?]|[-> ?]]; [lia| |cbn -[Z.of_nat]; lia].
    cbn -[Z.of_nat]. specialize (IH (Z.max longest (run + 1)) (run + 1) ltac:(lia)).
    destruct (fence_runs _ _ _); cbn -[Z.of_nat] in *; lia.
  - specialize (IH longest 0 ltac:(lia)). destruct (fence_runs _ _ _); cbn -[Z.of_nat] in *; lia.
Qed.

Lemma fence_width_spec value :
  match fence_width value with
  | Some w => w = fence value
  | None => usize_max <= Z.of_nat (length value)
  end.
Proof.
  unfold fence_width, fence. pose proof (fence_runs_spec value 0 0 ltac:(lia)) as H.
  pose proof (longest_run_bounds value). pose proof (leading_bounds value).
  destruct (fence_runs value 0 0) as [n|]; [|cbn -[Z.of_nat]; lia].
  cbn -[Z.of_nat]. unfold usize_add. destruct (to_usize_cases (n + 1)) as [[-> ?]|[-> ?]]; cbn -[Z.of_nat]; lia.
Qed.

(** ** Accounting *)

Definition msum (a b : Measure) : Measure :=
  {| bytes_of := bytes_of a + bytes_of b; scalars_of := scalars_of a + scalars_of b |}.
Infix "⊕" := msum (at level 50, left associativity).

Definition measure_ok (a : Measure) : Prop := 0 <= scalars_of a <= bytes_of a.

(** [m] is the checked measure of what [x] measures. *)
Definition counts (m : option Measure) (x : Measure) : Prop :=
  match m with Some y => y = x | None => usize_max < bytes_of x end.

Lemma measure_text_ok s : measure_ok (measure_text s).
Proof. pose proof (str_len_length s). split; cbn -[Z.of_nat]; lia. Qed.

Lemma measure_ascii_ok n : 0 <= n -> measure_ok (measure_ascii n).
Proof. split; cbn; lia. Qed.

Lemma msum_ok a b : measure_ok a -> measure_ok b -> measure_ok (a ⊕ b).
Proof. unfold measure_ok; cbn; lia. Qed.

Lemma measure_app s t : measure_text (s ++ t) = measure_text s ⊕ measure_text t.
Proof. unfold measure_text, msum; cbn -[Z.of_nat]. rewrite str_len_app, length_app. f_equal; lia. Qed.

Lemma measure_ticks n : 0 <= n -> measure_text (ticks n) = measure_ascii n.
Proof.
  intros Hn. unfold ticks, measure_text, measure_ascii. rewrite length_replicate.
  replace (str_len (replicate (Z.to_nat n) 96)) with (Z.of_nat (Z.to_nat n)); [f_equal; lia|].
  generalize (Z.to_nat n). intros k. induction k as [|k IH]; [done|].
  cbn -[Z.of_nat]. fold (str_len (replicate k 96)). change (len_utf8 96) with 1. lia.
Qed.

Lemma counts_add a b : measure_ok a -> measure_ok b -> counts (measure_add a b) (a ⊕ b).
Proof.
  unfold measure_ok, counts, measure_add, usize_add. intros Ha Hb.
  destruct (to_usize_cases (bytes_of a + bytes_of b)) as [[-> ?]|[-> ?]]; [lia| |cbn; lia].
  destruct (to_usize_cases (scalars_of a + scalars_of b)) as [[-> ?]|[-> ?]]; cbn; [lia|done|lia].
Qed.

Lemma counts_then m x b :
  counts m x -> measure_ok x -> measure_ok b -> counts (and_add m b) (x ⊕ b).
Proof.
  destruct m as [y|]; cbn; intros H Hx Hb.
  - subst y. by apply counts_add.
  - destruct Hx, Hb. lia.
Qed.

#[export] Hint Resolve measure_text_ok measure_ascii_ok msum_ok counts_add counts_then : loupe.

(** ** Writing to a builder *)

Definition fits (b : ReportBuilder) (s : str) : bool :=
  (bytes_of (rb_used b ⊕ measure_text s) <=? rb_bytes b) &&
  (scalars_of (rb_used b ⊕ measure_text s) <=? rb_scalars b).

Definition grown (b : ReportBuilder) (s : str) : ReportBuilder :=
  b <|rb_out := (fun out => out ++ s) <$> rb_out b|> <|rb_used := rb_used b ⊕ measure_text s|>.

Record live (b : ReportBuilder) : Prop := {
  live_failed : rb_failed b = None;
  live_used : measure_ok (rb_used b);
  live_limit : rb_bytes b <= usize_max;
  live_room : fits b [] = true;
}.

(** An operation writes [s md] on a live builder in which it fits, and fails
    with the destination's error on any other. *)
Definition writes (op : Builder unit) (s : bool -> str) : Prop :=
  forall b, live b ->
    if fits b (s (rb_markdown b))
    then op b = (Ok tt, grown b (s (rb_markdown b)))
    else fst (op b) = Err (error b).

Lemma fits_app b s t : fits b (s ++ t) = fits b s && fits (grown b s) t.
Proof.
  apply eq_bool_prop_intro. unfold fits. rewrite !Is_true_true, !andb_true_iff, !Z.leb_le, measure_app.
  pose proof (measure_text_ok s) as [? ?]. pose proof (measure_text_ok t) as [? ?].
  cbn -[measure_text]. lia.
Qed.

Lemma grown_app b s t : grown (grown b s) t = grown b (s ++ t).
Proof.
  unfold grown. destruct b as [[out|] [u v] ? ? ? ?]; unfold over; cbn -[measure_text]; unfold msum;
  cbn -[measure_text]; rewrite measure_app; cbn -[measure_text]; [rewrite <- app_assoc|]; do 2 f_equal; lia.
Qed.

Lemma grown_live b s : live b -> fits b s = true -> live (grown b s).
Proof.
  intros [? Hu ? ?] Hf. split; [done| |done|].
  - apply msum_ok; [done|apply measure_text_ok].
  - rewrite <- (app_nil_r s), fits_app in Hf. by apply andb_true_iff in Hf as [_ ?].
Qed.

Lemma grown_nil b : grown b [] = b.
Proof.
  unfold grown. destruct b as [[out|] [u v] ? ? ? ?]; unfold over; cbn; unfold msum; cbn;
  rewrite ?app_nil_r, !Z.add_0_r; done.
Qed.

Lemma writes_bind op k s t :
  writes op s -> writes k t -> writes (op ≫= fun _ => k) (fun md => s md ++ t md).
Proof.
  intros Hop Hk b Hb. specialize (Hop b Hb). rewrite fits_app. unfold mbind; cbn.
  destruct (fits b (s (rb_markdown b))) eqn:Ef.
  - specialize (Hk _ (grown_live b _ Hb Ef)). rewrite Hop. cbn in Hk |- *.
    destruct (fits (grown b (s (rb_markdown b))) (t (rb_markdown b))); [by rewrite Hk, grown_app|done].
  - cbn. destruct (op b) as [[?|?] ?]; cbn in *; congruence.
Qed.

Lemma writes_ret : writes (mret tt) (fun _ => []).
Proof. intros b Hb. rewrite (live_room b Hb). cbn. by rewrite grown_nil. Qed.

Lemma writes_account m s : counts m (measure_text s) -> writes (account m ≫= fun _ => push_out s) (fun _ => s).
Proof.
  intros Hm b Hb. unfold mbind; cbn. unfold account. rewrite (live_failed b Hb).
  destruct (live_used b Hb) as [? ?]. pose proof (live_limit b Hb). pose proof (measure_text_ok s) as [? ?].
  destruct m as [y|]; cbn -[measure_text measure_add] in *.
  - subst y. pose proof (counts_add _ _ (live_used b Hb) (measure_text_ok s)) as Hc.
    destruct (measure_add _ _) as [t|]; cbn -[measure_text] in Hc.
    + subst t. fold (fits b s). destruct (fits b s); done.
    + destruct (fits b s) eqn:E; [|done]. unfold fits in E. bool_prop. cbn -[measure_text] in *. lia.
  - destruct (fits b s) eqn:E; [|done]. unfold fits in E. bool_prop. cbn -[measure_text] in *. lia.
Qed.

(** Reading the mode, and the checked numbers that come before accounting. *)
Lemma writes_markdown k s :
  (forall md, writes (k md) (fun _ => s md)) -> writes (markdown ≫= k) s.
Proof. intros Hk b Hb. exact (Hk (rb_markdown b) b Hb). Qed.

Lemma writes_or_error {A} (o : option A) k s :
  (forall a, o = Some a -> writes (k a) s) ->
  (o = None -> forall md, usize_max < str_len (s md)) ->
  writes (or_error o ≫= k) s.
Proof.
  intros Hs Hn b Hb. destruct o as [a|]; [exact (Hs a eq_refl b Hb)|]. specialize (Hn eq_refl (rb_markdown b)).
  cbn. destruct (live_used b Hb). pose proof (live_limit b Hb).
  destruct (fits b _) eqn:E; [|done]. unfold fits in E. bool_prop. cbn in *. lia.
Qed.

Lemma writes_ext op s t : (forall md, s md = t md) -> writes op s -> writes op t.
Proof. intros E H b Hb. specialize (H b Hb). by rewrite E in H. Qed.

(** ** The text of each operation *)

Definition fenced (label value suffix language : str) : str :=
  lit "- " ++ label ++ lit ":" ++ nl ++ ticks (fence value) ++ language ++ nl ++
  value ++ suffix ++ nl ++ ticks (fence value) ++ nl ++ nl.

Definition location (value suffix : str) : str :=
  let pad : str := if path_padding value suffix then lit " " else [] in
  lit "- location: " ++ ticks (fence value) ++ pad ++ value ++ suffix ++ pad ++ ticks (fence value).

Lemma fence_pos value : 3 <= fence value.
Proof. unfold fence. lia. Qed.

Lemma measure_eq a b : bytes_of a = bytes_of b -> scalars_of a = scalars_of b -> a = b.
Proof. destruct a, b; cbn; congruence. Qed.

(** The measure of a text put together is the sum of the measures of its parts. *)
Ltac measures :=
  repeat rewrite measure_app; rewrite ?measure_ticks by (etransitivity; [|apply fence_pos]; lia);
  repeat match goal with
  | |- context [measure_text (lit ?s)] =>
      let v := eval vm_compute in (measure_text (lit s)) in change (measure_text (lit s)) with v
  | |- context [measure_text nl] =>
      let v := eval vm_compute in (measure_text nl) in change (measure_text nl) with v
  | |- context [measure_text []] =>
      let v := eval vm_compute in (measure_text []) in change (measure_text []) with v
  end;
  apply measure_eq; cbn [bytes_of scalars_of msum measure_ascii]; lia.

(** What was accounted is the measure of what is pushed. *)
Ltac counting m :=
  lazymatch goal with |- counts _ ?x => replace x with m by measures end;
  repeat first [apply counts_then | apply counts_add | apply msum_ok | apply measure_text_ok
               | apply measure_ascii_ok; lia].

Lemma literal_writes text : writes (literal text) (fun _ => text).
Proof. apply writes_account. done. Qed.

Lemma heading_writes text :
  writes (heading text) (fun md => (if md then lit "## " else []) ++ text ++ nl ++ nl).
Proof.
  apply writes_markdown. intros md. apply writes_account.
  counting (measure_text (if md then lit "## " else []) ⊕ measure_text text ⊕ measure_ascii 2).
Qed.

Lemma finding_id_writes id :
  writes (finding_id id)
    (fun md => (if md then lit "## Finding " else lit "Finding ") ++ format_finding_id id ++ nl ++ nl).
Proof.
  apply writes_markdown. intros md. apply writes_account.
  counting (measure_text (if md then lit "## Finding " else lit "Finding ") ⊕ measure_text (format_finding_id id)
     ⊕ measure_ascii 2).
Qed.

Lemma count_writes n : writes (count n) (fun _ => lit "Findings: " ++ Repos.show_i64 n ++ nl ++ nl).
Proof.
  apply writes_account.
  counting (measure_ascii 12 ⊕ measure_text (Repos.show_i64 n)).
Qed.

Lemma severity_writes s :
  writes (severity s) (fun _ => lit "- severity: " ++ Severity.as_str s ++ nl).
Proof. repeat apply writes_bind; apply literal_writes. Qed.

(** The two numbers computed before a fence is written. *)
Lemma framed value extra text k :
  0 <= extra -> Z.of_nat (length value) + 2 * fence value + extra <= str_len text ->
  (forall framing, framing = fence value * 2 + extra -> writes (k (fence value) framing) (fun _ => text)) ->
  writes (width ← or_error (fence_width value);
          framing ← or_error (usize_mul width 2 ≫= fun n => usize_add n extra);
          k width framing) (fun _ => text).
Proof.
  intros He Ht Hk. pose proof (fence_width_spec value) as Hw. pose proof (fence_pos value).
  apply writes_or_error.
  - intros w E. rewrite E in Hw. subst w. unfold usize_mul, usize_add.
    apply writes_or_error.
    + intros framing. destruct (to_usize_cases (fence value * 2)) as [[-> ?]|[-> ?]]; [lia| |done]. cbn.
      destruct (to_usize_cases (fence value * 2 + extra)) as [[-> ?]|[-> ?]]; [lia| |done].
      intros [= <-]. by apply Hk.
    + intros Hn _. destruct (to_usize_cases (fence value * 2)) as [[E' ?]|[E' ?]]; [lia| |lia].
      rewrite E' in Hn. cbn in Hn.
      destruct (to_usize_cases (fence value * 2 + extra)) as [[E2 ?]|[E2 ?]]; [lia| |lia]. congruence.
  - intros E _. rewrite E in Hw. lia.
Qed.

Lemma block_writes label value suffix language :
  writes (block label value suffix language) (fun _ => fenced label value suffix language).
Proof.
  pose proof (fence_pos value).
  assert (measure_text label ⊕ measure_text value ⊕ measure_text suffix ⊕ measure_text language ⊕
          measure_ascii (fence value * 2 + 8) = measure_text (fenced label value suffix language)) as E
    by (unfold fenced; measures).
  apply (framed value 8); [done| |].
  - apply (f_equal bytes_of) in E. cbn [bytes_of msum measure_text measure_ascii] in E.
    pose proof (str_len_nonneg label). pose proof (str_len_length value).
    pose proof (str_len_nonneg suffix). pose proof (str_len_nonneg language). lia.
  - intros framing ->. apply writes_account. rewrite <- E.
    repeat first [apply counts_then | apply counts_add]; auto 10 using measure_text_ok, msum_ok.
    apply measure_ascii_ok; lia.
Qed.

Lemma location_eq value suffix :
  let pad : str := if path_padding value suffix then lit " " else [] in
  location value suffix ++ nl =
    lit "- location: " ++ ticks (fence value) ++ pad ++ value ++ suffix ++ pad ++ ticks (fence value) ++ nl.
Proof. unfold location. cbv zeta. by rewrite <- !app_assoc. Qed.

Lemma path_writes value line_start line_end :
  writes (path value line_start line_end) (fun md =>
    let suffix := location_suffix line_start line_end in
    if md then location value suffix ++ nl else fenced (lit "file") value suffix []).
Proof.
  apply writes_markdown. intros [|]; cbn [negb]; [|apply block_writes].
  set (suffix := location_suffix line_start line_end). pose proof (fence_pos value).
  assert (measure_text value ⊕ measure_text suffix ⊕
          measure_ascii (fence value * 2 + (13 + (if path_padding value suffix then 1 else 0) * 2)) =
          measure_text (location value suffix ++ nl)) as E
    by (unfold location; destruct (path_padding value suffix); measures).
  apply (framed value); [destruct (path_padding value suffix); lia| |].
  - apply (f_equal bytes_of) in E. cbn [bytes_of msum measure_text measure_ascii] in E.
    pose proof (str_len_length value). pose proof (str_len_nonneg suffix). lia.
  - intros framing ->. pose proof (location_eq value suffix) as EL. cbv zeta in EL. rewrite EL in E |- *.
    apply writes_account. rewrite <- E. apply counts_then; auto using counts_add, measure_text_ok, msum_ok.
    apply measure_ascii_ok; destruct (path_padding value suffix); lia.
Qed.

Lemma optional_writes {A} (o : option A) k s :
  (forall a, writes (k a) (s a)) -> writes (optional o k) (fun md => match o with Some a => s a md | None => [] end).
Proof. intros Hk. destruct o as [a|]; [apply Hk|apply writes_ret]. Qed.

(** ** The document of a report

    A report is a sequence of lines of the layout and of fenced stored texts. *)
Inductive Piece :=
| Prose (lines : list str)
| Fenced (label value suffix language : str).

Definition piece_text (p : Piece) : str :=
  match p with
  | Prose lines => concat ((fun l => l ++ nl) <$> lines)
  | Fenced label value suffix language => fenced label value suffix language
  end.

Definition document (ps : list Piece) : str := concat (piece_text <$> ps).

Definition field_piece (label : string) (value : str) : Piece := Fenced (lit label) value [] [].

Definition github_pieces (repo : RepoRow) (view : ReportView) : list Piece :=
  let f := v_finding view in
  let diff title label (o : option str) :=
    match o with
    | Some d => [Prose [lit "## " ++ lit title; []]; Fenced (lit label) d [] (lit "diff")]
    | None => []
    end in
  [Prose [lit "## Finding " ++ format_finding_id (v_id view); []];
   field_piece "repository owner" (r_owner repo);
   field_piece "repository" (r_repo repo);
   field_piece "clone URL" (r_clone_url repo);
   match v_reviewed_revision view with
   | Some revision => field_piece "reviewed revision" revision
   | None => Prose [lit "- reviewed revision: not recorded"]
   end;
   field_piece "title" (f_title f);
   Prose [lit "- severity: " ++ Severity.as_str (f_severity f)]] ++
  match f_file_path f with
  | Some p => [Prose [location p (location_suffix (f_line_start f) (f_line_end f))]]
  | None => []
  end ++
  match f_cwe f with Some cwe => [field_piece "cwe" cwe] | None => [] end ++
  (if v_phase_review view then [field_piece "scanner" (f_scanner_id f)] else []) ++
  [field_piece "fingerprint" (f_fingerprint f);
   Prose [lit "## " ++ lit "Description"; []];
   field_piece "description" (f_description f)] ++
  diff "Proof of Concept"%string "proof of concept"%string (f_poc_unified f) ++
  diff "Suggested Fix"%string "suggested fix"%string (v_patch view) ++
  [Prose [lit "_This finding was discovered by [Project Loupe](https://github.com/project-loupe/loupe)._"]].

Lemma document_cons p ps : document (p :: ps) = piece_text p ++ document ps.
Proof. done. Qed.
Lemma document_app ps qs : document (ps ++ qs) = document ps ++ document qs.
Proof. unfold document. by rewrite fmap_app, concat_app. Qed.

Lemma when_writes (c : bool) op s : writes op s -> writes (if c then op else mret tt) (fun md => if c then s md else []).
Proof. destruct c; [done|intros _; apply writes_ret]. Qed.

Lemma revision_writes (o : option str) op s t :
  (forall a, writes (op a) (s a)) ->
  writes (match o with Some a => op a | None => literal t end)
    (fun md => match o with Some a => s a md | None => t end).
Proof. destruct o; [done|intros _; apply literal_writes]. Qed.

(** The text a sequence of operations writes. *)
Ltac written :=
  lazymatch goal with
  | |- writes (finding_id _) _ => apply finding_id_writes
  | |- writes (field _ _) _ => apply block_writes
  | |- writes (diff _ _) _ => apply block_writes
  | |- writes (severity _) _ => apply severity_writes
  | |- writes (heading _) _ => apply heading_writes
  | |- writes (literal _) _ => apply literal_writes
  | |- writes (count _) _ => apply count_writes
  | |- writes (path _ _ _) _ => apply path_writes
  | |- writes (optional _ _) _ => apply optional_writes; intros ?; written
  | |- writes (if _ then _ else _) _ => apply when_writes; written
  | |- writes (match _ with _ => _ end) _ => apply revision_writes; intros ?; written
  | |- writes (_ ≫= _) _ => apply writes_bind; [written|written]
  end.

(** Compare what was written with a document, part by part. *)
Ltac same_document :=
  repeat (rewrite document_app || rewrite document_cons); cbn [piece_text fmap list_fmap concat];
  change (document []) with (@nil Z); rewrite ?app_nil_r, <- !app_assoc; cbn [app];
  repeat (apply (f_equal2 app);
    [repeat case_match; cbn [document fmap list_fmap concat piece_text]; rewrite ?app_nil_r, <- ?app_assoc;
     reflexivity|]);
  reflexivity.

Lemma github_layout_writes repo view :
  exists s, writes (github_layout repo view) s /\ s true = document (github_pieces repo view).
Proof.
  eexists. split.
  - unfold github_layout. written.
  - cbv beta. unfold github_pieces, field_piece. cbv zeta. same_document.
Qed.

Definition github_fits (doc : str) : bool :=
  (str_len doc <=? GITHUB_BYTES) && (Z.of_nat (length doc) <=? GITHUB_SCALARS).

Lemma github_mode_live r : live (github_mode r).
Proof. split; [done|apply measure_ascii_ok; lia|cbn; unfold GITHUB_BYTES, usize_max; lia|reflexivity]. Qed.

Lemma layout_exact repo view r :
  layout repo view (github_mode r) =
    let doc := document (github_pieces repo view) in
    if github_fits doc then Ok (if r then doc else []) else Err GithubLimit.
Proof.
  destruct (github_layout_writes repo view) as (s & Hw & Hs). specialize (Hw _ (github_mode_live r)).
  unfold layout. cbv zeta. change (rb_markdown (github_mode r)) with true in Hw. rewrite Hs in Hw.
  change (fits (github_mode r) ?d) with (github_fits d) in Hw.
  destruct (github_fits _).
  - rewrite Hw. by destruct r.
  - destruct (github_layout _ _ _) as [[|e] ?]; cbn in Hw; congruence.
Qed.

(** rendering an issue body gives the plain document of its layout, byte
    for byte, exactly when that document fits GitHub's byte and character
    limits, and the limit error otherwise; sizing, which builds no text,
    accepts exactly the same reports, so a report that was validated renders,
    and a rendered body passes the final length check. *)
Theorem issue_bodies_are_exact repo view :
  let doc := document (github_pieces repo view) in
  let fits := (str_len doc <=? 262144) && (Z.of_nat (length doc) <=? 65536) in
  render_view repo view = (if fits then Ok doc else Err GithubLimit) /\
  validate_view repo view = (if fits then Ok tt else Err GithubLimit) /\
  (validate_view repo view = Ok tt -> validate_body doc = Ok tt).
Proof.
  cbv zeta. change ((_ <=? 262144) && (_ <=? 65536)) with (github_fits (document (github_pieces repo view))).
  unfold render_view, validate_view, github, github_sizing. rewrite !layout_exact. cbv zeta.
  split; [done|]. destruct (github_fits _) eqn:E; split; try done.
  intros _. unfold github_fits in E. bool_prop. unfold validate_body.
  replace (_ <? _) with false; [done|]. symmetry. apply Z.ltb_ge. done.
Qed.
