(* ===== verification/ReportReader.v ===== *)
(** * Reading rendered reports back

    A reader of fenced blocks recovers, from the rendered text, exactly the
    pieces the layout put there, whatever the stored texts contain; issue
    titles are compact. *)
From Stdlib Require Import ZArith Lia.
From stdpp Require Import base list strings numbers.
From S2P Require Import Prelude Domain Store Repos Findings Reports Render RenderTheorems.
Local Open Scope Z_scope.

(** ** Reading a report back

    A reader of fenced blocks, as Markdown readers find them: lines end at a
    line feed, a carriage return or both; a line that begins (after up to
    three spaces) with three backticks or more opens a block; the block ends
    at a line of at least as many backticks and nothing else. *)
Fixpoint lines_from (line s : str) : list (str * str) :=
  match s with
  | [] => match line with [] => [] | _ => [(line, [])] end
  | c :: s' =>
      if c =? 10 then (line, [10]) :: lines_from [] s'
      else if c =? 13 then
        match s' with
        | d :: s'' => if d =? 10 then (line, [13; 10]) :: lines_from [] s'' else (line, [13]) :: lines_from [] s'
        | [] => [(line, [13])]
        end
      else lines_from (line ++ [c]) s'
  end.

Definition unindent (line : str) : str :=
  match line with
  | 32 :: 32 :: 32 :: l => l
  | 32 :: 32 :: l => l
  | 32 :: l => l
  | l => l
  end.

Definition opening (line : str) : option (Z * str) :=
  let l := unindent line in
  let info := drop (Z.to_nat (leading l)) l in
  if (3 <=? leading l) && forallb (fun c => negb (c =? 96)) info then Some (leading l, info) else None.

Definition closing (n : Z) (line : str) : bool :=
  let l := unindent line in
  (n <=? leading l) && forallb (fun c => (c =? 32) || (c =? 9)) (drop (Z.to_nat (leading l)) l).

Inductive Item := Line (text : str) | Block (info content : str).

Fixpoint read (inside : option (Z * str * str)) (ls : list (str * str)) : list Item :=
  match ls, inside with
  | [], None => []
  | [], Some (_, info, content) => [Block info content]
  | (l, eol) :: ls, None =>
      match opening l with
      | Some (n, info) => read (Some (n, info, [])) ls
      | None => Line l :: read None ls
      end
  | (l, eol) :: ls, Some (n, info, content) =>
      if closing n l then Block info content :: read None ls
      else read (Some (n, info, content ++ l ++ eol)) ls
  end.

Definition read_report (body : str) : list Item := read None (lines_from [] body).

(** What a piece of a report should read as. *)
Definition items (p : Piece) : list Item :=
  match p with
  | Prose ls => Line <$> ls
  | Fenced label value suffix language =>
      [Line (lit "- " ++ label ++ lit ":"); Block language (value ++ suffix ++ nl); Line []]
  end.

Definition no_eol (s : str) : Prop := 10 ∉ s /\ 13 ∉ s.

(** Lines of the layout neither break nor open a block; labels, languages and
    suffixes of fenced texts are the layout's.  The value is any text. *)
Definition layout_piece (p : Piece) : Prop :=
  match p with
  | Prose ls => Forall (fun l => no_eol l /\ opening l = None) ls
  | Fenced label _ suffix language =>
      no_eol label /\ no_eol language /\ 96 ∉ language /\ 96 ∉ suffix
  end.

Lemma lines_from_step (P : str -> Prop) :
  P [] -> (forall c s, P s -> (forall d s', s = d :: s' -> P s') -> P (c :: s)) -> forall s, P s.
Proof.
  intros H0 Hs s. cut (P s /\ forall d s', s = d :: s' -> P s'); [naive_solver|].
  induction s as [|c s [IH1 IH2]]; [naive_solver|]. split; [by apply Hs|]. intros d s' [= -> ->]. done.
Qed.

(** A line feed ends what comes before it. *)
Lemma lines_from_eol line s t :
  lines_from line (s ++ 10 :: t) = lines_from line (s ++ [10]) ++ lines_from [] t.
Proof.
  revert line. induction s as [|c s IH IH2] using lines_from_step; intros line; [done|].
  cbn [app lines_from]. destruct (c =? 10); [cbn [app]; by rewrite IH|].
  destruct (c =? 13); [|apply IH].
  destruct s as [|d s]; [done|]. cbn [app]. destruct (d =? 10).
  - cbn [app]. by rewrite (IH2 d s eq_refl).
  - specialize (IH []). cbn [app] in IH. by rewrite IH.
Qed.

Lemma lines_from_plain line s t : no_eol s -> lines_from line (s ++ t) = lines_from (line ++ s) t.
Proof.
  revert line. induction s as [|c s IH]; intros line [Hn Hr]; [by rewrite app_nil_r|].
  cbn. apply not_elem_of_cons in Hn as [? ?]. apply not_elem_of_cons in Hr as [? ?].
  destruct (Z.eqb_spec c 10); [congruence|]. destruct (Z.eqb_spec c 13); [congruence|].
  rewrite IH by done. by rewrite <- app_assoc.
Qed.

Lemma lines_from_concat line s : concat ((fun le => le.1 ++ le.2) <$> lines_from line s) = line ++ s.
Proof.
  revert line. induction s as [|c s IH IH2] using lines_from_step; intros line.
  - destruct line; cbn; by rewrite ?app_nil_r.
  - cbn. destruct (Z.eqb_spec c 10) as [->|]; [cbn; rewrite IH; by rewrite <- app_assoc|].
    destruct (Z.eqb_spec c 13) as [->|]; [|rewrite IH; by rewrite <- app_assoc].
    destruct s as [|d s]; [cbn; by rewrite app_nil_r|].
    destruct (Z.eqb_spec d 10) as [->|]; cbn.
    + rewrite (IH2 _ _ eq_refl). by rewrite <- app_assoc.
    + specialize (IH []). cbn in IH. rewrite IH. by rewrite <- app_assoc.
Qed.

(** ** Runs of backticks in parts of a text *)

Lemma longest_run_suffix a s : longest_run s <= longest_run (a ++ s).
Proof. induction a as [|c a IH]; cbn [app longest_run]; lia. Qed.

Lemma leading_app s b : leading s <= leading (s ++ b).
Proof.
  induction s as [|c s IH]; cbn; [apply leading_bounds|]. destruct (c =? 96); lia.
Qed.

Lemma longest_run_prefix s b : longest_run s <= longest_run (s ++ b).
Proof.
  induction s as [|c s IH]; [pose proof (longest_run_bounds b); pose proof (leading_bounds b); cbn in *; lia|].
  cbn [app longest_run]. pose proof (leading_app (c :: s) b) as H. cbn [app] in H. lia.
Qed.

Lemma leading_no_tick s t : 96 ∉ t -> leading (s ++ t) = leading s.
Proof.
  intros Ht. induction s as [|c s IH]; cbn; [|destruct (c =? 96); lia].
  destruct t as [|c t]; [done|]. apply not_elem_of_cons in Ht as [? _]. cbn.
  destruct (Z.eqb_spec c 96); congruence.
Qed.

Lemma longest_run_no_tick s t : 96 ∉ t -> longest_run (s ++ t) = longest_run s.
Proof.
  intros Ht. induction s as [|c s IH]; cbn [app longest_run].
  - induction t as [|c t IH]; [done|]. apply not_elem_of_cons in Ht as [? Ht].
    cbn. destruct (Z.eqb_spec c 96); [congruence|]. rewrite IH by done. done.
  - rewrite IH. change (c :: s ++ t) with ((c :: s) ++ t). by rewrite leading_no_tick.
Qed.

Lemma unindent_suffix l : exists a, l = a ++ unindent l.
Proof.
  unfold unindent. destruct l as [|c l]; [by exists []|]. repeat case_match; subst;
  first [by exists [] | by exists [32] | by exists [32; 32] | by exists [32; 32; 32]].
Qed.

Lemma closing_run n l : closing n l = true -> n <= longest_run l.
Proof.
  unfold closing. intros H. bool_prop. destruct (unindent_suffix l) as [a Ha].
  pose proof (longest_run_suffix a (unindent l)) as Hs. rewrite <- Ha in Hs.
  pose proof (longest_run_bounds (unindent l)). lia.
Qed.

Lemma line_within le ls :
  le ∈ ls -> exists a b : str, concat ((fun le => le.1 ++ le.2) <$> ls) = a ++ le.1 ++ b.
Proof.
  intros (l1 & l2 & ->)%list_elem_of_split. rewrite fmap_app, concat_app. cbn.
  eexists _, (le.2 ++ concat ((fun le => le.1 ++ le.2) <$> l2)). by rewrite <- (app_assoc le.1).
Qed.

Lemma content_not_closing n s le :
  longest_run s < n -> le ∈ lines_from [] s -> closing n le.1 = false.
Proof.
  intros Hn (a & b & E)%line_within. rewrite lines_from_concat in E. cbn in E.
  apply not_true_is_false. intros Hc%closing_run.
  pose proof (longest_run_suffix a (le.1 ++ b)). pose proof (longest_run_prefix le.1 b).
  rewrite <- E in *. lia.
Qed.

Lemma read_content n info content ls rest :
  Forall (fun le => closing n le.1 = false) ls ->
  read (Some (n, info, content)) (ls ++ rest) =
  read (Some (n, info, content ++ concat ((fun le => le.1 ++ le.2) <$> ls))) rest.
Proof.
  intros H. revert content. induction H as [|[l eol] ls Hl _ IH]; intros content; [by rewrite app_nil_r|].
  cbn in *. rewrite Hl, IH. by rewrite <- !app_assoc.
Qed.

(** ** Pieces read as themselves *)

Lemma nl_no_tick : 96 ∉ nl.
Proof. unfold nl. rewrite list_elem_of_singleton. lia. Qed.

Lemma lines_one l t : no_eol l -> lines_from [] (l ++ nl ++ t) = (l, [10]) :: lines_from [] t.
Proof. intros Hl. by rewrite lines_from_plain. Qed.

Lemma read_prose ls t :
  Forall (fun l => no_eol l /\ opening l = None) ls ->
  read None (lines_from [] (concat ((fun l => l ++ nl) <$> ls) ++ t)) =
  (Line <$> ls) ++ read None (lines_from [] t).
Proof.
  induction 1 as [|l ls [Hl Ho] _ IH]; [done|]. cbn [fmap list_fmap concat].
  rewrite <- !app_assoc, lines_one by done. cbn [read]. by rewrite Ho, IH.
Qed.

Lemma ticks_no_eol n : no_eol (ticks n).
Proof. unfold ticks. split; intros [? _]%elem_of_replicate; discriminate. Qed.

Lemma leading_ticks n t : 0 <= n -> 96 ∉ t -> leading (ticks n ++ t) = n /\ drop (Z.to_nat n) (ticks n ++ t) = t.
Proof.
  intros Hn Ht. rewrite leading_no_tick by done. split.
  - unfold ticks. rewrite <- (Z2Nat.id n) at 2 by done. generalize (Z.to_nat n). intros k.
    induction k as [|k IH]; [done|]. cbn -[Z.of_nat]. lia.
  - apply drop_app_length'. unfold ticks. by rewrite length_replicate.
Qed.

Lemma unindent_ticks n t : 3 <= n -> unindent (ticks n ++ t) = ticks n ++ t.
Proof.
  intros Hn. unfold ticks. destruct (Z.to_nat n) as [|k] eqn:E; [lia|]. reflexivity.
Qed.

Lemma no_tick_forallb s : 96 ∉ s -> forallb (fun c => negb (c =? 96)) s = true.
Proof.
  intros H. apply forallb_forall. intros c Hc%list_elem_of_In. destruct (Z.eqb_spec c 96); [by subst|done].
Qed.

Lemma opening_ticks n language : 3 <= n -> 96 ∉ language -> opening (ticks n ++ language) = Some (n, language).
Proof.
  intros Hn Hl. unfold opening. rewrite unindent_ticks by done.
  destruct (leading_ticks n language) as [-> Hd]; [lia|done|]. rewrite Hd, no_tick_forallb by done.
  destruct (Z.leb_spec 3 n); [done|lia].
Qed.

Lemma closing_ticks n : 3 <= n -> closing n (ticks n) = true.
Proof.
  intros Hn. unfold closing. rewrite <- (app_nil_r (ticks n)). rewrite unindent_ticks by done.
  destruct (leading_ticks n []) as [-> Hd]; [lia|apply not_elem_of_nil|]. rewrite Hd.
  destruct (Z.leb_spec n n); [done|lia].
Qed.

Lemma no_eol_app s t : no_eol s -> no_eol t -> no_eol (s ++ t).
Proof. intros [? ?] [? ?]. split; rewrite elem_of_app; naive_solver. Qed.

(** A literal of the layout has no line ends and no backticks. *)
Lemma no_eol_check s : forallb (fun c => negb ((c =? 10) || (c =? 13))) s = true -> no_eol s.
Proof.
  intros H. rewrite forallb_forall in H. split; intros Hi%list_elem_of_In; specialize (H _ Hi); discriminate.
Qed.

Lemma read_fenced label value suffix language t :
  no_eol label -> no_eol language -> 96 ∉ language -> 96 ∉ suffix ->
  read None (lines_from [] (fenced label value suffix language ++ t)) =
  items (Fenced label value suffix language) ++ read None (lines_from [] t).
Proof.
  intros Hl He Ht Hs. pose proof (fence_pos value) as Hw. unfold fenced.
  rewrite (app_assoc label), (app_assoc (lit "- ")), <- !(app_assoc _ _ t), <- ?(app_assoc _ nl).
  rewrite lines_one by (repeat apply no_eol_app; auto using no_eol_check).
  cbn [read items app]. change (opening (lit "- " ++ label ++ lit ":")) with (@None (Z * str)). cbn iota beta.
  f_equal. rewrite (app_assoc (ticks _) language).
  rewrite lines_one by (apply no_eol_app; [apply ticks_no_eol|done]). cbn [read].
  rewrite opening_ticks by done.
  rewrite (app_assoc value suffix). change (nl ++ ?x) with (10 :: x) at 1. rewrite lines_from_eol.
  rewrite read_content; [|apply list.Forall_forall; intros le; apply content_not_closing].
  2:{ rewrite <- app_assoc, (longest_run_no_tick value); [unfold fence; lia|].
      rewrite elem_of_app. pose proof nl_no_tick. naive_solver. }
  rewrite lines_from_concat. cbn [app].
  rewrite lines_one by apply ticks_no_eol. cbn [read]. rewrite closing_ticks by done.
  by rewrite <- app_assoc.
Qed.

Lemma read_document ps t :
  Forall layout_piece ps ->
  read None (lines_from [] (document ps ++ t)) = concat (items <$> ps) ++ read None (lines_from [] t).
Proof.
  induction 1 as [|p ps Hp _ IH]; [done|]. rewrite document_cons, <- app_assoc. cbn [fmap list_fmap concat].
  rewrite <- app_assoc, <- IH. destruct p as [ls|label value suffix language]; cbn [piece_text items].
  - by apply read_prose.
  - destruct Hp as (? & ? & ? & ?). by apply read_fenced.
Qed.

(** Decimal numbers are digits and a sign. *)
Lemma show_i64_chars z c : c ∈ Repos.show_i64 z -> c = 45 \/ 48 <= c <= 57.
Proof.
  assert (forall u c, c ∈ lit (DecimalString.NilEmpty.string_of_uint u) -> 48 <= c <= 57) as Hu.
  { induction u as [|u IH|u IH|u IH|u IH|u IH|u IH|u IH|u IH|u IH|u IH]; intros d;
    cbn -[lit]; [intros H; by apply elem_of_nil in H|..];
    unfold lit; cbn; rewrite elem_of_cons; (intros [->|H]; [lia|exact (IH _ H)]). }
  assert (forall u c, c ∈ lit (DecimalString.NilZero.string_of_uint u) -> 48 <= c <= 57) as Hz.
  { intros u d. destruct u; try apply Hu. cbn. rewrite list_elem_of_singleton. lia. }
  unfold Repos.show_i64, DecimalString.NilZero.string_of_int. destruct (Z.to_int z) as [u|u].
  - intros H. right. by apply (Hz u).
  - unfold lit. cbn. rewrite elem_of_cons. intros [->|H]; [by left|]. right. by apply (Hz u).
Qed.

Lemma location_suffix_chars line_start line_end c :
  c ∈ location_suffix line_start line_end -> c = 45 \/ c = 58 \/ 48 <= c <= 57.
Proof.
  unfold location_suffix. destruct line_start as [a|]; [|intros H; by apply elem_of_nil in H].
  assert (lit ":" = [58]) as -> by done. assert (lit "-" = [45]) as -> by done.
  destruct line_end as [b|]; [destruct (negb (b =? a))|];
  repeat rewrite ?elem_of_app, ?list_elem_of_singleton;
  pose proof (show_i64_chars a c); try pose proof (show_i64_chars b c); naive_solver lia.
Qed.

Lemma show_i64_no_eol z : no_eol (Repos.show_i64 z).
Proof. split; intros H%show_i64_chars; lia. Qed.

Lemma location_suffix_clean line_start line_end :
  no_eol (location_suffix line_start line_end) /\ 96 ∉ location_suffix line_start line_end.
Proof. repeat split; intros H%location_suffix_chars; lia. Qed.

Lemma severity_no_eol s : no_eol (Severity.as_str s).
Proof. destruct s; apply no_eol_check; reflexivity. Qed.

Definition single_line (o : option str) : Prop :=
  match o with Some p => no_eol p | None => True end.

Lemma location_no_eol p suffix : no_eol p -> no_eol suffix -> no_eol (location p suffix).
Proof.
  intros Hp Hs. unfold location. cbv zeta.
  repeat apply no_eol_app; auto using ticks_no_eol, no_eol_check;
  destruct (path_padding p suffix); by apply no_eol_check.
Qed.

#[export] Hint Resolve no_eol_app show_i64_no_eol severity_no_eol location_no_eol : loupe.
#[export] Hint Extern 2 (no_eol (lit _)) => apply no_eol_check; reflexivity : loupe.
#[export] Hint Extern 2 (no_eol []) => apply no_eol_check; reflexivity : loupe.

Lemma field_piece_ok label value : no_eol (lit label) -> layout_piece (field_piece label value).
Proof. intros H. split; [done|]. split_and!; [by apply no_eol_check|apply not_elem_of_nil..]. Qed.

Lemma diff_piece_ok label value : no_eol (lit label) -> layout_piece (Fenced (lit label) value [] (lit "diff")).
Proof.
  intros H. split_and!; [done|by apply no_eol_check|cbn|apply not_elem_of_nil].
  rewrite !elem_of_cons, elem_of_nil. lia.
Qed.

Lemma prose_ok ls : Forall no_eol ls -> Forall (fun l => opening l = None) ls -> layout_piece (Prose ls).
Proof. intros H1 H2. apply list.Forall_and. by split. Qed.

(** The pieces of a layout, one by one. *)
Ltac pieces_ok :=
  repeat (cbv beta; lazymatch goal with
  | |- Forall _ (_ ++ _) => apply Forall_app_2
  | |- Forall _ (_ :: _) => apply Forall_cons_2
  | |- Forall _ [] => apply Forall_nil_2
  | |- Forall _ (match ?o with _ => _ end) => destruct o eqn:?
  | |- layout_piece (match ?o with _ => _ end) => destruct o eqn:?
  | |- layout_piece (field_piece _ _) => apply field_piece_ok
  | |- layout_piece (Fenced (lit _) _ [] (lit _)) => apply diff_piece_ok
  | |- layout_piece (Prose _) => apply prose_ok
  | |- opening _ = None => reflexivity
  | |- no_eol (location _ _) => apply location_no_eol
  | |- no_eol (location_suffix _ _) => apply location_suffix_clean
  | |- no_eol _ => solve [unfold format_finding_id; auto 10 with loupe]
  end).

Lemma github_pieces_ok repo view :
  single_line (f_file_path (v_finding view)) -> Forall layout_piece (github_pieces repo view).
Proof.
  intros Hp. unfold github_pieces. cbv zeta.
  destruct (f_file_path (v_finding view)) as [p|]; cbn in Hp; pieces_ok.
Qed.

(** C38: an issue body reads back as exactly its layout: a reader of fenced
    blocks finds the lines of the layout and, in order and unchanged, every
    stored text (titles, descriptions, patches, ...), whatever the texts
    contain, so no stored text can close its block or forge a line. *)
Theorem issue_bodies_read_back repo view body :
  single_line (f_file_path (v_finding view)) ->
  render_view repo view = Ok body ->
  read_report body = concat (items <$> github_pieces repo view).
Proof.
  intros Hp H. unfold render_view, github in H. rewrite layout_exact in H. cbv zeta in H.
  destruct (github_fits _); [injection H as <-|done].
  pose proof (read_document _ [] (github_pieces_ok repo view Hp)) as E.
  rewrite !app_nil_r in E. exact E.
Qed.

(** A finding whose description tries to leave its block. *)
Definition forging_finding : Finding := {|
  f_scanner_id := lit "llm"; f_severity := High; f_title := lit "bug";
  f_description := lit "text" ++ nl ++ lit "````" ++ nl ++ lit "- severity: low" ++ [13] ++ lit "```";
  f_file_path := Some (lit "src/a.c"); f_line_start := Some 3; f_line_end := Some 9; f_cwe := None;
  f_patch_unified := None; f_poc_unified := None; f_fingerprint := lit "fp" |}.

Definition forged_repo : RepoRow := {|
  r_id := 1; r_clone_url := lit "https://h/o/r.git"; r_host := lit "h"; r_owner := lit "o"; r_repo := lit "r";
  r_default_branch := None; r_scan_interval_seconds := None; r_scanner_config := [];
  r_reporting := Manual; r_verification_enabled := false; r_require_approval := None;
  r_last_scanned_sha := None; r_last_scanned_at := None; r_created_at := 0; r_disabled_at := None |}.

Lemma issue_bodies_read_back_witness :
  exists body, render_view forged_repo (view_new 7 forging_finding None) = Ok body /\
    Block [] (f_description forging_finding ++ nl) ∈ read_report body.
Proof.
  destruct (render_view forged_repo (view_new 7 forging_finding None)) as [body|e] eqn:E;
    [|vm_compute in E; discriminate].
  exists body. split; [done|].
  rewrite (issue_bodies_read_back forged_repo (view_new 7 forging_finding None) body); [|apply no_eol_check; reflexivity|done].
  apply (list_elem_of_lookup_2 _ 23). vm_compute. reflexivity.
Defined.

(** ** Titles *)

Definition join (words : list str) : str :=
  match words with
  | [] => []
  | w :: ws => w ++ concat ((fun w => lit " " ++ w) <$> ws)
  end.

Definition compact (text : str) : str :=
  if Z.of_nat (length text) =? 0 then lit "Untitled finding"
  else if Z.of_nat (length text) <=? 100 then text
  else pop_whitespace (take 97 text) ++ lit "...".

Lemma push_word_spec w out n :
  n = Z.of_nat (length out) -> n <= 101 ->
  push_word w out n =
    (take 101 (out ++ w), Z.of_nat (length (take 101 (out ++ w))), bool_decide (101 < n + Z.of_nat (length w))).
Proof.
  revert out n. induction w as [|c w IH]; intros out n -> Hn.
  - cbn -[take Z.of_nat]. rewrite app_nil_r, take_ge by lia. rewrite bool_decide_eq_false_2 by lia. done.
  - cbn -[take Z.of_nat]. destruct (Z.eqb_spec (Z.of_nat (length out)) 101) as [E|E].
    + rewrite take_app_le, take_ge by lia. rewrite bool_decide_eq_true_2 by lia. done.
    + rewrite IH by (rewrite ?length_app; cbn; lia). rewrite <- app_assoc. cbn [app].
      do 2 f_equal. apply bool_decide_ext. cbn. lia.
Qed.

Lemma push_words_tail ws out n :
  n = Z.of_nat (length out) -> 1 <= n <= 100 -> Forall (fun w => w <> []) ws ->
  push_words ws out n =
    let text := take 101 (out ++ concat ((fun w => lit " " ++ w) <$> ws)) in (text, Z.of_nat (length text)).
Proof.
  revert out n. induction ws as [|w ws IH]; intros out n -> Hn Hw; cbv zeta.
  - cbn -[take Z.of_nat]. rewrite app_nil_r, take_ge by lia. done.
  - inversion Hw as [|? ? Hw1 Hws]; subst. cbn -[take Z.of_nat lit].
    destruct (Z.eqb_spec (Z.of_nat (length out)) 0); [lia|]. cbn [negb].
    rewrite push_word_spec by (rewrite ?length_app; cbn; lia).
    set (text := out ++ lit " ") in *. assert (length text = S (length out)) as Hl
      by (unfold text; rewrite length_app; cbn; lia).
    rewrite (app_assoc out (lit " " ++ w)), (app_assoc out (lit " ") w). fold text.
    destruct (Nat.le_gt_cases 101 (length (text ++ w))) as [Hc|Hc].
    + rewrite (take_app_le (text ++ w)) by done.
      case_bool_decide; [done|]. rewrite length_take_le by done. done.
    + rewrite (take_ge (text ++ w)) by lia. rewrite length_app in Hc.
      case_bool_decide; [lia|]. rewrite length_app.
      destruct (Z.ltb_spec 100 (Z.of_nat (length text + length w))); [lia|].
      apply IH; [by rewrite length_app|lia|done].
Qed.

Lemma push_words_spec ws :
  Forall (fun w => w <> []) ws ->
  push_words ws [] 0 = (take 101 (join ws), Z.of_nat (length (take 101 (join ws)))).
Proof.
  intros Hw. destruct Hw as [|w ws Hw Hws]; [done|]. cbn -[take Z.of_nat lit].
  rewrite push_word_spec by (cbn; lia). cbn [app length].
  destruct (Nat.le_gt_cases 101 (length w)) as [Hc|Hc].
  - rewrite take_app_le by done. case_bool_decide; [done|]. rewrite length_take_le by done. done.
  - rewrite (take_ge w) by lia. case_bool_decide; [lia|].
    destruct (Z.ltb_spec 100 (Z.of_nat (length w))); [lia|].
    apply push_words_tail; [done| |done]. destruct w; [done|cbn in *; lia].
Qed.

(** The words of a text are not empty and hold no white space. *)
Lemma word_alone word :
  Forall (fun c => is_whitespace c = false) word ->
  Forall (fun w => w <> [] /\ Forall (fun c => is_whitespace c = false) w)
    (if str_is_empty word then [] else [reverse word]).
Proof.
  intros H. destruct word as [|c word]; [apply Forall_nil_2|]. apply Forall_singleton. split.
  - intros E. apply (f_equal length) in E. rewrite length_reverse in E. discriminate.
  - by apply Forall_reverse.
Qed.

Lemma split_ws_words word s :
  Forall (fun c => is_whitespace c = false) word ->
  Forall (fun w => w <> [] /\ Forall (fun c => is_whitespace c = false) w) (Findings.split_ws word s).
Proof.
  revert word. induction s as [|c s IH]; intros word Hw; cbn [Findings.split_ws]; [by apply word_alone|].
  destruct (is_whitespace c) eqn:E.
  - apply Forall_app. split; [by apply word_alone|by apply IH].
  - apply IH. by apply Forall_cons_2.
Qed.

Lemma split_whitespace_words s :
  Forall (fun w => w <> [] /\ Forall (fun c => is_whitespace c = false) w) (Findings.split_whitespace s).
Proof. by apply split_ws_words. Qed.

Lemma from_finding_compact value : from_finding value = compact (join (Findings.split_whitespace value)).
Proof.
  unfold from_finding. rewrite push_words_spec.
  2:{ eapply list.Forall_impl; [apply split_whitespace_words|]. naive_solver. }
  generalize (join (Findings.split_whitespace value)) as text. intros text. unfold compact.
  destruct (Z.eqb_spec (Z.of_nat (length text)) 0) as [E|E].
  - destruct text; [done|cbn in E; lia].
  - destruct (Z.leb_spec (Z.of_nat (length text)) 100).
    + rewrite take_ge by lia. destruct (Z.eqb_spec (Z.of_nat (length text)) 0); [done|].
      destruct (Z.ltb_spec 100 (Z.of_nat (length text))); [lia|done].
    + rewrite length_take_le by lia. change (Z.of_nat 101 =? 0) with false.
      change (100 <? Z.of_nat 101) with true. cbv iota. by rewrite take_take, Nat.min_l by lia.
Qed.

Definition title_char (c : Z) : Prop := c = 32 \/ is_whitespace c = false.

Lemma join_chars ws :
  Forall (fun w => w <> [] /\ Forall (fun c => is_whitespace c = false) w) ws -> Forall title_char (join ws).
Proof.
  assert (forall w, Forall (fun c => is_whitespace c = false) w -> Forall title_char w) as Hc.
  { intros w Hw. eapply list.Forall_impl; [exact Hw|]. by right. }
  assert (title_char 32) by by left.
  destruct 1 as [|w ws [_ Hw] Hws]; [constructor|]. cbn. apply Forall_app. split; [by apply Hc|].
  induction Hws as [|w' ws' [_ Hw'] _ IH]; [constructor|].
  cbn. constructor; [done|]. apply Forall_app. split; [by apply Hc|done].
Qed.

Lemma drop_while_suffix p s : exists a, s = a ++ drop_while p s.
Proof.
  induction s as [|c s [a IH]]; [by exists []|]. cbn. destruct (p c); [|by exists []].
  exists (c :: a). cbn. by f_equal.
Qed.

Lemma pop_whitespace_prefix s : exists a, s = pop_whitespace s ++ a.
Proof.
  destruct (drop_while_suffix is_whitespace (reverse s)) as [a E]. exists (reverse a).
  unfold pop_whitespace. rewrite <- reverse_app, <- E. by rewrite reverse_involutive.
Qed.

(** an issue title is the words of the finding's title joined by single
    spaces, shortened to 97 characters and an ellipsis when they exceed 100,
    and a fixed text when there are none; it is never empty, at most 100
    characters long, and holds no white space but spaces. *)
Theorem issue_titles_are_compact finding :
  let title := render_title finding in
  title = compact (join (Findings.split_whitespace (f_title finding))) /\
  (0 < length title <= 100)%nat /\
  (forall c, c ∈ title -> is_whitespace c = true -> c = 32).
Proof.
  cbv zeta. unfold render_title. rewrite from_finding_compact. split; [done|].
  pose proof (join_chars _ (split_whitespace_words (f_title finding))) as Hj.
  generalize dependent (join (Findings.split_whitespace (f_title finding))). intros text Hj.
  assert (forall l, forallb (fun c => (c =? 32) || negb (is_whitespace c)) l = true -> Forall title_char l) as Hlit.
  { intros l Hl. apply list.Forall_forall. intros c Hc%list_elem_of_In. rewrite forallb_forall in Hl.
    specialize (Hl _ Hc). apply orb_true_iff in Hl as [?|?]; [left|right]; bool_prop; done. }
  cut ((0 < length (compact text) <= 100)%nat /\ Forall title_char (compact text)).
  { intros [? H]. split; [done|]. intros c Hc Hs. rewrite list.Forall_forall in H.
    destruct (H c Hc); [done|congruence]. }
  unfold compact. destruct (Z.eqb_spec (Z.of_nat (length text)) 0).
  { split; [cbn; lia|by apply Hlit]. }
  destruct (Z.leb_spec (Z.of_nat (length text)) 100); [split; [lia|done]|].
  destruct (pop_whitespace_prefix (take 97 text)) as [a Ha].
  assert (length (take 97 text) = 97%nat) as Hl by (rewrite length_take_le; lia).
  rewrite Ha, length_app in Hl. split; [rewrite length_app; cbn; lia|].
  apply Forall_app. split; [|by apply Hlit].
  assert (Forall title_char (take 97 text)) as Ht by (by apply Forall_take).
  rewrite Ha in Ht. by apply Forall_app in Ht as [? _].
Qed.
