(* ===== verification/McpArguments.v ===== *)
(** * Tool arguments

    [loupe-worker/src/mcp/ingress.rs] and the path rules of
    [loupe-worker/src/mcp.rs]: how a record of the sandbox becomes a request,
    and its arguments typed values.  JSON is read by [serde_json], the reader
    below: raw tokens of a record are texts, and every field is checked on its
    own token.  Unicode categories and normalisation are parameters, as in
    [Text.v]. *)

From S2P Require Import Prelude Domain JsonString Text Utf8 LlmFinding ModelBroker Repos Render.
From Stdlib Require Import ZArith Lia.
From Stdlib Require DecimalString DecimalZ DecimalPos.
From stdpp Require Import base sets list option numbers strings gmap.
Local Open Scope Z_scope.

(** ** Paths *)

Inductive PathError := PathEmpty | PathAbsolute | PathParent | PathNoFile.

(** [PathBuf::push] of one name *)
Definition push_name (rel part : str) : str := if str_is_empty rel then part else rel ++ lit "/" ++ part.

(** The loop over the components. *)
Fixpoint push_components (cs : list Component) (rel : str) : result PathError str :=
  match cs with
  | [] => Ok rel
  | NormalName part :: cs => push_components cs (push_name rel part)
  | CurDir :: cs => push_components cs rel
  | ParentDir :: _ => Err PathParent
  | RootDir :: _ => Err PathAbsolute
  end.

Definition strip_prefix (p s : str) : option str := if starts_with p s then Some (drop (length p) s) else None.

(** [normalize_path_component_rules] *)
Definition normalize_path_component_rules (file : str) : result PathError str :=
  let stripped := default file (strip_prefix (lit "/workdir/") file) in
  if str_is_empty (trim stripped) then Err PathEmpty
  else if is_absolute stripped then Err PathAbsolute
  else
    rel ← push_components (components stripped) [];
    if str_is_empty rel then Err PathNoFile else Ok rel.

(** ** Requests *)

Inductive Method := Initialize | List | Call | Initialized | Ping | UnknownMethod (name : str).

Inductive ToolName := Query | Get | Finding | Poc | Verdict | Patch | ValidatePatch | UnknownTool (name : str).

Record DecodedQueryArgs := { query : str; limit : Z }.

Record DecodedFindingArgs := {
  severity : Severity;
  title : str;
  file : str;
  line_start : Z;
  line_end : Z;
  description : str;
  poc_unified : str;
  cwe : option str;
}.

Inductive Arguments :=
| AQuery (args : DecodedQueryArgs)
| AGet (id : Z)
| AFinding (args : DecodedFindingArgs)
| APoc (diff : str)
| AVerdict (verdict : Domain.Verdict)
| APatch (patch : VerdictPatch)
| AValidatePatch (diff : str).

(** The reasons to refuse arguments. *)
Inductive ArgError :=
| ESyntax | EData
| EPolicy (e : TextError)
| EPath (e : PathError)
| EVersionType | EVersion (version : Z)
| ERequired (name : str) | ELine (name : str)
| EId | ESeverity | EVerdict
| EUnknownTool | ENotDispatched.

Inductive RecordError := RecordUtf8 | RecordJson.

Record ToolCall := { name : ToolName; arguments_of : result ArgError Arguments }.
Record DecodedRequest := { id : option Json.Value; method : Method; call : ToolCall }.

(** [RawRequest]: the raw tokens of an envelope. *)
Record RawRequest := {
  raw_jsonrpc : str;
  raw_id : option str;
  raw_method : str;
  raw_params : option str;
}.

(** What the decoder asks of [serde_json]: the text as a string, a number or a
    value, the raw tokens of an object's fields, an envelope, and whether the
    text has the content of an envelope, with or without its parameters. *)
Class JsonReader := {
  from_string : str -> option str;
  from_number : str -> bool;
  from_value : str -> option Json.Value;
  from_fields : str -> option (gmap str str);
  from_envelope : str -> option RawRequest;
  envelope_content : str -> bool;
  rejected_params_envelope : str -> bool;
}.

Definition LOUPE_MCP_PROTOCOL_VERSION : Z := 1.

Definition QueryText : TextPolicy := {|
  FIELD := lit "query"; MAX_CHARS := LEGACY_TEXT_MAX_BYTES; MAX_BYTES := LEGACY_TEXT_MAX_BYTES;
  MULTILINE := true; ALLOW_EMPTY := true; NORMALIZATION := Exact; WHITESPACE := Significant;
  ALLOW_CR := true |}.
Definition FindingTitle : TextPolicy := exact_text "finding_title" false.
Definition FindingDescription : TextPolicy := exact_text "finding_description" true.
Definition PocUnified : TextPolicy := exact_text "poc_unified" true.
Definition PatchUnified : TextPolicy := exact_text "patch_unified" true.
Definition VerdictNotes : TextPolicy := exact_text "verdict_notes" true.
Definition VerdictReason : TextPolicy := exact_text "verdict_reason" true.
Definition PatchNotes : TextPolicy := exact_text "patch_notes" true.
Definition CweText : TextPolicy := exact_text "cwe" false.

Definition quoted (token : str) : bool := starts_with [34] token.

(** [Value::as_i64] *)
Definition as_i64 (v : Json.Value) : option Z :=
  match v with Json.Integer n => to_i64 n | _ => None end.

(** [str::parse::<i64>] *)
Fixpoint digits_value (acc : Z) (s : str) : option Z :=
  match s with
  | [] => Some acc
  | c :: s => if is_ascii_digit c then digits_value (10 * acc + (c - 48)) s else None
  end.
Definition parse_i64 (s : str) : option Z :=
  match s with
  | [] | [43] | [45] => None
  | 43 :: s => n ← digits_value 0 s; to_i64 n
  | 45 :: s => n ← digits_value 0 s; to_i64 (- n)
  | s => n ← digits_value 0 s; to_i64 n
  end.

Section Decode.
Context (category : Z -> GeneralCategory) (nfc : str -> str) `{JsonReader}.

(** [require_string] *)
Definition require_string (token : str) : result ArgError unit :=
  if quoted token then Ok tt
  else
    match token with
    | b :: _ => if ((b =? 45) || is_ascii_digit b) && negb (from_number token) then Err ESyntax else Err EData
    | [] => Err EData
    end.

(** [json_text] *)
Definition json_text (P : TextPolicy) (token : str) : result ArgError str :=
  _ ← require_string token;
  decoded ← map_err EPolicy (decode_json_string_bounded token (FIELD P) (MAX_BYTES P) (MAX_CHARS P));
  map_err EPolicy (text category nfc P decoded).

(** [AgentSubmittedPath] *)
Definition submitted_path (token : str) : result ArgError str :=
  decoded ← map_err EPolicy
    (decode_json_string_bounded token (lit "repo_path") LEGACY_TEXT_MAX_BYTES LEGACY_TEXT_MAX_BYTES);
  normalized ← map_err EPath (normalize_path_component_rules decoded);
  map_err EPolicy (Text.path category normalized).

(** [AgentFindingId] *)
Definition finding_id (token : str) : result ArgError Z :=
  id ← (if quoted token then
          reference ← map_err EPolicy
            (decode_json_string_bounded token (lit "finding_id") LEGACY_TEXT_MAX_BYTES LEGACY_TEXT_MAX_BYTES);
          Ok (id ← strip_prefix (lit "LUP-") reference ≫= parse_i64;
              if str_eqb (format_finding_id id) reference then Some id else None)
        else
          value ← ok_or (from_value token) ESyntax;
          Ok (as_i64 value));
  match id with Some id => if 0 <? id then Ok id else Err EId | None => Err EId end.

Definition fields (raw : option str) : option (gmap str str) :=
  match raw with
  | Some raw => if starts_with (lit "{") raw then from_fields raw else Some ∅
  | None => Some ∅
  end.

Definition required (fs : gmap str str) (key : string) : result ArgError str :=
  match fs !! lit key with
  | Some v => if quoted v then Ok v else Err (ERequired (lit key))
  | None => Err (ERequired (lit key))
  end.

Definition scalar_string (raw : str) : result ArgError str := ok_or (from_string raw) ESyntax.

(** [map(from_str::<Value>).transpose()] *)
Definition optional_value (fs : gmap str str) (key : string) : result ArgError (option Json.Value) :=
  match fs !! lit key with
  | Some v => value ← ok_or (from_value v) ESyntax; Ok (Some value)
  | None => Ok None
  end.

(** [line] *)
Definition line (fs : gmap str str) (key : string) : result ArgError Z :=
  value ← optional_value fs key;
  match value ≫= Json.as_u64 with
  | Some n => Ok (Z.min n u32_max)
  | None => Err (ELine (lit key))
  end.

Definition field_text (P : TextPolicy) (fs : gmap str str) (key : string) : result ArgError str :=
  raw ← required fs key; json_text P raw.

(** The [cwe] field: a string that is not empty. *)
Definition cwe_field (fs : gmap str str) : result ArgError (option str) :=
  match fs !! lit "cwe" with
  | Some raw =>
      if quoted raw then value ← json_text CweText raw; Ok (if str_is_empty value then None else Some value)
      else Ok None
  | None => Ok None
  end.

Definition finding_args (fs : gmap str str) : result ArgError DecodedFindingArgs :=
  raw_severity ← required fs "severity";
  value ← scalar_string raw_severity;
  severity ← map_err (fun _ => ESeverity) (Severity.from_str value);
  title ← field_text FindingTitle fs "title";
  raw_file ← required fs "file";
  file ← submitted_path raw_file;
  line_start ← line fs "line_start";
  line_end ← line fs "line_end";
  description ← field_text FindingDescription fs "description";
  poc_unified ← field_text PocUnified fs "poc_unified";
  cwe ← cwe_field fs;
  Ok {| severity := severity; title := title; file := file; line_start := line_start; line_end := line_end;
        description := description; poc_unified := poc_unified; cwe := cwe |}.

Definition verdict_args (fs : gmap str str) : result ArgError Domain.Verdict :=
  raw_kind ← required fs "verdict";
  kind ← scalar_string raw_kind;
  notes ← required fs "notes";
  if str_eqb kind (lit "confirmed") then notes ← json_text VerdictNotes notes; Ok (VConfirmed (Some notes) None)
  else if str_eqb kind (lit "dismissed") then notes ← json_text VerdictNotes notes; Ok (VDismissed (Some notes))
  else if str_eqb kind (lit "inconclusive") then
    reason ← json_text VerdictReason notes; Ok (VInconclusive reason false)
  else Err EVerdict.

Definition check_version (fs : gmap str str) : result ArgError unit :=
  value ← optional_value fs "protocol_version";
  match value with
  | None => Ok tt
  | Some value =>
      version ← ok_or (Json.as_u64 value) EVersionType;
      if version =? LOUPE_MCP_PROTOCOL_VERSION then Ok tt else Err (EVersion version)
  end.

(** [arguments] *)
Definition arguments (name : ToolName) (raw : option str) : result ArgError Arguments :=
  fs ← ok_or (fields raw) ESyntax;
  _ ← check_version fs;
  match name with
  | Query =>
      query ← field_text QueryText fs "query";
      limit ← optional_value fs "limit";
      Ok (AQuery {| query := query; limit := Z.max 1 (Z.min 100 (default 20 (limit ≫= as_i64))) |})
  | Get => raw ← ok_or (fs !! lit "id") EId; id ← finding_id raw; Ok (AGet id)
  | Finding => args ← finding_args fs; Ok (AFinding args)
  | Poc => diff ← field_text PocUnified fs "poc_unified"; Ok (APoc diff)
  | ValidatePatch => diff ← field_text PatchUnified fs "patch_unified"; Ok (AValidatePatch diff)
  | Patch =>
      patch ← field_text PatchUnified fs "patch_unified";
      notes ← field_text PatchNotes fs "notes";
      Ok (APatch {| vp_patch_unified := patch; vp_notes := notes |})
  | Verdict => verdict ← verdict_args fs; Ok (AVerdict verdict)
  | UnknownTool _ => Err EUnknownTool
  end.

Definition method_of (m : str) : Method :=
  if str_eqb m (lit "initialize") then Initialize
  else if str_eqb m (lit "tools/list") then List
  else if str_eqb m (lit "tools/call") then Call
  else if str_eqb m (lit "notifications/initialized") then Initialized
  else if str_eqb m (lit "ping") then Ping
  else UnknownMethod m.

Definition tool_of (n : str) : ToolName :=
  if str_eqb n (lit "query_prior_findings") then Query
  else if str_eqb n (lit "get_finding_by_id") then Get
  else if str_eqb n (lit "submit_finding") then Finding
  else if str_eqb n (lit "validate_poc") then Poc
  else if str_eqb n (lit "submit_verdict") then Verdict
  else if str_eqb n (lit "submit_patch") then Patch
  else if str_eqb n (lit "validate_patch") then ValidatePatch
  else UnknownTool n.

(** [new_field_policy_failure] *)
Definition new_field_policy_failure (r : result ArgError Arguments) : bool :=
  match r with Err (EPolicy e) => negb (bool_decide (te_rule e = JsonSyntax)) | _ => false end.

(** [McpRequestDecoder::validate] *)
Definition decode_request (record : list Z) : result RecordError (option DecodedRequest) :=
  match from_utf8 record with
  | None => Err RecordUtf8
  | Some text =>
      if str_is_empty (trim text) then Ok None
      else
        raw ← ok_or (from_envelope text) RecordJson;
        _ ← ok_or (from_string (raw_jsonrpc raw)) RecordJson;
        method ← ok_or (from_string (raw_method raw)) RecordJson;
        params ← ok_or (fields (raw_params raw)) RecordJson;
        name ← match params !! lit "name" with
               | Some r => if quoted r then ok_or (from_string r) RecordJson else Ok []
               | None => Ok []
               end;
        let args :=
          match method_of method, raw_id raw with
          | Call, Some _ => arguments (tool_of name) (params !! lit "arguments")
          | _, _ => Err ENotDispatched
          end in
        _ ← (if (if new_field_policy_failure args then rejected_params_envelope text else envelope_content text)
             then Ok tt else Err RecordJson);
        id ← match raw_id raw with
             | Some r => v ← ok_or (from_value r) RecordJson; Ok (Some v)
             | None => Ok None
             end;
        Ok (Some {| id := id; method := method_of method;
                    call := {| name := tool_of name; arguments_of := args |} |})
  end.

End Decode.

(** ** Finding references *)

Lemma digits_value_uint u : forall p,
  digits_value (Zpos p) (lit (DecimalString.NilEmpty.string_of_uint u)) = Some (Zpos (Pos.of_uint_acc u p)).
Proof.
  induction u as [|u IH|u IH|u IH|u IH|u IH|u IH|u IH|u IH|u IH|u IH]; intros p; [reflexivity|..];
    unfold lit; cbn -[Z.mul Z.add]; fold (lit (DecimalString.NilEmpty.string_of_uint u)); rewrite <- IH;
    f_equal; lia.
Qed.

Lemma digits_value_zero u :
  digits_value 0 (lit (DecimalString.NilEmpty.string_of_uint u)) = Some (Z.of_uint u).
Proof.
  induction u as [|u IH|u IH|u IH|u IH|u IH|u IH|u IH|u IH|u IH|u IH]; [reflexivity|..];
    unfold lit; cbn -[Z.mul Z.add]; fold (lit (DecimalString.NilEmpty.string_of_uint u));
    [exact IH|exact (digits_value_uint u _)..].
Qed.

Lemma show_i64_positive p : exists c s, Repos.show_i64 (Zpos p) = c :: s /\ is_ascii_digit c = true /\
  digits_value 0 (Repos.show_i64 (Zpos p)) = Some (Zpos p).
Proof.
  pose proof (DecimalZ.of_to (Zpos p)) as Hz.
  unfold Repos.show_i64, DecimalString.NilZero.string_of_int. cbn [Z.to_int] in *. cbn [Z.of_int] in Hz.
  assert (Hv : digits_value 0 (lit (DecimalString.NilZero.string_of_uint (Pos.to_uint p))) = Some (Zpos p)).
  { rewrite <- Hz, <- digits_value_zero. destruct (Pos.to_uint p); reflexivity. }
  destruct (Pos.to_uint p); unfold lit in *; cbn -[digits_value] in *; do 2 eexists; split_and!; eauto.
Qed.

Lemma parse_i64_show id : 0 < id <= i64_max -> parse_i64 (Repos.show_i64 id) = Some id.
Proof.
  intros Hid. destruct id as [|p|p]; try lia. destruct (show_i64_positive p) as (c & s & E & Hd & Hv).
  rewrite E in *. unfold is_ascii_digit in Hd.
  assert (Hc : 48 <= c <= 57) by lia.
  assert (Hp : parse_i64 (c :: s) = n ← digits_value 0 (c :: s); to_i64 n).
  { assert (c = 48 \/ c = 49 \/ c = 50 \/ c = 51 \/ c = 52 \/ c = 53 \/ c = 54 \/ c = 55 \/ c = 56 \/ c = 57)
      as Hcases by lia. repeat destruct Hcases as [->|Hcases]; try subst c; reflexivity. }
  rewrite Hp, Hv. cbn [mbind option_bind]. unfold to_i64, in_i64, i64_min. unfold i64_max in *.
  replace ((_ <=? _) && _) with true by lia. reflexivity.
Qed.

Lemma parse_i64_bound s n : parse_i64 s = Some n -> n <= i64_max.
Proof.
  assert (H : forall o : option Z, (m ← o; to_i64 m) = Some n -> n <= i64_max).
  { intros o (m & _ & Hm)%bind_Some. apply to_i64_Some in Hm. lia. }
  assert (H' : forall o : option Z, (m ← o; to_i64 (- m)) = Some n -> n <= i64_max).
  { intros o (m & _ & Hm)%bind_Some. apply to_i64_Some in Hm. lia. }
  unfold parse_i64. intros Hs. repeat case_match; try discriminate; eauto.
Qed.

(** ** What arguments are accepted *)

Section Accepted.
Context (category : Z -> GeneralCategory) (nfc : str -> str) `{JsonReader}.

(** A token that spells a text, within the limits of all text. *)
Definition spells (token s : str) : Prop :=
  (exists body, token = [34] ++ body ++ [34] /\ json_chars body s) /\
  str_len s <= LEGACY_TEXT_MAX_BYTES /\ Z.of_nat (length s) <= LEGACY_TEXT_MAX_BYTES.

(** A field that spells a text of its policy. *)
Definition says (fs : gmap str str) (key : string) (P : TextPolicy) (t : str) : Prop :=
  exists token, fs !! lit key = Some token /\ spells token t /\ well_formed category P t.

(** A field that is a JSON string, read by [serde_json]. *)
Definition word (fs : gmap str str) (key : string) (s : str) : Prop :=
  exists token, fs !! lit key = Some token /\ quoted token = true /\ from_string token = Some s.

(** A field that is a natural number, capped at the largest [u32]. *)
Definition counts (fs : gmap str str) (key : string) (n : Z) : Prop :=
  exists token v m, fs !! lit key = Some token /\ from_value token = Some v /\ Json.as_u64 v = Some m /\
    n = Z.min m u32_max.

(** A path that stays inside the repository, as it is spelt or under [/workdir]. *)
Definition names_file (fs : gmap str str) (p : str) : Prop :=
  exists token raw, fs !! lit "file" = Some token /\ spells token raw /\
    normalize_path_component_rules raw = Ok p /\ Text.path category p = Ok p.

Definition refers (token : str) (id : Z) : Prop :=
  0 < id <= i64_max /\
  (spells token (format_finding_id id) \/ quoted token = false /\ from_value token = Some (Json.Integer id)).

Definition version_admitted (fs : gmap str str) : Prop :=
  forall token, fs !! lit "protocol_version" = Some token ->
    exists v, from_value token = Some v /\ Json.as_u64 v = Some LOUPE_MCP_PROTOCOL_VERSION.

(** The limit of a search: the number given, else twenty, between one and a hundred. *)
Definition limited (fs : gmap str str) (n : Z) : Prop :=
  match fs !! lit "limit" with
  | None => n = 20
  | Some token => exists v, from_value token = Some v /\ n = Z.max 1 (Z.min 100 (default 20 (as_i64 v)))
  end.

Definition weakness (fs : gmap str str) (c : option str) : Prop :=
  match fs !! lit "cwe" with
  | Some token =>
      if quoted token then exists s, spells token s /\ well_formed category CweText s /\
        c = if str_is_empty s then None else Some s
      else c = None
  | None => c = None
  end.

Definition accepted (fs : gmap str str) (name : ToolName) (a : Arguments) : Prop :=
  match name, a with
  | Query, AQuery q => says fs "query" QueryText (query q) /\ limited fs (limit q)
  | Get, AGet id => exists token, fs !! lit "id" = Some token /\ refers token id
  | Finding, AFinding f =>
      word fs "severity" (Severity.as_str (severity f)) /\ says fs "title" FindingTitle (title f) /\
      names_file fs (file f) /\ counts fs "line_start" (line_start f) /\ counts fs "line_end" (line_end f) /\
      says fs "description" FindingDescription (description f) /\
      says fs "poc_unified" PocUnified (poc_unified f) /\ weakness fs (cwe f)
  | Poc, APoc d => says fs "poc_unified" PocUnified d
  | ValidatePatch, AValidatePatch d => says fs "patch_unified" PatchUnified d
  | Patch, APatch p => says fs "patch_unified" PatchUnified (vp_patch_unified p) /\ says fs "notes" PatchNotes (vp_notes p)
  | Verdict, AVerdict (VConfirmed (Some n) None) => word fs "verdict" (lit "confirmed") /\ says fs "notes" VerdictNotes n
  | Verdict, AVerdict (VDismissed (Some n)) => word fs "verdict" (lit "dismissed") /\ says fs "notes" VerdictNotes n
  | Verdict, AVerdict (VInconclusive r false) => word fs "verdict" (lit "inconclusive") /\ says fs "notes" VerdictReason r
  | _, _ => False
  end.

(** The policies of tool arguments keep a text as it is. *)
Definition verbatim (P : TextPolicy) : Prop :=
  MAX_CHARS P = LEGACY_TEXT_MAX_BYTES /\ MAX_BYTES P = LEGACY_TEXT_MAX_BYTES /\ NORMALIZATION P = Exact.

Lemma spells_quoted token s : spells token s -> quoted token = true.
Proof. by intros [(body & -> & _) _]. Qed.

Lemma decode_spells token f s :
  decode_json_string_bounded token f LEGACY_TEXT_MAX_BYTES LEGACY_TEXT_MAX_BYTES = Ok s <-> spells token s.
Proof. apply decoded_exactly; unfold LEGACY_TEXT_MAX_BYTES, usize_max; lia. Qed.

Lemma json_text_Ok P token t : verbatim P ->
  json_text category nfc P token = Ok t <-> spells token t /\ well_formed category P t.
Proof.
  intros (H1 & H2 & H3). unfold json_text. rewrite H1, H2. rewrite result_bind_Ok. setoid_rewrite result_bind_Ok.
  setoid_rewrite map_err_Ok. setoid_rewrite decode_spells.
  assert (Ht : forall s, text category nfc P s = Ok t <-> str_len s <= LEGACY_TEXT_MAX_BYTES /\ t = s /\ well_formed category P t).
  { intros s. rewrite text_Ok by (rewrite H2; unfold LEGACY_TEXT_MAX_BYTES, usize_max; lia).
    unfold readable, kept. rewrite H2, H3. reflexivity. }
  setoid_rewrite Ht. split.
  - intros ([] & _ & s & Hs & _ & -> & Hwf). auto.
  - intros [Hs Hwf]. exists tt. split; [unfold require_string; by rewrite (spells_quoted _ _ Hs)|].
    exists t. split; [exact Hs|]. split; [apply Hs|]. auto.
Qed.

Lemma required_Ok fs key v : required fs key = Ok v <-> fs !! lit key = Some v /\ quoted v = true.
Proof.
  unfold required. destruct (fs !! lit key) as [w|]; [|split; [discriminate|intros [[=] _]]].
  destruct (quoted w) eqn:E; split; [intros [= <-]; auto|intros [[= <-] _]; auto|discriminate|intros [[= <-] ?]; congruence].
Qed.

Lemma field_text_Ok P fs key t : verbatim P -> field_text category nfc P fs key = Ok t <-> says fs key P t.
Proof.
  intros HP. unfold field_text, says. rewrite result_bind_Ok. setoid_rewrite required_Ok. setoid_rewrite json_text_Ok; [|done].
  split; [intros (v & [? ?] & ? & ?); eauto|]. intros (v & ? & Hs & ?). exists v. pose proof (spells_quoted _ _ Hs). auto.
Qed.

Lemma optional_value_Ok fs key o : optional_value fs key = Ok o <->
  match fs !! lit key with Some token => exists v, from_value token = Some v /\ o = Some v | None => o = None end.
Proof.
  unfold optional_value. destruct (fs !! lit key) as [token|]; [|split; congruence].
  rewrite result_bind_Ok. setoid_rewrite ok_or_Ok. split; intros (v & ? & E); exists v; split; congruence.
Qed.

Lemma line_Ok fs key n : line fs key = Ok n <-> counts fs key n.
Proof.
  unfold line, counts. rewrite result_bind_Ok. setoid_rewrite optional_value_Ok. split.
  - intros (o & Ho & Hn). destruct (fs !! lit key) as [token|]; [|subst o; discriminate].
    destruct Ho as (v & Hv & ->). cbn [mbind option_bind] in Hn.
    destruct (Json.as_u64 v) as [m|] eqn:Hm; [|discriminate]. injection Hn as <-. eauto 8.
  - intros (token & v & m & -> & Hv & Hm & ->). exists (Some v). split; [eauto|]. cbn [mbind option_bind]. by rewrite Hm.
Qed.

Lemma submitted_path_Ok token p : submitted_path category token = Ok p <->
  exists raw, spells token raw /\ normalize_path_component_rules raw = Ok p /\ Text.path category p = Ok p.
Proof.
  unfold submitted_path. split.
  - intros (raw & Hr%map_err_Ok%decode_spells & Hp)%result_bind_Ok.
    apply result_bind_Ok in Hp as (q & Hq%map_err_Ok & Hp%map_err_Ok). exists raw.
    pose proof (proj1 (proj1 (repo_paths_stay_inside category q p)) Hp) as [-> _]. auto.
  - intros (raw & Hr & Hq & Hp). apply result_bind_Ok. exists raw. split; [by apply map_err_Ok, decode_spells|].
    apply result_bind_Ok. exists p. split; by apply map_err_Ok.
Qed.

Lemma strip_prefix_app p s : strip_prefix p (p ++ s) = Some s.
Proof.
  unfold strip_prefix. rewrite (proj2 (starts_with_true p (p ++ s))) by eauto. by rewrite drop_app_length.
Qed.

Lemma finding_id_Ok token n : finding_id token = Ok n <-> refers token n.
Proof.
  unfold finding_id, refers. rewrite result_bind_Ok.
  assert (Hf : forall o : option Z, match o with Some id => if 0 <? id then Ok id else Err EId | None => Err EId end = Ok n <->
    o = Some n /\ 0 < n).
  { intros [m|]; [|split; [discriminate|intros [[=] _]]]. destruct (0 <? m) eqn:E; bool_prop.
    - split; [intros [= <-]; auto|intros [[= <-] _]; auto].
    - split; [discriminate|intros [[= <-] ?]; lia]. }
  setoid_rewrite Hf. destruct (quoted token) eqn:Hq.
  - setoid_rewrite result_bind_Ok. setoid_rewrite map_err_Ok. setoid_rewrite decode_spells. split.
    + intros (o & (reference & Hr & [= <-]) & Ho & Hn).
      apply bind_Some in Ho as (m & Hm & Ho). destruct (str_eqb (format_finding_id m) reference) eqn:E; bool_prop; [|discriminate].
      injection Ho as ->. subst reference. unfold format_finding_id in Hm. rewrite strip_prefix_app in Hm.
      cbn [mbind option_bind] in Hm. split; [|auto]. split; [exact Hn|]. exact (parse_i64_bound _ _ Hm).
    + intros [Hn [Hs|[? _]]]; [|congruence]. exists (Some n). split; [|split; [reflexivity|lia]].
      exists (format_finding_id n). split; [exact Hs|]. 
      change (strip_prefix (lit "LUP-") (format_finding_id n)) with (strip_prefix (lit "LUP-") (lit "LUP-" ++ Repos.show_i64 n)).
      rewrite strip_prefix_app. cbn [mbind option_bind]. rewrite parse_i64_show by exact Hn. cbn [mbind option_bind].
      unfold str_eqb. by rewrite bool_decide_eq_true_2.
  - setoid_rewrite result_bind_Ok. setoid_rewrite ok_or_Ok. split.
    + intros (o & (v & Hv & [= <-]) & Ho & Hn). destruct v; try discriminate. cbn in Ho. unfold to_i64 in Ho.
      destruct (in_i64 _) eqn:E; [|discriminate]. injection Ho as ->. apply in_i64_iff in E. split; [lia|]. auto.
    + intros [Hn [Hs|[_ Hv]]]; [apply spells_quoted in Hs; congruence|]. exists (Some n). split; [|split; [reflexivity|lia]].
      exists (Json.Integer n). split; [exact Hv|]. cbn. unfold to_i64. rewrite (proj2 (in_i64_iff n)); [reflexivity|unfold i64_min; lia].
Qed.

Lemma severity_from_str s v : Severity.from_str s = Ok v <-> s = Severity.as_str v.
Proof.
  unfold Severity.from_str. split.
  - intros Hs. repeat case_match; bool_prop; try discriminate; injection Hs as <-; assumption.
  - intros ->. destruct v; reflexivity.
Qed.

Lemma required_word fs key s : (exists v, required fs key = Ok v /\ scalar_string v = Ok s) <-> word fs key s.
Proof.
  unfold word, scalar_string. setoid_rewrite required_Ok. setoid_rewrite ok_or_Ok.
  split; [intros (v & [? ?] & ?); eauto|intros (v & ? & ? & ?); eauto].
Qed.

Lemma cwe_field_Ok fs c : cwe_field category nfc fs = Ok c <-> weakness fs c.
Proof.
  unfold cwe_field, weakness. destruct (fs !! lit "cwe") as [token|]; [|split; congruence].
  destruct (quoted token); [|split; congruence]. rewrite result_bind_Ok.
  setoid_rewrite json_text_Ok; [|by split_and!]. split.
  - intros (s & [? ?] & [= <-]). eauto.
  - intros (s & ? & ? & ->). eauto.
Qed.

Lemma finding_args_Ok fs f : finding_args category nfc fs = Ok f <-> accepted fs Finding (AFinding f).
Proof.
  unfold finding_args, accepted. split.
  - intros (v & Hv & (s & Hs & (sev & Hsev%map_err_Ok%severity_from_str & H1)%result_bind_Ok)%result_bind_Ok)%result_bind_Ok.
    apply result_bind_Ok in H1 as (t & Ht & (rf & Hrf & (p & Hp & (a & Ha & (b & Hb & H1)%result_bind_Ok)%result_bind_Ok)%result_bind_Ok)%result_bind_Ok).
    apply result_bind_Ok in H1 as (d & Hd & (poc & Hpoc & (c & Hc & [= <-])%result_bind_Ok)%result_bind_Ok).
    cbn [severity title file line_start line_end description poc_unified cwe].
    apply field_text_Ok in Ht, Hd, Hpoc; [|by split_and!..]. apply line_Ok in Ha, Hb. apply cwe_field_Ok in Hc.
    apply required_Ok in Hrf as [Hrf _]. apply submitted_path_Ok in Hp as (raw & Hp).
    assert (word fs "severity" (Severity.as_str sev)) by (apply required_word; subst s; eauto).
    split_and!; auto. exists rf, raw. auto.
  - destruct f as [sev t p a b d poc c]. cbn [severity title file line_start line_end description poc_unified cwe].
    intros ((v & Hv & Hs)%required_word & Ht & (rf & raw & Hrf & Hp) & Ha & Hb & Hd & Hpoc & Hc).
    rewrite Hv. cbn [mbind result_bind]. rewrite Hs. cbn [mbind result_bind].
    rewrite (proj2 (severity_from_str _ _) eq_refl). cbn [mbind result_bind map_err].
    apply field_text_Ok in Ht, Hd, Hpoc; [|by split_and!..]. apply line_Ok in Ha, Hb. apply cwe_field_Ok in Hc.
    rewrite Ht. cbn [mbind result_bind].
    rewrite (proj2 (required_Ok fs "file" rf)) by (split; [exact Hrf|eapply spells_quoted, Hp]). cbn [mbind result_bind].
    rewrite (proj2 (submitted_path_Ok rf p)) by eauto. cbn [mbind result_bind].
    rewrite Ha. cbn [mbind result_bind]. rewrite Hb. cbn [mbind result_bind]. rewrite Hd. cbn [mbind result_bind].
    rewrite Hpoc. cbn [mbind result_bind]. rewrite Hc. reflexivity.
Qed.

Lemma verdict_args_Ok fs v : verdict_args category nfc fs = Ok v <-> accepted fs Verdict (AVerdict v).
Proof.
  unfold verdict_args. split.
  - intros (rk & Hrk & (k & Hk & (n & Hn & H1)%result_bind_Ok)%result_bind_Ok)%result_bind_Ok.
    assert (Hw : word fs "verdict" k) by (apply required_word; eauto).
    assert (Hsay : forall P t, verbatim P -> json_text category nfc P n = Ok t -> says fs "notes" P t).
    { intros P t HP [Hs Hwf]%json_text_Ok; [|exact HP]. apply required_Ok in Hn as [Hn _]. exists n. auto. }
    destruct (str_eqb k (lit "confirmed")) eqn:E1; bool_prop;
      [|destruct (str_eqb k (lit "dismissed")) eqn:E2; bool_prop;
        [|destruct (str_eqb k (lit "inconclusive")) eqn:E3; bool_prop; [|discriminate]]];
      apply result_bind_Ok in H1 as (t & Ht & [= <-]); subst k; (split; [exact Hw|]); apply Hsay; auto; by split_and!.
  - intros Ha.
    assert (Hrun : forall k t P, word fs "verdict" k -> says fs "notes" P t -> verbatim P ->
      exists rk n, required fs "verdict" = Ok rk /\ scalar_string rk = Ok k /\ required fs "notes" = Ok n /\
        json_text category nfc P n = Ok t).
    { intros k t P (rk & H1 & H2)%required_word (n & Hn & Hs & Hwf) HP. exists rk, n. split_and!; auto.
      - apply required_Ok. split; [exact Hn|]. by eapply spells_quoted.
      - by apply json_text_Ok. }
    destruct v as [[n|] [p|]|[n|]|r []]; try contradiction; destruct Ha as [Hw Hs];
      destruct (Hrun _ _ _ Hw Hs ltac:(by split_and!)) as (rk & raw & H1 & H2 & H3 & H4);
      rewrite H1; cbn [mbind result_bind]; rewrite H2; cbn [mbind result_bind]; rewrite H3; cbn [mbind result_bind];
      unfold str_eqb; repeat (first [rewrite bool_decide_eq_true_2 by reflexivity
        |rewrite bool_decide_eq_false_2 by (vm_compute; discriminate)]); rewrite H4; reflexivity.
Qed.

Lemma limit_Ok fs n :
  (exists o, optional_value fs "limit" = Ok o /\ n = Z.max 1 (Z.min 100 (default 20 (o ≫= as_i64)))) <-> limited fs n.
Proof.
  unfold limited. setoid_rewrite optional_value_Ok. destruct (fs !! lit "limit") as [token|].
  - split; [intros (o & (v & Hv & ->) & ->); eauto|intros (v & Hv & ->); eauto].
  - split; [by intros (o & -> & ->)|]. intros ->. by exists None.
Qed.

Lemma check_version_Ok fs : check_version fs = Ok tt <-> version_admitted fs.
Proof.
  unfold check_version, version_admitted. rewrite result_bind_Ok. setoid_rewrite optional_value_Ok.
  destruct (fs !! lit "protocol_version") as [token|]; [|split; [discriminate|by exists None]]. split.
  - intros (o & (v & Hv & ->) & H1) token' [= <-]. exists v. split; [exact Hv|].
    destruct (Json.as_u64 v) as [n|]; [|discriminate]. cbn in H1. destruct (n =? _) eqn:E; bool_prop; congruence.
  - intros Hall. destruct (Hall token eq_refl) as (v & Hv & Hn). exists (Some v). split; [eauto|]. by rewrite Hn.
Qed.

Lemma arguments_Ok tool raw a : arguments category nfc tool raw = Ok a <->
  exists fs, fields raw = Some fs /\ version_admitted fs /\ accepted fs tool a.
Proof.
  unfold arguments. rewrite result_bind_Ok. setoid_rewrite ok_or_Ok.
  apply exist_proper. intros fs. apply and_iff_compat_l. rewrite result_bind_Ok. rewrite <- check_version_Ok.
  split.
  - intros ([] & Hv & Ha). split; [exact Hv|]. destruct tool; cbn [accepted].
    + apply result_bind_Ok in Ha as (q & Hq & (o & Ho & [= <-])%result_bind_Ok). cbn [query limit].
      apply field_text_Ok in Hq; [|by split_and!]. split; [exact Hq|]. apply limit_Ok. eauto.
    + apply result_bind_Ok in Ha as (token & Ht%ok_or_Ok & (n & Hn%finding_id_Ok & [= <-])%result_bind_Ok). eauto.
    + apply result_bind_Ok in Ha as (f & Hf%finding_args_Ok & [= <-]). exact Hf.
    + apply result_bind_Ok in Ha as (d & Hd & [= <-]). by apply field_text_Ok in Hd; [|split_and!].
    + apply result_bind_Ok in Ha as (v & Hd%verdict_args_Ok & [= <-]). exact Hd.
    + apply result_bind_Ok in Ha as (p & Hp & (n & Hn & [= <-])%result_bind_Ok). cbn.
      apply field_text_Ok in Hp, Hn; [|by split_and!..]. auto.
    + apply result_bind_Ok in Ha as (d & Hd & [= <-]). by apply field_text_Ok in Hd; [|split_and!].
    + discriminate.
  - intros [Hv Ha]. exists tt. split; [exact Hv|]. destruct tool, a; try contradiction.
    + destruct Ha as [Hq (o & Ho & Hl)%limit_Ok]. apply field_text_Ok in Hq; [|by split_and!].
      rewrite Hq. cbn [mbind result_bind]. rewrite Ho. cbn [mbind result_bind]. destruct args. cbn in *. congruence.
    + destruct Ha as (token & Ht & Hn%finding_id_Ok). rewrite Ht. cbn [ok_or mbind result_bind]. by rewrite Hn.
    + apply finding_args_Ok in Ha. by rewrite Ha.
    + apply field_text_Ok in Ha; [|by split_and!]. by rewrite Ha.
    + apply verdict_args_Ok in Ha. by rewrite Ha.
    + destruct Ha as [Hp Hn]. apply field_text_Ok in Hp, Hn; [|by split_and!..]. rewrite Hp. cbn [mbind result_bind].
      rewrite Hn. by destruct patch.
    + apply field_text_Ok in Ha; [|by split_and!]. by rewrite Ha.
Qed.
End Accepted.

Section Typed.
Context (category : Z -> GeneralCategory) (nfc : str -> str) `{JsonReader}.

(** Arguments as the handlers may rely on them. *)
Definition typed (a : Arguments) : Prop :=
  match a with
  | AQuery q => well_formed category QueryText (query q) /\ 1 <= limit q <= 100
  | AGet id => 0 < id <= i64_max
  | AFinding f =>
      well_formed category FindingTitle (title f) /\ well_formed category FindingDescription (description f) /\
      well_formed category PocUnified (poc_unified f) /\
      0 <= line_start f <= u32_max /\ 0 <= line_end f <= u32_max /\
      (forall c, cwe f = Some c -> c <> [] /\ well_formed category CweText c) /\
      Text.path category (file f) = Ok (file f) /\ file f <> [] /\ (forall rest, file f <> 47 :: rest) /\
      forall dir, exists name names, split_on 47 (as_bytes (file f)) = name :: names /\
        walk dir (name :: names) = dir ++ name :: names
  | APoc d => well_formed category PocUnified d
  | AValidatePatch d => well_formed category PatchUnified d
  | APatch p => well_formed category PatchUnified (vp_patch_unified p) /\ well_formed category PatchNotes (vp_notes p)
  | AVerdict (VConfirmed (Some n) None) | AVerdict (VDismissed (Some n)) => well_formed category VerdictNotes n
  | AVerdict (VInconclusive r false) => well_formed category VerdictReason r
  | AVerdict _ => False
  end.

Lemma counts_range fs key n : counts fs key n -> 0 <= n <= u32_max.
Proof.
  intros (token & v & m & _ & _ & Hm & ->). destruct v; try discriminate. cbn in Hm.
  destruct (_ && _) eqn:E; [|discriminate]. injection Hm as ->. unfold u32_max. lia.
Qed.

Lemma accepted_typed fs tool a : accepted category fs tool a -> typed a.
Proof.
  assert (Hsays : forall key P t, says category fs key P t -> well_formed category P t) by (intros key P t (? & _ & _ & Hw); exact Hw).
  destruct tool, a; try contradiction; cbn [accepted typed].
  - intros [Hq Hl]. split; [eauto|]. unfold limited in Hl. destruct (fs !! _); [destruct Hl as (v & _ & ->)|subst]; lia.
  - intros (token & _ & Hn & _). exact Hn.
  - intros (_ & Ht & (token & raw & _ & _ & _ & Hp) & Ha%counts_range & Hb%counts_range & Hd & Hpoc & Hc).
    destruct (proj2 (repo_paths_stay_inside category (file args) (file args)) Hp) as (Hne & Habs & Hdir).
    split_and!; eauto; try lia.
    + intros c Ec. unfold weakness in Hc. rewrite Ec in Hc. destruct (fs !! _) as [tk|]; [|discriminate].
      destruct (quoted tk); [|discriminate]. destruct Hc as (s & _ & Hw & Es). destruct s; [discriminate|].
      injection Es as ->. auto.
    + intros dir. destruct (Hdir dir) as (n & ns & E & Hw). exists n, ns. rewrite E in Hw. auto.
  - eauto.
  - destruct verdict as [[n|] [p|]|[n|]|r []]; try contradiction; intros [_ Hs]; eauto.
  - intros [Hp Hn]. eauto.
  - eauto.
Qed.

Lemma decoded_typed record r a :
  decode_request category nfc record = Ok (Some r) -> arguments_of (call r) = Ok a ->
  method r = Call /\ id r <> None /\ typed a /\
  exists fs, version_admitted fs /\ accepted category fs (name (call r)) a.
Proof.
  unfold decode_request. destruct (from_utf8 record) as [t|]; [|discriminate].
  destruct (str_is_empty (trim t)); [discriminate|].
  intros (raw & _ & (? & _ & (m & _ & (ps & _ & Hr)%result_bind_Ok)%result_bind_Ok)%result_bind_Ok)%result_bind_Ok.
  apply result_bind_Ok in Hr as (n & _ & (? & _ & (i & Hi & [= <-])%result_bind_Ok)%result_bind_Ok).
  cbn [call arguments_of name method id]. intros Ha.
  destruct (method_of m); try discriminate. destruct (raw_id raw) as [ri|]; [|discriminate].
  apply result_bind_Ok in Hi as (v & _ & [= <-]). split; [reflexivity|]. split; [discriminate|].
  apply arguments_Ok in Ha as (fs & _ & Hv & Ha). split; [exact (accepted_typed _ _ _ Ha)|eauto].
Qed.

(** [record] is a [tools/call] request with the id of [r] for the tool of [r],
    whose arguments are an object with the raw fields [fs]. *)
Definition carries_call (record : list Z) (r : DecodedRequest) (fs : gmap str str) : Prop :=
  exists text raw params token n,
    from_utf8 record = Some text /\ from_envelope text = Some raw /\
    from_string (raw_method raw) = Some (lit "tools/call") /\
    (exists i v, raw_id raw = Some i /\ from_value i = Some v /\ id r = Some v) /\
    fields (raw_params raw) = Some params /\
    params !! lit "name" = Some token /\ quoted token = true /\ from_string token = Some n /\
    name (call r) = tool_of n /\
    fields (params !! lit "arguments") = Some fs.

Lemma method_of_call m : method_of m = Call <-> m = lit "tools/call".
Proof.
  unfold method_of. split; [|intros ->; reflexivity].
  do 2 (case_match; [discriminate|]). case_match eqn:E; [intros _; by apply str_eqb_eq in E|].
  do 2 (case_match; [discriminate|]). discriminate.
Qed.

Lemma decoded_call record r a :
  decode_request category nfc record = Ok (Some r) ->
  arguments_of (call r) = Ok a <->
  exists fs, carries_call record r fs /\ version_admitted fs /\ accepted category fs (name (call r)) a.
Proof.
  unfold decode_request, carries_call. destruct (from_utf8 record) as [t|] eqn:Et; [|discriminate].
  destruct (str_is_empty (trim t)); [discriminate|].
  intros (raw & Hraw%ok_or_Ok & (? & _ & (m & Hm%ok_or_Ok & (ps & Hps%ok_or_Ok & Hr)%result_bind_Ok)%result_bind_Ok)%result_bind_Ok)%result_bind_Ok.
  apply result_bind_Ok in Hr as (n & Hn & (? & _ & (i & Hi & [= <-])%result_bind_Ok)%result_bind_Ok).
  cbn [call arguments_of name method id]. split.
  - intros Ha. destruct (method_of m) eqn:Em; try discriminate. apply method_of_call in Em as ->.
    destruct (raw_id raw) as [ri|] eqn:Eri; [|discriminate].
    apply result_bind_Ok in Hi as (v & Hv%ok_or_Ok & [= <-]). apply arguments_Ok in Ha as (fs & Hfs & Hv' & Ha).
    destruct (ps !! lit "name") as [token|] eqn:Etk; [|injection Hn as <-; contradiction].
    destruct (quoted token) eqn:Eq; [|injection Hn as <-; contradiction]. apply ok_or_Ok in Hn.
    exists fs. split; [|by split]. exists t, raw, ps, token, n. split_and!; try done. by exists ri, v.
  - intros (fs & (t' & raw' & ps' & token & n' & [= <-] & Hraw' & Hm' & (ri & v & Eri & _) & Hps' & Etk & Eq & Hn' & Htool & Hfs)
      & Hv & Ha). simplify_eq. rewrite Etk, Eq in Hn. apply ok_or_Ok in Hn. simplify_eq.
    rewrite Eri. cbn. apply arguments_Ok. by exists fs.
Qed.

(** C27: A tool is only called by a record that is a [tools/call] request with an
    id.  The arguments a handler then gets are exactly the ones the raw fields of
    that record's arguments object spell for the tool it names, under the
    worker's protocol version, each text unchanged, and whenever those fields
    spell arguments the handler gets them; so texts satisfy their policies,
    numbers their ranges, a reference is a positive id, a verdict carries no
    patch, and a file lies inside the repository wherever that is. *)
Theorem tool_calls_are_typed record r a :
  decode_request category nfc record = Ok (Some r) ->
  (arguments_of (call r) = Ok a <->
   exists fs, carries_call record r fs /\ version_admitted fs /\ accepted category fs (name (call r)) a) /\
  (arguments_of (call r) = Ok a -> method r = Call /\ id r <> None /\ typed a).
Proof.
  intros Hr. split; [by apply decoded_call|]. intros Ha.
  destruct (decoded_typed record r a Hr Ha) as (? & ? & ? & _). by split_and!.
Qed.
End Typed.

(** A reader for one record. *)
Definition q (s : string) : str := [34] ++ lit s ++ [34].
Definition example_record : str :=
  lit "{" ++ q "jsonrpc" ++ lit ":" ++ q "2.0" ++ lit "," ++ q "id" ++ lit ":1," ++ q "method" ++ lit ":" ++
  q "tools/call" ++ lit "," ++ q "params" ++ lit ":{" ++ q "name" ++ lit ":" ++ q "get_finding_by_id" ++
  lit "," ++ q "arguments" ++ lit ":{" ++ q "id" ++ lit ":" ++ q "LUP-7" ++ lit "}}}".

Definition example_reader : JsonReader := {|
  from_string t := Some (drop 1 (take (length t - 1) t));
  from_number _ := true;
  from_value t := Some (if str_eqb t (lit "1") then Json.Integer 1 else Json.Null);
  from_fields t := Some (if str_eqb t (lit "{") then {[lit "id" := q "LUP-7"]}
    else {[lit "name" := q "get_finding_by_id"; lit "arguments" := lit "{"]});
  from_envelope _ := Some {| raw_jsonrpc := q "2.0"; raw_id := Some (lit "1"); raw_method := q "tools/call";
                             raw_params := Some (lit "{}") |};
  envelope_content _ := true;
  rejected_params_envelope _ := true;
|}.

Lemma tool_calls_are_typed_witness :
  exists r fs, decode_request (H := example_reader) ascii_category (fun s => s) (as_bytes example_record) = Ok (Some r) /\
    arguments_of (call r) = Ok (AGet 7) /\ carries_call (H := example_reader) (as_bytes example_record) r fs /\
    fs !! lit "id" = Some (q "LUP-7") /\ typed ascii_category (AGet 7).
Proof.
  assert (E : exists r, decode_request (H := example_reader) ascii_category (fun s => s) (as_bytes example_record)
                = Ok (Some r) /\ arguments_of (call r) = Ok (AGet 7)).
  { eexists. split; vm_compute; reflexivity. }
  destruct E as (r & Hr & Ha).
  destruct (@tool_calls_are_typed ascii_category (fun s => s) example_reader (as_bytes example_record) r (AGet 7) Hr)
    as [H1 H2].
  destruct (proj1 H1 Ha) as (fs & Hc & _). exists r, fs. split; [exact Hr|]. split; [exact Ha|]. split; [exact Hc|].
  split; [|apply (H2 Ha)]. destruct Hc as (t & raw & ps & tk & n & _ & Hraw & _ & _ & Hps & _ & _ & _ & _ & Hfs).
  injection Hraw as <-. injection Hps as <-. change (Some {[lit "id" := q "LUP-7"]} = Some fs) in Hfs.
  injection Hfs as <-. reflexivity.
Defined.
