(* ===== verification/McpSession.v ===== *)
(** * Sessions of the tool broker

    [loupe-worker/src/mcp.rs]: one session of the broker that serves the tools
    of a sandboxed agent.  It reads records, shows each to the observer,
    answers every request in order, and in a verification buffers one verdict
    and at most one patch, which it posts when the sandbox closes the stream.
    The server, Git, the file system and the writer are oracles asked by the
    number of the question; the other sessions of the job show their records to
    the observer whenever an operation is admitted or waits. *)

From S2P Require Import Prelude Domain Text Fingerprint Citation Canary ModelBroker McpFraming LlmFinding Repos McpArguments.
From Stdlib Require Import ZArith Lia.
From stdpp Require Import base list option numbers strings.
Local Open Scope Z_scope.

(** [format!("L{line_start}-L{line_end}")] *)
Definition range_text (a b : Z) : str := lit "L" ++ Repos.show_i64 a ++ lit "-L" ++ Repos.show_i64 b.

(** [McpFindingSubmission] *)
Record McpFindingSubmission := {
  sub_severity : Severity;
  sub_title : str;
  sub_description : str;
  sub_file_path : str;
  sub_line_start : Z;
  sub_line_end : Z;
  sub_cwe : option str;
  sub_poc_unified : str;
  sub_fingerprint : str;
}.

(** [McpFindingSubmission::validate], on the fields the server will see; 3 is
    [loupe_proto::PROTOCOL_VERSION]. *)
Definition as_input (s : McpFindingSubmission) : LlmInput := {|
  li_protocol_version := 3; li_severity := sub_severity s; li_title := sub_title s;
  li_description := sub_description s; li_file_path := sub_file_path s; li_line_start := sub_line_start s;
  li_line_end := sub_line_end s; li_cwe := sub_cwe s; li_poc_unified := sub_poc_unified s;
  li_fingerprint := sub_fingerprint s |}.
Definition submission_validate (s : McpFindingSubmission) : result LlmRefusal unit := validate_llm_finding (as_input s).

(** What leaves for the server. *)
Inductive Post := PostFinding (job : Z) (s : McpFindingSubmission) | PostVerdict (job : Z) (v : Domain.Verdict).

(** [DiffCheck] *)
Inductive DiffCheck := Applies | Rejects (stderr : str).

Inductive CitationFailure := MissingFile | FileNotRegular | RangeInvalid | QuoteMismatch.

(** [CitationError::reason] *)
Definition reason (e : CitationError) : option CitationFailure :=
  match e with
  | Missing => Some MissingFile
  | NotRegular => Some FileNotRegular
  | Range => Some RangeInvalid
  | Quote => Some QuoteMismatch
  | Io | Citation.Utf8 | Task | Citation.Cancelled => None
  end.

(** What a tool fails with. *)
Inductive ToolError :=
| TQuarantined
| TArguments (e : ArgError)
| TNoJob | TDiscovery | TVerdictLocked | TNoVerdict | TNotConfirmed | TPatchTaken
| TOutside | TUnresolved
| TCitation (e : CitationError)
| TRefused (e : LlmRefusal)
| TReport
| TApplicability (field : string) (diagnostic : str)
| TGit | TClient.

(** What a tool says. *)
Inductive ToolText :=
| Rendered (s : str)
| Submitted (job : Z) (fingerprint : str)
| DiffReport (outcome : DiffCheck)
| VerdictLocked (kind : str)
| PatchBuffered
| InjectionSuspected
| ToolFailed (e : ToolError)
| UnknownToolText (name : str).

(** [Response]: a result, a tool's text among them, or an RPC error. *)
Inductive Body :=
| InitializeResult
| ToolsResult (tools : list ToolName)
| EmptyResult
| ToolResult (text : ToolText) (is_error : bool)
| RpcError (code : Z) (message : str).
Record Response := { response_id : Json.Value; body : Body }.

(** [VerifySessionState] *)
Record VerifySession := {
  finding : Z;
  verdict : option Domain.Verdict;
  patch : option VerdictPatch;
}.

(** [posts] logs what was sent to the server, and [post_quarantined], for each
    entry, whether the job was in quarantine when it was sent. *)
Record Session := {
  security : JobSecurity;
  verify : option VerifySession;
  clock : nat;
  posts : list Post;
  post_quarantined : list bool;
  mismatches : list CitationFailure;
  written : list Response;
}.

(** A session that ends early: its operation was dropped, or it failed. *)
Inductive Stop := Dropped | Failed (e : ToolError).

(** Computations of a session; [None] only if an observation had run out of its
    bound. *)
Definition Op (A : Type) : Type := Session -> option (result Stop A * Session).
#[export] Instance op_ret : MRet Op := fun A a st => Some (Ok a, st).
#[export] Instance op_bind : MBind Op := fun A B k m st =>
  match m st with
  | None => None
  | Some (Ok a, st) => k a st
  | Some (Err e, st) => Some (Err e, st)
  end.
Definition fail {A} (e : ToolError) : Op A := fun st => Some (Err (Failed e), st).
Definition modify (f : Session -> Session) : Op unit := fun st => Some (Ok tt, f st).
Definition lift {A E} (f : E -> ToolError) (r : result E A) : Op A :=
  match r with Ok a => mret a | Err e => fail (f e) end.

(** The result of a computation that is not dropped, as a value. *)
Definition attempt {A} (m : Op A) : Op (result ToolError A) := fun st =>
  match m st with
  | None => None
  | Some (Ok a, st) => Some (Ok (Ok a), st)
  | Some (Err (Failed e), st) => Some (Ok (Err e), st)
  | Some (Err Dropped, st) => Some (Err Dropped, st)
  end.

Definition set_security (j : JobSecurity) (st : Session) : Session :=
  {| security := j; verify := verify st; clock := clock st; posts := posts st; post_quarantined := post_quarantined st; mismatches := mismatches st;
     written := written st |}.
Definition set_clock (n : nat) (st : Session) : Session :=
  {| security := security st; verify := verify st; clock := n; posts := posts st; post_quarantined := post_quarantined st; mismatches := mismatches st;
     written := written st |}.
Definition set_verify (v : VerifySession) (st : Session) : Session :=
  {| security := security st; verify := Some v; clock := clock st; posts := posts st; post_quarantined := post_quarantined st; mismatches := mismatches st;
     written := written st |}.
Definition add_post (p : Post) (st : Session) : Session :=
  {| security := security st; verify := verify st; clock := clock st; posts := posts st ++ [p];
     post_quarantined := post_quarantined st ++ [quarantined (security st)];
     mismatches := mismatches st; written := written st |}.
Definition add_mismatch (e : CitationFailure) (st : Session) : Session :=
  {| security := security st; verify := verify st; clock := clock st; posts := posts st; post_quarantined := post_quarantined st;
     mismatches := mismatches st ++ [e]; written := written st |}.
Definition add_written (r : Response) (st : Session) : Session :=
  {| security := security st; verify := verify st; clock := clock st; posts := posts st; post_quarantined := post_quarantined st;
     mismatches := mismatches st; written := written st ++ [r] |}.

(** Where a submitted name leads in the checkout. *)
Inductive Resolution := NoRoot | Absent | Unresolved | Resolved (canonical : list str).
Inductive OpenFile := NoFile | OpenFailed | Opened (metadata : option bool) (reads : list Read).

(** The finding a verifier works on, as far as the session uses it. *)
Record FindingDetail := { detail_description : str; detail_poc : option str; detail_text : option str }.

(** The outside: by the number of the question. *)
Record World := {
  others : nat -> list (list Z * Broker);
  search_findings : nat -> Z -> DecodedQueryArgs -> option (option str);
  get_finding : nat -> Z -> option FindingDetail;
  accepts_post : nat -> Post -> bool;
  git_apply : nat -> str -> option (bool * str);
  workdir : list str;
  resolve : nat -> str -> Resolution;
  open_file : nat -> str -> OpenFile;
  writable : nat -> bool;
}.

Record Scope := { repo_id : Z; job_id : option Z; finding_of : option Z }.

Definition MAX_STDERR : Z := 4096.

(** The longest first part of at most [n] bytes that ends at a character. *)
Fixpoint char_prefix (n : Z) (s : str) : str :=
  match s with
  | [] => []
  | c :: s => if len_utf8 c <=? n then c :: char_prefix (n - len_utf8 c) s else []
  end.

(** [RepoDiffCheckDecoder]: the outcome of [git apply --check], from whether it
    succeeded and what it wrote. *)
Definition diff_check (success : bool) (stderr : str) : DiffCheck :=
  if success then Applies
  else
    let stderr := if MAX_STDERR <? str_len stderr
                  then char_prefix MAX_STDERR stderr ++ [10; 8230] ++ lit "(truncated)" else stderr in
    Rejects (if str_is_empty (trim stderr) then lit "git apply exited" else stderr).

(** [ToolName::operation] *)
Definition operation (tool : ToolName) : Operation :=
  match tool with
  | Query => SearchFindings
  | Finding | Poc => McpSubmitFinding
  | Verdict => McpSubmitVerdict
  | Patch | ValidatePatch => McpSubmitPatch
  | Get | UnknownTool _ => ReadFinding
  end.

(** [tool_definitions], by the names of the tools *)
Definition tool_definitions (submissions_enabled verify_mode : bool) : list ToolName :=
  [Query; Get] ++
  if verify_mode then [Verdict; Patch; ValidatePatch]
  else (if submissions_enabled then [Finding] else []) ++ [Poc].

Definition verdict_str (v : Domain.Verdict) : str :=
  match v with
  | VConfirmed _ _ => lit "confirmed"
  | VDismissed _ => lit "dismissed"
  | VInconclusive _ _ => lit "inconclusive"
  end.
Definition is_confirmed (v : option Domain.Verdict) : bool :=
  match v with Some (VConfirmed _ _) => true | _ => false end.

(** [quarantined_response]: no submitted text is echoed. *)
Definition is_number (v : Json.Value) : bool :=
  match v with Json.Integer _ | Json.Float _ => true | _ => false end.
Definition quarantined_response (id : Json.Value) : Response :=
  {| response_id := if is_number id then id else Json.Null; body := ToolResult InjectionSuspected true |}.

Section Session.
Context `{UnicodeCase} {Hash : Type} (blake3 : list Z -> Hash) (to_hex : Hash -> str).
Context (category : Z -> GeneralCategory) (nfc : str -> str) `{JsonReader}.
Context (w : World) (scope : Scope).

(** ** Waiting *)

(** The other sessions show their records; the next question has a new number. *)
Definition tick : Op unit := fun st =>
  match observe_all (security st) (others w (clock st)) with
  | None => None
  | Some j => Some (Ok tt, set_clock (S (clock st)) (set_security j st))
  end.

(** An operation waits: when a hit was published it is dropped. *)
Definition drop_cancelled : Op unit := fun st =>
  if cancelled (security st) then Some (Err Dropped, st) else Some (Ok tt, st).
Definition wait : Op unit := _ ← tick; drop_cancelled.

Definition now : Op nat := fun st => Some (Ok (clock st), st).

(** A question to the outside, asked once and waited for. *)
Definition ask {A} (f : nat -> A) : Op A := n ← now; _ ← wait; mret (f n).

(** [JobSecurity::admit] *)
Definition admission (op : Operation) : Op unit := fun st =>
  match admit_operation (security st) op with
  | (Ok _, j) => Some (Ok tt, set_security j st)
  | (Err _, j) => Some (Err (Failed TQuarantined), set_security j st)
  end.
Definition admitted (op : Operation) : Op unit := _ ← tick; admission op.

(** [JobSecurity::run]: admission comes before the work and before its result,
    also before its failure. *)
Definition guarded {A} (op : Operation) (work : Op A) : Op A :=
  _ ← admitted op; r ← attempt work; _ ← admitted op; lift (fun e => e) r.

(** [JobSecurity::lock]: the session is the only holder. *)
Definition lock (op : Operation) : Op unit := guarded op wait.

(** A request to the server. *)
Definition send_post (p : Post) : Op unit :=
  n ← now;
  _ ← modify (add_post p);
  _ ← wait;
  if accepts_post w n p then mret tt else fail TClient.

(** ** Tools *)

(** [check_diff_applies] *)
Definition check_diff_applies (diff : str) : Op DiffCheck :=
  answer ← ask (fun n => git_apply w n diff);
  match answer with
  | None => fail TGit
  | Some (success, stderr) => mret (diff_check success stderr)
  end.

(** [validate_diff] *)
Definition validate_diff (diff : str) : Op ToolText := outcome ← check_diff_applies diff; mret (DiffReport outcome).

(** [query_prior_findings], [get_finding_by_id]: the answer is rendered as data
    of the prompt, or cannot be. *)
Definition query_prior_findings (args : DecodedQueryArgs) : Op ToolText :=
  answer ← ask (fun n => search_findings w n (repo_id scope) args);
  match answer with Some (Some text) => mret (Rendered text) | _ => fail TClient end.
Definition get_finding_by_id (id : Z) : Op ToolText :=
  answer ← ask (fun n => get_finding w n id);
  match answer with
  | Some detail => match detail_text detail with Some text => mret (Rendered text) | None => fail TClient end
  | None => fail TClient
  end.

(** [check_submitted_membership] *)
Definition check_submitted_membership (file : str) : Op unit :=
  n ← now;
  match resolve w n file with
  | NoRoot | Unresolved => fail TUnresolved
  | Absent => mret tt
  | Resolved canonical => if bool_decide (workdir w `prefix_of` canonical) then mret tt else fail TOutside
  end.

(** [ComputedFingerprint::line_range] *)
Definition line_range_fingerprint (file : str) (a b : Z) : str :=
  compute blake3 to_hex SCANNER_ID file (range_text a b).

(** [DecodedFindingArgs::into_pending_submission] *)
Definition pending_submission (args : DecodedFindingArgs) : McpFindingSubmission := {|
  sub_severity := severity args; sub_title := title args; sub_description := description args;
  sub_file_path := file args; sub_line_start := line_start args; sub_line_end := line_end args;
  sub_cwe := cwe args; sub_poc_unified := poc_unified args;
  sub_fingerprint := line_range_fingerprint (file args) (line_start args) (line_end args) |}.
Definition into_pending_submission (args : DecodedFindingArgs) : Op McpFindingSubmission :=
  _ ← check_submitted_membership (file args); mret (pending_submission args).

Definition claim_of (s : McpFindingSubmission) : CitationClaim := {|
  claim_file := sub_file_path s; claim_description := sub_description s;
  claim_start := sub_line_start s; claim_end := sub_line_end s |}.

(** The blocking task: it is dropped with its operation, so a task that ends
    was not cancelled; a panic is the task's failure. *)
Definition citation_task (s : McpFindingSubmission) (answer : OpenFile) : result CitationError str :=
  match answer with
  | NoFile => Err Missing
  | OpenFailed => Err Io
  | Opened metadata reads =>
      match Citation.validate blake3 to_hex (fun _ => false) (claim_of s) metadata reads with
      | Some r => r
      | None => Err Task
      end
  end.

(** [validate_local_llm_submission] *)
Definition validate_local_llm_submission (s : McpFindingSubmission) : Op str :=
  if (sub_line_start s =? 0) || (sub_line_end s <? sub_line_start s) then fail (TCitation Range)
  else
    _ ← lift TRefused (submission_validate s);
    answer ← ask (fun n => open_file w n (sub_file_path s));
    fingerprint ← lift TCitation (citation_task s answer);
    outcome ← check_diff_applies (sub_poc_unified s);
    match outcome with
    | Applies => mret fingerprint
    | Rejects stderr => fail (TApplicability "poc_unified" stderr)
    end.

(** A citation that does not match is reported as an event. *)
Definition reporting {A} (m : Op A) : Op A := fun st =>
  match m st with
  | Some (Err (Failed (TCitation e)), st) =>
      Some (Err (Failed (TCitation e)), match reason e with Some r => add_mismatch r st | None => st end)
  | r => r
  end.

Definition with_fingerprint (s : McpFindingSubmission) (fp : str) : McpFindingSubmission :=
  {| sub_severity := sub_severity s; sub_title := sub_title s; sub_description := sub_description s;
     sub_file_path := sub_file_path s; sub_line_start := sub_line_start s; sub_line_end := sub_line_end s;
     sub_cwe := sub_cwe s; sub_poc_unified := sub_poc_unified s; sub_fingerprint := fp |}.

(** [tool_submit_finding] *)
Definition tool_submit_finding (args : DecodedFindingArgs) : Op ToolText :=
  _ ← admitted McpSubmitFinding;
  match job_id scope with
  | None => fail TNoJob
  | Some job =>
      pending ← into_pending_submission args;
      fingerprint ← reporting (validate_local_llm_submission pending);
      let s := with_fingerprint pending fingerprint in
      _ ← guarded McpSubmitFinding (send_post (PostFinding job s));
      mret (Submitted job fingerprint)
  end.

Definition verify_state : Op VerifySession := fun st =>
  match verify st with
  | Some v => Some (Ok v, st)
  | None => Some (Err (Failed TDiscovery), st)
  end.

(** [submit_verdict] *)
Definition submit_verdict (v : Domain.Verdict) : Op ToolText :=
  _ ← admitted McpSubmitVerdict;
  _ ← verify_state;
  _ ← lock McpSubmitVerdict;
  inner ← verify_state;
  match verdict inner with
  | Some _ => fail TVerdictLocked
  | None =>
      _ ← modify (set_verify {| finding := finding inner; verdict := Some v; patch := patch inner |});
      mret (VerdictLocked (verdict_str v))
  end.

(** The guards of [submit_patch], before and after its checks. *)
Definition patch_slot_free (inner : VerifySession) : result ToolError unit :=
  match verdict inner with
  | None => Err TNoVerdict
  | Some (VConfirmed _ _) => match patch inner with Some _ => Err TPatchTaken | None => Ok tt end
  | Some _ => Err TNotConfirmed
  end.

(** [submit_patch] *)
Definition submit_patch (p : VerdictPatch) : Op ToolText :=
  _ ← admitted McpSubmitPatch;
  _ ← verify_state;
  _ ← lock McpSubmitPatch;
  inner ← verify_state;
  _ ← lift (fun e => e) (patch_slot_free inner);
  answer ← guarded ReadFinding (ask (fun n => get_finding w n (finding inner)));
  match answer with
  | None => fail TClient
  | Some detail =>
      _ ← lift (fun _ => TReport)
            (ReportLimits.validate_report_content (detail_description detail) (detail_poc detail)
               (Some (vp_patch_unified p)));
      outcome ← guarded McpSubmitPatch (check_diff_applies (vp_patch_unified p));
      match outcome with
      | Rejects stderr => fail (TApplicability "patch_unified" stderr)
      | Applies =>
          _ ← lock McpSubmitPatch;
          inner ← verify_state;
          if negb (is_confirmed (verdict inner)) then fail TNotConfirmed
          else
            match patch inner with
            | Some _ => fail TPatchTaken
            | None =>
                _ ← modify (set_verify {| finding := finding inner; verdict := verdict inner; patch := Some p |});
                mret PatchBuffered
            end
      end
  end.

(** The tool of a call. *)
Definition tool (arguments : result ArgError Arguments) : Op ToolText :=
  match arguments with
  | Err e => fail (TArguments e)
  | Ok (AQuery args) => query_prior_findings args
  | Ok (AGet id) => get_finding_by_id id
  | Ok (AFinding args) => tool_submit_finding args
  | Ok (APoc diff) => validate_diff diff
  | Ok (AVerdict v) => submit_verdict v
  | Ok (APatch p) => submit_patch p
  | Ok (AValidatePatch diff) => validate_diff diff
  end.

(** ** Requests *)

(** [handle_decoded_tool_call]; only an unknown tool fails as one. *)
Definition tool_body (c : ToolCall) (r : result ToolError ToolText) : Body :=
  match r with
  | Ok text => ToolResult text false
  | Err e =>
      ToolResult (match e, name c with
                  | TArguments EUnknownTool, UnknownTool n => UnknownToolText n
                  | _, _ => ToolFailed e
                  end) true
  end.

Definition handle_decoded_tool_call (c : ToolCall) (id : Json.Value) (st : Session) : option (Response * Session) :=
  match guarded (operation (name c)) (tool (arguments_of c)) st with
  | None => None
  | Some (r, st) =>
      Some (if quarantined (security st) then quarantined_response id
            else {| response_id := id;
                    body := tool_body c (match r with Ok t => Ok t | Err (Failed e) => Err e | Err Dropped => Err TQuarantined end) |},
            st)
  end.

(** [handle_decoded_request] *)
Definition handle_decoded_request (r : DecodedRequest) (id : Json.Value) (st : Session) : option (Response * Session) :=
  let reply b := Some ({| response_id := id; body := b |}, st) in
  if quarantined (security st) then Some (quarantined_response id, st)
  else
    match method r with
    | Initialize => reply InitializeResult
    | McpArguments.List =>
        reply (ToolsResult (tool_definitions (bool_decide (job_id scope <> None)) (bool_decide (verify st <> None))))
    | Call => handle_decoded_tool_call (call r) id st
    | Initialized | Ping => reply EmptyResult
    | UnknownMethod n => reply (RpcError (-32601) n)
    end.

(** [write_response] *)
Definition write_response (r : Response) (st : Session) : bool * Session :=
  (writable w (clock st), set_clock (S (clock st)) (if writable w (clock st) then add_written r st else st)).

(** ** The session *)

Inductive SessionEnd :=
| Finished | EndQuarantined | EndFrame (e : FrameError) | EndUtf8 | EndWrite | EndFlush (e : ToolError)
| EndConfiguration.

(** [Limits::default().mcp_record_bytes] *)
Definition mcp_record_bytes : Z := 16 * 1024 * 1024.

Definition read_record (reader : list Fill) : Op (result FrameError (option (list Z) * list Fill)) :=
  guarded ReadFinding (_ ← wait; mret (next_record mcp_record_bytes [] reader)).

(** What becomes of one record: the end of the session, or its next state. *)
Definition record_step (record : list Z) (st : Session) : option (option SessionEnd * Session) :=
  match observe (security st) record Mcp with
  | None => None
  | Some (_, j) =>
      let st := set_security j st in
      let refuse r :=
        match write_response r st with (true, st) => Some (Some EndQuarantined, st) | (false, st) => Some (Some EndWrite, st) end in
      let answer r st :=
        match write_response r st with (true, st) => Some (None, st) | (false, st) => Some (Some EndWrite, st) end in
      match decode_request category nfc record with
      | Ok None => Some (None, st)
      | Err RecordUtf8 =>
          if quarantined (security st) then refuse (quarantined_response Json.Null) else Some (Some EndUtf8, st)
      | Err RecordJson =>
          if quarantined (security st) then refuse (quarantined_response Json.Null)
          else answer {| response_id := Json.Null; body := RpcError (-32700) (lit "parse error") |} st
      | Ok (Some r) =>
          match id r with
          | None => Some (None, st)
          | Some i =>
              match handle_decoded_request r i st with
              | None => None
              | Some (response, st) => answer response st
              end
          end
      end
  end.

(** The loop of [run_session], a record at a time. *)
Fixpoint session_loop (fuel : nat) (reader : list Fill) (st : Session) : option (SessionEnd * Session) :=
  match fuel with
  | O => None
  | S fuel =>
      match read_record reader st with
      | None => None
      | Some (Err _, st) => Some (EndQuarantined, st)
      | Some (Ok (Err e), st) => Some (EndFrame e, st)
      | Some (Ok (Ok (None, _)), st) => Some (Finished, st)
      | Some (Ok (Ok (Some record, reader)), st) =>
          match record_step record st with
          | None => None
          | Some (Some e, st) => Some (e, st)
          | Some (None, st) => session_loop fuel reader st
          end
      end
  end.

(** The merge of [flush_verify_session]. *)
Definition merged (v : Domain.Verdict) (p : option VerdictPatch) : Domain.Verdict :=
  match v with
  | VConfirmed notes existing => VConfirmed notes (match p with Some p => Some p | None => existing end)
  | v => v
  end.

(** [flush_verify_session] *)
Definition flush_verify_session : Op unit :=
  _ ← admitted SubmitVerdict;
  _ ← verify_state;
  match job_id scope with
  | None => fail TNoJob
  | Some job =>
      _ ← lock SubmitVerdict;
      inner ← verify_state;
      match verdict inner with
      | None => fail TNoVerdict
      | Some v => guarded SubmitVerdict (send_post (PostVerdict job (merged v (patch inner))))
      end
  end.

(** [run_session]; a record takes at least one byte of the stream. *)
Definition run_session (reader : list Fill) (st : Session) : option (SessionEnd * Session) :=
  match session_loop (S (length (stream_bytes reader))) reader st with
  | Some (Finished, st) =>
      match verify st with
      | None => Some (Finished, st)
      | Some _ =>
          match flush_verify_session st with
          | None => None
          | Some (Ok _, st) => Some (Finished, st)
          | Some (Err (Failed TQuarantined), st) | Some (Err Dropped, st) => Some (EndQuarantined, st)
          | Some (Err (Failed e), st) => Some (EndFlush e, st)
          end
      end
  | r => r
  end.

(** [run_stream_server] *)
Definition open_session (j : JobSecurity) (v : option VerifySession) : Session :=
  {| security := j; verify := v; clock := 0; posts := []; post_quarantined := []; mismatches := []; written := [] |}.
Definition run_stream_server (j : JobSecurity) (reader : list Fill) : option (SessionEnd * Session) :=
  match finding_of scope, job_id scope with
  | Some fid, Some _ =>
      run_session reader (open_session j (Some {| finding := fid; verdict := None; patch := None |}))
  | Some _, None => Some (EndConfiguration, open_session j None)
  | None, _ => run_session reader (open_session j None)
  end.

End Session.
