(* ===== verification/McpSessionTheorems.v ===== *)
(** * What sessions of the tool broker report

    A session ends on every stream, and what it posts to the server has been
    checked: findings by the admission rules, against the cited file and with
    Git, and at the end of a verification the one verdict that was locked, with
    the one patch that was checked after it. *)

From S2P Require Import Prelude Domain Text Fingerprint Citation CitationTheorems Canary CanaryTheorems ModelBroker McpFraming LlmFinding Repos McpArguments McpSession.
From Stdlib Require Import ZArith Lia.
From stdpp Require Import base sets list option numbers strings.
Local Open Scope Z_scope.

Section Reports.
Context {U : UnicodeCase} {L : UnicodeCaseLaws U} {Hash : Type} (blake3 : list Z -> Hash) (to_hex : Hash -> str).
Context (category : Z -> GeneralCategory) (nfc : str -> str) {J : JsonReader}.
Context (w : World) (scope : Scope) (k : str) (ws : list str).

(** Files of a checkout are shorter than 2^64 bytes. *)
Context (file_sizes : forall n p metadata reads, open_file w n p = Opened metadata reads ->
  Z.of_nat (length (delivered reads)) < u64_max).

(** The checkout does not gain files during a session: a name that leads nowhere
    when its membership is checked cannot be opened either. *)
Context (stable : forall n m p metadata reads, open_file w n p = Opened metadata reads -> resolve w m p <> Absent).

(** ** What was checked *)

(** A finding that was checked: its fields are admissible, its file is inside
    the checkout and is cited exactly, its proof of concept applies. *)
Record finding_checked (s : McpFindingSubmission) : Prop := {
  fc_fields : exists fp, submission_validate (with_fingerprint s fp) = Ok tt;
  fc_path : Text.path category (sub_file_path s) = Ok (sub_file_path s);
  fc_member : exists n canonical, resolve w n (sub_file_path s) = Resolved canonical /\ workdir w `prefix_of` canonical;
  fc_cited : exists n reads src, open_file w n (sub_file_path s) = Opened (Some true) reads /\
    read_all reads = Some src /\ reference blake3 to_hex (claim_of s) src = Ok (sub_fingerprint s);
  fc_applies : exists n stderr, git_apply w n (sub_poc_unified s) = Some (true, stderr);
}.

Definition finding_post (p : Post) : Prop :=
  match p with PostFinding job s => job_id scope = Some job /\ finding_checked s | PostVerdict _ _ => False end.

(** A patch that was checked: it applies, and the report with it is not too long. *)
Definition patch_checked (fid : Z) (p : VerdictPatch) : Prop :=
  (exists n stderr, git_apply w n (vp_patch_unified p) = Some (true, stderr)) /\
  exists n detail, get_finding w n fid = Some detail /\
    ReportLimits.validate_report_content (detail_description detail) (detail_poc detail) (Some (vp_patch_unified p)) = Ok tt.

(** The buffer of a verification. *)
Definition slots_ok (v : VerifySession) : Prop :=
  (forall x, verdict v = Some x -> typed category (AVerdict x)) /\
  (forall p, patch v = Some p -> is_confirmed (verdict v) = true /\ patch_checked (finding v) p).

Definition well (st : Session) : Prop :=
  job_ok k ws (security st) /\
  match verify st with
  | None => finding_of scope = None
  | Some v => finding_of scope = Some (finding v) /\ slots_ok v
  end /\
  forall r kind, r ∈ written st -> body r = ToolResult (VerdictLocked kind) false ->
    exists v x, verify st = Some v /\ verdict v = Some x /\ verdict_str x = kind.

(** ** Steps of a session *)

(** What is in a slot stays there. *)
Definition kept {A} (a b : option A) : Prop := forall x, a = Some x -> b = Some x.

Definition slots_kept (a b : option VerifySession) : Prop :=
  match a, b with
  | None, None => True
  | Some v, Some v' => finding v' = finding v /\ kept (verdict v) (verdict v') /\ kept (patch v) (patch v')
  | _, _ => False
  end.

(** A session goes on: it posts checked findings, nothing in quarantine. *)
Record later (st st' : Session) : Prop := {
  lt_slots : slots_kept (verify st) (verify st');
  lt_quarantine : quarantined (security st) = true -> quarantined (security st') = true;
  lt_posts : exists ps, posts st' = posts st ++ ps /\ Forall finding_post ps /\
    (quarantined (security st) = true -> ps = []) /\
    exists bs, post_quarantined st' = post_quarantined st ++ bs /\ length bs = length ps /\ Forall (eq false) bs;
}.

(** A session waits: nothing but the job's security and the clock change. *)
Record waits (st st' : Session) : Prop := {
  wt_verify : verify st' = verify st;
  wt_posts : posts st' = posts st;
  wt_log : post_quarantined st' = post_quarantined st;
  wt_written : written st' = written st;
  wt_quarantine : quarantined (security st) = true -> quarantined (security st') = true;
}.

Lemma slots_kept_refl a : slots_kept a a.
Proof. destruct a; cbn; [|exact I]. split_and!; [reflexivity|intros x; auto..]. Qed.

Lemma slots_kept_trans a b c : slots_kept a b -> slots_kept b c -> slots_kept a c.
Proof.
  destruct a, b, c; cbn; try contradiction; auto. intros (E1 & V1 & P1) (E2 & V2 & P2).
  split_and!; [congruence|intros x Hx; auto..].
Qed.

(** The posts clause of [later] when there are none. *)
Lemma no_posts st st' : posts st' = posts st -> post_quarantined st' = post_quarantined st ->
  exists ps, posts st' = posts st ++ ps /\ Forall finding_post ps /\ (quarantined (security st) = true -> ps = []) /\
    exists bs, post_quarantined st' = post_quarantined st ++ bs /\ length bs = length ps /\ Forall (eq false) bs.
Proof. intros -> ->. exists []. rewrite app_nil_r. split_and!; auto. exists []. by rewrite app_nil_r. Qed.

#[local] Instance later_preorder : PreOrder later.
Proof.
  split.
  - intros st. split; [apply slots_kept_refl|auto|by apply no_posts].
  - intros a b c [S1 Q1 (p1 & E1 & F1 & N1 & b1 & G1 & L1 & B1)] [S2 Q2 (p2 & E2 & F2 & N2 & b2 & G2 & L2 & B2)].
    split; [by eapply slots_kept_trans|auto|]. exists (p1 ++ p2). rewrite E2, E1, app_assoc.
    split; [reflexivity|]. split; [by apply Forall_app|]. split; [intros Hq; rewrite N1, N2 by auto; reflexivity|].
    exists (b1 ++ b2). rewrite G2, G1, app_assoc, !length_app. split_and!; [done|lia|by apply Forall_app].
Qed.

#[local] Instance waits_preorder : PreOrder waits.
Proof. split; [intros st; split; auto|]. intros a b c [] []. split; [congruence..|auto]. Qed.

Lemma waits_later st st' : waits st st' -> later st st'.
Proof.
  intros []. split; [rewrite wt_verify0; apply slots_kept_refl|assumption|by apply no_posts].
Qed.

(** A computation from well-formed sessions: it ends, relates them, and when it
    succeeds the result and the session satisfy the postcondition. *)
Definition triple (R : Session -> Session -> Prop) (P : Session -> Prop) {A} (m : Op A) (Q : A -> Session -> Prop) : Prop :=
  forall st, well st -> P st -> exists r st', m st = Some (r, st') /\ R st st' /\ well st' /\ written st' = written st /\
    forall a, r = Ok a -> Q a st'.

Abbreviation anywhere := (fun _ : Session => True).

Lemma triple_bind R `{!PreOrder R} P {A B} (m : Op A) (f : A -> Op B) Q T :
  triple R P m Q -> (forall a, triple R (Q a) (f a) T) -> triple R P (m ≫= f) T.
Proof.
  intros Hm Hf st Hw HP. destruct (Hm st Hw HP) as (r & st1 & E & HR & Hw1 & Ew & HQ).
  unfold mbind, op_bind. rewrite E. destruct r as [a|e].
  - destruct (Hf a st1 Hw1 (HQ a eq_refl)) as (r2 & st2 & E2 & HR2 & Hw2 & Ew2 & HT). exists r2, st2.
    split; [exact E2|]. split; [by etransitivity|]. split; [exact Hw2|]. split; [congruence|exact HT].
  - exists (Err e), st1. split_and!; auto. discriminate.
Qed.

Lemma triple_weaken (R R' : Session -> Session -> Prop) (P P' : Session -> Prop) {A} (m : Op A) (Q Q' : A -> Session -> Prop) :
  triple R P m Q -> (forall st st', R st st' -> R' st st') -> (forall st, P' st -> P st) ->
  (forall a st, Q a st -> Q' a st) -> triple R' P' m Q'.
Proof.
  intros Hm HR HP HQ st Hw HP'. destruct (Hm st Hw (HP _ HP')) as (r & st1 & E & H1 & Hw1 & Ew & H2).
  exists r, st1. split_and!; auto.
Qed.

Lemma triple_ret R `{!PreOrder R} {A} (a : A) (Q : A -> Session -> Prop) : triple R (Q a) (mret a) Q.
Proof. intros st Hw HQ. exists (Ok a), st. split_and!; auto; [reflexivity|]. by intros ? [= <-]. Qed.

Lemma triple_fail R `{!PreOrder R} P {A} e (Q : A -> Session -> Prop) : triple R P (fail e) Q.
Proof. intros st Hw _. exists (Err (Failed e)), st. split_and!; auto; [reflexivity|discriminate]. Qed.

Lemma triple_lift R `{!PreOrder R} {A E} (f : E -> ToolError) (r : result E A) (P : Session -> Prop) :
  triple R P (lift f r) (fun a st => P st /\ r = Ok a).
Proof.
  destruct r; cbn [lift]; [|apply triple_fail; typeclasses eauto].
  intros st Hw HP. exists (Ok a), st. split_and!; auto; [reflexivity|]. by intros ? [= <-].
Qed.

Lemma triple_pre R (P P' : Session -> Prop) {A} (m : Op A) Q :
  (forall st, well st -> P' st -> P st) -> triple R P m Q -> triple R P' m Q.
Proof. intros HP Hm st Hw HP'. exact (Hm st Hw (HP st Hw HP')). Qed.

Lemma triple_rel (R R' : Session -> Session -> Prop) P {A} (m : Op A) Q :
  (forall st st', R st st' -> R' st st') -> triple R P m Q -> triple R' P m Q.
Proof. intros HR Hm. eapply triple_weaken; eauto. Qed.

Lemma triple_fact R (F : Prop) {A} (m : Op A) Q : (F -> triple R anywhere m Q) -> triple R (fun _ => F) m Q.
Proof. intros Hm st Hw HF. exact (Hm HF st Hw I). Qed.

(** A fact about no session is kept. *)
Lemma triple_keep R (F : Prop) P {A} (m : Op A) Q :
  triple R P m Q -> triple R (fun st => P st /\ F) m (fun a st => Q a st /\ F).
Proof.
  intros Hm st Hw [HP HF]. destruct (Hm st Hw HP) as (r & st1 & E & H1 & Hw1 & Ew & H2).
  exists r, st1. split_and!; auto.
Qed.

(** ** Waiting *)

Lemma well_same st st' : well st -> job_ok k ws (security st') -> verify st' = verify st -> written st' = written st -> well st'.
Proof. intros (_ & Hv & Hwr) Hj Ev Ew. unfold well. rewrite Ev, Ew. auto. Qed.

Lemma tick_waits P : triple waits P (tick w) (fun _ _ => True).
Proof.
  intros st Hw _. unfold tick.
  destruct (observe_all_ok k ws (others w (clock st)) (security st) (proj1 Hw)) as (j & -> & Hj & Hm & _).
  eexists _, _. split; [reflexivity|]. split; [split; auto|]. split; [|auto]. by eapply well_same.
Qed.

Lemma admission_waits op P : triple waits P (admission op) (fun _ st => quarantined (security st) = false).
Proof.
  intros st Hw _. unfold admission. destruct (admit_ok k ws (security st) op (proj1 Hw)) as (j & Hj & Hq & ->).
  destruct (quarantined (security st)) eqn:E; eexists _, _; (split; [reflexivity|]);
    (split; [split; cbn; auto; congruence|]); (split; [by eapply well_same|]); (split; [reflexivity|]);
    intros a Ha; [discriminate|exact Hq].
Qed.

Lemma admitted_waits op P : triple waits P (admitted w op) (fun _ st => quarantined (security st) = false).
Proof. eapply triple_bind; [typeclasses eauto|apply tick_waits|]. intros ?. apply admission_waits. Qed.

Lemma wait_waits P : triple waits P (wait w) (fun _ st => quarantined (security st) = false).
Proof.
  eapply triple_bind; [typeclasses eauto|apply tick_waits|]. intros ? st Hw _. unfold drop_cancelled.
  assert (E : cancelled (security st) = quarantined (security st)) by apply (proj1 Hw). rewrite E.
  destruct (quarantined (security st)) eqn:Hq; eexists _, st; (split; [reflexivity|]); split_and!; auto;
    try reflexivity; discriminate.
Qed.

Lemma attempt_triple R P {A} (m : Op A) Q : triple R P m Q ->
  triple R P (attempt m) (fun r st => forall a, r = Ok a -> Q a st).
Proof.
  intros Hm st Hw HP. destruct (Hm st Hw HP) as (r & st1 & E & HR & Hw1 & Ew & HQ). unfold attempt. rewrite E.
  destruct r as [a|[|e]]; eexists _, st1; (split; [reflexivity|]); split_and!; auto.
  - intros ? [= <-] ? [= <-]. auto.
  - discriminate.
  - intros ? [= <-]. discriminate.
Qed.

(** A guarded operation, whose result does not depend on the session. *)
Lemma guarded_triple R `{!PreOrder R} (HR : forall st st', waits st st' -> R st st') op P {A} (m : Op A) (Q : A -> Prop) :
  triple R (fun st => quarantined (security st) = false) m (fun a _ => Q a) ->
  triple R P (guarded w op m) (fun a st => Q a /\ quarantined (security st) = false).
Proof.
  intros Hm. unfold guarded.
  eapply triple_bind; [exact _|eapply triple_weaken; [apply (admitted_waits op P)|exact HR|auto|intros a st H; exact H]|].
  intros u. eapply triple_bind; [exact _|apply attempt_triple, Hm|]. intros r.
  eapply triple_bind; [exact _| |].
  - instantiate (1 := fun _ st => quarantined (security st) = false /\ forall a, r = Ok a -> Q a).
    intros st Hw Hr. destruct (admitted_waits op (fun _ => True) st Hw I) as (r' & st' & E & Hs & Hw' & Ew & Hq).
    exists r', st'. split_and!; auto. intros a Ha. split; [by apply (Hq a)|]. intros a' ->. eauto.
  - intros u'. destruct r as [a|e]; cbn [lift]; [|apply triple_fail; exact _].
    intros st Hw [Hq Hr]. exists (Ok a), st. split_and!; auto; [reflexivity|]. intros ? [= <-]. auto.
Qed.

Lemma ask_waits {A} (f : nat -> A) P : triple waits P (ask w f) (fun a _ => exists n, a = f n).
Proof.
  intros st Hw _. unfold ask, mbind, op_bind, now.
  destruct (wait_waits (fun _ => True) st Hw I) as (r & st' & -> & Hs & Hw' & Ew & _).
  destruct r as [[]|e]; eexists _, st'; (split; [reflexivity|]); split_and!; auto; [|discriminate].
  intros a [= <-]. eauto.
Qed.

Lemma lock_waits op P : triple waits P (lock w op) (fun _ st => quarantined (security st) = false).
Proof.
  eapply triple_weaken; [apply (guarded_triple waits (fun _ _ H => H) op P (wait w) (fun _ => True))|auto..].
  - eapply triple_weaken; [apply (wait_waits (fun st => quarantined (security st) = false))|auto..].
  - intros a st [_ H]. exact H.
Qed.

Lemma verify_state_waits P : triple waits P verify_state (fun v st => verify st = Some v /\ P st).
Proof.
  intros st Hw HP. unfold verify_state. destruct (verify st) as [v|] eqn:E; eexists _, st; (split; [reflexivity|]);
    split_and!; auto; try reflexivity; [|discriminate]. intros a [= <-]. auto.
Qed.

Lemma send_post_later p : finding_post p ->
  triple later (fun st => quarantined (security st) = false) (send_post w p) (fun _ _ => True).
Proof.
  intros Hp st Hw Hq. unfold send_post, mbind, op_bind, now, modify.
  assert (Hw1 : well (add_post p st)) by (eapply well_same; [exact Hw|apply Hw|reflexivity..]).
  destruct (wait_waits (fun _ => True) _ Hw1 I) as (r & st' & -> & Hs & Hw' & Ew & _).
  assert (Hl : later st st').
  { etransitivity; [|apply waits_later, Hs]. split; [apply slots_kept_refl|auto|]. exists [p]. split; [reflexivity|].
    split; [by repeat constructor|]. split; [intros; cbn in *; congruence|]. exists [false]. cbn. rewrite Hq. by repeat constructor. }
  destruct r as [[]|e]; [destruct (accepts_post w (clock st) p)|]; eexists _, st'; (split; [reflexivity|]); split_and!; auto.
Qed.

(** ** Tools *)

Lemma check_diff_waits diff P : triple waits P (check_diff_applies w diff)
  (fun o _ => o = Applies -> exists n stderr, git_apply w n diff = Some (true, stderr)).
Proof.
  eapply triple_bind; [exact _|apply ask_waits|]. intros [[success stderr]|]; [|apply triple_fail; exact _].
  intros st Hw [n Hn]. eexists _, st. split; [reflexivity|]. split_and!; auto; [reflexivity|].
  intros a [= <-] Ha. exists n, stderr. unfold diff_check in Ha. destruct success; [congruence|discriminate].
Qed.

(** The text of a tool, as far as it speaks of a locked verdict. *)
Definition truthful (t : ToolText) (st : Session) : Prop :=
  forall kind, t = VerdictLocked kind -> exists v x, verify st = Some v /\ verdict v = Some x /\ verdict_str x = kind.

Lemma triple_text R `{!PreOrder R} P t : (forall kind, t <> VerdictLocked kind) -> triple R P (mret t) truthful.
Proof.
  intros Ht st Hw _. exists (Ok t), st. split_and!; auto; [reflexivity|]. intros ? [= <-] kind Hk. by destruct (Ht kind).
Qed.

Lemma validate_diff_waits diff P : triple waits P (validate_diff w diff) truthful.
Proof. eapply triple_bind; [exact _|apply check_diff_waits|]. intros o. (apply triple_text; [exact _|discriminate]). Qed.

Lemma query_waits args P : triple waits P (query_prior_findings w scope args) truthful.
Proof.
  eapply triple_bind; [exact _|apply ask_waits|].
  intros [[t|]|]; [(apply triple_text; [exact _|discriminate])|apply triple_fail; exact _..].
Qed.

Lemma get_waits i P : triple waits P (get_finding_by_id w i) truthful.
Proof.
  eapply triple_bind; [exact _|apply ask_waits|].
  intros [d|]; [destruct (detail_text d); [(apply triple_text; [exact _|discriminate])|]|]; apply triple_fail; exact _.
Qed.

Lemma membership_waits f P : triple waits P (check_submitted_membership w f)
  (fun _ _ => exists n, resolve w n f = Absent \/
     exists canonical, resolve w n f = Resolved canonical /\ workdir w `prefix_of` canonical).
Proof.
  intros st Hw _. unfold check_submitted_membership, mbind, op_bind, now.
  destruct (resolve w (clock st) f) eqn:E; [|..|case_bool_decide]; eexists _, st; (split; [reflexivity|]);
    split_and!; auto; try reflexivity; try discriminate; intros a _; eauto.
Qed.

Lemma citation_task_Ok s answer fp :
  0 <= sub_line_start s <= u32_max -> 0 <= sub_line_end s <= u32_max ->
  (exists n, answer = open_file w n (sub_file_path s)) -> citation_task blake3 to_hex s answer = Ok fp ->
  exists n reads src, open_file w n (sub_file_path s) = Opened (Some true) reads /\
    read_all reads = Some src /\ reference blake3 to_hex (claim_of s) src = Ok fp.
Proof.
  intros Ha Hb [n ->] H. unfold citation_task in H. destruct (open_file w n (sub_file_path s)) as [| |md reads] eqn:E; try discriminate.
  unfold Citation.validate in H. cbn [check_cancellation obind] in H. destruct md as [[]|]; try discriminate.
  destruct (check_source_spec blake3 to_hex (fun _ => false) (claim_of s) reads 1 Ha Hb (file_sizes _ _ _ _ E))
    as [[_ [m Hm]]|[(e & He & _)|(src & Hr & Hs)]]; [discriminate|rewrite He in H; discriminate|].
  rewrite Hs in H. exists n, reads, src. auto.
Qed.

Lemma validate_local_waits s P : 0 <= sub_line_start s <= u32_max -> 0 <= sub_line_end s <= u32_max ->
  triple waits P (validate_local_llm_submission blake3 to_hex w s) (fun fp _ =>
    submission_validate s = Ok tt /\
    (exists n reads src, open_file w n (sub_file_path s) = Opened (Some true) reads /\
       read_all reads = Some src /\ reference blake3 to_hex (claim_of s) src = Ok fp) /\
    exists n stderr, git_apply w n (sub_poc_unified s) = Some (true, stderr)).
Proof.
  intros Ha Hb. unfold validate_local_llm_submission. destruct (_ || _); [apply triple_fail; exact _|].
  eapply triple_bind; [exact _|apply triple_lift; exact _|]. intros [].
  eapply triple_bind; [exact _|apply triple_keep, ask_waits|]. intros answer.
  eapply triple_bind; [exact _|apply triple_lift; exact _|]. intros fp.
  eapply triple_bind; [exact _|apply (triple_pre _ (fun st => True /\ ((exists n, answer = open_file w n (sub_file_path s)) /\
    submission_validate s = Ok tt) /\ citation_task blake3 to_hex s answer = Ok fp)); [tauto|apply triple_keep, check_diff_waits]|].
  intros [|stderr]; [|apply triple_fail; exact _].
  intros st Hw (H1 & (H2 & H3) & H4). exists (Ok fp), st. split_and!; auto; [reflexivity|]. intros ? [= <-].
  split; [exact H3|]. split; [exact (citation_task_Ok s answer fp Ha Hb H2 H4)|auto].
Qed.

Lemma reporting_waits P {A} (m : Op A) Q : triple waits P m Q -> triple waits P (reporting m) Q.
Proof.
  intros Hm st Hw HP. destruct (Hm st Hw HP) as (r & st1 & E & HR & Hw1 & Ew & HQ). unfold reporting. rewrite E.
  destruct r as [a|[|[]]]; try (eexists _, st1; split; [reflexivity|]; split_and!; auto; discriminate).
  assert (Hx : forall x, waits st (add_mismatch x st1) /\ well (add_mismatch x st1)).
  { intros x. destruct HR. split; [split; auto|]. eapply well_same; [exact Hw1|apply Hw1|reflexivity..]. }
  destruct (reason e) as [x|]; eexists _, _; (split; [reflexivity|]); [destruct (Hx x)|]; split_and!; auto; discriminate.
Qed.

Lemma submit_finding_later args P : typed category (AFinding args) ->
  triple later P (tool_submit_finding blake3 to_hex w scope args) truthful.
Proof.
  intros (_ & _ & _ & Ha & Hb & _ & Hpath & _). unfold tool_submit_finding.
  eapply triple_bind; [exact _|apply (triple_rel waits _ _ _ _ waits_later), admitted_waits|]. intros _u.
  destruct (job_id scope) as [job|] eqn:Hjob; [|apply triple_fail; exact _].
  set (member := exists n, resolve w n (file args) = Absent \/
    exists canonical, resolve w n (file args) = Resolved canonical /\ workdir w `prefix_of` canonical).
  set (s := pending_submission blake3 to_hex args).
  apply (triple_bind later _ _ _ (fun x _ => x = s /\ member)).
  { apply (triple_rel waits _ _ _ _ waits_later). eapply triple_bind; [exact _|apply membership_waits|]. intros _v.
    intros st Hw Hm. exists (Ok s), st. split_and!; auto; [reflexivity|]. intros ? [= <-]. auto. }
  intros s'. apply triple_fact. intros [-> Hm].
  eapply triple_bind; [exact _|apply (triple_rel waits _ _ _ _ waits_later), reporting_waits, (validate_local_waits s _ Ha Hb)|].
  intros fp. cbv beta. apply triple_fact. intros (Hv & Hcited & Happlies).
  assert (Hc : finding_checked (with_fingerprint s fp)).
  { split; [|exact Hpath| |exact Hcited|exact Happlies]; [exists (sub_fingerprint s); exact Hv|].
    destruct Hm as (n & [Habs|(canonical & Hres)]); [|by exists n, canonical].
    destruct Hcited as (m & reads & _ & Hopen & _). by destruct (stable m n _ _ _ Hopen). }
  eapply triple_bind; [exact _|apply (guarded_triple later waits_later _ _ _ (fun _ => True)), send_post_later; split; assumption|].
  intros _v. apply triple_text; [exact _|discriminate].
Qed.

(** Filling a slot of the buffer. *)
Lemma fill_slot st v v' t : well st -> verify st = Some v -> finding v' = finding v ->
  kept (verdict v) (verdict v') -> kept (patch v) (patch v') -> slots_ok v' -> truthful t (set_verify v' st) ->
  exists r st', (modify (set_verify v') ≫= fun _ : unit => mret t) st = Some (r, st') /\ later st st' /\ well st' /\
    written st' = written st /\ forall a, r = Ok a -> truthful a st'.
Proof.
  intros (Hj & Hv & Hwr) E Hf Hkv Hkp Hok Ht. rewrite E in *. destruct Hv as [Hfo _].
  eexists _, _. split; [reflexivity|]. split_and!.
  - split; [cbn; rewrite E; split_and!; auto|auto|by apply no_posts].
  - split; [exact Hj|]. cbn. split; [split; [congruence|exact Hok]|]. intros r kind Hr Hb.
    destruct (Hwr r kind Hr Hb) as (v0 & x & [= <-] & Hx & Hk). exists v', x. auto.
  - reflexivity.
  - intros a [= <-]. exact Ht.
Qed.

Lemma submit_verdict_later v P : typed category (AVerdict v) -> triple later P (submit_verdict w v) truthful.
Proof.
  intros Hv. unfold submit_verdict.
  eapply triple_bind; [exact _|apply (triple_rel waits _ _ _ _ waits_later), admitted_waits|]. intros _u.
  eapply triple_bind; [exact _|apply (triple_rel waits _ _ _ _ waits_later), verify_state_waits|]. intros _v.
  eapply triple_bind; [exact _|apply (triple_rel waits _ _ _ _ waits_later), lock_waits|]. intros _x.
  eapply triple_bind; [exact _|apply (triple_rel waits _ _ _ _ waits_later), verify_state_waits|]. intros inner.
  destruct (verdict inner) as [x|] eqn:Ex; [apply triple_fail; exact _|].
  intros st Hw [E _]. pose proof Hw as (_ & Hs & _). rewrite E in Hs. destruct Hs as (_ & _ & Hp).
  apply (fill_slot st inner); auto; cbn [finding verdict patch].
  - intros y Hy. congruence.
  - intros y Hy. exact Hy.
  - split; [intros y [= <-]; exact Hv|]. intros p Hpp. destruct (Hp p Hpp) as [Hc _]. by rewrite Ex in Hc.
  - intros kind [= <-]. eexists _, v. split; [reflexivity|]. auto.
Qed.

Lemma submit_patch_later p P : triple later P (submit_patch w p) truthful.
Proof.
  unfold submit_patch.
  eapply triple_bind; [exact _|apply (triple_rel waits _ _ _ _ waits_later), admitted_waits|]. intros _u.
  eapply triple_bind; [exact _|apply (triple_rel waits _ _ _ _ waits_later), verify_state_waits|]. intros _v.
  eapply triple_bind; [exact _|apply (triple_rel waits _ _ _ _ waits_later), lock_waits|]. intros _x.
  eapply triple_bind; [exact _|apply (triple_rel waits _ _ _ _ waits_later), verify_state_waits|]. intros inner.
  apply (triple_pre _ (fun _ => finding_of scope = Some (finding inner))).
  { intros st (_ & Hs & _) [E _]. rewrite E in Hs. apply Hs. }
  apply triple_fact. intros Hfinding.
  eapply triple_bind; [exact _|apply triple_lift; exact _|]. intros _y.
  eapply triple_bind; [exact _|apply (guarded_triple later waits_later _ _ _ (fun a => exists n, a = get_finding w n (finding inner)))|].
  { apply (triple_rel waits _ _ _ _ waits_later), ask_waits. }
  intros answer. apply (triple_pre _ (fun _ => exists n, answer = get_finding w n (finding inner))); [tauto|].
  apply triple_fact. intros [n Hn]. destruct answer as [detail|]; [|apply triple_fail; exact _].
  eapply triple_bind; [exact _|apply triple_lift; exact _|]. intros [].
  apply (triple_pre _ (fun _ => ReportLimits.validate_report_content (detail_description detail) (detail_poc detail)
    (Some (vp_patch_unified p)) = Ok tt)); [tauto|]. apply triple_fact. intros Hreport.
  eapply triple_bind; [exact _|apply (guarded_triple later waits_later _ _ _ (fun o => o = Applies ->
    exists n stderr, git_apply w n (vp_patch_unified p) = Some (true, stderr)))|].
  { apply (triple_rel waits _ _ _ _ waits_later), check_diff_waits. }
  intros [|stderr]; [|apply triple_fail; exact _].
  apply (triple_pre _ (fun _ => exists n stderr, git_apply w n (vp_patch_unified p) = Some (true, stderr))); [tauto|].
  apply triple_fact. intros Happlies.
  eapply triple_bind; [exact _|apply (triple_rel waits _ _ _ _ waits_later), lock_waits|]. intros _z.
  eapply triple_bind; [exact _|apply (triple_rel waits _ _ _ _ waits_later), verify_state_waits|]. intros v.
  destruct (is_confirmed (verdict v)) eqn:Hc; cbn [negb]; [|apply triple_fail; exact _].
  destruct (patch v) as [|] eqn:Hp; [apply triple_fail; exact _|].
  intros st Hw [E _]. pose proof Hw as (_ & Hs & _). rewrite E in Hs. destruct Hs as (Hf & Hvs & _).
  apply (fill_slot st v); auto; cbn [finding verdict patch].
  - intros y Hy. exact Hy.
  - intros y Hy. congruence.
  - split; [exact Hvs|]. intros p' [= <-]. split; [exact Hc|]. split; [exact Happlies|].
    exists n, detail. split; [cbn [finding]; congruence|exact Hreport].
  - intros kind [=].
Qed.

Lemma tool_later a P : (forall x, a = Ok x -> typed category x) -> triple later P (tool blake3 to_hex w scope a) truthful.
Proof.
  intros Ha. destruct a as [a|e]; cbn [tool]; [|apply triple_fail; exact _]. specialize (Ha a eq_refl).
  destruct a.
  - apply (triple_rel waits _ _ _ _ waits_later), query_waits.
  - apply (triple_rel waits _ _ _ _ waits_later), get_waits.
  - by apply submit_finding_later.
  - apply (triple_rel waits _ _ _ _ waits_later), validate_diff_waits.
  - by apply submit_verdict_later.
  - apply submit_patch_later.
  - apply (triple_rel waits _ _ _ _ waits_later), validate_diff_waits.
Qed.

(** ** Requests *)

(** The same guard for a tool, whose text may speak of the session. *)
Lemma guarded_tool op c P : (forall x, arguments_of c = Ok x -> typed category x) ->
  triple later P (guarded w op (tool blake3 to_hex w scope (arguments_of c))) truthful.
Proof.
  intros Ha. unfold guarded.
  eapply triple_bind; [exact _|apply (triple_rel waits _ _ _ _ waits_later), admitted_waits|]. intros _u.
  eapply triple_bind; [exact _|apply attempt_triple, (tool_later _ _ Ha)|]. intros r.
  eapply (triple_bind later _ _ _ (fun _ st => forall a, r = Ok a -> truthful a st)).
  - intros st Hw Hr. destruct (admitted_waits op (fun _ => True) st Hw I) as (r' & st' & E & Hs & Hw' & Ew & _).
    exists r', st'. split; [exact E|]. split; [by apply waits_later|]. split; [exact Hw'|]. split; [exact Ew|].
    intros a _ a' ->. intros kind Hk. destruct (Hr a' eq_refl kind Hk) as (v & x & Hv & Hx). exists v, x.
    rewrite (wt_verify _ _ Hs). auto.
  - intros _v. destruct r as [t|e]; cbn [lift]; [|apply triple_fail; exact _].
    intros st Hw Hr. exists (Ok t), st. split_and!; auto; [reflexivity|]. intros ? [= <-]. auto.
Qed.

Definition says_truth (b : Body) (st : Session) : Prop := forall kind, b = ToolResult (VerdictLocked kind) false ->
  exists v x, verify st = Some v /\ verdict v = Some x /\ verdict_str x = kind.

(** What a request does: it is answered, and in quarantine refused. *)
Lemma request_later r i st : well st -> (forall x, arguments_of (call r) = Ok x -> typed category x) ->
  exists response st', handle_decoded_request blake3 to_hex w scope r i st = Some (response, st') /\ later st st' /\
    well st' /\ written st' = written st /\ says_truth (body response) st' /\
    (quarantined (security st) = true -> response = quarantined_response i).
Proof.
  intros Hw Ha. unfold handle_decoded_request. destruct (quarantined (security st)) eqn:Hq.
  { eexists _, st. split; [reflexivity|]. split_and!; auto; [reflexivity|]. intros kind [=]. }
  assert (Hplain : forall b, (forall kind, b <> ToolResult (VerdictLocked kind) false) ->
    exists response st', Some ({| response_id := i; body := b |}, st) = Some (response, st') /\ later st st' /\
    well st' /\ written st' = written st /\ says_truth (body response) st' /\ (false = true -> response = quarantined_response i)).
  { intros b Hb. eexists _, st. split; [reflexivity|]. split_and!; auto; [reflexivity| |discriminate].
    intros kind Hk. by destruct (Hb kind). }
  destruct (method r); try (apply Hplain; discriminate).
  unfold handle_decoded_tool_call.
  destruct (guarded_tool (operation (name (call r))) (call r) (fun _ => True) Ha st Hw I) as (res & st' & -> & Hl & Hw' & Ew & Ht).
  eexists _, st'. split; [reflexivity|]. split_and!; auto; [|discriminate].
  destruct (quarantined (security st')); [intros kind [=]|]. cbn [body]. intros kind Hb.
  destruct res as [t|[|e]]; cbn in Hb; try discriminate. injection Hb as ->. exact (Ht _ eq_refl kind eq_refl).
Qed.

Lemma write_cases response st : well st -> says_truth (body response) st ->
  exists b st', write_response w response st = (b, st') /\ well st' /\
    (posts st' = posts st /\ post_quarantined st' = post_quarantined st) /\ verify st' = verify st /\
    security st' = security st /\ exists rs, written st' = written st ++ rs /\ Forall (eq response) rs.
Proof.
  intros (Hj & Hv & Hwr) Ht. unfold write_response. eexists _, _. split; [reflexivity|].
  destruct (writable w (clock st)); cbn; split_and!; auto.
  - split; [exact Hj|]. split; [exact Hv|]. cbn. intros r kind [Hr|Hr]%elem_of_app Hb; [eauto|].
    apply list_elem_of_singleton in Hr as ->. exact (Ht kind Hb).
  - exists [response]. auto.
  - split; [exact Hj|]. auto.
  - exists []. rewrite app_nil_r. auto.
Qed.

(** ** The session *)

Definition quarantine_only (rs : list Response) : Prop := Forall (fun r => exists i, r = quarantined_response i) rs.

(** What a part of a session did: it went on, and answered; in quarantine it
    only refused. *)
Definition went_on (st st' : Session) : Prop :=
  later st st' /\ well st' /\ exists rs, written st' = written st ++ rs /\
    (quarantined (security st) = true -> quarantine_only rs).

Lemma went_on_trans a b c : went_on a b -> went_on b c -> went_on a c.
Proof.
  intros (L1 & _ & r1 & E1 & Q1) (L2 & W2 & r2 & E2 & Q2). split; [by etransitivity|]. split; [exact W2|].
  exists (r1 ++ r2). rewrite E2, E1, app_assoc. split; [reflexivity|]. intros Hq. apply Forall_app.
  split; [exact (Q1 Hq)|]. apply Q2, (lt_quarantine _ _ L1), Hq.
Qed.

Lemma waits_went_on st st' : waits st st' -> well st' -> went_on st st'.
Proof.
  intros H Hw. split; [by apply waits_later|]. split; [exact Hw|]. exists []. rewrite app_nil_r.
  split; [apply H|]. intros _. constructor.
Qed.

Lemma answered st response : well st -> says_truth (body response) st ->
  (quarantined (security st) = true -> exists i, response = quarantined_response i) ->
  exists b st', write_response w response st = (b, st') /\ went_on st st'.
Proof.
  intros Hw Ht Hq. destruct (write_cases response st Hw Ht) as (b & st' & E & Hw' & [Hp Hlog] & Hv & Hs & rs & Hr & Hall).
  exists b, st'. split; [exact E|]. split; [|split; [exact Hw'|]].
  - split; [rewrite Hv; apply slots_kept_refl|by rewrite Hs|by apply no_posts].
  - exists rs. split; [exact Hr|]. intros H. eapply Forall_impl; [exact Hall|]. intros x <-. auto.
Qed.

Lemma record_step_goes_on record st : well st ->
  exists e st', record_step blake3 to_hex category nfc w scope record st = Some (e, st') /\ went_on st st'.
Proof.
  intros Hw. unfold record_step.
  destruct (observe_ok k ws (security st) record Mcp (proj1 Hw)) as (hit & j & -> & Hj & Hm & _).
  set (st1 := set_security j st).
  assert (Hw1 : well st1) by (by eapply well_same).
  assert (H1 : went_on st st1) by (apply waits_went_on; [split; auto|exact Hw1]).
  assert (Hanswer : forall response st2, went_on st st2 -> says_truth (body response) st2 ->
    (quarantined (security st2) = true -> exists i, response = quarantined_response i) ->
    exists b st', write_response w response st2 = (b, st') /\ went_on st st').
  { intros response st2 H2 Ht Hq. destruct (answered st2 response (proj1 (proj2 H2)) Ht Hq) as (b & st' & E & H3).
    exists b, st'. split; [exact E|]. by eapply went_on_trans. }
  assert (Hfalse : forall b st2, (forall kind, b <> ToolResult (VerdictLocked kind) false) -> says_truth b st2).
  { intros b st2 Hb kind Hk. by destruct (Hb kind). }
  destruct (decode_request category nfc record) as [[r|]|[]] eqn:Hd.
  - destruct (McpArguments.id r) as [i|]; [|eexists _, st1; split; [reflexivity|exact H1]].
    destruct (request_later r i st1 Hw1) as (response & st2 & -> & Hl & Hw2 & Ew & Ht & Hq).
    { intros x Hx. apply (decoded_typed category nfc record r x Hd Hx). }
    assert (H2 : went_on st st2).
    { eapply went_on_trans; [exact H1|]. split; [exact Hl|]. split; [exact Hw2|]. exists []. rewrite app_nil_r.
      split; [exact Ew|]. intros _. constructor. }
    destruct (write_cases response st2 Hw2 Ht) as (b & st3 & E & Hw3 & [Hp Hlog] & Hv & Hs & rs & Hr & Hall). rewrite E.
    assert (H3 : went_on st st3).
    { split; [|split; [exact Hw3|]].
      - etransitivity; [apply H2|]. split; [rewrite Hv; apply slots_kept_refl|by rewrite Hs|by apply no_posts].
      - exists rs. split; [rewrite Hr, Ew; reflexivity|]. intros Hq0. eapply Forall_impl; [exact Hall|]. intros x <-.
        exists i. apply Hq. auto. }
    destruct b; eexists _, st3; (split; [reflexivity|exact H3]).
  - eexists _, st1. split; [reflexivity|exact H1].
  - destruct (quarantined (security st1)) eqn:Hq; [|eexists _, st1; split; [reflexivity|exact H1]].
    destruct (Hanswer (quarantined_response Json.Null) st1 H1) as (b & st2 & -> & H2); [by apply Hfalse|eauto|].
    destruct b; eexists _, st2; (split; [reflexivity|exact H2]).
  - destruct (quarantined (security st1)) eqn:Hq.
    + destruct (Hanswer (quarantined_response Json.Null) st1 H1) as (b & st2 & -> & H2); [by apply Hfalse|eauto|].
      destruct b; eexists _, st2; (split; [reflexivity|exact H2]).
    + destruct (Hanswer {| response_id := Json.Null; body := RpcError (-32700) (lit "parse error") |} st1 H1)
        as (b & st2 & -> & H2); [by apply Hfalse|congruence|].
      destruct b; eexists _, st2; (split; [reflexivity|exact H2]).
Qed.

Lemma read_record_waits reader P : triple waits P (read_record w reader)
  (fun r _ => r = next_record mcp_record_bytes [] reader).
Proof.
  eapply triple_weaken; [apply (guarded_triple waits (fun _ _ H => H) ReadFinding P _ (fun r => r = next_record mcp_record_bytes [] reader))|auto| |].
  - eapply triple_bind; [exact _|apply wait_waits|]. intros _u st Hw _. eexists _, st. split; [reflexivity|].
    split_and!; auto; [reflexivity|]. by intros a [= <-].
  - auto.
  - intros a st [H _]. exact H.
Qed.

(** The loop ends: a record takes a byte. *)
Lemma session_loop_goes_on fuel reader st : well st -> (length (stream_bytes reader) < fuel)%nat ->
  exists e st', session_loop blake3 to_hex category nfc w scope fuel reader st = Some (e, st') /\ went_on st st'.
Proof.
  revert reader st. induction fuel as [|fuel IH]; intros reader st Hw Hf; [lia|]. cbn [session_loop].
  destruct (read_record_waits reader (fun _ => True) st Hw I) as (r & st1 & -> & Hs & Hw1 & _ & HQ).
  assert (H1 : went_on st st1) by (by apply waits_went_on).
  destruct r as [r|e]; [|eexists _, st1; split; [reflexivity|exact H1]]. specialize (HQ r eq_refl).
  destruct r as [[[record|] reader']|e]; [|eexists _, st1; split; [reflexivity|exact H1]..].
  destruct (record_step_goes_on record st1 Hw1) as (e & st2 & -> & H2).
  assert (H12 : went_on st st2) by (by eapply went_on_trans).
  destruct e as [e|]; [eexists _, st2; split; [reflexivity|exact H12]|].
  pose proof (next_record_shorter _ _ _ _ _ (eq_sym HQ)) as Hlt. cbn in Hlt.
  destruct (IH reader' st2 (proj1 (proj2 H2)) ltac:(lia)) as (e & st3 & -> & H3).
  eexists _, st3. split; [reflexivity|]. by eapply went_on_trans.
Qed.

(** ** The verdict at the end *)

Lemma waits_then {A B} (m : Op A) (f : A -> Op B) Q st (G : option (result Stop B * Session) -> Prop) :
  triple waits anywhere m Q -> well st ->
  (forall e st', waits st st' -> well st' -> G (Some (Err e, st'))) ->
  (forall a st', waits st st' -> well st' -> Q a st' -> G (f a st')) -> G ((m ≫= f) st).
Proof.
  intros Hm Hw He Hf. destruct (Hm st Hw I) as (r & st1 & E & Hs & Hw1 & _ & HQ). unfold mbind, op_bind. rewrite E.
  destruct r as [a|e]; auto.
Qed.

(** What a flush did from a buffer [v]: it posted the buffered verdict, or nothing. *)
Definition flushed (st : Session) (v : VerifySession) (o : option (result Stop unit * Session)) : Prop :=
  exists r st', o = Some (r, st') /\ well st' /\ verify st' = verify st /\ written st' = written st /\
    ((posts st' = posts st /\ post_quarantined st' = post_quarantined st /\ r <> Ok tt) \/
     quarantined (security st) = false /\ post_quarantined st' = post_quarantined st ++ [false] /\ exists job x, job_id scope = Some job /\ verdict v = Some x /\
       posts st' = posts st ++ [PostVerdict job (merged x (patch v))]).

Lemma flushed_waits st st1 v o : waits st st1 -> flushed st1 v o -> flushed st v o.
Proof.
  intros [Hv Hp Hlog Hwr Hq] (r & st' & -> & Hw & Ev & Ew & H). exists r, st'. split; [reflexivity|]. split; [exact Hw|].
  split; [congruence|]. split; [congruence|]. rewrite Hp, Hlog in H. destruct H as [H|[Hq1 H]]; [auto|]. right.
  split; [|exact H]. destruct (quarantined (security st)); [rewrite Hq in Hq1 by reflexivity; discriminate|reflexivity].
Qed.

Lemma flushed_failed st v e : well st -> flushed st v (Some (Err e, st)).
Proof. intros Hw. exists (Err e), st. split; [reflexivity|]. split_and!; auto. Qed.

Lemma send_verdict st v job x : well st -> job_id scope = Some job -> verdict v = Some x ->
  flushed st v (guarded w SubmitVerdict (send_post w (PostVerdict job (merged x (patch v)))) st).
Proof.
  intros Hw Hjob Hx. unfold guarded.
  eapply waits_then; [apply admitted_waits|exact Hw| |].
  { intros e st1 Hs Hw1. eapply flushed_waits; [exact Hs|]. by apply flushed_failed. }
  intros u st1 Hs Hw1 Hq. eapply flushed_waits; [exact Hs|]. clear st Hw Hs. set (p := PostVerdict _ _).
  assert (Hdone : forall r st', posts st' = posts st1 ++ [p] -> post_quarantined st' = post_quarantined st1 ++ [false] ->
    well st' -> verify st' = verify st1 -> written st' = written st1 -> flushed st1 v (Some (r, st'))).
  { intros r st' Hp Hlog Hw' Ev Ew. exists r, st'. split; [reflexivity|]. split_and!; auto. right. split; [exact Hq|]. split; [exact Hlog|]. eauto. }
  assert (Hw2 : well (add_post p st1)) by (eapply well_same; [exact Hw1|apply Hw1|reflexivity..]).
  destruct (wait_waits (fun _ => True) _ Hw2 I) as (r & st3 & E & [Hv3 Hp3 Hl3 Hw3' _] & Hw3 & _ & _).
  cbn [posts verify written post_quarantined add_post] in Hv3, Hp3, Hl3, Hw3'. rewrite Hq in Hl3.
  assert (Hsend : forall r', send_post w p st1 = Some (r', st3) -> exists r'', attempt (send_post w p) st1 = Some (r'', st3)).
  { intros r' Hr. unfold attempt. rewrite Hr. destruct r' as [|[]]; eauto. }
  destruct (Hsend (match r with Ok _ => if accepts_post w (clock st1) p then Ok tt else Err (Failed TClient) | Err e => Err e end)) as [r2 Hr2].
  { unfold send_post, mbind, op_bind, now, modify. rewrite E. destruct r as [[]|]; [destruct (accepts_post _ _ _)|]; reflexivity. }
  unfold mbind at 1, op_bind. rewrite Hr2. destruct r2 as [r2|e]; [|by apply Hdone].
  destruct (admitted_waits SubmitVerdict (fun _ => True) st3 Hw3 I) as (r4 & st4 & E4 & [Hv4 Hp4 Hl4 Hw4' _] & Hw4 & _ & _).
  unfold mbind at 1, op_bind. rewrite E4. destruct r4 as [[]|e]; [|apply Hdone; [congruence|congruence|exact Hw4|congruence..]].
  destruct r2 as [[]|e]; cbn; apply Hdone; congruence || exact Hw4.
Qed.

Lemma flush_cases st v : well st -> verify st = Some v -> flushed st v (flush_verify_session w scope st).
Proof.
  intros Hw Hv. unfold flush_verify_session.
  assert (Hgo : forall st1, waits st st1 -> forall o, flushed st1 v o -> flushed st v o)
    by (intros st1 Hs o; apply flushed_waits, Hs).
  assert (Hfail : forall e st1, waits st st1 -> well st1 -> flushed st v (Some (Err e, st1)))
    by (intros e st1 Hs Hw1; eapply Hgo; [exact Hs|by apply flushed_failed]).
  eapply waits_then; [apply admitted_waits|exact Hw|exact Hfail|]. intros _u st1 H1 Hw1 _.
  eapply waits_then; [apply verify_state_waits|exact Hw1| |].
  { intros e st2 H2. apply Hfail. by etransitivity. }
  intros _v st2 H2 Hw2 _. assert (H02 : waits st st2) by (by etransitivity).
  destruct (job_id scope) as [job|] eqn:Hjob; [|by apply Hfail].
  eapply waits_then; [apply lock_waits|exact Hw2| |].
  { intros e st3 H3. apply Hfail. by etransitivity. }
  intros _x st3 H3 Hw3 _. assert (H03 : waits st st3) by (by etransitivity).
  eapply waits_then; [apply verify_state_waits|exact Hw3| |].
  { intros e st4 H4. apply Hfail. by etransitivity. }
  intros inner st4 H4 Hw4 [Ev _]. assert (H04 : waits st st4) by (by etransitivity).
  assert (inner = v) as -> by (rewrite (wt_verify _ _ H04), Hv in Ev; congruence).
  destruct (verdict v) as [x|] eqn:Hx; [|by apply Hfail].
  eapply Hgo; [exact H04|]. by apply send_verdict.
Qed.

(** A verdict that may be posted for a finding: the one of a well-typed call,
    with a patch only when it confirms and only a checked one. *)
Definition verdict_checked (fid : Z) (v : Domain.Verdict) : Prop :=
  exists x p, v = merged x p /\ typed category (AVerdict x) /\
    forall p', p = Some p' -> is_confirmed (Some x) = true /\ patch_checked fid p'.

(** What a session reported: nothing was sent in quarantine. *)
Definition reported (e : SessionEnd) (st : Session) : Prop :=
  (length (post_quarantined st) = length (posts st) /\ Forall (eq false) (post_quarantined st)) /\
  exists findings verdicts, posts st = findings ++ verdicts /\ Forall finding_post findings /\
    match verdicts with
    | [] => e = Finished -> finding_of scope = None
    | [PostVerdict job v] =>
        job_id scope = Some job /\ (exists fid, finding_of scope = Some fid /\ verdict_checked fid v) /\
        forall r kind, r ∈ written st -> body r = ToolResult (VerdictLocked kind) false -> verdict_str v = kind
    | _ => False
    end.

Lemma run_session_reports reader st : well st -> posts st = [] -> post_quarantined st = [] ->
  exists e st', run_session blake3 to_hex category nfc w scope reader st = Some (e, st') /\ reported e st' /\
    (quarantined (security st) = true -> posts st' = [] /\ exists rs, written st' = written st ++ rs /\ quarantine_only rs).
Proof.
  intros Hw Hp0 Hlog0. unfold run_session.
  destruct (session_loop_goes_on (S (length (stream_bytes reader))) reader st Hw ltac:(lia)) as (e & st1 & -> & Hl & Hw1 & rs & Hr & Hq).
  destruct (lt_posts _ _ Hl) as (ps & Hps & Hall & Hnil & bs & Hlog & Hlen & Hbs).
  rewrite Hp0 in Hps. rewrite Hlog0 in Hlog. cbn in Hps, Hlog.
  assert (length (post_quarantined st1) = length (posts st1) /\ Forall (eq false) (post_quarantined st1)) as Hquiet
    by (rewrite Hlog, Hps; auto).
  assert (Hloop : (e = Finished -> finding_of scope = None) -> reported e st1 /\
    (quarantined (security st) = true -> posts st1 = [] /\ exists rs, written st1 = written st ++ rs /\ quarantine_only rs)).
  { intros He. split; [split; [exact Hquiet|]; exists ps, []; rewrite app_nil_r; auto|]. intros H. rewrite Hps, Hnil by exact H. eauto. }
  destruct e; try (eexists _, st1; split; [reflexivity|]; apply Hloop; discriminate).
  destruct (verify st1) as [v|] eqn:Hv.
  2: { eexists _, st1. split; [reflexivity|]. apply Hloop. intros _. pose proof Hw1 as (_ & H & _). by rewrite Hv in H. }
  destruct (flush_cases st1 v Hw1 Hv) as (r & st2 & -> & Hw2 & Ev & Ew & Hcase).
  assert (Hend : forall e, (e = Finished -> r = Ok tt) -> reported e st2 /\
    (quarantined (security st) = true -> posts st2 = [] /\ exists rs, written st2 = written st ++ rs /\ quarantine_only rs)).
  { intros e He. destruct Hcase as [(Hp & Hlog2 & Hne)|(Hq1 & Hlog2 & job & x & Hjob & Hx & Hp)].
    - split; [split; [by rewrite Hlog2, Hp|]; exists ps, []; rewrite app_nil_r, Hp; split_and!; auto; intros Hf; destruct (Hne (He Hf))|].
      intros H. rewrite Hp, Hps, Hnil, Ew by exact H. eauto.
    - split; [|intros H; apply (lt_quarantine _ _ Hl) in H; congruence].
      split; [rewrite Hlog2, Hp, !length_app; split; [cbn; lia|]; apply Forall_app; split; [apply Hquiet|by repeat constructor]|].
      exists ps, [PostVerdict job (merged x (patch v))]. rewrite Hp, Hps. split; [reflexivity|]. split; [exact Hall|].
      split; [exact Hjob|]. pose proof Hw1 as (_ & Hs & Hwr). rewrite Hv in Hs. destruct Hs as (Hf & Hvs & Hpt). split.
      + exists (finding v). split; [exact Hf|]. exists x, (patch v). split; [reflexivity|]. split; [by apply Hvs|].
        intros p' Hp'. destruct (Hpt p' Hp') as [Hc Hck]. rewrite Hx in Hc. auto.
      + intros r' kind Hr' Hb. rewrite Ew in Hr'. destruct (Hwr r' kind Hr' Hb) as (v' & x' & Ev' & Ex' & <-).
        rewrite Hv in Ev'. injection Ev' as <-. rewrite Hx in Ex'. injection Ex' as <-. by destruct x. }
  destruct r as [[]|[|[]]]; eexists _, st2; (split; [reflexivity|]); apply Hend; discriminate || auto.
Qed.

(** C9: Every session of the tool broker ends, on any stream, however it is cut
    and whatever the server, Git, the file system, the writer and the other
    sessions of the job do, as long as the checkout gains no files meanwhile.
    Every finding it posted is for its own job, passed the admission rules, has
    a path that resolved inside the checkout when it was checked, cites lines
    and quotes that the file opened under that path has, with the fingerprint of
    the reference, and has a proof of concept that Git accepted.  It posted at
    most one verdict, last, and only in a verification: the one its agent was
    told to be locked, with a patch only after a confirmation and only one that
    applies and leaves the report within its limit; a verification that ends as
    finished did post it.  Whatever was posted was sent while the job was not in
    quarantine, also when the session or another one puts it there midway; in a
    job that is quarantined from the start every answer is the refusal. *)
Theorem sessions_report_what_was_checked j reader : job_ok k ws j ->
  exists e st, run_stream_server blake3 to_hex category nfc w scope j reader = Some (e, st) /\
    reported e st /\ (quarantined j = true -> posts st = [] /\ quarantine_only (written st)).
Proof.
  intros Hj. unfold run_stream_server.
  assert (Hopen : forall v, match v with None => finding_of scope = None | Some v => finding_of scope = Some (finding v) /\ slots_ok v end ->
    exists e st, run_session blake3 to_hex category nfc w scope reader (open_session j v) = Some (e, st) /\
    reported e st /\ (quarantined j = true -> posts st = [] /\ quarantine_only (written st))).
  { intros v Hv. destruct (run_session_reports reader (open_session j v)) as (e & st & E & Hr & Hq); [|reflexivity..|].
    - split; [exact Hj|]. split; [exact Hv|]. cbn. intros r kind Hin. by apply not_elem_of_nil in Hin.
    - exists e, st. split; [exact E|]. split; [exact Hr|]. intros H. destruct (Hq H) as (Hp & rs & Hw & Hall).
      cbn in Hw. split; [exact Hp|]. by rewrite Hw. }
  destruct (finding_of scope) as [fid|] eqn:Hf.
  - destruct (job_id scope) as [job|] eqn:Hjob.
    + apply Hopen. split; [reflexivity|]. split; cbn; discriminate.
    + eexists _, _. split; [reflexivity|]. split; [split; [by repeat constructor|]; exists [], []; split_and!; auto; discriminate|]. intros _.
      split; [reflexivity|constructor].
  - apply Hopen. reflexivity.
Qed.
End Reports.

(** ** An instance: a verification whose agent confirms *)

Definition verdict_record : str :=
  lit "{" ++ q "jsonrpc" ++ lit ":" ++ q "2.0" ++ lit "," ++ q "id" ++ lit ":1," ++ q "method" ++ lit ":" ++
  q "tools/call" ++ lit "," ++ q "params" ++ lit ":{" ++ q "name" ++ lit ":" ++ q "submit_verdict" ++
  lit "," ++ q "arguments" ++ lit ":{" ++ q "verdict" ++ lit ":" ++ q "confirmed" ++ lit "," ++ q "notes" ++ lit ":" ++
  q "seen" ++ lit "}}}".

Definition verdict_reader : JsonReader := {|
  from_string t := Some (drop 1 (take (length t - 1) t));
  from_number _ := true;
  from_value t := Some (if str_eqb t (lit "1") then Json.Integer 1 else Json.Null);
  from_fields t := Some (if str_eqb t (lit "{") then {[lit "verdict" := q "confirmed"; lit "notes" := q "seen"]}
    else {[lit "name" := q "submit_verdict"; lit "arguments" := lit "{"]});
  from_envelope _ := Some {| raw_jsonrpc := q "2.0"; raw_id := Some (lit "1"); raw_method := q "tools/call";
                             raw_params := Some (lit "{}") |};
  envelope_content _ := true;
  rejected_params_envelope _ := true;
|}.

Definition quiet_world : World := {|
  others _ := []; search_findings _ _ _ := None; get_finding _ _ := None; accepts_post _ _ := true;
  git_apply _ _ := None; workdir := []; resolve _ _ := Absent; open_file _ _ := NoFile; writable _ := true |}.

Lemma sessions_report_what_was_checked_witness :
  let scope := {| repo_id := 1; job_id := Some 5; finding_of := Some 7 |} in
  exists st, run_stream_server (H := ascii_case) (H0 := verdict_reader) (fun bs => bs) (fun bs => bs) ascii_category (fun s => s)
      quiet_world scope (job_security [1; 2] []) [Bytes (as_bytes verdict_record); Bytes [10]] = Some (Finished, st) /\
    posts st = [PostVerdict 5 (VConfirmed (Some (lit "seen")) None)] /\
    reported (fun bs => bs) (fun bs => bs) (U := ascii_case) ascii_category quiet_world scope Finished st.
Proof.
  intros scope.
  destruct (@sessions_report_what_was_checked ascii_case ascii_case_laws (list Z) (fun bs => bs) (fun bs => bs)
              ascii_category (fun s => s) verdict_reader quiet_world scope (encode_seed [1; 2]) []
              ltac:(discriminate) ltac:(discriminate) (job_security [1; 2] []) [Bytes (as_bytes verdict_record); Bytes [10]])
    as (e & st & E & Hr & _).
  - repeat split.
  - assert (H : exists st', Some (e, st) = Some (Finished, st') /\
      posts st' = [PostVerdict 5 (VConfirmed (Some (lit "seen")) None)]).
    { rewrite <- E. eexists. split; [vm_compute; reflexivity|reflexivity]. }
    destruct H as (st' & H & Hp). injection H as -> ->. exists st'. auto.
Defined.
