(* ===== verification/RepoCache.v ===== *)
(** * The cache of Git repositories

    [loupe-worker/src/repo_cache.rs] and [validate_repo_components] of
    [loupe-core/src/repo.rs]: bare clones under one directory, by host, owner and
    repository; pins that hold off eviction; eviction of the least recently used
    clones; the cursor file of a clone.  The directory is a tree; what Git does
    to a clone, and whether the system removes a directory, are oracles. *)

From S2P Require Import Prelude JsonString Text Utf8 LlmFinding.
From Stdlib Require Import ZArith Lia.
From stdpp Require Import base sets list option numbers strings gmap sorting.
Local Open Scope Z_scope.

(** ** Keys *)

Record RepoKey := { host : str; owner : str; repo : str }.

#[export] Instance RepoKey_eq_dec : EqDecision RepoKey.
Proof. solve_decision. Defined.
#[export] Instance RepoKey_countable : Countable RepoKey.
Proof.
  refine (inj_countable' (fun k => (host k, owner k, repo k))
            (fun p => {| host := p.1.1; owner := p.1.2; repo := p.2 |}) _). by intros [].
Defined.

(** [rsplit_once('@')]: what follows the last at sign, or everything. *)
Fixpoint after_last_at (s : str) : str :=
  match s with
  | [] => []
  | c :: rest => if (c =? 64) && negb (bool_decide (64 ∈ rest)) then rest
                 else if bool_decide (64 ∈ rest) then after_last_at rest else s
  end.

(** One normal component, and none of the separators of any system. *)
Definition single_component (value : str) : bool :=
  match components value with [NormalName _] => true | _ => false end &&
  negb (existsb (fun c => (c =? 47) || (c =? 92) || (c =? 0)) value).

(** [validate_repo_components] *)
Definition validate_repo_components (h o r : str) : result TextError str :=
  let h := after_last_at h in
  if negb (single_component h) then Err (text_error (lit "repo_host") Path)
  else if negb (single_component o) then Err (text_error (lit "repo_owner") Path)
  else if negb (single_component r) then Err (text_error (lit "repo_name") Path)
  else Ok h.

(** [RepoKey::new] *)
Definition new_key (h o r : str) : result TextError RepoKey :=
  h ← validate_repo_components h o r; Ok {| host := h; owner := o; repo := r |}.

(** ** The directory *)

Inductive Node := File (content : list Z) | Dir (entries : list (str * Node)) | Link.

Fixpoint get (x : str) (es : list (str * Node)) : option Node :=
  match es with
  | [] => None
  | (y, n) :: es => if str_eqb y x then Some n else get x es
  end.
Fixpoint set_entry (x : str) (n : Node) (es : list (str * Node)) : list (str * Node) :=
  match es with
  | [] => [(x, n)]
  | (y, m) :: es => if str_eqb y x then (x, n) :: es else (y, m) :: set_entry x n es
  end.
Definition remove_entry (x : str) (es : list (str * Node)) : list (str * Node) :=
  List.filter (fun e => negb (str_eqb e.1 x)) es.

(** The sizes of the files below a node; links are not followed. *)
Fixpoint node_size (n : Node) : Z :=
  match n with
  | File content => Z.of_nat (length content)
  | Dir es => (fix sizes es := match es with [] => 0 | (_, n) :: es => node_size n + sizes es end) es
  | Link => 0
  end.

(** [dir_size]: nothing for what is no directory. *)
Definition dir_size (n : Node) : Z := match n with Dir _ => node_size n | _ => 0 end.

(** [symlink_metadata] *)
Inductive Stat := Found (n : Node) | NotFound | NotADirectory.
Fixpoint stat (t : Node) (p : list str) : Stat :=
  match p with
  | [] => Found t
  | x :: p =>
      match t with
      | Dir es => match get x es with Some n => stat n p | None => NotFound end
      | _ => NotADirectory
      end
  end.

(** [Path::exists] of a path without links *)
Definition exists_at (t : Node) (p : list str) : bool := match stat t p with Found _ => true | _ => false end.

(** Removing, and putting, what is at a path below the root. *)
Fixpoint remove_at (t : Node) (p : list str) : Node :=
  match p, t with
  | [x], Dir es => Dir (remove_entry x es)
  | x :: p, Dir es => match get x es with Some n => Dir (set_entry x (remove_at n p) es) | None => t end
  | _, _ => t
  end.
Fixpoint put (t : Node) (p : list str) (n : Node) : Node :=
  match p, t with
  | [], _ => n
  | x :: p, Dir es => Dir (set_entry x (put (default (Dir []) (get x es)) p n) es)
  | _, _ => t
  end.

(** ** The cache *)

Record Cache := {
  root : Node;
  max_cache_bytes : Z;
  access_log : gmap RepoKey Z;
  refcounts : gmap RepoKey Z;
}.
Definition set_root (t : Node) (c : Cache) : Cache :=
  {| root := t; max_cache_bytes := max_cache_bytes c; access_log := access_log c; refcounts := refcounts c |}.
Definition set_log (l : gmap RepoKey Z) (c : Cache) : Cache :=
  {| root := root c; max_cache_bytes := max_cache_bytes c; access_log := l; refcounts := refcounts c |}.
Definition set_refs (r : gmap RepoKey Z) (c : Cache) : Cache :=
  {| root := root c; max_cache_bytes := max_cache_bytes c; access_log := access_log c; refcounts := r |}.

(** [RepoCache::repo_path], below the cache directory *)
Definition repo_path (k : RepoKey) : list str := [host k; owner k; repo k ++ lit ".git"].

(** [reject_symlink] *)
Definition reject_symlink (t : Node) (p : list str) : result unit unit :=
  match stat t p with
  | Found Link => Err tt
  | Found _ | NotFound => Ok tt
  | NotADirectory => Err tt
  end.

(** [checked_repo_path] *)
Definition checked_repo_path (t : Node) (k : RepoKey) : result unit (list str) :=
  _ ← reject_symlink t [];
  _ ← reject_symlink t [host k];
  _ ← reject_symlink t [host k; owner k];
  _ ← reject_symlink t (repo_path k);
  Ok (repo_path k).

(** [cursor_path] *)
Definition CURSOR_FILENAME : str := lit ".loupe_cursor".
Definition cursor_path (t : Node) (k : RepoKey) : result unit (list str) :=
  p ← checked_repo_path t k;
  let p := p ++ [CURSOR_FILENAME] in
  _ ← reject_symlink t p;
  Ok p.

(** [pin]: the counters are 32 bits wide. *)
Definition pin (k : RepoKey) (c : Cache) : Cache :=
  set_refs (<[k := (default 0 (refcounts c !! k) + 1) mod (u32_max + 1)]> (refcounts c)) c.

(** The drop of a [PinGuard] *)
Definition unpin (k : RepoKey) (c : Cache) : Cache :=
  match refcounts c !! k with
  | None => c
  | Some n =>
      let n := saturating_sub_u32 n 1 in
      set_refs (if n =? 0 then delete k (refcounts c) else <[k := n]> (refcounts c)) c
  end.

Definition is_pinned (c : Cache) (k : RepoKey) : bool := 0 <? default 0 (refcounts c !! k).

(** [scan_existing], over the directory entries in the order they are read;
    [mtime] is the time of a repository's directory. *)
Definition is_dir (n : Node) : bool := match n with Dir _ => true | _ => false end.
Definition subdirs (n : Node) : list (str * Node) :=
  match n with Dir es => List.filter (fun e => is_dir e.2) es | _ => [] end.
Definition ends_with (s suffix : str) : bool := starts_with (reverse suffix) (reverse s).
Definition scanned_key (h o dirname : str) : option RepoKey :=
  if ends_with dirname (lit ".git") then
    match new_key h o (take (length dirname - 4) dirname) with
    | Ok k => if str_eqb (host k) h then Some k else None
    | Err _ => None
    end
  else None.
Definition scan_existing (mtime : RepoKey -> Z) (t : Node) : gmap RepoKey Z :=
  list_to_map (reverse (
    h ← subdirs t; o ← subdirs h.2; r ← subdirs o.2;
    match scanned_key h.1 o.1 r.1 with Some k => [(k, mtime k)] | None => [] end)).

(** ** Eviction *)

(** [sort_by_key] is stable. *)
Fixpoint insert_by_time (e : RepoKey * Z * Z) (l : list (RepoKey * Z * Z)) : list (RepoKey * Z * Z) :=
  match l with
  | [] => [e]
  | f :: l => if e.1.2 <=? f.1.2 then e :: f :: l else f :: insert_by_time e l
  end.
Definition sort_by_time (l : list (RepoKey * Z * Z)) : list (RepoKey * Z * Z) := foldr insert_by_time [] l.

(** The candidates, in the order in which the map is walked. *)
Fixpoint candidates (c : Cache) (walk : list (RepoKey * Z)) : result unit (list (RepoKey * Z * Z)) :=
  match walk with
  | [] => Ok []
  | (k, t) :: walk =>
      if is_pinned c k then candidates c walk
      else
        _ ← checked_repo_path (root c) k;
        rest ← candidates c walk;
        Ok (match stat (root c) (repo_path k) with
            | Found n => (k, t, dir_size n) :: rest
            | _ => rest
            end)
  end.

(** One removal: the oracle says what is left of the directory when it fails. *)
Definition evict_one (left : RepoKey -> option Node) (e : RepoKey * Z * Z) (c : Cache) (freed : Z)
    : result unit unit * Cache * Z :=
  let k := e.1.1 in
  match checked_repo_path (root c) k with
  | Err _ => (Err tt, c, freed)
  | Ok p =>
      match left k with
      | Some n => (Ok tt, set_root (put (root c) p n) c, freed)
      | None => (Ok tt, set_log (delete k (access_log c)) (set_root (remove_at (root c) p) c), freed + e.2)
      end
  end.

Fixpoint evict_loop (left : RepoKey -> option Node) (target : Z) (entries : list (RepoKey * Z * Z)) (c : Cache) (freed : Z)
    : result unit unit * Cache :=
  match entries with
  | [] => (Ok tt, c)
  | e :: entries =>
      if target <=? freed then (Ok tt, c)
      else
        match evict_one left e c freed with
        | (Err _, c, _) => (Err tt, c)
        | (Ok _, c, freed) => evict_loop left target entries c freed
        end
  end.

(** The pass of [evict_if_needed].  [walk] is the access log in the order of the hash
    map; no lock is held once the candidates are collected, and [meanwhile]
    is what other tasks do to the cache before the removals. *)
Definition evict_pass (walk : list (RepoKey * Z)) (left : RepoKey -> option Node) (meanwhile : Cache -> Cache) (c : Cache)
    : result unit unit * Cache :=
  let total := dir_size (root c) in
  if total <=? max_cache_bytes c then (Ok tt, c)
  else
    match candidates c walk with
    | Err _ => (Err tt, c)
    | Ok entries =>
        evict_loop left (Z.max 0 (total - max_cache_bytes c)) (sort_by_time entries) (meanwhile c) 0
    end.

(** [evict_if_needed] with nothing in between *)
Definition evict_if_needed (walk : list (RepoKey * Z)) (left : RepoKey -> option Node) (c : Cache)
    : result unit unit * Cache :=
  evict_pass walk left (fun c => c) c.

(** ** Refreshing a clone *)

(** What Git and the system do during one refresh. *)
Record Git := {
  operation_ok : bool;
  fetched : Node -> result Node Node;
  cloned : result (option Node) Node;
  parent_ok : bool;
  leftover : option Node;
  leftovers : RepoKey -> option Node;
  walk : list (RepoKey * Z);
  now : Z;
}.

(** [remove_dir_all] of the clone itself. *)
Definition remove_clone (g : Git) (p : list str) (c : Cache) : result unit unit * Cache :=
  match leftover g with
  | Some n => (Err tt, set_root (put (root c) p n) c)
  | None => (Ok tt, set_root (remove_at (root c) p) c)
  end.

(** [clone_bare] *)
Definition clone_bare (g : Git) (p : list str) (c : Cache) : result unit unit * Cache :=
  match cloned g with
  | Ok n => (Ok tt, set_root (put (root c) p n) c)
  | Err (Some n) => (Err tt, set_root (put (root c) p n) c)
  | Err None => (Err tt, c)
  end.

(** [create_dir_all] of the directory above a clone *)
Definition create_parent (p : list str) (t : Node) : Node :=
  let parent := take (length p - 1) p in
  match stat t parent with NotFound => put t parent (Dir []) | _ => t end.

Definition then_ (r : result unit unit * Cache) (f : Cache -> result unit unit * Cache) : result unit unit * Cache :=
  match r with (Ok _, c) => f c | (Err _, c) => (Err tt, c) end.

(** The blocking part of [refresh] before its result. *)
Definition update_clone (g : Git) (force : bool) (p : list str) (c : Cache) : result unit unit * Cache :=
  then_ (if force && exists_at (root c) p then remove_clone g p c else (Ok tt, c)) (fun c =>
  match stat (root c) p with
  | Found n =>
      match fetched g n with
      | Ok n => (Ok tt, set_root (put (root c) p n) c)
      | Err n => then_ (remove_clone g p (set_root (put (root c) p n) c)) (clone_bare g p)
      end
  | _ =>
      then_ (evict_if_needed (walk g) (leftovers g) c) (fun c =>
      if parent_ok g then clone_bare g p (set_root (create_parent p (root c)) c) else (Err tt, c))
  end).

(** [refresh]: on success the pin stays with the caller, otherwise it is dropped. *)
Definition refresh (g : Git) (force : bool) (k : RepoKey) (c : Cache) : result unit (list str) * Cache :=
  let c := pin k c in
  if negb (operation_ok g) then (Err tt, unpin k c)
  else
    match checked_repo_path (root c) k with
    | Err _ => (Err tt, unpin k c)
    | Ok p =>
        match update_clone g force p c with
        | (Err _, c) => (Err tt, unpin k c)
        | (Ok _, c) => (Ok p, set_log (<[k := now g]> (access_log c)) c)
        end
    end.

(** ** Cursors *)

Definition CURSOR_MAGIC : list Z := lit "LOUPE".
Definition CURSOR_VERSION : Z := 1.

(** [encode_cursor] *)
Definition encode_cursor (sha : str) : list Z := CURSOR_MAGIC ++ [CURSOR_VERSION; 10] ++ as_bytes (trim sha).

(** [cursor_text] *)
Definition cursor_text (bytes : list Z) : option str :=
  let header_len := (length CURSOR_MAGIC + 2)%nat in
  if (length bytes <? header_len)%nat then None
  else if negb (str_eqb (take (length CURSOR_MAGIC) bytes) CURSOR_MAGIC) then None
  else if negb (bool_decide (bytes !! length CURSOR_MAGIC = Some CURSOR_VERSION)) then None
  else if negb (bool_decide (bytes !! (length CURSOR_MAGIC + 1)%nat = Some 10)) then None
  else
    s ← from_utf8 (drop header_len bytes);
    let s := trim s in
    if str_is_empty s then None else Some s.

Definition RevisionText : TextPolicy := exact_text "revision" false.

Section Cursors.
Context (category : Z -> GeneralCategory) (nfc : str -> str).

(** [RepoCursorDecoder] *)
Definition decode_cursor (bytes : list Z) : option str :=
  s ← cursor_text bytes;
  match text category nfc RevisionText s with Ok s => Some s | Err _ => None end.

(** [read_cursor] *)
Definition read_cursor (t : Node) (k : RepoKey) : option str :=
  match cursor_path t k with
  | Err _ => None
  | Ok p => match stat t p with Found (File bytes) => decode_cursor bytes | _ => None end
  end.
End Cursors.

(** [write_cursor], when the system carries it out *)
Definition write_cursor (t : Node) (k : RepoKey) (sha : str) : result unit Node :=
  p ← cursor_path t k;
  match stat t (repo_path k), stat t p with
  | Found (Dir _), Found (Dir _) => Err tt
  | Found (Dir _), _ => Ok (put t p (File (encode_cursor sha)))
  | _, _ => Err tt
  end.
