(* ===== verification/RepoCacheTheorems.v ===== *)
(** * What the cache of Git repositories promises

    Names stay inside the cache, a refresh changes no repository but its own
    and those it may evict, eviction takes the least recently used unpinned
    clones and no more than needed, and cursors read back.  A pin taken while an
    eviction is under way comes too late. *)

From S2P Require Import Prelude JsonString Text Utf8 LlmFinding Fingerprint RepoCache.
From Stdlib Require Import ZArith Lia.
From stdpp Require Import base sets list option numbers strings gmap sorting.
Local Open Scope Z_scope.

(** ** Trees *)

Lemma get_set_entry x n es y : get y (set_entry x n es) = if str_eqb x y then Some n else get y es.
Proof.
  induction es as [|[z m] es IH]; cbn; [destruct (str_eqb x y); reflexivity|].
  destruct (str_eqb z x) eqn:E; bool_prop; cbn.
  - subst z. destruct (str_eqb x y); reflexivity.
  - rewrite IH. destruct (str_eqb z y) eqn:Ey; [|reflexivity]. bool_prop. subst z.
    destruct (str_eqb x y) eqn:Ex; [bool_prop; subst x; by rewrite (proj2 (str_eqb_eq y y)) in E|reflexivity].
Qed.

Lemma get_remove_entry x es y : get y (remove_entry x es) = if str_eqb x y then None else get y es.
Proof.
  unfold remove_entry. induction es as [|[z m] es IH]; cbn; [by destruct (str_eqb x y)|].
  destruct (str_eqb z x) eqn:E; cbn [negb]; cbn; [bool_prop; subst z|]; rewrite IH.
  - destruct (str_eqb x y) eqn:Ex; [reflexivity|]. reflexivity.
  - destruct (str_eqb z y) eqn:Ey; [|reflexivity]. bool_prop. subst z.
    destruct (str_eqb x y) eqn:Ex; [bool_prop; subst x; by rewrite (proj2 (str_eqb_eq y y)) in E|reflexivity].
Qed.

Lemma get_remove_entry_ne x es y : x <> y -> get y (remove_entry x es) = get y es.
Proof. intros Hne. rewrite get_remove_entry. destruct (str_eqb x y) eqn:E; bool_prop; [contradiction|reflexivity]. Qed.

(** Two paths of one length, of which one is not changed with the other. *)
Lemma stat_remove_other t p q : length p = length q -> p <> q -> stat (remove_at t p) q = stat t q.
Proof.
  revert t q. induction p as [|x p IH]; intros t [|y q] Hl Hne; try discriminate; [contradiction|].
  destruct t as [c|es|]; cbn [remove_at stat]; [by destruct p| |by destruct p]. injection Hl as Hl.
  destruct (decide (x = y)) as [<-|Hxy].
  - assert (Hpq : p <> q) by congruence. destruct p as [|x' p].
    { destruct q; [contradiction|discriminate]. }
    destruct (get x es) as [n|] eqn:Hg; [|cbn [stat]; by rewrite Hg].
    cbn [stat]. rewrite get_set_entry, (proj2 (str_eqb_eq x x) eq_refl). by apply IH.
  - destruct p as [|x' p]; [cbn [stat]; by rewrite get_remove_entry_ne|].
    destruct (get x es) as [n|] eqn:Hg; [|reflexivity]. cbn [stat]. rewrite get_set_entry.
    destruct (str_eqb x y) eqn:E; bool_prop; [contradiction|reflexivity].
Qed.

Lemma stat_put_other t p q n : length p = length q -> p <> q -> stat (put t p n) q = stat t q.
Proof.
  revert t q. induction p as [|x p IH]; intros t [|y q] Hl Hne; try discriminate; [contradiction|].
  injection Hl as Hl. destruct t as [c|es|]; cbn [put stat]; [reflexivity| |reflexivity].
  rewrite get_set_entry. destruct (str_eqb x y) eqn:E; bool_prop; [|reflexivity]. subst y.
  assert (Hpq : p <> q) by congruence. rewrite IH by assumption.
  destruct (get x es); cbn [default from_option id]; [reflexivity|]. destruct q; [|reflexivity].
  destruct p; [contradiction|discriminate].
Qed.

Lemma stat_put t p n m : stat t p = Found m -> stat (put t p n) p = Found n.
Proof.
  revert t. induction p as [|x p IH]; intros t; [reflexivity|]. destruct t as [c|es|]; cbn [stat put]; try discriminate.
  rewrite get_set_entry, (proj2 (str_eqb_eq x x) eq_refl). destruct (get x es) as [k|]; [apply IH|discriminate].
Qed.

(** The directories above a path may be missing, but nothing else is in the way. *)
Lemma stat_put_new t p n : stat t p <> NotADirectory -> stat (put t p n) p = Found n.
Proof.
  revert t. induction p as [|x p IH]; intros t; [reflexivity|]. destruct t as [c|es|]; cbn [stat put]; try congruence.
  rewrite get_set_entry, (proj2 (str_eqb_eq x x) eq_refl). intros H. apply IH.
  destruct (get x es); cbn; [exact H|]. destruct p; discriminate.
Qed.

Definition sizes (es : list (str * Node)) : Z := foldr (fun e s => node_size e.2 + s) 0 es.

Lemma size_dir es : node_size (Dir es) = sizes es.
Proof. induction es as [|[x n] es IH]; cbn in *; [reflexivity|]. by rewrite IH. Qed.

Lemma node_size_nonneg : forall n, 0 <= node_size n.
Proof.
  fix IH 1. intros [c|es|]; cbn; [lia| |lia]. induction es as [|[x n] es IHes]; [lia|]. pose proof (IH n). lia.
Qed.

Lemma sizes_filter_le f es : sizes (List.filter f es) <= sizes es.
Proof.
  induction es as [|[y m] es IH]; cbn; [lia|]. pose proof (node_size_nonneg m). unfold sizes in *.
  destruct (f (y, m)); cbn; lia.
Qed.

Lemma sizes_remove_entry x es n : get x es = Some n -> sizes (remove_entry x es) <= sizes es - node_size n.
Proof.
  unfold remove_entry. induction es as [|[y m] es IH]; cbn; [discriminate|]. pose proof (node_size_nonneg m).
  destruct (str_eqb y x); cbn [negb].
  - intros [= ->]. pose proof (sizes_filter_le (fun e => negb (str_eqb e.1 x)) es). unfold sizes in *. lia.
  - intros Hg. specialize (IH Hg). unfold sizes in *. cbn. lia.
Qed.

Lemma sizes_set_entry x es n m : get x es = Some n -> sizes (set_entry x m es) = sizes es - node_size n + node_size m.
Proof.
  induction es as [|[y k] es IH]; cbn; [discriminate|]. destruct (str_eqb y x).
  - intros [= ->]. cbn. fold (sizes es). lia.
  - intros H. cbn. fold (sizes es) (sizes (set_entry x m es)). rewrite (IH H). lia.
Qed.

Lemma size_remove t p n : p <> [] -> stat t p = Found n -> node_size (remove_at t p) <= node_size t - node_size n.
Proof.
  revert t. induction p as [|x p IH]; intros t Hp H; [contradiction|]. destruct t as [c|es|]; cbn [stat] in H; try discriminate.
  destruct (get x es) as [m|] eqn:Hg; [|discriminate]. cbn [remove_at]. destruct p as [|x' p].
  - cbn in H. injection H as ->. rewrite !size_dir. by apply sizes_remove_entry.
  - rewrite Hg, !size_dir, (sizes_set_entry _ _ _ _ Hg). pose proof (IH m ltac:(discriminate) H). lia.
Qed.

Lemma remove_dir es p : exists es', remove_at (Dir es) p = Dir es'.
Proof. destruct p as [|x [|y p]]; cbn; eauto. destruct (get x es); eauto. Qed.

(** ** Links *)

(** What is above or beside the removed path stays what it was. *)
Lemma stat_remove_shorter t p q : (length q <= length p)%nat -> q <> p ->
  stat (remove_at t p) q = stat t q \/
  exists es es', stat t q = Found (Dir es) /\ stat (remove_at t p) q = Found (Dir es').
Proof.
  revert t q. induction p as [|x p IH]; intros t q Hl Hne; [destruct q; [contradiction|cbn in Hl; lia]|].
  destruct t as [c|es|]; [left; by destruct p| |left; by destruct p].
  destruct q as [|y q].
  { right. destruct (remove_dir es (x :: p)) as [es' ->]. eauto. }
  cbn in Hl. destruct p as [|x' p]; cbn [remove_at stat].
  - destruct q; [|cbn in Hl; lia]. left. rewrite get_remove_entry_ne by congruence. reflexivity.
  - destruct (get x es) as [n|] eqn:Hg; [|left; reflexivity]. cbn [stat]. rewrite get_set_entry.
    destruct (str_eqb x y) eqn:E; bool_prop; [|left; reflexivity]. subst y. rewrite Hg.
    apply IH; [cbn in *; lia|congruence].
Qed.

Lemma stat_put_shorter t p q n m : (length q <= length p)%nat -> q <> p -> stat t p = Found m ->
  stat (put t p n) q = stat t q \/
  exists es es', stat t q = Found (Dir es) /\ stat (put t p n) q = Found (Dir es').
Proof.
  revert t q. induction p as [|x p IH]; intros t q Hl Hne Hs; [destruct q; [contradiction|cbn in Hl; lia]|].
  destruct t as [c|es|]; [left; reflexivity| |left; reflexivity]. cbn [put].
  destruct q as [|y q]; [right; cbn; eauto|]. cbn in Hl. cbn [stat] in *. rewrite get_set_entry.
  destruct (str_eqb x y) eqn:E; bool_prop; [|left; reflexivity]. subst y.
  destruct (get x es) as [m'|]; [|discriminate]. cbn [default from_option id]. apply IH; [lia|congruence|exact Hs].
Qed.

Lemma reject_put t p q n m : (length q <= length p)%nat -> q <> p -> stat t p = Found m ->
  reject_symlink (put t p n) q = reject_symlink t q.
Proof.
  intros Hl Hne Hf. unfold reject_symlink. destruct (stat_put_shorter t p q n m Hl Hne Hf) as [->|(es & es' & -> & ->)]; reflexivity.
Qed.

Lemma reject_remove t p q : (length q <= length p)%nat -> q <> p ->
  reject_symlink (remove_at t p) q = reject_symlink t q.
Proof.
  intros Hl Hne. unfold reject_symlink. destruct (stat_remove_shorter t p q Hl Hne) as [->|(es & es' & -> & ->)]; reflexivity.
Qed.

Lemma checked_Ok t k p : checked_repo_path t k = Ok p <->
  p = repo_path k /\ reject_symlink t [] = Ok tt /\ reject_symlink t [host k] = Ok tt /\
  reject_symlink t [host k; owner k] = Ok tt /\ reject_symlink t (repo_path k) = Ok tt.
Proof.
  unfold checked_repo_path. split.
  - intros ([] & H1 & ([] & H2 & ([] & H3 & ([] & H4 & [= <-])%result_bind_Ok)%result_bind_Ok)%result_bind_Ok)%result_bind_Ok. auto.
  - intros (-> & -> & H). cbn [mbind result_bind]. destruct H as (-> & H). cbn [mbind result_bind].
    destruct H as (-> & H). cbn [mbind result_bind]. rewrite H. reflexivity.
Qed.

Lemma repo_path_inj k k' : repo_path k = repo_path k' -> k = k'.
Proof. destruct k, k'. unfold repo_path. cbn. intros [= -> -> H%app_inv_tail]. congruence. Qed.

Lemma checked_remove t k k' : k <> k' ->
  checked_repo_path (remove_at t (repo_path k)) k' = checked_repo_path t k'.
Proof.
  intros Hne. unfold checked_repo_path.
  rewrite !reject_remove by (cbn; lia || discriminate || (intros H%repo_path_inj; congruence)). reflexivity.
Qed.

Lemma stat_remove_key t k k' : k <> k' -> stat (remove_at t (repo_path k)) (repo_path k') = stat t (repo_path k').
Proof. intros Hne. apply stat_remove_other; [reflexivity|]. intros H%repo_path_inj. congruence. Qed.

Lemma stat_put_key t k k' n : k <> k' -> stat (put t (repo_path k) n) (repo_path k') = stat t (repo_path k').
Proof. intros Hne. apply stat_put_other; [reflexivity|]. intros H%repo_path_inj. congruence. Qed.

Lemma stat_removed t p n : p <> [] -> stat t p = Found n -> stat (remove_at t p) p = NotFound.
Proof.
  revert t. induction p as [|x p IH]; intros t Hp H; [contradiction|]. destruct t as [c|es|]; cbn [stat] in H; try discriminate.
  destruct (get x es) as [m|] eqn:Hg; [|discriminate]. cbn [remove_at]. destruct p as [|x' p].
  - cbn [stat]. rewrite get_remove_entry. by rewrite (proj2 (str_eqb_eq x x)).
  - rewrite Hg. cbn [stat]. rewrite get_set_entry, (proj2 (str_eqb_eq x x) eq_refl). by apply IH.
Qed.

Lemma found_above t p q n : stat t (p ++ q) = Found n -> exists m, stat t p = Found m.
Proof.
  revert t. induction p as [|x p IH]; intros t H; [by exists t|]. destruct t as [c|es|]; cbn in *; try discriminate.
  destruct (get x es); [by apply IH|discriminate].
Qed.

Lemma checked_put t k k' n m : k <> k' -> stat t (repo_path k) = Found m ->
  checked_repo_path (put t (repo_path k) n) k' = checked_repo_path t k'.
Proof.
  intros Hne Hf. unfold checked_repo_path.
  rewrite !(reject_put t (repo_path k) _ n m) by (exact Hf || (cbn; lia) || discriminate || (intros H%repo_path_inj; congruence)).
  reflexivity.
Qed.

(** ** Eviction *)

Abbreviation entry := (RepoKey * Z * Z)%type.
Definition key_of (e : entry) : RepoKey := e.1.1.
Definition time_of (e : entry) : Z := e.1.2.

(** A repository that may be evicted, with its size. *)
Definition evictable (t : Node) (e : entry) : Prop :=
  checked_repo_path t (key_of e) = Ok (repo_path (key_of e)) /\
  exists n, stat t (repo_path (key_of e)) = Found n /\ e.2 = dir_size n.

(** What a removal frees. *)
Definition frees (left : RepoKey -> option Node) (e : entry) : Z := match left (key_of e) with None => e.2 | Some _ => 0 end.
Definition freed_by (left : RepoKey -> option Node) (es : list entry) : Z := foldr (fun e s => frees left e + s) 0 es.

Lemma insert_by_time_perm e l : insert_by_time e l ≡ₚ e :: l.
Proof.
  induction l as [|f l IH]; cbn; [reflexivity|]. destruct (_ <=? _); [reflexivity|]. rewrite IH. apply perm_swap.
Qed.

Lemma sort_by_time_perm l : sort_by_time l ≡ₚ l.
Proof. induction l as [|e l IH]; cbn; [reflexivity|]. by rewrite insert_by_time_perm, IH. Qed.

Definition by_time (a b : entry) : Prop := time_of a <= time_of b.

Lemma insert_by_time_sorted e l : StronglySorted by_time l -> StronglySorted by_time (insert_by_time e l).
Proof.
  induction 1 as [|f l Hs IH Hf]; cbn; [repeat constructor|]. destruct (e.1.2 <=? f.1.2) eqn:E; bool_prop.
  - constructor; [by constructor|]. constructor; [exact E|]. eapply Forall_impl; [exact Hf|].
    unfold by_time, time_of in *. cbn. lia.
  - constructor; [exact IH|]. rewrite insert_by_time_perm. constructor; [unfold by_time, time_of; lia|exact Hf].
Qed.

Lemma sort_by_time_sorted l : StronglySorted by_time (sort_by_time l).
Proof. induction l; cbn; [constructor|by apply insert_by_time_sorted]. Qed.

(** What an eviction of [done] leaves. *)
Record evicted (left : RepoKey -> option Node) (done : list entry) (c c' : Cache) : Prop := {
  ev_refs : refcounts c' = refcounts c;
  ev_max : max_cache_bytes c' = max_cache_bytes c;
  ev_gone : forall k, k ∈ key_of <$> done ->
    stat (root c') (repo_path k) = match left k with None => NotFound | Some n => Found n end /\
    access_log c' !! k = match left k with None => None | Some _ => access_log c !! k end;
  ev_other : forall k, k ∉ key_of <$> done ->
    stat (root c') (repo_path k) = stat (root c) (repo_path k) /\ access_log c' !! k = access_log c !! k;
  ev_size : (forall k, left k = None) -> node_size (root c') <= node_size (root c) - freed_by left done }.

Lemma evicted_nil left c : evicted left [] c c.
Proof. constructor; try done; [by intros k ?%elem_of_nil|]. intros _. cbn. lia. Qed.

Definition evict_state (left : RepoKey -> option Node) (e : entry) (c : Cache) : Cache :=
  match left (key_of e) with
  | Some n => set_root (put (root c) (repo_path (key_of e)) n) c
  | None => set_log (delete (key_of e) (access_log c)) (set_root (remove_at (root c) (repo_path (key_of e))) c)
  end.

Lemma evict_one_state left e c freed : evictable (root c) e ->
  evict_one left e c freed = (Ok tt, evict_state left e c, freed + frees left e).
Proof.
  intros [Hc _]. unfold evict_one, evict_state, frees, key_of in *. rewrite Hc.
  destruct (left e.1.1); [by rewrite Z.add_0_r|reflexivity].
Qed.

Lemma evictable_after left e f c : key_of e <> key_of f -> evictable (root c) e -> evictable (root c) f ->
  evictable (root (evict_state left e c)) f.
Proof.
  intros Hne (_ & n & Hn & _) (Hc & m & Hm & Hs). unfold evictable, evict_state.
  destruct (left (key_of e)) as [n'|]; cbn [root set_root set_log].
  - rewrite (checked_put _ _ _ _ n), stat_put_key by done. eauto.
  - rewrite checked_remove, stat_remove_key by done. eauto.
Qed.

Lemma dir_size_le n : dir_size n <= node_size n.
Proof. pose proof (node_size_nonneg n). destruct n; cbn [dir_size]; lia. Qed.

Lemma evicted_cons left e done c c' : key_of e ∉ key_of <$> done -> evictable (root c) e ->
  evicted left done (evict_state left e c) c' -> evicted left (e :: done) c c'.
Proof.
  intros Hni (_ & n & Hn & Hs) H. constructor.
  - rewrite (ev_refs _ _ _ _ H). unfold evict_state. by destruct (left _).
  - rewrite (ev_max _ _ _ _ H). unfold evict_state. by destruct (left _).
  - intros k Hk. rewrite fmap_cons, elem_of_cons in Hk. destruct (decide (k ∈ key_of <$> done)) as [Hd|Hd].
    + destruct (ev_gone _ _ _ _ H k Hd) as [-> ->]. assert (k <> key_of e) by congruence.
      split; [reflexivity|]. unfold evict_state. destruct (left k), (left (key_of e)); try reflexivity.
      cbn. by rewrite lookup_delete_ne by congruence.
    + destruct Hk as [->|]; [|done]. destruct (ev_other _ _ _ _ H _ Hd) as [-> ->]. unfold evict_state.
      destruct (left (key_of e)); cbn [root set_root set_log access_log]; [by erewrite stat_put|].
      rewrite lookup_delete_eq. by erewrite stat_removed.
  - intros k Hk. rewrite fmap_cons, elem_of_cons in Hk. apply Decidable.not_or in Hk as [Hne Hk].
    destruct (ev_other _ _ _ _ H _ Hk) as [-> ->]. unfold evict_state.
    destruct (left (key_of e)); cbn [root set_root set_log access_log].
    + by rewrite stat_put_key by congruence.
    + by rewrite stat_remove_key, lookup_delete_ne by congruence.
  - intros Hl. pose proof (ev_size _ _ _ _ H Hl) as Hz. unfold evict_state in Hz.
    rewrite Hl in Hz. cbn [root set_root set_log] in Hz.
    assert (freed_by left (e :: done) = e.2 + freed_by left done) as -> by (cbn; unfold frees; by rewrite Hl).
    pose proof (size_remove (root c) (repo_path (key_of e)) n ltac:(discriminate) Hn). pose proof (dir_size_le n). lia.
Qed.

Lemma evict_loop_spec left target es : forall c freed, NoDup (key_of <$> es) -> Forall (evictable (root c)) es ->
  exists done rest c', es = done ++ rest /\ evict_loop left target es c freed = (Ok tt, c') /\
    evicted left done c c' /\ (rest = [] \/ target <= freed + freed_by left done) /\
    (forall d1 e d2, done = d1 ++ e :: d2 -> freed + freed_by left d1 < target).
Proof.
  induction es as [|e es IH]; intros c freed Hnd Hev.
  - exists [], [], c. split_and!; try done; [apply evicted_nil|by left|by intros []].
  - cbn [evict_loop]. destruct (target <=? freed) eqn:E; bool_prop.
    { exists [], (e :: es), c. split_and!; try done; [apply evicted_nil|right; cbn; lia|by intros []]. }
    apply Forall_cons in Hev as [He Hev]. rewrite fmap_cons, NoDup_cons in Hnd. destruct Hnd as [Hni Hnd].
    rewrite (evict_one_state _ _ _ _ He).
    destruct (IH (evict_state left e c) (freed + frees left e) Hnd) as (done & rest & c' & -> & -> & Hd & Hr & Hm).
    { rewrite Forall_forall in Hev |- *. intros f Hf. apply evictable_after; [|done|by apply Hev].
      intros Hk. apply Hni. rewrite Hk. by apply list_elem_of_fmap_2. }
    exists (e :: done), rest, c'. split_and!; try done.
    + apply evicted_cons; [|done|done]. rewrite fmap_app in Hni. set_solver.
    + cbn. fold (freed_by left done). destruct Hr as [|Hr]; [by left|right; lia].
    + intros [|f d1] g d2 [= <- Hd2]; [cbn; lia|]. apply Hm in Hd2. cbn. fold (freed_by left d1). lia.
Qed.

(** The unpinned clones of the log. *)
Definition may_go (c : Cache) (walk : list (RepoKey * Z)) (e : entry) : Prop :=
  (key_of e, time_of e) ∈ walk /\ is_pinned c (key_of e) = false /\ evictable (root c) e.

Lemma candidates_Ok c walk es : candidates c walk = Ok es -> forall e, e ∈ es <-> may_go c walk e.
Proof.
  unfold may_go. revert es. induction walk as [|[k t] walk IH]; intros es; cbn [candidates].
  { intros [= <-] e. set_solver. }
  destruct (is_pinned c k) eqn:Hp.
  { intros H e. rewrite (IH _ H e), elem_of_cons. split; [naive_solver|]. intros ([[= <- <-]|] & ?); naive_solver congruence. }
  intros (p & [-> Hl]%checked_Ok & (rest & Hr & Hes)%result_bind_Ok)%result_bind_Ok [[k' t'] z].
  assert (Hc : checked_repo_path (root c) k = Ok (repo_path k)) by (by apply checked_Ok).
  specialize (IH _ Hr (k', t', z)). unfold evictable, key_of, time_of in *. cbn [fst snd] in *. rewrite elem_of_cons.
  destruct (stat (root c) (repo_path k)) as [n| |] eqn:Hs; injection Hes as <-; [rewrite elem_of_cons|..];
    rewrite IH; split.
  - intros [[= -> -> ->]|(? & ? & ?)]; [eauto 10|eauto 10].
  - intros ([[= -> ->]|?] & ? & ? & m & Hm & ->); [left; congruence|right; eauto 10].
  - intros (? & ? & ?). eauto 10.
  - intros ([[= -> ->]|?] & ? & ? & m & Hm & ->); [congruence|eauto 10].
  - intros (? & ? & ?). eauto 10.
  - intros ([[= -> ->]|?] & ? & ? & m & Hm & ->); [congruence|eauto 10].
Qed.

Lemma candidates_checked c walk es k t : candidates c walk = Ok es -> (k, t) ∈ walk -> is_pinned c k = false ->
  checked_repo_path (root c) k = Ok (repo_path k).
Proof.
  revert es. induction walk as [|[k' t'] walk IH]; intros es; cbn [candidates]; [by intros _ ?%elem_of_nil|].
  rewrite elem_of_cons. destruct (is_pinned c k') eqn:Hp; [intros ? [[= -> ->]|] ?; [congruence|by eapply IH]|].
  intros (p & Hc & (rest & Hr & _)%result_bind_Ok)%result_bind_Ok [[= -> ->]|] ?; [|by eapply IH].
  pose proof Hc as [-> _]%checked_Ok. exact Hc.
Qed.

Lemma candidates_nodup c walk es : NoDup walk.*1 -> candidates c walk = Ok es -> NoDup (key_of <$> es).
Proof.
  revert es. induction walk as [|[k t] walk IH]; intros es Hnd; cbn [candidates]; [intros [= <-]; constructor|].
  rewrite fmap_cons, NoDup_cons in Hnd. destruct Hnd as [Hni Hnd]. destruct (is_pinned c k); [by apply IH|].
  intros (p & _ & (rest & Hr & Hes)%result_bind_Ok)%result_bind_Ok. specialize (IH _ Hnd Hr).
  destruct (stat _ _); injection Hes as <-; [|exact IH..]. rewrite fmap_cons. constructor; [|exact IH].
  intros (e & He & Hin)%list_elem_of_fmap. apply (candidates_Ok _ _ _ Hr) in Hin as (Hw & _). apply Hni.
  cbn in He. rewrite He. by apply (list_elem_of_fmap_2 fst) in Hw.
Qed.

Lemma candidates_Err c walk u : candidates c walk = Err u ->
  exists k t, (k, t) ∈ walk /\ is_pinned c k = false /\ exists v, checked_repo_path (root c) k = Err v.
Proof.
  induction walk as [|[k t] walk IH]; cbn [candidates]; [discriminate|]. destruct (is_pinned c k) eqn:Hp.
  { intros H. destruct (IH H) as (k' & t' & ? & ?). exists k', t'. split; [by right|done]. }
  destruct (checked_repo_path (root c) k) as [p|v] eqn:Hc.
  2:{ intros _. exists k, t. split_and!; [by left|done|by exists v]. }
  cbn [mbind result_bind]. destruct (candidates c walk); [discriminate|]. intros [= ->].
  destruct (IH eq_refl) as (k' & t' & ? & ?). exists k', t'. split; [by right|done].
Qed.

(** What one eviction pass does, over the log [walk]. *)
Inductive eviction (left : RepoKey -> option Node) (c : Cache) (c' : Cache) : result unit unit -> Prop :=
| NothingToDo : dir_size (root c) <= max_cache_bytes c -> c' = c -> eviction left c c' (Ok tt)
| LinkInTheWay k t :
    c' = c -> access_log c !! k = Some t -> is_pinned c k = false -> checked_repo_path (root c) k = Err tt ->
    eviction left c c' (Err tt)
| Evicted done rest :
    max_cache_bytes c < dir_size (root c) ->
    (forall e, e ∈ done ++ rest <-> access_log c !! key_of e = Some (time_of e) /\
       is_pinned c (key_of e) = false /\ evictable (root c) e) ->
    (forall k t, access_log c !! k = Some t -> is_pinned c k = false -> checked_repo_path (root c) k = Ok (repo_path k)) ->
    NoDup (key_of <$> done ++ rest) -> StronglySorted by_time (done ++ rest) ->
    evicted left done c c' ->
    (forall d1 e d2, done = d1 ++ e :: d2 -> freed_by left d1 < dir_size (root c) - max_cache_bytes c) ->
    rest = [] \/ dir_size (root c) - max_cache_bytes c <= freed_by left done ->
    eviction left c c' (Ok tt).

Lemma evict_if_needed_spec walk left c : walk ≡ₚ map_to_list (access_log c) ->
  eviction left c (evict_if_needed walk left c).2 (evict_if_needed walk left c).1.
Proof.
  intros Hw. assert (Hin : forall k t, (k, t) ∈ walk <-> access_log c !! k = Some t).
  { intros k t. by rewrite Hw, elem_of_map_to_list. }
  unfold evict_if_needed, evict_pass. destruct (_ <=? _) eqn:E; bool_prop; [by apply NothingToDo|].
  destruct (candidates c walk) as [es|u] eqn:Hc.
  2:{ apply candidates_Err in Hc as (k & t & Hk & Hp & [] & Hv). eapply LinkInTheWay; try done. by apply Hin. }
  assert (Hnd : NoDup (key_of <$> sort_by_time es)).
  { rewrite sort_by_time_perm. apply (candidates_nodup c walk); [|exact Hc]. rewrite Hw. apply NoDup_fst_map_to_list. }
  pose proof (candidates_Ok _ _ _ Hc) as Hes. pose proof (sort_by_time_sorted es) as Hst.
  assert (Hev : Forall (evictable (root c)) (sort_by_time es)).
  { rewrite Forall_forall. intros e He. rewrite sort_by_time_perm in He. by apply Hes in He as (_ & _ & ?). }
  destruct (evict_loop_spec left (Z.max 0 (dir_size (root c) - max_cache_bytes c)) _ c 0 Hnd Hev)
    as (done & rest & c' & Heq & -> & Hd & Hr & Hm).
  rewrite Heq in Hnd, Hst. cbn [fst snd]. eapply (Evicted _ _ _ done rest); try done.
  - intros e. rewrite <- Heq, sort_by_time_perm, Hes. unfold may_go. by rewrite Hin.
  - intros k t Hk Hp. apply (candidates_checked _ _ _ _ t Hc); [by apply Hin|done].
  - intros d1 e d2 H. specialize (Hm _ _ _ H). lia.
  - destruct Hr; [by left|right; lia].
Qed.

(** A repository the cache holds as before. *)
Definition untouched (c c' : Cache) (k : RepoKey) : Prop :=
  stat (root c') (repo_path k) = stat (root c) (repo_path k) /\ access_log c' !! k = access_log c !! k.

Lemma untouched_trans c1 c2 c3 k : untouched c1 c2 k -> untouched c2 c3 k -> untouched c1 c3 k.
Proof. unfold untouched. intros [? ?] [? ?]. split; congruence. Qed.

(** Eviction leaves what is pinned, and what is not logged. *)
Lemma eviction_spares left c c' r k : eviction left c c' r ->
  is_pinned c k = true \/ access_log c !! k = None -> untouched c c' k.
Proof.
  intros [_ ->|? ? -> _ _ _|gone rest _ Hc _ _ _ Hev _ _] Hk; [done..|]. apply (ev_other _ _ _ _ Hev).
  intros (e & -> & He)%list_elem_of_fmap. destruct (proj1 (Hc e)) as (Hl & Hp & _); [rewrite elem_of_app; by left|].
  destruct Hk; congruence.
Qed.

Lemma eviction_refs left c c' r : eviction left c c' r -> refcounts c' = refcounts c /\ max_cache_bytes c' = max_cache_bytes c.
Proof. intros [_ ->|? ? -> _ _ _|gone rest _ _ _ _ _ Hev _ _]; [done..|]. split; [apply (ev_refs _ _ _ _ Hev)|apply (ev_max _ _ _ _ Hev)]. Qed.

(** When every removal succeeds, the cache is in its bounds or holds no clone
    that could go. *)
Lemma eviction_enough left c c' : 0 <= max_cache_bytes c -> eviction left c c' (Ok tt) -> (forall k, left k = None) ->
  dir_size (root c') <= max_cache_bytes c \/
  forall k t n, access_log c' !! k = Some t -> is_pinned c k = false -> stat (root c') (repo_path k) <> Found n.
Proof.
  intros Hm H Hl. inversion H as [Hd ->| |gone rest Hb Hc Hck _ _ Hev _ Hr]; subst; [by left|]. destruct Hr as [->|Hr].
  - right. intros k t n Hlog Hp Hs. rewrite app_nil_r in Hc. destruct (decide (k ∈ key_of <$> gone)) as [Hk|Hk].
    + destruct (ev_gone _ _ _ _ Hev k Hk) as [_ H2]. rewrite Hl in H2. congruence.
    + destruct (ev_other _ _ _ _ Hev k Hk) as [H1 H2]. rewrite H1 in Hs. rewrite H2 in Hlog. apply Hk.
      change k with (key_of (k, t, dir_size n)). apply list_elem_of_fmap_2, Hc. cbn [key_of time_of fst snd].
      split_and!; try done. split; [by eapply Hck|eauto].
  - left. pose proof (ev_size _ _ _ _ Hev Hl). pose proof (dir_size_le (root c')).
    destruct (root c) as [|es|]; cbn [dir_size] in *; lia.
Qed.

(** C28: an eviction pass changes nothing when the cache is within its bound, and
    nothing when a link stands in the path of an unpinned clone.  Otherwise it
    goes through the unpinned clones in the order of their last use, and removes
    clones of that order, each only while too little has been freed, until
    enough has been freed or none is left; what is pinned stays, and the log loses
    exactly what was removed.  When the system removes what it is told to, the
    cache ends within its bound or has nothing left to give up. *)
Theorem eviction_is_least_recently_used walk left c :
  walk ≡ₚ map_to_list (access_log c) -> 0 <= max_cache_bytes c ->
  let (r, c') := evict_if_needed walk left c in
  eviction left c c' r /\
  (forall k, is_pinned c k = true -> untouched c c' k) /\
  (r = Ok tt -> (forall k, left k = None) ->
   dir_size (root c') <= max_cache_bytes c \/
   forall k t n, access_log c' !! k = Some t -> is_pinned c k = false -> stat (root c') (repo_path k) <> Found n).
Proof.
  intros Hw Hm. pose proof (evict_if_needed_spec walk left c Hw) as H.
  destruct (evict_if_needed walk left c) as [r c']. cbn [fst snd] in H. split_and!; [done| |].
  - intros k Hk. eapply eviction_spares; eauto.
  - intros -> Hl. by eapply eviction_enough.
Qed.

(** ** Refreshing *)

(** Making a missing directory changes nothing below it. *)
Lemma stat_put_empty t p q : stat t p = NotFound -> (length p < length q)%nat -> stat (put t p (Dir [])) q = stat t q.
Proof.
  revert t q. induction p as [|x p IH]; intros t q Hs Hl; [discriminate|]. destruct q as [|y q]; [cbn in Hl; lia|].
  destruct t as [c|es|]; cbn [stat put] in *; try discriminate. rewrite get_set_entry.
  destruct (str_eqb x y) eqn:E; bool_prop; [|reflexivity]. subst y. cbn in Hl.
  destruct (get x es) as [n|]; cbn [default from_option id]; [apply IH; [exact Hs|lia]|].
  destruct p as [|x' p]; [destruct q; [cbn in Hl; lia|reflexivity]|]. rewrite IH; [|reflexivity|lia].
  destruct q; [cbn in Hl; lia|reflexivity].
Qed.

Lemma stat_create_parent t k k' : stat (create_parent (repo_path k) t) (repo_path k') = stat t (repo_path k').
Proof.
  unfold create_parent. destruct (stat t _) eqn:Hs; try reflexivity. by apply stat_put_empty; [|cbn; lia].
Qed.

(** What a step of a refresh of [k] keeps. *)
Definition keeps (k : RepoKey) (c c' : Cache) : Prop :=
  refcounts c' = refcounts c /\
  forall k', k' <> k -> is_pinned c k' = true \/ access_log c !! k' = None -> untouched c c' k'.

Lemma keeps_refl k c : keeps k c c.
Proof. done. Qed.

Lemma keeps_trans k c1 c2 c3 : keeps k c1 c2 -> keeps k c2 c3 -> keeps k c1 c3.
Proof.
  intros [R1 H1] [R2 H2]. split; [congruence|]. intros k' Hne Hk. pose proof (H1 k' Hne Hk) as Hu.
  eapply untouched_trans; [exact Hu|]. apply H2; [done|]. destruct Hu as [_ ->]. unfold is_pinned in *. by rewrite R1.
Qed.

Lemma keeps_put k c n : keeps k c (set_root (put (root c) (repo_path k) n) c).
Proof. split; [done|]. intros k' Hne _. split; [|done]. by apply stat_put_key. Qed.

Lemma keeps_remove k c : keeps k c (set_root (remove_at (root c) (repo_path k)) c).
Proof. split; [done|]. intros k' Hne _. split; [|done]. by apply stat_remove_key. Qed.

Lemma keeps_parent k c : keeps k c (set_root (create_parent (repo_path k) (root c)) c).
Proof. split; [done|]. intros k' _ _. split; [|done]. apply stat_create_parent. Qed.

Lemma remove_clone_spec g k c r c' : remove_clone g (repo_path k) c = (r, c') ->
  keeps k c c' /\ access_log c' = access_log c /\ (r = Ok tt -> c' = set_root (remove_at (root c) (repo_path k)) c).
Proof.
  unfold remove_clone. destruct (leftover g); intros [<- <-]%pair_equal_spec; (split_and!; [|done|done]).
  - apply keeps_put.
  - apply keeps_remove.
Qed.

Lemma clone_bare_spec g k c r c' : stat (root c) (repo_path k) <> NotADirectory ->
  clone_bare g (repo_path k) c = (r, c') ->
  keeps k c c' /\ (r = Ok tt -> exists n, cloned g = Ok n /\ stat (root c') (repo_path k) = Found n).
Proof.
  intros Hs. unfold clone_bare. destruct (cloned g) as [n|[n|]]; intros [<- <-]%pair_equal_spec; (split; [|try done]);
    try apply keeps_put; [|apply keeps_refl].
  intros _. exists n. split; [done|]. by apply stat_put_new.
Qed.

Lemma then_inv r f r' c' : then_ r f = (r', c') ->
  (exists c, r = (Ok tt, c) /\ f c = (r', c')) \/ (r' = Err tt /\ exists u, r = (Err u, c')).
Proof. destruct r as [[[]|u] c]; cbn; [left; eauto|]. intros [= <- <-]. right; eauto. Qed.

Definition was_cloned (g : Git) (k : RepoKey) (c' : Cache) : Prop :=
  exists n, cloned g = Ok n /\ stat (root c') (repo_path k) = Found n.

(** A clone where there is none. *)
Lemma clone_new_spec g k c r c' : walk g ≡ₚ map_to_list (access_log c) -> is_pinned c k = true ->
  stat (root c) (repo_path k) <> NotADirectory ->
  then_ (evict_if_needed (walk g) (leftovers g) c) (fun c =>
    if parent_ok g then clone_bare g (repo_path k) (set_root (create_parent (repo_path k) (root c)) c)
    else (Err tt, c)) = (r, c') ->
  keeps k c c' /\ (r = Ok tt -> was_cloned g k c').
Proof.
  intros Hw Hp Hs H. pose proof (evict_if_needed_spec (walk g) (leftovers g) c Hw) as Hev.
  assert (Hk : keeps k c (evict_if_needed (walk g) (leftovers g) c).2).
  { split; [by eapply eviction_refs|]. intros k' _ Hk'. by eapply eviction_spares. }
  pose proof (eviction_spares _ _ _ _ k Hev (or_introl Hp)) as [Hsame _].
  apply then_inv in H as [(c1 & E & H)|(-> & u & E)]; rewrite E in Hk, Hsame; cbn [snd] in Hk, Hsame; [|done].
  destruct (parent_ok g); [|injection H as <- <-; by split].
  apply clone_bare_spec in H as [Hc Hr]; [|cbn [root set_root]; by rewrite stat_create_parent, Hsame].
  split; [|exact Hr]. eapply keeps_trans; [exact Hk|]. eapply keeps_trans; [apply keeps_parent|exact Hc].
Qed.

(** Fetching what is there; a clone that cannot be brought up to date is replaced. *)
Lemma update_clone_spec g force k c r c' : walk g ≡ₚ map_to_list (access_log c) -> is_pinned c k = true ->
  checked_repo_path (root c) k = Ok (repo_path k) ->
  update_clone g force (repo_path k) c = (r, c') ->
  keeps k c c' /\
  (r = Ok tt -> was_cloned g k c' \/
     force = false /\ exists old n, stat (root c) (repo_path k) = Found old /\ fetched g old = Ok n /\
       stat (root c') (repo_path k) = Found n).
Proof.
  intros Hw Hp Hck. unfold update_clone.
  assert (Hnd : stat (root c) (repo_path k) <> NotADirectory).
  { apply checked_Ok in Hck as (_ & _ & _ & _ & H). unfold reject_symlink in H. by destruct (stat _ _). }
  intros [(c1 & E & H)|(-> & u & E)]%then_inv; cycle 1.
  { destruct (force && _); [|discriminate]. apply remove_clone_spec in E as (? & _). done. }
  assert (H1 : keeps k c c1 /\ access_log c1 = access_log c /\ (force = false -> c1 = c) /\
    stat (root c1) (repo_path k) <> NotADirectory /\ (force = true -> stat (root c1) (repo_path k) = NotFound)).
  { destruct force; cbn [andb] in E; [|injection E as <-; by split_and!]. unfold exists_at in E.
    destruct (stat (root c) (repo_path k)) as [n| |] eqn:Hs; [|injection E as <-; by split_and!; rewrite ?Hs|done].
    apply remove_clone_spec in E as (? & ? & E). specialize (E eq_refl). subst c1.
    split_and!; try done; cbn [root set_root]; by rewrite (stat_removed _ _ n). }
  destruct H1 as (K1 & L1 & F1 & N1 & G1). destruct (stat (root c1) (repo_path k)) as [n| |] eqn:Hs1; [| |done].
  - destruct force; [by specialize (G1 eq_refl)|]. rewrite F1 in * by done. clear F1 G1.
    destruct (fetched g n) as [m|m] eqn:Hf.
    + apply pair_equal_spec in H as [<- <-]. split; [apply keeps_put|]. intros _. right. split; [done|]. exists n, m. split_and!; try done.
      by eapply stat_put.
    + apply then_inv in H as [(c2 & E2 & H)|(-> & u & E2)]; apply remove_clone_spec in E2 as (K2 & _ & R2).
      * specialize (R2 eq_refl). apply clone_bare_spec in H as [K3 H].
        { split; [|by left; apply H]. eapply keeps_trans; [apply keeps_put|]. eapply keeps_trans; eauto. }
        subst c2. cbn [root set_root]. erewrite stat_removed; [done..|]. by eapply stat_put.
      * split; [|done]. eapply keeps_trans; [apply keeps_put|exact K2].
  - apply clone_new_spec in H as [K2 H]; [| |unfold is_pinned; by rewrite (proj1 K1)|by rewrite Hs1].
    + split; [by eapply keeps_trans|]. intros Hr. left. by apply H.
    + by rewrite L1.
Qed.

(** Dropping a pin just taken. *)
Lemma unpin_pin k c c' : 0 < default 1 (refcounts c !! k) < u32_max -> refcounts c' = refcounts (pin k c) ->
  refcounts (unpin k c') = refcounts c.
Proof.
  intros Hn Hr. unfold unpin. rewrite Hr. unfold pin. cbn [refcounts set_refs]. rewrite lookup_insert_eq.
  destruct (refcounts c !! k) as [n|] eqn:Hk; cbn [default from_option Datatypes.id] in *; unfold saturating_sub_u32.
  - rewrite Z.mod_small, Z.add_simpl_r, Z.max_r by lia. rewrite (proj2 (Z.eqb_neq n 0)) by lia. cbn.
    by rewrite insert_insert_eq, insert_id.
  - cbn. rewrite delete_insert_eq, delete_id; done.
Qed.

Lemma pin_pins k c : 0 < default 1 (refcounts c !! k) < u32_max -> is_pinned (pin k c) k = true.
Proof.
  intros Hn. unfold is_pinned, pin. cbn [refcounts set_refs]. rewrite lookup_insert_eq. cbn [default from_option Datatypes.id].
  apply Z.ltb_lt. destruct (refcounts c !! k); cbn [default from_option Datatypes.id] in *; rewrite Z.mod_small; lia.
Qed.

Lemma pin_other k k' c : is_pinned c k' = true -> k' <> k -> is_pinned (pin k c) k' = true.
Proof. intros Hp Hne. unfold is_pinned, pin. cbn [refcounts set_refs]. by rewrite lookup_insert_ne by congruence. Qed.

(** C32: a refresh leaves every other pinned repository, and every directory the
    log does not know, as they were.  When it succeeds its clone is at its path,
    just cloned or fetched from what was there, freshly logged and pinned once
    more; a forced one is never fetched.  When it fails the pins are what they were. *)
Theorem refresh_keeps_what_is_in_use g force k c :
  walk g ≡ₚ map_to_list (access_log c) -> 0 < default 1 (refcounts c !! k) < u32_max ->
  let (r, c') := refresh g force k c in
  (forall k', k' <> k -> is_pinned c k' = true \/ access_log c !! k' = None -> untouched c c' k') /\
  match r with
  | Ok p =>
      p = repo_path k /\ access_log c' !! k = Some (now g) /\
      refcounts c' = refcounts (pin k c) /\ is_pinned c' k = true /\
      (was_cloned g k c' \/
       force = false /\ exists old n, stat (root c) p = Found old /\ fetched g old = Ok n /\ stat (root c') p = Found n)
  | Err _ => refcounts c' = refcounts c
  end.
Proof.
  intros Hw Hn. pose proof (pin_pins k c Hn) as Hp. unfold refresh. destruct (operation_ok g); cbn [negb].
  2:{ split; [|by eapply unpin_pin]. intros k' _ _. unfold unpin. by destruct (refcounts (pin k c) !! k). }
  destruct (checked_repo_path (root (pin k c)) k) as [p|u] eqn:Hc.
  2:{ split; [|by eapply unpin_pin]. intros k' _ _. unfold unpin. by destruct (refcounts (pin k c) !! k). }
  pose proof Hc as [-> _]%checked_Ok. destruct (update_clone g force (repo_path k) (pin k c)) as [r c1] eqn:Hu.
  apply update_clone_spec in Hu as ([Hr K] & H); [|done..].
  assert (K' : forall k', k' <> k -> is_pinned c k' = true \/ access_log c !! k' = None -> untouched c c1 k').
  { intros k' Hne Hk. apply (K k' Hne). destruct Hk; [left; by apply pin_other|by right]. }
  destruct r as [[]|[]].
  - split; [|split_and!; try done].
    + intros k' Hne Hk. destruct (K' k' Hne Hk) as [H1 H2]. split; [exact H1|]. cbn. by rewrite lookup_insert_ne by congruence.
    + cbn. by rewrite lookup_insert_eq.
    + unfold is_pinned in *. cbn [set_log refcounts]. by rewrite Hr.
    + apply H. done.
  - split; [|by eapply unpin_pin]. intros k' Hne Hk. destruct (K' k' Hne Hk).
    unfold unpin. by destruct (refcounts c1 !! k).
Qed.

(** ** Names *)

(** A name that stays in its directory. *)
Definition proper (s : str) : Prop := s ∉ [[]; lit "."; lit ".."] /\ 47 ∉ s /\ 92 ∉ s /\ 0 ∉ s.

Lemma split_on_single sep s : sep ∉ s -> split_on sep s = [s].
Proof.
  induction s as [|c s IH]; [reflexivity|]. rewrite not_elem_of_cons. intros [Hc Hs]. cbn [split_on].
  rewrite (proj2 (Z.eqb_neq c sep)) by congruence. by rewrite IH.
Qed.

Lemma single_component_true s : single_component s = true <-> proper s.
Proof.
  unfold single_component, proper. rewrite andb_true_iff, negb_true_iff.
  assert (existsb (fun c => (c =? 47) || (c =? 92) || (c =? 0)) s = false <-> 47 ∉ s /\ 92 ∉ s /\ 0 ∉ s) as ->.
  { induction s as [|c s IH]; cbn [existsb]; [set_solver|]. rewrite !orb_false_iff, IH, !Z.eqb_neq, !not_elem_of_cons. naive_solver. }
  enough (47 ∉ s -> (match components s with [NormalName _] => true | _ => false end = true <-> s ∉ [[]; lit "."; lit ".."])) by tauto.
  intros Hs. unfold components. rewrite split_on_single by exact Hs. destruct s as [|c s]; [cbn; split; [done|set_solver]|].
  assert (is_absolute (c :: s) = false) as ->.
  { unfold is_absolute. apply not_true_iff_false. rewrite starts_with_true. intros [b [= -> ->]]. by apply Hs; left. }
  cbn [app negb fmap list_fmap concat]. unfold component. cbn [str_is_empty]. rewrite app_nil_r, !not_elem_of_cons.
  destruct (str_eqb (c :: s) (lit ".")) eqn:E1; bool_prop; [rewrite E1; by split; [|intros (_ & [] & _)]|].
  destruct (str_eqb (c :: s) (lit "..")) eqn:E2; bool_prop; [rewrite E2; by split; [|intros (_ & _ & [] & _)]|].
  split; [|done]. intros _. split_and!; [done|..|set_solver].
  - intros H. rewrite H in E1. by rewrite (proj2 (str_eqb_eq _ _)) in E1.
  - intros H. rewrite H in E2. by rewrite (proj2 (str_eqb_eq _ _)) in E2.
Qed.

Lemma after_last_at_spec s :
  64 ∉ after_last_at s /\ (after_last_at s = s \/ exists user, s = user ++ lit "@" ++ after_last_at s).
Proof.
  induction s as [|c s [IH1 IH2]]; [split; [apply not_elem_of_nil|by left]|]. cbn [after_last_at].
  destruct (bool_decide (64 ∈ s)) eqn:E; cbn [negb]; rewrite ?andb_false_r, ?andb_true_r; bool_prop.
  - split; [done|]. right. destruct IH2 as [H|[user H]]; [by rewrite H in IH1|].
    exists (c :: user). by rewrite H at 1.
  - destruct (c =? 64) eqn:Ec; bool_prop; [subst; split; [done|right; by exists []]|].
    split; [|by left]. rewrite not_elem_of_cons. split; [congruence|done].
Qed.

Lemma after_last_at_fix s : 64 ∉ s -> after_last_at s = s.
Proof. intros H. destruct (after_last_at_spec s) as [_ [|[user E]]]; [done|]. rewrite E in H. set_solver. Qed.

(** The keys of the cache. *)
Definition proper_key (k : RepoKey) : Prop := proper (host k) /\ 64 ∉ host k /\ proper (owner k) /\ proper (repo k).

Lemma validate_repo_components_Ok h o r v : validate_repo_components h o r = Ok v <->
  v = after_last_at h /\ proper v /\ proper o /\ proper r.
Proof.
  unfold validate_repo_components. rewrite <- !single_component_true.
  destruct (single_component (after_last_at h)) eqn:Eh; cbn [negb]; [|split; [done|intros (-> & ? & _); congruence]].
  destruct (single_component o); cbn [negb]; [|split; [done|intros (_ & _ & ? & _); congruence]].
  destruct (single_component r); cbn [negb]; [|split; [done|intros (_ & _ & _ & ?); congruence]].
  split; [intros [= <-]; done|]. by intros (-> & _).
Qed.

Lemma new_key_Ok h o r k : new_key h o r = Ok k <->
  host k = after_last_at h /\ owner k = o /\ repo k = r /\ proper_key k.
Proof.
  unfold new_key, proper_key. rewrite result_bind_Ok. setoid_rewrite validate_repo_components_Ok. split.
  - intros (v & (-> & H) & [= <-]). cbn. pose proof (proj1 (after_last_at_spec h)). naive_solver.
  - intros (Hh & <- & <- & ? & _ & ? & ?). exists (host k). rewrite Hh at 1. split_and!; try done. by destruct k.
Qed.

Lemma scanned_key_Some h o d k : scanned_key h o d = Some k <-> [h; o; d] = repo_path k /\ proper_key k.
Proof.
  unfold scanned_key, ends_with, repo_path. split.
  - destruct (starts_with _ _) eqn:Es; [|done]. apply starts_with_true in Es as [b Hb].
    apply (f_equal reverse) in Hb. rewrite reverse_app, !reverse_involutive in Hb. subst d.
    rewrite length_app, Nat.add_sub, take_app_length. destruct (new_key _ _ _) eqn:Hk; [|done].
    destruct (str_eqb _ _) eqn:Eh; [|done]. intros [= ->]. apply str_eqb_eq in Eh.
    apply new_key_Ok in Hk as (_ & <- & <- & ?). rewrite Eh. done.
  - intros ([= -> -> ->] & Hk). rewrite (proj2 (starts_with_true _ _)).
    2:{ exists (reverse (repo k)). by rewrite reverse_app. }
    rewrite length_app, Nat.add_sub, take_app_length.
    rewrite (proj2 (new_key_Ok (host k) (owner k) (repo k) k)), (proj2 (str_eqb_eq _ _)); try done.
    rewrite after_last_at_fix; [done|apply Hk].
Qed.

(** ** A restart *)

(** The directories above the clones hold each name once. *)
Definition names_once (n : Node) : Prop := match n with Dir es => NoDup es.*1 | _ => True end.
Definition well_named (t : Node) : Prop :=
  names_once t /\ (forall h n, (h, n) ∈ subdirs t -> names_once n /\ forall o m, (o, m) ∈ subdirs n -> names_once m).

Lemma get_elem x n es : NoDup es.*1 -> get x es = Some n <-> (x, n) ∈ es.
Proof.
  induction es as [|[y m] es IH]; cbn [get]; [split; [done|by intros ?%elem_of_nil]|].
  rewrite fmap_cons, NoDup_cons, elem_of_cons. intros [Hni Hnd]. destruct (str_eqb y x) eqn:E; bool_prop; cbn in Hni.
  - subst y. split; [intros [= ->]; by left|]. intros [[= ->]|H]; [done|]. by apply (list_elem_of_fmap_2 fst) in H.
  - rewrite IH by done. split; [by right|]. intros [[= -> ->]|]; [|done]. by rewrite (proj2 (str_eqb_eq y y)) in E.
Qed.

Lemma elem_subdirs x n m : names_once m -> (x, n) ∈ subdirs m <-> is_dir n = true /\ stat m [x] = Found n.
Proof.
  destruct m as [c|es|]; cbn [names_once subdirs stat]; intros Hnd; try by split; [intros ?%elem_of_nil|intros [? ?]].
  rewrite list_elem_of_In, List.filter_In, <- list_elem_of_In, <- (get_elem _ _ _ Hnd). cbn [snd].
  destruct (get x es); naive_solver congruence.
Qed.

Lemma stat_app t a q : stat t (a ++ q) =
  match stat t a with Found n => stat n q | NotFound => NotFound | NotADirectory => NotADirectory end.
Proof.
  revert t. induction a as [|x a IH]; intros t; cbn [app stat]; [by destruct (stat t q)|].
  destruct t as [c|es|]; try reflexivity. destruct (get x es); [apply IH|reflexivity].
Qed.

Lemma stat_below x q t n : stat t (x :: q) = Found n -> q <> [] -> exists m, is_dir m = true /\ stat t [x] = Found m /\ stat m q = Found n.
Proof.
  change (x :: q) with ([x] ++ q). rewrite stat_app. destruct (stat t [x]) as [m| |]; try done.
  intros H Hq. exists m. split_and!; try done. destruct q, m; done.
Qed.

Definition scanned (mtime : RepoKey -> Z) (t : Node) : list (RepoKey * Z) :=
  h ← subdirs t; o ← subdirs h.2; r ← subdirs o.2;
  match scanned_key h.1 o.1 r.1 with Some k => [(k, mtime k)] | None => [] end.

Lemma scanned_elem mtime t k z : well_named t ->
  (k, z) ∈ scanned mtime t <-> z = mtime k /\ proper_key k /\ exists es, stat t (repo_path k) = Found (Dir es).
Proof.
  intros [Ht Hn]. split.
  - intros ([h n] & ([o m] & ([r d] & Hk & Hd)%list_elem_of_bind & Hm)%list_elem_of_bind & Hh)%list_elem_of_bind.
    cbn [fst snd] in *. destruct (scanned_key h o r) as [k'|] eqn:Hs; [|by apply elem_of_nil in Hk].
    apply list_elem_of_singleton in Hk as [= -> ->]. apply scanned_key_Some in Hs as [Hp Hk].
    destruct (Hn _ _ Hh) as [Hn1 Hn2]. apply elem_subdirs in Hd as [Hd1 Hd2]; [|by eapply Hn2].
    apply elem_subdirs in Hm as [_ Hm]; [|done]. apply elem_subdirs in Hh as [_ Hh]; [|done].
    split_and!; try done. rewrite <- Hp. destruct d; try done. exists entries.
    change [h; o; r] with ([h] ++ [o] ++ [r]). by rewrite stat_app, Hh, stat_app, Hm.
  - intros (-> & Hk & es & Hs). apply stat_below in Hs as (n & Hn1 & Hh & Hs); [|done].
    apply stat_below in Hs as (m & Hm1 & Hm & Hs); [|done].
    assert (Eh : (host k, n) ∈ subdirs t) by (by apply elem_subdirs).
    destruct (Hn _ _ Eh) as [Nn Nm]. assert (Em : (owner k, m) ∈ subdirs n) by (by apply elem_subdirs).
    apply list_elem_of_bind. exists (host k, n). split; [|done].
    apply list_elem_of_bind. exists (owner k, m). split; [|done].
    apply list_elem_of_bind. exists (repo k ++ lit ".git", Dir es). split; [|apply elem_subdirs; [by eapply Nm|done]].
    cbn [fst]. rewrite (proj2 (scanned_key_Some _ _ _ k)) by done. by left.
Qed.

Lemma scan_lookup mtime t k z : well_named t ->
  scan_existing mtime t !! k = Some z <-> (k, z) ∈ scanned mtime t.
Proof.
  intros Ht. unfold scan_existing. fold (scanned mtime t). split.
  - intros H%elem_of_list_to_map_2. by rewrite reverse_Permutation in H.
  - intros H. apply elem_of_list_to_map_1'; [|by rewrite reverse_Permutation].
    intros y Hy. rewrite reverse_Permutation in Hy. apply scanned_elem in H as [-> _], Hy as [-> _]; done.
Qed.

(** The keys a caller can make name one directory inside the cache each: host,
    owner and repository are single names without separators, the host without
    the user in front of it, and no two keys share a path.  A cache started over a
    directory logs exactly the clones under such names, at the times of their
    directories. *)
Theorem restart_finds_every_clone mtime t :
  well_named t ->
  (forall h o r k, new_key h o r = Ok k <-> host k = after_last_at h /\ owner k = o /\ repo k = r /\ proper_key k) /\
  (forall k k', repo_path k = repo_path k' -> k = k') /\
  forall k z, scan_existing mtime t !! k = Some z <->
    z = mtime k /\ proper_key k /\ exists es, stat t (repo_path k) = Found (Dir es).
Proof.
  intros Ht. split_and!; [apply new_key_Ok|apply repo_path_inj|]. intros k z.
  by rewrite scan_lookup, scanned_elem.
Qed.

(** ** Cursors *)

Lemma drop_while_fix p c (s : str) : p c = false -> drop_while p (c :: s) = c :: s.
Proof. intros H. cbn. by rewrite H. Qed.

Lemma drop_while_head p (s : str) : drop_while p s = [] \/ exists c r, drop_while p s = c :: r /\ p c = false.
Proof. induction s as [|c s IH]; cbn; [by left|]. destruct (p c) eqn:Hp; [done|]. right. eauto. Qed.

Lemma trim_idemp s : trim (trim s) = trim s.
Proof.
  unfold trim. set (t := drop_while is_whitespace s). destruct (drop_while_split is_whitespace (reverse t)) as (b & Ht & _).
  destruct (drop_while_head is_whitespace (reverse t)) as [Hu|(d & u & Hu & Hd)]; rewrite Hu in *; [reflexivity|].
  apply (f_equal reverse) in Ht. rewrite reverse_involutive, reverse_app in Ht.
  assert (Hh : drop_while is_whitespace (reverse (d :: u)) = reverse (d :: u)).
  { destruct (reverse (d :: u)) as [|x v] eqn:Hr.
    { apply (f_equal reverse) in Hr. rewrite reverse_involutive in Hr. discriminate. }
    cbn [app] in Ht. apply drop_while_fix. destruct (drop_while_head is_whitespace s) as [Hn|(y & w & Hn & Hy)]; fold t in Hn; congruence. }
  rewrite Hh, reverse_involutive, drop_while_fix by exact Hd. reflexivity.
Qed.

Lemma trim_scalars s : Forall (fun c => scalar c = true) s -> Forall (fun c => scalar c = true) (trim s).
Proof. destruct (trim_split s) as (a & b & E & _). rewrite E at 1. rewrite !Forall_app. tauto. Qed.

(** The text of a cursor file is what is behind its header. *)
Lemma cursor_text_Some bytes s : cursor_text bytes = Some s <->
  exists body u, bytes = CURSOR_MAGIC ++ [CURSOR_VERSION; 10] ++ body /\ from_utf8 body = Some u /\ s = trim u /\ s <> [].
Proof.
  unfold cursor_text. split.
  - destruct (_ <? _)%nat eqn:El; [done|]. destruct (str_eqb _ _) eqn:Em; cbn [negb]; [|done].
    destruct (bool_decide _) eqn:Ev; cbn [negb]; [|done].
    destruct (bool_decide (bytes !! (length CURSOR_MAGIC + 1)%nat = _)) eqn:En; cbn [negb]; [|done].
    intros (u & Hu & H)%bind_Some. apply str_eqb_eq in Em. apply bool_decide_eq_true in Ev, En.
    destruct (str_is_empty (trim u)) eqn:Et; [done|]. injection H as <-. exists (drop 7 bytes), u.
    split_and!; [|done|done|by destruct (trim u)].
    rewrite <- (take_drop (length CURSOR_MAGIC) bytes) at 1. rewrite Em. f_equal.
    rewrite (drop_S _ _ _ Ev). cbn [app]. f_equal. exact (drop_S _ _ _ En).
  - intros (body & u & -> & Hu & -> & Hs). change (length CURSOR_MAGIC) with 5%nat. cbn.
    rewrite (proj2 (str_eqb_eq _ _)) by reflexivity. cbn. rewrite drop_0, Hu. cbn. by destruct (trim u).
Qed.

Lemma cursor_text_encoded sha : Forall (fun c => scalar c = true) sha ->
  cursor_text (encode_cursor sha) = if str_is_empty (trim sha) then None else Some (trim sha).
Proof.
  intros Hs. pose proof (from_utf8_as_bytes _ (trim_scalars _ Hs)) as Hu. destruct (str_is_empty (trim sha)) eqn:E.
  - destruct (cursor_text _) eqn:H; [|done]. apply cursor_text_Some in H as (body & u & Hb & Hu' & -> & Hne).
    apply app_inv_head in Hb. injection Hb as <-. rewrite Hu in Hu'. injection Hu' as <-. rewrite trim_idemp in Hne.
    by destruct (trim sha).
  - apply cursor_text_Some. exists (as_bytes (trim sha)), (trim sha). rewrite trim_idemp. split_and!; try done. by destruct (trim sha).
Qed.

Lemma put_app t a x n es : stat t a = Found (Dir es) -> put t (a ++ [x]) n = put t a (Dir (set_entry x n es)).
Proof.
  revert t. induction a as [|y a IH]; intros t H; cbn [app put] in *; [injection H as ->; reflexivity|].
  destruct t as [c|es'|]; cbn [stat] in H; try done. destruct (get y es') as [m|]; [|done]. cbn [default from_option id].
  by rewrite IH.
Qed.

Lemma write_cursor_Ok t k sha t' : write_cursor t k sha = Ok t' ->
  exists es, checked_repo_path t k = Ok (repo_path k) /\ stat t (repo_path k) = Found (Dir es) /\
    t' = put t (repo_path k) (Dir (set_entry CURSOR_FILENAME (File (encode_cursor sha)) es)).
Proof.
  unfold write_cursor, cursor_path. intros (p & (q & Hq & ([] & _ & Hp)%result_bind_Ok)%result_bind_Ok & H)%result_bind_Ok.
  pose proof Hq as [-> _]%checked_Ok. injection Hp as <-. destruct (stat t (repo_path k)) as [[|es|]| |] eqn:Hs; try done.
  exists es. split_and!; try done. rewrite <- put_app by exact Hs.
  destruct (stat t [_; _; _; _]) as [[]| |]; try done; by injection H as <-.
Qed.

Lemma cursor_path_Ok t k : checked_repo_path t k = Ok (repo_path k) ->
  cursor_path t k = _ ← reject_symlink t (repo_path k ++ [CURSOR_FILENAME]); Ok (repo_path k ++ [CURSOR_FILENAME]).
Proof. intros H. unfold cursor_path. by rewrite H. Qed.

Section ReadBack.
Context (category : Z -> GeneralCategory) (nfc : str -> str).

(** What is written as the cursor of a clone reads back as the revision without the
    space around it, when there is one and the revision policy takes it; the
    cursors of all other clones read as before. *)
Theorem cursors_read_back t k sha t' :
  write_cursor t k sha = Ok t' -> Forall (fun c => scalar c = true) sha ->
  read_cursor category nfc t' k =
    (if str_is_empty (trim sha) then None
     else match text category nfc RevisionText (trim sha) with Ok s => Some s | Err _ => None end) /\
  forall k', k' <> k -> read_cursor category nfc t' k' = read_cursor category nfc t k'.
Proof.
  intros (es & Hc & Hs & ->)%write_cursor_Ok Hsc. unfold read_cursor. split.
  - rewrite cursor_path_Ok.
    2:{ apply checked_Ok in Hc as (_ & H0 & H1 & H2 & _). apply checked_Ok.
        rewrite !(reject_put _ _ _ _ _) by (exact Hs || (cbn; lia) || discriminate). split_and!; try done.
        unfold reject_symlink. by erewrite stat_put. }
    assert (Hf : stat (put t (repo_path k) (Dir (set_entry CURSOR_FILENAME (File (encode_cursor sha)) es)))
      (repo_path k ++ [CURSOR_FILENAME]) = Found (File (encode_cursor sha))).
    { rewrite stat_app. erewrite stat_put by exact Hs. cbn [stat]. by rewrite get_set_entry, (proj2 (str_eqb_eq _ _)). }
    unfold reject_symlink. rewrite Hf. cbn [mbind result_bind]. rewrite Hf. unfold decode_cursor.
    rewrite cursor_text_encoded by exact Hsc. by destruct (str_is_empty (trim sha)).
  - intros k' Hne. unfold cursor_path. rewrite (checked_put _ _ _ _ _ (not_eq_sym Hne) Hs).
    destruct (checked_repo_path t k') as [p|] eqn:Hk; [|done]. apply checked_Ok in Hk as [-> _]. cbn [mbind result_bind].
    unfold reject_symlink. rewrite stat_app, stat_put_key, <- stat_app by congruence.
    destruct (stat t (repo_path k' ++ [CURSOR_FILENAME])) as [[]| |] eqn:Hf; cbn [mbind result_bind]; try done;
      by rewrite stat_app, stat_put_key, <- stat_app, Hf by congruence.
Qed.
End ReadBack.

(** ** A small cache *)

Module Small.
Definition key_a : RepoKey := {| host := lit "h"; owner := lit "o"; repo := lit "a" |}.
Definition key_b : RepoKey := {| host := lit "h"; owner := lit "o"; repo := lit "b" |}.
Definition clone_a : Node := Dir [(lit "pack", File [1; 2; 3])].
Definition clone_b : Node := Dir [(lit "pack", File [4; 5])].
Definition tree : Node := Dir [(lit "h", Dir [(lit "o", Dir [(lit "a.git", clone_a); (lit "b.git", clone_b)])])].
Definition cache : Cache :=
  {| root := tree; max_cache_bytes := 4; access_log := {[key_a := 10; key_b := 20]}; refcounts := ∅ |}.
Definition pinned_cache : Cache := pin key_b cache.
Definition git (walk : list (RepoKey * Z)) : Git :=
  {| operation_ok := true; fetched := fun n => Ok n; cloned := Ok clone_b; parent_ok := true; leftover := None;
     leftovers := fun _ => None; walk := walk; now := 30 |}.
Lemma git_walk l : walk (git l) ≡ₚ l.
Proof. reflexivity. Qed.
End Small.

(** A pin does not hold off an eviction that is already under way: another task
    may fetch a clone, log it and hand it out pinned after the candidates were
    collected, and the pass still removes it. *)
Theorem pins_taken_during_eviction_are_lost :
  exists c walk g k c1 c2,
    walk ≡ₚ map_to_list (access_log c) /\
    refresh g false k c = (Ok (repo_path k), c1) /\ is_pinned c1 k = true /\
    (exists n, stat (root c1) (repo_path k) = Found n) /\
    evict_pass walk (fun _ => None) (fun c => (refresh g false k c).2) c = (Ok tt, c2) /\
    is_pinned c2 k = true /\ stat (root c2) (repo_path k) = NotFound.
Proof.
  exists Small.cache, (map_to_list (access_log Small.cache)), (Small.git []), Small.key_a.
  eexists _, _. split; [reflexivity|]. split; [vm_compute; reflexivity|]. split; [vm_compute; reflexivity|].
  split; [eexists; vm_compute; reflexivity|]. split; [vm_compute; reflexivity|]. split; vm_compute; reflexivity.
Qed.

Lemma eviction_is_least_recently_used_witness :
  evict_if_needed (map_to_list (access_log Small.cache)) (fun _ => None) Small.cache =
    (Ok tt, set_log {[Small.key_b := 20]} (set_root (Dir [(lit "h", Dir [(lit "o", Dir [(lit "b.git", Small.clone_b)])])]) Small.cache)) /\
  let (r, c') := evict_if_needed (map_to_list (access_log Small.cache)) (fun _ => None) Small.cache in
  eviction (fun _ => None) Small.cache c' r.
Proof.
  split; [vm_compute; reflexivity|].
  pose proof (eviction_is_least_recently_used (map_to_list (access_log Small.cache)) (fun _ => None) Small.cache) as H.
  specialize (H ltac:(reflexivity) ltac:(vm_compute; discriminate)).
  destruct (evict_if_needed _ _ _). exact (proj1 H).
Defined.

Lemma refresh_keeps_what_is_in_use_witness :
  is_pinned Small.pinned_cache Small.key_b = true /\
  let (r, c') := refresh (Small.git (map_to_list (access_log Small.pinned_cache))) true Small.key_a Small.pinned_cache in
  r = Ok (repo_path Small.key_a) /\ untouched Small.pinned_cache c' Small.key_b.
Proof.
  split; [vm_compute; reflexivity|].
  pose proof (refresh_keeps_what_is_in_use (Small.git (map_to_list (access_log Small.pinned_cache))) true Small.key_a
    Small.pinned_cache (Small.git_walk _) ltac:(vm_compute; split; reflexivity)) as H.
  assert (E : (refresh (Small.git (map_to_list (access_log Small.pinned_cache))) true Small.key_a Small.pinned_cache).1 =
    Ok (repo_path Small.key_a)) by (vm_compute; reflexivity).
  destruct (refresh _ _ _ _) as [r c']. cbn [fst] in E. split; [exact E|].
  apply H; [discriminate|left; vm_compute; reflexivity].
Defined.

Lemma restart_finds_every_clone_witness :
  scan_existing (fun _ => 7) Small.tree = {[Small.key_a := 7; Small.key_b := 7]} /\
  (forall k z, scan_existing (fun _ => 7) Small.tree !! k = Some z <->
    z = 7 /\ proper_key k /\ exists es, stat Small.tree (repo_path k) = Found (Dir es)).
Proof.
  split; [vm_compute; reflexivity|]. apply (restart_finds_every_clone (fun _ => 7) Small.tree).
  split; [cbn; apply NoDup_singleton|].
  intros h n H. vm_compute in H. apply list_elem_of_singleton in H as [= -> ->].
  split; [cbn; apply NoDup_singleton|]. intros o m H. vm_compute in H. apply list_elem_of_singleton in H as [= -> ->].
  apply (bool_decide_unpack _). vm_compute. exact I.
Defined.

Lemma cursors_read_back_witness :
  exists t', write_cursor Small.tree Small.key_a (lit " abc ") = Ok t' /\
    read_cursor (fun _ => LowercaseLetter) (fun s => s) t' Small.key_a = Some (lit "abc").
Proof.
  eexists. split; [vm_compute; reflexivity|].
  destruct (cursors_read_back (fun _ => LowercaseLetter) (fun s => s) Small.tree Small.key_a (lit " abc ") _
    ltac:(vm_compute; reflexivity) ltac:(apply (bool_decide_unpack _); vm_compute; exact I)) as [-> _].
  vm_compute. reflexivity.
Defined.
