(* ===== verification/Email.v ===== *)
(** * Mail reports: [loupe-server/src/reporters/email.rs]

    The header section with its budgets, the message a prepared report is
    rendered to, and the decision of [dispatch] up to handing the message to
    the mail program.  A message is exactly five header lines and the plain
    document of its layout; a reader that ends lines at any line break finds
    those and nothing else. *)
From Stdlib Require Import ZArith Lia.
From stdpp Require Import base list strings numbers.
From S2P Require Import Prelude Domain Vocabulary Store Issuer Repos Reports Text Render RenderTheorems ReportReader.
Local Open Scope Z_scope.

Definition DEFAULT_FROM : str := lit "loupe-noreply@localhost".
Definition HEADER_LINE_MAX : Z := 8192.
Definition HEADER_SECTION_MAX : Z := 65536.
Definition MESSAGE_MAX : Z := 16 * 1024 * 1024.

Inductive HeaderBudget :=
| BudgetLine | BudgetSection | BudgetFrom | BudgetTo | BudgetSubject | BudgetToOverflow | BudgetSubjectOverflow.

(** The errors [anyhow::Error] carries here. *)
Inductive MailError :=
| HeaderNewline (name : str)
| HeaderProhibited (name : str)
| OverBudget (budget : HeaderBudget)
| MailReport (e : ReportError)
| MailUnavailable (why : Unavailable)
| MailStorage (e : Error)
| NoRecipients.

Definition is_budget_error (e : MailError) : bool :=
  match e with OverBudget _ => true | _ => false end.

Definition crlf : str := [13; 10].

(** [Iterator::max] over severities, ordered as declared. *)
Definition max_severity (findings : list ReportView) : Severity :=
  foldl (fun m f => if Severity.rank m <=? Severity.rank (f_severity (v_finding f))
                    then f_severity (v_finding f) else m) Info findings.

(** [str::split("\r\n")] *)
Fixpoint split_crlf_from (part s : str) : list str :=
  match s with
  | [] => [part]
  | c :: s' =>
      match s' with
      | d :: s'' => if (c =? 13) && (d =? 10) then part :: split_crlf_from [] s''
                    else split_crlf_from (part ++ [c]) s'
      | [] => [part ++ [c]]
      end
  end.

Section Mail.

(** The Unicode general category of a scalar, from the [unicode-properties]
    crate. *)
Context (category : Z -> GeneralCategory).

Definition validate_header_value (name value : str) : result MailError unit :=
  if existsb (fun b => (b =? 13) || (b =? 10)) value then Err (HeaderNewline name)
  else if existsb (rejects_code_point category) value then Err (HeaderProhibited name)
  else Ok tt.

Definition count_header_line (section : Z) (line : option Z) : result MailError Z :=
  match line with
  | Some line =>
      if negb (line <=? HEADER_LINE_MAX) then Err (OverBudget BudgetLine)
      else
        match usize_add section line with
        | Some n => if n <=? HEADER_SECTION_MAX then Ok n else Err (OverBudget BudgetSection)
        | None => Err (OverBudget BudgetSection)
        end
  | None => Err (OverBudget BudgetLine)
  end.

Fixpoint count_header_lines (section : Z) (lines : list (option Z)) : result MailError Z :=
  match lines with
  | [] => Ok section
  | line :: lines' => section ← count_header_line section line; count_header_lines section lines'
  end.

Fixpoint recipients_len (to : list str) (joined_to : Z) : result MailError Z :=
  match to with
  | [] => Ok joined_to
  | recipient :: to' =>
      _ ← validate_header_value (lit "To") recipient;
      if HEADER_LINE_MAX - 6 <? str_len recipient then Err (OverBudget BudgetTo)
      else joined_to ← ok_or (usize_add joined_to (str_len recipient)) (OverBudget BudgetToOverflow);
           recipients_len to' joined_to
  end.

Fixpoint check_subject (contributors : list str) : result MailError unit :=
  match contributors with
  | [] => Ok tt
  | contributor :: rest =>
      _ ← validate_header_value (lit "Subject") contributor;
      if HEADER_LINE_MAX - 11 <? str_len contributor then Err (OverBudget BudgetSubject)
      else check_subject rest
  end.

(** [.iter().try_fold(0usize, |n, part| n.checked_add(part.len()))] *)
Fixpoint parts_len (n : Z) (parts : list str) : option Z :=
  match parts with
  | [] => Some n
  | part :: parts' => n ← usize_add n (str_len part); parts_len n parts'
  end.

(** The pushes of the recipients' loop. *)
Definition joined (to : list str) : str :=
  match to with
  | [] => []
  | r :: rs => r ++ concat ((fun r => lit ", " ++ r) <$> rs)
  end.

Fixpoint recheck (lines : list str) : result MailError unit :=
  match lines with
  | [] => Ok tt
  | line :: lines' =>
      _ ← validate_header_value (lit "assembled") line;
      match usize_add (str_len line) 2 with
      | Some n => if HEADER_LINE_MAX <? n then Err (OverBudget BudgetLine) else recheck lines'
      | None => Err (OverBudget BudgetLine)
      end
  end.

Definition subject_parts (settings : StoredMailSettings) (findings : list ReportView) : list str :=
  [default (lit "[loupe]") (ms_prefix settings); lit " ";
   Repos.show_i64 (Z.of_nat (length findings)); lit " ";
   Severity.as_str (max_severity findings); lit " finding(s) in "; ms_owner settings; lit "/";
   ms_repository settings].

Definition stored_headers (settings : StoredMailSettings) (findings : list ReportView) (default_from : str)
    : result MailError str :=
  let to := ms_to settings in
  let from := default default_from (ms_from settings) in
  let prefix := default (lit "[loupe]") (ms_prefix settings) in
  let owner := ms_owner settings in
  let name := ms_repository settings in
  _ ← validate_header_value (lit "From") from;
  if HEADER_LINE_MAX - 8 <? str_len from then Err (OverBudget BudgetFrom)
  else
    joined_to ← recipients_len to 0;
    joined_to ← ok_or (usize_mul (Z.max 0 (Z.of_nat (length to) - 1)) 2 ≫= fun n => usize_add joined_to n)
                      (OverBudget BudgetToOverflow);
    _ ← check_subject [prefix; owner; name];
    let subject_parts := subject_parts settings findings in
    subject_len ← ok_or (parts_len 0 subject_parts) (OverBudget BudgetSubjectOverflow);
    let lines := [usize_add (str_len from) 8; usize_add joined_to 6; usize_add subject_len 11;
                  Some 19; Some 41] in
    header_bytes ← count_header_lines 0 lines;
    let out := lit "From: " ++ from ++ crlf ++ lit "To: " ++ joined to ++ crlf ++ lit "Subject: " ++
               concat subject_parts ++ crlf ++ lit "MIME-Version: 1.0" ++ crlf ++
               lit "Content-Type: text/plain; charset=utf-8" ++ crlf ++ crlf in
    _ ← recheck (take 5 (split_crlf_from [] out));
    Ok out.

Definition mail_finding (view : ReportView) : Builder unit :=
  let f := v_finding view in
  _ ← finding_id (v_id view);
  _ ← severity (f_severity f);
  _ ← field (lit "title") (f_title f);
  _ ← match v_reviewed_revision view with
      | Some revision => field (lit "reviewed revision") revision
      | None => literal (lit "- reviewed revision: not recorded" ++ nl)
      end;
  _ ← optional (f_file_path f)
        (fun p => path p (f_line_start f) (if v_phase_review view then f_line_end f else None));
  _ ← optional (f_cwe f) (field (lit "cwe"));
  _ ← (if v_phase_review view
       then _ ← field (lit "scanner") (f_scanner_id f); field (lit "fingerprint") (f_fingerprint f)
       else mret tt);
  field (lit "description") (f_description f).

Fixpoint mail_findings (views : list ReportView) : Builder unit :=
  match views with
  | [] => mret tt
  | view :: views' => _ ← mail_finding view; mail_findings views'
  end.

Definition mail_body (repo : RepoRow) (views : list ReportView) : Builder unit :=
  _ ← heading (if existsb v_phase_review views then lit "loupe finding report"
               else lit "loupe has finished a scan");
  _ ← field (lit "repository owner") (r_owner repo);
  _ ← field (lit "repository") (r_repo repo);
  _ ← field (lit "clone URL") (r_clone_url repo);
  _ ← count (Z.of_nat (length views));
  mail_findings views.

(** [.map(|entry| entry.content().map(ReportView::selected)).collect()?] *)
Fixpoint report_views (entries : list ReportEntry) : result MailError (list ReportView) :=
  match entries with
  | [] => Ok []
  | e :: entries' =>
      f ← map_err MailUnavailable (re_content e);
      rest ← report_views entries';
      Ok (view_selected f :: rest)
  end.

Definition render_message (report : PreparedReport) (h : Handle) (default_from : str) : result MailError str :=
  views ← report_views (pr_entries report);
  settings ← map_err MailStorage (mail_settings report h);
  wire ← stored_headers settings views default_from;
  if MESSAGE_MAX <? str_len wire then Err (MailReport MailLimit)
  else
    match mail_body (pr_repo report) views (plain_text (MESSAGE_MAX - str_len wire)) with
    | (Err e, _) => Err (MailReport e)
    | (Ok _, body) => body ← map_err MailReport (render body); Ok (wire ++ body)
    end.

(** [dispatch]: the message handed to the mail program, if any. *)
Definition dispatch_message (report : PreparedReport) (h : Handle) (default_from : str)
    : result MailError (option str) :=
  settings ← map_err MailStorage (mail_settings report h);
  match ms_to settings with
  | [] => Err NoRecipients
  | _ =>
      match pr_entries report with
      | [] => Ok None
      | _ => message ← render_message report h default_from; Ok (Some message)
      end
  end.

End Mail.

(** ** Headers *)

Definition from_of (settings : StoredMailSettings) (default_from : str) : str :=
  default default_from (ms_from settings).
Definition prefix_of (settings : StoredMailSettings) : str := default (lit "[loupe]") (ms_prefix settings).

Definition header_lines (settings : StoredMailSettings) (views : list ReportView) (default_from : str)
    : list str :=
  [lit "From: " ++ from_of settings default_from; lit "To: " ++ joined (ms_to settings);
   lit "Subject: " ++ concat (subject_parts settings views); lit "MIME-Version: 1.0";
   lit "Content-Type: text/plain; charset=utf-8"].

Definition wire_of (lines : list str) : str := concat ((fun l => l ++ crlf) <$> lines) ++ crlf.

(** The stored texts the header lines are made of. *)
Definition contributors (settings : StoredMailSettings) (default_from : str) : list str :=
  from_of settings default_from :: ms_to settings ++
  [prefix_of settings; ms_owner settings; ms_repository settings].

Fixpoint total_len (parts : list str) : Z :=
  match parts with [] => 0 | p :: ps => str_len p + total_len ps end.

Lemma total_len_nonneg parts : 0 <= total_len parts.
Proof. induction parts as [|p ps IH]; cbn; [lia|]. pose proof (str_len_nonneg p). lia. Qed.

Lemma total_len_elem parts r : r ∈ parts -> str_len r <= total_len parts.
Proof.
  induction 1 as [p ps|p q ps _ IH]; cbn; [pose proof (total_len_nonneg ps)|pose proof (str_len_nonneg q)]; lia.
Qed.

Lemma str_len_concat parts : str_len (concat parts) = total_len parts.
Proof. induction parts as [|p ps IH]; [done|]. cbn [concat total_len]. rewrite str_len_app. lia. Qed.

Lemma joined_len to : str_len (joined to) = total_len to + Z.max 0 (Z.of_nat (length to) - 1) * 2.
Proof.
  destruct to as [|r rs]; [done|]. cbn [joined total_len]. rewrite str_len_app.
  enough (str_len (concat ((fun r => lit ", " ++ r) <$> rs)) = total_len rs + 2 * Z.of_nat (length rs)) as ->
    by (cbn -[Z.of_nat]; lia).
  induction rs as [|r' rs IH]; [done|]. cbn -[Z.of_nat lit str_len].
  rewrite !str_len_app, IH. change (str_len (lit ", ")) with 2. lia.
Qed.

Lemma usize_add_Some a b n : usize_add a b = Some n <-> n = a + b /\ 0 <= a + b <= usize_max.
Proof.
  unfold usize_add, to_usize. destruct ((0 <=? a + b) && (a + b <=? usize_max)) eqn:E.
  - bool_prop. naive_solver.
  - split; [done|]. intros [_ H]. apply andb_false_iff in E as [?|?]; bool_prop; lia.
Qed.

Lemma usize_add_nonneg a b : match usize_add a b with Some n => 0 <= n | None => True end.
Proof. destruct (usize_add a b) eqn:E; [|done]. apply usize_add_Some in E. lia. Qed.

Lemma usize_mul_Some a b n : usize_mul a b = Some n <-> n = a * b /\ 0 <= a * b <= usize_max.
Proof.
  unfold usize_mul, to_usize. destruct ((0 <=? a * b) && (a * b <=? usize_max)) eqn:E.
  - bool_prop. naive_solver.
  - split; [done|]. intros [_ H]. apply andb_false_iff in E as [?|?]; bool_prop; lia.
Qed.

Lemma parts_len_Some n parts m :
  0 <= n <= usize_max -> parts_len n parts = Some m <-> m = n + total_len parts /\ m <= usize_max.
Proof.
  revert n. induction parts as [|p ps IH]; intros n Hn; cbn.
  - rewrite Z.add_0_r. naive_solver lia.
  - pose proof (str_len_nonneg p). pose proof (total_len_nonneg ps).
    rewrite bind_Some. setoid_rewrite usize_add_Some. split.
    + intros (k & [-> ?] & Hk). apply IH in Hk; [|lia]. lia.
    + intros [-> ?]. exists (n + str_len p). split; [lia|]. apply IH; lia.
Qed.

Section Headers.
Context (category : Z -> GeneralCategory).

Definition clean (s : str) : Prop := no_eol s /\ Forall (fun c => rejects_code_point category c = false) s.

Lemma validate_header_value_Ok name s u : validate_header_value category name s = Ok u <-> clean s.
Proof.
  unfold validate_header_value, clean, no_eol. destruct u.
  destruct (existsb _ s) eqn:E1; [|destruct (existsb (rejects_code_point category) s) eqn:E2].
  - split; [done|]. intros [[H1 H2] _]. apply existsb_exists in E1 as (c & Hc%list_elem_of_In & E).
    apply orb_true_iff in E as [E|E]; bool_prop; subst; done.
  - split; [done|]. intros [_ H]. apply existsb_exists in E2 as (c & Hc%list_elem_of_In & E).
    rewrite list.Forall_forall in H. by rewrite (H c Hc) in E.
  - split; [|done]. intros _. split_and!.
    + intros H%list_elem_of_In. rewrite (proj2 (existsb_exists _ s)) in E1; [done|by exists 10].
    + intros H%list_elem_of_In. rewrite (proj2 (existsb_exists _ s)) in E1; [done|by exists 13].
    + apply list.Forall_forall. intros c Hc%list_elem_of_In. apply not_true_is_false. intros Hr.
      rewrite (proj2 (existsb_exists _ s)) in E2; [done|by exists c].
Qed.

Lemma recipients_len_Ok to n m :
  0 <= n <= usize_max ->
  recipients_len category to n = Ok m <->
  Forall clean to /\ Forall (fun r => str_len r <= HEADER_LINE_MAX - 6) to /\
  m = n + total_len to /\ m <= usize_max.
Proof.
  revert n. induction to as [|r rs IH]; intros n Hn; cbn -[HEADER_LINE_MAX Z.sub].
  - rewrite Z.add_0_r. split; [intros [= ->]|intros (_ & _ & -> & _)]; repeat split; (constructor || lia || done).
  - pose proof (str_len_nonneg r). pose proof (total_len_nonneg rs).
    rewrite result_bind_Ok. setoid_rewrite validate_header_value_Ok. rewrite !list.Forall_cons.
    destruct (Z.ltb_spec (HEADER_LINE_MAX - 6) (str_len r)).
    + split; [naive_solver|]. intros (_ & [? _] & _). lia.
    + setoid_rewrite result_bind_Ok. setoid_rewrite ok_or_Ok. setoid_rewrite usize_add_Some. split.
      * intros (_ & ? & k & [-> ?] & Hk). apply IH in Hk; [|lia]. naive_solver lia.
      * intros ([? ?] & [? ?] & -> & ?). exists tt. split; [done|]. exists (n + str_len r). split; [lia|].
        apply IH; [lia|]. repeat split; (done || lia).
Qed.

Lemma check_subject_Ok parts u :
  check_subject category parts = Ok u <->
  Forall clean parts /\ Forall (fun r => str_len r <= HEADER_LINE_MAX - 11) parts.
Proof.
  destruct u. induction parts as [|r rs IH]; cbn -[HEADER_LINE_MAX Z.sub].
  - split; [intros _; split; constructor|done].
  - rewrite result_bind_Ok. setoid_rewrite validate_header_value_Ok. rewrite !list.Forall_cons.
    destruct (Z.ltb_spec (HEADER_LINE_MAX - 11) (str_len r)).
    + split; [naive_solver|]. intros (_ & [? _]). lia.
    + setoid_rewrite IH. split; [naive_solver|]. intros ([? ?] & [? ?]). by exists tt.
Qed.

Lemma recheck_Ok lines u :
  recheck category lines = Ok u <->
  Forall clean lines /\ Forall (fun r => str_len r + 2 <= HEADER_LINE_MAX) lines.
Proof.
  destruct u. induction lines as [|r rs IH]; cbn -[HEADER_LINE_MAX].
  - split; [intros _; split; constructor|done].
  - pose proof (str_len_nonneg r). rewrite result_bind_Ok. setoid_rewrite validate_header_value_Ok.
    rewrite !list.Forall_cons.
    destruct (usize_add (str_len r) 2) as [n|] eqn:E.
    + apply usize_add_Some in E as [-> ?]. destruct (Z.ltb_spec HEADER_LINE_MAX (str_len r + 2)).
      * split; [naive_solver|]. intros (_ & [? _]). lia.
      * setoid_rewrite IH. split; [naive_solver|]. intros ([? ?] & [? ?]). by exists tt.
    + split; [naive_solver|]. intros (_ & [? _]). assert (usize_add (str_len r) 2 = Some (str_len r + 2)) as E'
        by (apply usize_add_Some; unfold HEADER_LINE_MAX, usize_max in *; lia). congruence.
Qed.

Lemma count_header_lines_Ok lens section total :
  0 <= section -> section + Z.of_nat (length lens) * HEADER_LINE_MAX <= HEADER_SECTION_MAX ->
  Forall (fun n => match n with Some n => 0 <= n | None => True end) lens ->
  count_header_lines section lens = Ok total <->
  Forall (fun n => match n with Some n => n <= HEADER_LINE_MAX | None => False end) lens /\
  total = section + foldr (fun n t => default 0 n + t) 0 lens.
Proof.
  intros Hs Hcap Hn. revert section Hs Hcap. induction Hn as [|n lens Hn _ IH]; intros section Hs Hcap.
  - cbn. rewrite Z.add_0_r. split; [intros [= ->]; split; [constructor|done]|naive_solver].
  - cbn -[HEADER_LINE_MAX HEADER_SECTION_MAX Z.of_nat] in *. rewrite list.Forall_cons, result_bind_Ok.
    destruct n as [n|]; [|split; [naive_solver|naive_solver]]. unfold count_header_line.
    destruct (Z.leb_spec n HEADER_LINE_MAX) as [Hl|Hl]; cbn [negb].
    + assert (usize_add section n = Some (section + n)) as ->
        by (apply usize_add_Some; unfold usize_max, HEADER_LINE_MAX, HEADER_SECTION_MAX in *; lia).
      destruct (Z.leb_spec (section + n) HEADER_SECTION_MAX);
        [|unfold HEADER_LINE_MAX, HEADER_SECTION_MAX in *; lia].
      split.
      * intros (k & [= <-] & Hk). apply IH in Hk as [? ->]; [|unfold HEADER_LINE_MAX in *; lia..].
        split; [done|]. cbn. lia.
      * intros [[_ H1] ->]. exists (section + n). split; [done|].
        apply IH; [unfold HEADER_LINE_MAX in *; lia..|]. split; [done|]. cbn. lia.
    + split; [naive_solver|]. intros [[? _] _]. lia.
Qed.

(** Splitting the assembled section at its line ends. *)
Lemma split_crlf_line part l t :
  13 ∉ l -> split_crlf_from part (l ++ crlf ++ t) = (part ++ l) :: split_crlf_from [] t.
Proof.
  revert part. induction l as [|c l IH]; intros part Hl; [cbn; by rewrite app_nil_r|].
  apply not_elem_of_cons in Hl as [Hc Hl]. specialize (IH (part ++ [c]) Hl).
  cbn [app split_crlf_from]. destruct (Z.eqb_spec c 13); [congruence|]. cbn [andb].
  rewrite <- app_assoc in IH. cbn [app] in IH.
  destruct l; exact IH.
Qed.

Lemma split_crlf_wire lines :
  Forall no_eol lines -> take (length lines) (split_crlf_from [] (wire_of lines)) = lines.
Proof.
  unfold wire_of. induction 1 as [|l lines [_ Hl] _ IH]; [done|]. cbn [fmap list_fmap concat length].
  rewrite <- !app_assoc, split_crlf_line by done. cbn [take app]. f_equal. exact IH.
Qed.

Lemma wire_len lines : str_len (wire_of lines) = total_len lines + 2 * Z.of_nat (length lines) + 2.
Proof.
  unfold wire_of. rewrite str_len_app. change (str_len crlf) with 2.
  induction lines as [|l lines IH]; [done|]. cbn -[Z.of_nat str_len crlf].
  rewrite !str_len_app. change (str_len crlf) with 2. cbn -[Z.of_nat str_len crlf] in IH. lia.
Qed.

(** Printable ASCII is not rejected: letters, digits, punctuation and spaces
    have none of the rejected categories. *)
Context (ascii_allowed : forall c, 32 <= c <= 126 -> rejects_code_point category c = false).

Lemma clean_app s t : clean s -> clean t -> clean (s ++ t).
Proof. intros [? ?] [? ?]. split; [by apply no_eol_app|by apply Forall_app]. Qed.

Lemma clean_ascii s : forallb (fun c => (32 <=? c) && (c <=? 126)) s = true -> clean s.
Proof.
  rewrite forallb_forall. intros H. split.
  - split; intros Hi%list_elem_of_In; specialize (H _ Hi); discriminate.
  - apply list.Forall_forall. intros c Hc%list_elem_of_In. specialize (H _ Hc). bool_prop. auto.
Qed.

Lemma clean_show z : clean (Repos.show_i64 z).
Proof.
  apply clean_ascii. apply forallb_forall. intros c Hc%list_elem_of_In%show_i64_chars.
  apply andb_true_iff. rewrite !Z.leb_le. lia.
Qed.

Lemma clean_concat parts : Forall clean parts -> clean (concat parts).
Proof. induction 1; [by apply clean_ascii|by apply clean_app]. Qed.

Lemma clean_joined to : Forall clean to -> clean (joined to).
Proof.
  destruct 1 as [|r rs Hr Hrs]; [by apply clean_ascii|]. apply clean_app; [done|]. apply clean_concat.
  apply Forall_fmap. eapply list.Forall_impl; [exact Hrs|]. intros w Hw. apply clean_app; [by apply clean_ascii|done].
Qed.

Lemma header_lines_clean settings views default_from :
  Forall clean (contributors settings default_from) -> Forall clean (header_lines settings views default_from).
Proof.
  unfold contributors. rewrite list.Forall_cons, Forall_app, !list.Forall_cons.
  intros (Hf & Ht & Hp & Ho & Hr & _). unfold header_lines, subject_parts. fold (prefix_of settings).
  repeat apply Forall_cons_2; try apply Forall_nil_2; try (by apply clean_ascii);
  (apply clean_app; [by apply clean_ascii|]); [done|by apply clean_joined|].
  apply clean_concat. repeat apply Forall_cons_2; try apply Forall_nil_2; try done; try (by apply clean_ascii).
  - apply clean_show.
  - apply clean_ascii. by destruct (max_severity views).
Qed.

Lemma wire_eq settings views default_from :
  lit "From: " ++ from_of settings default_from ++ crlf ++ lit "To: " ++ joined (ms_to settings) ++
  crlf ++ lit "Subject: " ++ concat (subject_parts settings views) ++ crlf ++ lit "MIME-Version: 1.0" ++ crlf ++
  lit "Content-Type: text/plain; charset=utf-8" ++ crlf ++ crlf =
  wire_of (header_lines settings views default_from).
Proof.
  unfold wire_of, header_lines. cbn [fmap list_fmap concat].
  by rewrite <- !app_assoc, ?app_nil_l.
Qed.

Definition lines_fit (settings : StoredMailSettings) (views : list ReportView) (default_from : str) : Prop :=
  Forall (fun l => str_len l + 2 <= HEADER_LINE_MAX) (header_lines settings views default_from).

Lemma lines_fit_iff settings views default_from :
  lines_fit settings views default_from <->
  str_len (from_of settings default_from) + 8 <= HEADER_LINE_MAX /\
  str_len (joined (ms_to settings)) + 6 <= HEADER_LINE_MAX /\
  total_len (subject_parts settings views) + 11 <= HEADER_LINE_MAX.
Proof.
  unfold lines_fit, header_lines. rewrite !list.Forall_cons, !str_len_app, str_len_concat.
  change (str_len (lit "From: ")) with 6. change (str_len (lit "To: ")) with 4.
  change (str_len (lit "Subject: ")) with 9. change (str_len (lit "MIME-Version: 1.0")) with 17.
  change (str_len (lit "Content-Type: text/plain; charset=utf-8")) with 39. unfold HEADER_LINE_MAX.
  split; [lia|]. intros (? & ? & ?). repeat split; try lia. constructor.
Qed.

Lemma stored_headers_Ok settings views default_from wire :
  stored_headers category settings views default_from = Ok wire <->
  wire = wire_of (header_lines settings views default_from) /\
  Forall clean (contributors settings default_from) /\ lines_fit settings views default_from.
Proof.
  unfold stored_headers. cbv zeta. fold (from_of settings default_from) (prefix_of settings).
  rewrite wire_eq, lines_fit_iff. unfold contributors. rewrite list.Forall_cons, Forall_app.
  pose proof (str_len_nonneg (from_of settings default_from)).
  pose proof (total_len_nonneg (subject_parts settings views)).
  pose proof (total_len_nonneg (ms_to settings)). pose proof (joined_len (ms_to settings)) as Hj.
  rewrite result_bind_Ok. setoid_rewrite validate_header_value_Ok.
  split.
  - intros (_ & Hf & Hrest).
    destruct (Z.ltb_spec (HEADER_LINE_MAX - 8) (str_len (from_of settings default_from))); [done|].
    apply result_bind_Ok in Hrest as (j0 & Hj0 & Hrest).
    apply recipients_len_Ok in Hj0 as (Hto & _ & -> & ?); [|unfold usize_max; lia].
    apply result_bind_Ok in Hrest as (j & Hjs%ok_or_Ok & Hrest).
    apply bind_Some in Hjs as (k & [-> ?]%usize_mul_Some & [-> ?]%usize_add_Some).
    apply result_bind_Ok in Hrest as (_ & [Hsub _]%check_subject_Ok & Hrest).
    apply result_bind_Ok in Hrest as (sl & Hsl%ok_or_Ok & Hrest).
    apply parts_len_Some in Hsl as [-> ?]; [|unfold usize_max; lia].
    apply result_bind_Ok in Hrest as (hb & Hhb & Hrest).
    apply result_bind_Ok in Hrest as (_ & _ & [= <-]).
    split; [done|]. split; [done|].
    apply count_header_lines_Ok in Hhb as [Hls _];
      [|done|done|repeat apply Forall_cons_2; try apply Forall_nil_2; try done;
        apply usize_add_nonneg].
    rewrite !list.Forall_cons in Hls. destruct Hls as (Hl1 & Hl2 & Hl3 & _).
    destruct (usize_add (str_len _) 8) eqn:E1; [|done]. destruct (usize_add _ 6) eqn:E2; [|done].
    destruct (usize_add _ 11) eqn:E3; [|done].
    apply usize_add_Some in E1, E2, E3. lia.
  - intros (-> & (Hf & Hto & Hsub) & Hf8 & Ht6 & Hs11). exists tt. split; [done|].
    destruct (Z.ltb_spec (HEADER_LINE_MAX - 8) (str_len (from_of settings default_from))); [lia|].
    assert (Forall (fun r => str_len r <= HEADER_LINE_MAX - 6) (ms_to settings)) as Hto6.
    { apply list.Forall_forall. intros r Hr. pose proof (total_len_elem _ _ Hr). lia. }
    rewrite (proj2 (recipients_len_Ok (ms_to settings) 0 (total_len (ms_to settings)) ltac:(unfold usize_max; lia)))
      by (repeat split; (done || unfold usize_max, HEADER_LINE_MAX in *; lia)). cbn [mbind result_bind].
    assert ((usize_mul (Z.max 0 (Z.of_nat (length (ms_to settings)) - 1)) 2 ≫=
             fun n => usize_add (total_len (ms_to settings)) n) = Some (str_len (joined (ms_to settings)))) as ->.
    { apply bind_Some. eexists.
      split; [apply usize_mul_Some; split; [reflexivity|]|apply usize_add_Some];
      unfold usize_max, HEADER_LINE_MAX in *; lia. }
    cbn [ok_or].
    cbn [mbind result_bind].
    rewrite (proj2 (check_subject_Ok [prefix_of settings; ms_owner settings; ms_repository settings] tt)).
    2:{ split; [done|]. apply list.Forall_forall. intros r Hr.
        assert (r ∈ subject_parts settings views) as Hr'
          by (unfold subject_parts; fold (prefix_of settings); rewrite !elem_of_cons in *; naive_solver).
        pose proof (total_len_elem _ _ Hr'). lia. }
    cbn [mbind result_bind].
    assert (parts_len 0 (subject_parts settings views) = Some (total_len (subject_parts settings views))) as ->
      by (apply parts_len_Some; unfold usize_max, HEADER_LINE_MAX in *; lia).
    cbn [ok_or mbind result_bind].
    assert (forall a b, 0 <= a + b <= HEADER_LINE_MAX -> usize_add a b = Some (a + b)) as Hu
      by (intros; apply usize_add_Some; unfold usize_max, HEADER_LINE_MAX in *; lia).
    pose proof (str_len_nonneg (joined (ms_to settings))). rewrite !Hu by lia.
    match goal with |- context [count_header_lines 0 ?ls] =>
      assert (count_header_lines 0 ls = Ok (0 + foldr (fun n t => default 0 n + t) 0 ls)) as ->
        by (apply count_header_lines_Ok; [done|done| |split; [|done]];
            repeat apply Forall_cons_2; try apply Forall_nil_2; unfold HEADER_LINE_MAX in *; lia)
    end.
    cbn [mbind result_bind].
    rewrite (proj2 (recheck_Ok _ tt)); [done|].
    assert (Forall clean (contributors settings default_from)) as Hc
      by (unfold contributors; by rewrite list.Forall_cons, Forall_app).
    pose proof (header_lines_clean settings views default_from Hc) as Hl.
    pose proof (split_crlf_wire (header_lines settings views default_from)) as Es.
    change (length (header_lines settings views default_from)) with 5%nat in Es.
    rewrite Es by (eapply list.Forall_impl; [exact Hl|]; by intros ? [? ?]).
    split; [done|]. apply (proj2 (lines_fit_iff settings views default_from)). done.
Qed.
End Headers.

(** ** The body *)

Definition mail_finding_pieces (view : ReportView) : list Piece :=
  let f := v_finding view in
  [Prose [lit "Finding " ++ format_finding_id (v_id view); []];
   Prose [lit "- severity: " ++ Severity.as_str (f_severity f)];
   field_piece "title" (f_title f);
   match v_reviewed_revision view with
   | Some revision => field_piece "reviewed revision" revision
   | None => Prose [lit "- reviewed revision: not recorded"]
   end] ++
  match f_file_path f with
  | Some p => [Fenced (lit "file") p
                 (location_suffix (f_line_start f) (if v_phase_review view then f_line_end f else None)) []]
  | None => []
  end ++
  match f_cwe f with Some cwe => [field_piece "cwe" cwe] | None => [] end ++
  (if v_phase_review view
   then [field_piece "scanner" (f_scanner_id f); field_piece "fingerprint" (f_fingerprint f)] else []) ++
  [field_piece "description" (f_description f)].

Definition mail_pieces (repo : RepoRow) (views : list ReportView) : list Piece :=
  [Prose [if existsb v_phase_review views then lit "loupe finding report" else lit "loupe has finished a scan"; []];
   field_piece "repository owner" (r_owner repo);
   field_piece "repository" (r_repo repo);
   field_piece "clone URL" (r_clone_url repo);
   Prose [lit "Findings: " ++ Repos.show_i64 (Z.of_nat (length views)); []]] ++
  concat (mail_finding_pieces <$> views).

Lemma mail_finding_writes view :
  exists s, writes (mail_finding view) s /\ s false = document (mail_finding_pieces view).
Proof.
  eexists. split.
  - unfold mail_finding. written.
  - cbv beta. unfold mail_finding_pieces, field_piece. cbv zeta. same_document.
Qed.

Lemma mail_findings_writes views :
  exists s, writes (mail_findings views) s /\ s false = document (concat (mail_finding_pieces <$> views)).
Proof.
  induction views as [|view views (s & Hs & E)].
  - exists (fun _ => []). split; [apply writes_ret|done].
  - destruct (mail_finding_writes view) as (t & Ht & E'). exists (fun md => t md ++ s md).
    split; [by apply writes_bind|]. cbn [fmap list_fmap concat]. by rewrite document_app, E, E'.
Qed.

Lemma mail_body_writes repo views :
  exists s, writes (mail_body repo views) s /\ s false = document (mail_pieces repo views).
Proof.
  destruct (mail_findings_writes views) as (t & Ht & E). eexists. split.
  - unfold mail_body. do 5 (apply writes_bind; [written|]). exact Ht.
  - cbv beta. unfold mail_pieces, field_piece. rewrite document_app, !document_cons, E.
    cbn [piece_text fmap list_fmap concat].
    change (document []) with (@nil Z). by rewrite ?app_nil_r, <- !app_assoc.
Qed.

Lemma file_piece_ok p line_start line_end :
  layout_piece (Fenced (lit "file") p (location_suffix line_start line_end) []).
Proof.
  split_and!; [by apply no_eol_check..|apply not_elem_of_nil|apply location_suffix_clean].
Qed.

Lemma mail_pieces_ok repo views : Forall layout_piece (mail_pieces repo views).
Proof.
  unfold mail_pieces. apply Forall_app_2.
  - pieces_ok; destruct (existsb v_phase_review views); try reflexivity; by apply no_eol_check.
  - apply Forall_concat, Forall_fmap, list.Forall_true. intros view.
    change (Forall layout_piece (mail_finding_pieces view)). unfold mail_finding_pieces. cbv zeta.
    apply Forall_app_2; [pieces_ok|]. apply Forall_app_2; [|pieces_ok].
    destruct (f_file_path (v_finding view)); [apply Forall_singleton, file_piece_ok|apply Forall_nil_2].
Qed.

(** ** Messages *)

Lemma report_views_Ok entries views :
  report_views entries = Ok views <->
  exists fs, Forall2 (fun e f => re_content e = Ok f) entries fs /\ views = view_selected <$> fs.
Proof.
  revert views. induction entries as [|e entries IH]; intros views; cbn.
  - split; [intros [= <-]; exists []; split; [constructor|done]|].
    intros (fs & H & ->). by inversion H.
  - rewrite result_bind_Ok. setoid_rewrite result_bind_Ok. split.
    + intros (f & Hf & rest & (fs & Hfs & ->)%IH & [= <-]). exists (f :: fs).
      split; [|done]. constructor; [|done]. destruct (re_content e); cbn in Hf; congruence.
    + intros (fs & H & ->). inversion H as [|? f ? fs' Hf Hfs]; subst. exists f. rewrite Hf.
      split; [done|]. exists (view_selected <$> fs'). split; [|done]. apply IH. by exists fs'.
Qed.

Lemma mail_body_exact repo views remaining :
  0 <= remaining <= usize_max ->
  let doc := document (mail_pieces repo views) in
  match mail_body repo views (plain_text remaining) with
  | (Ok _, b) => str_len doc <= remaining /\ render b = Ok doc
  | (Err e, _) => remaining < str_len doc /\ e = MailLimit
  end.
Proof.
  intros Hr doc. destruct (mail_body_writes repo views) as (s & Hs & E).
  assert (live (plain_text remaining)) as Hl.
  { split; [done|apply measure_ascii_ok; lia|cbn; lia|].
    unfold fits, plain_text, usize_max. cbn. apply andb_true_iff. rewrite !Z.leb_le. lia. }
  specialize (Hs _ Hl). change (rb_markdown (plain_text remaining)) with false in Hs. rewrite E in Hs. fold doc in Hs.
  pose proof (str_len_length doc). pose proof (str_len_nonneg doc).
  destruct (fits (plain_text remaining) doc) eqn:Ef; unfold fits in Ef;
    cbn [rb_used plain_text msum bytes_of scalars_of measure_ascii measure_text rb_bytes rb_scalars] in Ef.
  - rewrite Hs. bool_prop. split; [lia|done].
  - destruct (mail_body _ _ _) as [[|e] ?]; cbn in Hs; [done|]. injection Hs as ->.
    split; [|done]. apply andb_false_iff in Ef as [?|?]; bool_prop; lia.
Qed.

(** What a report's message is made of. *)
Record mail_parts (category : Z -> GeneralCategory) (report : PreparedReport) (h : Handle) (default_from : str)
    (settings : StoredMailSettings) (fs : list ReportFinding) : Prop := {
  mp_settings : mail_settings report h = Ok settings;
  mp_recipients : ms_to settings <> [];
  mp_findings : fs <> [];
  mp_contents : Forall2 (fun e f => re_content e = Ok f) (pr_entries report) fs;
  mp_clean : Forall (clean category) (contributors settings default_from);
  mp_lines : lines_fit settings (view_selected <$> fs) default_from;
}.

Definition message (report : PreparedReport) (default_from : str) (settings : StoredMailSettings)
    (fs : list ReportFinding) : str :=
  wire_of (header_lines settings (view_selected <$> fs) default_from) ++
  document (mail_pieces (pr_repo report) (view_selected <$> fs)).

Section Messages.
Context (category : Z -> GeneralCategory).
Context (ascii_allowed : forall c, 32 <= c <= 126 -> rejects_code_point category c = false).

Lemma wire_cap settings views default_from :
  lines_fit settings views default_from -> str_len (wire_of (header_lines settings views default_from)) <= MESSAGE_MAX.
Proof.
  rewrite lines_fit_iff, wire_len. intros (? & ? & ?). unfold header_lines. cbn [total_len length].
  rewrite !str_len_app, str_len_concat.
  change (str_len (lit "From: ")) with 6. change (str_len (lit "To: ")) with 4.
  change (str_len (lit "Subject: ")) with 9. change (str_len (lit "MIME-Version: 1.0")) with 17.
  change (str_len (lit "Content-Type: text/plain; charset=utf-8")) with 39.
  unfold HEADER_LINE_MAX, MESSAGE_MAX in *. lia.
Qed.

Lemma render_message_Ok report h default_from msg :
  render_message category report h default_from = Ok msg <->
  exists settings fs,
    mail_settings report h = Ok settings /\
    Forall2 (fun e f => re_content e = Ok f) (pr_entries report) fs /\
    Forall (clean category) (contributors settings default_from) /\
    lines_fit settings (view_selected <$> fs) default_from /\
    msg = message report default_from settings fs /\ str_len msg <= MESSAGE_MAX.
Proof.
  unfold render_message, message. rewrite result_bind_Ok. setoid_rewrite report_views_Ok. split.
  - intros (views & (fs & Hfs & ->) & (settings & Hst%map_err_Ok & H)%result_bind_Ok).
    apply result_bind_Ok in H as (wire & Hw%stored_headers_Ok & H); [|done]. destruct Hw as (-> & Hc & Hl).
    exists settings, fs. do 4 (split; [done|]).
    pose proof (wire_cap _ _ _ Hl). set (wire := wire_of _) in *. pose proof (str_len_nonneg wire).
    destruct (Z.ltb_spec MESSAGE_MAX (str_len wire)); [done|].
    pose proof (mail_body_exact (pr_repo report) (view_selected <$> fs) (MESSAGE_MAX - str_len wire)) as Hb.
    cbv zeta in Hb. destruct (mail_body _ _ _) as [[?|e] b]; [|done].
    destruct Hb as [Hle Hd]; [unfold MESSAGE_MAX, usize_max in *; lia|]. rewrite Hd in H.
    cbn [map_err mbind result_bind] in H.
    assert (msg = wire ++ document (mail_pieces (pr_repo report) (view_selected <$> fs))) as -> by congruence.
    split; [done|]. rewrite str_len_app. lia.
  - intros (settings & fs & Hst & Hfs & Hc & Hl & -> & Hm).
    exists (view_selected <$> fs). split; [by exists fs|]. rewrite Hst. cbn [map_err mbind result_bind].
    rewrite (proj2 (stored_headers_Ok category ascii_allowed _ _ _ _)) by done. cbn [mbind result_bind].
    pose proof (wire_cap _ _ _ Hl). set (wire := wire_of _) in *. pose proof (str_len_nonneg wire).
    rewrite str_len_app in Hm. destruct (Z.ltb_spec MESSAGE_MAX (str_len wire)); [lia|].
    pose proof (mail_body_exact (pr_repo report) (view_selected <$> fs) (MESSAGE_MAX - str_len wire)) as Hb.
    cbv zeta in Hb. destruct (mail_body _ _ _) as [[?|e] b].
    + destruct Hb as [Hle Hd]; [unfold MESSAGE_MAX, usize_max in *; lia|]. by rewrite Hd.
    + destruct Hb as [Hgt _]; [unfold MESSAGE_MAX, usize_max in *; lia|]. lia.
Qed.

(** mail dispatch hands the mail program a message exactly when the
    stored settings are readable and name recipients, there are findings and
    all their contents are available, every contributed header text is free
    of line breaks and prohibited characters, each of the header lines fits
    in 8192 bytes and the whole message in 16 MiB; the message is then the
    five header lines followed by the plain document of the report. *)
Theorem mail_messages_are_exact report h default_from msg :
  dispatch_message category report h default_from = Ok (Some msg) <->
  exists settings fs,
    mail_parts category report h default_from settings fs /\
    msg = message report default_from settings fs /\ str_len msg <= MESSAGE_MAX.
Proof.
  unfold dispatch_message. rewrite result_bind_Ok. setoid_rewrite map_err_Ok. split.
  - intros (settings & Hst & H). destruct (ms_to settings) as [|r rs] eqn:Er; [done|].
    destruct (pr_entries report) as [|e es] eqn:Ee; [done|].
    apply result_bind_Ok in H as (m & Hm & [= ->]).
    apply render_message_Ok in Hm as (settings' & fs & Hst' & Hfs & Hc & Hl & -> & Hm).
    rewrite Hst in Hst'. injection Hst' as <-. exists settings, fs. split; [|done].
    split; try done; [by rewrite Er|]. rewrite Ee in Hfs. inversion Hfs. done.
  - intros (settings & fs & [Hst Hr Hf Hfs Hc Hl] & -> & Hm). exists settings. split; [done|].
    destruct (ms_to settings) as [|r rs] eqn:Er; [done|].
    destruct (pr_entries report) as [|e es] eqn:Ee; [by inversion Hfs; subst|].
    rewrite <- Ee in Hfs.
    rewrite (proj2 (render_message_Ok report h default_from (message report default_from settings fs))); [done|].
    exists settings, fs. done.
Qed.

Lemma lines_of_wire lines t :
  Forall no_eol lines ->
  lines_from [] (wire_of lines ++ t) = ((fun l => (l, crlf)) <$> lines) ++ ([], crlf) :: lines_from [] t.
Proof.
  unfold wire_of. induction 1 as [|l lines Hl _ IH]; [done|]. cbn [fmap list_fmap concat].
  rewrite <- !app_assoc, lines_from_plain by done. rewrite <- !app_assoc in IH. cbn [app]. cbn -[fmap].
  f_equal. exact IH.
Qed.

(** C39: whatever the stored addresses, names, titles and descriptions hold, a
    reader of the dispatched message that ends lines at any carriage return
    or line feed finds exactly the five header lines, an empty line, and then
    the report, whose lines and fenced texts read back as they were stored:
    no header and no line of the layout can be forged. *)
Theorem mail_reads_back report h default_from msg :
  dispatch_message category report h default_from = Ok (Some msg) ->
  exists settings fs body,
    mail_parts category report h default_from settings fs /\
    lines_from [] msg =
      ((fun l => (l, crlf)) <$> header_lines settings (view_selected <$> fs) default_from) ++
      ([], crlf) :: lines_from [] body /\
    read_report body = concat (items <$> mail_pieces (pr_repo report) (view_selected <$> fs)).
Proof.
  intros H. unfold dispatch_message in H. apply result_bind_Ok in H as (settings & Hst%map_err_Ok & H).
  destruct (ms_to settings) as [|r rs] eqn:Er; [done|]. destruct (pr_entries report) as [|e es] eqn:Ee; [done|].
  apply result_bind_Ok in H as (m & Hm & [= ->]).
  apply render_message_Ok in Hm as (settings' & fs & Hst' & Hfs & Hc & Hl & -> & _).
  rewrite Hst in Hst'. injection Hst' as <-.
  exists settings, fs, (document (mail_pieces (pr_repo report) (view_selected <$> fs))). split_and!.
  - split; try done; [by rewrite Er|]. rewrite Ee in Hfs. by inversion Hfs.
  - apply lines_of_wire. eapply list.Forall_impl; [by apply header_lines_clean|]. by intros ? [? _].
  - pose proof (read_document _ [] (mail_pieces_ok (pr_repo report) (view_selected <$> fs))) as Hd.
    rewrite !app_nil_r in Hd. exact Hd.
Qed.
End Messages.

(** ** A message *)

Definition mailed_settings : StoredMailSettings := {|
  ms_batch := 3; ms_database := 1; ms_repo_id := 1; ms_owner := lit "o"; ms_repository := lit "r";
  ms_to := [lit "security@example.com"]; ms_from := None; ms_prefix := None |}.

Definition mailed_report : PreparedReport := {|
  pr_repo := forged_repo; pr_batch := 3; pr_mail := Some mailed_settings;
  pr_entries := [{| re_id := 7; re_content := Ok {| rf_id := 7; rf_finding := forging_finding;
                    rf_reviewed_revision := None; rf_phase_review := false |} |}];
  pr_credential := CredNone;
  pr_receipt := {| rr_database := 1; rr_committed := 0; rr_repo_id := 1; rr_members := [] |} |}.

Definition mailed_handle : Handle :=
  {| h_identity := 1; h_db := empty_db; h_published := {[0]}; h_next_flag := 1 |}.

Lemma ascii_category_allows c : 32 <= c <= 126 -> rejects_code_point ascii_category c = false.
Proof.
  intros Hc.
  assert (forallb (fun c => negb (rejects_code_point ascii_category c)) (seqZ 32 95) = true) as H
    by (vm_compute; reflexivity).
  rewrite forallb_forall in H. apply negb_true_iff, H, list_elem_of_In, elem_of_seqZ. lia.
Qed.

Lemma mail_messages_are_exact_witness :
  exists msg, dispatch_message ascii_category mailed_report mailed_handle DEFAULT_FROM = Ok (Some msg) /\
    exists settings fs, msg = message mailed_report DEFAULT_FROM settings fs.
Proof.
  destruct (dispatch_message ascii_category mailed_report mailed_handle DEFAULT_FROM) as [[msg|]|e] eqn:E;
    [|vm_compute in E; discriminate..].
  exists msg. split; [reflexivity|].
  destruct (proj1 (mail_messages_are_exact ascii_category ascii_category_allows mailed_report mailed_handle
    DEFAULT_FROM msg) E) as (settings & fs & _ & Hm & _).
  exists settings, fs. exact Hm.
Defined.

Lemma mail_reads_back_witness :
  exists msg settings fs body,
    dispatch_message ascii_category mailed_report mailed_handle DEFAULT_FROM = Ok (Some msg) /\
    lines_from [] msg =
      ((fun l => (l, crlf)) <$> header_lines settings (view_selected <$> fs) DEFAULT_FROM) ++
      ([], crlf) :: lines_from [] body.
Proof.
  destruct (dispatch_message ascii_category mailed_report mailed_handle DEFAULT_FROM) as [[msg|]|e] eqn:E;
    [|vm_compute in E; discriminate..].
  destruct (mail_reads_back ascii_category ascii_category_allows mailed_report mailed_handle DEFAULT_FROM msg E)
    as (settings & fs & body & _ & H & _).
  exists msg, settings, fs, body. split; [reflexivity|exact H].
Defined.
