(* ===== verification/Dispatch.v ===== *)
(** * Delivering prepared reports

    [loupe-server/src/reporters/github.rs] (the dispatch of an issue: label,
    issue, refreshed installation tokens) and [dispatch_prepared] of
    [routes/jobs.rs], which delivers the entries of a prepared report one by
    one and marks each delivered finding before the next.

    The tracker, the token service and the mail program are an oracle: what
    they answer may depend on everything sent so far.  [w_sent] logs every
    request that was posted.  Between two accesses to the database other
    requests run; [gap] says which operations they were. *)
From Stdlib Require Import ZArith Lia.
From stdpp Require Import base gmap sets list strings numbers.
From S2P Require Import Prelude Domain Vocabulary Store Issuer Repos Findings Reports System Text Render RenderTheorems ReportReader Email.
Local Open Scope Z_scope.

#[export] Instance eta_PreparedReport : Eta PreparedReport := fun r => {|
  pr_repo := pr_repo r; pr_batch := pr_batch r; pr_mail := pr_mail r; pr_entries := pr_entries r;
  pr_credential := pr_credential r; pr_receipt := pr_receipt r |}.

(** ** The outside world *)

Inductive Sent :=
| SLabel (owner repo : str) (label : LabelSpec)
| SIssue (owner repo title body : str) (labels : list str).

(** A response: its status, whether its body could be read within the bound,
    and what the two decoders of [reporters/ingress.rs] make of the body. *)
Record HttpAnswer := {
  ha_status : Z;
  ha_body : bool;
  ha_label_exists : result unit bool;
  ha_receipt : result unit (option Z);
}.

Record World := { w_sent : list Sent; w_mail : list str }.

#[export] Instance eta_World : Eta World := fun w => {| w_sent := w_sent w; w_mail := w_mail w |}.

Record Oracle := {
  (** [post_json]: [None] when the request fails. *)
  o_post : list Sent -> Sent -> option HttpAnswer;
  (** [InstallationTokens::token_for]. *)
  o_token : list Sent -> bool;
  (** [GithubAppKey::from_pem] of the stored app. *)
  o_app_key : bytes -> bool;
  (** The mail program accepted the message. *)
  o_sendmail : list str -> str -> bool;
}.

Definition is_success (status : Z) : bool := (200 <=? status) && (status <=? 299).

(** [anyhow::Error] of a dispatch. *)
Inductive DispatchError :=
| DUnavailable (why : Unavailable)
| DOwner
| DReport (e : ReportError)
| DMail (e : MailError)
| DStorage (e : Error)
| DCredential
| DPost
| DStatus (status : Z)
| DBody
| DDestination
| DEntry.

Definition is_app (credential : SelectedCredential) : bool :=
  match credential with CredApp _ => true | _ => false end.

Section Dispatch.
Context (category : Z -> GeneralCategory) (phase_tail : JobRow -> Tx Claim.Claimed).
Context (o : Oracle).

(** [ReporterCredential::selected] *)
Definition selected_credential (batch : PreparedReport) (h : Handle) : result DispatchError SelectedCredential :=
  _ ← map_err DStorage (check_committed batch h);
  match pr_credential batch with
  | CredApp stored => if o_app_key o stored then Ok (CredApp stored) else Err DCredential
  | c => Ok c
  end.

Definition bearer_for (credential : SelectedCredential) (w : World) : result DispatchError unit :=
  match credential with
  | CredPat pat => if valid_utf8 pat then Ok tt else Err DCredential
  | CredApp _ => if o_token o (w_sent w) then Ok tt else Err DCredential
  | CredNone => Err DCredential
  end.

Definition post_json (sent : Sent) (w : World) : result DispatchError HttpAnswer * World :=
  (ok_or (o_post o (w_sent w) sent) DPost, w <|w_sent := w_sent w ++ [sent]|>).

Definition post_with_refresh (credential : SelectedCredential) (sent : Sent) (w : World)
    : result DispatchError HttpAnswer * World :=
  match post_json sent w with
  | (Err e, w) => (Err e, w)
  | (Ok resp, w) =>
      if negb (is_app credential) then (Ok resp, w)
      else if negb (ha_status resp =? 401) then (Ok resp, w)
      else
        match bearer_for credential w with
        | Err e => (Err e, w)
        | Ok _ => post_json sent w
        end
  end.

Definition ensure_label (credential : SelectedCredential) (owner repo : str) (label : LabelSpec) (w : World)
    : result DispatchError unit * World :=
  match post_with_refresh credential (SLabel owner repo label) w with
  | (Err e, w) => (Err e, w)
  | (Ok resp, w) =>
      if is_success (ha_status resp) then (Ok tt, w)
      else if negb (ha_body resp) then (Err DBody, w)
      else if ha_status resp =? 422 then
        match ha_label_exists resp with
        | Ok true => (Ok tt, w)
        | Ok false => (Err (DStatus (ha_status resp)), w)
        | Err _ => (Err DBody, w)
        end
      else (Err (DStatus (ha_status resp)), w)
  end.

Definition issue_request (repo : RepoRow) (owner name : str) (view : ReportView) (body : str) : Sent :=
  SIssue owner name (render_title (v_finding view)) body
    [lit "loupe"; label_name (severity_label (f_severity (v_finding view)))].

(** One iteration of the delivery loop. *)
Definition deliver_one (credential : SelectedCredential) (repo : RepoRow) (owner name : str)
    (view : ReportView) (w : World) : result DispatchError (option Z) * World :=
  match render_view repo view with
  | Err e => (Err (DReport e), w)
  | Ok body =>
      match ensure_label credential owner name (severity_label (f_severity (v_finding view))) w with
      | (Err e, w) => (Err e, w)
      | (Ok _, w) =>
          match post_with_refresh credential (issue_request repo owner name view body) w with
          | (Err e, w) => (Err e, w)
          | (Ok resp, w) =>
              if negb (ha_body resp) then (Err DBody, w)
              else if negb (is_success (ha_status resp)) then (Err (DStatus (ha_status resp)), w)
              else
                match ha_receipt resp with
                | Ok number => (Ok number, w)
                | Err _ => (Err DBody, w)
                end
          end
      end
  end.

Fixpoint deliver_each (credential : SelectedCredential) (repo : RepoRow) (owner name : str)
    (views : list ReportView) (w : World) : result DispatchError (list Z) * World :=
  match views with
  | [] => (Ok [], w)
  | view :: views' =>
      match deliver_one credential repo owner name view w with
      | (Err e, w) => (Err e, w)
      | (Ok number, w) =>
          match deliver_each credential repo owner name views' w with
          | (Err e, w) => (Err e, w)
          | (Ok numbers, w) => (Ok (match number with Some n => [n] | None => [] end ++ numbers), w)
          end
      end
  end.

(** [for report_finding in findings { validate_view(repo, *report_finding)?; }] *)
Fixpoint validate_each (repo : RepoRow) (views : list ReportView) : result ReportError unit :=
  match views with
  | [] => Ok tt
  | view :: views' => _ ← validate_view repo view; validate_each repo views'
  end.

Definition deliver (repo : RepoRow) (views : list ReportView) (credential : SelectedCredential) (w : World)
    : result DispatchError (list Z) * World :=
  match r_reporting repo with
  | GithubIssue owner name _ =>
      match views with
      | [] => (Ok [], w)
      | _ =>
          match validate_each repo views with
          | Err e => (Err (DReport e), w)
          | Ok _ =>
              match bearer_for credential w with
              | Err e => (Err e, w)
              | Ok _ => deliver_each credential repo owner name views w
              end
          end
      end
  | _ => (Err DDestination, w)
  end.

Definition dispatch_entry (batch : PreparedReport) (h : Handle) (index : nat) (w : World)
    : result DispatchError (list Z) * World :=
  match pr_entries batch !! index with
  | None => (Err DEntry, w)
  | Some entry =>
      match re_content entry with
      | Err e => (Err (DUnavailable e), w)
      | Ok finding =>
          match selected_credential batch h with
          | Err e => (Err e, w)
          | Ok credential => deliver (pr_repo batch) [view_selected finding] credential w
          end
      end
  end.

(** [str::eq_ignore_ascii_case] *)
Definition to_ascii_lowercase (c : Z) : Z := if (65 <=? c) && (c <=? 90) then c + 32 else c.
Definition eq_ignore_ascii_case (s t : str) : bool :=
  str_eqb (to_ascii_lowercase <$> s) (to_ascii_lowercase <$> t).

(** [AppState::check_github_app_target_owner] *)
Definition check_github_app_target_owner (allowed_owners : option (list str)) (target_owner : str) : bool :=
  match allowed_owners with
  | Some allowed => existsb (fun owner => eq_ignore_ascii_case owner target_owner) allowed
  | None => true
  end.

(** The loop of [dispatch_prepared] over the entries of a GitHub report, from
    [index] on; [gap i] runs before the receipt of entry [i] is marked. *)
Fixpoint dispatch_entries (gap : nat -> list Op) (batch : PreparedReport) (left index : nat) (now : Z)
    (h : Handle) (w : World) : result DispatchError unit * Handle * World :=
  match left with
  | O => (Ok tt, h, w)
  | S left' =>
      match pr_entries batch !! index with
      | None => (Err DEntry, h, w)
      | Some entry =>
          match dispatch_entry batch h index w with
          | (Err e, w) => (Err e, h, w)
          | (Ok _, w) =>
              let h := exec_all phase_tail (gap index) h in
              match mark_one (pr_receipt batch) h (re_id entry) now with
              | (Err e, receipt, h) => (Err (DStorage e), h, w)
              | (Ok _, receipt, h) =>
                  dispatch_entries gap (batch <|pr_receipt := receipt|>) left' (S index) now h w
              end
          end
      end
  end.

(** [EmailReporter::dispatch] *)
Definition email_dispatch (batch : PreparedReport) (h : Handle) (w : World) : result DispatchError unit * World :=
  match dispatch_message category batch h DEFAULT_FROM with
  | Err e => (Err (DMail e), w)
  | Ok None => (Ok tt, w)
  | Ok (Some message) =>
      (if o_sendmail o (w_mail w) message then Ok tt else Err DPost, w <|w_mail := w_mail w ++ [message]|>)
  end.

Definition dispatch_prepared (allowed_owners : option (list str)) (gap : nat -> list Op)
    (preparation : Preparation) (now : Z) (h : Handle) (w : World)
    : result DispatchError unit * Handle * World :=
  match preparation with
  | NoReport => (Ok tt, h, w)
  | ReportUnavailable why => (Err (DUnavailable why), h, w)
  | Ready batch =>
      let refused :=
        match r_reporting (pr_repo batch) with
        | GithubIssue target_owner _ None => negb (check_github_app_target_owner allowed_owners target_owner)
        | _ => false
        end in
      if refused then (Err DOwner, h, w)
      else
        match r_reporting (pr_repo batch) with
        | GithubIssue _ _ _ => dispatch_entries gap batch (length (pr_entries batch)) 0 now h w
        | _ =>
            match email_dispatch batch h w with
            | (Err e, w) => (Err e, h, w)
            | (Ok _, w) =>
                let h := exec_all phase_tail (gap O) h in
                match mark_all (pr_receipt batch) h now with
                | (Err e, _, h) => (Err (DStorage e), h, w)
                | (Ok _, _, h) => (Ok tt, h, w)
                end
            end
        end
  end.

End Dispatch.

(** ** What a dispatch creates and marks *)

Section Theorems.
Context (category : Z -> GeneralCategory) (phase_tail : JobRow -> Tx Claim.Claimed).
Context (o : Oracle).

Definition answered_success (pre : list Sent) (s : Sent) : bool :=
  match o_post o pre s with Some resp => is_success (ha_status resp) | None => false end.

Definition is_issue (s : Sent) : bool := match s with SIssue _ _ _ _ _ => true | _ => false end.

(** The issues the tracker created while [log] was sent after [pre]. *)
Fixpoint created (pre log : list Sent) : list Sent :=
  match log with
  | [] => []
  | s :: log' => (if is_issue s && answered_success pre s then [s] else []) ++ created (pre ++ [s]) log'
  end.

Lemma created_app pre log log' : created pre (log ++ log') = created pre log ++ created (pre ++ log) log'.
Proof.
  revert pre. induction log as [|s log IH]; intros pre; cbn [app created]; [by rewrite app_nil_r|].
  rewrite IH, <- !app_assoc. done.
Qed.

(** [w'] follows [w]: more was sent, which created [issues]; no mail went out. *)
Record follows (w w' : World) (issues : list Sent) : Prop := {
  follows_sent : exists log, w_sent w' = w_sent w ++ log /\ created (w_sent w) log = issues;
  follows_mail : w_mail w' = w_mail w;
}.

Lemma follows_refl w : follows w w [].
Proof. split; [|done]. exists []. by rewrite app_nil_r. Qed.

Lemma follows_trans w1 w2 w3 a b : follows w1 w2 a -> follows w2 w3 b -> follows w1 w3 (a ++ b).
Proof.
  intros [(l1 & E1 & C1) M1] [(l2 & E2 & C2) M2]. split; [|congruence].
  exists (l1 ++ l2). rewrite E2, E1, app_assoc. split; [done|]. by rewrite created_app, C1, <- E1, C2.
Qed.

Lemma post_json_follows s w :
  follows w (post_json o s w).2 (if is_issue s && answered_success (w_sent w) s then [s] else []).
Proof. split; [|done]. exists [s]. cbn. by rewrite app_nil_r. Qed.

(** A post, refreshed or not, creates an issue exactly when it returns a
    successful response to an issue request. *)
Definition post_creates (s : Sent) (r : result DispatchError HttpAnswer) : list Sent :=
  match r with
  | Ok resp => if is_issue s && is_success (ha_status resp) then [s] else []
  | Err _ => []
  end.

Lemma post_json_creates s w r w' : post_json o s w = (r, w') -> follows w w' (post_creates s r).
Proof.
  intros E. pose proof (post_json_follows s w) as H. rewrite E in H. unfold post_json in E.
  unfold answered_success in H. injection E as <- _. cbn [snd] in H.
  destruct (o_post o (w_sent w) s); cbn in *; [done|]. by rewrite andb_false_r in H.
Qed.

Lemma post_with_refresh_creates credential s w r w' :
  post_with_refresh o credential s w = (r, w') -> follows w w' (post_creates s r).
Proof.
  unfold post_with_refresh. destruct (post_json o s w) as [[resp|e] w1] eqn:E1;
    pose proof (post_json_creates _ _ _ _ E1) as H1; [|by intros [= <- <-]].
  destruct (negb (is_app credential)); [by intros [= <- <-]|].
  destruct (ha_status resp =? 401) eqn:E401; cbn [negb]; [|by intros [= <- <-]].
  apply Z.eqb_eq in E401. assert (post_creates s (Ok resp) = []) as E0.
  { cbn. rewrite E401. by rewrite andb_false_r. }
  rewrite E0 in H1. destruct (bearer_for o credential w1); [|by intros [= <- <-]].
  intros H2%post_json_creates. exact (follows_trans _ _ _ _ _ H1 H2).
Qed.

Lemma ensure_label_creates credential owner repo label w r w' :
  ensure_label o credential owner repo label w = (r, w') -> follows w w' [].
Proof.
  unfold ensure_label. destruct (post_with_refresh o credential (SLabel owner repo label) w) as [[resp|e] w1] eqn:E;
    apply post_with_refresh_creates in E; cbn in E; [|by intros [= <- <-]].
  intros H. enough (w' = w1) by (by subst). repeat case_match; naive_solver.
Qed.

Lemma deliver_one_creates credential repo owner name view w r w' :
  deliver_one o credential repo owner name view w = (r, w') ->
  exists issues, follows w w' issues /\
    match r with
    | Ok _ => exists body, render_view repo view = Ok body /\ issues = [issue_request repo owner name view body]
    | Err _ => issues = [] \/
        exists body, render_view repo view = Ok body /\ issues = [issue_request repo owner name view body]
    end.
Proof.
  unfold deliver_one. destruct (render_view repo view) as [body|e];
    [|intros [= <- <-]; exists []; split; [apply follows_refl|by left]].
  destruct (ensure_label o _ _ _ _ w) as [[[]|e] w1] eqn:E1; apply ensure_label_creates in E1;
    [|intros [= <- <-]; exists []; split; [done|by left]].
  destruct (post_with_refresh o _ _ w1) as [[resp|e] w2] eqn:E2; apply post_with_refresh_creates in E2; cbn in E2;
    pose proof (follows_trans _ _ _ _ _ E1 E2) as H; cbn [app] in H;
    [|intros [= <- <-]; exists []; split; [done|by left]].
  destruct (is_success (ha_status resp)) eqn:Es; cbn [negb]; destruct (ha_body resp); cbn [negb];
    try (intros [= <- <-]; exists []; split; [done|by left]);
    try (intros [= <- <-]; eexists; split; [exact H|]; right; by exists body).
  destruct (ha_receipt resp); intros [= <- <-]; eexists; (split; [exact H|]); [by exists body|].
  right. by exists body.
Qed.

(** The issue an entry of a report for [repo] stands for. *)
Definition issue_of (repo : RepoRow) (entry : ReportEntry) : option Sent :=
  match r_reporting repo, re_content entry with
  | GithubIssue owner name _, Ok f =>
      match render_view repo (view_selected f) with
      | Ok body => Some (issue_request repo owner name (view_selected f) body)
      | Err _ => None
      end
  | _, _ => None
  end.

Definition first_issues (repo : RepoRow) (entries : list ReportEntry) (issues : list Sent) : Prop :=
  Forall2 (fun e s => issue_of repo e = Some s) entries issues.

Lemma dispatch_entry_creates batch h index w r w' :
  dispatch_entry o batch h index w = (r, w') ->
  exists issues, follows w w' issues /\
    match r with
    | Ok _ => exists entry s, pr_entries batch !! index = Some entry /\
                issue_of (pr_repo batch) entry = Some s /\ issues = [s]
    | Err _ => issues = [] \/ exists entry s, pr_entries batch !! index = Some entry /\
                issue_of (pr_repo batch) entry = Some s /\ issues = [s]
    end.
Proof.
  assert (forall e, (Err e, w) = (r, w') -> exists issues, follows w w' issues /\ match r with
    | Ok _ => exists entry s, pr_entries batch !! index = Some entry /\
                issue_of (pr_repo batch) entry = Some s /\ issues = [s]
    | Err _ => issues = [] \/ exists entry s, pr_entries batch !! index = Some entry /\
                issue_of (pr_repo batch) entry = Some s /\ issues = [s] end) as Hnone.
  { intros e [= <- <-]. exists []. split; [apply follows_refl|by left]. }
  unfold dispatch_entry. destruct (pr_entries batch !! index) as [entry|] eqn:Ee; [|apply Hnone].
  destruct (re_content entry) as [f|] eqn:Ec; [|apply Hnone].
  destruct (selected_credential o batch h) as [credential|]; [|apply Hnone].
  unfold deliver. destruct (r_reporting (pr_repo batch)) as [owner name pat| |] eqn:Er; [|apply Hnone..].
  destruct (validate_each _ _); [|apply Hnone]. destruct (bearer_for o credential w); [|apply Hnone].
  cbn [deliver_each]. destruct (deliver_one o credential (pr_repo batch) owner name (view_selected f) w)
    as [[number|e] w1] eqn:E1; apply deliver_one_creates in E1 as (issues & Hf & Hr); intros [= <- <-];
    exists issues; (split; [done|]).
  - destruct Hr as (body & Hb & ->). exists entry. eexists. split; [done|]. split; [|done].
    unfold issue_of. by rewrite Er, Ec, Hb.
  - destruct Hr as [->|(body & Hb & ->)]; [by left|right]. exists entry. eexists. split; [done|]. split; [|done].
    unfold issue_of. by rewrite Er, Ec, Hb.
Qed.

(** The operations that mark the first [k] entries from [index] on, with what
    other requests did in between. *)
Fixpoint marking (gap : nat -> list Op) (batch : PreparedReport) (k index : nat) (now : Z) (h : Handle)
    : list Op :=
  match k, pr_entries batch !! index with
  | S k', Some entry =>
      let ops := gap index ++ [OpMarkOne (pr_receipt batch) (re_id entry) now] in
      let receipt := (mark_one (pr_receipt batch) (exec_all phase_tail (gap index) h) (re_id entry) now).1.2 in
      ops ++ marking gap (batch <|pr_receipt := receipt|>) k' (S index) now (exec_all phase_tail ops h)
  | _, _ => []
  end.

Lemma exec_all_app ops ops' h :
  exec_all phase_tail (ops ++ ops') h = exec_all phase_tail ops' (exec_all phase_tail ops h).
Proof. unfold exec_all. apply foldl_app. Qed.

Lemma dispatch_entries_exact gap batch left index now h w r h' w' :
  (index + left = length (pr_entries batch))%nat ->
  dispatch_entries phase_tail o gap batch left index now h w = (r, h', w') ->
  exists k m issues,
    (k <= m <= S k)%nat /\ (m <= left)%nat /\ follows w w' issues /\
    first_issues (pr_repo batch) (take m (drop index (pr_entries batch))) issues /\
    h' = exec_all phase_tail (marking gap batch k index now h) h /\
    (r = Ok tt -> k = left).
Proof.
  revert batch index h w. induction left as [|left IH]; intros batch index h w Hl H.
  { injection H as <- <- <-. exists O, O, []. split_and!; try lia; try done; [apply follows_refl|constructor]. }
  cbn [dispatch_entries] in H. destruct (lookup_lt_is_Some_2 (pr_entries batch) index) as [entry Ee]; [lia|].
  rewrite Ee in H. pose proof (drop_S _ _ _ Ee) as Hd.
  destruct (dispatch_entry o batch h index w) as [[ns|e] w1] eqn:E1; apply dispatch_entry_creates in E1
    as (issues1 & Hf1 & Hr1).
  - destruct Hr1 as (entry' & s & Ee' & Hs & ->). rewrite Ee in Ee'. injection Ee' as <-.
    set (h1 := exec_all phase_tail (gap index) h) in *.
    destruct (mark_one (pr_receipt batch) h1 (re_id entry) now) as [[rm receipt] h2] eqn:Em.
    assert (exec_all phase_tail (gap index ++ [OpMarkOne (pr_receipt batch) (re_id entry) now]) h = h2) as Eh2.
    { rewrite exec_all_app. fold h1. cbn. by rewrite Em. }
    destruct rm as [n|e].
    + destruct (IH (batch <|pr_receipt := receipt|>) (S index) h2 w1) as (k & m & issues & ? & ? & Hf & Hi & -> & Hk);
        [cbn; lia|done|].
      exists (S k), (S m), (s :: issues). split_and!; try lia.
      * exact (follows_trans _ _ _ _ _ Hf1 Hf).
      * rewrite Hd. cbn [take]. constructor; done.
      * cbn [marking]. rewrite Ee, exec_all_app. fold h1. rewrite Em, Eh2. done.
      * intros ->. by rewrite Hk.
    + injection H as <- <- <-. exists 1%nat, 1%nat, [s]. split_and!; try lia; try done.
      * rewrite Hd. cbn [take]. repeat constructor. done.
      * cbn [marking]. rewrite Ee, app_nil_r. done.
  - injection H as <- <- <-. destruct Hr1 as [->|(entry' & s & Ee' & Hs & ->)].
    + exists O, O, []. split_and!; try lia; try done. constructor.
    + rewrite Ee in Ee'. injection Ee' as <-. exists O, 1%nat, [s]. split_and!; try lia; try done.
      rewrite Hd. cbn [take]. repeat constructor. done.
Qed.

Lemma mail_dispatch_marks gap batch now h w r h' w' :
  match email_dispatch category o batch h w with
  | (Err e, w) => (Err e, h, w)
  | (Ok _, w) =>
      let h := exec_all phase_tail (gap O) h in
      match mark_all (pr_receipt batch) h now with
      | (Err e, _, h) => (Err (DStorage e), h, w)
      | (Ok _, _, h) => (Ok tt, h, w)
      end
  end = (r, h', w') ->
  w_sent w' = w_sent w /\
  ((w_mail w' = w_mail w /\
    (h' = h /\ r <> Ok tt \/
     pr_entries batch = [] /\ h' = exec_all phase_tail (gap O ++ [OpMarkAll (pr_receipt batch) now]) h)) \/
   exists message, w_mail w' = w_mail w ++ [message] /\
     dispatch_message category batch h DEFAULT_FROM = Ok (Some message) /\
     (if o_sendmail o (w_mail w) message
      then h' = exec_all phase_tail (gap O ++ [OpMarkAll (pr_receipt batch) now]) h
      else h' = h /\ r <> Ok tt)).
Proof.
  assert (forall h1, match mark_all (pr_receipt batch) (exec_all phase_tail (gap O) h) now with
      | (Err e, _, h) => (Err (DStorage e), h, h1)
      | (Ok _, _, h) => (Ok tt, h, h1) end = (r, h', w') ->
    w' = h1 /\ h' = exec_all phase_tail (gap O ++ [OpMarkAll (pr_receipt batch) now]) h) as Hmark.
  { intros w1. rewrite exec_all_app. cbn. destruct (mark_all _ _ _) as [[[?|?] ?] ?]; by intros [= <- <- <-]. }
  unfold email_dispatch. cbv zeta. destruct (dispatch_message _ _ _ _) as [[message|]|e] eqn:Em.
  - destruct (o_sendmail o (w_mail w) message) eqn:Es.
    + intros [-> ->]%Hmark. split; [done|]. right. exists message. by rewrite Es.
    + intros [= <- <- <-]. split; [done|]. right. exists message. by rewrite Es.
  - intros [-> ->]%Hmark. split; [done|]. left. split; [done|]. right. split; [|done].
    unfold dispatch_message in Em. apply result_bind_Ok in Em as (settings & _ & Em).
    destruct (ms_to settings); [done|]. destruct (pr_entries batch); [done|].
    apply result_bind_Ok in Em as (? & _ & ?). done.
  - intros [= <- <- <-]. split; [done|]. left. split; [done|]. by left.
Qed.

(** C10: delivering a prepared report creates GitHub issues for a first part of
    its entries, in order and at most once each, and marks as reported exactly
    those before the first failure (of all of them, when it reports success):
    no finding is marked before the tracker acknowledged its issue.  A mail
    report sends at most one message and marks its findings only after the
    mail program accepted it.  Whatever else happens to the database in the
    meantime, nothing but these marks is written. *)
Theorem dispatch_marks_what_it_delivered allowed_owners gap batch now h w r h' w' :
  dispatch_prepared category phase_tail o allowed_owners gap (Ready batch) now h w = (r, h', w') ->
  match r_reporting (pr_repo batch) with
  | GithubIssue _ _ _ =>
      exists k m issues,
        (k <= m <= S k)%nat /\ (m <= length (pr_entries batch))%nat /\
        follows w w' issues /\ first_issues (pr_repo batch) (take m (pr_entries batch)) issues /\
        h' = exec_all phase_tail (marking gap batch k 0 now h) h /\
        (r = Ok tt -> k = length (pr_entries batch))
  | _ =>
      w_sent w' = w_sent w /\
      ((w_mail w' = w_mail w /\
        (h' = h /\ r <> Ok tt \/
         pr_entries batch = [] /\ h' = exec_all phase_tail (gap O ++ [OpMarkAll (pr_receipt batch) now]) h)) \/
       exists message, w_mail w' = w_mail w ++ [message] /\
         dispatch_message category batch h DEFAULT_FROM = Ok (Some message) /\
         (if o_sendmail o (w_mail w) message
          then h' = exec_all phase_tail (gap O ++ [OpMarkAll (pr_receipt batch) now]) h
          else h' = h /\ r <> Ok tt))
  end.
Proof.
  unfold dispatch_prepared. intros H.
  destruct (r_reporting (pr_repo batch)) as [owner name pat|to from prefix|].
  - destruct (match pat with Some _ => false | None => _ end).
    + injection H as <- <- <-. exists O, O, []. split_and!; try lia; try done; [apply follows_refl|constructor].
    + apply dispatch_entries_exact in H; [|done]. by rewrite drop_0 in H.
  - by apply mail_dispatch_marks in H.
  - by apply mail_dispatch_marks in H.
Qed.
End Theorems.

(** ** A delivery *)

Definition obliging : Oracle := {|
  o_post := fun _ s => Some {| ha_status := 201; ha_body := true; ha_label_exists := Ok false;
                               ha_receipt := Ok (Some 1) |};
  o_token := fun _ => true; o_app_key := fun _ => true; o_sendmail := fun _ _ => true |}.

Definition tracked_report : PreparedReport :=
  mailed_report <|pr_repo := forged_repo <|r_reporting := GithubIssue (lit "o") (lit "r") (Some 1)|>|>
                <|pr_mail := None|> <|pr_credential := CredPat (lit "token")|>
                <|pr_receipt := {| rr_database := 1; rr_committed := 0; rr_repo_id := 1;
                    rr_members := [{| m_id := 7; m_identity := lit "id"; m_completed := false |}] |}|>.

Definition tracked_handle : Handle :=
  mailed_handle <|h_db := empty_db <|findings :=
    {[7 := Findings.new_row 7 1 1 forging_finding Confirmed false 0 (lit "id")]}|>|>.

Lemma dispatch_marks_what_it_delivered_witness :
  exists w' h',
    dispatch_prepared ascii_category (fun _ _ => Err ScopeDenied) obliging None (fun _ => []) (Ready tracked_report)
      50 tracked_handle {| w_sent := []; w_mail := [] |} = (Ok tt, h', w') /\
    exists issues, follows obliging {| w_sent := []; w_mail := [] |} w' issues /\ length issues = 1%nat.
Proof.
  destruct (dispatch_prepared ascii_category (fun _ _ => Err ScopeDenied) obliging None (fun _ => [])
    (Ready tracked_report) 50 tracked_handle {| w_sent := []; w_mail := [] |}) as [[[[]|e] h'] w'] eqn:E;
    [|vm_compute in E; discriminate].
  exists w', h'. split; [reflexivity|].
  destruct (dispatch_marks_what_it_delivered ascii_category (fun _ _ => Err ScopeDenied) obliging None
    (fun _ => []) tracked_report 50 tracked_handle _ _ _ _ E) as (k & m & issues & Hkm & Hm & Hf & Hi & _ & Hk).
  exists issues. split; [exact Hf|]. specialize (Hk eq_refl). cbn in Hk, Hm.
  apply Forall2_length in Hi. rewrite <- Hi, length_take. cbn. lia.
Defined.
