(* ===== verification/GithubApp.v ===== *)
(** * Installation tokens of the GitHub App

    [loupe-server/src/reporters/github_app.rs] and the decoders it uses of
    [reporters/ingress.rs]: the app's signed claims, the two requests that mint a token
    for one repository, the bounded read of the answer, and the cache.  The lock of the cache
    is held across a mint, so operations on it happen one after the other.
    Signing, base64, JSON and GitHub are parameters. *)

From S2P Require Import Prelude Text Buffers Repos Dispatch.
From Stdlib Require Import ZArith Lia.
From stdpp Require Import base sets list option numbers strings gmap.
Local Open Scope Z_scope.

Definition JWT_BACKDATE_SECS : Z := 60.
Definition JWT_LIFETIME_SECS : Z := 540.
Definition TOKEN_CACHE_SECS : Z := 50 * 60.
Definition MAX_TOKEN_RESPONSE_BYTES : Z := 256 * 1024.
Definition ACCEPT : str := lit "application/vnd.github+json".
Definition API_VERSION : str := lit "2022-11-28".

Record JwtClaims := { iat : Z; exp : Z; iss : str }.

(** The key, by what it signs. *)
Record GithubAppKey := { app_id : Z; sign : list Z -> option (list Z) }.

Record AccessTokenRequest := { repositories : list str; issues : str }.

Inductive ApiCall := ApiGet | ApiPost (body : AccessTokenRequest).

(** [github_request] *)
Record ApiRequest := { call : ApiCall; url : str; authorization : str; accept : str; api_version : str }.
Definition github_request (c : ApiCall) (u bearer : str) : ApiRequest :=
  {| call := c; url := u; authorization := lit "Bearer " ++ bearer; accept := ACCEPT; api_version := API_VERSION |}.

Record Response := { status : Z; content_length : option Z; chunks : list (result unit (list Z)) }.

Inductive TokenError :=
| TSign | TUrl | TSend | TBody | TNotInstalled | TStatus (status : Z) | TDecode.

Abbreviation TokenKey := (Z * str * str)%type.
Record CachedToken := { token : str; expires_at : Z }.

(** The cache, and everything sent so far. *)
Record Tokens := { cache : gmap TokenKey CachedToken; requests : list ApiRequest }.

Definition quoted (s : string) : str := [34] ++ lit s ++ [34].

Section Tokens.
Context (claims_json : JwtClaims -> option (list Z)) (b64url : list Z -> str).
Context (join : str -> option str).
Context (send : list ApiRequest -> ApiRequest -> option Response).
Context (installation_of : list Z -> option Z) (token_of : list Z -> option str).

(** [GithubAppKey::sign_jwt] *)
Definition sign_jwt (key : GithubAppKey) (now : Z) : result TokenError str :=
  let header := b64url (lit "{" ++ quoted "alg" ++ lit ":" ++ quoted "RS256" ++ lit "," ++ quoted "typ" ++ lit ":" ++ quoted "JWT" ++ lit "}") in
  match claims_json {| iat := wrapping_add now (- JWT_BACKDATE_SECS); exp := wrapping_add now JWT_LIFETIME_SECS;
                       iss := Repos.show_i64 (app_id key) |} with
  | None => Err TSign
  | Some claims =>
      let signing_input := header ++ lit "." ++ b64url claims in
      match sign key (as_bytes signing_input) with
      | None => Err TSign
      | Some sig => Ok (signing_input ++ lit "." ++ b64url sig)
      end
  end.

(** Sending a request, which the state records. *)
Definition exchange (r : ApiRequest) (st : Tokens) : result TokenError Response * Tokens :=
  (match send (requests st) r with Some resp => Ok resp | None => Err TSend end,
   {| cache := cache st; requests := requests st ++ [r] |}).

(** [ingress::read] *)
Definition read (resp : Response) : result TokenError (list Z) :=
  match (Response.read_response_bytes (content_length resp) (chunks resp)).1 with
  | Ok b => Ok (as_ref b)
  | Err _ => Err TBody
  end.

(** [check_installation_status], [check_access_token_status] *)
Definition check_installation_status (status : Z) : result TokenError unit :=
  if status =? 404 then Err TNotInstalled else if is_success status then Ok tt else Err (TStatus status).
Definition check_access_token_status (status : Z) : result TokenError unit :=
  if is_success status then Ok tt else Err (TStatus status).

(** [lookup_installation] after the answer has come, and [mint_token] likewise. *)
Definition installation_answer (resp : Response) : result TokenError Z :=
  body ← read resp;
  _ ← check_installation_status (status resp);
  match installation_of body with Some id => Ok id | None => Err TDecode end.

(** [read_token_response] *)
Fixpoint collect_token (chunks : list (result unit (list Z))) (body : list Z) : result TokenError (list Z) :=
  match chunks with
  | [] => Ok body
  | Err _ :: _ => Err TBody
  | Ok chunk :: rest =>
      if MAX_TOKEN_RESPONSE_BYTES - len body <? len chunk then Err TBody else collect_token rest (body ++ chunk)
  end.
Definition read_token_response (resp : Response) : result TokenError (list Z) :=
  if match content_length resp with Some n => MAX_TOKEN_RESPONSE_BYTES <? n | None => false end then Err TBody
  else collect_token (chunks resp) [].
Definition token_answer (resp : Response) : result TokenError str :=
  body ← read_token_response resp;
  _ ← check_access_token_status (status resp);
  match token_of body with Some t => Ok t | None => Err TDecode end.

Definition installation_path (owner repo : str) : str :=
  lit "/repos/" ++ owner ++ lit "/" ++ repo ++ lit "/installation".
Definition token_path (installation : Z) : str :=
  lit "/app/installations/" ++ Repos.show_i64 installation ++ lit "/access_tokens".

(** [lookup_installation] *)
Definition lookup_installation (jwt owner repo : str) (st : Tokens) : result TokenError Z * Tokens :=
  match join (installation_path owner repo) with
  | None => (Err TUrl, st)
  | Some u =>
      let (resp, st) := exchange (github_request ApiGet u jwt) st in
      (resp ≫= installation_answer, st)
  end.

(** [mint_token] *)
Definition scoped (repo : str) : AccessTokenRequest := {| repositories := [repo]; issues := lit "write" |}.
Definition mint_token (jwt : str) (installation : Z) (repo : str) (st : Tokens) : result TokenError str * Tokens :=
  match join (token_path installation) with
  | None => (Err TUrl, st)
  | Some u =>
      let (resp, st) := exchange (github_request (ApiPost (scoped repo)) u jwt) st in
      (resp ≫= token_answer, st)
  end.

(** [InstallationTokens::token_for] *)
Definition token_for (key : GithubAppKey) (owner repo : str) (now : Z) (st : Tokens) : result TokenError str * Tokens :=
  let cache_key := (app_id key, owner, repo) in
  let miss :=
    match sign_jwt key now with
    | Err e => (Err e, st)
    | Ok jwt =>
        match lookup_installation jwt owner repo st with
        | (Err e, st) => (Err e, st)
        | (Ok installation, st) =>
            match mint_token jwt installation repo st with
            | (Err e, st) => (Err e, st)
            | (Ok t, st) =>
                (Ok t, {| cache := <[cache_key := {| token := t; expires_at := wrapping_add now TOKEN_CACHE_SECS |}]> (cache st);
                          requests := requests st |})
            end
        end
    end in
  match cache st !! cache_key with
  | Some cached => if now <? expires_at cached then (Ok (token cached), st) else miss
  | None => miss
  end.

(** [InstallationTokens::invalidate] *)
Definition invalidate (app : Z) (owner repo : str) (st : Tokens) : Tokens :=
  {| cache := delete (app, owner, repo) (cache st); requests := requests st |}.

(** [InstallationTokens::default] *)
Definition no_tokens (sent : list ApiRequest) : Tokens := {| cache := ∅; requests := sent |}.

(** ** What tokens stand for *)

(** A token minted at [now] for one repository: two requests in a row, both with
    the app's signed claims of that time; the first finds the installation of this very
    repository, the second asks there for a token that may only write the
    issues of this repository, and its answer is the token. *)
Definition minted (sent : list ApiRequest) (app : Z) (owner repo : str) (now : Z) (t : str) : Prop :=
  exists key jwt before after u1 u2 r1 r2 installation,
    app_id key = app /\ sign_jwt key now = Ok jwt /\
    join (installation_path owner repo) = Some u1 /\ join (token_path installation) = Some u2 /\
    sent = before ++ [github_request ApiGet u1 jwt; github_request (ApiPost (scoped repo)) u2 jwt] ++ after /\
    send before (github_request ApiGet u1 jwt) = Some r1 /\ installation_answer r1 = Ok installation /\
    send (before ++ [github_request ApiGet u1 jwt]) (github_request (ApiPost (scoped repo)) u2 jwt) = Some r2 /\
    token_answer r2 = Ok t.

(** Operations on the cache, by requests that start at sensible times. *)
Definition sensible (now : Z) : Prop := 0 <= now <= i64_max - TOKEN_CACHE_SECS.
Inductive reachable : Tokens -> Prop :=
| reach_start sent : reachable (no_tokens sent)
| reach_token key owner repo now st : reachable st -> sensible now -> reachable (token_for key owner repo now st).2
| reach_invalidate app owner repo st : reachable st -> reachable (invalidate app owner repo st).

(** The tokens in the cache were minted, and expire a cache period later. *)
Definition tokens_ok (st : Tokens) : Prop := forall app owner repo c, cache st !! (app, owner, repo) = Some c ->
  exists at_, sensible at_ /\ expires_at c = at_ + TOKEN_CACHE_SECS /\ minted (requests st) app owner repo at_ (token c).

Lemma minted_later sent more app owner repo now t : minted sent app owner repo now t -> minted (sent ++ more) app owner repo now t.
Proof.
  intros (key & jwt & before & after & u1 & u2 & r1 & r2 & i & Ha & Hj & H1 & H2 & -> & S1 & A1 & S2 & A2).
  exists key, jwt, before, (after ++ more), u1, u2, r1, r2, i. split_and!; try done.
  by rewrite <- !app_assoc.
Qed.

(** What [token_for] does: it answers from the cache, fails, or mints. *)
Lemma token_for_cases key owner repo now st :
  (exists c, cache st !! (app_id key, owner, repo) = Some c /\ now < expires_at c /\
     token_for key owner repo now st = (Ok (token c), st)) \/
  (forall c, cache st !! (app_id key, owner, repo) = Some c -> expires_at c <= now) /\
  ((exists e more, token_for key owner repo now st = (Err e, {| cache := cache st; requests := requests st ++ more |})) \/
   exists t u1 u2 jwt, let sent := requests st ++ [github_request ApiGet u1 jwt; github_request (ApiPost (scoped repo)) u2 jwt] in
     minted sent (app_id key) owner repo now t /\
     token_for key owner repo now st = (Ok t, {| cache := <[(app_id key, owner, repo) :=
       {| token := t; expires_at := wrapping_add now TOKEN_CACHE_SECS |}]> (cache st); requests := sent |})).
Proof.
  unfold token_for. set (miss := match sign_jwt key now with Ok _ => _ | Err _ => _ end).
  assert (Hmiss : (exists e more, miss = (Err e, {| cache := cache st; requests := requests st ++ more |})) \/
    exists t u1 u2 jwt, let sent := requests st ++ [github_request ApiGet u1 jwt; github_request (ApiPost (scoped repo)) u2 jwt] in
     minted sent (app_id key) owner repo now t /\
     miss = (Ok t, {| cache := <[(app_id key, owner, repo) :=
       {| token := t; expires_at := wrapping_add now TOKEN_CACHE_SECS |}]> (cache st); requests := sent |})).
  { subst miss. destruct (sign_jwt key now) as [jwt|e] eqn:Hj.
    2:{ left. exists e, []. rewrite app_nil_r. by destruct st. }
    unfold lookup_installation, exchange. destruct (join (installation_path owner repo)) as [u1|] eqn:H1.
    2:{ left. exists TUrl, []. rewrite app_nil_r. by destruct st. }
    destruct (send (requests st) (github_request ApiGet u1 jwt)) as [r1|] eqn:S1; cbn [mbind result_bind].
    2:{ left. by eexists _, _. }
    destruct (installation_answer r1) as [i|e] eqn:A1; [|left; by eexists _, _].
    unfold mint_token, exchange. cbn [requests cache]. destruct (join (token_path i)) as [u2|] eqn:H2.
    2:{ left. by eexists _, _. }
    destruct (send (requests st ++ [github_request ApiGet u1 jwt]) (github_request (ApiPost (scoped repo)) u2 jwt)) as [r2|] eqn:S2;
      cbn [mbind result_bind]; [|left; eexists _, _; by rewrite <- app_assoc].
    destruct (token_answer r2) as [t|e] eqn:A2; [|left; eexists _, _; by rewrite <- app_assoc].
    right. exists t, u1, u2, jwt. rewrite <- app_assoc. cbn [app]. split; [|done].
    exists key, jwt, (requests st), [], u1, u2, r1, r2, i. by split_and!. }
  destruct (cache st !! (app_id key, owner, repo)) as [c|]; [|right; split; [done|exact Hmiss]].
  destruct (Z.ltb_spec now (expires_at c)) as [Hlt|Hge]; [left; by exists c|right].
  split; [by intros ? [= <-]|exact Hmiss].
Qed.

Lemma reachable_ok st : reachable st -> tokens_ok st.
Proof.
  induction 1 as [sent|key owner repo now st Hr IH Hn|app owner repo st Hr IH].
  - intros app owner repo c H. cbn in H. rewrite lookup_empty in H. done.
  - destruct (token_for_cases key owner repo now st) as [(c & _ & _ & ->)|[_ [(e & more & ->)|(t & u1 & u2 & jwt & Hm & ->)]]]; [done|..].
    + intros app o r c H. destruct (IH _ _ _ _ H) as (at_ & Hs & He & Hm). exists at_. split_and!; try done. by apply minted_later.
    + intros app o r c H. cbn [snd cache requests] in *. apply lookup_insert_Some in H as [[[= <- <- <-] <-]|[_ H]].
      * exists now. split_and!; [done| |done]. cbn [expires_at]. apply wrapping_add_in_range.
        destruct Hn. unfold i64_min, i64_max, TOKEN_CACHE_SECS in *. lia.
      * destruct (IH _ _ _ _ H) as (at_ & Hs & He & Hm'). exists at_. split_and!; try done. by apply minted_later.
  - intros app' o r c H. cbn in H. apply lookup_delete_Some in H as [_ H]. by apply IH.
Qed.

(** A token handed out for a repository was minted for exactly this repository with
    the app's own claims, either now or less than the cache period before; a token
    that was invalidated is not handed out again without asking GitHub; and a
    failure changes no token. *)
Theorem tokens_are_for_their_repository key owner repo now st :
  reachable st -> sensible now ->
  let (r, st') := token_for key owner repo now st in
  match r with
  | Ok t => exists at_, minted (requests st') (app_id key) owner repo at_ t /\
      (at_ = now /\ requests st' <> requests st \/
       now < at_ + TOKEN_CACHE_SECS /\ st' = st /\ is_Some (cache st !! (app_id key, owner, repo)))
  | Err _ => cache st' = cache st
  end /\
  (forall t, token_for key owner repo now (invalidate (app_id key) owner repo st) = (Ok t, st') ->
     requests st' <> requests st).
Proof.
  intros Hr Hn. pose proof (reachable_ok st Hr) as Hok.
  assert (Hinv : forall t st', token_for key owner repo now (invalidate (app_id key) owner repo st) = (Ok t, st') -> requests st' <> requests st).
  { intros t st' H. destruct (token_for_cases key owner repo now (invalidate (app_id key) owner repo st))
      as [(c & Hc & _)|[_ [(e & more & E)|(t' & u1 & u2 & jwt & _ & E)]]].
    - cbn in Hc. by rewrite lookup_delete_eq in Hc.
    - rewrite E in H. discriminate.
    - rewrite E in H. injection H as _ <-. cbn. intros H%(f_equal length). rewrite length_app in H. cbn in H. lia. }
  destruct (token_for_cases key owner repo now st) as [(c & Hc & Hlt & E)|[_ [(e & more & E)|(t & u1 & u2 & jwt & Hm & E)]]];
    rewrite E; (split; [|intros t' H; by eapply Hinv]).
  - destruct (Hok _ _ _ _ Hc) as (at_ & _ & He & Hm). exists at_. split; [done|]. right. rewrite <- He. split_and!; [done|done|by exists c].
  - done.
  - exists now. split; [done|]. left. split; [done|]. cbn. intros H%(f_equal length). rewrite length_app in H. cbn in H. lia.
Qed.
End Tokens.

(** ** A GitHub that answers *)

Module Answering.
Definition send (_ : list ApiRequest) (r : ApiRequest) : option Response :=
  Some {| status := match call r with ApiGet => 200 | ApiPost _ => 201 end; content_length := None;
          chunks := [Ok (lit "7")] |}.
Definition key : GithubAppKey := {| app_id := 5; sign := fun _ => Some [1] |}.
Definition ask (now : Z) (st : Tokens) : result TokenError str * Tokens :=
  token_for (fun _ => Some []) (fun b => b) Some send (fun _ => Some 7) Some key (lit "o") (lit "r") now st.
End Answering.

(** Two calls within the period send two requests in all. *)
Lemma tokens_are_for_their_repository_witness :
  let st := (Answering.ask 100 (no_tokens [])).2 in
  Answering.ask 200 st = (Ok (lit "7"), st) /\ length (requests st) = 2%nat /\
  exists at_, minted (fun _ => Some []) (fun b => b) Some Answering.send (fun _ => Some 7) Some
    (requests st) 5 (lit "o") (lit "r") at_ (lit "7").
Proof.
  set (st := (Answering.ask 100 (no_tokens [])).2).
  assert (E : Answering.ask 200 st = (Ok (lit "7"), st)) by (vm_compute; reflexivity).
  split; [exact E|]. split; [vm_compute; reflexivity|].
  pose proof (tokens_are_for_their_repository (fun _ => Some []) (fun b => b) Some Answering.send (fun _ => Some 7) Some
    Answering.key (lit "o") (lit "r") 200 st) as H.
  fold (Answering.ask 200 st) in H. rewrite E in H.
  destruct H as ((at_ & Hm & _) & _); [| |by exists at_].
  - apply reach_token; [apply reach_start|]. split; vm_compute; discriminate.
  - split; vm_compute; discriminate.
Defined.
