(* ===== verification/SourceDiscovery.v ===== *)
(** * Source discovery

    [loupe-worker/src/source_discovery.rs]: the scanner's settings, the exclusion
    patterns, the roots of the projects of a checkout, and the files below them
    that are reviewed.  Names are bytes; a path is the list of the names below the
    root directory.  The file system, the directory walk of the crate [walkdir],
    glob patterns and TOML are parameters; the cancellation token is asked in the
    order in which the code asks it. *)

From S2P Require Import Prelude JsonString Text Utf8 Dispatch.
From Stdlib Require Import ZArith Lia.
From stdpp Require Import base list option numbers strings.
Local Open Scope Z_scope.

(** ** Settings *)

Inductive ScannerList :=
| Builtin (values : list str)
| Configured (values : list str)
| Leased (values : list str).

(** [ScannerList::iter] *)
Definition iter (l : ScannerList) : list str :=
  match l with Builtin values | Configured values | Leased values => values end.

Record ScannerConfig := {
  max_concurrent_files : Z;
  max_file_bytes : Z;
  per_request_timeout : Z;
  include_extensions : ScannerList;
  exclude_path_substrings : ScannerList;
}.

Record ScannerConfigPatch := {
  p_max_concurrent_files : option Z;
  p_max_file_bytes : option Z;
  p_per_request_timeout_seconds : option Z;
  p_include_extensions : option ScannerList;
  p_exclude_path_substrings : option ScannerList;
}.

Inductive ConfigFault := NoConcurrency | TooMuchConcurrency | NoFileBytes | NoTimeout.

(** [ScannerConfig::validate]; the semaphore's limit is a constant of the runtime. *)
Definition validate_config (MAX_PERMITS : Z) (c : ScannerConfig) : result ConfigFault unit :=
  if max_concurrent_files c =? 0 then Err NoConcurrency
  else if MAX_PERMITS <? max_concurrent_files c then Err TooMuchConcurrency
  else if max_file_bytes c =? 0 then Err NoFileBytes
  else if per_request_timeout c =? 0 then Err NoTimeout
  else Ok tt.

(** [ScannerConfig::apply_patch] *)
Definition apply_patch (c : ScannerConfig) (p : ScannerConfigPatch) : ScannerConfig := {|
  max_concurrent_files := default (max_concurrent_files c) (p_max_concurrent_files p);
  max_file_bytes := default (max_file_bytes c) (p_max_file_bytes p);
  per_request_timeout := default (per_request_timeout c) (p_per_request_timeout_seconds p);
  include_extensions := default (include_extensions c) (p_include_extensions p);
  exclude_path_substrings := default (exclude_path_substrings c) (p_exclude_path_substrings p);
|}.

Definition default_extensions : ScannerList := Builtin (lit <$> [
  "rs"; "c"; "h"; "cc"; "hh"; "cpp"; "hpp"; "cxx"; "hxx"; "m"; "mm"; "js"; "jsx"; "mjs"; "cjs"; "ts"; "tsx";
  "py"; "go"; "rb"; "php"; "java"; "kt"; "kts"; "scala"; "groovy"; "swift"; "cs"; "fs"; "fsi"; "fsx"; "vb";
  "dart"; "ex"; "exs"; "rs.in"]%string).

Definition default_excludes : ScannerList := Builtin (lit <$> [
  "dir:tests"; "dir:test"; "dir:examples"; "dir:__tests__"; "dir:androidTest"; "dir:testFixtures";
  "file:test_*.*"; "file:*_test.*"; "file:*_tests.*"; "file:*.test.*"; "file:*.spec.*";
  "file:*Tests"; "file:*Tests.swift"; "dir:fuzz"; "dir:target"; "dotnet-output:bin"; "dotnet-output:obj";
  "dir:build"; "dir:.build"; "dir:DerivedData"; "dir:dist"; "dir:out"; "dir:.next"; "dir:.nuxt"; "dir:coverage";
  "dir:node_modules"; "dir:vendor"; "dir:Pods"; "dir:Carthage"; "dir:.venv"; "dir:venv"; "dir:env";
  "dir:__pycache__"; "dir:.tox"; "dir:.gradle"; "dir:.swiftpm"; "dir:.mypy_cache"; "dir:.pytest_cache"]%string).

(** [ScannerConfig::default] *)
Definition default_config (DEFAULT_REQUEST_TIMEOUT : Z) : ScannerConfig := {|
  max_concurrent_files := 8; max_file_bytes := 2 * 1024 * 1024; per_request_timeout := DEFAULT_REQUEST_TIMEOUT;
  include_extensions := default_extensions; exclude_path_substrings := default_excludes |}.

(** ** Paths *)

Abbreviation Name := (list Z).
Abbreviation Path := (list Name).

(** [String::from_utf8_lossy]: every maximal part that begins no character counts once. *)
Fixpoint lossy (bs : list Z) : str :=
  match bs with
  | [] => []
  | b0 :: t0 =>
      if (0 <=? b0) && (b0 <=? 127) then b0 :: lossy t0
      else if (194 <=? b0) && (b0 <=? 223) then
        match t0 with
        | b1 :: t1 => if cont b1 then point2 b0 b1 :: lossy t1 else 65533 :: lossy t0
        | [] => [65533]
        end
      else if (224 <=? b0) && (b0 <=? 239) then
        match t0 with
        | b1 :: t1 =>
            if second3 b0 b1 then
              match t1 with
              | b2 :: t2 => if cont b2 then point3 b0 b1 b2 :: lossy t2 else 65533 :: lossy t1
              | [] => [65533]
              end
            else 65533 :: lossy t0
        | [] => [65533]
        end
      else if (240 <=? b0) && (b0 <=? 244) then
        match t0 with
        | b1 :: t1 =>
            if second4 b0 b1 then
              match t1 with
              | b2 :: t2 =>
                  if cont b2 then
                    match t2 with
                    | b3 :: t3 => if cont b3 then point4 b0 b1 b2 b3 :: lossy t3 else 65533 :: lossy t2
                    | [] => [65533]
                    end
                  else 65533 :: lossy t1
              | [] => [65533]
              end
            else 65533 :: lossy t0
        | [] => [65533]
        end
      else 65533 :: lossy t0
  end.

(** The bytes of a relative and of an absolute path. *)
Fixpoint path_bytes (p : Path) : list Z :=
  match p with [] => [] | [x] => x | x :: p => x ++ [47] ++ path_bytes p end.
Definition absolute (p : Path) : list Z := 47 :: path_bytes p.

Definition parent (p : Path) : option Path := match p with [] => None | _ => Some (removelast p) end.
Definition file_name (p : Path) : option Name := last p.

(** [Path::ancestors]: the path, then its parents. *)
Definition ancestors (p : Path) : list Path := (fun n => take n p) <$> reverse (seq 0 (S (length p))).

(** [Path::extension]: what follows the last dot, unless the name starts with its only one. *)
Fixpoint after_last_dot (s : Name) : option Name :=
  match s with
  | [] => None
  | c :: rest => match after_last_dot rest with Some e => Some e | None => if c =? 46 then Some rest else None end
  end.
Definition extension (p : Path) : option Name :=
  match file_name p with
  | None => None
  | Some [] => None
  | Some (_ :: rest) => after_last_dot rest
  end.

(** [has_component]; the first component is the root directory. *)
Definition has_component (p : Path) (needle : str) : bool :=
  existsb (fun c => str_eqb c (as_bytes needle)) ([47] :: p).

Definition strip_prefix_str (prefix s : str) : option str :=
  if starts_with prefix s then Some (drop (length prefix) s) else None.

(** [Ord] of paths: by component, by byte. *)
Fixpoint name_compare (a b : Name) : comparison :=
  match a, b with
  | [], [] => Eq
  | [], _ => Lt
  | _, [] => Gt
  | x :: a, y :: b => match x ?= y with Eq => name_compare a b | r => r end
  end.
Fixpoint path_compare (a b : Path) : comparison :=
  match a, b with
  | [], [] => Eq
  | [], _ => Lt
  | _, [] => Gt
  | x :: a, y :: b => match name_compare x y with Eq => path_compare a b | r => r end
  end.

(** [sort] and [dedup] of paths *)
Fixpoint insert_path {A} (native : A -> Path) (x : A) (l : list A) : list A :=
  match l with
  | [] => [x]
  | y :: l => match path_compare (native x) (native y) with Gt => y :: insert_path native x l | _ => x :: y :: l end
  end.
Definition sort_paths {A} (native : A -> Path) (l : list A) : list A := foldr (insert_path native) [] l.
Fixpoint dedup_after {A} (native : A -> Path) (x : A) (l : list A) : list A :=
  match l with
  | [] => []
  | y :: l => match path_compare (native x) (native y) with
              | Eq => dedup_after native x l
              | _ => y :: dedup_after native y l
              end
  end.
Definition dedup_paths {A} (native : A -> Path) (l : list A) : list A :=
  match l with [] => [] | x :: l => x :: dedup_after native x l end.

(** ** The outside *)

(** What [walkdir] reports: errors, and entries with what lies below them. *)
Inductive Visit := Bad | Seen (entry : Path) (file : bool) (children : list Visit).

Inductive FileRead := Interrupted | ReadFailed | Got (bytes : list Z).

Record Opened := { is_regular : bool; len : Z; reads : list FileRead }.

Record Filesystem := {
  walk : option nat -> Path -> Visit;
  canonicalize : Path -> option Path;
  is_dir : Path -> bool;
  is_file : Path -> bool;
  metadata_len : Path -> option Z;
  open : Path -> option Opened;
  (** the names of a directory, and whether they are regular files *)
  read_dir : Path -> option (list (Name * bool));
}.

(** [glob::Pattern]: [None] for a pattern it does not compile. *)
Record Glob := {
  glob_matches : str -> str -> option bool;
  glob_matches_path : str -> Path -> option bool;
}.

(** [toml::Value], as far as it is read *)
Inductive Toml := TomlString (s : str) | TomlArray (values : list Toml) | TomlTable (fields : list (str * Toml)) | TomlOther.

Definition toml_get (key : str) (v : Toml) : option Toml :=
  match v with
  | TomlTable fields => (fun f => f.2) <$> List.find (fun f => str_eqb f.1 key) fields
  | _ => None
  end.
Definition toml_as_array (v : Toml) : option (list Toml) := match v with TomlArray l => Some l | _ => None end.
Definition toml_as_str (v : Toml) : option str := match v with TomlString s => Some s | _ => None end.

Definition ScannerExcludePattern : TextPolicy := exact_text "scanner_exclude_pattern" false.
Definition MAX_CARGO_MANIFEST_BYTES : Z := 1024 * 1024.

Inductive SourcePathRepresentation := Relative (path : str) | UnrepresentableNative.
Record DiscoveredSourcePath := { native : Path; representation : SourcePathRepresentation }.

(** [DiscoveredSourcePath::for_prompt] *)
Definition for_prompt (d : DiscoveredSourcePath) : option str :=
  match representation d with Relative p => Some p | UnrepresentableNative => None end.

Record CargoDiscoveryManifest := { has_package : bool; exclude : option (list str) }.
Record DiscoveryRoots := { roots : list Path; files : list Path }.

Section Discovery.
Context (fs : Filesystem) (glob : Glob) (toml_from_str : str -> option Toml).
Context (category : Z -> GeneralCategory) (nfc : str -> str).

(** ** Exclusion *)

Definition any_ext (exts : list string) (p : Path) : bool :=
  match extension p ≫= from_utf8 with
  | Some ext => existsb (fun allowed => eq_ignore_ascii_case (lit allowed) ext) exts
  | None => false
  end.

(** [has_dotnet_project_marker] *)
Definition has_dotnet_project_marker (dir : Path) : bool :=
  match read_dir fs dir with
  | None => false
  | Some entries =>
      existsb (fun e : Name * bool => e.2 && any_ext ["csproj"; "fsproj"; "vbproj"]%string (dir ++ [e.1])) entries
  end.

(** [is_dotnet_output_path] *)
Definition is_dotnet_output_path (p : Path) (output_dir : str) : bool :=
  existsb (fun candidate =>
    bool_decide (file_name candidate ≫= from_utf8 = Some output_dir) &&
    match parent candidate with Some dir => has_dotnet_project_marker dir | None => false end) (ancestors p).

(** [matches_exclude] *)
Definition matches_exclude (p : Path) (pattern : str) : bool :=
  match strip_prefix_str (lit "dir:") pattern with
  | Some component => has_component p component
  | None =>
  match strip_prefix_str (lit "file:") pattern with
  | Some g =>
      match file_name p ≫= from_utf8 with
      | Some name => default false (glob_matches glob g name)
      | None => false
      end
  | None =>
  match strip_prefix_str (lit "dotnet-output:") pattern with
  | Some component => is_dotnet_output_path p component
  | None =>
  match strip_prefix_str (lit "/") pattern with
  | Some component =>
      if negb (bool_decide (47 ∈ component)) then has_component p component
      else contains_str pattern (lossy (absolute p))
  | None => contains_str pattern (lossy (absolute p))
  end end end end.

(** [is_excluded_path], [is_excluded_dir] *)
Definition is_excluded_path (p : Path) (excludes : ScannerList) : bool :=
  existsb (matches_exclude p) (iter excludes).
Definition is_excluded_dir (cfg : ScannerConfig) (p : Path) : bool :=
  has_component p (lit ".git") || is_excluded_path p (exclude_path_substrings cfg).

(** [has_allowed_extension] *)
Definition has_allowed_extension (p : Path) (exts : ScannerList) : bool :=
  match file_name p ≫= from_utf8 with
  | None => false
  | Some name =>
      existsb (fun allowed =>
        match extension p ≫= from_utf8 with Some e => eq_ignore_ascii_case allowed e | None => false end ||
        starts_with (reverse (lit "." ++ (to_ascii_lowercase <$> allowed))) (reverse (to_ascii_lowercase <$> name)))
        (iter exts)
  end.

(** ** Collecting *)

(** [Path::strip_prefix] *)
Fixpoint strip_base (base p : Path) : option Path :=
  match base, p with
  | [], _ => Some p
  | x :: base, y :: p => if str_eqb x y then strip_base base p else None
  | _, _ => None
  end.

(** [DiscoveredSourcePathDecoder], [collect_file] *)
Definition admitted_file (cfg : ScannerConfig) (p : Path) : bool :=
  has_allowed_extension p (include_extensions cfg) &&
  negb (is_excluded_path p (exclude_path_substrings cfg)) &&
  match metadata_len fs p with Some n => n <=? max_file_bytes cfg | None => false end.
Definition discovered (workdir p : Path) : DiscoveredSourcePath := {|
  native := p;
  representation :=
    match strip_base workdir p ≫= (fun rel => from_utf8 (path_bytes rel)) with
    | Some v => match path category v with Ok v => Relative v | Err _ => UnrepresentableNative end
    | None => UnrepresentableNative
    end |}.
Definition collect_file (workdir : Path) (cfg : ScannerConfig) (p : Path) : list DiscoveredSourcePath :=
  if admitted_file cfg p then [discovered workdir p] else [].

(** [is_within_workdir] *)
Definition is_within_workdir (p canonical_workdir : Path) : bool :=
  match canonicalize fs p with
  | Some p => match strip_base canonical_workdir p with Some _ => true | None => false end
  | None => false
  end.

(** ** Workspace exclusions *)

(** [CargoDiscoveryManifestDecoder] *)
Fixpoint exclude_texts (values : list str) : option (list str) :=
  match values with
  | [] => Some []
  | v :: values =>
      match text category nfc ScannerExcludePattern v with
      | Ok v => cons v <$> exclude_texts values
      | Err _ => None
      end
  end.
Definition decode_manifest (bytes : list Z) : option CargoDiscoveryManifest :=
  s ← from_utf8 bytes;
  manifest ← toml_from_str s;
  let package := match toml_get (lit "package") manifest with Some _ => true | None => false end in
  match toml_get (lit "workspace") manifest with
  | None => Some {| has_package := package; exclude := None |}
  | Some workspace =>
      let values := omap toml_as_str (default [] (toml_get (lit "exclude") workspace ≫= toml_as_array)) in
      exclude ← exclude_texts values;
      Some {| has_package := package; exclude := Some exclude |}
  end.

(** [matches_workspace_exclude], [is_workspace_excluded_descendant] *)
Definition matches_workspace_exclude (rel : Path) (excludes : list str) : bool :=
  existsb (fun e => str_eqb e (lossy (path_bytes rel)) || default false (glob_matches_path glob e rel)) excludes.
Definition is_workspace_excluded_descendant (workdir : Path) (excludes : list str) (p : Path) : bool :=
  match excludes with
  | [] => false
  | _ =>
      let rel := default p (strip_base workdir p) in
      existsb (fun candidate => matches_workspace_exclude candidate excludes)
        (List.filter (fun c => match c with [] => false | _ => true end) (ancestors rel))
  end.

(** ** Under a cancellation token *)

(** The answers of the token, in the order in which it is asked. *)
Context (cancelled : nat -> bool).

Definition C (A : Type) : Type := nat -> A * nat.
#[local] Instance C_ret : MRet C := fun A a n => (a, n).
#[local] Instance C_bind : MBind C := fun A B f m n => let (a, n) := m n in f a n.
Definition is_cancelled : C bool := fun n => (cancelled n, S n).

(** A walk that filters entries, stops when cancelled, and runs [body] on every entry
    it yields; the answer tells whether it was stopped. *)
Section Walk.
Context {A : Type} (accept : Path -> bool) (body : Path -> bool -> C (list A)).

Fixpoint visit (v : Visit) : C (bool * list A) :=
  match v with
  | Bad => stop ← is_cancelled; mret (stop, [])
  | Seen p file children =>
      c ← is_cancelled;
      if c || negb (accept p) then mret (false, [])
      else
        stop ← is_cancelled;
        if stop : bool then mret (true, [])
        else
          here ← body p file;
          below ← (fix visits vs : C (bool * list A) :=
                     match vs with
                     | [] => mret (false, [])
                     | v :: vs =>
                         first ← visit v;
                         if first.1 : bool then mret first
                         else rest ← visits vs; mret (rest.1, first.2 ++ rest.2)
                     end) children;
          mret (below.1, here ++ below.2)
  end.
End Walk.

Definition walked {A} (depth : option nat) (root : Path) (accept : Path -> bool) (body : Path -> bool -> C (list A))
    : C (list A) :=
  r ← visit accept body (walk fs depth root); mret r.2.

(** A body that asks nothing. *)
Definition pick {A} (f : Path -> bool -> list A) : Path -> bool -> C (list A) := fun p file => mret (f p file).

(** [for x in l { if cancel.is_cancelled() { return; } .. }]: [None] when it returned. *)
Fixpoint each {A S} (l : list A) (f : A -> S -> S) (s : S) : C (bool * S) :=
  match l with
  | [] => mret (false, s)
  | x :: l => c ← is_cancelled; if c : bool then mret (true, s) else each l f (f x s)
  end.

(** The reads of a manifest. *)
Fixpoint read_loop (rs : list FileRead) (bytes : list Z) : C (option (list Z)) :=
  c ← is_cancelled;
  if c : bool then mret None
  else
    match rs with
    | Interrupted :: rs => read_loop rs bytes
    | ReadFailed :: _ => mret None
    | [] | Got [] :: _ => c ← is_cancelled; mret (if c : bool then None else Some bytes)
    | Got chunk :: rs =>
        c ← is_cancelled;
        if c : bool then mret None
        else if MAX_CARGO_MANIFEST_BYTES - Z.of_nat (length bytes) <? Z.of_nat (length chunk) then mret None
        else read_loop rs (bytes ++ chunk)
    end.

(** [parse_manifest] *)
Definition parse_manifest (p : Path) : C (option CargoDiscoveryManifest) :=
  c ← is_cancelled;
  if c : bool then mret None
  else
    match open fs p with
    | None => mret None
    | Some f =>
        if negb (is_regular f) || (MAX_CARGO_MANIFEST_BYTES <? len f) then mret None
        else bytes ← read_loop (reads f) []; mret (bytes ≫= decode_manifest)
    end.

(** [manifest_has_package] *)
Definition manifest_has_package (p : Path) : C bool :=
  m ← parse_manifest p; mret (match m with Some m => has_package m | None => false end).

(** [parse_workspace_cancellable] *)
Definition parse_workspace (p : Path) : C (option (list str)) :=
  m ← parse_manifest p; mret (m ≫= exclude).

Definition named (p : Path) (name : string) : bool := bool_decide (file_name p = Some (lit name)).

(** [cargo_package_manifests] *)
Definition cargo_package_manifests (workdir : Path) (cfg : ScannerConfig) (workspace_exclude : list str) : C (list Path) :=
  out ← walked None workdir
    (fun p => negb (is_excluded_dir cfg p) && negb (is_workspace_excluded_descendant workdir workspace_exclude p))
    (fun p file =>
       if file && named p "Cargo.toml" then has ← manifest_has_package p; mret (if has : bool then [p] else [])
       else mret []);
  mret (dedup_paths id (sort_paths id out)).

Definition push_root (p : Path) (r : DiscoveryRoots) : DiscoveryRoots := {| roots := roots r ++ [p]; files := files r |}.
Definition push_file (p : Path) (r : DiscoveryRoots) : DiscoveryRoots := {| roots := roots r; files := files r ++ [p] |}.

(** [add_rust_package_roots] *)
Definition add_rust_package_roots (package : Path) (r : DiscoveryRoots) : DiscoveryRoots :=
  let src := package ++ [lit "src"] in
  let r := if is_dir fs src then push_root src r else r in
  let build_rs := package ++ [lit "build.rs"] in
  if is_file fs build_rs then push_file build_rs r else r.

(** [add_cargo_roots] *)
Definition add_cargo_roots (workdir : Path) (cfg : ScannerConfig) (r : DiscoveryRoots) : C DiscoveryRoots :=
  workspace_exclude ← parse_workspace (workdir ++ [lit "Cargo.toml"]);
  manifests ← cargo_package_manifests workdir cfg (default [] workspace_exclude);
  done ← each manifests (fun m r => match parent m with Some dir => add_rust_package_roots dir r | None => r end) r;
  mret done.2.

(** [add_existing_dirs] *)
Definition add_existing_dirs (base : Path) (names : list string) (r : DiscoveryRoots) : DiscoveryRoots :=
  foldl (fun r name => let p := base ++ [lit name] in if is_dir fs p then push_root p r else r) r names.

Definition parent_of (p : Path) : list Path := match parent p with Some dir => [dir] | None => [] end.

(** [marker_dirs], [dotnet_marker_dirs] *)
Definition marker_dirs (workdir : Path) (cfg : ScannerConfig) (marker : string) : C (list Path) :=
  walked (Some 5%nat) workdir (fun p => negb (is_excluded_dir cfg p))
    (pick (fun p file => if file && named p marker then parent_of p else [])).
Definition dotnet_marker_dirs (workdir : Path) (cfg : ScannerConfig) (exts : list string) : C (list Path) :=
  walked None workdir (fun p => negb (is_excluded_dir cfg p))
    (pick (fun p file => if file && any_ext exts p then parent_of p else [])).

(** [add_marker_roots] *)
Definition js_dirs : list string := ["src"; "lib"; "app"; "server"; "client"; "packages"]%string.
Definition c_dirs : list string := ["src"; "include"; "lib"; "app"; "server"; "client"]%string.
Fixpoint add_c_roots (workdir : Path) (cfg : ScannerConfig) (markers : list string) (r : DiscoveryRoots) : C DiscoveryRoots :=
  match markers with
  | [] => mret r
  | marker :: markers =>
      dirs ← marker_dirs workdir cfg marker;
      s ← each dirs (fun dir r => add_existing_dirs dir c_dirs (push_root dir r)) r;
      if s.1 : bool then mret s.2 else add_c_roots workdir cfg markers s.2
  end.
Definition add_marker_roots (workdir : Path) (cfg : ScannerConfig) (r : DiscoveryRoots) : C DiscoveryRoots :=
  dirs ← marker_dirs workdir cfg "package.json";
  s ← each dirs (fun dir r => add_existing_dirs dir js_dirs r) r;
  if s.1 : bool then mret s.2
  else add_c_roots workdir cfg ["CMakeLists.txt"; "meson.build"; "Makefile"; "compile_commands.json"]%string s.2.

(** [add_dotnet_roots] *)
Definition add_dotnet_roots (workdir : Path) (cfg : ScannerConfig) (r : DiscoveryRoots) : C DiscoveryRoots :=
  dirs ← dotnet_marker_dirs workdir cfg ["sln"; "slnx"; "csproj"; "fsproj"; "vbproj"]%string;
  mret (foldl (fun r dir => push_root dir r) r dirs).

(** [add_gradle_roots] *)
Definition gradle_root (p : Path) (file : bool) : list Path :=
  if file && existsb (named p) ["build.gradle"; "build.gradle.kts"; "settings.gradle"; "settings.gradle.kts"]%string
  then parent_of p else [].
Definition add_gradle_roots (workdir : Path) (cfg : ScannerConfig) (r : DiscoveryRoots) : C DiscoveryRoots :=
  dirs ← walked None workdir (fun p => negb (is_excluded_dir cfg p)) (pick gradle_root);
  mret (foldl (fun r dir => push_root dir r) r dirs).

(** [add_apple_roots] *)
Definition apple_root (p : Path) (file : bool) : list Path :=
  if negb file then []
  else
    match parent p with
    | None => []
    | Some dir =>
        if named p "Package.swift" then [dir]
        else if (named p "project.pbxproj" && bool_decide (extension dir = Some (lit "xcodeproj"))) ||
                (named p "contents.xcworkspacedata" && bool_decide (extension dir = Some (lit "xcworkspace")))
             then parent_of dir else []
    end.
Definition add_apple_roots (workdir : Path) (cfg : ScannerConfig) (r : DiscoveryRoots) : C DiscoveryRoots :=
  dirs ← walked None workdir (fun p => negb (is_excluded_dir cfg p)) (pick apple_root);
  mret (foldl (fun r dir => push_root dir r) r dirs).

(** [discover_roots] *)
Definition discover_roots (workdir : Path) (cfg : ScannerConfig) : C DiscoveryRoots :=
  r ← add_cargo_roots workdir cfg {| roots := []; files := [] |};
  r ← add_marker_roots workdir cfg r;
  r ← add_dotnet_roots workdir cfg r;
  r ← add_gradle_roots workdir cfg r;
  r ← add_apple_roots workdir cfg r;
  mret {| roots := dedup_paths id (sort_paths id (roots r)); files := dedup_paths id (sort_paths id (files r)) |}.

(** [collect_from_root] *)
Definition collect_from_root (workdir root : Path) (cfg : ScannerConfig) : C (list DiscoveredSourcePath) :=
  walked None root (fun p => negb (is_excluded_dir cfg p))
    (pick (fun p file => if file : bool then collect_file workdir cfg p else [])).

(** The two loops of [walk_source_files_cancellable]; [None] when cancelled. *)
Fixpoint collect_files (workdir canonical : Path) (cfg : ScannerConfig) (l : list Path) : C (option (list DiscoveredSourcePath)) :=
  match l with
  | [] => mret (Some [])
  | p :: l =>
      c ← is_cancelled;
      if c : bool then mret None
      else
        rest ← collect_files workdir canonical cfg l;
        mret (app (if is_within_workdir p canonical then collect_file workdir cfg p else []) <$> rest)
  end.
Fixpoint collect_roots (workdir canonical : Path) (cfg : ScannerConfig) (l : list Path) : C (option (list DiscoveredSourcePath)) :=
  match l with
  | [] => mret (Some [])
  | p :: l =>
      c ← is_cancelled;
      if c : bool then mret None
      else
        here ← (if is_within_workdir p canonical then collect_from_root workdir p cfg else mret []);
        rest ← collect_roots workdir canonical cfg l;
        mret (app here <$> rest)
  end.

(** [walk_source_files_cancellable] *)
Definition walk_source_files (workdir : Path) (cfg : ScannerConfig) : C (list DiscoveredSourcePath) :=
  c ← is_cancelled;
  if c : bool then mret []
  else
    match canonicalize fs workdir with
    | None => mret []
    | Some canonical =>
        r ← discover_roots workdir cfg;
        out ← match roots r, files r with
              | [], [] => out ← collect_from_root workdir workdir cfg; mret (Some out)
              | _, _ =>
                  from_files ← collect_files workdir canonical cfg (files r);
                  match from_files with
                  | None => mret None
                  | Some from_files =>
                      from_roots ← collect_roots workdir canonical cfg (roots r);
                      mret (app from_files <$> from_roots)
                  end
              end;
        match out with
        | None => mret []
        | Some out =>
            c ← is_cancelled;
            mret (if c : bool then [] else dedup_paths native (sort_paths native out))
        end
    end.
End Discovery.
