(* ===== verification/SourceDiscoveryTheorems.v ===== *)
(** * What source discovery returns

    A run that is not cancelled returns exactly the admitted files below the
    project roots of the checkout, each once and in order; a cancelled run returns
    nothing; and no link leads a run out of the checkout. *)

From S2P Require Import Prelude JsonString Text Utf8 Dispatch SourceDiscovery.
From Stdlib Require Import ZArith Lia.
From stdpp Require Import base sets list option numbers strings sorting.
Local Open Scope Z_scope.

(** ** Order of paths *)

Lemma name_compare_eq a b : name_compare a b = Eq <-> a = b.
Proof.
  revert b. induction a as [|x a IH]; intros [|y b]; cbn; try (split; congruence).
  destruct (Z.compare_spec x y); [|split; [done|intros [= -> ->]; lia]..]. rewrite IH. split; congruence.
Qed.

Lemma name_compare_antisym a b : name_compare b a = CompOpp (name_compare a b).
Proof.
  revert b. induction a as [|x a IH]; intros [|y b]; cbn; try done. rewrite Z.compare_antisym.
  destruct (x ?= y); cbn; auto.
Qed.

Lemma name_compare_trans a b c : name_compare a b = Lt -> name_compare b c = Lt -> name_compare a c = Lt.
Proof.
  revert b c. induction a as [|x a IH]; intros [|y b] [|z c]; cbn; try done.
  destruct (Z.compare_spec x y), (Z.compare_spec y z); try done; subst.
  - rewrite Z.compare_refl. apply IH.
  - rewrite (proj2 (Z.compare_lt_iff _ _)) by lia. done.
  - rewrite (proj2 (Z.compare_lt_iff _ _)) by lia. done.
  - rewrite (proj2 (Z.compare_lt_iff _ _)) by lia. done.
Qed.

Lemma path_compare_eq a b : path_compare a b = Eq <-> a = b.
Proof.
  revert b. induction a as [|x a IH]; intros [|y b]; cbn; try (split; congruence).
  destruct (name_compare x y) eqn:E; [apply name_compare_eq in E as ->; rewrite IH; split; congruence|..];
    (split; [done|]); intros [= -> ->]; by rewrite (proj2 (name_compare_eq y y)) in E.
Qed.

Lemma path_compare_antisym a b : path_compare b a = CompOpp (path_compare a b).
Proof.
  revert b. induction a as [|x a IH]; intros [|y b]; cbn; try done. rewrite name_compare_antisym.
  destruct (name_compare x y); cbn; auto.
Qed.

Lemma path_compare_trans a b c : path_compare a b = Lt -> path_compare b c = Lt -> path_compare a c = Lt.
Proof.
  revert b c. induction a as [|x a IH]; intros [|y b] [|z c]; cbn; try done.
  destruct (name_compare x y) eqn:E1, (name_compare y z) eqn:E2; try done.
  - apply name_compare_eq in E1 as ->, E2 as ->. rewrite (proj2 (name_compare_eq z z)) by done. apply IH.
  - apply name_compare_eq in E1 as ->. by rewrite E2.
  - apply name_compare_eq in E2 as ->. by rewrite E1.
  - by rewrite (name_compare_trans _ _ _ E1 E2).
Qed.

Section Sorting.
Context {A : Type} (native : A -> Path).

Definition below_path (x y : A) : Prop := path_compare (native x) (native y) = Lt.
Definition not_above (x y : A) : Prop := path_compare (native x) (native y) <> Gt.

Lemma not_above_trans x y z : not_above x y -> not_above y z -> not_above x z.
Proof.
  unfold not_above. destruct (path_compare (native x) (native y)) eqn:E1; [apply path_compare_eq in E1 as ->; done| |done].
  destruct (path_compare (native y) (native z)) eqn:E2; [apply path_compare_eq in E2 as <-; congruence| |done].
  by rewrite (path_compare_trans _ _ _ E1 E2).
Qed.

Lemma insert_path_perm x l : insert_path native x l ≡ₚ x :: l.
Proof. induction l as [|y l IH]; cbn; [done|]. destruct (path_compare _ _); try done. rewrite IH. apply perm_swap. Qed.

Lemma sort_paths_perm l : sort_paths native l ≡ₚ l.
Proof. induction l as [|x l IH]; cbn; [done|]. by rewrite insert_path_perm, IH. Qed.

Lemma insert_path_sorted x l : StronglySorted not_above l -> StronglySorted not_above (insert_path native x l).
Proof.
  induction 1 as [|y l Hs IH Hy]; cbn; [repeat constructor|].
  destruct (path_compare (native x) (native y)) eqn:E.
  1,2: assert (Hxy : not_above x y) by (unfold not_above; congruence);
    constructor; [by constructor|]; constructor; [done|]; eapply list.Forall_impl; [exact Hy|]; intros z; by apply not_above_trans.
  constructor; [done|]. rewrite insert_path_perm. constructor; [|done]. unfold not_above.
  rewrite path_compare_antisym, E. done.
Qed.

Lemma sort_paths_sorted l : StronglySorted not_above (sort_paths native l).
Proof. induction l; cbn; [constructor|by apply insert_path_sorted]. Qed.

Lemma dedup_after_elem x l y : y ∈ dedup_after native x l -> y ∈ l.
Proof.
  revert x. induction l as [|z l IH]; intros x; cbn; [done|]. rewrite elem_of_cons.
  destruct (path_compare _ _); [intros ?%IH; by right|rewrite elem_of_cons; intros [->|?%IH]; auto..].
Qed.

Lemma dedup_after_sorted x l : StronglySorted not_above (x :: l) -> StronglySorted below_path (x :: dedup_after native x l).
Proof.
  revert x. induction l as [|y l IH]; intros x Hs; cbn; [repeat constructor|].
  inversion Hs as [|? ? Hyl Hx]; subst. apply Forall_cons in Hx as [Hxy Hx].
  destruct (path_compare (native x) (native y)) eqn:E.
  - apply IH. constructor; [by inversion Hyl|done].
  - pose proof (IH y Hyl) as Hd. constructor; [done|]. constructor; [done|].
    inversion Hd as [|? ? _ Hy]; subst. eapply list.Forall_impl; [exact Hy|]. unfold below_path in *.
    intros z. by apply path_compare_trans.
  - by destruct (Hxy E).
Qed.

(** Paths kept once, in order; equal paths are equal entries. *)
Definition in_order (l : list A) : list A := dedup_paths native (sort_paths native l).

Lemma in_order_sorted l : StronglySorted below_path (in_order l).
Proof.
  unfold in_order. pose proof (sort_paths_sorted l) as Hs. destruct (sort_paths native l); [constructor|].
  by apply dedup_after_sorted.
Qed.

Lemma dedup_after_all x l y : (forall a b, a ∈ x :: l -> b ∈ x :: l -> native a = native b -> a = b) ->
  y ∈ l -> y ∈ x :: dedup_after native x l.
Proof.
  revert x. induction l as [|z l IH]; intros x Hu; [by intros ?%elem_of_nil|]. rewrite elem_of_cons. intros Hy. cbn.
  destruct (path_compare (native x) (native z)) eqn:E.
  - apply path_compare_eq in E. assert (x = z) as -> by (apply Hu; [by left|right; by left|done]).
    destruct Hy as [->|Hy]; [by left|]. apply IH; [|done]. intros a b Ha Hb. apply Hu; set_solver.
  - right. destruct Hy as [->|Hy]; [by left|]. apply IH; [|done]. intros a b Ha Hb. apply Hu; set_solver.
  - right. destruct Hy as [->|Hy]; [by left|]. apply IH; [|done]. intros a b Ha Hb. apply Hu; set_solver.
Qed.

Lemma in_order_elem l : (forall a b, a ∈ l -> b ∈ l -> native a = native b -> a = b) ->
  forall x, x ∈ in_order l <-> x ∈ l.
Proof.
  intros Hu x. unfold in_order. rewrite <- (sort_paths_perm l) at 2.
  assert (Hu' : forall a b, a ∈ sort_paths native l -> b ∈ sort_paths native l -> native a = native b -> a = b).
  { intros a b. rewrite sort_paths_perm. apply Hu. }
  destruct (sort_paths native l) as [|y k]; [done|]. cbn [dedup_paths]. split.
  - rewrite !elem_of_cons. intros [->|?%dedup_after_elem]; auto.
  - rewrite elem_of_cons. intros [->|Hx]; [by left|]. by apply dedup_after_all.
Qed.
End Sorting.

(** ** Walks without a token *)

(** An entry of a walk that is reached through accepted entries only. *)
Inductive reached (accept : Path -> bool) : Visit -> Path -> bool -> Prop :=
| reached_here p file children : accept p = true -> reached accept (Seen p file children) p file
| reached_below p file children v q f :
    accept p = true -> v ∈ children -> reached accept v q f -> reached accept (Seen p file children) q f.

Fixpoint flat {A} (accept : Path -> bool) (f : Path -> bool -> list A) (v : Visit) : list A :=
  match v with
  | Bad => []
  | Seen p file children =>
      if accept p then f p file ++ (fix flats vs := match vs with [] => [] | v :: vs => flat accept f v ++ flats vs end) children
      else []
  end.

Lemma flat_Seen {A} accept (f : Path -> bool -> list A) p file children :
  flat accept f (Seen p file children) = if accept p then f p file ++ (children ≫= flat accept f) else [].
Proof. cbn. destruct (accept p); [|done]. reflexivity. Qed.

Lemma Visit_rect' (P : Visit -> Prop) :
  P Bad -> (forall p file children, Forall P children -> P (Seen p file children)) -> forall v, P v.
Proof.
  intros HB HS. fix IH 1. intros [|p file children]; [exact HB|]. apply HS.
  induction children as [|v vs IHvs]; constructor; [apply IH|exact IHvs].
Qed.

Lemma flat_elem {A} accept (f : Path -> bool -> list A) v x :
  x ∈ flat accept f v <-> exists p file, reached accept v p file /\ x ∈ f p file.
Proof.
  induction v as [|p file children IH] using Visit_rect'.
  { split; [by intros ?%elem_of_nil|]. intros (p & file & H & _). inversion H. }
  rewrite Forall_forall in IH. rewrite flat_Seen. destruct (accept p) eqn:Ha.
  - rewrite elem_of_app, list_elem_of_bind. split.
    + intros [Hx|(v & Hx & Hv)]; [exists p, file; split; [by constructor|done]|].
      apply (IH _ Hv) in Hx as (q & g & Hr & Hx). exists q, g. split; [|done]. by eapply reached_below.
    + intros (q & g & Hr & Hx). inversion Hr as [|? ? ? v ? ? _ Hv Hb]; subst; [by left|right].
      exists v. split; [|done]. apply (IH _ Hv). eauto.
  - split; [by intros ?%elem_of_nil|]. intros (q & g & Hr & _). inversion Hr; congruence.
Qed.

(** ** Runs that see no cancellation *)

Section Runs.
Context (fs : Filesystem) (glob : Glob) (toml_from_str : str -> option Toml).
Context (category : Z -> GeneralCategory) (nfc : str -> str) (cancelled : nat -> bool).

Definition undisturbed (n n' : nat) : Prop := forall i, (n <= i < n')%nat -> cancelled i = false.

(** The computation asks forward, and undisturbed it gives [a]. *)
Definition onward {A} (m : C A) : Prop := forall n, (n <= (m n).2)%nat.
Record computes {A} (m : C A) (a : A) : Prop := {
  forward : onward m;
  gives : forall n, undisturbed n (m n).2 -> (m n).1 = a }.

Lemma computes_ret {A} (a : A) : computes (fun n => (a, n)) a.
Proof. split; [intros n; cbn; lia|done]. Qed.

Lemma computes_bind {A B} (m : C A) (f : A -> C B) a b :
  computes m a -> (forall a, onward (f a)) -> computes (f a) b -> computes (C_bind A B f m) b.
Proof.
  intros [Fm Gm] Ho [Ff Gf]. split; intros n; unfold C_bind; specialize (Fm n); specialize (Gm n);
    destruct (m n) as [a' n1]; cbn [fst snd] in *; specialize (Ho a' n1); [lia|].
  intros Hu. assert (a' = a) as ->.
  { apply Gm. intros i Hi. apply Hu. lia. }
  apply Gf. intros i Hi. apply Hu. lia.
Qed.

Lemma onward_ret {A} (a : A) : onward (fun n => (a, n)).
Proof. intros n. cbn. lia. Qed.

Lemma onward_bind {A B} (m : C A) (f : A -> C B) : onward m -> (forall a, onward (f a)) -> onward (C_bind A B f m).
Proof.
  intros Hm Hf n. unfold C_bind. specialize (Hm n). destruct (m n) as [a n1]. specialize (Hf a n1). cbn in *. lia.
Qed.

Lemma computes_check : computes (is_cancelled cancelled) false.
Proof. split; [intros n; cbn; lia|]. intros n H. apply H. cbn. lia. Qed.

Lemma onward_check : onward (is_cancelled cancelled).
Proof. apply computes_check. Qed.

(** One step of either argument. *)
Ltac onward_step :=
  match goal with
  | |- onward (mbind _ _) => apply onward_bind
  | |- onward (mret _) => apply onward_ret
  | |- onward (is_cancelled _) => apply onward_check
  | |- onward (if ?b then _ else _) => destruct b
  | |- onward (match ?x with _ => _ end) => destruct x
  | |- forall _, onward _ => intros ?
  end.
Ltac onward_tac := repeat onward_step; eauto.

#[local] Existing Instances C_ret C_bind.

Definition visits {A} accept (body : Path -> bool -> C (list A)) : list Visit -> C (bool * list A) :=
  fix visits vs :=
    match vs with
    | [] => mret (false, [])
    | v :: vs =>
        first ← visit cancelled accept body v;
        if first.1 : bool then mret first
        else rest ← visits vs; mret (rest.1, first.2 ++ rest.2)
    end.

Lemma visit_Seen {A} accept (body : Path -> bool -> C (list A)) p file children :
  visit cancelled accept body (Seen p file children) =
  (c ← is_cancelled cancelled;
   if c || negb (accept p) then mret (false, [])
   else
     stop ← is_cancelled cancelled;
     if stop : bool then mret (true, [])
     else
       here ← body p file; below ← visits accept body children; mret (below.1, here ++ below.2)).
Proof. reflexivity. Qed.

Lemma onward_visits {A} accept (body : Path -> bool -> C (list A)) vs :
  Forall (fun v => onward (visit cancelled accept body v)) vs -> onward (visits accept body vs).
Proof. induction 1 as [|v vs Hv Hvs IH]; cbn [visits]; onward_tac. Qed.

Lemma onward_visit {A} accept (body : Path -> bool -> C (list A)) v :
  (forall p file, onward (body p file)) -> onward (visit cancelled accept body v).
Proof.
  intros Hb. induction v as [|p file children IH] using Visit_rect'; [cbn [visit]; onward_tac|].
  rewrite visit_Seen. repeat onward_step; [apply Hb|by apply onward_visits].
Qed.

Lemma computes_visits {A} accept (body : Path -> bool -> C (list A)) f vs :
  (forall p file, onward (body p file)) ->
  Forall (fun v => computes (visit cancelled accept body v) (false, flat accept f v)) vs ->
  computes (visits accept body vs) (false, vs ≫= flat accept f).
Proof.
  intros Ho. induction 1 as [|v vs Hv Hvs IH]; cbn [visits]; [apply computes_ret|].
  assert (Hr : onward (visits accept body vs)) by (apply onward_visits, Forall_forall; intros; by apply onward_visit).
  eapply computes_bind; [exact Hv|onward_tac|]. cbn [fst snd].
  eapply computes_bind; [exact IH|onward_tac|]. apply computes_ret.
Qed.

Lemma computes_visit {A} accept (body : Path -> bool -> C (list A)) f v :
  (forall p file, computes (body p file) (f p file)) ->
  computes (visit cancelled accept body v) (false, flat accept f v).
Proof.
  intros Hb. assert (Ho : forall p file, onward (body p file)) by (intros; apply Hb).
  induction v as [|p file children IH] using Visit_rect'.
  { eapply computes_bind; [apply computes_check|onward_tac|]. apply computes_ret. }
  assert (Hr : onward (visits accept body children)) by (apply onward_visits, Forall_forall; intros; by apply onward_visit).
  rewrite visit_Seen, flat_Seen. eapply computes_bind; [apply computes_check|onward_tac|].
  cbn [orb]. destruct (accept p); cbn [negb]; [|apply computes_ret].
  eapply computes_bind; [apply computes_check|onward_tac|]. cbn iota.
  eapply computes_bind; [apply Hb|onward_tac|].
  eapply computes_bind; [by apply computes_visits|onward_tac|]. apply computes_ret.
Qed.

Lemma computes_walked {A} depth root accept (body : Path -> bool -> C (list A)) f :
  (forall p file, computes (body p file) (f p file)) ->
  computes (walked fs cancelled depth root accept body) (flat accept f (walk fs depth root)).
Proof.
  intros Hb. unfold walked. eapply computes_bind; [by apply computes_visit|onward_tac|]. apply computes_ret.
Qed.

Lemma computes_each {A S} l (f : A -> S -> S) s : computes (each cancelled l f s) (false, foldl (fun s x => f x s) s l).
Proof.
  revert s. induction l as [|x l IH]; intros s; cbn [each foldl]; [apply computes_ret|].
  eapply computes_bind; [apply computes_check| |apply IH]. intros [|]; [onward_tac|apply IH].
Qed.

(** ** The pure meaning of each part *)

(** The bytes of a manifest, and the manifest. *)
Fixpoint bytes_of (rs : list FileRead) (bytes : list Z) : option (list Z) :=
  match rs with
  | Interrupted :: rs => bytes_of rs bytes
  | ReadFailed :: _ => None
  | [] | Got [] :: _ => Some bytes
  | Got chunk :: rs =>
      if MAX_CARGO_MANIFEST_BYTES - Z.of_nat (length bytes) <? Z.of_nat (length chunk) then None
      else bytes_of rs (bytes ++ chunk)
  end.
Definition manifest_at (p : Path) : option CargoDiscoveryManifest :=
  f ← open fs p;
  if negb (is_regular f) || (MAX_CARGO_MANIFEST_BYTES <? len f) then None
  else bytes_of (reads f) [] ≫= decode_manifest toml_from_str category nfc.
Definition package_at (p : Path) : bool := match manifest_at p with Some m => has_package m | None => false end.

Lemma onward_read_loop rs bytes : onward (read_loop cancelled rs bytes).
Proof.
  revert bytes. induction rs as [|r rs IH]; intros bytes; cbn [read_loop]; [onward_tac|].
  apply onward_bind; [apply onward_check|]. intros [|]; [onward_tac|]. destruct r as [| |[|b chunk]]; onward_tac.
Qed.

Lemma computes_read_loop rs bytes : computes (read_loop cancelled rs bytes) (bytes_of rs bytes).
Proof.
  pose proof onward_read_loop as Ho.
  revert bytes. induction rs as [|r rs IH]; intros bytes; cbn [read_loop bytes_of].
  { eapply computes_bind; [apply computes_check|onward_tac|]. eapply computes_bind; [apply computes_check|onward_tac|]. apply computes_ret. }
  eapply computes_bind; [apply computes_check|destruct r as [| |[|b chunk]]; onward_tac|]. cbn iota.
  destruct r as [| |[|b chunk]]; [apply IH|apply computes_ret|..].
  - eapply computes_bind; [apply computes_check|onward_tac|]. apply computes_ret.
  - eapply computes_bind; [apply computes_check|onward_tac|]. cbn iota.
    destruct (_ <? _); [apply computes_ret|apply IH].
Qed.

Lemma computes_parse_manifest p :
  computes (parse_manifest fs toml_from_str category nfc cancelled p) (manifest_at p).
Proof.
  pose proof onward_read_loop as Ho. unfold parse_manifest, manifest_at.
  eapply computes_bind; [apply computes_check|onward_tac|]. cbn iota.
  destruct (open fs p) as [f|]; cbn [mbind option_bind]; [|apply computes_ret].
  destruct (_ || _); [apply computes_ret|].
  eapply computes_bind; [apply computes_read_loop|onward_tac|]. apply computes_ret.
Qed.

Lemma computes_has_package p :
  computes (manifest_has_package fs toml_from_str category nfc cancelled p) (package_at p).
Proof. eapply computes_bind; [apply computes_parse_manifest|onward_tac|]. apply computes_ret. Qed.

Context (workdir : Path) (cfg : ScannerConfig).

Definition kept_entry (p : Path) : bool := negb (is_excluded_dir fs glob cfg p).
Definition workspace_exclude : list str := default [] (manifest_at (workdir ++ [lit "Cargo.toml"]) ≫= exclude).
Definition kept_package (p : Path) : bool :=
  kept_entry p && negb (is_workspace_excluded_descendant glob workdir workspace_exclude p).

(** The files of a walk that [f] chooses. *)
Definition chosen {A} (depth : option nat) (root : Path) (f : Path -> bool -> list A) : list A :=
  flat kept_entry f (walk fs depth root).

Lemma computes_chosen {A} depth root (f : Path -> bool -> list A) :
  computes (walked fs cancelled depth root (fun p => negb (is_excluded_dir fs glob cfg p)) (pick f)) (chosen depth root f).
Proof. apply computes_walked. intros. apply computes_ret. Qed.

Definition manifests : list Path :=
  in_order id (flat kept_package (fun p file => if file && named p "Cargo.toml" && package_at p then [p] else []) (walk fs None workdir)).

Lemma computes_manifests :
  computes (cargo_package_manifests fs glob toml_from_str category nfc cancelled workdir cfg workspace_exclude) manifests.
Proof.
  eapply computes_bind; [|onward_tac|apply computes_ret].
  apply (computes_walked None workdir kept_package). intros p file.
  destruct (file && named p "Cargo.toml"); cbn [andb]; [|apply computes_ret].
  eapply computes_bind; [apply computes_has_package|onward_tac|]. apply computes_ret.
Qed.

Definition cargo_roots (r : DiscoveryRoots) : DiscoveryRoots :=
  foldl (fun r m => match parent m with Some dir => add_rust_package_roots fs dir r | None => r end) r manifests.
Definition dirs_with (marker : string) : list Path :=
  chosen (Some 5%nat) workdir (fun p file => if file && named p marker then parent_of p else []).
Definition c_markers : list string := ["CMakeLists.txt"; "meson.build"; "Makefile"; "compile_commands.json"]%string.
Definition c_roots (marker : string) (r : DiscoveryRoots) : DiscoveryRoots :=
  foldl (fun r dir => add_existing_dirs fs dir c_dirs (push_root dir r)) r (dirs_with marker).
Definition marker_roots (r : DiscoveryRoots) : DiscoveryRoots :=
  foldl (fun r marker => c_roots marker r)
    (foldl (fun r dir => add_existing_dirs fs dir js_dirs r) r (dirs_with "package.json")) c_markers.
Definition dotnet_exts : list string := ["sln"; "slnx"; "csproj"; "fsproj"; "vbproj"]%string.
Definition project_dirs : list Path :=
  chosen None workdir (fun p file => if file && any_ext dotnet_exts p then parent_of p else []) ++
  chosen None workdir gradle_root ++ chosen None workdir apple_root.
Definition all_roots : DiscoveryRoots :=
  let r := foldl (fun r dir => push_root dir r) (marker_roots (cargo_roots {| roots := []; files := [] |})) project_dirs in
  {| roots := in_order id (roots r); files := in_order id (files r) |}.

Lemma onward_marker_dirs marker : onward (marker_dirs fs glob cancelled workdir cfg marker).
Proof. apply computes_chosen. Qed.

Lemma onward_each {A S} l (f : A -> S -> S) s : onward (each cancelled l f s).
Proof. apply computes_each. Qed.

Lemma onward_add_c_roots markers r : onward (add_c_roots fs glob cancelled workdir cfg markers r).
Proof.
  pose proof onward_marker_dirs. pose proof (@onward_each).
  revert r. induction markers as [|m markers IH]; intros r; cbn [add_c_roots]; onward_tac.
Qed.

Lemma computes_add_c_roots markers r :
  computes (add_c_roots fs glob cancelled workdir cfg markers r) (foldl (fun r marker => c_roots marker r) r markers).
Proof.
  pose proof onward_add_c_roots. pose proof (@onward_each).
  revert r. induction markers as [|m markers IH]; intros r; cbn [add_c_roots foldl]; [apply computes_ret|].
  eapply computes_bind; [apply computes_chosen|onward_tac|].
  eapply computes_bind; [apply computes_each|onward_tac|]. apply IH.
Qed.

Lemma computes_add_cargo_roots r :
  computes (add_cargo_roots fs glob toml_from_str category nfc cancelled workdir cfg r) (cargo_roots r).
Proof.
  pose proof (@onward_each). unfold add_cargo_roots, parse_workspace.
  assert (Hm : forall e, onward (cargo_package_manifests fs glob toml_from_str category nfc cancelled workdir cfg e)).
  { intros e. apply onward_bind; [|onward_tac]. apply onward_bind; [|onward_tac]. apply onward_visit. intros p file.
    onward_tac. apply computes_has_package. }
  eapply computes_bind; [|onward_tac|].
  { eapply computes_bind; [apply computes_parse_manifest|onward_tac|]. apply computes_ret. }
  eapply computes_bind; [apply computes_manifests|onward_tac|].
  eapply computes_bind; [apply computes_each|onward_tac|]. apply computes_ret.
Qed.

Lemma computes_add_marker_roots r : computes (add_marker_roots fs glob cancelled workdir cfg r) (marker_roots r).
Proof.
  pose proof onward_add_c_roots. pose proof (@onward_each). unfold add_marker_roots.
  eapply computes_bind; [apply computes_chosen|onward_tac|].
  eapply computes_bind; [apply computes_each|onward_tac|]. apply computes_add_c_roots.
Qed.

Lemma computes_push {A} (f : Path -> bool -> list A) (g : DiscoveryRoots -> A -> DiscoveryRoots) r :
  computes (dirs ← walked fs cancelled None workdir (fun p => negb (is_excluded_dir fs glob cfg p)) (pick f);
            mret (foldl g r dirs)) (foldl g r (chosen None workdir f)).
Proof. eapply computes_bind; [apply computes_chosen|onward_tac|]. apply computes_ret. Qed.

Lemma computes_discover_roots :
  computes (discover_roots fs glob toml_from_str category nfc cancelled workdir cfg) all_roots.
Proof.
  assert (H1 : forall r, onward (add_marker_roots fs glob cancelled workdir cfg r)) by (intros; apply computes_add_marker_roots).
  assert (H2 : forall r, onward (add_dotnet_roots fs glob cancelled workdir cfg r)) by (intros; apply computes_push).
  assert (H3 : forall r, onward (add_gradle_roots fs glob cancelled workdir cfg r)) by (intros; apply computes_push).
  assert (H4 : forall r, onward (add_apple_roots fs glob cancelled workdir cfg r)) by (intros; apply computes_push).
  unfold discover_roots, all_roots, project_dirs. rewrite !foldl_app.
  eapply computes_bind; [apply computes_add_cargo_roots|onward_tac|].
  eapply computes_bind; [apply computes_add_marker_roots|onward_tac|].
  do 3 (eapply computes_bind; [apply computes_push|onward_tac|]). apply computes_ret.
Qed.

(** *** The files *)

Definition files_below (root : Path) : list DiscoveredSourcePath :=
  chosen None root (fun p file => if file : bool then collect_file fs glob category workdir cfg p else []).
Definition from_file (canonical p : Path) : list DiscoveredSourcePath :=
  if is_within_workdir fs p canonical then collect_file fs glob category workdir cfg p else [].
Definition from_root (canonical p : Path) : list DiscoveredSourcePath :=
  if is_within_workdir fs p canonical then files_below p else [].
Definition all_files (canonical : Path) : list DiscoveredSourcePath :=
  match roots all_roots, files all_roots with
  | [], [] => files_below workdir
  | _, _ => (files all_roots ≫= from_file canonical) ++ (roots all_roots ≫= from_root canonical)
  end.

(** What a run returns that sees no cancellation. *)
Definition sources : list DiscoveredSourcePath :=
  match canonicalize fs workdir with None => [] | Some canonical => in_order native (all_files canonical) end.

Lemma computes_collect_files canonical l :
  computes (collect_files fs glob category cancelled workdir canonical cfg l) (Some (l ≫= from_file canonical)).
Proof.
  induction l as [|p l IH]; cbn [collect_files]; [apply computes_ret|]. pose proof (forward _ _ IH).
  eapply computes_bind; [apply computes_check|onward_tac|].
  eapply computes_bind; [exact IH|onward_tac|]. apply computes_ret.
Qed.

Lemma computes_collect_roots canonical l :
  computes (collect_roots fs glob category cancelled workdir canonical cfg l) (Some (l ≫= from_root canonical)).
Proof.
  induction l as [|p l IH]; cbn [collect_roots]; [apply computes_ret|]. pose proof (forward _ _ IH).
  assert (Hh : computes (if is_within_workdir fs p canonical
      then collect_from_root fs glob category cancelled workdir p cfg else mret []) (from_root canonical p)).
  { unfold from_root. destruct (is_within_workdir fs p canonical); [apply computes_chosen|apply computes_ret]. }
  pose proof (forward _ _ Hh).
  eapply computes_bind; [apply computes_check|intros [|]; [onward_tac|]; apply onward_bind; [done|onward_tac]|].
  eapply computes_bind; [exact Hh|onward_tac|].
  eapply computes_bind; [exact IH|onward_tac|]. apply computes_ret.
Qed.

Abbreviation run := (walk_source_files fs glob toml_from_str category nfc cancelled workdir cfg).

Lemma computes_run : computes run sources.
Proof.
  unfold walk_source_files, sources.
  assert (Hd : onward (discover_roots fs glob toml_from_str category nfc cancelled workdir cfg)) by apply computes_discover_roots.
  assert (Hf : forall c l, onward (collect_files fs glob category cancelled workdir c cfg l)) by (intros; eapply forward, computes_collect_files).
  assert (Hr : forall c l, onward (collect_roots fs glob category cancelled workdir c cfg l)) by (intros; eapply forward, computes_collect_roots).
  assert (Hw : onward (collect_from_root fs glob category cancelled workdir workdir cfg)) by apply computes_chosen.
  eapply computes_bind; [apply computes_check|onward_tac|]. cbn iota.
  destruct (canonicalize fs workdir) as [canonical|]; [|apply computes_ret].
  eapply computes_bind; [apply computes_discover_roots|onward_tac|].
  apply computes_bind with (a := Some (all_files canonical)); [|onward_tac|].
  - assert (Hboth : computes
      (from_files ← collect_files fs glob category cancelled workdir canonical cfg (files all_roots);
       match from_files with
       | None => mret None
       | Some from_files =>
           from_roots ← collect_roots fs glob category cancelled workdir canonical cfg (roots all_roots);
           mret (app from_files <$> from_roots)
       end) (Some ((files all_roots ≫= from_file canonical) ++ (roots all_roots ≫= from_root canonical)))).
    { eapply computes_bind; [apply computes_collect_files|onward_tac|].
      eapply computes_bind; [apply computes_collect_roots|onward_tac|]. apply computes_ret. }
    unfold all_files. destruct (roots all_roots); [destruct (files all_roots)|]; [|exact Hboth..].
    eapply computes_bind; [apply computes_chosen|onward_tac|]. apply computes_ret.
  - eapply computes_bind; [apply computes_check|onward_tac|]. apply computes_ret.
Qed.

(** The last thing a run does before it returns files is to ask the token. *)
Lemma run_asks_last n : (run n).1 = [] \/ exists m, (run n).2 = S m /\ cancelled m = false.
Proof.
  unfold walk_source_files, mbind, C_bind, mret, C_ret, is_cancelled. destruct (cancelled n); [by left|].
  destruct (canonicalize fs workdir) as [canonical|]; [|by left].
  destruct (discover_roots _ _ _ _ _ _ _ _ _) as [r n1].
  match goal with |- context[let (_, _) := ?m in _] => destruct m as [[out|] n2] end; [|by left].
  destruct (cancelled n2) eqn:E; [by left|]. right. by exists n2.
Qed.

Lemma undisturbed_dec n n' : undisturbed n n' \/ exists i, (n <= i < n')%nat /\ cancelled i = true.
Proof.
  induction n' as [|n' [IH|(i & Hi & Hc)]]; [left; intros i Hi; lia| |right; exists i; split; [lia|done]].
  destruct (decide (n <= n')%nat) as [Hn|Hn]; [|left; intros i Hi; lia].
  destruct (cancelled n') eqn:E; [right; exists n'; split; [lia|done]|].
  left. intros i Hi. destruct (decide (i = n')) as [->|]; [done|]. apply IH. lia.
Qed.

(** A run returns everything, or nothing when it was cancelled. *)
Lemma run_is_whole n : (forall i j, cancelled i = true -> (i <= j)%nat -> cancelled j = true) ->
  (undisturbed n (run n).2 /\ (run n).1 = sources) \/
  ((exists i, (n <= i < (run n).2)%nat /\ cancelled i = true) /\ (run n).1 = []).
Proof.
  intros Hs. destruct (undisturbed_dec n (run n).2) as [Hu|(i & Hi & Hc)]; [left; split; [done|by apply computes_run]|].
  right. split; [eauto|]. destruct (run_asks_last n) as [|(m & Hm & Hf)]; [done|].
  rewrite (Hs i m Hc) in Hf by lia. done.
Qed.

(** ** What is selected *)

(** The directories of projects, and the build scripts of packages. *)
Inductive project_root : Path -> Prop :=
| cargo_src dir :
    dir ++ [lit "Cargo.toml"] ∈ manifests -> is_dir fs (dir ++ [lit "src"]) = true -> project_root (dir ++ [lit "src"])
| js_dir dir name :
    dir ∈ dirs_with "package.json" -> name ∈ js_dirs -> is_dir fs (dir ++ [lit name]) = true -> project_root (dir ++ [lit name])
| c_dir marker dir : marker ∈ c_markers -> dir ∈ dirs_with marker -> project_root dir
| c_subdir marker dir name :
    marker ∈ c_markers -> dir ∈ dirs_with marker -> name ∈ c_dirs -> is_dir fs (dir ++ [lit name]) = true ->
    project_root (dir ++ [lit name])
| project_dir dir : dir ∈ project_dirs -> project_root dir.

Definition build_script (p : Path) : Prop :=
  exists dir, dir ++ [lit "Cargo.toml"] ∈ manifests /\ p = dir ++ [lit "build.rs"] /\ is_file fs p = true.

(** A package's manifest: reached through entries that neither the scanner nor the
    workspace excludes, a file of that name, with a package table. *)
Lemma manifests_elem m :
  m ∈ manifests <-> reached kept_package (walk fs None workdir) m true /\ named m "Cargo.toml" = true /\ package_at m = true.
Proof.
  unfold manifests. rewrite in_order_elem by done. rewrite flat_elem. split.
  - intros (p & file & Hr & Hm). destruct (file && _ && _) eqn:E; [|by apply elem_of_nil in Hm].
    apply list_elem_of_singleton in Hm as ->. rewrite !andb_true_iff in E. destruct E as [[-> ?] ?]. done.
  - intros (Hr & Hn & Hp). exists m, true. split; [done|]. cbn [andb]. rewrite Hn, Hp. by apply list_elem_of_singleton.
Qed.

(** What a step adds to the roots and to the files. *)
Definition adds (f : DiscoveryRoots -> DiscoveryRoots) (R F : Path -> Prop) : Prop := forall r p,
  (p ∈ roots (f r) <-> p ∈ roots r \/ R p) /\ (p ∈ files (f r) <-> p ∈ files r \/ F p).

Lemma adds_nothing : adds (fun r => r) (fun _ => False) (fun _ => False).
Proof. intros r p. tauto. Qed.

Lemma adds_push_root dir : adds (push_root dir) (fun p => p = dir) (fun _ => False).
Proof. intros r p. unfold push_root. cbn [roots files]. rewrite elem_of_app, list_elem_of_singleton. tauto. Qed.

Lemma adds_push_file path : adds (push_file path) (fun _ => False) (fun p => p = path).
Proof. intros r p. unfold push_file. cbn [roots files]. rewrite elem_of_app, list_elem_of_singleton. tauto. Qed.

Lemma adds_comp f g R1 F1 R2 F2 : adds f R1 F1 -> adds g R2 F2 ->
  adds (fun r => g (f r)) (fun p => R1 p \/ R2 p) (fun p => F1 p \/ F2 p).
Proof. intros Hf Hg r p. destruct (Hf r p), (Hg (f r) p). tauto. Qed.

Lemma adds_if (b : bool) f R F : adds f R F ->
  adds (fun r => if b then f r else r) (fun p => b = true /\ R p) (fun p => b = true /\ F p).
Proof. intros Hf r p. destruct b; destruct (Hf r p); naive_solver. Qed.

Lemma adds_fold {A} (g : A -> DiscoveryRoots -> DiscoveryRoots) (R F : A -> Path -> Prop) l :
  (forall x, x ∈ l -> adds (g x) (R x) (F x)) ->
  adds (fun r => foldl (fun r x => g x r) r l) (fun p => exists x, x ∈ l /\ R x p) (fun p => exists x, x ∈ l /\ F x p).
Proof.
  induction l as [|x l IH]; intros Hg r p; cbn [foldl].
  { split; (split; [tauto|]); intros [?|(x & ?%elem_of_nil & _)]; done. }
  destruct (IH (fun y Hy => Hg y (list_elem_of_further _ _ _ Hy)) (g x r) p) as [-> ->].
  destruct (Hg x (list_elem_of_here _ _) r p) as [-> ->]. setoid_rewrite elem_of_cons. split; naive_solver.
Qed.

Lemma adds_iff f R F R' F' : (forall p, R p <-> R' p) -> (forall p, F p <-> F' p) -> adds f R F -> adds f R' F'.
Proof. intros HR HF Hf r p. rewrite <- HR, <- HF. apply Hf. Qed.

Lemma adds_existing base names : adds (add_existing_dirs fs base names)
  (fun p => exists name, name ∈ names /\ p = base ++ [lit name] /\ is_dir fs p = true) (fun _ => False).
Proof.
  eapply adds_iff; [| |apply (adds_fold (fun name r => if is_dir fs (base ++ [lit name]) then push_root (base ++ [lit name]) r else r)
    (fun name p => is_dir fs (base ++ [lit name]) = true /\ p = base ++ [lit name]) (fun name p => is_dir fs (base ++ [lit name]) = true /\ False))].
  - intros p. cbn. naive_solver.
  - intros p. cbn. naive_solver.
  - intros name _. apply adds_if, adds_push_root.
Qed.

Lemma adds_rust_package dir : adds (add_rust_package_roots fs dir)
  (fun p => p = dir ++ [lit "src"] /\ is_dir fs p = true) (fun p => p = dir ++ [lit "build.rs"] /\ is_file fs p = true).
Proof.
  eapply adds_iff; [| |exact (adds_comp _ _ _ _ _ _ (adds_if (is_dir fs (dir ++ [lit "src"])) _ _ _ (adds_push_root _))
    (adds_if (is_file fs (dir ++ [lit "build.rs"])) _ _ _ (adds_push_file _)))]; intros p; cbn beta; naive_solver.
Qed.

Lemma named_split p name : named p name = true <-> exists dir, p = dir ++ [lit name] /\ parent p = Some dir.
Proof.
  unfold named, file_name, parent. rewrite bool_decide_eq_true, last_Some. split.
  - intros [dir ->]. exists dir. split; [done|]. rewrite removelast_last. by destruct dir.
  - intros (dir & -> & _). by exists dir.
Qed.

Lemma adds_cargo : adds cargo_roots
  (fun p => exists dir, dir ++ [lit "Cargo.toml"] ∈ manifests /\ p = dir ++ [lit "src"] /\ is_dir fs p = true) build_script.
Proof.
  pose (dir_of m := default [] (parent m)).
  assert (Hdir : forall m, m ∈ manifests -> exists dir, m = dir ++ [lit "Cargo.toml"] /\ parent m = Some dir).
  { intros m (_ & Hn & _)%manifests_elem. by apply named_split. }
  assert (Hp : forall dir x, parent (dir ++ [x]) = Some dir).
  { intros dir x. unfold parent. rewrite removelast_last. by destruct dir. }
  eapply adds_iff; [| |apply (adds_fold _
    (fun m p => p = dir_of m ++ [lit "src"] /\ is_dir fs p = true)
    (fun m p => p = dir_of m ++ [lit "build.rs"] /\ is_file fs p = true))].
  - intros p. cbn beta. split.
    + intros (m & Hm & H). destruct (Hdir m Hm) as (dir & -> & E). unfold dir_of in H. rewrite E in H. eauto.
    + intros (dir & Hm & H). exists (dir ++ [lit "Cargo.toml"]). split; [done|]. unfold dir_of. by rewrite Hp.
  - intros p. cbn beta. unfold build_script. split.
    + intros (m & Hm & H). destruct (Hdir m Hm) as (dir & -> & E). unfold dir_of in H. rewrite E in H. eauto.
    + intros (dir & Hm & H). exists (dir ++ [lit "Cargo.toml"]). split; [done|]. unfold dir_of. by rewrite Hp.
  - intros m Hm. destruct (Hdir m Hm) as (dir & _ & E). unfold dir_of. rewrite E. apply adds_rust_package.
Qed.

Lemma adds_c_roots marker : adds (c_roots marker)
  (fun p => exists dir, dir ∈ dirs_with marker /\
     (p = dir \/ exists name, name ∈ c_dirs /\ p = dir ++ [lit name] /\ is_dir fs p = true)) (fun _ => False).
Proof.
  eapply adds_iff; [| |exact (adds_fold _ _ _ (dirs_with marker) (fun dir _ =>
    adds_comp _ _ _ _ _ _ (adds_push_root dir) (adds_existing dir c_dirs)))]; intros p; cbn beta; naive_solver.
Qed.

Lemma all_roots_elem p :
  (p ∈ roots all_roots <-> project_root p) /\ (p ∈ files all_roots <-> build_script p).
Proof.
  unfold all_roots. cbn [roots files]. rewrite !in_order_elem by done.
  pose proof (adds_comp _ _ _ _ _ _ adds_cargo
    (adds_comp _ _ _ _ _ _ (adds_comp _ _ _ _ _ _ 
      (adds_fold (fun dir r => add_existing_dirs fs dir js_dirs r) _ _ (dirs_with "package.json") (fun dir _ => adds_existing dir js_dirs))
      (adds_fold (fun marker r => c_roots marker r) _ _ c_markers (fun marker _ => adds_c_roots marker)))
     (adds_fold (fun dir r => push_root dir r) _ _ project_dirs (fun dir _ => adds_push_root dir)))
    {| roots := []; files := [] |} p) as [HR HF]. cbn beta in HR, HF.
  fold (marker_roots (cargo_roots {| roots := []; files := [] |})) in HR, HF. rewrite HR, HF.
  cbn [roots files]. split.
  - split.
    + intros [[]%elem_of_nil|[(dir & Hm & -> & Hd)|[[(dir & Hm & name & Hn & -> & Hd)|(mk & Hk & dir & Hm & [->|(name & Hn & -> & Hd)])]|(dir & Hd & ->)]]].
      * by apply cargo_src.
      * by apply js_dir.
      * by eapply c_dir.
      * by eapply c_subdir.
      * by apply project_dir.
    + intros [dir Hm Hd|dir name Hm Hn Hd|marker dir Hk Hm|marker dir name Hk Hm Hn Hd|dir Hd]; right.
      * left. by exists dir.
      * right; left; left. exists dir. split; [done|]. by exists name.
      * right; left; right. exists marker. split; [done|]. exists dir. split; [done|by left].
      * right; left; right. exists marker. split; [done|]. exists dir. split; [done|]. right. by exists name.
      * right; right. by exists dir.
  - split; [|by right; left]. intros [[]%elem_of_nil|[H|[[(? & _ & [])|(? & _ & [])]|(? & _ & [])]]]. done.
Qed.

(** The files a run selects. *)
Definition selected (p : Path) : Prop :=
  exists canonical, canonicalize fs workdir = Some canonical /\ admitted_file fs glob cfg p = true /\
  ((forall q, ~ project_root q /\ ~ build_script q) /\ reached kept_entry (walk fs None workdir) p true \/
   build_script p /\ is_within_workdir fs p canonical = true \/
   exists root, project_root root /\ is_within_workdir fs root canonical = true /\
     reached kept_entry (walk fs None root) p true).

Lemma collect_file_elem p d : d ∈ collect_file fs glob category workdir cfg p <->
  admitted_file fs glob cfg p = true /\ d = discovered category workdir p.
Proof.
  unfold collect_file. destruct (admitted_file fs glob cfg p); [rewrite list_elem_of_singleton; naive_solver|].
  split; [by intros ?%elem_of_nil|by intros [? _]].
Qed.

Lemma files_below_elem root d : d ∈ files_below root <->
  d = discovered category workdir (native d) /\ admitted_file fs glob cfg (native d) = true /\
  reached kept_entry (walk fs None root) (native d) true.
Proof.
  unfold files_below, chosen. rewrite flat_elem. split.
  - intros (p & [|] & Hr & Hd); [|by apply elem_of_nil in Hd]. apply collect_file_elem in Hd as [Ha ->]. done.
  - intros (Hd & Ha & Hr). exists (native d), true. split; [done|]. by apply collect_file_elem.
Qed.

Lemma from_file_elem canonical p d : d ∈ from_file canonical p <->
  is_within_workdir fs p canonical = true /\ admitted_file fs glob cfg p = true /\ d = discovered category workdir p.
Proof.
  unfold from_file. destruct (is_within_workdir fs p canonical); [rewrite collect_file_elem; tauto|].
  split; [by intros ?%elem_of_nil|by intros [? _]].
Qed.

Lemma all_files_elem canonical d : canonicalize fs workdir = Some canonical ->
  d ∈ all_files canonical <-> d = discovered category workdir (native d) /\ selected (native d).
Proof.
  intros Hc. unfold selected. rewrite Hc.
  assert (Hboth : d ∈ (files all_roots ≫= from_file canonical) ++ (roots all_roots ≫= from_root canonical) <->
    d = discovered category workdir (native d) /\ admitted_file fs glob cfg (native d) = true /\
    (build_script (native d) /\ is_within_workdir fs (native d) canonical = true \/
     exists root, project_root root /\ is_within_workdir fs root canonical = true /\
       reached kept_entry (walk fs None root) (native d) true)).
  { rewrite elem_of_app, !list_elem_of_bind. setoid_rewrite from_file_elem.
    setoid_rewrite (fun q => proj1 (all_roots_elem q)). setoid_rewrite (fun q => proj2 (all_roots_elem q)). split.
    - intros [(p & (Hw & Ha & Hd) & Hb)|(root & Hd & Hr)].
      + assert (native d = p) as E by (by rewrite Hd). rewrite !E. eauto 10.
      + unfold from_root in Hd. destruct (is_within_workdir fs root canonical) eqn:Hw; [|by apply elem_of_nil in Hd].
        apply files_below_elem in Hd as (Hd & Ha & Hre). eauto 10.
    - intros (Hd & Ha & [[Hb Hw]|(root & Hr & Hw & Hre)]); [left; exists (native d); auto|].
      right. exists root. split; [|done]. unfold from_root. rewrite Hw. by apply files_below_elem. }
  assert (Hex : forall P : Path -> Prop, (exists c, Some canonical = Some c /\ P c) <-> P canonical) by naive_solver.
  rewrite Hex. unfold all_files.
  destruct (roots all_roots) as [|p ps] eqn:Er; [destruct (files all_roots) as [|q qs] eqn:Ef|].
  - assert (Hn : forall q, ~ project_root q /\ ~ build_script q).
    { intros q. destruct (all_roots_elem q) as [<- <-]. rewrite Er, Ef. split; apply not_elem_of_nil. }
    rewrite files_below_elem. split; [intros (? & ? & ?); eauto|].
    intros (Hd & Ha & [[_ Hr]|[[Hb _]|(root & Hr & _)]]); [done|by apply Hn in Hb|by apply Hn in Hr].
  - rewrite Hboth. split; [naive_solver|]. intros (Hd & Ha & [[Hn _]|H]); [|naive_solver]. exfalso.
    eapply (proj2 (Hn q)), all_roots_elem. rewrite Ef. by left.
  - rewrite Hboth. split; [naive_solver|]. intros (Hd & Ha & [[Hn _]|H]); [|naive_solver]. exfalso.
    eapply (proj1 (Hn p)), all_roots_elem. rewrite Er. by left.
Qed.

Lemma sources_elem d : d ∈ sources <-> d = discovered category workdir (native d) /\ selected (native d).
Proof.
  unfold sources. destruct (canonicalize fs workdir) as [canonical|] eqn:Hc.
  - rewrite in_order_elem; [by apply all_files_elem|].
    intros a b [Ha _]%(all_files_elem _ _ Hc) [Hb _]%(all_files_elem _ _ Hc) E. rewrite Ha, Hb, E. done.
  - split; [by intros ?%elem_of_nil|]. intros (_ & c & H & _). congruence.
Qed.

Lemma sources_sorted : StronglySorted (below_path native) sources.
Proof. unfold sources. destruct (canonicalize fs workdir); [apply in_order_sorted|constructor]. Qed.

(** A regular file of a walk is below what the start of the walk resolves to: links
    are followed only at the start. *)
Definition walks_stay_below : Prop := forall root canonical p,
  canonicalize fs root = Some canonical -> reached (fun _ => true) (walk fs None root) p true ->
  exists rel, canonicalize fs p = Some (canonical ++ rel).

Lemma reached_any accept v p file : reached accept v p file -> reached (fun _ => true) v p file.
Proof. induction 1; [by constructor|by eapply reached_below]. Qed.

Lemma strip_prefix_Some base p rel : strip_base base p = Some rel <-> p = base ++ rel.
Proof.
  revert p. induction base as [|x base IH]; intros p; cbn [strip_base app]; [split; congruence|].
  destruct p as [|y p]; [by split|]. destruct (str_eqb x y) eqn:E; bool_prop.
  - rewrite IH. split; congruence.
  - split; [done|]. intros [= -> _]. by rewrite (proj2 (str_eqb_eq x x)) in E.
Qed.

Lemma within_Some p canonical : is_within_workdir fs p canonical = true <->
  exists rel, canonicalize fs p = Some (canonical ++ rel).
Proof.
  unfold is_within_workdir. destruct (canonicalize fs p) as [q|]; [|split; [done|by intros [? ?]]].
  destruct (strip_base canonical q) as [rel|] eqn:E.
  - apply strip_prefix_Some in E as ->. split; [eauto|done].
  - split; [done|]. intros [rel [= ->]]. by rewrite (proj2 (strip_prefix_Some canonical _ rel)) in E.
Qed.

Lemma selected_inside p : walks_stay_below -> selected p ->
  exists canonical rel, canonicalize fs workdir = Some canonical /\ canonicalize fs p = Some (canonical ++ rel).
Proof.
  intros Hw (canonical & Hc & _ & [[_ Hr]|[[_ Hb]|(root & _ & Hroot & Hr)]]); exists canonical.
  - destruct (Hw _ _ _ Hc (reached_any _ _ _ _ Hr)) as [rel E]. eauto.
  - apply within_Some in Hb as [rel E]. eauto.
  - apply within_Some in Hroot as [a Ea]. destruct (Hw _ _ _ Ea (reached_any _ _ _ _ Hr)) as [b E].
    exists (a ++ b). by rewrite app_assoc.
Qed.
End Runs.

(** C30: a discovery that sees no cancellation returns, each once and in the order of
    their paths, exactly the files of the checkout that are to be reviewed: with an
    allowed extension, of at most the allowed size, not excluded, and reached without
    passing an excluded directory from a project root that resolves into the
    checkout, or from the checkout itself when it has no project, together with the
    build scripts ([build.rs]) of the Cargo packages.  One that is cancelled
    returns nothing.  As walks follow no link but their start, no file outside the
    checkout is ever returned. *)
Theorem discovery_is_exact fs glob toml category nfc cancelled workdir cfg n :
  (forall i j, cancelled i = true -> (i <= j)%nat -> cancelled j = true) ->
  let (out, n') := walk_source_files fs glob toml category nfc cancelled workdir cfg n in
  (undisturbed cancelled n n' /\
   StronglySorted (below_path native) out /\
   (forall d, d ∈ out <->
      d = discovered category workdir (native d) /\ selected fs glob toml category nfc workdir cfg (native d)) \/
   (exists i, (n <= i < n')%nat /\ cancelled i = true) /\ out = []) /\
  (walks_stay_below fs -> forall d, d ∈ out ->
     exists canonical rel, canonicalize fs workdir = Some canonical /\ canonicalize fs (native d) = Some (canonical ++ rel)).
Proof.
  intros Hs. pose proof (run_is_whole fs glob toml category nfc cancelled workdir cfg n Hs) as H.
  destruct (walk_source_files _ _ _ _ _ _ _ _ n) as [out n']. cbn [fst snd] in H.
  destruct H as [[Hu ->]|[Hi ->]].
  - split; [left; split_and!; [done|apply sources_sorted|apply sources_elem]|].
    intros Hw d [_ Hd]%sources_elem. by eapply selected_inside.
  - split; [by right|]. by intros _ d ?%elem_of_nil.
Qed.

(** Exclusions look at the whole path: below a directory that they match, wherever
    the checkout lies, nothing is reviewed. *)
Theorem excluded_locations_hide_the_checkout fs glob toml category nfc cancelled workdir cfg n :
  (forall depth root, walk fs depth root = Bad \/ exists file below, walk fs depth root = Seen root file below) ->
  (forall i j, cancelled i = true -> (i <= j)%nat -> cancelled j = true) ->
  is_excluded_dir fs glob cfg workdir = true ->
  (walk_source_files fs glob toml category nfc cancelled workdir cfg n).1 = [].
Proof.
  intros Hwalk Hs Hex. destruct (run_is_whole fs glob toml category nfc cancelled workdir cfg n Hs) as [[_ ->]|[_ ->]]; [|done].
  assert (Hno : forall accept depth p file, accept workdir = false -> ~ reached accept (walk fs depth workdir) p file).
  { intros accept depth p file Ha Hr. destruct (Hwalk depth workdir) as [E|(f & b & E)]; rewrite E in Hr; inversion Hr; congruence. }
  assert (Hk : kept_entry fs glob cfg workdir = false) by (unfold kept_entry; by rewrite Hex).
  assert (Hc : forall A depth (f : Path -> bool -> list A) x, x ∉ chosen fs glob cfg depth workdir f).
  { intros A depth f x (p & file & Hr & _)%flat_elem. by eapply Hno. }
  assert (Hm : forall m, m ∉ manifests fs glob toml category nfc workdir cfg).
  { intros m (Hr & _)%manifests_elem. eapply Hno; [|exact Hr]. unfold kept_package. by rewrite Hk. }
  apply elem_of_nil_inv. intros d (_ & canonical & _ & _ & Hsel)%sources_elem.
  destruct Hsel as [[_ Hr]|[[(dir & Hb & _) _]|(root & Hr & _)]]; [by eapply Hno|by eapply Hm|].
  destruct Hr as [dir Hd|dir name Hd|marker dir _ Hd|marker dir name _ Hd|dir Hd]; [by eapply Hm|by eapply Hc..|].
  unfold project_dirs in Hd. rewrite !elem_of_app in Hd. destruct Hd as [Hd|[Hd|Hd]]; by eapply Hc.
Qed.

(** ** A small checkout *)

Module Checkout.
Definition workdir : Path := [lit "w"].
Definition manifest : Path := workdir ++ [lit "Cargo.toml"].
Definition src : Path := workdir ++ [lit "src"].
Definition library : Path := src ++ [lit "lib.rs"].
Definition hidden : Path := workdir ++ [lit "tests"; lit "a.rs"].
Definition below_src : Visit := Seen src false [Seen library true []; Seen (src ++ [lit "lib.txt"]) true []].
Definition fs : Filesystem := {|
  walk _ root :=
    if bool_decide (root = workdir) then
      Seen workdir false [Seen manifest true []; below_src; Seen (workdir ++ [lit "tests"]) false [Seen hidden true []]]
    else if bool_decide (root = src) then below_src else Bad;
  canonicalize p := Some p;
  is_dir p := bool_decide (p ∈ [workdir; src; workdir ++ [lit "tests"]]);
  is_file p := bool_decide (p ∈ [manifest; library; hidden]);
  metadata_len _ := Some 10;
  open p := if bool_decide (p = manifest) then Some {| is_regular := true; len := 9; reads := [Interrupted; Got (lit "[package]")] |} else None;
  read_dir _ := None |}.
Definition glob : Glob := {| glob_matches _ _ := Some false; glob_matches_path _ _ := Some false |}.
Definition toml (_ : str) : option Toml := Some (TomlTable [(lit "package", TomlTable [])]).

Lemma walks_below : walks_stay_below fs.
Proof.
  intros root canonical p [= <-] Hr.
  assert (Hp : p ∈ flat (fun _ => true) (fun p file => if file : bool then [p] else []) (walk fs None root)).
  { apply flat_elem. exists p, true. split; [done|]. by left. }
  cbn [walk fs] in Hp. destruct (decide (root = workdir)) as [->|H1].
  { rewrite bool_decide_eq_true_2 in Hp by done. exists (drop 1 p). cbn [canonicalize fs]. f_equal.
    change (p ∈ [manifest; library; src ++ [lit "lib.txt"]; hidden]) in Hp. rewrite !elem_of_cons, elem_of_nil in Hp.
    by destruct Hp as [->|[->|[->|[->|[]]]]]. }
  rewrite bool_decide_eq_false_2 in Hp by done. destruct (decide (root = src)) as [->|H2].
  { rewrite bool_decide_eq_true_2 in Hp by done. exists (drop 2 p). cbn [canonicalize fs]. f_equal.
    change (p ∈ [library; src ++ [lit "lib.txt"]]) in Hp. rewrite !elem_of_cons, elem_of_nil in Hp.
    by destruct Hp as [->|[->|[]]]. }
  rewrite bool_decide_eq_false_2 in Hp by done. by apply elem_of_nil in Hp.
Qed.
End Checkout.

Lemma discovery_is_exact_witness :
  let (out, _) := walk_source_files Checkout.fs Checkout.glob Checkout.toml (fun _ => LowercaseLetter) (fun s => s)
    (fun _ => false) Checkout.workdir (default_config 60) 0%nat in
  native <$> out = [Checkout.library] /\
  forall d, d ∈ out -> exists canonical rel, canonicalize Checkout.fs Checkout.workdir = Some canonical /\
    canonicalize Checkout.fs (native d) = Some (canonical ++ rel).
Proof.
  pose proof (discovery_is_exact Checkout.fs Checkout.glob Checkout.toml (fun _ => LowercaseLetter) (fun s => s)
    (fun _ => false) Checkout.workdir (default_config 60) 0%nat (fun _ _ H _ => H)) as H.
  assert (E : native <$> (walk_source_files Checkout.fs Checkout.glob Checkout.toml (fun _ => LowercaseLetter) (fun s => s)
    (fun _ => false) Checkout.workdir (default_config 60) 0%nat).1 = [Checkout.library]) by (vm_compute; reflexivity).
  destruct (walk_source_files _ _ _ _ _ _ _ _ _) as [out n']. split; [exact E|].
  apply (proj2 H), Checkout.walks_below.
Defined.

Lemma excluded_locations_hide_the_checkout_witness :
  (walk_source_files Checkout.fs Checkout.glob Checkout.toml (fun _ => LowercaseLetter) (fun s => s)
    (fun _ => false) [lit "build"; lit "w"] (default_config 60) 0%nat).1 = [].
Proof.
  apply excluded_locations_hide_the_checkout; [|done|vm_compute; reflexivity].
  intros depth root. cbn [walk Checkout.fs]. destruct (decide (root = Checkout.workdir)) as [->|H1].
  { right. rewrite bool_decide_eq_true_2 by done. eauto. }
  rewrite bool_decide_eq_false_2 by done. destruct (decide (root = Checkout.src)) as [->|H2].
  { right. rewrite bool_decide_eq_true_2 by done. unfold Checkout.below_src. eauto. }
  rewrite bool_decide_eq_false_2 by done. by left.
Defined.
