(* ===== verification/Server.v ===== *)
(** * The server's handlers: authentication, capabilities, jobs, findings, registry

    [loupe-server/src/auth.rs], [job_capability.rs], [router.rs] (the protocol
    header and the role layers), [routes/jobs.rs], [routes/findings_admin.rs],
    [routes/repos.rs], [routes/workers.rs] and [routes/github_app.rs], as
    programs in a state and error monad over the application state.  A handler
    takes its request decoded; what the decoder refused is its status.  An
    error is its status code: messages are not modelled.

    Requests run concurrently.  Each access of a handler to the database is
    preceded by the operations other requests ran since its last one:
    [gap i] lists them, for the [i]-th access. *)
From Stdlib Require Import ZArith Lia.
From stdpp Require Import base gmap sets list strings numbers.
From S2P Require Import Prelude Buffers Budgets Sql Domain Vocabulary SchedPolicy Store Scope Repos Findings Jobs Issuer Claim Reports Recovery System Text LlmFinding Render Email Dispatch.
Local Open Scope Z_scope.

Definition OK : StatusCode := 200.
Definition CREATED : StatusCode := 201.
Definition NO_CONTENT : StatusCode := 204.
Definition UNAUTHORIZED : StatusCode := 401.
Definition FORBIDDEN : StatusCode := 403.
Definition NOT_FOUND : StatusCode := 404.
Definition CONFLICT : StatusCode := 409.
Definition INTERNAL_SERVER_ERROR : StatusCode := 500.

Definition PROTOCOL_VERSION : Z := 3.
Definition JOB_CAPABILITY_TOKEN_CHARS : Z := 43.
Definition DEFAULT_VALIDATING_BUDGET_SECS : Z := 7 * 24 * 60 * 60.
Definition LIST_DEFAULT_LIMIT : Z := 100.

Record AppState := {
  st_handle : Handle;
  st_budgets : Entries;
  st_world : World;
  st_wakeups : Z;
}.

#[export] Instance eta_AppState : Eta AppState := fun s => {|
  st_handle := st_handle s; st_budgets := st_budgets s; st_world := st_world s;
  st_wakeups := st_wakeups s |}.

Record Settings := {
  cfg_budgets : WorkerBudgetConfig;
  cfg_require_approval_default : bool;
  cfg_verification_default : bool;
  cfg_github_app_allowed_owners : option (list str);
}.

(** ** Handlers *)

Definition Server (A : Type) : Type := AppState -> result StatusCode A * AppState.
#[export] Instance server_ret : MRet Server := fun A a st => (Ok a, st).
#[export] Instance server_bind : MBind Server := fun A B k m st =>
  match m st with
  | (Ok a, st') => k a st'
  | (Err e, st') => (Err e, st')
  end.

#[export] Instance server_fmap : FMap Server := fun A B f m => a ← m; mret (f a).

Definition fail {A} (status : StatusCode) : Server A := fun st => (Err status, st).
Definition lift {A} (r : result StatusCode A) : Server A := fun st => (r, st).
(** [.map_err(..)?] of a storage result *)
Definition or_status {A} (status : Error -> StatusCode) (r : result Error A) : Server A :=
  lift (map_err status r).
(** [.ok_or(..)?] *)
Definition or_fail {A} (status : StatusCode) (o : option A) : Server A := lift (ok_or o status).

Definition on_handle {A} (f : Handle -> result Error A * Handle) : Server (result Error A) := fun st =>
  let '(r, h) := f (st_handle st) in (Ok r, st <|st_handle := h|>).

(** [state.job_arrived.notify_waiters()] *)
Definition notify_waiters : Server unit := fun st => (Ok tt, st <|st_wakeups := st_wakeups st + 1|>).

Definition internal (_ : Error) : StatusCode := INTERNAL_SERVER_ERROR.

(** ** Protocol versions and headers *)

Definition check_version (version : Z) : result StatusCode unit :=
  if version =? PROTOCOL_VERSION then Ok tt else Err BAD_REQUEST.

(** [HeaderValue::to_str]: visible ASCII and tabs *)
Definition to_str (value : bytes) : option str :=
  if forallb (fun b => ((32 <=? b) && (b <=? 126)) || (b =? 9)) value then Some value else None.

(** [str::parse::<u16>] *)
Fixpoint parse_digits (acc : Z) (s : str) : option Z :=
  match s with
  | [] => Some acc
  | c :: s' =>
      if (48 <=? c) && (c <=? 57)
      then let n := acc * 10 + (c - 48) in if n <=? 65535 then parse_digits n s' else None
      else None
  end.
Definition parse_u16 (s : str) : option Z :=
  match s with
  | [] => None
  | [43] => None
  | 43 :: rest => parse_digits 0 rest
  | _ => parse_digits 0 s
  end.

(** Whether [request_protocol_error] has something to say. *)
Definition request_protocol_error (value : option bytes) : bool :=
  match value with
  | None => false
  | Some value =>
      match to_str value with
      | None => true
      | Some raw => match parse_u16 raw with Some n => negb (n =? PROTOCOL_VERSION) | None => true end
      end
  end.

(** [check_request_protocol] outside the phase routes. *)
Definition check_request_protocol (value : option bytes) : result StatusCode unit :=
  if request_protocol_error value then Err BAD_REQUEST else Ok tt.

(** ** Authentication *)

Record AuthedWorker := { aw_worker : WorkerRow }.
Definition aw_id (a : AuthedWorker) : Z := w_id (aw_worker a).
Definition aw_name (a : AuthedWorker) : str := w_name (aw_worker a).

Definition is_admin (a : AuthedWorker) : bool := bool_decide (w_kind (aw_worker a) = KindAdmin).
Definition is_worker (a : AuthedWorker) : bool := bool_decide (w_kind (aw_worker a) = KindWorker).

(** The authority granted by [mtls_auth] is the role of the row. *)
Definition operator_ingress (a : AuthedWorker) : bool := is_admin a.
Definition worker_ingress (a : AuthedWorker) : bool := is_worker a.

Definition require_operator (a : AuthedWorker) : Server unit :=
  if operator_ingress a then mret tt else fail FORBIDDEN.
(** The middleware layers over the admin and the worker routes. *)
Definition require_admin (a : AuthedWorker) : Server unit := if is_admin a then mret tt else fail FORBIDDEN.
Definition require_worker (a : AuthedWorker) : Server unit := if is_worker a then mret tt else fail FORBIDDEN.

(** The body of a request, as [enforce] captures it for workers. *)
Record Incoming := {
  in_lease_path : bool;
  in_budget_now : Z;
  in_budget_lease_now : Z;
  in_stream : list (Z * result unit (list Z));
}.

Section Server.
Context (category : Z -> GeneralCategory) (phase_tail : JobRow -> Tx Claimed) (o : Oracle).
(** [blake3::hash] and [loupe_tls::cert_fingerprint]. *)
Context (blake3 : bytes -> bytes) (cert_fingerprint : bytes -> bytes).
Context (cfg : Settings).

(** What other requests did since the last access. *)
Definition others (ops : list Op) : Server unit := fun st =>
  (Ok tt, st <|st_handle := exec_all phase_tail ops (st_handle st)|>).

Definition enforce_budget (worker : Z) (req : Incoming) : Server bytes := fun st =>
  let '(r, entries) := enforce (cfg_budgets cfg) (st_budgets st) worker (in_lease_path req)
                         (in_budget_now req) (in_budget_lease_now req) (in_stream req) in
  (r, st <|st_budgets := entries|>).

Definition mtls_auth (gap : nat -> list Op) (cert : option bytes) (req : Incoming) (now : Z)
    : Server AuthedWorker :=
  cert ← or_fail UNAUTHORIZED cert;
  _ ← others (gap 0%nat);
  row ← on_handle (with_conn (Workers.find_active_by_fingerprint (cert_fingerprint cert)));
  row ← or_status internal row;
  row ← or_fail UNAUTHORIZED row;
  let authed := {| aw_worker := row |} in
  _ ← (if worker_ingress authed then _ ← enforce_budget (aw_id authed) req; mret tt else mret tt);
  _ ← others (gap 1%nat);
  _ ← on_handle (with_conn (Workers.touch_last_seen (aw_id authed) now));
  mret authed.

(** ** Capabilities *)

Definition parse_capability_value (value : option bytes) : option bytes :=
  token ← value ≫= to_str;
  if str_len token =? JOB_CAPABILITY_TOKEN_CHARS then Some (blake3 token) else None.

Record LeaseFacts := {
  lf_worker_id : option Z;
  lf_capability_hash : bytes;
  lf_lease_expires_at : option Z;
  lf_state : JobState;
}.

Definition capability_admits (row : LeaseFacts) (caller_worker : Z) (hash : bytes) (now : Z) : bool :=
  bool_decide (lf_worker_id row = Some caller_worker) && bool_decide (lf_capability_hash row = hash) &&
  bool_decide (lf_state row = Leased) &&
  match lf_lease_expires_at row with Some expiry => now <=? expiry | None => false end.

Definition legacy_kind (k : JobKind) : bool := match k with Scan | Verify => true | _ => false end.

Record AuthorizedJob := { aj_row : JobRow; aj_capability_hash : bytes }.

(** [AuthorizedJob::active_lease] *)
Definition active_lease (a : AuthorizedJob) (worker_id now : Z) : ActiveLease := {|
  al_identity := {| li_job_id := j_id (aj_row a); li_worker_id := worker_id;
                    li_capability_hash := aj_capability_hash a |};
  al_now := now |}.

Definition authorize (worker : AuthedWorker) (header : option bytes) (now : Z) : Server AuthorizedJob :=
  hash ← or_fail FORBIDDEN (parse_capability_value header);
  row ← on_handle (with_conn (Jobs.get_active_by_capability_hash (aw_id worker) hash now));
  row ← or_status internal row;
  row ← or_fail FORBIDDEN row;
  let facts := {| lf_worker_id := j_worker_id row; lf_capability_hash := hash;
                  lf_lease_expires_at := j_lease_expires_at row; lf_state := j_state row |} in
  if negb (capability_admits facts (aw_id worker) hash now) then fail FORBIDDEN
  else mret {| aj_row := row; aj_capability_hash := hash |}.

Definition authorize_for_job (worker : AuthedWorker) (header : option bytes) (job_id now : Z)
    : Server AuthorizedJob :=
  authorized ← authorize worker header now;
  if negb (j_id (aj_row authorized) =? job_id) || negb (legacy_kind (j_kind (aj_row authorized)))
  then fail FORBIDDEN else mret authorized.

(** ** Report sizes *)

Definition validate_report_with_patch (repo : RepoRow) (finding : Finding) (revision patch : option str)
    : result StatusCode unit :=
  match r_reporting repo with
  | GithubIssue _ _ _ =>
      _ ← map_err (fun _ => BAD_REQUEST)
            (ReportLimits.validate_report_content (f_description finding) (f_poc_unified finding)
               (match patch with Some p => Some p | None => f_patch_unified finding end));
      let view := view_new i64_max finding revision in
      let view := match patch with Some p => with_patch view p | None => view end in
      map_err (fun _ => BAD_REQUEST) (validate_view repo view)
  | _ => Ok tt
  end.

Definition validate_report_size (repo : RepoRow) (finding : Finding) (revision : option str)
    : result StatusCode unit := validate_report_with_patch repo finding revision None.

Fixpoint validate_batch (repo : RepoRow) (revision : option str) (batch : list Finding)
    : result StatusCode unit :=
  match batch with
  | [] => Ok tt
  | f :: batch' => _ ← validate_report_size repo f revision; validate_batch repo revision batch'
  end.

Definition storage_write_error (e : Error) : StatusCode :=
  match e with
  | Validation _ _ => BAD_REQUEST
  | ConflictError _ => CONFLICT
  | OwnershipError _ => FORBIDDEN
  | ScopeDenied => FORBIDDEN
  | ReportReceiptError => CONFLICT
  | NotFound _ _ => NOT_FOUND
  | Sqlite _ => INTERNAL_SERVER_ERROR
  end.

(** ** Worker routes *)

Inductive Route := RFindings | RLlmFinding | RVerdict.
Definition route_admits_kind (route : Route) (kind : JobKind) : bool :=
  match route with
  | RFindings | RLlmFinding => bool_decide (kind = Scan)
  | RVerdict => bool_decide (kind = Verify)
  end.

(** [dispatch_prepared(..).await]; the clock is the handler's. *)
Definition dispatch (gap : nat -> list Op) (preparation : Preparation) (now : Z)
    : Server (result DispatchError unit) := fun st =>
  let '(r, h, w) := dispatch_prepared category phase_tail o (cfg_github_app_allowed_owners cfg) gap
                      preparation now (st_handle st) (st_world st) in
  (Ok r, st <|st_handle := h|> <|st_world := w|>).

Definition heartbeat (gap : nat -> list Op) (worker : AuthedWorker) (job_id : Z) (header : option bytes)
    (body : result StatusCode (option Z)) (now : Z) : Server Z :=
  version ← lift body;
  _ ← (match version with Some v => lift (check_version v) | None => mret tt end);
  _ ← others (gap 0%nat);
  authorized ← authorize_for_job worker header job_id now;
  _ ← others (gap 1%nat);
  r ← on_handle (with_active_lease (active_lease authorized (aw_id worker) now)
                   (fun scope => Jobs.extend_lease scope Jobs.DEFAULT_LEASE_SECONDS));
  r ← or_status internal r;
  or_fail FORBIDDEN (mjoin r).

(** A batch with the identities [findings::submit] draws for it. *)
Definition submit_findings (gap : nat -> list Op) (worker : AuthedWorker) (job_id : Z) (header : option bytes)
    (body : result StatusCode (Z * list (Finding * result Error bytes))) (now : Z) : Server StatusCode :=
  batch ← lift body;
  _ ← lift (check_version batch.1);
  _ ← others (gap 0%nat);
  authorized ← authorize_for_job worker header job_id now;
  if negb (route_admits_kind RFindings (j_kind (aj_row authorized))) then fail BAD_REQUEST
  else if existsb (fun fg => str_eqb (f_scanner_id fg.1) LLM_CODE_REVIEW_SCANNER_ID) batch.2 then fail BAD_REQUEST
  else
    _ ← others (gap 1%nat);
    submitted ← on_handle (with_active_lease (active_lease authorized (aw_id worker) now) (fun scope =>
      repo ← Repos.get (as_repo scope);
      match repo with
      | None => tx_err ScopeDenied
      | Some repo =>
          match validate_batch repo (j_head_sha (as_job scope)) (batch.2.*1) with
          | Err status => mret (Err status)
          | Ok _ => _ ← submit_batch scope batch.2; mret (Ok tt)
          end
      end));
    submitted ← or_status storage_write_error submitted;
    submitted ← or_fail FORBIDDEN submitted;
    _ ← lift submitted;
    mret NO_CONTENT.

Definition submit_llm_finding (gap : nat -> list Op) (worker : AuthedWorker) (job_id : Z) (header : option bytes)
    (body : result StatusCode (LlmInput * result Error bytes)) (now : Z) : Server StatusCode :=
  submission ← lift body;
  _ ← lift (check_version (li_protocol_version submission.1));
  _ ← others (gap 0%nat);
  authorized ← authorize_for_job worker header job_id now;
  if negb (route_admits_kind RLlmFinding (j_kind (aj_row authorized))) then fail BAD_REQUEST
  else
    _ ← lift (map_err (fun _ => BAD_REQUEST) (validate_llm_finding submission.1));
    let finding := into_finding submission.1 in
    _ ← others (gap 1%nat);
    submitted ← on_handle (with_active_lease (active_lease authorized (aw_id worker) now) (fun scope =>
      repo ← Repos.get (as_repo scope);
      match repo with
      | None => tx_err ScopeDenied
      | Some repo =>
          match validate_report_size repo finding (j_head_sha (as_job scope)) with
          | Err status => mret (Err status)
          | Ok _ => _ ← Findings.submit scope finding submission.2; mret (Ok tt)
          end
      end));
    submitted ← or_status storage_write_error submitted;
    submitted ← or_fail FORBIDDEN submitted;
    _ ← lift submitted;
    mret NO_CONTENT.

Definition submit_verdict (gap : nat -> list Op) (delivery : nat -> list Op) (worker : AuthedWorker) (job_id : Z)
    (header : option bytes) (body : result StatusCode (Z * Verdict)) (now : Z) : Server StatusCode :=
  submission ← lift body;
  _ ← lift (check_version submission.1);
  _ ← others (gap 0%nat);
  authorized ← authorize_for_job worker header job_id now;
  if negb (route_admits_kind RVerdict (j_kind (aj_row authorized))) then fail BAD_REQUEST
  else
    target ← or_fail BAD_REQUEST (j_target_finding_id (aj_row authorized));
    let terminal_inconclusive :=
      match submission.2 with VInconclusive _ terminal => terminal | _ => false end in
    let patch_to_attach :=
      match submission.2 with VConfirmed _ (Some p) => Some (vp_patch_unified p) | _ => None end in
    _ ← others (gap 1%nat);
    r ← on_handle (with_active_lease (active_lease authorized (aw_id worker) now) (fun scope =>
      repo ← Repos.get (as_repo scope);
      match repo with
      | None => tx_err ScopeDenied
      | Some repo =>
          refused ← (match patch_to_attach with
                     | None => mret None
                     | Some patch =>
                         finding ← Findings.get (as_repo scope) target;
                         match finding with
                         | None => mret (Some NOT_FOUND)
                         | Some finding =>
                             job ← Jobs.get (as_repo scope) (fr_job_id finding);
                             let revision := match job with Some j => j_head_sha j | None => None end in
                             mret (match validate_report_with_patch repo (fr_finding finding) revision (Some patch) with
                                   | Err status => Some status
                                   | Ok _ => None
                                   end)
                         end
                     end);
          match refused with
          | Some status => mret (Err status)
          | None =>
              r ← Reports.submit_verdict scope submission.2 (aw_name worker) terminal_inconclusive
                    (cfg_require_approval_default cfg);
              mret (Ok r.2)
          end
      end));
    r ← or_status storage_write_error r;
    r ← or_fail FORBIDDEN r;
    preparation ← lift r;
    _ ← dispatch delivery preparation now;
    mret NO_CONTENT.

Inductive CompleteOutcome := CSucceeded | CFailed.
Record CompleteRequest := {
  cr_protocol_version : Z;
  cr_outcome : CompleteOutcome;
  cr_head_sha : option str;
  cr_error : option str;
}.

Definition complete (gap : nat -> list Op) (delivery : nat -> list Op) (worker : AuthedWorker) (job_id : Z)
    (header : option bytes) (body : result StatusCode CompleteRequest) (now : Z) : Server StatusCode :=
  req ← lift body;
  _ ← lift (check_version (cr_protocol_version req));
  let new_state := match cr_outcome req with CSucceeded => Succeeded | CFailed => Failed end in
  _ ← others (gap 0%nat);
  authorized ← authorize_for_job worker header job_id now;
  let job := aj_row authorized in
  if negb (Jobs.legacy_kind (j_kind job)) then fail BAD_REQUEST
  else
    _ ← (match cr_outcome req, j_kind job with
         | CFailed, _ => mret tt
         | CSucceeded, Scan =>
             match cr_head_sha req with
             | Some sha => if str_is_empty (trim sha) then fail BAD_REQUEST else mret tt
             | None => fail BAD_REQUEST
             end
         | CSucceeded, Verify =>
             _ ← others (gap 1%nat);
             r ← on_handle (with_active_lease (active_lease authorized (aw_id worker) now) Jobs.has_verdict);
             r ← or_status internal r;
             has_verdict ← or_fail FORBIDDEN r;
             if (has_verdict : bool) then mret tt else fail CONFLICT
         | CSucceeded, _ => fail BAD_REQUEST
         end);
    _ ← others (gap 2%nat);
    r ← on_handle (with_active_lease (active_lease authorized (aw_id worker) now) (fun scope =>
      Reports.complete_assignment scope new_state (cr_head_sha req) (cr_error req)
        (cfg_require_approval_default cfg) (wrapping_add now DEFAULT_VALIDATING_BUDGET_SECS)));
    r ← or_status internal r;
    preparation ← or_fail CONFLICT r;
    match cr_outcome req, j_kind job with
    | CSucceeded, Scan =>
        _ ← notify_waiters;
        _ ← dispatch delivery preparation now;
        mret NO_CONTENT
    | _, _ => mret NO_CONTENT
    end.

(** ** Operator routes: jobs *)

Definition enqueue_scan (gap : nat -> list Op) (operator : AuthedWorker) (repo_id : Z)
    (body : result StatusCode (Z * bool)) (now : Z) : Server (StatusCode * Z) :=
  req ← lift body;
  _ ← lift (check_version req.1);
  _ ← require_operator operator;
  _ ← others (gap 0%nat);
  r ← on_handle (with_operator_repository (TRepository repo_id) (fun scope =>
    repo ← Repos.get scope;
    match repo with
    | None => mret None
    | Some repo =>
        let since_sha := if (req.2 : bool) then r_last_scanned_sha repo else None in
        id ← Jobs.enqueue scope {| qj_kind := Scan; qj_incremental := req.2; qj_since_sha := since_sha;
                                   qj_parent_job_id := None; qj_target_finding_id := None |} now;
        mret (Some id)
    end));
  r ← or_status internal r;
  job_id ← or_fail NOT_FOUND r;
  _ ← notify_waiters;
  mret (CREATED, job_id).

Definition list_jobs (gap : nat -> list Op) (operator : AuthedWorker) (filter : Jobs.JobFilter)
    : Server (list JobRow) :=
  _ ← require_operator operator;
  _ ← others (gap 0%nat);
  r ← on_handle (with_conn (Jobs.list_jobs filter));
  or_status internal r.

Definition get_job (gap : nat -> list Op) (operator : AuthedWorker) (id : Z) : Server JobRow :=
  _ ← require_operator operator;
  _ ← others (gap 0%nat);
  r ← on_handle (with_operator_repository (TJob id) (fun scope => Jobs.get scope id));
  r ← or_status (fun e => match e with NotFound EJob _ => NOT_FOUND | _ => INTERNAL_SERVER_ERROR end) r;
  or_fail NOT_FOUND r.

Definition retry (gap : nat -> list Op) (operator : AuthedWorker) (id now : Z) : Server JobRow :=
  _ ← require_operator operator;
  _ ← others (gap 0%nat);
  r ← on_handle (with_conn (Jobs.retry_failed id now (wrapping_add now DEFAULT_VALIDATING_BUDGET_SECS)));
  r ← or_status internal r;
  match r with
  | Jobs.Retried row => _ ← notify_waiters; mret row
  | Jobs.RetryNotFound => fail NOT_FOUND
  | Jobs.RetryConflictWith _ => fail CONFLICT
  | Jobs.RetryUnsupportedKind => fail CONFLICT
  end.

Definition cancel (gap : nat -> list Op) (operator : AuthedWorker) (id now : Z) : Server JobRow :=
  _ ← require_operator operator;
  _ ← others (gap 0%nat);
  r ← on_handle (with_conn (Jobs.cancel id now));
  r ← or_status internal r;
  match r with
  | Jobs.JobCancelled row => mret row
  | Jobs.CancelNotFound => fail NOT_FOUND
  | Jobs.NotCancellable _ => fail CONFLICT
  | Jobs.CancelUnsupportedKind => fail CONFLICT
  end.

(** [parse_states]: the empty list when there is no filter. *)
Fixpoint states_of (tokens : list str) (states : list JobState) : result StatusCode (list JobState) :=
  match tokens with
  | [] => Ok states
  | token :: tokens' =>
      match JobState.from_str token with
      | Err _ => Err BAD_REQUEST
      | Ok state => states_of tokens' (if bool_decide (state ∈ states) then states else states ++ [state])
      end
  end.

Definition parse_states (raw : option str) : result StatusCode (list JobState) :=
  match raw with
  | None => Ok []
  | Some raw =>
      states ← states_of (filter (fun t => t <> []) (trim <$> split_on 44 raw)) [];
      match states with [] => Err BAD_REQUEST | _ => Ok states end
  end.

Definition parse_kind (raw : option str) : result StatusCode (option JobKind) :=
  match raw with
  | None => Ok None
  | Some k =>
      if str_eqb k (lit "scan") then Ok (Some Scan)
      else if str_eqb k (lit "verify") then Ok (Some Verify)
      else if str_eqb k (lit "survey") then Ok (Some Survey)
      else if str_eqb k (lit "drilldown") then Ok (Some Drilldown)
      else Err BAD_REQUEST
  end.

(** ** Operator routes: findings *)

Definition read_error (e : Error) : StatusCode :=
  match e with
  | NotFound EFinding _ => NOT_FOUND
  | ScopeDenied => FORBIDDEN
  | _ => INTERNAL_SERVER_ERROR
  end.

Definition read_scope {A} (gap : nat -> list Op) (authed : AuthedWorker) (header : option bytes)
    (target : OperatorTarget) (now : Z) (body : RepoScope -> Tx A) : Server A :=
  if operator_ingress authed then
    _ ← others (gap 0%nat);
    r ← on_handle (with_operator_repository target body);
    or_status read_error r
  else
    _ ← others (gap 0%nat);
    authorized ← authorize authed header now;
    _ ← others (gap 1%nat);
    r ← on_handle (with_active_lease (active_lease authorized (aw_id authed) now) (fun scope =>
      match target with
      | TRepository repo =>
          if negb (rs_repo_id (as_repo scope) =? repo) then tx_err ScopeDenied else body (as_repo scope)
      | _ => body (as_repo scope)
      end));
    r ← or_status read_error r;
    or_fail FORBIDDEN r.

Definition positive_limit (limit : option Z) : result StatusCode (option Z) :=
  match limit with
  | Some n => if n <=? 0 then Err BAD_REQUEST else Ok limit
  | None => Ok None
  end.

Definition list_for_repo (gap : nat -> list Op) (authed : AuthedWorker) (repo_id : Z) (limit : option Z) (now : Z)
    : Server (list FindingRow) :=
  limit ← lift (positive_limit limit);
  read_scope gap authed None (TRepository repo_id) now
    (fun scope => Findings.list_for_repo scope (default LIST_DEFAULT_LIMIT limit)).

Definition get_finding (gap : nat -> list Op) (authed : AuthedWorker) (id : Z) (header : option bytes) (now : Z)
    : Server FindingRow :=
  r ← read_scope gap authed header (TFinding id) now (fun scope => Findings.get scope id);
  or_fail NOT_FOUND r.

Definition retry_verify (gap : nat -> list Op) (operator : AuthedWorker)
    (body : result StatusCode (Z * RecoveryRequest)) (now : Z) : Server RecoveryCounts :=
  req ← lift body;
  _ ← lift (check_version req.1);
  _ ← lift (positive_limit (rq_limit req.2));
  _ ← require_operator operator;
  _ ← others (gap 0%nat);
  r ← on_handle (with_conn (retry_verification_candidates req.2 now DEFAULT_VALIDATING_BUDGET_SECS));
  response ← or_status internal r;
  _ ← (if negb (rc_dry_run response) && (0 <? rc_requeued_jobs response + rc_created_jobs response)
       then notify_waiters else mret tt);
  mret response.

Definition approve (gap : nat -> list Op) (delivery : nat -> list Op) (authed : AuthedWorker) (id now : Z)
    : Server StatusCode :=
  _ ← require_operator authed;
  _ ← others (gap 0%nat);
  r ← on_handle (with_operator_repository (TFinding id) (fun scope => Reports.approve scope id (aw_name authed) now));
  r ← or_status (fun e => match e with NotFound EFinding _ => NOT_FOUND | _ => INTERNAL_SERVER_ERROR end) r;
  match r.1 with
  | Applied => _ ← dispatch delivery r.2 now; mret NO_CONTENT
  | NotPending => fail CONFLICT
  | ApprovalNotFound => fail NOT_FOUND
  end.

Definition retry_report (gap : nat -> list Op) (delivery : nat -> list Op) (authed : AuthedWorker) (id now : Z)
    : Server StatusCode :=
  _ ← require_operator authed;
  _ ← others (gap 0%nat);
  r ← on_handle (with_operator_repository (TFinding id) (fun scope =>
    row ← Findings.get scope id;
    match row with
    | None => tx_err (NotFound EFinding id)
    | Some row =>
        match fr_state row with
        | Reported => mret (Ok NoReport)
        | Confirmed =>
            repo ← Repos.get scope;
            match repo with
            | None => tx_err ScopeDenied
            | Some repo =>
                match r_reporting repo with
                | Manual => mret (Err CONFLICT)
                | _ => p ← Reports.prepare_operator scope id; mret (Ok p)
                end
            end
        | _ => mret (Err CONFLICT)
        end
    end));
  r ← or_status read_error r;
  preparation ← lift r;
  delivered ← dispatch delivery preparation now;
  match delivered with Ok _ => mret NO_CONTENT | Err _ => fail INTERNAL_SERVER_ERROR end.

Definition reject (gap : nat -> list Op) (authed : AuthedWorker) (id now : Z) : Server StatusCode :=
  _ ← require_operator authed;
  _ ← others (gap 0%nat);
  r ← on_handle (with_operator_repository (TFinding id) (fun scope => Findings.reject scope id (aw_name authed) now));
  r ← or_status read_error r;
  match r with
  | Applied => mret NO_CONTENT
  | NotPending => fail CONFLICT
  | ApprovalNotFound => fail NOT_FOUND
  end.

(** ** Operator routes: registry *)

(** [n as i64] of a [u64] *)
Definition u64_as_i64 (n : Z) : Z := if n <=? i64_max then n else n - 18446744073709551616.

Inductive ReportingSetup :=
| SetupGithubIssue (target_owner target_repo : str) (github_pat : option str)
| SetupEmail (to : list str) (from subject_prefix : option str)
| SetupManual.

Record RegisterRepoRequest := {
  rr_protocol_version : Z;
  rr_clone_url : str;
  rr_derived : option (str * str * str);
  rr_branch : option str;
  rr_scan_interval_seconds : option Z;
  rr_reporting : ReportingSetup;
  rr_scanner_config : str;
  rr_verification_enabled : option bool;
  rr_require_approval : option bool;
}.

Definition check_github_credential (target_owner : str) (github_pat : option str) : result StatusCode unit :=
  match github_pat with
  | Some pat => if str_is_empty (trim pat) then Err BAD_REQUEST else Ok tt
  | None =>
      if check_github_app_target_owner (cfg_github_app_allowed_owners cfg) target_owner then Ok tt
      else Err BAD_REQUEST
  end.

(** The row a registration asks for, and its token. *)
Definition registration (req : RegisterRepoRequest) (parsed : str * str * str) : Repos.NewRepo * option str :=
  let '(reporting, pat) :=
    match rr_reporting req with
    | SetupGithubIssue target_owner target_repo pat => (GithubIssue target_owner target_repo None, pat)
    | SetupEmail to from prefix => (Email to from prefix, None)
    | SetupManual => (Manual, None)
    end in
  let '(host, owner, repo) := parsed in
  let new := {|
    Repos.nr_clone_url := rr_clone_url req; Repos.nr_host := host; Repos.nr_owner := owner; Repos.nr_repo := repo;
    Repos.nr_default_branch := rr_branch req;
    Repos.nr_scan_interval_seconds := u64_as_i64 <$> rr_scan_interval_seconds req;
    Repos.nr_scanner_config := rr_scanner_config req; Repos.nr_reporting := reporting;
    Repos.nr_verification_enabled := default (cfg_verification_default cfg) (rr_verification_enabled req);
    Repos.nr_require_approval := rr_require_approval req |} in
  (new, pat).

Definition create_repo (gap : nat -> list Op) (operator : AuthedWorker) (body : result StatusCode RegisterRepoRequest)
    (now : Z) : Server (StatusCode * Z) :=
  req ← lift body;
  _ ← lift (check_version (rr_protocol_version req));
  parsed ← or_fail BAD_REQUEST (rr_derived req);
  _ ← lift (match rr_reporting req with
            | SetupGithubIssue target_owner _ pat => check_github_credential target_owner pat
            | _ => Ok tt
            end);
  let '(new, pat) := registration req parsed in
  _ ← require_operator operator;
  _ ← others (gap 0%nat);
  r ← on_handle (with_conn (Registry.register_repository new (as_bytes <$> pat) now));
  r ← or_status (fun _ => CONFLICT) r;
  match r with
  | Repos.Done id => mret (CREATED, id)
  | Repos.NoApp => fail BAD_REQUEST
  end.

(** [repository]: an operator transaction on one repository. *)
Definition repository {A} (gap : nat -> list Op) (operator : AuthedWorker) (id : Z) (body : RepoScope -> Tx A)
    : Server A :=
  _ ← require_operator operator;
  _ ← others (gap 0%nat);
  r ← on_handle (with_operator_repository (TRepository id) body);
  or_status internal r.

Record UpdateRepoRequest := {
  ur_protocol_version : Z;
  ur_disabled : option bool;
  ur_scan_interval_seconds : option Z;
  ur_verification_enabled : option bool;
  ur_require_approval : option bool;
  ur_inherit_require_approval : bool;
}.

(** The column changes an update asks for. *)
Definition repo_patch (req : UpdateRepoRequest) : Repos.RepoUpdate := {|
  Repos.ru_disabled := ur_disabled req;
  Repos.ru_scan_interval_seconds := u64_as_i64 <$> ur_scan_interval_seconds req;
  Repos.ru_verification_enabled := ur_verification_enabled req;
  Repos.ru_require_approval :=
    if ur_inherit_require_approval req then Some None else Some <$> ur_require_approval req |}.

Definition update_repo (gap : nat -> list Op) (operator : AuthedWorker) (id : Z)
    (body : result StatusCode UpdateRepoRequest) (now : Z) : Server StatusCode :=
  req ← lift body;
  _ ← lift (check_version (ur_protocol_version req));
  if bool_decide (is_Some (ur_require_approval req)) && ur_inherit_require_approval req then fail BAD_REQUEST
  else
    updated ← repository gap operator id (fun scope => Repos.update scope (repo_patch req) now);
    if (updated : bool) then mret NO_CONTENT else fail NOT_FOUND.

Definition rotate_github_pat (gap : nat -> list Op) (operator : AuthedWorker) (id : Z)
    (body : result StatusCode (Z * str)) (now : Z) : Server StatusCode :=
  req ← lift body;
  _ ← lift (check_version req.1);
  if str_is_empty (trim req.2) then fail BAD_REQUEST
  else
    r ← repository gap operator id (fun scope => Repos.rotate_github_pat scope (as_bytes req.2) now);
    match r with
    | Repos.Rotated => mret NO_CONTENT
    | Repos.Missing => fail NOT_FOUND
    | Repos.AppMode => fail BAD_REQUEST
    | Repos.OtherDestination => fail BAD_REQUEST
    end.

Definition set_github_reporting (gap : nat -> list Op) (operator : AuthedWorker) (id : Z)
    (body : result StatusCode (Z * str * str * option str)) (now : Z) : Server StatusCode :=
  req ← lift body;
  let '(version, target_owner, target_repo, github_pat) := req in
  _ ← lift (check_version version);
  if str_is_empty target_owner then fail BAD_REQUEST
  else if str_is_empty target_repo then fail BAD_REQUEST
  else
    _ ← lift (check_github_credential target_owner github_pat);
    r ← repository gap operator id
          (fun scope => Repos.set_github_reporting scope target_owner target_repo (as_bytes <$> github_pat) now);
    match r with
    | Repos.Done true => mret NO_CONTENT
    | Repos.Done false => fail NOT_FOUND
    | Repos.NoApp => fail BAD_REQUEST
    end.

Definition delete_repo (gap : nat -> list Op) (operator : AuthedWorker) (id : Z) : Server StatusCode :=
  deleted ← repository gap operator id Repos.delete;
  if (deleted : bool) then mret NO_CONTENT else fail NOT_FOUND.

(** [workers::create]: [minted] is the certificate the authority minted. *)
Definition create_worker (gap : nat -> list Op) (operator : AuthedWorker) (body : result StatusCode (Z * str))
    (minted : option bytes) (now : Z) : Server Z :=
  req ← lift body;
  _ ← lift (check_version req.1);
  if str_is_empty (trim req.2) then fail BAD_REQUEST
  else
    cert ← or_fail INTERNAL_SERVER_ERROR minted;
    _ ← require_operator operator;
    _ ← others (gap 0%nat);
    r ← on_handle (with_conn (Workers.insert req.2 KindWorker (cert_fingerprint cert) now));
    or_status (fun _ => CONFLICT) r.

Definition revoke_worker (gap : nat -> list Op) (operator : AuthedWorker) (id now : Z) : Server StatusCode :=
  _ ← require_operator operator;
  _ ← others (gap 0%nat);
  r ← on_handle (with_conn (Workers.revoke id now));
  revoked ← or_status internal r;
  if (revoked : bool) then mret NO_CONTENT else fail NOT_FOUND.

(** [github_app::set]: [verified] is the app id GitHub answered for the key
    ([None] when the key or GitHub refused it), [stored] what is stored. *)
Definition set_github_app (gap : nat -> list Op) (operator : AuthedWorker) (body : result StatusCode (Z * Z))
    (verified : option Z) (stored : bytes) (now : Z) : Server StatusCode :=
  req ← lift body;
  _ ← lift (check_version req.1);
  if req.2 =? 0 then fail BAD_REQUEST
  else
    info ← or_fail BAD_REQUEST verified;
    if negb (info =? req.2) then fail BAD_REQUEST
    else
      _ ← require_operator operator;
      _ ← others (gap 0%nat);
      r ← on_handle (with_conn (GithubAppStore.set_app stored now));
      _ ← or_status internal r;
      mret NO_CONTENT.

Definition clear_github_app (gap : nat -> list Op) (operator : AuthedWorker) : Server StatusCode :=
  _ ← require_operator operator;
  _ ← others (gap 0%nat);
  r ← on_handle (with_conn Registry.clear_github_app);
  r ← or_status internal r;
  match r with
  | Registry.Removed => mret NO_CONTENT
  | Registry.AppMissing => fail NOT_FOUND
  | Registry.InUse _ => fail CONFLICT
  end.

End Server.
