(* ===== verification/Router.v ===== *)
(** * The router

    [loupe-server/src/router.rs]: the routes over the legacy handlers with the
    layers around them.  A request is authenticated and charged, its protocol
    header is checked, the role layer of its route admits the caller, and the
    handler runs.  The routes a phase worker shares with a legacy one are here
    with the legacy handler they fall through to. *)

From Stdlib Require Import ZArith Lia.
From stdpp Require Import base gmap sets list strings numbers.
From S2P Require Import Prelude Buffers Budgets Sql Domain Vocabulary SchedPolicy Store Scope Repos Findings Jobs Issuer Claim Reports Recovery System Text LlmFinding Render Email Dispatch Server.
Local Open Scope Z_scope.

Inductive Request :=
(* admin_only *)
| PostRepo (body : result StatusCode RegisterRepoRequest)
| DeleteRepo (id : Z)
| PatchRepo (id : Z) (body : result StatusCode UpdateRepoRequest)
| PostGithubPat (id : Z) (body : result StatusCode (Z * str))
| PutGithub (id : Z) (body : result StatusCode (Z * str * str * option str))
| PutGithubApp (body : result StatusCode (Z * Z)) (verified : option Z) (stored : bytes)
| DeleteGithubApp
| PostScan (repo : Z) (body : result StatusCode (Z * bool))
| GetRepoFindings (repo : Z) (limit : option Z)
| PostRetryVerify (body : result StatusCode (Z * RecoveryRequest))
| PostApprove (finding : Z)
| PostRetryReport (finding : Z)
| PostReject (finding : Z)
| PostWorker (body : result StatusCode (Z * str)) (minted : option bytes)
| DeleteWorker (id : Z)
| GetJobs (query : result StatusCode Jobs.JobFilter)
| GetJob (id : Z)
| PostRetry (id : Z)
| PostCancel (id : Z)
(* worker_only *)
| PostHeartbeat (job : Z) (capability : option bytes) (body : result StatusCode (option Z))
| PostFindings (job : Z) (capability : option bytes)
    (body : result StatusCode (Z * list (Finding * result Error bytes)))
| PostLlmFinding (job : Z) (capability : option bytes) (body : result StatusCode (LlmInput * result Error bytes))
| PostVerdict (job : Z) (capability : option bytes) (body : result StatusCode (Z * Verdict))
| PostComplete (job : Z) (capability : option bytes) (body : result StatusCode CompleteRequest)
(* both *)
| GetWhoami
| GetFinding (id : Z) (capability : option bytes).

Inductive Layer := AdminOnly | WorkerOnly | Both.

Definition layer_of (req : Request) : Layer :=
  match req with
  | PostHeartbeat _ _ _ | PostFindings _ _ _ | PostLlmFinding _ _ _ | PostVerdict _ _ _
  | PostComplete _ _ _ => WorkerOnly
  | GetWhoami | GetFinding _ _ => Both
  | _ => AdminOnly
  end.

Inductive Reply :=
| Status (status : StatusCode)
| CreatedId (status : StatusCode) (id : Z)
| OneJob (row : JobRow)
| ManyJobs (rows : list JobRow)
| OneFinding (row : FindingRow)
| ManyFindings (rows : list FindingRow)
| Recovered (counts : RecoveryCounts)
| LeaseUntil (expires_at : Z)
| Who (id : Z) (name : str) (kind : WorkerKind).

Section Router.
Context (category : Z -> GeneralCategory) (phase_tail : JobRow -> Tx Claimed) (o : Oracle).
Context (blake3 : bytes -> bytes) (cert_fingerprint : bytes -> bytes).
Context (cfg : Settings).

Definition role_layer (l : Layer) (authed : AuthedWorker) : Server unit :=
  match l with
  | AdminOnly => require_admin authed
  | WorkerOnly => require_worker authed
  | Both => mret tt
  end.

(** The handler of the matched route; [delivery] separates the steps of a
    report delivery the way [gap] separates the handler's own. *)
Definition handler (gap delivery : nat -> list Op) (authed : AuthedWorker) (now : Z) (req : Request)
    : Server Reply :=
  match req with
  | PostRepo body => r ← create_repo phase_tail cfg gap authed body now; mret (CreatedId r.1 r.2)
  | DeleteRepo id => Status <$> delete_repo phase_tail gap authed id
  | PatchRepo id body => Status <$> update_repo phase_tail gap authed id body now
  | PostGithubPat id body => Status <$> Server.rotate_github_pat phase_tail gap authed id body now
  | PutGithub id body => Status <$> Server.set_github_reporting phase_tail cfg gap authed id body now
  | PutGithubApp body verified stored => Status <$> set_github_app phase_tail gap authed body verified stored now
  | DeleteGithubApp => Status <$> Server.clear_github_app phase_tail gap authed
  | PostScan repo body => r ← enqueue_scan phase_tail gap authed repo body now; mret (CreatedId r.1 r.2)
  | GetRepoFindings repo limit =>
      ManyFindings <$> Server.list_for_repo phase_tail blake3 gap authed repo limit now
  | PostRetryVerify body => Recovered <$> retry_verify phase_tail gap authed body now
  | PostApprove id => Status <$> Server.approve category phase_tail o cfg gap delivery authed id now
  | PostRetryReport id => Status <$> retry_report category phase_tail o cfg gap delivery authed id now
  | PostReject id => Status <$> Server.reject phase_tail gap authed id now
  | PostWorker body minted =>
      CreatedId CREATED <$> create_worker phase_tail cert_fingerprint gap authed body minted now
  | DeleteWorker id => Status <$> revoke_worker phase_tail gap authed id now
  | GetJobs query => filter ← lift query; ManyJobs <$> Server.list_jobs phase_tail gap authed filter
  | GetJob id => OneJob <$> get_job phase_tail gap authed id
  | PostRetry id => OneJob <$> Server.retry phase_tail gap authed id now
  | PostCancel id => OneJob <$> Server.cancel phase_tail gap authed id now
  | PostHeartbeat job capability body =>
      LeaseUntil <$> heartbeat phase_tail blake3 gap authed job capability body now
  | PostFindings job capability body =>
      Status <$> Server.submit_findings phase_tail blake3 gap authed job capability body now
  | PostLlmFinding job capability body =>
      Status <$> submit_llm_finding phase_tail blake3 gap authed job capability body now
  | PostVerdict job capability body =>
      Status <$> Server.submit_verdict category phase_tail o blake3 cfg gap delivery authed job capability body now
  | PostComplete job capability body =>
      Status <$> Server.complete category phase_tail o blake3 cfg gap delivery authed job capability body now
  | GetWhoami => mret (Who (aw_id authed) (aw_name authed) (w_kind (aw_worker authed)))
  | GetFinding id capability => OneFinding <$> get_finding phase_tail blake3 gap authed id capability now
  end.

(** [router], outermost layer first.  Accesses 0 and 1 are those of the
    authentication, 2 to 4 the handler's, the rest the delivery's. *)
Definition serve (gap : nat -> list Op) (cert : option bytes) (protocol : option bytes) (incoming : Incoming)
    (auth_now now : Z) (req : Request) : Server Reply :=
  authed ← mtls_auth phase_tail cert_fingerprint cfg gap cert incoming auth_now;
  _ ← lift (check_request_protocol protocol);
  _ ← role_layer (layer_of req) authed;
  handler (fun i => gap (2 + i)%nat) (fun i => gap (5 + i)%nat) authed now req.

End Router.
