(* ===== verification/RouterLogic.v ===== *)
(** * A trace logic for handlers

    What a handler does to the database, as the sequence of its accesses: the
    operations other requests run before an access ([Foreign]), a read
    ([Read]), an operation of [System] of its own ([Own]).  [traces] is the
    judgement "every run has such a sequence, with these properties", with a
    rule per construct of [Server]; commit flags only grow along a run, which
    dates the receipts of the reports a handler prepares. *)

From Stdlib Require Import ZArith Lia.
From stdpp Require Import base gmap sets list strings numbers.
From S2P Require Import Prelude Buffers Budgets Sql Domain Vocabulary SchedPolicy Store TxLogic Scope Repos Findings Jobs Issuer Claim Reports Recovery Invariant Preservation System Text LlmFinding Render Email Dispatch Server.
Local Open Scope Z_scope.

Inductive Event := Foreign (i : nat) | Own (op : Op) | Read.

Definition foreign (evs : list Event) : list nat := omap (fun e => match e with Foreign i => Some i | _ => None end) evs.
Definition own (evs : list Event) : list Op := omap (fun e => match e with Own op => Some op | _ => None end) evs.

Lemma foreign_app a b : foreign (a ++ b) = foreign a ++ foreign b.
Proof. apply omap_app. Qed.
Lemma own_app a b : own (a ++ b) = own a ++ own b.
Proof. apply omap_app. Qed.

Lemma foreign_cons e evs :
  foreign (e :: evs) = match e with Foreign i => i :: foreign evs | _ => foreign evs end.
Proof. by destruct e. Qed.
Lemma own_cons e evs : own (e :: evs) = match e with Own op => op :: own evs | _ => own evs end.
Proof. by destruct e. Qed.
Lemma events_nil : foreign [] = [] /\ own [] = [].
Proof. done. Qed.
#[export] Hint Rewrite foreign_app own_app foreign_cons own_cons (proj1 events_nil) (proj2 events_nil) : events.

(** A read leaves the content; it may use up a commit flag. *)
Record reads (h h' : Handle) : Prop := {
  rd_identity : h_identity h' = h_identity h;
  rd_db : h_db h' = h_db h;
  rd_flag : h_next_flag h <= h_next_flag h';
}.

#[export] Instance reads_refl : Reflexive reads.
Proof. intros h. by constructor. Qed.

Section Traces.
Context (phase_tail : JobRow -> Tx Claimed) (gap : nat -> list Op).

Inductive ran : list Event -> Handle -> Handle -> Prop :=
| ran_nil h : ran [] h h
| ran_foreign i evs h h' : ran evs (exec_all phase_tail (gap i) h) h' -> ran (Foreign i :: evs) h h'
| ran_own op evs h h' : ran evs (exec phase_tail op h) h' -> ran (Own op :: evs) h h'
| ran_read evs h h1 h' : reads h h1 -> ran evs h1 h' -> ran (Read :: evs) h h'.

Lemma ran_app a b h1 h2 h3 : ran a h1 h2 -> ran b h2 h3 -> ran (a ++ b) h1 h3.
Proof. induction 1; cbn; intros; [done|constructor; auto..|econstructor; eauto]. Qed.

(** ** Commit flags *)

Lemma issue_flag {A} scope (body : RepoScope -> Tx A) h : h_next_flag h <= h_next_flag (issue scope body h).2.
Proof. unfold issue. case_match; [case_match|]; cbn; lia. Qed.

Lemma with_conn_flag {A} (m : Tx A) h : h_next_flag h <= h_next_flag (with_conn m h).2.
Proof. unfold with_conn. case_match; [case_match|]; cbn; lia. Qed.

Lemma operator_flag {A} t (body : RepoScope -> Tx A) h :
  h_next_flag h <= h_next_flag (with_operator_repository t body h).2.
Proof. unfold with_operator_repository. case_match; [apply issue_flag|cbn; lia]. Qed.

Lemma lease_flag {A} l (body : AssignmentScope -> Tx A) h :
  h_next_flag h <= h_next_flag (with_active_lease l body h).2.
Proof.
  unfold with_active_lease. case_match; [|cbn; lia]. case_match. case_match; [|cbn; lia].
  case_match; [cbn; lia|]. destruct (issue _ _ h) as [r h1] eqn:E; cbn.
  pose proof (f_equal snd E) as Hi. cbn in Hi. rewrite <- Hi. apply issue_flag.
Qed.

Lemma receipt_flag receipt h sel now : h_next_flag (complete_receipt receipt h sel now).2 = h_next_flag h.
Proof. unfold complete_receipt. case_match; [case_match|]; done. Qed.

Lemma exec_flag op h : h_next_flag h <= h_next_flag (exec phase_tail op h).
Proof.
  destruct op; cbn [exec]; auto using with_conn_flag, operator_flag, lease_flag.
  - unfold mark_one. case_match; [cbn; lia|]. case_match; [|cbn; lia]. rewrite receipt_flag. lia.
  - unfold mark_all. case_match; [cbn; lia|]. rewrite receipt_flag. lia.
Qed.

Lemma exec_all_flag ops h : h_next_flag h <= h_next_flag (exec_all phase_tail ops h).
Proof.
  unfold exec_all. revert h. induction ops as [|op ops IH]; intros h; cbn [foldl]; [lia|].
  pose proof (exec_flag op h). specialize (IH (exec phase_tail op h)). lia.
Qed.

Lemma ran_flag evs h h' : ran evs h h' -> h_next_flag h <= h_next_flag h'.
Proof.
  induction 1 as [h|i evs h h' _ IH|op evs h h' _ IH|evs h h1 h' R _ IH]; [lia|..].
  - pose proof (exec_all_flag (gap i) h). lia.
  - pose proof (exec_flag op h). lia.
  - destruct R. lia.
Qed.

(** ** The judgement *)

Context (since : Z).

(** Every run of [m] from a database whose flags are past [since]. *)
Definition traces {A} (m : Server A) (Q : list Event -> result StatusCode A -> Prop) : Prop :=
  forall st r st', since <= h_next_flag (st_handle st) -> m st = (r, st') ->
    exists evs, ran evs (st_handle st) (st_handle st') /\ Q evs r.

(** Programs that do not touch the database. *)
Definition pure {A} (m : Server A) : Prop := forall st, st_handle (m st).2 = st_handle st.

Lemma traces_weaken {A} (m : Server A) (Q Q' : _ -> _ -> Prop) :
  (forall evs r, Q evs r -> Q' evs r) -> traces m Q -> traces m Q'.
Proof. intros HQ Hm st r st' Hs H. destruct (Hm _ _ _ Hs H) as (evs & ? & ?). eauto. Qed.

Lemma traces_pure {A} (m : Server A) Q : pure m -> (forall r, Q [] r) -> traces m Q.
Proof.
  intros Hp HQ st r st' _ E. exists []. split; [|done]. pose proof (Hp st) as Hh. rewrite E in Hh.
  cbn in Hh. rewrite Hh. constructor.
Qed.

Lemma traces_bind {A B} (m : Server A) (k : A -> Server B) Q1 Q :
  traces m Q1 ->
  (forall evs e, Q1 evs (Err e) -> Q evs (Err e)) ->
  (forall evs a, Q1 evs (Ok a) -> traces (k a) (fun evs' r => Q (evs ++ evs') r)) ->
  traces (m ≫= k) Q.
Proof.
  intros Hm He Hk st r st' Hs E. unfold mbind, server_bind in E.
  destruct (m st) as [[a|e] st1] eqn:E1; destruct (Hm _ _ _ Hs E1) as (evs & Hr & Hq).
  - pose proof (ran_flag _ _ _ Hr). edestruct (Hk evs a Hq st1) as (evs' & Hr' & Hq'); [lia|exact E|].
    exists (evs ++ evs'). split; [by eapply ran_app|done].
  - injection E as <- <-. eauto.
Qed.

Lemma traces_assoc {A B C} (m : Server A) (f : A -> Server B) (k : B -> Server C) Q :
  traces (m ≫= (fun a => f a ≫= k)) Q -> traces ((m ≫= f) ≫= k) Q.
Proof.
  intros Hm st r st' Hs E. apply (Hm st r st' Hs). rewrite <- E. unfold mbind, server_bind.
  by destruct (m st) as [[a|e] st1].
Qed.

(** A guard: refuse without touching the database, or go on. *)
Lemma traces_guard {A B} (m : Server A) (k : A -> Server B) (Q : list Event -> result StatusCode B -> Prop) :
  pure m -> (forall e, Q [] (Err e)) -> (forall a, traces (k a) Q) -> traces (m ≫= k) Q.
Proof.
  intros Hp He Hk. eapply (traces_bind _ _ (fun evs _ => evs = [])).
  - by apply traces_pure.
  - intros evs e ->. done.
  - intros evs a ->. apply Hk.
Qed.

Lemma traces_lift {A B} (r : result StatusCode A) (k : A -> Server B) (Q : list Event -> result StatusCode B -> Prop) :
  (forall e, Q [] (Err e)) -> (forall a, r = Ok a -> traces (k a) Q) -> traces (lift r ≫= k) Q.
Proof.
  intros He Hk. destruct r as [a|e].
  - intros st x st' Hs E. by apply (Hk a eq_refl).
  - intros st x st' Hs [= <- <-]. exists []. split; [constructor|done].
Qed.

Lemma traces_or_fail {A B} e (x : option A) (k : A -> Server B) (Q : list Event -> result StatusCode B -> Prop) :
  (forall e, Q [] (Err e)) -> (forall a, x = Some a -> traces (k a) Q) -> traces (or_fail e x ≫= k) Q.
Proof. intros He Hk. apply traces_lift; [done|]. intros a. destruct x; intros [= ->]. by apply Hk. Qed.

Lemma traces_others {B} i (k : unit -> Server B) Q :
  traces (k tt) (fun evs r => Q (Foreign i :: evs) r) -> traces (others phase_tail (gap i) ≫= k) Q.
Proof.
  intros Hk st r st' Hs E. cbn in E.
  destruct (Hk (st <|st_handle := exec_all phase_tail (gap i) (st_handle st)|>) r st') as (evs & Hr & Hq);
    [cbn; pose proof (exec_all_flag (gap i) (st_handle st)); lia|done|].
  exists (Foreign i :: evs). split; [by constructor|done].
Qed.

(** A transaction that stays within the operations [O]: it runs one of them,
    or reads only and returns something [bad]. *)
Definition within {A} (O : Op -> Prop) (bad : result Error A -> Prop) (f : Handle -> result Error A * Handle) : Prop :=
  forall h, (exists op, O op /\ (f h).2 = exec phase_tail op h) \/ (reads h (f h).2 /\ bad (f h).1).

Definition reader {A} (f : Handle -> result Error A * Handle) : Prop := forall h, reads h (f h).2.

(** [dated f P]: results of [f] satisfy [P] (which may mention [since]). *)
Definition dated {A} (f : Handle -> result Error A * Handle) (P : A -> Prop) : Prop :=
  forall h a, since <= h_next_flag h -> (f h).1 = Ok a -> P a.

Lemma traces_access {A B} (f : Handle -> result Error A * Handle) O bad P (k : result Error A -> Server B) Q :
  within O bad f -> dated f P ->
  (forall op r, O op -> (forall a, r = Ok a -> P a) -> traces (k r) (fun evs r => Q (Own op :: evs) r)) ->
  (forall r, bad r -> exists e, (forall st, k r st = (Err e, st)) /\ Q [Read] (Err e)) ->
  traces (r ← on_handle f; k r) Q.
Proof.
  intros Hw Hd Hk Hb st r st' Hs E. unfold mbind, server_bind, on_handle in E.
  destruct (f (st_handle st)) as [rf h1] eqn:Ef.
  pose proof (Hd (st_handle st)) as Hd'. destruct (Hw (st_handle st)) as [(op & HO & Ho)|[Hr Hbad]]; rewrite Ef in *; cbn in *.
  - destruct (Hk op rf HO) with (st := st <|st_handle := h1|>) (r := r) (st' := st') as (evs & Hran & Hq).
    + intros a ->. by apply Hd'.
    + cbn. rewrite Ho. pose proof (exec_flag op (st_handle st)). lia.
    + done.
    + cbn in Hran. rewrite Ho in Hran. exists (Own op :: evs). split; [by constructor|done].
  - destruct (Hb rf Hbad) as (e & Hke & Hq). rewrite Hke in E. injection E as <- <-. cbn.
    exists [Read]. split; [|done]. econstructor; [exact Hr|constructor].
Qed.

Lemma traces_read {A B} (f : Handle -> result Error A * Handle) P (k : result Error A -> Server B) Q :
  reader f -> dated f P ->
  (forall r, (forall a, r = Ok a -> P a) -> traces (k r) (fun evs r => Q (Read :: evs) r)) ->
  traces (r ← on_handle f; k r) Q.
Proof.
  intros Hw Hd Hk st r st' Hs E. unfold mbind, server_bind, on_handle in E.
  destruct (f (st_handle st)) as [rf h1] eqn:Ef.
  pose proof (Hd (st_handle st)) as Hd'. pose proof (Hw (st_handle st)) as Hr. rewrite Ef in *; cbn in *.
  destruct (Hk rf) with (st := st <|st_handle := h1|>) (r := r) (st' := st') as (evs & Hran & Hq).
  - intros a ->. by apply Hd'.
  - cbn. destruct Hr. lia.
  - done.
  - exists (Read :: evs). split; [by econstructor|done].
Qed.

Lemma traces_ret {A} (a : A) (Q : list Event -> result StatusCode A -> Prop) : Q [] (Ok a) -> traces (mret a) Q.
Proof. intros HQ st r st' _ [= <- <-]. exists []. split; [constructor|done]. Qed.

Lemma traces_fail {A} e (Q : list Event -> result StatusCode A -> Prop) : Q [] (Err e) -> traces (fail e) Q.
Proof. intros HQ st r st' _ [= <- <-]. exists []. split; [constructor|done]. Qed.

(** A property that looks at whether a run succeeded passes through [<$>]. *)
Definition is_ok {E A} (r : result E A) : bool := match r with Ok _ => true | Err _ => false end.

Lemma traces_fmap {A B} (f : A -> B) (m : Server A) (Q : list Event -> bool -> Prop) :
  traces m (fun evs r => Q evs (is_ok r)) -> traces (f <$> m) (fun evs r => Q evs (is_ok r)).
Proof.
  intros Hm. eapply (traces_bind m); [exact Hm|done|].
  intros evs a Hq. apply traces_ret. by rewrite app_nil_r.
Qed.

End Traces.

(** ** Reads *)

Definition readonly {A} (m : Tx A) : Prop := forall db a db', m db = Ok (a, db') -> db' = db.

Lemma readonly_bind {A B} (m : Tx A) (f : A -> Tx B) :
  readonly m -> (forall a, readonly (f a)) -> readonly (m ≫= f).
Proof. intros Hm Hf db b db' (a & d & Ha & Hb)%tx_bind_Ok. apply Hf in Hb as ->. by eapply Hm. Qed.

Lemma readonly_ret {A} (a : A) : readonly (mret a).
Proof. by intros db b db' [_ ->]%tx_ret_Ok. Qed.
Lemma readonly_err {A} e : readonly (tx_err e : Tx A).
Proof. by intros db b db' []%tx_err_Ok. Qed.
Lemma readonly_first {R} table (P : R -> bool) : readonly (tx_first table P).
Proof. by intros db a db' [_ ->]%tx_first_Ok. Qed.
Lemma readonly_select {R} table (P : R -> bool) : readonly (tx_select table P).
Proof. by intros db a db' [_ ->]%tx_select_Ok. Qed.
Lemma readonly_prepare scope sel : readonly (prepare scope sel).
Proof. intros db p db' H. by eapply prepare_reads. Qed.
Lemma readonly_get : readonly tx_get.
Proof. by intros db a db' [_ ->]%tx_get_Ok. Qed.
Lemma readonly_exists {R} table (P : R -> bool) : readonly (tx_exists table P).
Proof. by intros db a db' [_ ->]%tx_exists_Ok. Qed.
#[export] Hint Resolve readonly_get readonly_exists readonly_ret readonly_err readonly_first readonly_select readonly_prepare : loupe.

Ltac readonly :=
  intros; repeat first
    [ solve [auto with loupe]
    | apply readonly_bind; [|intros ?]
    | match goal with |- readonly (match ?x with _ => _ end) => destruct x end
    | progress cbv zeta ].

Lemma with_conn_reader {A} (m : Tx A) : readonly m -> reader (with_conn m).
Proof.
  intros Hm h. unfold with_conn. destruct (m (h_db h)) as [[a db]|e] eqn:E; [|reflexivity].
  apply Hm in E as ->. by constructor.
Qed.

Lemma issue_reads {A} scope (body : RepoScope -> Tx A) h :
  (forall s, readonly (body s)) -> reads h (issue scope body h).2.
Proof.
  intros Hb. unfold issue. destruct (body _ (h_db h)) as [[a db]|e] eqn:E; [apply Hb in E as ->|];
    constructor; cbn; try done; lia.
Qed.

Lemma operator_reader {A} t (body : RepoScope -> Tx A) :
  (forall s, readonly (body s)) -> reader (with_operator_repository t body).
Proof. intros Hb h. unfold with_operator_repository. case_match; [by apply issue_reads|reflexivity]. Qed.

(** What a lease transaction does: nothing, or its body under the scope of
    the leased job. *)
Lemma lease_cases {A} l (body : AssignmentScope -> Tx A) h :
  (with_active_lease l body h = (Ok None, h) /\ forall B (b : AssignmentScope -> Tx B),
     with_active_lease l b h = (Ok None, h)) \/
  exists s, rs_committed (as_repo s) = h_next_flag h /\ forall B (b : AssignmentScope -> Tx B),
    with_active_lease l b h =
      match b s (h_db h) with
      | Ok (a, db) => (Ok (Some a), h <|h_db := db|> <|h_published := {[h_next_flag h]} ∪ h_published h|>
                                      <|h_next_flag := h_next_flag h + 1|>)
      | Err e => (Err e, h <|h_next_flag := h_next_flag h + 1|>)
      end.
Proof.
  unfold with_active_lease, Jobs.get_active_by_capability_hash, tx_first.
  destruct (head _) as [job|]; [|by left]. destruct (negb _); [by left|]. right. unfold issue.
  exists {| as_repo := {| rs_repo_id := j_repo_id job; rs_identity := h_identity h; rs_operator := false;
                          rs_committed := h_next_flag h |}; as_job := job; as_lease := l |}.
  split; [done|]. intros B b. by destruct (b _ (h_db h)) as [[? ?]|?].
Qed.

Lemma lease_reader {A} l (body : AssignmentScope -> Tx A) :
  (forall s, readonly (body s)) -> reader (with_active_lease l body).
Proof.
  intros Hb h. destruct (lease_cases l body h) as [[-> _]|(s & _ & H)]; [reflexivity|]. rewrite H.
  destruct (body s (h_db h)) as [[a db]|e] eqn:E; [apply Hb in E as ->|]; constructor; cbn; try done; lia.
Qed.

(** A body that checks, and then runs the body of [op] or refuses. *)
Definition refused {A} (r : result Error (option (result StatusCode A))) : Prop :=
  match r with Err _ => True | Ok (Some (Err _)) => True | _ => False end.

Lemma lease_within {A B} phase_tail op l (body0 : AssignmentScope -> Tx B) (body : AssignmentScope -> Tx (result StatusCode A)) :
  (forall h, exec phase_tail op h = (with_active_lease l body0 h).2) ->
  (forall s db r db', body s db = Ok (r, db') ->
     match r with Ok _ => exists b, body0 s db = Ok (b, db') | Err _ => db' = db end) ->
  within phase_tail (eq op) refused (with_active_lease l body).
Proof.
  intros Hop Hb h. destruct (lease_cases l body h) as [[-> H]|(s & _ & H)].
  - left. exists op. split; [done|]. by rewrite Hop, H.
  - rewrite H. destruct (body s (h_db h)) as [[r db]|e] eqn:E.
    + apply Hb in E. destruct r as [a|status].
      * left. exists op. split; [done|]. destruct E as (b & E). by rewrite Hop, H, E.
      * right. subst db. split; [|done]. constructor; cbn; try done; lia.
    + right. split; [|done]. constructor; cbn; try done; lia.
Qed.
