(* ===== verification/RouterTheorems.v ===== *)
(** * What requests do

    Every request refines the operations of [System]: whoever sends it, it
    reads, touches its own authenticated row, runs at most the one operation
    its route and body name, and marks findings of a report it has just
    prepared. *)

From Stdlib Require Import ZArith Lia.
From stdpp Require Import base gmap sets list strings numbers.
From S2P Require Import Prelude Buffers Budgets Sql Domain Vocabulary SchedPolicy Store TxLogic Scope Repos Findings Jobs Issuer Claim Reports Recovery Invariant Preservation System Fixture Text LlmFinding Render Email Dispatch Server Router RouterLogic.
Local Open Scope Z_scope.

(** ** Receipts are dated *)

Definition stamped (flag : Z) (p : Preparation) : Prop :=
  match p with Ready batch => rr_committed (pr_receipt batch) = flag | _ => True end.

(** The results of a transaction body. *)
Definition yields {A} (m : Tx A) (P : A -> Prop) : Prop := forall db a db', m db = Ok (a, db') -> P a.

Lemma yields_bind {A B} (m : Tx A) (f : A -> Tx B) P : (forall a, yields (f a) P) -> yields (m ≫= f) P.
Proof. intros Hf db b db' (a & d & _ & H)%tx_bind_Ok. by eapply Hf. Qed.

Lemma yields_bind_dep {A B} (m : Tx A) (f : A -> Tx B) P Q :
  yields m P -> (forall a, P a -> yields (f a) Q) -> yields (m ≫= f) Q.
Proof. intros Hm Hf db b db' (a & d & Ha & H)%tx_bind_Ok. eapply Hf; [by eapply Hm|done]. Qed.

Lemma yields_ret {A} (a : A) (P : A -> Prop) : P a -> yields (mret a) P.
Proof. by intros HP db b db' [-> _]%tx_ret_Ok. Qed.

Lemma yields_err {A} e (P : A -> Prop) : yields (tx_err e) P.
Proof. by intros db b db' []%tx_err_Ok. Qed.
#[export] Hint Resolve yields_ret yields_err : loupe.

(** Preparations carry the flag; other intermediate results do not matter. *)
Ltac yields flag :=
  repeat first
    [ solve [auto with loupe]
    | progress cbv zeta
    | lazymatch goal with
      | |- yields (@mbind Tx _ Preparation _ _ _) _ =>
          eapply (yields_bind_dep _ _ (stamped flag)); [|intros ? ?]
      | |- yields (mbind _ _) _ => apply yields_bind; intros ?
      end
    | case_match
    | solve [by apply yields_ret] ].

Lemma prepare_stamped scope sel : yields (prepare scope sel) (stamped (rs_committed scope)).
Proof.
  assert (yields (select scope (rs_committed scope) sel) (stamped (rs_committed scope))) as Hs.
  { unfold select. yields (rs_committed scope). }
  intros db p db'. unfold prepare. destruct (select _ _ _ db) as [[q d]|e] eqn:E.
  - intros [= <- <-]. by eapply Hs.
  - repeat case_match; intros; by simplify_eq.
Qed.
#[export] Hint Resolve prepare_stamped : loupe.

Lemma prepare_assignment_stamped s : yields (prepare_assignment s) (stamped (rs_committed (as_repo s))).
Proof. unfold prepare_assignment. yields (rs_committed (as_repo s)). Qed.

Lemma approve_stamped scope id cn now :
  yields (Reports.approve scope id cn now) (fun r => stamped (rs_committed scope) r.2).
Proof.
  unfold Reports.approve, prepare_operator. yields (rs_committed scope).
Qed.
#[export] Hint Resolve prepare_assignment_stamped : loupe.

Lemma submit_verdict_stamped s v cn ti ra :
  yields (Reports.submit_verdict s v cn ti ra) (fun r => stamped (rs_committed (as_repo s)) r.2).
Proof.
  unfold Reports.submit_verdict. yields (rs_committed (as_repo s)).
Qed.

Lemma complete_assignment_stamped s st sha err ra deadline :
  yields (complete_assignment s st sha err ra deadline) (stamped (rs_committed (as_repo s))).
Proof.
  unfold complete_assignment, complete_scan, complete_verify. yields (rs_committed (as_repo s)).
Qed.

(** ** The operation a request names *)

Section Requests.
Context (category : Z -> GeneralCategory) (phase_tail : JobRow -> Tx Claimed) (o : Oracle).
Context (blake3 : bytes -> bytes) (cert_fingerprint : bytes -> bytes).
Context (cfg : Settings).

(** The lease a worker's request acts under: the job of its path, the caller's
    own row and the hash of the token it presents. *)
Definition named_lease (caller job : Z) (capability : option bytes) (now : Z) : option ActiveLease :=
  hash ← parse_capability_value blake3 capability;
  Some {| al_identity := {| li_job_id := job; li_worker_id := caller; li_capability_hash := hash |};
          al_now := now |}.

Definition under_lease (caller job : Z) (capability : option bytes) (now : Z) (f : ActiveLease -> Op) : list Op :=
  match named_lease caller job capability now with Some l => [f l] | None => [] end.

Definition scan_job (incremental : bool) (last_scanned : option str) : QueuedJob := {|
  qj_kind := Scan; qj_incremental := incremental; qj_since_sha := if incremental then last_scanned else None;
  qj_parent_job_id := None; qj_target_finding_id := None |}.

Definition terminal (v : Verdict) : bool := match v with VInconclusive _ terminal => terminal | _ => false end.
Definition outcome_state (c : CompleteOutcome) : JobState :=
  match c with CSucceeded => Succeeded | CFailed => Failed end.

(** [last_scanned] stands for the column an incremental scan starts from. *)
Definition operations (caller : WorkerRow) (now : Z) (last_scanned : option str) (req : Request) : list Op :=
  match req with
  | PostRepo (Ok req) =>
      match rr_derived req with
      | Some parsed => let '(new, pat) := registration cfg req parsed in
                       [OpRegisterRepository new (as_bytes <$> pat) now]
      | None => []
      end
  | DeleteRepo id => [OpDeleteRepository id]
  | PatchRepo id (Ok req) => [OpUpdateRepository id (repo_patch req) now]
  | PostGithubPat id (Ok (_, pat)) => [OpRotatePat id (as_bytes pat) now]
  | PutGithub id (Ok (_, owner, repo, pat)) => [OpSetReporting id owner repo (as_bytes <$> pat) now]
  | PutGithubApp _ _ stored => [OpStoreGithubApp stored now]
  | DeleteGithubApp => [OpClearGithubApp]
  | PostScan repo (Ok (_, incremental)) => [OpEnqueue repo (scan_job incremental last_scanned) now]
  | PostRetryVerify (Ok (_, req)) => [OpRecover req now DEFAULT_VALIDATING_BUDGET_SECS]
  | PostApprove id => [OpApprove id (w_name caller) now]
  | PostReject id => [OpReject id (w_name caller) now]
  | PostWorker (Ok (_, name)) (Some cert) => [OpRegisterWorker name KindWorker (cert_fingerprint cert) now]
  | DeleteWorker id => [OpRevokeWorker id now]
  | PostRetry id => [OpRetry id now (wrapping_add now DEFAULT_VALIDATING_BUDGET_SECS)]
  | PostCancel id => [OpCancel id now]
  | PostHeartbeat job capability _ =>
      under_lease (w_id caller) job capability now (fun l => OpHeartbeat l Jobs.DEFAULT_LEASE_SECONDS)
  | PostFindings job capability (Ok (_, batch)) =>
      under_lease (w_id caller) job capability now (fun l => OpSubmitFindings l batch)
  | PostLlmFinding job capability (Ok (input, identity)) =>
      under_lease (w_id caller) job capability now (fun l => OpSubmitFindings l [(into_finding input, identity)])
  | PostVerdict job capability (Ok (_, verdict)) =>
      under_lease (w_id caller) job capability now (fun l =>
        OpSubmitVerdict l verdict (w_name caller) (terminal verdict) (cfg_require_approval_default cfg))
  | PostComplete job capability (Ok req) =>
      under_lease (w_id caller) job capability now (fun l =>
        OpComplete l (outcome_state (cr_outcome req)) (cr_head_sha req) (cr_error req)
          (cfg_require_approval_default cfg) (wrapping_add now DEFAULT_VALIDATING_BUDGET_SECS))
  | _ => []
  end.

(** The requests that deliver a report afterwards. *)
Definition delivers (req : Request) : bool :=
  match req with PostApprove _ | PostRetryReport _ | PostVerdict _ _ _ | PostComplete _ _ _ => true | _ => false end.

Context (gap : nat -> list Op) (since : Z).

(** Marks of a report prepared after [since]. *)
Definition fresh_mark (op : Op) : Prop :=
  match op with
  | OpMarkOne receipt _ _ | OpMarkAll receipt _ => since <= rr_committed receipt
  | _ => False
  end.

(** A handler ran [ops] (or, when it failed, perhaps nothing), then marked
    what it delivered. *)
Definition did (ops : list Op -> Prop) (delivery : bool) (evs : list Event) (ok : bool) : Prop :=
  (exists js m, js `sublist_of` [2; 3; 4]%nat /\ foreign evs = js ++ seq 5 m) /\
  ((own evs = [] /\ ok = false) \/
   exists os marks, ops os /\ own evs = os ++ marks /\ Forall fresh_mark marks /\
     (delivery = false -> marks = [])).

Notation traces := (traces phase_tail gap since).

Lemma pure_lift {A} (r : result StatusCode A) : pure (lift r).
Proof. done. Qed.
Lemma pure_require a : pure (Server.require_operator a).
Proof. intros st. unfold Server.require_operator. by case_match. Qed.
Lemma pure_ret {A} (a : A) : pure (mret a).
Proof. done. Qed.
Lemma pure_fail {A} e : pure (fail e : Server A).
Proof. done. Qed.
Lemma pure_notify : pure notify_waiters.
Proof. done. Qed.
Lemma pure_bind {A B} (m : Server A) (k : A -> Server B) : pure m -> (forall a, pure (k a)) -> pure (m ≫= k).
Proof.
  intros Hm Hk st. unfold mbind, server_bind. pose proof (Hm st) as E. destruct (m st) as [[a|e] st1]; cbn in *;
    [by rewrite Hk|done].
Qed.
Hint Resolve pure_lift pure_require pure_ret pure_fail pure_notify pure_bind : loupe.

(** ** Deliveries *)

Definition fresh (p : Preparation) : Prop :=
  match p with Ready batch => since <= rr_committed (pr_receipt batch) | _ => True end.

Lemma mark_one_flag receipt h id now :
  rr_committed (mark_one receipt h id now).1.2 = rr_committed receipt.
Proof. unfold mark_one, complete_receipt. repeat (case_match; try done). Qed.

Lemma delivered_entries base batch left index now h w r h' w' :
  since <= rr_committed (pr_receipt batch) ->
  dispatch_entries phase_tail o (fun i => gap (base + i)%nat) batch left index now h w = (r, h', w') ->
  exists evs m, ran phase_tail gap evs h h' /\ foreign evs = seq (base + index) m /\ Forall fresh_mark (own evs).
Proof.
  revert batch index h w. induction left as [|left IH]; intros batch index h w Hs H; cbn [dispatch_entries] in H.
  { injection H as <- <- <-. exists [], O. split_and!; [constructor|done|constructor]. }
  assert (exists evs m, ran phase_tail gap evs h h /\ foreign evs = seq (base + index) m /\
    Forall fresh_mark (own evs)) as Hnone.
  { exists [], O. split_and!; [constructor|done|constructor]. }
  destruct (pr_entries batch !! index) as [entry|]; [|by injection H as <- <- <-].
  destruct (dispatch_entry o batch h index w) as [[ns|e] w1]; [|by injection H as <- <- <-].
  pose proof (mark_one_flag (pr_receipt batch) (exec_all phase_tail (gap (base + index)) h) (re_id entry) now) as Hf.
  destruct (mark_one _ _ _ _) as [[[n|e] receipt] h2] eqn:Em; cbn in Hf.
  - destruct (IH (batch <|pr_receipt := receipt|>) (S index) h2 w1) as (evs & m & Hr & Ef & Ho);
      [cbn; congruence|done|].
    exists (Foreign (base + index) :: Own (OpMarkOne (pr_receipt batch) (re_id entry) now) :: evs), (S m).
    split_and!; [do 2 constructor; cbn [exec]; by rewrite Em| |by constructor].
    cbn. rewrite <- Nat.add_succ_r, <- Ef. done.
  - injection H as <- <- <-. exists [Foreign (base + index); Own (OpMarkOne (pr_receipt batch) (re_id entry) now)], 1%nat.
    split_and!; [do 2 constructor; cbn [exec]; rewrite Em; constructor|done|by repeat constructor].
Qed.

Lemma delivered_mail base batch now h w r h' w' :
  since <= rr_committed (pr_receipt batch) ->
  match email_dispatch category o batch h w with
  | (Err e, w) => (Err e, h, w)
  | (Ok _, w) =>
      let h := exec_all phase_tail (gap base) h in
      match mark_all (pr_receipt batch) h now with
      | (Err e, _, h) => (Err (DStorage e), h, w)
      | (Ok _, _, h) => (Ok tt, h, w)
      end
  end = (r, h', w') ->
  exists evs m, ran phase_tail gap evs h h' /\ foreign evs = seq base m /\ Forall fresh_mark (own evs).
Proof.
  intros Hs. destruct (email_dispatch _ _ _ _ _) as [[[]|e] w1].
  - cbv zeta. destruct (mark_all _ _ _) as [[rm rc] h2] eqn:Em. intros H.
    exists [Foreign base; Own (OpMarkAll (pr_receipt batch) now)], 1%nat.
    split_and!; [do 2 constructor; cbn [exec]; rewrite Em; destruct rm; injection H as <- <- <-; constructor|done|].
    by repeat constructor.
  - intros [= <- <- <-]. exists [], O. split_and!; [constructor|done|constructor].
Qed.

Lemma traces_dispatch {B} preparation now (k : result DispatchError unit -> Server B) Q :
  fresh preparation ->
  (forall r, pure (k r)) ->
  (forall evs m r, foreign evs = seq 5 m -> Forall fresh_mark (own evs) -> Q evs r) ->
  traces (r ← dispatch category phase_tail o cfg (fun i => gap (5 + i)%nat) preparation now; k r) Q.
Proof.
  intros Hp Hk HQ. eapply traces_bind with
    (Q1 := fun evs _ => exists m, foreign evs = seq 5 m /\ Forall fresh_mark (own evs)).
  - intros st r st' _ E. unfold dispatch in E.
    destruct (dispatch_prepared _ _ _ _ _ _ _ _ _) as [[rd h'] w'] eqn:Ed. injection E as <- <-. cbn.
    unfold dispatch_prepared in Ed. destruct preparation as [|why|batch]; cbn in Hp.
    all: try (injection Ed as <- <- <-; exists []; split; [constructor|exists O; split; [done|constructor]]).
    destruct (match r_reporting (pr_repo batch) with GithubIssue _ _ None => _ | _ => _ end);
      [injection Ed as <- <- <-; exists []; split; [constructor|exists O; split; [done|constructor]]|].
    destruct (r_reporting (pr_repo batch));
      [apply (delivered_entries 5 batch) in Ed|apply (delivered_mail 5 batch) in Ed..]; try done;
      destruct Ed as (evs & m & ? & ? & ?); exists evs; (split; [done|]); by exists m.
  - intros evs e (m & ? & ?). by eapply HQ.
  - intros evs a (m & ? & ?). apply traces_pure; [done|]. intros r. rewrite app_nil_r. by eapply HQ.
Qed.

(** ** Handlers *)

Definition accesses : list (list nat) := [[]; [2]; [2; 3]; [2; 4]; [2; 3; 4]]%nat.

Lemma accesses_sublist js : js ∈ accesses -> js `sublist_of` [2; 3; 4]%nat.
Proof.
  unfold accesses. rewrite !elem_of_cons, elem_of_nil.
  intros [-> | [-> | [-> | [-> | [-> | []]]]]]; repeat constructor.
Qed.

Lemma did_nothing ops d evs : foreign evs ∈ accesses -> own evs = [] -> did ops d evs false.
Proof.
  intros Hf Ho. split; [|by left]. exists (foreign evs), O. rewrite app_nil_r. split; [by apply accesses_sublist|done].
Qed.

Lemma did_refused ops d : did ops d [] false.
Proof. apply did_nothing; [by left|done]. Qed.

Lemma did_ops ops d evs ok : foreign evs ∈ accesses -> ops (own evs) -> did ops d evs ok.
Proof.
  intros Hf Ho. split; [|].
  - exists (foreign evs), O. rewrite app_nil_r. split; [by apply accesses_sublist|done].
  - right. exists (own evs), []. rewrite app_nil_r. split_and!; by try constructor.
Qed.

(** What may follow the operation: the delivery of its report. *)
Definition tail (d : bool) (evs : list Event) : Prop :=
  exists m, foreign evs = seq 5 m /\ Forall fresh_mark (own evs) /\ (d = false -> own evs = []).

Lemma tail_nil d : tail d [].
Proof. exists O. split_and!; [done|constructor|done]. Qed.

Lemma did_tail ops d evs evs' ok :
  foreign evs ∈ accesses -> ops (own evs) -> tail d evs' -> did ops d (evs ++ evs') ok.
Proof.
  intros Hf Ho (m & Hf' & Hm & Hd). split.
  - exists (foreign evs), m. rewrite foreign_app, Hf'. split; [by apply accesses_sublist|done].
  - right. exists (own evs), (own evs'). rewrite own_app. split_and!; done.
Qed.

Lemma pure_tail {B} (m : Server B) d : pure m -> traces m (fun evs _ => tail d evs).
Proof. intros Hm. apply traces_pure; [done|]. intros _. apply tail_nil. Qed.

Lemma dispatch_tail {B} preparation now (k : result DispatchError unit -> Server B) :
  fresh preparation -> (forall r, pure (k r)) ->
  traces (r ← dispatch category phase_tail o cfg (fun i => gap (5 + i)%nat) preparation now; k r)
    (fun evs _ => tail true evs).
Proof. intros Hp Hk. apply traces_dispatch; [done..|]. intros evs m r Hf Hm. exists m. by split_and!. Qed.

Ltac in_accesses :=
  autorewrite with events;
  repeat match goal with
    | H : foreign _ = _ |- _ => rewrite H | H : own _ = _ |- _ => rewrite H end;
  cbn [app]; unfold accesses; rewrite !elem_of_cons; tauto.
Ltac pure :=
  intros; repeat first
    [ solve [auto with loupe]
    | apply pure_bind; [|intros ?]
    | match goal with |- pure (match ?x with _ => _ end) => destruct x end
    | done ].
(** The guards of a handler up to its first access. *)
Ltac guards :=
  repeat first
    [ apply traces_fail; apply did_refused
    | apply traces_or_fail; [intros ?; apply did_refused | intros ? ?]
    | apply traces_lift; [intros ?; apply did_refused | intros ? ?]
    | apply traces_guard; [solve [pure] | intros ?; apply did_refused | intros _]
    | match goal with |- traces (if ?b then _ else _) _ => destruct b eqn:? end
    | progress cbv zeta ].

(** The access of a handler that has one. *)
Lemma traces_op {A B} (f : Handle -> result Error A * Handle) op (k : result Error A -> Server B) ops d :
  (forall h, (f h).2 = exec phase_tail op h) -> ops [op] -> (forall r, pure (k r)) ->
  traces (on_handle f ≫= k) (fun evs r => did ops d (Foreign 2 :: evs) (is_ok r)).
Proof.
  intros Hf Ho Hk. eapply traces_access with (O := eq op) (bad := fun _ => False) (P := fun _ => True); try done.
  - intros h. left. by exists op.
  - intros op' r <- _. apply traces_pure; [done|]. intros r'. apply did_ops; [in_accesses|done].
Qed.

Lemma traces_reader {A B} (f : Handle -> result Error A * Handle) (k : result Error A -> Server B) (ops : list Op -> Prop) d :
  reader f -> ops [] -> (forall r, pure (k r)) ->
  traces (on_handle f ≫= k) (fun evs r => did ops d (Foreign 2 :: evs) (is_ok r)).
Proof.
  intros Hf Ho Hk. eapply traces_read with (P := fun _ => True); [done|done|].
  intros r _. apply traces_pure; [done|]. intros r'. apply did_ops; [in_accesses|done].
Qed.

Notation gap' := (fun i => gap (2 + i)%nat).
Notation delivery := (fun i => gap (5 + i)%nat).
Definition expected (authed : AuthedWorker) (now : Z) (req : Request) (os : list Op) : Prop :=
  exists last_scanned, os = operations (aw_worker authed) now last_scanned req.

Lemma traces_repository {A B} authed id (body : RepoScope -> Tx A) op (k : A -> Server B) ops :
  (forall h, exec phase_tail op h = (with_operator_repository (TRepository id) body h).2) -> ops [op] ->
  (forall a, pure (k a)) ->
  traces (repository phase_tail gap' authed id body ≫= k) (fun evs r => did ops false evs (is_ok r)).
Proof.
  intros Hop Ho Hk. unfold repository. apply traces_assoc.
  apply traces_guard; [pure|intros; apply did_refused|intros _]. apply traces_assoc.
  apply (traces_others phase_tail gap since 2), traces_assoc. by apply (traces_op _ op); [|done|pure].
Qed.



(** Registry and queue requests: guards, one access, no delivery. *)
Ltac one_access op :=
  apply (traces_others phase_tail gap since 2); apply (traces_op _ op); [done|by exists None|pure].

Lemma create_repo_traces authed body now :
  traces (create_repo phase_tail cfg gap' authed body now)
    (fun evs r => did (expected authed now (PostRepo body)) false evs (is_ok r)).
Proof.
  unfold create_repo. apply traces_lift; [intros; apply did_refused|intros req ->]. guards.
  destruct (registration cfg req a0) as [new pat] eqn:E. guards.
  apply (traces_others phase_tail gap since 2);
    apply (traces_op _ (OpRegisterRepository new (as_bytes <$> pat) now)); [done| |pure].
  exists None. cbn [operations]. by rewrite H0, E.
Qed.

Lemma update_repo_traces authed id body now :
  traces (update_repo phase_tail gap' authed id body now)
    (fun evs r => did (expected authed now (PatchRepo id body)) false evs (is_ok r)).
Proof.
  unfold update_repo. apply traces_lift; [intros; apply did_refused|intros req ->]. guards.
  apply (traces_repository _ _ _ (OpUpdateRepository id (repo_patch req) now)); [done|by exists None|pure].
Qed.

Lemma rotate_traces authed id body now :
  traces (Server.rotate_github_pat phase_tail gap' authed id body now)
    (fun evs r => did (expected authed now (PostGithubPat id body)) false evs (is_ok r)).
Proof.
  unfold Server.rotate_github_pat. apply traces_lift; [intros; apply did_refused|intros [v pat] ->]. guards.
  apply (traces_repository _ _ _ (OpRotatePat id (as_bytes pat) now)); [done|by exists None|pure].
Qed.

Lemma set_reporting_traces authed id body now :
  traces (Server.set_github_reporting phase_tail cfg gap' authed id body now)
    (fun evs r => did (expected authed now (PutGithub id body)) false evs (is_ok r)).
Proof.
  unfold Server.set_github_reporting.
  apply traces_lift; [intros; apply did_refused|intros [[[v owner] repo] pat] ->]. guards.
  apply (traces_repository _ _ _ (OpSetReporting id owner repo (as_bytes <$> pat) now)); [done|by exists None|pure].
Qed.

Lemma delete_repo_traces authed id now :
  traces (delete_repo phase_tail gap' authed id)
    (fun evs r => did (expected authed now (DeleteRepo id)) false evs (is_ok r)).
Proof.
  unfold delete_repo. apply (traces_repository _ _ _ (OpDeleteRepository id)); [done|by exists None|pure].
Qed.

Lemma github_app_traces authed body verified stored now :
  traces (set_github_app phase_tail gap' authed body verified stored now)
    (fun evs r => did (expected authed now (PutGithubApp body verified stored)) false evs (is_ok r)) /\
  traces (Server.clear_github_app phase_tail gap' authed)
    (fun evs r => did (expected authed now DeleteGithubApp) false evs (is_ok r)).
Proof.
  unfold set_github_app, Server.clear_github_app. split; guards;
    [one_access (OpStoreGithubApp stored now)|one_access OpClearGithubApp].
Qed.

Lemma workers_traces authed body minted id now :
  traces (create_worker phase_tail cert_fingerprint gap' authed body minted now)
    (fun evs r => did (expected authed now (PostWorker body minted)) false evs (is_ok r)) /\
  traces (revoke_worker phase_tail gap' authed id now)
    (fun evs r => did (expected authed now (DeleteWorker id)) false evs (is_ok r)).
Proof.
  unfold create_worker, revoke_worker. split.
  - apply traces_lift; [intros; apply did_refused|intros [v name] ->]. guards. subst minted.
    one_access (OpRegisterWorker name KindWorker (cert_fingerprint a0) now).
  - guards. one_access (OpRevokeWorker id now).
Qed.

Lemma queue_traces authed id now :
  traces (Server.retry phase_tail gap' authed id now)
    (fun evs r => did (expected authed now (PostRetry id)) false evs (is_ok r)) /\
  traces (Server.cancel phase_tail gap' authed id now)
    (fun evs r => did (expected authed now (PostCancel id)) false evs (is_ok r)) /\
  traces (Server.reject phase_tail gap' authed id now)
    (fun evs r => did (expected authed now (PostReject id)) false evs (is_ok r)).
Proof.
  unfold Server.retry, Server.cancel, Server.reject. split_and!; guards;
    [one_access (OpRetry id now (wrapping_add now DEFAULT_VALIDATING_BUDGET_SECS))|one_access (OpCancel id now)
    |one_access (OpReject id (aw_name authed) now)].
Qed.

Lemma retry_verify_traces authed body now :
  traces (retry_verify phase_tail gap' authed body now)
    (fun evs r => did (expected authed now (PostRetryVerify body)) false evs (is_ok r)).
Proof.
  unfold retry_verify. apply traces_lift; [intros; apply did_refused|intros [v req] ->]. guards.
  one_access (OpRecover req now DEFAULT_VALIDATING_BUDGET_SECS).
Qed.

Lemma repos_get_cases s db : exists row, Repos.get s db = Ok (row, db).
Proof. by eexists. Qed.

Lemma enqueue_within repo incremental now :
  within phase_tail (fun op => exists sha, op = OpEnqueue repo (scan_job incremental sha) now) (fun r => r = Ok None)
    (with_operator_repository (TRepository repo) (fun scope =>
      row ← Repos.get scope;
      match row with
      | None => mret None
      | Some row =>
          let since_sha := if (incremental : bool) then r_last_scanned_sha row else None in
          id ← Jobs.enqueue scope {| qj_kind := Scan; qj_incremental := incremental; qj_since_sha := since_sha;
                                     qj_parent_job_id := None; qj_target_finding_id := None |} now;
          mret (Some id)
      end)).
Proof.
  intros h. unfold with_operator_repository. cbn [target_repository]. unfold issue.
  match goal with |- context [Repos.get ?s] => set (sc := s) end.
  destruct (repos_get_cases sc (h_db h)) as (row & E).
  rewrite (tx_bind_run _ _ _ _ _ E). destruct row as [row|].
  - left. eexists. split; [by exists (r_last_scanned_sha row)|]. cbn [exec]. unfold with_operator_repository, issue.
    cbn [target_repository]. fold sc. cbv zeta. unfold mbind, tx_bind, scan_job.
    by destruct (Jobs.enqueue _ _ _ _) as [[id db]|e].
  - right. split; [|done]. constructor; cbn; try done; lia.
Qed.

Lemma enqueue_scan_traces authed repo body now :
  traces (enqueue_scan phase_tail gap' authed repo body now)
    (fun evs r => did (expected authed now (PostScan repo body)) false evs (is_ok r)).
Proof.
  unfold enqueue_scan. apply traces_lift; [intros; apply did_refused|intros [v inc] ->]. guards.
  apply (traces_others phase_tail gap since 2).
  eapply traces_access with (P := fun _ => True); [apply enqueue_within|done|..].
  - intros op r (sha & ->) _. apply traces_pure; [pure|]. intros r'. apply did_ops; [in_accesses|]. by exists sha.
  - intros r ->. exists NOT_FOUND. split; [done|]. apply did_nothing; [in_accesses|done].
Qed.

(** ** Reads *)

Lemma reads_traces authed filter id now :
  traces (Server.list_jobs phase_tail gap' authed filter)
    (fun evs r => did (expected authed now (GetJobs (Ok filter))) false evs (is_ok r)) /\
  traces (get_job phase_tail gap' authed id)
    (fun evs r => did (expected authed now (GetJob id)) false evs (is_ok r)).
Proof.
  unfold Server.list_jobs, get_job, Jobs.list_jobs, Jobs.get, Jobs.get_scoped_raw.
  split; guards; apply (traces_others phase_tail gap since 2).
  - eapply traces_read with (P := fun _ => True); [apply with_conn_reader; readonly|done|].
    intros r _. apply traces_pure; [pure|]. intros r'. apply did_ops; [in_accesses|by exists None].
  - apply traces_reader; [apply operator_reader; readonly|by exists None|pure].
Qed.

(** A capability check reads; what it returns is the request's own lease. *)
Lemma authorize_traces authed header now :
  traces (authorize blake3 authed header now) (fun evs r =>
    foreign evs = [] /\ own evs = [] /\
    forall a, r = Ok a -> parse_capability_value blake3 header = Some (aj_capability_hash a)).
Proof.
  unfold authorize. apply traces_or_fail; [done|]. intros hash Hh.
  eapply traces_read with (P := fun _ => True); [apply with_conn_reader; unfold Jobs.get_active_by_capability_hash; readonly|done|].
  intros r _. apply traces_lift; [done|]. intros row _. apply traces_or_fail; [done|]. intros job _. cbv zeta.
  destruct (negb _); [by apply traces_fail|]. apply traces_ret. split_and!; [done..|]. by intros a [= <-].
Qed.

Lemma authorize_for_job_traces authed header job now :
  traces (authorize_for_job blake3 authed header job now) (fun evs r =>
    foreign evs = [] /\ own evs = [] /\
    forall a, r = Ok a -> named_lease (aw_id authed) job header now = Some (active_lease a (aw_id authed) now)).
Proof.
  unfold authorize_for_job. eapply traces_bind; [apply authorize_traces|by intros evs e (? & ? & _)|].
  intros evs a (Hf & Ho & Ha). destruct (negb _ || negb _) eqn:E.
  - apply traces_fail. rewrite app_nil_r. done.
  - apply traces_ret. rewrite app_nil_r. split_and!; [done..|]. intros ? [= <-].
    apply orb_false_iff in E as [E _]. apply negb_false_iff, Z.eqb_eq in E.
    unfold named_lease. rewrite (Ha a eq_refl). cbn. unfold active_lease. by rewrite E.
Qed.

(** After the capability check, the rest runs under the named lease. *)
Lemma traces_authorized {B} authed header job now (k : AuthorizedJob -> Server B) ops d :
  (forall a evs, foreign evs = [] -> own evs = [] ->
     named_lease (aw_id authed) job header now = Some (active_lease a (aw_id authed) now) ->
     traces (k a) (fun evs' r => did ops d (Foreign 2 :: evs ++ evs') (is_ok r))) ->
  traces (_ ← others phase_tail (gap 2%nat); a ← authorize_for_job blake3 authed header job now; k a)
    (fun evs r => did ops d evs (is_ok r)).
Proof.
  intros Hk. apply (traces_others phase_tail gap since 2).
  eapply traces_bind; [apply authorize_for_job_traces|..].
  - intros evs e (Hf & Ho & _). apply did_nothing; [in_accesses|by autorewrite with events].
  - intros evs a (Hf & Ho & Ha). apply Hk; auto.
Qed.

(** The transaction of a worker's handler, and what follows it. *)
Lemma traces_leased {A B} i (f : Handle -> result Error A * Handle) op bad P (k : result Error A -> Server B) ops d pre :
  within phase_tail (eq op) bad f -> dated since f P -> ops [op] ->
  foreign pre ++ [i] ∈ accesses -> own pre = [] ->
  (forall r, bad r -> exists e, forall st, k r st = (Err e, st)) ->
  (forall r, (forall a, r = Ok a -> P a) -> traces (k r) (fun evs _ => tail d evs)) ->
  traces (_ ← others phase_tail (gap i); r ← on_handle f; k r) (fun evs r => did ops d (pre ++ evs) (is_ok r)).
Proof.
  intros Hw Hd Ho Hi Hpre Hb Hk. apply (traces_others phase_tail gap since i).
  eapply traces_access; [exact Hw|exact Hd|..].
  - intros op' r <- Hr. eapply traces_weaken; [|by apply Hk]. intros evs r' Ht. cbn beta.
    change (pre ++ Foreign i :: Own op :: evs) with (pre ++ [Foreign i; Own op] ++ evs). rewrite app_assoc.
    apply did_tail; [|by autorewrite with events; rewrite Hpre|done].
    by autorewrite with events.
  - intros r Hr. destruct (Hb r Hr) as (e & He). exists e. split; [done|].
    apply did_nothing; autorewrite with events; [done|by rewrite Hpre].
Qed.

Lemma named_op authed job capability now a f :
  named_lease (aw_id authed) job capability now = Some (active_lease a (aw_id authed) now) ->
  [f (active_lease a (aw_id authed) now)] = under_lease (aw_id authed) job capability now f.
Proof. unfold under_lease. by intros ->. Qed.

Lemma heartbeat_traces authed job capability body now :
  traces (heartbeat phase_tail blake3 gap' authed job capability body now)
    (fun evs r => did (expected authed now (PostHeartbeat job capability body)) false evs (is_ok r)).
Proof.
  unfold heartbeat. guards. apply traces_authorized. intros auth evs Hf Ho Hl.
  apply (traces_leased 3 _ (OpHeartbeat (active_lease auth (aw_id authed) now) Jobs.DEFAULT_LEASE_SECONDS)
           (fun _ => False) (fun _ => True) _ _ _ (Foreign 2 :: evs)); try done.
  - intros h. left. by eexists.
  - exists None. by apply (named_op _ _ _ _ _ (fun l => OpHeartbeat l _)).
  - in_accesses.
  - intros r _. apply pure_tail. pure.
Qed.

Lemma submit_findings_traces authed job capability body now :
  traces (Server.submit_findings phase_tail blake3 gap' authed job capability body now)
    (fun evs r => did (expected authed now (PostFindings job capability body)) false evs (is_ok r)).
Proof.
  unfold Server.submit_findings. apply traces_lift; [intros; apply did_refused|intros [v batch] ->]. guards.
  apply traces_authorized. intros auth evs Hf Ho Hl. cbn [snd].
  assert (did (expected authed now (PostFindings job capability (Ok (v, batch)))) false (Foreign 2 :: evs ++ []) false)
    as Hno by (rewrite app_nil_r; apply did_nothing; [in_accesses|by autorewrite with events]).
  destruct (negb _); [by apply traces_fail|]. destruct (existsb _ _); [by apply traces_fail|].
  eapply (traces_leased 3 _ (OpSubmitFindings (active_lease auth (aw_id authed) now) batch)
           refused (fun _ => True) _ _ _ (Foreign 2 :: evs)); try done.
  - apply (lease_within _ _ _ (fun s => submit_batch s batch)); [done|]. intros s db r db'.
    destruct (repos_get_cases (as_repo s) db) as (row & E). rewrite (tx_bind_run _ _ _ _ _ E).
    destruct row; [|by intros []%tx_err_Ok]. destruct (validate_batch _ _ _).
    + intros (u & d & Hs & [-> ->]%tx_ret_Ok)%tx_bind_Ok. by exists u.
    + by intros [-> ->]%tx_ret_Ok.
  - exists None. by apply (named_op _ _ _ _ _ (fun l => OpSubmitFindings l batch)).
  - in_accesses.
  - intros [[[[]|e]|]|e] Hr; cbn in Hr; try done; by eexists.
  - intros r _. apply pure_tail. pure.
Qed.

Lemma submit_llm_traces authed job capability body now :
  traces (submit_llm_finding phase_tail blake3 gap' authed job capability body now)
    (fun evs r => did (expected authed now (PostLlmFinding job capability body)) false evs (is_ok r)).
Proof.
  unfold submit_llm_finding. apply traces_lift; [intros; apply did_refused|intros [input identity] ->]. guards.
  apply traces_authorized. intros auth evs Hf Ho Hl. cbn [fst snd].
  assert (did (expected authed now (PostLlmFinding job capability (Ok (input, identity)))) false
    (Foreign 2 :: evs ++ []) false)
    as Hno by (rewrite app_nil_r; apply did_nothing; [in_accesses|by autorewrite with events]).
  destruct (negb _); [by apply traces_fail|]. apply traces_lift; [done|intros _ _]. cbv zeta.
  eapply (traces_leased 3 _ (OpSubmitFindings (active_lease auth (aw_id authed) now) [(into_finding input, identity)])
           refused (fun _ => True) _ _ _ (Foreign 2 :: evs)); try done.
  - apply (lease_within _ _ _ (fun s => submit_batch s [(into_finding input, identity)])); [done|]. intros s db r db'.
    destruct (repos_get_cases (as_repo s) db) as (row & E). rewrite (tx_bind_run _ _ _ _ _ E).
    destruct row; [|by intros []%tx_err_Ok]. destruct (validate_report_size _ _ _).
    + intros (u & d & Hs & [-> ->]%tx_ret_Ok)%tx_bind_Ok. exists tt. unfold submit_batch. cbn [tx_for fst snd].
      unfold mbind, tx_bind. by rewrite Hs.
    + by intros [-> ->]%tx_ret_Ok.
  - exists None. by apply (named_op _ _ _ _ _ (fun l => OpSubmitFindings l _)).
  - in_accesses.
  - intros [[[[]|e]|]|e] Hr; cbn in Hr; try done; by eexists.
  - intros r _. apply pure_tail. pure.
Qed.

(** ** Requests that prepare a report *)

Lemma lease_dated {A} l (body : AssignmentScope -> Tx A) (P : Z -> A -> Prop) :
  (forall s, yields (body s) (P (rs_committed (as_repo s)))) ->
  dated since (with_active_lease l body) (fun x => forall a, x = Some a -> exists flag, since <= flag /\ P flag a).
Proof.
  intros Hb h x Hs E a ->. destruct (lease_cases l body h) as [[E' _]|(s & Hf & E')]; rewrite E' in E; [done|].
  destruct (body s (h_db h)) as [[a' db]|e] eqn:Eb; [|done]. injection E as <-.
  exists (h_next_flag h). split; [done|]. rewrite <- Hf. by eapply Hb.
Qed.

Lemma operator_dated {A} t (body : RepoScope -> Tx A) (P : Z -> A -> Prop) :
  (forall s, yields (body s) (P (rs_committed s))) ->
  dated since (with_operator_repository t body) (fun a => exists flag, since <= flag /\ P flag a).
Proof.
  intros Hb h a Hs E. unfold with_operator_repository in E. destruct (target_repository _ _); [|done].
  unfold issue in E. match type of E with context [body ?s] => set (sc := s) in * end.
  destruct (body sc (h_db h)) as [[a' db]|e] eqn:Eb; [|done]. injection E as <-.
  exists (h_next_flag h). split; [done|]. by eapply (Hb sc).
Qed.

Lemma fresh_stamped flag p : since <= flag -> stamped flag p -> fresh p.
Proof. destruct p; cbn; [done..|]. by intros ? ->. Qed.

(** The body of the verdict transaction: checks, then the verdict. *)
Lemma submit_verdict_within l v name ti ra target patch :
  within phase_tail (eq (OpSubmitVerdict l v name ti ra)) refused
    (with_active_lease l (fun scope =>
      repo ← Repos.get (as_repo scope);
      match repo with
      | None => tx_err ScopeDenied
      | Some repo =>
          refused ← (match patch with
                     | None => mret None
                     | Some patch =>
                         finding ← Findings.get (as_repo scope) target;
                         match finding with
                         | None => mret (Some NOT_FOUND)
                         | Some finding =>
                             job ← Jobs.get (as_repo scope) (fr_job_id finding);
                             let revision := match job with Some j => j_head_sha j | None => None end in
                             mret (match validate_report_with_patch repo (fr_finding finding) revision (Some patch) with
                                   | Err status => Some status
                                   | Ok _ => None
                                   end)
                         end
                     end);
          match refused with
          | Some status => mret (Err status)
          | None => r ← Reports.submit_verdict scope v name ti ra; mret (Ok r.2)
          end
      end)).
Proof.
  apply (lease_within _ _ _ (fun s => Reports.submit_verdict s v name ti ra)); [done|]. intros s db r db'.
  destruct (repos_get_cases (as_repo s) db) as (row & E). rewrite (tx_bind_run _ _ _ _ _ E).
  destruct row as [row|]; [|by intros []%tx_err_Ok].
  intros (ref & d & Hr & H)%tx_bind_Ok. assert (d = db) as ->.
  { destruct patch as [p|]; [|by apply tx_ret_Ok in Hr as [_ ->]]. revert Hr. eapply readonly_bind.
    - unfold Findings.get, get_selected. readonly.
    - unfold Jobs.get, Jobs.get_scoped_raw. readonly. }
  destruct ref as [status|]; [by apply tx_ret_Ok in H as [-> ->]|].
  apply tx_bind_Ok in H as (q & d & Hs & [-> ->]%tx_ret_Ok). by exists q.
Qed.

Lemma submit_verdict_traces authed job capability body now :
  traces (Server.submit_verdict category phase_tail o blake3 cfg gap' delivery authed job capability body now)
    (fun evs r => did (expected authed now (PostVerdict job capability body)) true evs (is_ok r)).
Proof.
  unfold Server.submit_verdict. apply traces_lift; [intros; apply did_refused|intros [v verdict] ->]. guards.
  apply traces_authorized. intros auth evs Hf Ho Hl. cbn [fst snd].
  assert (did (expected authed now (PostVerdict job capability (Ok (v, verdict)))) true (Foreign 2 :: evs ++ []) false)
    as Hno by (rewrite app_nil_r; apply did_nothing; [in_accesses|by autorewrite with events]).
  destruct (negb _); [by apply traces_fail|]. apply traces_or_fail; [done|intros target _]. cbv zeta.
  eapply (traces_leased 3 _ (OpSubmitVerdict (active_lease auth (aw_id authed) now) verdict (aw_name authed)
            (terminal verdict) (cfg_require_approval_default cfg)) refused _ _ _ _ (Foreign 2 :: evs)).
  - apply submit_verdict_within.
  - apply (lease_dated _ _ (fun flag r => match r with Ok p => stamped flag p | Err _ => True end)).
    intros s. apply yields_bind. intros [row|]; [|apply yields_err]. apply yields_bind. intros [status|]; [by apply yields_ret|].
    eapply yields_bind_dep; [apply submit_verdict_stamped|]. intros q Hq. by apply yields_ret.
  - exists None. by apply (named_op _ _ _ _ _ (fun l => OpSubmitVerdict l _ _ _ _)).
  - in_accesses.
  - by autorewrite with events.
  - intros [[[p|e]|]|e] Hr; cbn in Hr; try done; by eexists.
  - intros r Hr. apply traces_lift; [intros; apply tail_nil|intros oa Hoa].
    apply traces_or_fail; [intros; apply tail_nil|intros rr ->].
    apply traces_lift; [intros; apply tail_nil|intros p ->].
    apply dispatch_tail; [|pure]. destruct r as [x|]; [|done]. injection Hoa as ->.
    destruct (Hr _ eq_refl _ eq_refl) as (flag & Hs & Hst). by eapply fresh_stamped.
Qed.

(** The check of [complete] before its transaction. *)
Lemma complete_check_traces authed auth req now kind :
  traces (match cr_outcome req, kind with
          | CFailed, _ => mret tt
          | CSucceeded, Scan =>
              match cr_head_sha req with
              | Some sha => if str_is_empty (trim sha) then fail BAD_REQUEST else mret tt
              | None => fail BAD_REQUEST
              end
          | CSucceeded, Verify =>
              _ ← others phase_tail (gap 3%nat);
              r ← on_handle (with_active_lease (active_lease auth (aw_id authed) now) Jobs.has_verdict);
              r ← or_status internal r;
              has_verdict ← or_fail FORBIDDEN r;
              if (has_verdict : bool) then mret tt else fail CONFLICT
          | CSucceeded, _ => fail BAD_REQUEST
          end) (fun evs _ => (foreign evs = [] \/ foreign evs = [3%nat]) /\ own evs = []).
Proof.
  destruct (cr_outcome req); [|by apply traces_ret; auto].
  destruct kind; try (apply traces_pure; [solve [pure]|by auto]).
  apply (traces_others phase_tail gap since 3).
  eapply traces_read with (P := fun _ => True); [apply lease_reader|done|].
  - unfold Jobs.has_verdict. readonly.
  - intros r _. apply traces_pure; [pure|]. intros _. split; [by right|done].
Qed.

Lemma complete_traces authed job capability body now :
  traces (Server.complete category phase_tail o blake3 cfg gap' delivery authed job capability body now)
    (fun evs r => did (expected authed now (PostComplete job capability body)) true evs (is_ok r)).
Proof.
  unfold Server.complete. apply traces_lift; [intros; apply did_refused|intros req ->]. guards.
  apply traces_authorized. intros auth evs Hf Ho Hl. cbv zeta.
  assert (did (expected authed now (PostComplete job capability (Ok req))) true (Foreign 2 :: evs ++ []) false)
    as Hno by (rewrite app_nil_r; apply did_nothing; [in_accesses|by autorewrite with events]).
  destruct (negb _); [by apply traces_fail|].
  eapply traces_bind; [apply complete_check_traces|..].
  { intros evs1 e [[Hf1|Hf1] Ho1]; apply did_nothing; try in_accesses; autorewrite with events; by rewrite Ho, Ho1. }
  intros evs1 [] [Hf1 Ho1]. cbn beta.
  eapply traces_weaken; [|eapply (traces_leased 4 _ (OpComplete (active_lease auth (aw_id authed) now)
      (outcome_state (cr_outcome req)) (cr_head_sha req) (cr_error req) (cfg_require_approval_default cfg)
      (wrapping_add now DEFAULT_VALIDATING_BUDGET_SECS)) (fun _ => False) _ _ _ _ (Foreign 2 :: evs ++ evs1))].
  - intros evs2 r Hd. rewrite app_assoc. exact Hd.
  - intros h. left. by eexists.
  - apply (lease_dated _ _ stamped). intros s. apply complete_assignment_stamped.
  - exists None. by apply (named_op _ _ _ _ _ (fun l => OpComplete l _ _ _ _ _)).
  - destruct Hf1 as [Hf1|Hf1]; in_accesses.
  - autorewrite with events. by rewrite Ho, Ho1.
  - done.
  - intros r Hr. apply traces_lift; [intros; apply tail_nil|intros oa Hoa].
    apply traces_or_fail; [intros; apply tail_nil|intros p ->].
    destruct r as [x|]; [|done]. injection Hoa as ->. destruct (Hr _ eq_refl _ eq_refl) as (flag & Hs & Hst).
    destruct (cr_outcome req), (j_kind (aj_row auth)); try (apply pure_tail; solve [pure]).
    apply traces_guard; [pure|intros; apply tail_nil|intros _].
    apply dispatch_tail; [by eapply fresh_stamped|pure].
Qed.

Lemma approve_traces authed id now :
  traces (Server.approve category phase_tail o cfg gap' delivery authed id now)
    (fun evs r => did (expected authed now (PostApprove id)) true evs (is_ok r)).
Proof.
  unfold Server.approve. guards.
  apply (traces_leased 2 _ (OpApprove id (aw_name authed) now) (fun _ => False)
    (fun r => exists flag, since <= flag /\ stamped flag r.2) _ _ _ []); try done.
  - intros h. left. by eexists.
  - apply (operator_dated _ _ (fun flag r => stamped flag r.2)). intros s. apply approve_stamped.
  - by exists None.
  - in_accesses.
  - intros r Hr. apply traces_lift; [intros; apply tail_nil|intros [outcome p] Hp].
    destruct r as [x|]; [|done]. injection Hp as ->. destruct (Hr _ eq_refl) as (flag & Hs & Hst). cbn [fst snd].
    destruct outcome; [|apply pure_tail; pure..]. apply dispatch_tail; [by eapply fresh_stamped|pure].
Qed.

Lemma retry_report_traces authed id now :
  traces (retry_report category phase_tail o cfg gap' delivery authed id now)
    (fun evs r => did (expected authed now (PostRetryReport id)) true evs (is_ok r)).
Proof.
  unfold retry_report. guards. apply (traces_others phase_tail gap since 2).
  eapply traces_read.
  - apply operator_reader. intros s. unfold Findings.get, get_selected, Repos.get, Repos.get_raw, prepare_operator,
      Scope.require_operator. readonly.
  - apply (operator_dated _ _ (fun flag r => match r with Ok p => stamped flag p | Err _ => True end)).
    intros s. unfold prepare_operator. yields (rs_committed s).
  - intros r Hr. eapply traces_weaken with (Q := fun evs _ => tail true evs).
    { intros evs r' Ht. apply (did_tail _ _ [Foreign 2; Read]); [in_accesses|by exists None|done]. }
    apply traces_lift; [intros; apply tail_nil|intros rr Hrr].
    apply traces_lift; [intros; apply tail_nil|intros p ->].
    destruct r as [x|]; [|done]. injection Hrr as ->. destruct (Hr _ eq_refl) as (flag & Hs & Hst).
    apply dispatch_tail; [by eapply fresh_stamped|pure].
Qed.

Lemma read_scope_traces {A} authed header target now (body : RepoScope -> Tx A) :
  (forall s, readonly (body s)) ->
  traces (read_scope phase_tail blake3 gap' authed header target now body)
    (fun evs _ => foreign evs ∈ accesses /\ own evs = []).
Proof.
  intros Hb. unfold read_scope. destruct (operator_ingress authed); apply (traces_others phase_tail gap since 2).
  - eapply traces_read with (P := fun _ => True); [by apply operator_reader|done|].
    intros r _. apply traces_pure; [pure|]. intros _. split; [in_accesses|done].
  - eapply traces_bind; [apply authorize_traces|..].
    + intros evs e (Hf & Ho & _). split; [in_accesses|by autorewrite with events].
    + intros evs a (Hf & Ho & _). apply (traces_others phase_tail gap since 3).
      eapply traces_read with (P := fun _ => True); [apply lease_reader|done|].
      * intros s. destruct target; [|apply Hb..]. destruct (negb _); [apply readonly_err|apply Hb].
      * intros r _. apply traces_pure; [pure|]. intros _. split; [in_accesses|].
        autorewrite with events. by rewrite Ho.
Qed.

Lemma findings_traces authed repo limit id capability now :
  traces (Server.list_for_repo phase_tail blake3 gap' authed repo limit now)
    (fun evs r => did (expected authed now (GetRepoFindings repo limit)) false evs (is_ok r)) /\
  traces (get_finding phase_tail blake3 gap' authed id capability now)
    (fun evs r => did (expected authed now (GetFinding id capability)) false evs (is_ok r)).
Proof.
  unfold Server.list_for_repo, get_finding. split; guards.
  - eapply traces_weaken; [|apply read_scope_traces; unfold Findings.list_for_repo, Findings.list_for_repo_raw; readonly].
    intros evs r [Hf Ho]. apply did_ops; [done|]. rewrite Ho. by exists None.
  - eapply traces_bind; [apply read_scope_traces; unfold Findings.get, get_selected; readonly|..].
    + intros evs e [Hf Ho]. by apply did_nothing.
    + intros evs a [Hf Ho]. apply traces_pure; [pure|]. intros r. rewrite app_nil_r.
      apply did_ops; [done|]. rewrite Ho. by exists None.
Qed.

(** ** Every handler *)

Lemma handler_traces authed now req :
  traces (handler category phase_tail o blake3 cert_fingerprint cfg gap' delivery authed now req)
    (fun evs r => did (expected authed now req) (delivers req) evs (is_ok r)).
Proof.
  assert (forall A B (f : A -> B) (m : Server A) Q, traces m (fun evs r => Q evs (is_ok r)) ->
    traces (f <$> m) (fun evs r => Q evs (is_ok r))) as Hmap by (intros; by apply traces_fmap).
  pose proof (fun b v s => github_app_traces authed b v s now) as Happ.
  pose proof (fun b m i => workers_traces authed b m i now) as Hwork.
  pose proof (fun i => queue_traces authed i now) as Hq.
  pose proof (fun f i => reads_traces authed f i now) as Hr.
  pose proof (fun rp l i c => findings_traces authed rp l i c now) as Hf.
  destruct req; cbn [handler delivers]; try apply Hmap; eauto using create_repo_traces, update_repo_traces,
    rotate_traces, set_reporting_traces, delete_repo_traces, retry_verify_traces, heartbeat_traces,
    submit_findings_traces, submit_llm_traces, submit_verdict_traces, complete_traces, approve_traces,
    retry_report_traces, enqueue_scan_traces.
  - by apply Happ.
  - by apply (Happ (Err 0) None []).
  - by apply (Hf repo limit 0 None).
  - by apply Hq.
  - by apply (Hwork body minted 0).
  - by apply (Hwork (Err 0) None id).
  - apply traces_lift; [intros; apply did_refused|intros filter ->]. by apply Hmap, (Hr filter 0).
  - by apply (Hr {| Jobs.jf_states := []; Jobs.jf_kind := None; Jobs.jf_limit := None |} id).
  - by apply Hq.
  - by apply Hq.
  - apply traces_ret, did_ops; [in_accesses|by exists None].
  - by apply (Hf 0 None id capability).
Qed.

(** ** Authentication *)

(** The row an unrevoked certificate stands for. *)
Definition active_row (h : Handle) (fingerprint : bytes) (row : WorkerRow) : Prop :=
  exists i, workers (h_db h) !! i = Some row /\ w_cert_fingerprint row = fingerprint /\ w_revoked_at row = None.

Lemma with_conn_first {R} table (P : R -> bool) h :
  with_conn (tx_first table P) h = (Ok (head (sql_select P (table (h_db h)))), h).
Proof. unfold with_conn, tx_first. by destruct h. Qed.

Definition fingerprint_row (fp : bytes) (w : WorkerRow) : bool :=
  bool_decide (w_cert_fingerprint w = fp) && sql_null (w_revoked_at w).

Lemma mtls_auth_unfold der incoming auth_now st :
  mtls_auth phase_tail cert_fingerprint cfg gap (Some der) incoming auth_now st =
  let h := exec_all phase_tail (gap 0%nat) (st_handle st) in
  let st := st <|st_handle := h|> in
  match head (sql_select (fingerprint_row (cert_fingerprint der)) (workers (h_db h))) with
  | None => (Err UNAUTHORIZED, st)
  | Some row =>
      let authed := {| aw_worker := row |} in
      let '(r, st) := (if worker_ingress authed then _ ← enforce_budget cfg (aw_id authed) incoming; mret tt
                       else mret tt) st in
      match r with
      | Err e => (Err e, st)
      | Ok _ => (Ok authed,
                 st <|st_handle := exec phase_tail (OpTouchWorker (w_id row) auth_now)
                                     (exec_all phase_tail (gap 1%nat) (st_handle st))|>)
      end
  end.
Proof.
  unfold mtls_auth, Workers.find_active_by_fingerprint. cbv zeta.
  unfold mbind at 1 2 3 4 5, server_bind at 1 2 3 4 5, or_fail, lift, others, on_handle, or_status, lift, map_err, ok_or.
  cbn [st_handle]. rewrite with_conn_first. cbv beta iota. unfold fingerprint_row.
  destruct (head _) as [row|]; [|done]. cbn [st_handle].
  set (st0 := st <|st_handle := exec_all phase_tail (gap 0%nat) (st_handle st)|>).
  match goal with |- (?m ≫= ?k) ?s = _ => change ((m ≫= k) st0 = match m st0 with
    | (Ok _, st0) => (Ok {| aw_worker := row |}, st0 <| st_handle := exec phase_tail (OpTouchWorker (w_id row) auth_now)
            (exec_all phase_tail (gap 1%nat) (st_handle st0)) |>)
    | (Err e, st0) => (Err e, st0) end); unfold mbind at 1, server_bind at 1; destruct (m st0) as [[[]|e] st1] end; [|done].
  unfold mbind, server_bind. cbn [st_handle]. unfold exec, aw_id. cbn [aw_worker].
  destruct (with_conn _ _) as [rt ht]. done.
Qed.

Lemma pure_charge authed incoming :
  pure (if worker_ingress authed then _ ← enforce_budget cfg (aw_id authed) incoming; mret tt else mret tt).
Proof.
  destruct (worker_ingress authed); [|done]. apply pure_bind; [|done].
  intros st. unfold enforce_budget. by destruct (enforce _ _ _ _ _ _ _).
Qed.

Lemma mtls_auth_run cert incoming auth_now st r st' :
  mtls_auth phase_tail cert_fingerprint cfg gap cert incoming auth_now st = (r, st') ->
  (exists e evs, r = Err e /\ ran phase_tail gap evs (st_handle st) (st_handle st') /\
     (evs = [] \/ evs = [Foreign 0])) \/
  exists der row, r = Ok {| aw_worker := row |} /\ cert = Some der /\
     active_row (exec_all phase_tail (gap 0%nat) (st_handle st)) (cert_fingerprint der) row /\
     ran phase_tail gap [Foreign 0; Foreign 1; Own (OpTouchWorker (w_id row) auth_now)] (st_handle st) (st_handle st').
Proof.
  destruct cert as [der|]; [|intros [= <- <-]; left; exists UNAUTHORIZED, []; split_and!; [done|constructor|by left]].
  rewrite mtls_auth_unfold. cbv zeta.
  destruct (head _) as [row|] eqn:Hrow; [|intros [= <- <-]; left; exists UNAUTHORIZED, [Foreign 0]; split_and!;
    [done|do 2 constructor|by right]].
  apply head_select_Some in Hrow as (HP & i & Hi). unfold fingerprint_row in HP. bool_prop.
  pose proof (pure_charge {| aw_worker := row |} incoming) as Hp.
  match goal with |- context [(if ?b then ?x else ?y) ?s] => specialize (Hp s);
    destruct ((if b then x else y) s) as [[[]|e] st1] end; cbn in Hp; intros [= <- <-].
  - right. exists der, row. split_and!; [done|done| |].
    + exists i. split_and!; [done|done|]. by destruct (w_revoked_at row).
    + do 3 constructor. rewrite Hp. cbn. constructor.
  - left. exists e, [Foreign 0]. split_and!; [done| |by right]. constructor. rewrite Hp. constructor.
Qed.

End Requests.

Definition layer_admits (l : Layer) (kind : WorkerKind) : bool :=
  match l, kind with
  | AdminOnly, KindAdmin | WorkerOnly, KindWorker | Both, _ => true
  | _, _ => false
  end.

Section Serve.
Context (category : Z -> GeneralCategory) (phase_tail : JobRow -> Tx Claimed) (o : Oracle).
Context (blake3 : bytes -> bytes) (cert_fingerprint : bytes -> bytes).
Context (cfg : Settings).

Lemma role_layer_run l row st r st' :
  role_layer l {| aw_worker := row |} st = (r, st') ->
  st' = st /\ (is_ok r = true -> layer_admits l (w_kind row) = true).
Proof.
  unfold role_layer, require_admin, require_worker, is_admin, is_worker. cbn [aw_worker].
  destruct l, (w_kind row); cbn; by intros [= <- <-].
Qed.

Lemma gaps_in_order js m : js `sublist_of` [2; 3; 4]%nat -> (0 :: 1 :: js ++ seq 5 m)%nat `sublist_of` seq 0 (5 + m).
Proof.
  intros H. change (seq 0 (5 + m)) with (0 :: 1 :: [2; 3; 4] ++ seq 5 m)%nat.
  do 2 constructor. by apply sublist_app.
Qed.

(** C5: every request of [Request] refines the operations of the system.  Whatever the
    certificate, headers, route and body, and however other requests
    interleave with it, serving it touches the database only through: reads;
    the last-seen column of the unrevoked row whose fingerprint the
    certificate has; and, only after the protocol header was accepted and the
    row has the role of the route, the one operation the route and body name,
    under the caller's own name, or under the lease of the job in the path for
    the caller's id and the hash of the token it presented; then marks of a
    report prepared by this request, on the delivering routes only.  A request
    answered with success ran its operation. *)
Theorem requests_refine_operations gap cert protocol incoming auth_now now req st r st' :
  serve category phase_tail o blake3 cert_fingerprint cfg gap cert protocol incoming auth_now now req st = (r, st') ->
  exists evs,
    ran phase_tail gap evs (st_handle st) (st_handle st') /\
    (exists n, foreign evs `sublist_of` seq 0 n) /\
    ((own evs = [] /\ is_ok r = false) \/
     exists der row rest,
       cert = Some der /\
       active_row (exec_all phase_tail (gap 0%nat) (st_handle st)) (cert_fingerprint der) row /\
       own evs = OpTouchWorker (w_id row) auth_now :: rest /\
       ((rest = [] /\ is_ok r = false) \/
        (request_protocol_error protocol = false /\ layer_admits (layer_of req) (w_kind row) = true /\
         exists last_scanned marks,
           rest = operations blake3 cert_fingerprint cfg row now last_scanned req ++ marks /\
           Forall (fresh_mark (h_next_flag (st_handle st))) marks /\ (delivers req = false -> marks = [])))).
Proof.
  unfold serve. intros H. unfold mbind, server_bind in H.
  destruct (mtls_auth _ _ _ _ _ _ _ st) as [ra st1] eqn:Ea.
  apply mtls_auth_run in Ea as [(e & evs & -> & Hr & Hevs)|(der & row & -> & Hc & Hrow & Hr)].
  { injection H as <- <-. exists evs. split; [done|]. split; [|left; destruct Hevs as [-> | ->]; done].
    exists 1%nat. destruct Hevs as [-> | ->]; repeat constructor. }
  set (pre := [Foreign 0; Foreign 1; Own (OpTouchWorker (w_id row) auth_now)]) in Hr.
  assert (forall e, is_ok (Err e : result StatusCode Reply) = false -> exists evs,
    ran phase_tail gap evs (st_handle st) (st_handle st1) /\ (exists n, foreign evs `sublist_of` seq 0 n) /\
    own evs = [OpTouchWorker (w_id row) auth_now]) as Hstop.
  { intros _ _. exists pre. split_and!; [done|exists 2%nat; repeat constructor|done]. }
  unfold lift, check_request_protocol in H. destruct (request_protocol_error protocol) eqn:Ep.
  { injection H as <- <-. destruct (Hstop 0 eq_refl) as (evs & ? & ? & ?). exists evs. split_and!; [done..|].
    right. exists der, row, []. split_and!; [done..|]. by left. }
  destruct (role_layer _ _ st1) as [rl st2] eqn:El. apply role_layer_run in El as [-> Hadm]. destruct rl as [[]|e].
  2: { injection H as <- <-. destruct (Hstop 0 eq_refl) as (evs & ? & ? & ?). exists evs. split_and!; [done..|].
    right. exists der, row, []. split_and!; [done..|]. by left. }
  pose proof (ran_flag _ _ _ _ _ Hr) as Hflag.
  destruct (handler_traces category phase_tail o blake3 cert_fingerprint cfg gap (h_next_flag (st_handle st))
    {| aw_worker := row |} now req st1 r st' Hflag H) as (evs & Hran & (js & m & Hjs & Hf) & Hown).
  exists (pre ++ evs). split; [by eapply ran_app|]. split.
  { exists (5 + m)%nat. rewrite foreign_app, Hf. by apply gaps_in_order. }
  right. exists der, row, (own evs). split_and!; [done..|].
  destruct Hown as [[Ho Hok]|(os & marks & (sha & ->) & Ho & Hm & Hd)]; [by left|].
  right. split_and!; [done|by apply Hadm|]. exists sha, marks. done.
Qed.

End Serve.

(** ** An administrator registers a worker *)

Definition plain_settings : Settings := {|
  cfg_budgets := worker_budget_default; cfg_require_approval_default := false; cfg_verification_default := false;
  cfg_github_app_allowed_owners := None |}.

Definition no_body : Incoming := {|
  in_lease_path := false; in_budget_now := 0; in_budget_lease_now := 0; in_stream := [] |}.

Definition administered : AppState := {|
  st_handle := exec_all no_phase [OpRegisterWorker (lit "admin") KindAdmin [7] 0] (initial_handle 7);
  st_budgets := ∅; st_world := {| w_sent := []; w_mail := [] |}; st_wakeups := 0 |}.

Lemma requests_refine_operations_witness :
  exists st' evs,
    serve ascii_category no_phase obliging (fun b => b) (fun b => b) plain_settings (fun _ => []) (Some [7]) None
      no_body 3 4 (PostWorker (Ok (PROTOCOL_VERSION, lit "w1")) (Some [9])) administered = (Ok (CreatedId CREATED 2), st') /\
    ran no_phase (fun _ => []) evs (st_handle administered) (st_handle st') /\
    own evs = [OpTouchWorker 1 3; OpRegisterWorker (lit "w1") KindWorker [9] 4].
Proof.
  destruct (serve ascii_category no_phase obliging (fun b => b) (fun b => b) plain_settings (fun _ => []) (Some [7]) None
    no_body 3 4 (PostWorker (Ok (PROTOCOL_VERSION, lit "w1")) (Some [9])) administered) as [r st'] eqn:E.
  assert (r = Ok (CreatedId CREATED 2)) as Hr by (apply (f_equal fst) in E; vm_compute in E; symmetry; exact E).
  destruct (requests_refine_operations _ _ _ _ _ _ _ _ _ _ _ _ _ _ _ _ E) as (evs & Hran & _ & Hown).
  exists st', evs. split; [congruence|]. split; [exact Hran|].
  destruct Hown as [[_ Hok]|(der & row & rest & [= <-] & (i & Hi & _ & _) & Ho & Hrest)]; [by rewrite Hr in Hok|].
  destruct Hrest as [[_ Hok]|(_ & _ & sha & marks & -> & _ & Hd)]; [by rewrite Hr in Hok|].
  rewrite Ho, (Hd eq_refl). cbn. do 2 f_equal.
  assert (i = 1) as ->.
  { change (workers _ !! i = Some row) with (workers (h_db (st_handle administered)) !! i = Some row) in Hi.
    assert (dom (workers (h_db (st_handle administered))) = {[1]}) as Hdom by (vm_compute; reflexivity).
    assert (i ∈ dom (workers (h_db (st_handle administered)))) as Hin by (apply elem_of_dom; by eexists).
    rewrite Hdom in Hin. by apply elem_of_singleton in Hin. }
  apply (row_value _ _ _ _ _ Hi). vm_compute. reflexivity.
Defined.
