(* ===== verification/Revocation.v ===== *)
(** * Revocation

    A revoked certificate is never accepted again, whatever else the system
    does: fingerprints stay unique, rows of workers are never deleted, and the
    revocation of a row is never undone. *)

From Stdlib Require Import ZArith Lia.
From stdpp Require Import base gmap sets list strings numbers.
From S2P Require Import Prelude Buffers Budgets Sql Domain Vocabulary SchedPolicy Store TxLogic Scope Repos Findings Jobs Issuer Claim Reports Recovery Invariant Preservation System Fixture CredentialTheorems Text LlmFinding Render Email Dispatch Server Router RouterLogic RouterTheorems.
Local Open Scope Z_scope.

(** The steps of the workers table. *)
Record workers_step (db db' : Db) : Prop := {
  ws_unique : unique_on Workers.fingerprint_key (workers db) = true ->
              unique_on Workers.fingerprint_key (workers db') = true;
  ws_rows : forall i w, workers db !! i = Some w -> exists w', workers db' !! i = Some w' /\
              w_cert_fingerprint w' = w_cert_fingerprint w /\
              (is_Some (w_revoked_at w) -> is_Some (w_revoked_at w'));
}.

#[export] Instance workers_step_refl : Reflexive workers_step.
Proof. intros db. constructor; eauto. Qed.

#[export] Instance workers_step_trans : Transitive workers_step.
Proof.
  intros a b c [U1 R1] [U2 R2]. constructor; [auto|]. intros i w Hw.
  destruct (R1 _ _ Hw) as (w1 & H1 & E1 & V1). destruct (R2 _ _ H1) as (w2 & H2 & E2 & V2).
  exists w2. split_and!; [done|congruence|auto].
Qed.

Lemma workers_step_same db db' : workers db' = workers db -> workers_step db db'.
Proof. intros E. constructor; rewrite E; eauto. Qed.

Lemma workers_step_update P f db :
  (forall w, w_cert_fingerprint (f w) = w_cert_fingerprint w /\ (is_Some (w_revoked_at w) -> is_Some (w_revoked_at (f w)))) ->
  workers_step db (db <|workers := sql_update P f (workers db)|>).
Proof.
  intros Hf. constructor; cbn.
  - apply unique_on_update. intros w k _. unfold Workers.fingerprint_key. by rewrite (proj1 (Hf w)).
  - intros i w Hw. exists (if P w then f w else w). split; [apply lookup_sql_update_Some; eauto|].
    destruct (P w); [apply Hf|auto].
Qed.

Definition watched {A} (m : Tx A) : Prop := forall db a db', m db = Ok (a, db') -> workers_step db db'.

Lemma watched_calm {A} (m : Tx A) : calm m -> watched m.
Proof. intros Hm db a db' H%Hm. apply workers_step_same. by destruct H. Qed.

Lemma watched_bind {A B} (m : Tx A) (f : A -> Tx B) : watched m -> (forall a, watched (f a)) -> watched (m ≫= f).
Proof. intros Hm Hf db b db' (a & d & Ha & Hb)%tx_bind_Ok. etrans; [by eapply Hm|by eapply Hf]. Qed.

Lemma watched_immediate {A} (m : Tx A) : watched m -> watched (immediate m).
Proof. intros Hm db a db' H%(proj1 (immediate_Ok _ _ _ _)). by eapply Hm. Qed.

Lemma watched_insert n k fp now : watched (Workers.insert n k fp now).
Proof.
  intros db id db' H. unfold Workers.insert in H. destruct (next_rowid (workers db)) as [j|] eqn:Hj; [|done].
  destruct (_ && _) eqn:E; [|done]. apply andb_true_iff in E as [_ E]. injection H as _ <-.
  constructor; cbn; [by intros _|]. intros i w Hw. exists w. split; [|auto].
  rewrite lookup_insert_ne; [done|]. intros <-. apply next_rowid_fresh in Hj. congruence.
Qed.

Lemma watched_revoke id now : watched (Workers.revoke id now).
Proof. intros db b db' [= _ <-]. apply workers_step_update. intros w. split; [done|]. by intros _. Qed.

Lemma watched_touch id now : watched (Workers.touch_last_seen id now).
Proof. intros db b db' [= _ <-]. by apply workers_step_update. Qed.

(** The registry operations change other tables. *)
Lemma watched_other {A} (m : Tx A) : (forall db a db', m db = Ok (a, db') -> workers db' = workers db) -> watched m.
Proof. intros Hm db a db' H%Hm. by apply workers_step_same. Qed.

Ltac watched :=
  repeat first
    [ progress cbv zeta beta
    | solve [auto with loupe]
    | apply watched_immediate
    | apply watched_bind; [|intros ?]
    | match goal with |- watched (match ?x with _ => _ end) => destruct x end
    | apply watched_calm; solve [calm_leaf]
    | apply watched_other; let H := fresh in intros ? ? ? H; repeat case_match; by simplify_eq ].

Lemma watched_delete_repo s : watched (Repos.delete s).
Proof. unfold Repos.delete, Scope.require_operator, Repos.delete_raw. watched. Qed.

Lemma watched_secrets :
  (forall kind label value now, watched (Secrets.insert kind label value now)) /\
  (forall id, watched (Secrets.delete id)) /\ watched GithubAppStore.get.
Proof. unfold Secrets.insert, Secrets.delete, GithubAppStore.get. split_and!; intros; watched. Qed.

Lemma watched_repo_insert new now : watched (Repos.insert new now).
Proof. unfold Repos.insert. watched. Qed.

Lemma watched_update_repos P f : watched (update_repos P f).
Proof. apply watched_other. by intros db n db' (_ & ->)%update_repos_Ok. Qed.

Lemma watched_set_reporting s owner name pat now : watched (Repos.set_github_reporting s owner name pat now).
Proof.
  destruct watched_secrets as (Wi & Wd & Wg).
  unfold Repos.set_github_reporting, Repos.get, Repos.get_raw, Scope.require_operator, Repos.count_github_pat_references,
    Repos.count_github_destinations. watched; auto using watched_update_repos.
Qed.

#[export] Hint Resolve watched_set_reporting : loupe.

Lemma watched_registry :
  (forall new pat now, watched (Registry.register_repository new pat now)) /\
  (forall s pat now, watched (Repos.rotate_github_pat s pat now)) /\
  (forall value now, watched (GithubAppStore.set_app value now)) /\ watched Registry.clear_github_app.
Proof.
  destruct watched_secrets as (Wi & Wd & Wg). split_and!.
  - intros. unfold Registry.register_repository. watched; auto using watched_repo_insert.
  - intros. unfold Repos.rotate_github_pat, Repos.get, Repos.get_raw, Scope.require_operator.
    watched.
  - intros value now. apply watched_other. intros db u db' H. unfold GithubAppStore.set_app, Secrets.insert in H.
    repeat case_match; by simplify_eq.
  - unfold Registry.clear_github_app, Repos.count_github_app_references, Repos.count_github_destinations,
      GithubAppStore.clear. watched.
Qed.

Section Steps.
Context (phase_tail : JobRow -> Tx Claimed) (db0 : Db).

Lemma preserves_watched {A} (m : Tx A) : watched m -> preserves (workers_step db0) m.
Proof. intros Hm db a db' Hs H%Hm. by etrans. Qed.
Hint Resolve preserves_watched watched_calm watched_insert watched_revoke watched_touch watched_delete_repo
  watched_set_reporting : loupe.

Lemma exec_workers op h : workers_step db0 (h_db h) -> workers_step db0 (h_db (exec phase_tail op h)).
Proof.
  destruct watched_registry as (W1 & W2 & W3 & W4).
  destruct op; cbn [exec];
    try (apply preserves_conn; auto with loupe);
    try (apply preserves_operator; intros ?; auto with loupe);
    try (apply preserves_lease; auto with loupe); intros Hs.
  - unfold mark_one. destruct (negb _); [done|]. destruct (position _ _); [|done].
    apply preserves_receipt; auto with loupe.
  - unfold mark_all. destruct (negb _); [done|]. apply preserves_receipt; auto with loupe.
Qed.

Lemma exec_all_workers ops h : workers_step db0 (h_db h) -> workers_step db0 (h_db (exec_all phase_tail ops h)).
Proof.
  unfold exec_all. revert h. induction ops as [|op ops IH]; intros h Hs; [done|]. by apply IH, exec_workers.
Qed.

End Steps.

(** C6: revocation is permanent.  Once the row of a certificate is revoked,
    every later request with that certificate, on any authenticated route of
    [Request], with whatever
    headers and body and however others interleave, is answered 401 and
    changes nothing: no operation, no row touched, no budget charged, nothing
    delivered. *)
Theorem revoked_certificates_are_refused category phase_tail o blake3 cert_fingerprint cfg identity ops gap
    (id : Z) row der protocol incoming auth_now now req st :
  st_handle st = exec_all phase_tail ops (initial_handle identity) ->
  workers (h_db (st_handle st)) !! id = Some row ->
  is_Some (w_revoked_at row) ->
  w_cert_fingerprint row = cert_fingerprint der ->
  serve category phase_tail o blake3 cert_fingerprint cfg gap (Some der) protocol incoming auth_now now req st =
    (Err UNAUTHORIZED, st <|st_handle := exec_all phase_tail (gap 0%nat) (st_handle st)|>).
Proof.
  intros Hst Hrow Hrev Hfp. unfold serve, mbind at 1, server_bind at 1. rewrite mtls_auth_unfold. cbv zeta.
  set (h := exec_all phase_tail (gap 0%nat) (st_handle st)).
  assert (unique_on Workers.fingerprint_key (workers (h_db (st_handle st))) = true) as Hu.
  { rewrite Hst. by apply (ws_unique empty_db); [apply exec_all_workers|]. }
  assert (workers_step (h_db (st_handle st)) (h_db h)) as [U R] by by apply exec_all_workers.
  destruct (R _ _ Hrow) as (row' & Hrow' & Efp & Hrev'). specialize (U Hu). rewrite unique_on_true in U.
  destruct (head _) as [w|] eqn:Hw; [|done]. exfalso.
  apply head_select_Some in Hw as (HP & i & Hi). unfold fingerprint_row in HP. bool_prop.
  assert (i = id) as ->.
  { apply (U i id w row' (cert_fingerprint der)); [done..|unfold Workers.fingerprint_key; congruence|].
    unfold Workers.fingerprint_key. congruence. }
  rewrite Hrow' in Hi. injection Hi as <-. destruct (Hrev' Hrev) as [t Ht].
  congruence.
Qed.

(** ** A worker after its revocation *)

Lemma revoked_certificates_are_refused_witness :
  exists st, st_handle st = exec_all no_phase [OpRegisterWorker (lit "w1") KindWorker [9] 0; OpRevokeWorker 1 5] (initial_handle 7) /\
    serve ascii_category no_phase obliging (fun b => b) (fun b => b) plain_settings (fun _ => []) (Some [9]) None
      no_body 6 6 GetWhoami st = (Err UNAUTHORIZED, st).
Proof.
  set (h := exec_all no_phase [OpRegisterWorker (lit "w1") KindWorker [9] 0; OpRevokeWorker 1 5] (initial_handle 7)).
  exists {| st_handle := h; st_budgets := ∅; st_world := {| w_sent := []; w_mail := [] |}; st_wakeups := 0 |}.
  split; [reflexivity|].
  destruct (workers (h_db h) !! 1) as [row|] eqn:E; [|vm_compute in E; discriminate].
  apply (revoked_certificates_are_refused ascii_category no_phase obliging (fun b => b) (fun b => b) plain_settings 7
    [OpRegisterWorker (lit "w1") KindWorker [9] 0; OpRevokeWorker 1 5] (fun _ => []) 1 row [9]);
    [reflexivity|exact E|..].
  - assert (w_revoked_at <$> (workers (h_db h) !! 1) = Some (Some 5)) as H by (vm_compute; reflexivity).
    rewrite (row_value _ _ _ _ _ E H). by eexists.
  - apply (row_value _ _ _ _ _ E). vm_compute. reflexivity.
Defined.
