(* ===== verification/Denials.v ===== *)
(** * Capability denials

    A worker acts on a job only through the token it was handed with the lease.
    The check accepts exactly the live lease of the caller, and every other
    case, whether the job does not exist, belongs to another worker, expired,
    or the header is missing or malformed, gets the same answer and no
    effect. *)

From Stdlib Require Import ZArith Lia.
From stdpp Require Import base gmap sets list strings numbers.
From S2P Require Import Prelude Buffers Budgets Sql Domain Vocabulary SchedPolicy Store TxLogic Scope Repos Findings Jobs Issuer Claim Reports Recovery Invariant Preservation System Fixture Text LlmFinding Render Email Dispatch Server Router RouterLogic RouterTheorems.
Local Open Scope Z_scope.

Section Denials.
Context (category : Z -> GeneralCategory) (phase_tail : JobRow -> Tx Claimed) (o : Oracle).
Context (blake3 : bytes -> bytes) (cert_fingerprint : bytes -> bytes).
Context (cfg : Settings).

(** [caller] holds a live lease of [job], of whatever kind, and presents its
    token. *)
Definition leases_job (db : Db) (caller job : Z) (header : option bytes) (now : Z) : Prop :=
  exists i row hash, parse_capability_value blake3 header = Some hash /\
    jobs db !! i = Some row /\ j_id row = job /\ j_worker_id row = Some caller /\
    j_capability_hash row = Some hash /\ j_state row = Leased /\ sql_ge (j_lease_expires_at row) now = true.

(** The same of a scan or verification outside campaigns, whose row is [row]. *)
Definition holds_lease (db : Db) (caller job : Z) (header : option bytes) (now : Z) (row : JobRow) (hash : bytes) : Prop :=
  parse_capability_value blake3 header = Some hash /\
  (exists i, jobs db !! i = Some row) /\ j_id row = job /\
  Jobs.active_capability caller hash now row = true.

Lemma holds_leases db caller job header now row hash :
  holds_lease db caller job header now row hash -> leases_job db caller job header now.
Proof.
  intros (Hh & (i & Hi) & Hj & Ha). exists i, row, hash. unfold Jobs.active_capability in Ha. bool_prop.
  split_and!; try done. rewrite H2. by apply Z.leb_le.
Qed.

Lemma active_row_admits caller hash now j :
  Jobs.active_capability caller hash now j = true ->
  capability_admits {| lf_worker_id := j_worker_id j; lf_capability_hash := hash;
                       lf_lease_expires_at := j_lease_expires_at j; lf_state := j_state j |} caller hash now = true /\
  legacy_kind (j_kind j) = true.
Proof.
  unfold Jobs.active_capability, capability_admits, Jobs.legacy_kind, LEGACY_RUNTIME_KINDS. cbn. intros H. bool_prop.
  repeat match goal with H : _ = Some _ |- _ => rewrite H | H : _ = Leased |- _ => rewrite H end.
  rewrite !bool_decide_eq_true_2 by done. cbn. rewrite (proj2 (Z.leb_le _ _)) by done. split; [done|].
  match goal with H : j_kind j ∈ _ |- _ => apply elem_of_cons in H as [->|H]; [done|];
    apply list_elem_of_singleton in H as ->; done end.
Qed.

(** The check, exactly.  Capabilities are unique among jobs. *)
Lemma authorize_for_job_exact worker header job now st :
  Inv (h_db (st_handle st)) ->
  (exists row hash, holds_lease (h_db (st_handle st)) (aw_id worker) job header now row hash /\
     authorize_for_job blake3 worker header job now st = (Ok {| aj_row := row; aj_capability_hash := hash |}, st)) \/
  ((forall row hash, ~ holds_lease (h_db (st_handle st)) (aw_id worker) job header now row hash) /\
   authorize_for_job blake3 worker header job now st = (Err FORBIDDEN, st)).
Proof.
  intros Hi. unfold authorize_for_job, authorize, holds_lease.
  destruct (parse_capability_value blake3 header) as [hash|] eqn:Eh; [|right; split; [by intros ? ? [? _]|done]].
  unfold mbind, server_bind, or_fail, lift, on_handle, or_status, lift, Jobs.get_active_by_capability_hash.
  cbn [ok_or]. rewrite with_conn_first. cbn [map_err].
  replace (st <|st_handle := st_handle st|>) with st by (by destruct st).
  destruct (head _) as [row|] eqn:Hr.
  2: { right. split; [|done]. intros row hash' ([= <-] & (i & Hrow) & _ & Ha).
       pose proof (proj1 (head_select_None _ _) Hr i row Hrow). congruence. }
  apply head_select_Some in Hr as (Ha & i & Hrow). cbn [ok_or].
  destruct (active_row_admits _ _ _ _ Ha) as [-> Hk]. cbn [negb]. unfold mret at 1 3, server_ret at 1 3. cbn [aj_row].
  rewrite Hk. cbn [negb]. rewrite orb_false_r.
  destruct (Z.eqb_spec (j_id row) job) as [E|E]; cbn [negb].
  - left. exists row, hash. split; [|done]. split_and!; eauto.
  - right. split; [|done]. intros row' hash' ([= <-] & (i' & Hrow') & Ej & Ha'). apply E.
    pose proof (g_unique _ _ Hi) as Hu. unfold jobs_unique in Hu. rewrite !andb_true_iff in Hu. destruct Hu as [[Hu _] _].
    rewrite unique_on_true in Hu. unfold Jobs.active_capability in Ha, Ha'. bool_prop.
    assert (i = i') as -> by (by eapply (Hu i i' row row' hash)). rewrite Hrow in Hrow'. by simplify_eq.
Qed.

(** The lease requests with a body the handlers accept. *)
Definition well_posed (req : Request) : bool :=
  match req with
  | PostHeartbeat _ _ (Ok version) =>
      match version with Some v => v =? PROTOCOL_VERSION | None => true end
  | PostFindings _ _ (Ok (v, _)) | PostVerdict _ _ (Ok (v, _)) => v =? PROTOCOL_VERSION
  | PostLlmFinding _ _ (Ok (input, _)) => li_protocol_version input =? PROTOCOL_VERSION
  | PostComplete _ _ (Ok req) => cr_protocol_version req =? PROTOCOL_VERSION
  | _ => false
  end.

Definition target_of (req : Request) : Z * option bytes :=
  match req with
  | PostHeartbeat job c _ | PostFindings job c _ | PostLlmFinding job c _ | PostVerdict job c _
  | PostComplete job c _ => (job, c)
  | _ => (0, None)
  end.

(** C11: capability denials are uniform.  A well-formed heartbeat, submission,
    verdict or completion (its body decodes and names the protocol version of
    the server) whose caller holds no live lease of the job in its path, of any
    kind, by its own row and the token it presents, is answered 403 and has no
    effect: an unknown job, another worker's job, an expired or finished lease
    and a missing or malformed token cannot be told apart. *)
Theorem capability_denials_are_uniform gap delivery authed now req st :
  let h := exec_all phase_tail (gap 0%nat) (st_handle st) in
  well_posed req = true -> Inv (h_db h) ->
  ~ leases_job (h_db h) (aw_id authed) (target_of req).1 (target_of req).2 now ->
  handler category phase_tail o blake3 cert_fingerprint cfg gap delivery authed now req st =
    (Err FORBIDDEN, st <|st_handle := h|>).
Proof.
  intros h Hwp Hi Hno.
  assert (authorize_for_job blake3 authed (target_of req).2 (target_of req).1 now (st <|st_handle := h|>) =
    (Err FORBIDDEN, st <|st_handle := h|>)) as Hden.
  { destruct (authorize_for_job_exact authed (target_of req).2 (target_of req).1 now (st <|st_handle := h|>))
      as [(row & hash & Hh & _)|[_ H]]; [done|by destruct Hno; eapply holds_leases|done]. }
  subst h. destruct req as [| | | | | | | | | | | | | | | | | | |job c [version|]|job c [[v batch]|]|job c [[input idn]|]
    |job c [[v verdict]|]|job c [creq|]| |]; try done; cbn [well_posed target_of fst snd] in *.
  all: cbn [handler]; unfold fmap, server_fmap, heartbeat, Server.submit_findings, submit_llm_finding,
    Server.submit_verdict, Server.complete, check_version, lift; unfold mbind, server_bind; cbn [fst snd].
  1: destruct version as [v|]; [rewrite Hwp|]; unfold others, mret at 1, server_ret at 1; by rewrite Hden.
  all: rewrite Hwp; unfold others; by rewrite Hden.
Qed.

End Denials.

(** Another worker presents the token of the scan that is leased to worker 1. *)
Definition stranger : AuthedWorker := {| aw_worker := {|
  w_id := 5; w_name := lit "w5"; w_kind := KindWorker; w_cert_fingerprint := [5]; w_created_at := 0;
  w_last_seen_at := None; w_revoked_at := None |} |}.

Lemma capability_denials_are_uniform_witness :
  let st := {| st_handle := handle_after (scanning true None); st_budgets := ∅;
               st_world := {| w_sent := []; w_mail := [] |}; st_wakeups := 0 |} in
  (exists row, holds_lease (fun _ => [1]) (h_db (st_handle st)) 1 1 (Some (replicate 43 65)) 4 row [1]) /\
  handler ascii_category no_phase obliging (fun _ => [1]) (fun b => b) plain_settings (fun _ => []) (fun _ => [])
    stranger 4 (PostHeartbeat 1 (Some (replicate 43 65)) (Ok None)) st = (Err FORBIDDEN, st).
Proof.
  intros st. split.
  - destruct (jobs (h_db (st_handle st)) !! 1) as [row|] eqn:E; [|vm_compute in E; discriminate].
    exists row. split_and!; [vm_compute; reflexivity|by eexists|..].
    + apply (row_value _ _ _ _ _ E). vm_compute. reflexivity.
    + apply (row_value _ _ _ (Jobs.active_capability 1 [1] 4) _ E). vm_compute. reflexivity.
  - apply (capability_denials_are_uniform ascii_category no_phase obliging (fun _ => [1]) (fun b => b) plain_settings
      (fun _ => []) (fun _ => []) stranger 4 (PostHeartbeat 1 (Some (replicate 43 65)) (Ok None)) st);
      [reflexivity|apply handle_after_Inv|].
    intros (i & row & hash & _ & Hi & _ & Hw & _).
    apply (rows_check _ (fun j => negb (sql_eq (j_worker_id j) 5))) in Hi; [|vm_compute; reflexivity].
    change (aw_id stranger) with 5 in Hw. rewrite Hw in Hi. discriminate Hi.
Defined.
