(* ===== verification/AdmissionPolicy.v ===== *)
(** * Admission policy ([loupe-storage/src/admission_policy.rs], [admission.rs])

    The frozen version-2 policy of a campaign, the priority a piece of work is
    accepted with, and the choice of the capacity pool that pays for a job: a
    general pool and two reserves, one for urgent and one for verification
    work. *)

From S2P Require Import Prelude Domain StateMachine Vocabulary SchedPolicy Store.
From Stdlib Require Import ZArith Lia.
From stdpp Require Import base list strings.
Local Open Scope Z_scope.

Definition PRIORITY_POLICY_VERSION : Z := 1.

Record CampaignPolicyV2 := {
  v2_version : Z;
  v2_survey_units_per_job : Z;
  v2_survey_deadline_seconds : Z;
  v2_survey_submit_margin_seconds : Z;
  v2_drilldown_deadline_seconds : Z;
  v2_drilldown_submit_margin_seconds : Z;
  v2_verify_deadline_seconds : Z;
  v2_verify_submit_margin_seconds : Z;
  v2_max_attempts : Z;
  v2_retry_backoff_base_seconds : Z;
  v2_retry_backoff_cap_seconds : Z;
  v2_campaign_deadline_seconds : Z;
  v2_campaign_max_jobs : Z;
  v2_survey_token_budget : option Z;
  v2_drilldown_token_budget : option Z;
  v2_verify_token_budget : option Z;
  v2_max_units_per_survey : Z;
  v2_max_leads_per_survey : Z;
  v2_max_sibling_leads_per_drilldown : Z;
  v2_campaign_urgent_reserve : Z;
  v2_campaign_verification_reserve : Z;
  v2_priority_policy_version : Z;
}.

Definition campaign_policy_v2_default : CampaignPolicyV2 :=
  let execution := campaign_policy_default in {|
  v2_version := 2;
  v2_survey_units_per_job := cp_survey_units_per_job execution;
  v2_survey_deadline_seconds := cp_survey_deadline_seconds execution;
  v2_survey_submit_margin_seconds := cp_survey_submit_margin_seconds execution;
  v2_drilldown_deadline_seconds := cp_drilldown_deadline_seconds execution;
  v2_drilldown_submit_margin_seconds := cp_drilldown_submit_margin_seconds execution;
  v2_verify_deadline_seconds := cp_verify_deadline_seconds execution;
  v2_verify_submit_margin_seconds := cp_verify_submit_margin_seconds execution;
  v2_max_attempts := cp_max_attempts execution;
  v2_retry_backoff_base_seconds := cp_retry_backoff_base_seconds execution;
  v2_retry_backoff_cap_seconds := cp_retry_backoff_cap_seconds execution;
  v2_campaign_deadline_seconds := cp_campaign_deadline_seconds execution;
  v2_campaign_max_jobs := cp_campaign_max_jobs execution;
  v2_survey_token_budget := cp_survey_token_budget execution;
  v2_drilldown_token_budget := cp_drilldown_token_budget execution;
  v2_verify_token_budget := cp_verify_token_budget execution;
  v2_max_units_per_survey := 32;
  v2_max_leads_per_survey := 16;
  v2_max_sibling_leads_per_drilldown := 4;
  v2_campaign_urgent_reserve := 4;
  v2_campaign_verification_reserve := 4;
  v2_priority_policy_version := PRIORITY_POLICY_VERSION;
|}.

(** [admission_policy::invalid] *)
Definition invalid_policy : Error := ConflictError CCampaignPolicy.

(** The execution-only view that shares deadline and retry validation. *)
Definition execution (p : CampaignPolicyV2) : CampaignPolicy := {|
  cp_version := 1;
  cp_survey_units_per_job := v2_survey_units_per_job p;
  cp_survey_deadline_seconds := v2_survey_deadline_seconds p;
  cp_survey_submit_margin_seconds := v2_survey_submit_margin_seconds p;
  cp_drilldown_deadline_seconds := v2_drilldown_deadline_seconds p;
  cp_drilldown_submit_margin_seconds := v2_drilldown_submit_margin_seconds p;
  cp_verify_deadline_seconds := v2_verify_deadline_seconds p;
  cp_verify_submit_margin_seconds := v2_verify_submit_margin_seconds p;
  cp_max_attempts := v2_max_attempts p;
  cp_retry_backoff_base_seconds := v2_retry_backoff_base_seconds p;
  cp_retry_backoff_cap_seconds := v2_retry_backoff_cap_seconds p;
  cp_campaign_handoff_reserve := 0;
  cp_campaign_deadline_seconds := v2_campaign_deadline_seconds p;
  cp_campaign_max_jobs := v2_campaign_max_jobs p;
  cp_survey_token_budget := v2_survey_token_budget p;
  cp_drilldown_token_budget := v2_drilldown_token_budget p;
  cp_verify_token_budget := v2_verify_token_budget p;
|}.

Definition v2_validate (p : CampaignPolicyV2) : result Error unit :=
  _ ← SchedPolicy.validate (execution p);
  if negb (v2_version p =? 2) ||
     negb (v2_priority_policy_version p =? PRIORITY_POLICY_VERSION) ||
     (v2_max_units_per_survey p =? 0) ||
     (v2_max_leads_per_survey p =? 0) ||
     (v2_max_sibling_leads_per_drilldown p =? 0) ||
     (v2_campaign_urgent_reserve p <? 0) ||
     (v2_campaign_verification_reserve p <? 0) ||
     match checked_add (v2_campaign_urgent_reserve p) (v2_campaign_verification_reserve p) with
     | None => true
     | Some sum => v2_campaign_max_jobs p <=? sum
     end
  then Err invalid_policy else Ok tt.

Definition v2_phase (p : CampaignPolicyV2) (kind : JobKind) : result Error PhasePolicy :=
  SchedPolicy.phase (execution p) kind.

Definition v2_retry_delay (p : CampaignPolicyV2) (attempt : Z) : Z := SchedPolicy.retry_delay (execution p) attempt.

(** [sequence] is a [u64]. *)
Definition logical_delay (p : CampaignPolicyV2) (sequence : Z) : result Error Z :=
  _ ← v2_validate p;
  if sequence =? 0 then Err invalid_policy
  else
    let exponent := if sequence - 1 <=? u32_max then sequence - 1 else u32_max in
    let multiplier := match checked_pow 2 exponent with Some m => m | None => i64_max end in
    Ok (Z.min (saturating_mul (v2_retry_backoff_base_seconds p) multiplier) (v2_retry_backoff_cap_seconds p)).

Definition logical_not_before (p : CampaignPolicyV2) (now sequence : Z) : result Error Z :=
  delay ← logical_delay p sequence;
  match checked_add now delay with Some at_ => Ok at_ | None => Err invalid_policy end.

Definition general_capacity (p : CampaignPolicyV2) : result Error Z :=
  _ ← v2_validate p;
  Ok (v2_campaign_max_jobs p - v2_campaign_urgent_reserve p - v2_campaign_verification_reserve p).

(** ** Priorities *)

Inductive Impact := ILow | IMedium | IHigh | ICritical.
Inductive Access := Privileged | Local_ | Remote.
Inductive Reachability := Plausible | Traced.

#[export] Instance Impact_eq_dec : EqDecision Impact. Proof. solve_decision. Defined.
#[export] Instance Access_eq_dec : EqDecision Access. Proof. solve_decision. Defined.
#[export] Instance Reachability_eq_dec : EqDecision Reachability. Proof. solve_decision. Defined.

Record AcceptedPriority := { ap_band : Band; ap_score : Z }.

Definition classify_priority (impact : Impact) (access : Access) (reachability : Reachability)
    (boundary_cited structurally_supported : bool) : AcceptedPriority :=
  if negb structurally_supported then {| ap_band := Normal; ap_score := 0 |}
  else
    let traced := bool_decide (reachability = Traced) in
    let high_impact := bool_decide (impact = IHigh) || bool_decide (impact = ICritical) in
    let band :=
      if high_impact && bool_decide (access = Remote) && traced && boundary_cited then Urgent
      else if high_impact && traced then BHigh
      else if bool_decide (impact = ILow) then Background
      else Normal in
    let score :=
      match impact with ILow => 0 | IMedium => 100 | IHigh => 200 | ICritical => 300 end +
      match access with Privileged => 0 | Local_ => 50 | Remote => 100 end +
      (if traced then 100 else 0) + (if boundary_cited then 50 else 0) in
    {| ap_band := band; ap_score := score |}.

(** ** Pools *)

Inductive Pool := PGeneral | PUrgent | PVerification.

#[export] Instance Pool_eq_dec : EqDecision Pool.
Proof. solve_decision. Defined.

Inductive WorkClass :=
| WPreparation | WSurvey | WDrilldown | WUrgentDrilldown | WVerification | WUrgentVerification.

#[export] Instance WorkClass_eq_dec : EqDecision WorkClass.
Proof. solve_decision. Defined.

Definition pools (class : WorkClass) : list Pool :=
  match class with
  | WPreparation | WSurvey | WDrilldown => [PGeneral]
  | WUrgentDrilldown => [PGeneral; PUrgent]
  | WVerification => [PGeneral; PVerification]
  | WUrgentVerification => [PGeneral; PVerification; PUrgent]
  end.

Record Spending := { sp_general : Z; sp_urgent : Z; sp_verification : Z }.

Definition spending_default : Spending := {| sp_general := 0; sp_urgent := 0; sp_verification := 0 |}.

Definition spending_total (s : Spending) : result Error Z :=
  match sum ← checked_add (sp_general s) (sp_urgent s); checked_add sum (sp_verification s) with
  | Some sum =>
      if (0 <=? sp_general s) && (0 <=? sp_urgent s) && (0 <=? sp_verification s)
      then Ok sum else Err (ConflictError CCampaignPolicy)
  | None => Err (ConflictError CCampaignPolicy)
  end.

Inductive CapacityRefusal := RCampaignBudget | RProtectedCapacity.

Inductive Selection := SPool (p : Pool) | SRefused (r : CapacityRefusal).

(** The spending column and the capacity of a pool. *)
Definition spent_on (s : Spending) (pool : Pool) : Z :=
  match pool with PGeneral => sp_general s | PUrgent => sp_urgent s | PVerification => sp_verification s end.

Definition choose_pool (policy : CampaignPolicyV2) (spent : Spending) (class : WorkClass)
    : result Error Selection :=
  general ← general_capacity policy;
  total ← spending_total spent;
  if (general <? sp_general spent) || (v2_campaign_urgent_reserve policy <? sp_urgent spent) ||
     (v2_campaign_verification_reserve policy <? sp_verification spent)
  then Err (ConflictError CCampaignPolicy)
  else if total =? v2_campaign_max_jobs policy then Ok (SRefused RCampaignBudget)
  else
    let available pool :=
      match pool with
      | PGeneral => sp_general spent <? general
      | PUrgent => sp_urgent spent <? v2_campaign_urgent_reserve policy
      | PVerification => sp_verification spent <? v2_campaign_verification_reserve policy
      end in
    match List.find available (pools class) with
    | Some pool => Ok (SPool pool)
    | None => Ok (SRefused RProtectedCapacity)
    end.

(** ** Laws *)

Definition capacity (p : CampaignPolicyV2) (pool : Pool) : Z :=
  match pool with
  | PGeneral => v2_campaign_max_jobs p - v2_campaign_urgent_reserve p - v2_campaign_verification_reserve p
  | PUrgent => v2_campaign_urgent_reserve p
  | PVerification => v2_campaign_verification_reserve p
  end.

(** Spending within the capacities. *)
Definition within_capacity (p : CampaignPolicyV2) (s : Spending) : Prop :=
  forall pool, 0 <= spent_on s pool <= capacity p pool.

Lemma v2_validate_Ok p :
  v2_validate p = Ok tt ->
  SchedPolicy.validate (execution p) = Ok tt /\ 0 <= v2_campaign_urgent_reserve p /\
  0 <= v2_campaign_verification_reserve p /\
  v2_campaign_urgent_reserve p + v2_campaign_verification_reserve p < v2_campaign_max_jobs p.
Proof.
  unfold v2_validate. intros ([] & Hv & H)%result_bind_Ok. split; [done|].
  destruct (checked_add _ _) as [sum|] eqn:E; [|by rewrite orb_true_r in H].
  apply to_i64_Some in E as [-> _]. destruct (_ || _) eqn:Eo in H; [done|]. bool_prop. lia.
Qed.

Lemma general_capacity_Ok p n :
  general_capacity p = Ok n <-> v2_validate p = Ok tt /\ n = capacity p PGeneral.
Proof.
  unfold general_capacity. rewrite result_bind_Ok. split.
  - intros ([] & Hv & [= <-]). done.
  - intros [Hv ->]. by exists tt.
Qed.

Lemma spending_total_Ok s n :
  spending_total s = Ok n ->
  0 <= sp_general s /\ 0 <= sp_urgent s /\ 0 <= sp_verification s /\
  n = sp_general s + sp_urgent s + sp_verification s.
Proof.
  unfold spending_total. destruct (checked_add (sp_general s) (sp_urgent s)) as [m|] eqn:E1; [|done]. cbn.
  destruct (checked_add m (sp_verification s)) as [k|] eqn:E2; [|done].
  apply to_i64_Some in E1 as [-> _], E2 as [-> _]. case_match; [|done]. intros [= <-]. bool_prop. lia.
Qed.

Lemma spending_total_complete s :
  0 <= sp_general s -> 0 <= sp_urgent s -> 0 <= sp_verification s ->
  sp_general s + sp_urgent s + sp_verification s <= i64_max ->
  spending_total s = Ok (sp_general s + sp_urgent s + sp_verification s).
Proof.
  intros Hg Hu Hv Hm. unfold spending_total, checked_add, to_i64.
  assert (in_i64 (sp_general s + sp_urgent s) = true) as ->
    by (apply in_i64_iff; unfold i64_min, i64_max in *; lia).
  cbn [mbind option_bind].
  assert (in_i64 (sp_general s + sp_urgent s + sp_verification s) = true) as ->
    by (apply in_i64_iff; unfold i64_min, i64_max in *; lia).
  rewrite !(proj2 (Z.leb_le _ _)) by lia. done.
Qed.

Lemma find_ext {A} (f g : A -> bool) l : (forall x, f x = g x) -> List.find f l = List.find g l.
Proof. intros H. induction l as [|x l IH]; cbn; [done|]. by rewrite H, IH. Qed.

(** A choice succeeds exactly for a valid policy and spending within the
    capacities; it is the budget refusal exactly when everything is spent, and
    otherwise the first pool of the class with room. *)
Lemma choose_pool_Ok policy spent class sel :
  v2_campaign_max_jobs policy <= i64_max ->
  choose_pool policy spent class = Ok sel <->
  v2_validate policy = Ok tt /\ within_capacity policy spent /\
  sel = (if sp_general spent + sp_urgent spent + sp_verification spent =? v2_campaign_max_jobs policy
         then SRefused RCampaignBudget
         else match List.find (fun pool => spent_on spent pool <? capacity policy pool) (pools class) with
              | Some pool => SPool pool
              | None => SRefused RProtectedCapacity
              end).
Proof.
  intros Hmax. unfold choose_pool. split.
  - intros (g & [Hv ->]%general_capacity_Ok & H)%result_bind_Ok.
    apply result_bind_Ok in H as (n & Ht & H). apply spending_total_Ok in Ht as (Hg & Hu & Hve & ->).
    destruct (_ || _) eqn:Eo in H; [done|]. bool_prop. split; [done|]. split.
    { intros []; cbn in *; lia. }
    case_match; [by injection H as <-|].
    rewrite (find_ext _ (fun pool => spent_on spent pool <? capacity policy pool)) in H by by intros [].
    by destruct (List.find _ _); injection H as <-.
  - intros (Hv & Hw & ->). pose proof (v2_validate_Ok _ Hv) as (_ & Hu & Hve & Hs).
    pose proof (Hw PGeneral) as Wg. pose proof (Hw PUrgent) as Wu. pose proof (Hw PVerification) as Wv. cbn in Wg, Wu, Wv.
    apply result_bind_Ok. eexists. split; [by apply general_capacity_Ok|]. apply result_bind_Ok. eexists. split.
    { apply spending_total_complete; lia. }
    cbn [capacity]. rewrite !(proj2 (Z.ltb_ge _ _)) by lia. cbn [orb]. case_match; [done|].
    rewrite (find_ext _ (fun pool => spent_on spent pool <? capacity policy pool)) by by intros [].
    by destruct (List.find _ _).
Qed.
