(* ===== verification/PhaseStore.v ===== *)
(** * Tables of the phase runtime ([migrations/v3/schema.rs], [v7/schema.rs])

    Campaigns review a repository in phases; a generation is the state they
    build of one commit.  This file holds the rows of the tables that control
    campaigns, the database [PhaseDb] of them, its transactions, and the
    helpers of [review.rs] and [ownership.rs] that the phase modules share.
    Rows hold decoded values; a policy or profile that the strict readers
    refuse is kept as such. *)

From S2P Require Import Prelude Sql Domain StateMachine Vocabulary SchedPolicy Store AdmissionPolicy.
From Stdlib Require Import ZArith Lia.
From stdpp Require Import base gmap list strings.
Local Open Scope Z_scope.

Definition WORKFLOW_CONTRACT_VERSION : Z := 2.

(** ** Documents *)

(** A stored JSON document, decoded. *)
Inductive json :=
| JNull
| JBool (b : bool)
| JNumber (n : Z)
| JString (s : str)
| JArray (l : list json)
| JObject (m : list (str * json)).

(** [v[key]]: null when the value is no object or has no such key. *)
Definition json_get (v : json) (key : str) : json :=
  match v with
  | JObject m => match List.find (fun kv => str_eqb kv.1 key) m with Some kv => kv.2 | None => JNull end
  | _ => JNull
  end.

(** ** Campaigns *)

Inductive Recipe := Bootstrap | Incremental | Reconciliation | Corroboration.
Inductive Trigger := TManual | TScheduled | TCompatScanApi | TReconciliation | TOperator.
Inductive CampaignState := CmActive | CmFinished | CmCancelled.
Inductive Coverage := CovComplete | CovPartial | CovUnknown.

#[export] Instance Recipe_eq_dec : EqDecision Recipe. Proof. solve_decision. Defined.
#[export] Instance Coverage_eq_dec : EqDecision Coverage. Proof. solve_decision. Defined.
#[export] Instance CampaignState_eq_dec : EqDecision CampaignState. Proof. solve_decision. Defined.

(** [effective_policy] with its digest: a version-1 or version-2 snapshot in
    canonical form under its digest, or anything else; [modern] says whether
    that is a JSON document with a version of at least 2. *)
Inductive StoredPolicy :=
| PolicyV1 (p : CampaignPolicy)
| PolicyV2 (p : CampaignPolicyV2)
| PolicyUnreadable (modern : bool).

Record Campaign := {
  cm_id : Z;
  cm_repo_id : Z;
  cm_recipe : Recipe;
  cm_trigger : Trigger;
  cm_requested_base_sha : option str;
  cm_target_commit_sha : str;
  cm_generation_id : option Z;
  cm_state : CampaignState;
  cm_terminal_reason : option str;
  cm_effective_policy : StoredPolicy;
  cm_deadline_at : option Z;
  cm_root_campaign_id : option Z;
  cm_continuation_of_campaign_id : option Z;
  cm_coverage_at_finish : option Coverage;
  cm_terminal_counts : option str;
  cm_created_at : Z;
  cm_finished_at : option Z;
}.

#[export] Instance eta_Campaign : Eta Campaign := fun r => {|
  cm_id := cm_id r; cm_repo_id := cm_repo_id r; cm_recipe := cm_recipe r; cm_trigger := cm_trigger r;
  cm_requested_base_sha := cm_requested_base_sha r; cm_target_commit_sha := cm_target_commit_sha r;
  cm_generation_id := cm_generation_id r; cm_state := cm_state r;
  cm_terminal_reason := cm_terminal_reason r; cm_effective_policy := cm_effective_policy r;
  cm_deadline_at := cm_deadline_at r; cm_root_campaign_id := cm_root_campaign_id r;
  cm_continuation_of_campaign_id := cm_continuation_of_campaign_id r;
  cm_coverage_at_finish := cm_coverage_at_finish r; cm_terminal_counts := cm_terminal_counts r;
  cm_created_at := cm_created_at r; cm_finished_at := cm_finished_at r |}.

(** ** Generations *)

Inductive GenerationState := Building | GActive | Retired.
Inductive CorroborationState := CorPending | CorSampled | CorSatisfied | CorContradicted.

#[export] Instance GenerationState_eq_dec : EqDecision GenerationState. Proof. solve_decision. Defined.
#[export] Instance CorroborationState_eq_dec : EqDecision CorroborationState. Proof. solve_decision. Defined.

(** The profile columns: whether the text is a generated profile at all, and
    the digest under which the strict reader [frozen_profile] accepts it. *)
Record StoredProfile := {
  pf_compatible : bool;
  pf_frozen : option bytes;
}.

Record Generation := {
  g_id : Z;
  g_repo_id : Z;
  g_predecessor_generation_id : option Z;
  g_commit_sha : str;
  g_state : GenerationState;
  g_workflow_contract_version : Z;
  g_profile_version : Z;
  g_generated_profile : option StoredProfile;
  g_inventory_digest : option bytes;
  g_coverage : Coverage;
  g_corroboration : CorroborationState;
  g_pending_follow_up : option json;
  g_created_at : Z;
  g_activated_at : option Z;
  g_retired_at : option Z;
  g_retired_reason : option str;
}.

#[export] Instance eta_Generation : Eta Generation := fun r => {|
  g_id := g_id r; g_repo_id := g_repo_id r; g_predecessor_generation_id := g_predecessor_generation_id r;
  g_commit_sha := g_commit_sha r; g_state := g_state r;
  g_workflow_contract_version := g_workflow_contract_version r; g_profile_version := g_profile_version r;
  g_generated_profile := g_generated_profile r; g_inventory_digest := g_inventory_digest r;
  g_coverage := g_coverage r; g_corroboration := g_corroboration r; g_pending_follow_up := g_pending_follow_up r;
  g_created_at := g_created_at r; g_activated_at := g_activated_at r; g_retired_at := g_retired_at r;
  g_retired_reason := g_retired_reason r |}.

(** [generation_manifests] *)
Record Manifest := { mf_expected_entry_count : Z; mf_received_entry_count : Z; mf_sealed_at : option Z }.

(** ** Work *)

Inductive ContinuationClass :=
| SourceAnalysisRemaining | AwaitingProofInfrastructure | ExternalDependency | RequiresSuccessor.

Inductive BlockReason :=
| BAwaitingProofInfrastructure | BExternalDependency | BRequiresSuccessor | BCampaignBudget | BProtectedCapacity
| BCampaignCancelled | BCampaignDeadline | BExecutionExhausted | BUnsupportedRecipe | BCompatibilityPolicy.

(** The constructors of [State]; [IAdmitted] is [Admitted]. *)
Inductive IntentState := Pending | Blocked | IAdmitted | Complete.
Inductive IntentKind := InitialHandoff | LogicalContinuation.

#[export] Instance ContinuationClass_eq_dec : EqDecision ContinuationClass. Proof. solve_decision. Defined.
#[export] Instance BlockReason_eq_dec : EqDecision BlockReason. Proof. solve_decision. Defined.
#[export] Instance IntentState_eq_dec : EqDecision IntentState. Proof. solve_decision. Defined.
#[export] Instance IntentKind_eq_dec : EqDecision IntentKind. Proof. solve_decision. Defined.

(** [BlockReason::as_str] *)
Definition block_reason_str (reason : BlockReason) : str :=
  match reason with
  | BAwaitingProofInfrastructure => lit "awaiting_proof_infrastructure"
  | BExternalDependency => lit "external_dependency"
  | BRequiresSuccessor => lit "requires_successor"
  | BCampaignBudget => lit "campaign_budget"
  | BProtectedCapacity => lit "protected_capacity"
  | BCampaignCancelled => lit "campaign_cancelled"
  | BCampaignDeadline => lit "campaign_deadline"
  | BExecutionExhausted => lit "execution_exhausted"
  | BUnsupportedRecipe => lit "unsupported_recipe"
  | BCompatibilityPolicy => lit "compatibility_policy"
  end.

(** A row of [lead_drilldown_intents] or [finding_verification_intents]; the
    table is keyed by the subject. *)
Record Intent := {
  it_repo_id : Z;
  it_generation_id : option Z;
  it_originating_job_id : Z;
  it_originating_campaign_id : Z;
  it_admission_campaign_id : Z;
  it_source_commit_sha : str;
  it_profile_version : Z;
  it_profile_digest : bytes;
  it_revision : Z;
  it_kind : IntentKind;
  it_continuation_class : option ContinuationClass;
  it_logical_sequence : Z;
  it_state : IntentState;
  it_not_before : option Z;
  it_block_reason : option BlockReason;
  it_admitted_job_id : option Z;
  it_priority : AcceptedPriority;
  it_created_at : Z;
  it_updated_at : Z;
}.

#[export] Instance eta_Intent : Eta Intent := fun r => {|
  it_repo_id := it_repo_id r; it_generation_id := it_generation_id r;
  it_originating_job_id := it_originating_job_id r; it_originating_campaign_id := it_originating_campaign_id r;
  it_admission_campaign_id := it_admission_campaign_id r; it_source_commit_sha := it_source_commit_sha r;
  it_profile_version := it_profile_version r; it_profile_digest := it_profile_digest r;
  it_revision := it_revision r; it_kind := it_kind r; it_continuation_class := it_continuation_class r;
  it_logical_sequence := it_logical_sequence r; it_state := it_state r; it_not_before := it_not_before r;
  it_block_reason := it_block_reason r; it_admitted_job_id := it_admitted_job_id r; it_priority := it_priority r;
  it_created_at := it_created_at r; it_updated_at := it_updated_at r |}.

(** The columns of [review_unit_holds], which is keyed by the unit, and of
    [survey_continuation_batches] that control work. *)
Record Hold := {
  ho_generation_id : Z;
  ho_producing_job_id : Z;
  ho_block_reason : option BlockReason;
  ho_pending_batch_id : option Z;
  ho_updated_at : Z;
}.

#[export] Instance eta_Hold : Eta Hold := fun r => {|
  ho_generation_id := ho_generation_id r; ho_producing_job_id := ho_producing_job_id r;
  ho_block_reason := ho_block_reason r; ho_pending_batch_id := ho_pending_batch_id r;
  ho_updated_at := ho_updated_at r |}.

Record Batch := {
  ba_id : Z;
  ba_repo_id : Z;
  ba_generation_id : Z;
  ba_campaign_id : Z;
  ba_producer_job_id : Z;
  ba_state : IntentState;
  ba_not_before : option Z;
  ba_block_reason : option BlockReason;
  ba_admitted_job_id : option Z;
  ba_accepted_band : Band;
}.

#[export] Instance eta_Batch : Eta Batch := fun r => {|
  ba_id := ba_id r; ba_repo_id := ba_repo_id r; ba_generation_id := ba_generation_id r; ba_campaign_id := ba_campaign_id r;
  ba_producer_job_id := ba_producer_job_id r; ba_state := ba_state r;
  ba_not_before := ba_not_before r; ba_block_reason := ba_block_reason r;
  ba_admitted_job_id := ba_admitted_job_id r; ba_accepted_band := ba_accepted_band r |}.

Inductive UnitStatus := UOpen | UDeferred | URetired.
#[export] Instance UnitStatus_eq_dec : EqDecision UnitStatus. Proof. solve_decision. Defined.

(** [un_ref_paths]: the paths of the references the strict reader accepts. *)
Record Unit_ := {
  un_id : Z;
  un_generation_id : Z;
  un_status : UnitStatus;
  un_defer_reason : option str;
  un_ref_paths : list str;
  un_stale : bool;
  un_assignment_epoch : Z;
  un_created_by_job_id : option Z;
}.

#[export] Instance eta_Unit : Eta Unit_ := fun r => {|
  un_id := un_id r; un_generation_id := un_generation_id r; un_status := un_status r;
  un_defer_reason := un_defer_reason r; un_ref_paths := un_ref_paths r; un_stale := un_stale r;
  un_assignment_epoch := un_assignment_epoch r; un_created_by_job_id := un_created_by_job_id r |}.

(** [job_assigned_review_units] *)
Record AssignedUnit := { au_job_id : Z; au_unit_id : Z; au_completed : bool; au_assignment_epoch : Z }.

Inductive UnitDisposition := DLeadCreated | DNoLeadFound | DNotApplicable | DNeedsFollowUp.
#[export] Instance UnitDisposition_eq_dec : EqDecision UnitDisposition. Proof. solve_decision. Defined.

(** [review_unit_results].  [ur_tagged]: the payload's format starts with
    ["loupe."]; [ur_epoch]: the assignment epoch the strict reader of payload,
    digest and projections accepts; [ur_inspected_paths]: the paths of the
    inspected references, [None] for a reference without one. *)
Record UnitResult := {
  ur_unit_id : Z;
  ur_produced_by_job_id : option Z;
  ur_commit_sha : str;
  ur_profile_version : Z;
  ur_disposition : UnitDisposition;
  ur_inspected_paths : list (option str);
  ur_tagged : bool;
  ur_epoch : option Z;
  ur_invalidated : bool;
  ur_corroborates_result_id : option Z;
  ur_corroborates_exclusion_id : option Z;
}.

#[export] Instance eta_UnitResult : Eta UnitResult := fun r => {|
  ur_unit_id := ur_unit_id r; ur_produced_by_job_id := ur_produced_by_job_id r; ur_commit_sha := ur_commit_sha r;
  ur_profile_version := ur_profile_version r; ur_disposition := ur_disposition r;
  ur_inspected_paths := ur_inspected_paths r; ur_tagged := ur_tagged r; ur_epoch := ur_epoch r;
  ur_invalidated := ur_invalidated r; ur_corroborates_result_id := ur_corroborates_result_id r;
  ur_corroborates_exclusion_id := ur_corroborates_exclusion_id r |}.

(** [generation_inventory], [generation_inventory_units] *)
Inductive InventoryDisposition := IMapped | IContext | IExcluded | IUnresolved.
#[export] Instance InventoryDisposition_eq_dec : EqDecision InventoryDisposition. Proof. solve_decision. Defined.

Record InventoryRow := {
  iv_id : Z;
  iv_generation_id : Z;
  iv_source_path : option str;
  iv_manifest_position : option Z;
  iv_disposition : InventoryDisposition;
}.

Record InventoryUnit := { iu_generation_id : Z; iu_entry_id : Z; iu_unit_id : Z }.

(** [job_checkpoints] *)
Record Checkpoint := { cp_job_id : Z; cp_operation : str }.

Inductive LeadStatus := LOpen | LDeferred | LClosed.
Inductive LeadDisposition := LPromoted | LRejected | LDuplicate | LHardening | LStale.
#[export] Instance LeadStatus_eq_dec : EqDecision LeadStatus. Proof. solve_decision. Defined.
#[export] Instance LeadDisposition_eq_dec : EqDecision LeadDisposition. Proof. solve_decision. Defined.

Record Lead := {
  le_id : Z;
  le_generation_id : Z;
  le_status : LeadStatus;
  le_disposition : option LeadDisposition;
  le_defer_reason : option str;
  le_retry_condition : option str;
  le_commit_sha : str;
  le_promoted_finding_id : option Z;
  le_created_by_job_id : option Z;
}.

#[export] Instance eta_Lead : Eta Lead := fun r => {|
  le_id := le_id r; le_generation_id := le_generation_id r; le_status := le_status r;
  le_disposition := le_disposition r; le_defer_reason := le_defer_reason r;
  le_retry_condition := le_retry_condition r; le_commit_sha := le_commit_sha r;
  le_promoted_finding_id := le_promoted_finding_id r; le_created_by_job_id := le_created_by_job_id r |}.

Record LeadObservation := { lo_lead_id : Z; lo_submitted_by_job_id : Z; lo_commit_sha : str }.

(** [finding_review_details] of a finding a drilldown promoted. *)
Record ReviewDetails := {
  rv_finding_id : Z;
  rv_repo_id : Z;
  rv_reviewed_commit_sha : str;
  rv_profile_version : Z;
  rv_profile_digest : bytes;
  rv_workflow_contract_version : Z;
  rv_origin_lead_id : option Z;
}.

#[export] Instance eta_ReviewDetails : Eta ReviewDetails := fun r => {|
  rv_finding_id := rv_finding_id r; rv_repo_id := rv_repo_id r; rv_reviewed_commit_sha := rv_reviewed_commit_sha r;
  rv_profile_version := rv_profile_version r; rv_profile_digest := rv_profile_digest r;
  rv_workflow_contract_version := rv_workflow_contract_version r; rv_origin_lead_id := rv_origin_lead_id r |}.

(** [job_admission_charges] *)
Record Charge := { ch_campaign_id : Z; ch_pool : Pool }.

(** ** The database *)

(** [prepared] holds, for the jobs where they are set, the columns
    [prepared_attempt], [prepared_capability_hash] and [prepared_at]. *)
Record Prepared := { pp_attempt : Z; pp_capability_hash : bytes; pp_at : Z }.

Record PhaseDb := {
  p_jobs : gmap Z JobRow;
  p_prepared : gmap Z Prepared;
  p_workers : gmap Z WorkerRow;
  p_findings : gmap Z FindingRow;
  p_campaigns : gmap Z Campaign;
  p_generations : gmap Z Generation;
  p_manifests : gmap Z Manifest;
  p_lead_intents : gmap Z Intent;
  p_finding_intents : gmap Z Intent;
  p_holds : gmap Z Hold;
  p_batches : gmap Z Batch;
  p_units : gmap Z Unit_;
  p_assigned : list AssignedUnit;
  p_results : gmap Z UnitResult;
  p_inventory : gmap Z InventoryRow;
  p_inventory_units : list InventoryUnit;
  p_checkpoints : list Checkpoint;
  p_leads : gmap Z Lead;
  p_observations : gmap Z LeadObservation;
  p_details : gmap Z ReviewDetails;
  p_verifications : gmap Z VerificationRow;
  p_spending : gmap Z Spending;
  p_charges : gmap Z Charge;
}.

#[export] Instance eta_PhaseDb : Eta PhaseDb := fun d => {|
  p_jobs := p_jobs d; p_prepared := p_prepared d; p_workers := p_workers d; p_findings := p_findings d;
  p_campaigns := p_campaigns d; p_generations := p_generations d; p_manifests := p_manifests d;
  p_lead_intents := p_lead_intents d; p_finding_intents := p_finding_intents d; p_holds := p_holds d;
  p_batches := p_batches d; p_units := p_units d; p_assigned := p_assigned d; p_results := p_results d;
  p_inventory := p_inventory d; p_inventory_units := p_inventory_units d; p_checkpoints := p_checkpoints d;
  p_leads := p_leads d; p_observations := p_observations d; p_details := p_details d;
  p_verifications := p_verifications d;
  p_spending := p_spending d; p_charges := p_charges d |}.

Definition empty_phase_db : PhaseDb := {|
  p_jobs := ∅; p_prepared := ∅; p_workers := ∅; p_findings := ∅; p_campaigns := ∅; p_generations := ∅;
  p_manifests := ∅; p_lead_intents := ∅; p_finding_intents := ∅; p_holds := ∅; p_batches := ∅; p_units := ∅;
  p_assigned := []; p_results := ∅; p_inventory := ∅; p_inventory_units := []; p_checkpoints := []; p_verifications := ∅;
  p_leads := ∅; p_observations := ∅; p_details := ∅; p_spending := ∅;
  p_charges := ∅ |}.

(** ** Transactions *)

Definition PTx (A : Type) : Type := PhaseDb -> result Error (A * PhaseDb).

#[export] Instance ptx_ret : MRet PTx := fun A a db => Ok (a, db).
#[export] Instance ptx_bind : MBind PTx := fun A B f m db =>
  match m db with Ok (a, db') => f a db' | Err e => Err e end.

Definition p_err {A} (e : Error) : PTx A := fun _ => Err e.
Definition p_read {A} (f : PhaseDb -> A) : PTx A := fun db => Ok (f db, db).
Definition p_lift {A} (r : result Error A) : PTx A := fun db =>
  match r with Ok a => Ok (a, db) | Err e => Err e end.

(** [.optional()?.ok_or(e)?] *)
Definition p_some {A} (f : PhaseDb -> option A) (e : Error) : PTx A := fun db =>
  match f db with Some a => Ok (a, db) | None => Err e end.

(** [if !b { return Err(e) }] *)
Definition p_ensure (b : bool) (e : Error) : PTx unit := if b then mret tt else p_err e.

(** [for x in xs { f(x)?; }] *)
Fixpoint p_for {A} (xs : list A) (f : A -> PTx unit) : PTx unit :=
  match xs with
  | [] => mret tt
  | x :: xs' => _ ← f x; p_for xs' f
  end.

(** [review::changed] of an [UPDATE] that matched [count] rows. *)
Definition changed (count : Z) (conflict : Conflict) : result Error unit :=
  if count =? 1 then Ok tt else Err (ConflictError conflict).

(** The database after a transaction: an error rolls it back. *)
Definition p_run {A} (m : PTx A) (db : PhaseDb) : PhaseDb :=
  match m db with Ok (_, db') => db' | Err _ => db end.

(** [UPDATE jobs ...] under the unique indexes of the table. *)
Definition p_update_jobs (P : JobRow -> bool) (f : JobRow -> JobRow) : PTx Z := fun db =>
  let t := sql_update P f (p_jobs db) in
  if jobs_unique t then Ok (sql_count P (p_jobs db), db <|p_jobs := t|>) else Err (Sqlite ConstraintViolation).

(** ** Ownership ([ownership.rs]) *)

(** [ownership::require] for a repository scope. *)
Definition require_repo (repo : Z) (subject : option Z) (relation : Ownership) : PTx unit :=
  p_lift (map_err OwnershipError (check (scope_repository repo) (subject_repository <$> subject) relation)).

Definition own_generation (repo generation : Z) (relation : Ownership) : PTx unit :=
  repo' ← p_read (fun db => g_repo_id <$> p_generations db !! generation);
  require_repo repo repo' relation.

Definition own_campaign (repo campaign : Z) (relation : Ownership) : PTx unit :=
  repo' ← p_read (fun db => cm_repo_id <$> p_campaigns db !! campaign);
  require_repo repo repo' relation.

(** [inventory::manifest_sealed_raw] *)
Definition manifest_sealed_raw (repo generation : Z) : PTx (option bool) :=
  _ ← own_generation repo generation OInventoryGeneration;
  p_read (fun db => (fun m => sql_some (mf_sealed_at m)) <$> p_manifests db !! generation).

(** [campaigns::get_scoped_raw], [generations::get_for_repo_raw] *)
Definition get_campaign (repo id : Z) (db : PhaseDb) : option Campaign :=
  c ← p_campaigns db !! id; if cm_repo_id c =? repo then Some c else None.

Definition get_generation (repo id : Z) (db : PhaseDb) : option Generation :=
  g ← p_generations db !! id; if g_repo_id g =? repo then Some g else None.

Definition get_job (repo id : Z) (db : PhaseDb) : option JobRow :=
  j ← p_jobs db !! id; if j_repo_id j =? repo then Some j else None.
