(* ===== verification/PhaseControl.v ===== *)
(** * Control of campaigns and their phases

    Modules [Admission] ([admission.rs]), [Generations] ([generations.rs]),
    [Campaigns] ([campaigns.rs]), [Intents] ([review_intents.rs] and the end of
    a job's work in [unit_holds.rs]), [Lifecycle] ([phase_lifecycle.rs],
    [review_authority/lifecycle.rs]) and [Preparation]
    ([admission_preparation.rs]) of [loupe-storage/src].  Every definition runs
    inside its caller's transaction. *)

From S2P Require Import Prelude Sql Domain StateMachine Vocabulary SchedPolicy Store Scope Jobs InventoryManifest AdmissionPolicy PhaseStore.
From Stdlib Require Import ZArith Lia.
From stdpp Require Import base gmap list strings.
Local Open Scope Z_scope.

(** [RepoScope::require_operator] *)
Definition operator (scope : RepoScope) : PTx unit := p_ensure (rs_operator scope) ScopeDenied.

(** [kind IN ('survey','drilldown','verify')] *)
Definition phase_kind (k : JobKind) : bool := bool_decide (k ∈ [Survey; Drilldown; Verify]).

Module Admission.

Definition get_spending_raw (repo campaign : Z) (db : PhaseDb) : option Spending :=
  s ← p_spending db !! campaign; _ ← get_campaign repo campaign db; Some s.

(** [ingress::admission_policy::policy] on the stored columns. *)
Definition stored_policy (sp : StoredPolicy) : result Error CampaignPolicyV2 :=
  match sp with
  | PolicyV2 p => match v2_validate p with Ok _ => Ok p | Err _ => Err (Sqlite (InvalidScalar 0)) end
  | _ => Err (Sqlite (InvalidScalar 0))
  end.

Definition load_policy_raw (repo campaign : Z) : PTx CampaignPolicyV2 :=
  c ← p_some (get_campaign repo campaign) (NotFound ECampaign campaign);
  p_lift (stored_policy (cm_effective_policy c)).

Definition campaign_state (repo campaign : Z) : PTx (CampaignState * option Z) :=
  c ← p_some (get_campaign repo campaign) (NotFound ECampaign campaign);
  mret (cm_state c, cm_deadline_at c).

(** [INSERT INTO campaign_admission_spending] *)
Definition insert_spending (campaign : Z) : PTx Spending := fun db =>
  Ok (spending_default, db <|p_spending := <[campaign := spending_default]> (p_spending db)|>).

Definition initialize_raw (repo campaign : Z) : PTx Spending :=
  st ← campaign_state repo campaign;
  policy ← load_policy_raw repo campaign;
  spent ← p_read (get_spending_raw repo campaign);
  match spent with
  | Some spent => _ ← p_lift (choose_pool policy spent WPreparation); mret spent
  | None =>
      nonempty ← p_read (fun db => sql_exists (fun j => sql_eq (j_campaign_id j) campaign) (p_jobs db));
      _ ← p_ensure (negb (nonempty || negb (bool_decide (st.1 = CmActive)))) (ConflictError CCampaignState);
      insert_spending campaign
  end.

Inductive Charged := Fresh (p : Pool) | Replayed (p : Pool) | Refused (r : CapacityRefusal).

Definition compatible (class : WorkClass) (kind : JobKind) (band : option Band) : bool :=
  let urgent := bool_decide (band = Some Urgent) in
  match class with
  | WPreparation | WSurvey => bool_decide (kind = Survey)
  | WDrilldown => bool_decide (kind = Drilldown) && negb urgent
  | WUrgentDrilldown => bool_decide (kind = Drilldown) && urgent
  | WVerification => bool_decide (kind = Verify) && negb urgent
  | WUrgentVerification => bool_decide (kind = Verify) && urgent
  end.

(** The seventh column of the query. *)
Definition live_lease (j : JobRow) (now : Z) : bool :=
  sql_some (j_worker_id j) &&
  match j_capability_hash j with Some h => Z.of_nat (length h) =? 32 | None => false end &&
  sql_ge (j_lease_expires_at j) now.

(** [{column}={column}+1] *)
Definition spend (s : Spending) (pool : Pool) : Spending :=
  match pool with
  | PGeneral => {| sp_general := sp_general s + 1; sp_urgent := sp_urgent s; sp_verification := sp_verification s |}
  | PUrgent => {| sp_general := sp_general s; sp_urgent := sp_urgent s + 1; sp_verification := sp_verification s |}
  | PVerification =>
      {| sp_general := sp_general s; sp_urgent := sp_urgent s; sp_verification := sp_verification s + 1 |}
  end.

(** The two statements that record a fresh charge; the primary key of
    [job_admission_charges] refuses a second one. *)
Definition record_charge (job campaign : Z) (pool : Pool) : PTx unit := fun db =>
  if sql_some (p_charges db !! job) then Err (Sqlite ConstraintViolation)
  else Ok (tt, db <|p_spending := alter (fun s => spend s pool) campaign (p_spending db)|>
                  <|p_charges := <[job := {| ch_campaign_id := campaign; ch_pool := pool |}]> (p_charges db)|>).

(** A preparation is charged as the first job of its campaign, before its
    lease; every other job under its first live lease. *)
Definition valid_state (class : WorkClass) (j : JobRow) (campaign : Z) (spent : Spending) (now : Z) : PTx bool :=
  if bool_decide (class = WPreparation) then
    if bool_decide (j_state j = Queued) && (j_attempts j =? 0) && sql_null (j_continuation_of_job_id j) then
      n ← p_lift (spending_total spent);
      if n =? 0
      then p_read (fun db => sql_count (fun j => sql_eq (j_campaign_id j) campaign) (p_jobs db) =? 1)
      else mret false
    else mret false
  else mret (bool_decide (j_state j = Leased) && (j_attempts j =? 1) && live_lease j now).

Definition charge_raw (repo job : Z) (class : WorkClass) (now : Z) : PTx Charged :=
  j ← p_some (get_job repo job) (NotFound EJob job);
  campaign ← p_lift (ok_or (j_campaign_id j) (ConflictError CCampaignPolicy));
  st ← campaign_state repo campaign;
  policy ← load_policy_raw repo campaign;
  let band := j_scheduling_band j in
  _ ← p_ensure (compatible class (j_kind j) band && sql_some band) (ConflictError CJobState);
  spent ← p_some (get_spending_raw repo campaign) (ConflictError CCampaignPolicy);
  _ ← p_lift (choose_pool policy spent class);
  existing ← p_read (fun db => ch ← p_charges db !! job;
                               if ch_campaign_id ch =? campaign then Some (ch_pool ch) else None);
  match existing with
  | Some pool =>
      if bool_decide (pool ∈ pools class) then mret (Replayed pool) else p_err (ConflictError CCampaignPolicy)
  | None =>
      _ ← p_ensure (bool_decide (st.1 = CmActive) &&
                    match st.2 with Some deadline => negb (deadline <=? now) | None => true end)
            (ConflictError CCampaignState);
      valid ← valid_state class j campaign spent now;
      _ ← p_ensure valid (ConflictError CJobState);
      sel ← p_lift (choose_pool policy spent class);
      match sel with
      | SPool pool => _ ← record_charge job campaign pool; mret (Fresh pool)
      | SRefused reason => mret (Refused reason)
      end
  end.

Definition charge (scope : RepoScope) (job : Z) (class : WorkClass) (now : Z) : PTx Charged :=
  _ ← operator scope; charge_raw (rs_repo_id scope) job class now.

Definition initialize (scope : RepoScope) (campaign : Z) : PTx Spending :=
  _ ← operator scope; initialize_raw (rs_repo_id scope) campaign.

End Admission.

Module Generations.

Record NewGeneration := {
  ng_predecessor_generation_id : option Z;
  ng_commit_sha : str;
  ng_workflow_contract_version : Z;
}.

(** The partial unique index [idx_generations_one_active]. *)
Definition active_key (g : Generation) : option Z :=
  if bool_decide (g_state g = GActive) then Some (g_repo_id g) else None.

(** [UPDATE review_generations ... WHERE generation_id AND repo_id AND P];
    [duplicate] is the error of the unique index. *)
Definition update (repo id : Z) (P : Generation -> bool) (f : Generation -> Generation) (duplicate : Error)
    (conflict : Conflict) : PTx unit := fun db =>
  let P g := (g_id g =? id) && (g_repo_id g =? repo) && P g in
  let t := sql_update P f (p_generations db) in
  if unique_on active_key t
  then match changed (sql_count P (p_generations db)) conflict with
       | Ok _ => Ok (tt, db <|p_generations := t|>)
       | Err e => Err e
       end
  else Err duplicate.

Definition live (g : Generation) : bool := bool_decide (g_state g = Building) || bool_decide (g_state g = GActive).

(** [INSERT INTO review_generations] with the defaults of the schema. *)
Definition insert (repo : Z) (new : NewGeneration) (now : Z) : PTx Z := fun db =>
  match next_rowid (p_generations db) with
  | None => Err (Sqlite RowIdsExhausted)
  | Some id =>
      let g := {| g_id := id; g_repo_id := repo;
                  g_predecessor_generation_id := ng_predecessor_generation_id new;
                  g_commit_sha := ng_commit_sha new; g_state := Building;
                  g_workflow_contract_version := ng_workflow_contract_version new; g_profile_version := 1;
                  g_generated_profile := None; g_inventory_digest := None; g_coverage := CovUnknown;
                  g_corroboration := CorPending; g_pending_follow_up := None; g_created_at := now;
                  g_activated_at := None; g_retired_at := None; g_retired_reason := None |} in
      Ok (id, db <|p_generations := <[id := g]> (p_generations db)|>)
  end.

Definition create (scope : RepoScope) (new : NewGeneration) (now : Z) : PTx Z :=
  _ ← operator scope;
  _ ← match ng_predecessor_generation_id new with
      | Some parent => own_generation (rs_repo_id scope) parent OGenerationPredecessor
      | None => mret tt
      end;
  insert (rs_repo_id scope) new now.

Definition retire_as (reason : str) (now : Z) (g : Generation) : Generation :=
  g <|g_state := Retired|> <|g_retired_reason := Some reason|> <|g_retired_at := Some now|>.

Definition retire_superseded_raw (repo id now : Z) : PTx unit :=
  update repo id (fun g => bool_decide (g_state g = GActive)) (retire_as (lit "superseded") now)
    (Sqlite ConstraintViolation) CGenerationState.

Definition activate_raw (repo id now : Z) : PTx unit :=
  successor ← p_some (get_generation repo id) (NotFound EGeneration id);
  refused ← (if bool_decide (g_state successor = Building)
             then sealed ← manifest_sealed_raw repo id; mret (bool_decide (sealed = Some false))
             else mret true);
  _ ← p_ensure (negb refused) (ConflictError CGenerationState);
  active ← p_read (fun db => head (sql_select (fun g => (g_repo_id g =? g_repo_id successor) &&
                                                        bool_decide (g_state g = GActive)) (p_generations db)));
  _ ← match active with
      | Some active =>
          _ ← p_ensure (bool_decide (g_predecessor_generation_id successor = Some (g_id active)))
                (ConflictError CGenerationPredecessor);
          retire_superseded_raw repo (g_id active) now
      | None => mret tt
      end;
  update repo id (fun g => bool_decide (g_state g = Building))
    (fun g => g <|g_state := GActive|> <|g_activated_at := Some now|>)
    (ConflictError CActiveGeneration) CGenerationState.

Definition activate (scope : RepoScope) (id now : Z) : PTx unit :=
  _ ← operator scope; activate_raw (rs_repo_id scope) id now.

Definition retire (scope : RepoScope) (id : Z) (reason : str) (now : Z) : PTx unit :=
  _ ← operator scope;
  update (rs_repo_id scope) id (fun g => bool_decide (g_state g = GActive)) (retire_as reason now)
    (Sqlite ConstraintViolation) CGenerationState.

Definition abandon (scope : RepoScope) (id : Z) (reason : str) (now : Z) : PTx unit :=
  _ ← operator scope;
  update (rs_repo_id scope) id (fun g => bool_decide (g_state g = Building)) (retire_as reason now)
    (Sqlite ConstraintViolation) CGenerationState.

Definition abandon_superseded_bootstrap (scope : RepoScope) (id now : Z) : PTx unit :=
  _ ← operator scope;
  update (rs_repo_id scope) id (fun g => bool_decide (g_state g = Building))
    (retire_as (lit "superseded bootstrap") now) (Sqlite ConstraintViolation) CGenerationState.

Definition set_profile (scope : RepoScope) (id version : Z) (profile : StoredProfile) : PTx unit :=
  _ ← operator scope;
  sealed ← manifest_sealed_raw (rs_repo_id scope) id;
  _ ← p_ensure (sql_null sealed) (ConflictError CGenerationState);
  update (rs_repo_id scope) id
    (fun g => live g && (0 <? version) && ((g_profile_version g <? version) || sql_null (g_generated_profile g)))
    (fun g => g <|g_profile_version := version|> <|g_generated_profile := Some profile|>)
    (Sqlite ConstraintViolation) CGenerationState.

Definition set_corroboration (scope : RepoScope) (id : Z) (state : CorroborationState) : PTx unit :=
  _ ← operator scope;
  update (rs_repo_id scope) id live
    (fun g => g <|g_corroboration := state|>
                <|g_coverage := if negb (bool_decide (state = CorSatisfied)) && bool_decide (g_coverage g = CovComplete)
                                then CovPartial else g_coverage g|>)
    (Sqlite ConstraintViolation) CGenerationState.

Definition set_pending_follow_up (scope : RepoScope) (id : Z) (follow_up : json) : PTx unit :=
  _ ← operator scope;
  update (rs_repo_id scope) id live (fun g => g <|g_pending_follow_up := Some follow_up|>)
    (Sqlite ConstraintViolation) CGenerationState.

End Generations.

Module Campaigns.

(** A submitted policy is the snapshot it decodes to. *)
Inductive CampaignPolicyInput :=
| Submitted (p : StoredPolicy)
| Resolved (p : CampaignPolicy)
| ResolvedV2 (p : CampaignPolicyV2).

(** [CampaignPolicyInput::canonical], read back. *)
Definition canonical (input : CampaignPolicyInput) : result Error StoredPolicy :=
  match input with
  | Submitted p => Ok p
  | Resolved p => Ok (PolicyV1 p)
  | ResolvedV2 p => _ ← v2_validate p; Ok (PolicyV2 p)
  end.

Record NewCampaign := {
  nc_recipe : Recipe;
  nc_trigger : Trigger;
  nc_requested_base_sha : option str;
  nc_target_commit_sha : str;
  nc_generation_id : option Z;
  nc_effective_policy : CampaignPolicyInput;
  nc_deadline_at : option Z;
  nc_root_campaign_id : option Z;
  nc_continuation_of_campaign_id : option Z;
}.

(** The partial unique index [idx_campaigns_one_active]. *)
Definition active_key (c : Campaign) : option Z :=
  if bool_decide (cm_state c = CmActive) then Some (cm_repo_id c) else None.

(** [INSERT INTO review_campaigns] *)
Definition insert (repo : Z) (new : NewCampaign) (policy : StoredPolicy) (now : Z) : PTx Z := fun db =>
  match next_rowid (p_campaigns db) with
  | None => Err (Sqlite RowIdsExhausted)
  | Some id =>
      let c := {| cm_id := id; cm_repo_id := repo; cm_recipe := nc_recipe new; cm_trigger := nc_trigger new;
                  cm_requested_base_sha := nc_requested_base_sha new;
                  cm_target_commit_sha := nc_target_commit_sha new; cm_generation_id := nc_generation_id new;
                  cm_state := CmActive; cm_terminal_reason := None; cm_effective_policy := policy; cm_deadline_at := nc_deadline_at new;
                  cm_root_campaign_id := nc_root_campaign_id new;
                  cm_continuation_of_campaign_id := nc_continuation_of_campaign_id new;
                  cm_coverage_at_finish := None; cm_terminal_counts := None; cm_created_at := now;
                  cm_finished_at := None |} in
      let t := <[id := c]> (p_campaigns db) in
      if unique_on active_key t then Ok (id, db <|p_campaigns := t|>) else Err (ConflictError CActiveCampaign)
  end.

Definition create (scope : RepoScope) (new : NewCampaign) (now : Z) : PTx Z :=
  let repo := rs_repo_id scope in
  let owned own relation (id : option Z) : PTx unit :=
    match id with Some id => own repo id relation | None => mret tt end in
  _ ← operator scope;
  _ ← owned own_generation OCampaignGeneration (nc_generation_id new);
  _ ← owned own_campaign OCampaignRoot (nc_root_campaign_id new);
  _ ← owned own_campaign OCampaignContinuation (nc_continuation_of_campaign_id new);
  policy ← p_lift (canonical (nc_effective_policy new));
  insert repo new policy now.

End Campaigns.

Module Intents.

Inductive Subject := SLead (id : Z) | SFinding (id : Z).

Definition subject_id (s : Subject) : Z := match s with SLead id | SFinding id => id end.

(** [Subject::table], [Subject::key] *)
Definition table (s : Subject) (db : PhaseDb) : gmap Z Intent :=
  match s with SLead _ => p_lead_intents db | SFinding _ => p_finding_intents db end.

Definition set_table (s : Subject) (t : gmap Z Intent) (db : PhaseDb) : PhaseDb :=
  match s with SLead _ => db <|p_lead_intents := t|> | SFinding _ => db <|p_finding_intents := t|> end.

Definition subject_phase (s : Subject) : JobKind := match s with SLead _ => Drilldown | SFinding _ => Verify end.

Definition get_subject_raw (repo : Z) (s : Subject) (db : PhaseDb) : option Intent :=
  i ← table s db !! subject_id s; if it_repo_id i =? repo then Some i else None.

Definition continuation_state (policy : CampaignPolicyV2) (class : ContinuationClass) (sequence now : Z)
    : result Error (IntentState * option Z * option BlockReason) :=
  let blocked reason := Ok (Blocked, None, Some reason) in
  match class with
  | SourceAnalysisRemaining =>
      if sequence <? 0 then Err (ConflictError CJobState)
      else at_ ← logical_not_before policy now sequence; Ok (Pending, Some at_, None)
  | AwaitingProofInfrastructure => blocked BAwaitingProofInfrastructure
  | ExternalDependency => blocked BExternalDependency
  | RequiresSuccessor => blocked BRequiresSuccessor
  end.

Record JobContext := {
  jc_job : JobRow;
  jc_generation : Z;
  jc_campaign : Z;
  jc_sha : str;
  jc_profile_version : Z;
  jc_profile_digest : bytes;
  jc_policy : CampaignPolicyV2;
}.

(** [ingress::profile::frozen_profile] *)
Definition frozen_profile (g : Generation) : result Error (option (Z * bytes)) :=
  match g_generated_profile g with
  | None => Ok None
  | Some p =>
      match pf_frozen p with
      | Some digest =>
          if (0 <? g_profile_version g) && (g_profile_version g <=? u32_max)
          then Ok (Some (g_profile_version g, digest)) else Err (Sqlite (InvalidScalar 1))
      | None => Err (Sqlite (InvalidScalar 2))
      end
  end.

(** The join of generation, campaign and sealed manifest. *)
Definition context_row (repo generation campaign : Z) (db : PhaseDb) : option Generation :=
  g ← get_generation repo generation db;
  c ← p_campaigns db !! campaign;
  m ← p_manifests db !! generation;
  if bool_decide (cm_generation_id c = Some generation) && (cm_repo_id c =? g_repo_id g) &&
     str_eqb (cm_target_commit_sha c) (g_commit_sha g) &&
     (g_workflow_contract_version g =? WORKFLOW_CONTRACT_VERSION) && Generations.live g &&
     sql_some (mf_sealed_at m) && (mf_received_entry_count m =? mf_expected_entry_count m)
  then Some g else None.

Definition job_context (repo id : Z) : PTx JobContext :=
  job ← p_some (get_job repo id) (NotFound EJob id);
  generation ← p_lift (ok_or (j_generation_id job) (ConflictError CGenerationState));
  campaign ← p_lift (ok_or (j_campaign_id job) (ConflictError CCampaignState));
  g ← p_some (context_row repo generation campaign) (ConflictError CGenerationState);
  _ ← p_ensure (is_git_oid (g_commit_sha g)) (Sqlite (InvalidScalar 0));
  profile ← p_lift (frozen_profile g);
  profile ← p_lift (ok_or profile (ConflictError CGenerationState));
  _ ← p_ensure (negb (match j_head_sha job with
                      | Some head => negb (str_eqb head (g_commit_sha g))
                      | None => false
                      end ||
                      negb (bool_decide (j_workflow_contract_version job = Some WORKFLOW_CONTRACT_VERSION))))
        (ConflictError CGenerationState);
  policy ← Admission.load_policy_raw repo campaign;
  mret {| jc_job := job; jc_generation := generation; jc_campaign := campaign; jc_sha := g_commit_sha g;
          jc_profile_version := profile.1; jc_profile_digest := profile.2; jc_policy := policy |}.

Definition producer (repo id : Z) : PTx JobContext :=
  p ← job_context repo id;
  _ ← p_ensure (bool_decide (j_head_sha (jc_job p) = Some (jc_sha p))) (ConflictError CGenerationState);
  mret p.

(** [INSERT INTO {table}] under its primary key and checks. *)
Definition insert_intent (s : Subject) (i : Intent) : PTx unit := fun db =>
  if sql_some (table s db !! subject_id s) || negb ((0 <=? ap_score (it_priority i)) && (0 <? it_profile_version i))
  then Err (Sqlite ConstraintViolation)
  else Ok (tt, set_table s (<[subject_id s := i]> (table s db)) db).

Definition initial_intent (p : JobContext) (priority : AcceptedPriority) (now : Z) : Intent := {|
  it_repo_id := j_repo_id (jc_job p); it_generation_id := Some (jc_generation p);
  it_originating_job_id := j_id (jc_job p); it_originating_campaign_id := jc_campaign p;
  it_admission_campaign_id := jc_campaign p; it_source_commit_sha := jc_sha p;
  it_profile_version := jc_profile_version p; it_profile_digest := jc_profile_digest p; it_revision := 1;
  it_kind := InitialHandoff; it_continuation_class := None; it_logical_sequence := 0; it_state := Pending;
  it_not_before := None; it_block_reason := None; it_admitted_job_id := None; it_priority := priority;
  it_created_at := now; it_updated_at := now |}.

Definition insert_initial (s : Subject) (p : JobContext) (priority : AcceptedPriority) (now : Z) : PTx unit :=
  _ ← p_ensure (negb ((550 <? ap_score priority) ||
                      negb (bool_decide (j_state (jc_job p) = Leased) || bool_decide (j_state (jc_job p) = Succeeded))))
        (ConflictError CJobState);
  insert_intent s (initial_intent p priority now).

(** [EXISTS(SELECT 1 FROM jobs WHERE key AND kind AND state IN('queued','leased'))] *)
Definition active_job (P : JobRow -> bool) (kind : JobKind) (db : PhaseDb) : bool :=
  sql_exists (fun j => P j && bool_decide (j_kind j = kind) && active_state (j_state j)) (p_jobs db).

Definition ensure_drilldown_intent_raw (repo lead producing_job : Z) (priority : AcceptedPriority) (now : Z)
    : PTx (option Intent) :=
  p ← producer repo producing_job;
  _ ← p_ensure (bool_decide (j_kind (jc_job p) = Survey) || bool_decide (j_kind (jc_job p) = Drilldown))
        (ConflictError CJobState);
  l ← p_some (fun db =>
        l ← p_leads db !! lead;
        if (le_generation_id l =? jc_generation p) && str_eqb (le_commit_sha l) (jc_sha p) &&
           (sql_eq (le_created_by_job_id l) producing_job ||
            sql_exists (fun o => (lo_lead_id o =? lead) && (lo_submitted_by_job_id o =? producing_job) &&
                                 str_eqb (lo_commit_sha o) (jc_sha p)) (p_observations db))
        then Some l else None) (ConflictError CLeadState);
  existing ← p_read (get_subject_raw repo (SLead lead));
  match existing with
  | Some existing => mret (Some existing)
  | None =>
      active ← p_read (active_job (fun j => sql_eq (j_assigned_lead_id j) lead) Drilldown);
      if negb (bool_decide (le_status l = LOpen)) || active then mret None
      else
        _ ← insert_initial (SLead lead) p priority now;
        p_read (get_subject_raw repo (SLead lead))
  end.

Definition ensure_verification_intent_raw (repo finding producing_job : Z) (priority : AcceptedPriority) (now : Z)
    : PTx (option Intent) :=
  p ← producer repo producing_job;
  _ ← p_ensure (bool_decide (j_kind (jc_job p) = Drilldown)) (ConflictError CJobState);
  valid ← p_read (fun db => bool_decide (is_Some (
        f ← p_findings db !! finding;
        d ← p_details db !! finding;
        origin ← rv_origin_lead_id d;
        l ← p_leads db !! origin;
        if (fr_repo_id f =? j_repo_id (jc_job p)) && (rv_repo_id d =? fr_repo_id f) &&
           str_eqb (rv_reviewed_commit_sha d) (jc_sha p) && (rv_profile_version d =? jc_profile_version p) &&
           bool_decide (rv_profile_digest d = jc_profile_digest p) &&
           (rv_workflow_contract_version d =? WORKFLOW_CONTRACT_VERSION) &&
           sql_eq (j_assigned_lead_id (jc_job p)) origin && (le_generation_id l =? jc_generation p) &&
           bool_decide (le_status l = LClosed) && bool_decide (le_disposition l = Some LPromoted) &&
           sql_eq (le_promoted_finding_id l) finding
        then Some tt else None)));
  _ ← p_ensure valid (ConflictError CFindingDetails);
  existing ← p_read (get_subject_raw repo (SFinding finding));
  match existing with
  | Some existing => mret (Some existing)
  | None =>
      eligible ← p_read (fun db =>
        match p_findings db !! finding with
        | Some f => bool_decide (fr_state f = Validating) &&
                    negb (active_job (fun j => sql_eq (j_target_finding_id j) finding) Verify db)
        | None => false
        end);
      if negb eligible then mret None
      else
        _ ← insert_initial (SFinding finding) p priority now;
        p_read (get_subject_raw repo (SFinding finding))
  end.

Definition pending_subject_eligible (s : Subject) (i : Intent) (db : PhaseDb) : bool :=
  let eligible continuation :=
    match s with
    | SLead id =>
        match l ← p_leads db !! id; g ← p_generations db !! le_generation_id l; Some (l, g) with
        | Some (l, g) => sql_eq (it_generation_id i) (le_generation_id l) && (g_repo_id g =? it_repo_id i) &&
                         (bool_decide (le_status l = LOpen) || (bool_decide (le_status l = LDeferred) && continuation))
        | None => false
        end
    | SFinding id =>
        match p_findings db !! id with
        | Some f => (fr_repo_id f =? it_repo_id i) && bool_decide (fr_state f = Validating)
        | None => false
        end
    end in
  match it_kind i with
  | InitialHandoff =>
      if (it_logical_sequence i =? 0) && sql_null (it_continuation_class i) then eligible false else false
  | LogicalContinuation =>
      if (0 <? it_logical_sequence i) && bool_decide (it_continuation_class i = Some SourceAnalysisRemaining)
      then eligible true else false
  end.

Definition validate_child (child : JobContext) (parent now : Z) : PTx unit :=
  let j := jc_job child in
  valid ← p_read (fun db => bool_decide (is_Some (
        j ← p_jobs db !! j_id j;
        cid ← j_campaign_id j;
        c ← p_campaigns db !! cid;
        gid ← j_generation_id j;
        g ← p_generations db !! gid;
        wid ← j_worker_id j;
        w ← p_workers db !! wid;
        if (j_repo_id j =? j_repo_id (jc_job child)) && (cm_repo_id c =? j_repo_id j) && (g_repo_id g =? j_repo_id j) &&
           (gid =? jc_generation child) && (cid =? jc_campaign child) && bool_decide (j_state j = Leased) &&
           (j_attempts j =? 1) &&
           match j_capability_hash j with Some h => Z.of_nat (length h) =? 32 | None => false end &&
           sql_ge (j_lease_expires_at j) now && bool_decide (cm_state c = CmActive) &&
           match cm_deadline_at c with Some d => now <? d | None => true end &&
           (bool_decide (g_state g = GActive) ||
            ((bool_decide (j_kind j = Drilldown) || bool_decide (j_kind j = Verify)) &&
             bool_decide (g_state g = Building) && sql_null (g_predecessor_generation_id g) &&
             bool_decide (cm_recipe c = Bootstrap))) &&
           sql_null (w_revoked_at w) && bool_decide (w_kind w = KindWorker)
        then Some tt else None)));
  p_ensure (valid && bool_decide (j_parent_job_id j = Some parent)) (ConflictError CAssignment).

(** The subject a job of a phase names. *)
Definition names_subject (s : Subject) (j : JobRow) : bool :=
  match s with SLead id => sql_eq (j_assigned_lead_id j) id | SFinding id => sql_eq (j_target_finding_id j) id end.

(** The fields of a context an intent pins. *)
Definition context_matches (s : Subject) (i : Intent) (p : JobContext) : bool :=
  bool_decide (j_kind (jc_job p) = subject_phase s) && (j_repo_id (jc_job p) =? it_repo_id i) &&
  sql_eq (it_generation_id i) (jc_generation p) && (jc_campaign p =? it_admission_campaign_id i) &&
  str_eqb (jc_sha p) (it_source_commit_sha i) && (jc_profile_version p =? it_profile_version i) &&
  bool_decide (jc_profile_digest p = it_profile_digest i) && names_subject s (jc_job p).

(** [UPDATE {table} SET .. WHERE {key} AND P], followed by [changed]. *)
Definition update_intent (s : Subject) (P : Intent -> bool) (f : Intent -> Intent) (conflict : Conflict) : PTx unit :=
  fun db => match table s db !! subject_id s with
  | Some i => if P i then Ok (tt, set_table s (<[subject_id s := f i]> (table s db)) db)
              else Err (ConflictError conflict)
  | None => Err (ConflictError conflict)
  end.

(** [UPDATE leads SET status='open' .. WHERE lead_id AND status='deferred'] *)
Definition reopen_lead (s : Subject) : PTx unit := fun db =>
  match s with
  | SLead id =>
      Ok (tt, db <|p_leads := alter (fun l => if bool_decide (le_status l = LDeferred)
                                              then l <|le_status := LOpen|> <|le_defer_reason := None|>
                                                     <|le_retry_condition := None|>
                                              else l) id (p_leads db)|>)
  | SFinding _ => Ok (tt, db)
  end.

Definition admit_subject_raw (repo : Z) (s : Subject) (revision child now : Z) : PTx Intent :=
  intent ← p_some (get_subject_raw repo s) (ConflictError CJobState);
  p ← job_context repo child;
  _ ← validate_child p (it_originating_job_id intent) now;
  _ ← p_ensure (context_matches s intent p &&
                bool_decide (j_scheduling_band (jc_job p) = Some (ap_band (it_priority intent))))
        (ConflictError CAssignment);
  if (it_revision intent =? revision) && bool_decide (it_state intent = IAdmitted) &&
     bool_decide (it_admitted_job_id intent = Some child)
  then mret intent
  else
    _ ← p_ensure (bool_decide (j_continuation_of_job_id (jc_job p) =
                    match it_kind intent with
                    | InitialHandoff => None
                    | LogicalContinuation => Some (it_originating_job_id intent)
                    end)) (ConflictError CAssignment);
    eligible ← p_read (pending_subject_eligible s intent);
    _ ← p_ensure eligible (ConflictError CAssignment);
    _ ← update_intent s
          (fun i => (it_revision i =? revision) && bool_decide (it_state i = Pending) && sql_null (it_block_reason i) &&
                    match it_not_before i with Some at_ => at_ <=? now | None => true end)
          (fun i => i <|it_state := IAdmitted|> <|it_admitted_job_id := Some child|> <|it_updated_at := now|>)
          CAssignment;
    _ ← reopen_lead s;
    p_some (get_subject_raw repo s) (ConflictError CJobState).

Definition check_finisher (s : Subject) (i : Intent) (p : JobContext) : result Error unit :=
  if bool_decide (it_state i = IAdmitted) && sql_eq (it_admitted_job_id i) (j_id (jc_job p)) &&
     bool_decide (j_state (jc_job p) = Succeeded) && context_matches s i p
  then Ok tt else Err (ConflictError CJobState).

Definition continue_subject_raw (repo : Z) (s : Subject) (finishing_job : Z) (class : ContinuationClass) (now : Z)
    : PTx Intent :=
  intent ← p_some (get_subject_raw repo s) (ConflictError CJobState);
  p ← producer repo finishing_job;
  _ ← p_lift (check_finisher s intent p);
  sequence ← p_lift (ok_or (checked_add (it_logical_sequence intent) 1) (ConflictError CJobState));
  revision ← p_lift (ok_or (checked_add (it_revision intent) 1) (ConflictError CJobState));
  st ← p_lift (continuation_state (jc_policy p) class sequence now);
  _ ← update_intent s
        (fun i => (it_revision i =? it_revision intent) && bool_decide (it_state i = IAdmitted) &&
                  sql_eq (it_admitted_job_id i) finishing_job)
        (fun i => i <|it_originating_job_id := finishing_job|> <|it_originating_campaign_id := jc_campaign p|>
                    <|it_admission_campaign_id := jc_campaign p|> <|it_revision := revision|>
                    <|it_kind := LogicalContinuation|> <|it_continuation_class := Some class|>
                    <|it_logical_sequence := sequence|> <|it_state := st.1.1|> <|it_not_before := st.1.2|>
                    <|it_block_reason := st.2|> <|it_admitted_job_id := None|> <|it_updated_at := now|>)
        CJobState;
  p_some (get_subject_raw repo s) (ConflictError CJobState).

Definition finish_subject_intent_raw (repo : Z) (s : Subject) (finishing_job now : Z) : PTx unit :=
  intent ← p_some (get_subject_raw repo s) (ConflictError CJobState);
  p ← producer repo finishing_job;
  _ ← p_lift (check_finisher s intent p);
  update_intent s
    (fun i => bool_decide (it_state i = IAdmitted) && sql_eq (it_admitted_job_id i) finishing_job)
    (fun i => i <|it_state := Complete|> <|it_not_before := None|> <|it_block_reason := None|> <|it_updated_at := now|>)
    CJobState.

(** [unit_holds::block_job_work] *)
Definition in_repo (repo generation : Z) (db : PhaseDb) : bool :=
  match p_generations db !! generation with Some g => g_repo_id g =? repo | None => false end.

Definition block_holds (repo job : Z) (reason : BlockReason) (now : Z) : PTx unit := fun db =>
  let P h := in_repo repo (ho_generation_id h) db &&
             ((ho_producing_job_id h =? job) ||
              match ho_pending_batch_id h with
              | Some b => sql_exists (fun ba => (ba_id ba =? b) && sql_eq (ba_admitted_job_id ba) job) (p_batches db)
              | None => false
              end) in
  Ok (tt, db <|p_holds := sql_update P (fun h => h <|ho_block_reason := Some reason|> <|ho_updated_at := now|>)
                            (p_holds db)|>).

Definition block_batches (repo job : Z) (reason : BlockReason) : PTx unit := fun db =>
  let P b := (sql_eq (ba_admitted_job_id b) job || (ba_producer_job_id b =? job)) && (ba_repo_id b =? repo) &&
             (bool_decide (ba_state b = Pending) || bool_decide (ba_state b = IAdmitted)) in
  Ok (tt, db <|p_batches := sql_update P (fun b => b <|ba_state := Blocked|> <|ba_not_before := None|>
                                                     <|ba_block_reason := Some reason|>) (p_batches db)|>).

Definition defer_units (repo job : Z) (reason : BlockReason) : PTx unit := fun db =>
  let P u := bool_decide (un_status u = UOpen) && in_repo repo (un_generation_id u) db &&
             (existsb (fun a => (au_job_id a =? job) && (au_unit_id a =? un_id u) && negb (au_completed a) &&
                                (au_assignment_epoch a =? un_assignment_epoch u)) (p_assigned db) ||
              (sql_eq (un_created_by_job_id u) job && (un_assignment_epoch u =? 0) &&
               negb (sql_exists (fun r => (ur_unit_id r =? un_id u) && negb (ur_invalidated r)) (p_results db)))) in
  Ok (tt, db <|p_units := sql_update P (fun u => u <|un_status := UDeferred|> <|un_defer_reason := Some (block_reason_str reason)|>)
                            (p_units db)|>).

(** The intents a job was admitted for. *)
Definition block_intents (job : Z) (reason : BlockReason) (now : Z) : PTx unit := fun db =>
  let P i := sql_eq (it_admitted_job_id i) job && bool_decide (it_state i = IAdmitted) in
  let f i := i <|it_state := Blocked|> <|it_not_before := None|> <|it_block_reason := Some reason|>
               <|it_updated_at := now|> in
  Ok (tt, db <|p_lead_intents := sql_update P f (p_lead_intents db)|>
             <|p_finding_intents := sql_update P f (p_finding_intents db)|>).

Definition terminal_reason (reason : BlockReason) : bool :=
  match reason with
  | BCampaignCancelled | BCampaignDeadline | BExecutionExhausted | BUnsupportedRecipe | BCompatibilityPolicy => true
  | _ => false
  end.

Definition block_job_work_raw (repo job : Z) (reason : BlockReason) (now : Z) : PTx unit :=
  j ← p_some (get_job repo job) (NotFound EJob job);
  _ ← p_ensure ((bool_decide (j_state j = Failed) || bool_decide (j_state j = Cancelled)) && terminal_reason reason)
        (ConflictError CJobState);
  _ ← block_intents job reason now;
  _ ← block_holds repo job reason now;
  _ ← block_batches repo job reason;
  defer_units repo job reason.

End Intents.

Module Lifecycle.

Inductive RetryOutcome := Requeued (eligible_at : Z) | RetryFailed.

Inductive FailureReason := SubmittedReason (reason : str) | LeaseExpired | ExecutionFailed.

#[global] Instance FailureReason_eq_dec : EqDecision FailureReason.
Proof. solve_decision. Defined.

Definition expose (e : FailureReason) : str :=
  match e with
  | SubmittedReason reason => reason
  | LeaseExpired => LEASE_EXPIRED_AFTER_MAX_ATTEMPTS_ERROR
  | ExecutionFailed => lit "phase execution failed"
  end.

Record RetryLimits := { rl_maximum : Z; rl_delay : Z }.

(** [ingress::lifecycle::retry_policy] on the stored columns. *)
Definition retry_policy (sp : StoredPolicy) (attempt : Z) : option RetryLimits :=
  match sp with
  | PolicyV2 p =>
      if is_ok (v2_validate p)
      then Some {| rl_maximum := v2_max_attempts p; rl_delay := v2_retry_delay p attempt |} else None
  | PolicyV1 p =>
      if is_ok (SchedPolicy.validate p)
      then Some {| rl_maximum := cp_max_attempts p; rl_delay := SchedPolicy.retry_delay p attempt |} else None
  | PolicyUnreadable _ => None
  end.

Record RetryContext := {
  rc_leased_phase : bool;
  rc_attempt : option Z;
  rc_campaign_active : option bool;
  rc_deadline : option Z;
  rc_policy : option RetryLimits;
  rc_compatible_payload : bool;
  rc_expired : bool;
}.

Section Payloads.
(** Whether a stored text is a JSON document within the payload limits. *)
Context (json_payload : str -> bool).

(** [ingress::lifecycle::recipe], [ingress::lifecycle::profile] *)
Definition recipe (r : option str) : bool := match r with Some raw => json_payload raw | None => true end.
Definition profile (g : option Generation) : bool :=
  match g ← g; g_generated_profile g with Some p => pf_compatible p | None => true end.

(** The query of [retry_or_fail], with its left joins. *)
Definition retry_context (j : JobRow) (now : Z) (db : PhaseDb) : RetryContext :=
  let c := id ← j_campaign_id j; get_campaign (j_repo_id j) id db in
  let g := id ← j_generation_id j; get_generation (j_repo_id j) id db in
  let attempt := if (0 <? j_attempts j) && (j_attempts j <=? u32_max) then Some (j_attempts j) else None in
  {| rc_leased_phase := bool_decide (j_state j = Leased) && phase_kind (j_kind j) && sql_some (j_campaign_id j);
     rc_attempt := attempt;
     rc_campaign_active := (fun c => bool_decide (cm_state c = CmActive)) <$> c;
     rc_deadline := c ← c; cm_deadline_at c;
     rc_policy := n ← attempt; c ← c; retry_policy (cm_effective_policy c) n;
     rc_compatible_payload := recipe (j_recipe j) && profile g;
     rc_expired := sql_lt (j_lease_expires_at j) now |}.

(** [prepared_attempt=NULL,prepared_capability_hash=NULL,prepared_at=NULL] *)
Definition clear_prepared (job : Z) : PTx unit := fun db => Ok (tt, db <|p_prepared := delete job (p_prepared db)|>).

Definition end_lease (j : JobRow) : JobRow :=
  j <|j_worker_id := None|> <|j_lease_expires_at := None|> <|j_capability_hash := None|>
    <|j_hard_deadline_at := None|> <|j_soft_deadline_at := None|> <|j_submit_by := None|>.

Definition requeue (repo job eligible : Z) (error : str) : PTx unit :=
  n ← p_update_jobs (fun j => (j_id j =? job) && (j_repo_id j =? repo) && bool_decide (j_state j = Leased))
        (fun j => end_lease j <|j_state := Queued|> <|j_eligible_at := Some eligible|> <|j_error := Some error|>);
  _ ← p_lift (changed n CJobState);
  clear_prepared job.

Definition terminalize (repo job now : Z) (state : JobState) (message : str) (reason : BlockReason) : PTx unit :=
  n ← p_update_jobs (fun j => (j_id j =? job) && (j_repo_id j =? repo) && sql_some (j_campaign_id j) &&
                              phase_kind (j_kind j) && active_state (j_state j))
        (fun j => end_lease j <|j_state := state|> <|j_error := Some message|> <|j_finished_at := Some now|>);
  _ ← p_lift (changed n CJobState);
  _ ← clear_prepared job;
  Intents.block_job_work_raw repo job reason now.

(** Why a failed attempt is not retried, or when it is. *)
Definition decide_retry (row : RetryContext) (now : Z) (error : FailureReason) : Z + BlockReason * str :=
  if negb (bool_decide (rc_campaign_active row = Some true)) then inr (BCampaignCancelled, lit "campaign inactive")
  else if match rc_deadline row with Some at_ => at_ <=? now | None => false end
  then inr (BCampaignDeadline, lit "campaign deadline")
  else if negb (rc_compatible_payload row) then inr (BCompatibilityPolicy, lit "incompatible stored review payload")
  else match rc_attempt row, rc_policy row with
       | Some attempt, Some policy =>
           if rl_maximum policy <=? attempt then inr (BExecutionExhausted, expose error)
           else match checked_add now (rl_delay policy) with
                | Some eligible => inl eligible
                | None => inr (BCompatibilityPolicy, lit "retry timestamp overflow")
                end
       | _, _ => inr (BCompatibilityPolicy, lit "incompatible CampaignPolicy")
       end.

Definition retry_or_fail (repo job now : Z) (error : FailureReason) : PTx RetryOutcome :=
  j ← p_some (get_job repo job) (NotFound EJob job);
  row ← p_read (retry_context j now);
  _ ← p_ensure (negb (negb (rc_leased_phase row) || (bool_decide (error = LeaseExpired) && negb (rc_expired row))))
        (ConflictError CJobState);
  match decide_retry row now error with
  | inl eligible => _ ← requeue repo job eligible (expose error); mret (Requeued eligible)
  | inr (reason, message) => _ ← terminalize repo job now Failed message reason; mret RetryFailed
  end.

End Payloads.

Definition cancel (scope : RepoScope) (job now : Z) : PTx bool :=
  _ ← operator scope;
  j ← p_some (get_job (rs_repo_id scope) job) (NotFound EJob job);
  if negb (sql_some (j_campaign_id j) && phase_kind (j_kind j)) then mret false
  else
    _ ← terminalize (rs_repo_id scope) job now Cancelled JOB_CANCELLED_BY_ADMIN_ERROR BCampaignCancelled;
    mret true.

Definition cancel_queued_reason (repo campaign now : Z) (error : str) (reason : BlockReason) : PTx Z :=
  ids ← p_read (fun db => j_id <$> sql_select (fun j => sql_eq (j_campaign_id j) campaign && (j_repo_id j =? repo) &&
                                                        bool_decide (j_state j = Queued) && phase_kind (j_kind j))
                                     (p_jobs db));
  _ ← p_for ids (fun job => terminalize repo job now Cancelled error reason);
  mret (Z.of_nat (length ids)).

Definition cancel_queued (repo campaign now : Z) (error : str) : PTx Z :=
  c ← p_some (get_campaign repo campaign) (NotFound ECampaign campaign);
  let reason := if match cm_deadline_at c with Some at_ => at_ <=? now | None => false end
                then BCampaignDeadline else BCampaignCancelled in
  cancel_queued_reason repo campaign now error reason.

Definition heartbeat (repo job now lease_seconds grace_seconds : Z) : PTx Z :=
  _ ← p_ensure (negb ((lease_seconds <=? 0) || (grace_seconds <=? 0) || (lease_seconds <? grace_seconds)))
        (ConflictError CCampaignPolicy);
  j ← p_some (fun db =>
        j ← get_job repo job db;
        if sql_some (j_campaign_id j) && bool_decide (j_state j = Leased) && sql_ge (j_lease_expires_at j) now
        then Some j else None) (ConflictError CJobState);
  until ← p_lift (ok_or
        (lease ← checked_add now lease_seconds;
         at_ ← j_hard_deadline_at j;
         hard ← checked_add at_ grace_seconds;
         if now <? Z.min lease hard then Some (Z.min lease hard) else None)
        (ConflictError CJobState));
  n ← p_update_jobs (fun j => (j_id j =? job) && (j_repo_id j =? repo) && bool_decide (j_state j = Leased))
        (fun j => j <|j_lease_expires_at := Some until|>);
  _ ← p_lift (changed n CJobState);
  mret until.

End Lifecycle.

Module Preparation.

(** [frozen_policy]: a snapshot of another version is a conflict, an
    undecodable one an error of its column. *)
Definition frozen_policy (c : Campaign) : PTx CampaignPolicyV2 :=
  match cm_effective_policy c with
  | PolicyV1 _ => p_err (ConflictError CCampaignPolicy)
  | _ => Admission.load_policy_raw (cm_repo_id c) (cm_id c)
  end.

(** The phase of a preparation, and whether its generation is already
    published. *)
Inductive SurveyRecipe := SBootstrap | SIncremental | SCoverage.
#[global] Instance SurveyRecipe_eq_dec : EqDecision SurveyRecipe. Proof. solve_decision. Defined.

Definition survey_recipe (c : Campaign) (db : PhaseDb) : result Error SurveyRecipe :=
  match cm_generation_id c with
  | Some generation =>
      let g := g ← get_generation (cm_repo_id c) generation db;
               if str_eqb (g_commit_sha g) (cm_target_commit_sha c) &&
                  (g_workflow_contract_version g =? WORKFLOW_CONTRACT_VERSION) then Some g else None in
      match g with
      | Some g =>
          if bool_decide (g_state g = GActive)
          then Ok (if bool_decide (cm_recipe c = Bootstrap) then SCoverage else SIncremental)
          else if sql_null (g_predecessor_generation_id g) && bool_decide (g_state g = Building) &&
                  bool_decide (cm_recipe c = Bootstrap)
          then Ok SBootstrap else Err (ConflictError CGenerationState)
      | None => Err (ConflictError CGenerationState)
      end
  | None => Ok (if bool_decide (cm_recipe c = Bootstrap) then SBootstrap else SIncremental)
  end.

Record NewJob := {
  nj_kind : JobKind;
  nj_band : Band;
  nj_score : Z;
  nj_parent : option Z;
  nj_continuation : option Z;
  nj_lead : option Z;
  nj_finding : option Z;
  nj_survey_recipe : SurveyRecipe;
}.

(** [INSERT INTO jobs] under the unique indexes and the parent's key. *)
Definition insert_row (row : Z -> JobRow) : PTx Z := fun db =>
  match next_rowid (p_jobs db) with
  | None => Err (Sqlite RowIdsExhausted)
  | Some id =>
      let t := <[id := row id]> (p_jobs db) in
      if jobs_unique t && fk (j_parent_job_id (row id)) (p_jobs db)
      then Ok (id, db <|p_jobs := t|>) else Err (Sqlite ConstraintViolation)
  end.

Section Insert.
(** The text of the fixed recipe documents: of a survey with its recipe, and
    of the other phases. *)
Context (recipe_json : JobKind -> SurveyRecipe -> str).

Definition insert_job (c : Campaign) (policy : CampaignPolicyV2) (new : NewJob) (now : Z) : PTx Z :=
  phase ← p_lift (v2_phase policy (nj_kind new));
  insert_row (fun id => {|
    j_id := id; j_repo_id := cm_repo_id c; j_kind := nj_kind new; j_state := Queued; j_incremental := false;
    j_since_sha := None; j_head_sha := None; j_parent_job_id := nj_parent new;
    j_target_finding_id := nj_finding new; j_worker_id := None; j_lease_expires_at := None; j_attempts := 0;
    j_enqueued_at := now; j_started_at := None; j_finished_at := None; j_error := None;
    j_campaign_id := Some (cm_id c); j_generation_id := cm_generation_id c; j_assigned_lead_id := nj_lead new;
    j_continuation_of_job_id := nj_continuation new; j_scheduling_band := Some (nj_band new);
    j_effective_priority := Some (nj_score new); j_eligible_at := Some now; j_soft_deadline_at := None;
    j_hard_deadline_at := None; j_submit_by := None; j_token_budget := token_budget phase;
    j_recipe := Some (recipe_json (nj_kind new) (nj_survey_recipe new));
    j_workflow_contract_version := Some WORKFLOW_CONTRACT_VERSION; j_capability_hash := None |}).

Definition create_preparation (scope : RepoScope) (campaign now : Z) : PTx Z :=
  _ ← operator scope;
  c ← p_some (get_campaign (rs_repo_id scope) campaign) (NotFound ECampaign campaign);
  policy ← frozen_policy c;
  _ ← p_ensure (negb ((now <? 0) ||
                      (sql_some (cm_generation_id c) && negb (is_git_oid (cm_target_commit_sha c))) ||
                      negb (bool_decide (cm_state c = CmActive)) ||
                      match cm_deadline_at c with Some d => d <=? now | None => false end ||
                      negb (bool_decide (cm_recipe c = Bootstrap) || bool_decide (cm_recipe c = Incremental))))
        (ConflictError CCampaignState);
  recipe ← p_read (survey_recipe c);
  recipe ← p_lift recipe;
  _ ← Admission.initialize_raw (rs_repo_id scope) campaign;
  id ← insert_job c policy
         {| nj_kind := Survey; nj_band := Normal; nj_score := 0; nj_parent := None; nj_continuation := None;
            nj_lead := None; nj_finding := None; nj_survey_recipe := recipe |} now;
  _ ← (if sql_some (cm_generation_id c) && negb (bool_decide (recipe = SBootstrap))
       then _ ← Intents.job_context (rs_repo_id scope) id; mret tt else mret tt);
  charged ← Admission.charge_raw (rs_repo_id scope) id WPreparation now;
  match charged with
  | Admission.Fresh _ => mret id
  | _ => p_err (ConflictError CCampaignPolicy)
  end.

End Insert.

End Preparation.
