(* ===== verification/CampaignWork.v ===== *)
(** * Coverage, unfinished work and the end of campaigns

    Modules [Cover] ([review_coverage.rs], [review_units::UNIT_COVERED], the
    rollup of [generations.rs]), [Work] ([campaign_work.rs]) and [Ending] (the
    summaries and terminal updates of [campaigns.rs]) of [loupe-storage/src]. *)

From S2P Require Import Prelude Sql Domain StateMachine Vocabulary SchedPolicy Store Scope Jobs InventoryManifest AdmissionPolicy PhaseStore PhaseControl.
From Stdlib Require Import ZArith Lia.
From stdpp Require Import base gmap list strings.
Local Open Scope Z_scope.

Module Cover.

(** [json_extract(c.effective_policy,'$.version')>=2] *)
Definition policy_modern (sp : StoredPolicy) : bool :=
  match sp with
  | PolicyV1 p => 2 <=? cp_version p
  | PolicyV2 p => 2 <=? v2_version p
  | PolicyUnreadable modern => modern
  end.

(** [managed_generation!] *)
Definition managed_generation (g : Generation) (db : PhaseDb) : bool :=
  sql_some (p_manifests db !! g_id g) ||
  sql_exists (fun c => (sql_eq (cm_generation_id c) (g_id g) ||
                        sql_exists (fun j => sql_eq (j_campaign_id j) (cm_id c) && sql_eq (j_generation_id j) (g_id g))
                          (p_jobs db)) &&
                       (sql_some (p_spending db !! cm_id c) || policy_modern (cm_effective_policy c)))
    (p_campaigns db) ||
  existsb (fun cp => match p_jobs db !! cp_job_id cp with
                     | Some j => sql_eq (j_generation_id j) (g_id g) &&
                                 (str_eqb (cp_operation cp) (lit "publish_profile") ||
                                  str_eqb (cp_operation cp) (lit "submit_unit_result"))
                     | None => false
                     end) (p_checkpoints db) ||
  sql_exists (fun r => ur_tagged r &&
                       match p_units db !! ur_unit_id r with Some u => un_generation_id u =? g_id g | None => false end)
    (p_results db).

(** [generation_ready!] *)
Definition generation_ready (g : Generation) (db : PhaseDb) : bool :=
  (1 <=? g_profile_version g) && (g_profile_version g <=? u32_max) &&
  match g_generated_profile g with Some p => sql_some (pf_frozen p) | None => false end &&
  (g_workflow_contract_version g =? 2) && is_git_oid (g_commit_sha g) &&
  match p_manifests db !! g_id g with
  | Some m => sql_some (mf_sealed_at m) && (mf_received_entry_count m =? mf_expected_entry_count m)
  | None => false
  end.

(** [GENERATION_READY] *)
Definition ready (g : Generation) (db : PhaseDb) : bool :=
  if managed_generation g db then generation_ready g db else true.

Definition live_job (job : Z) (db : PhaseDb) : bool :=
  match p_jobs db !! job with Some j => active_state (j_state j) | None => false end.

(** The survey that produced a result, under the unit's current assignment and
    with no other assignment alive. *)
Definition produced (g : Generation) (u : Unit_) (r : UnitResult) (db : PhaseDb) : bool :=
  match id ← ur_produced_by_job_id r; p_jobs db !! id with
  | Some producer =>
      bool_decide (j_kind producer = Survey) && (j_repo_id producer =? g_repo_id g) &&
      sql_eq (j_generation_id producer) (g_id g) && sql_eq (j_workflow_contract_version producer) 2 &&
      bool_decide (j_head_sha producer = Some (g_commit_sha g)) &&
      ((sql_eq (un_created_by_job_id u) (j_id producer) && (un_assignment_epoch u =? 0)) ||
       existsb (fun a => (au_job_id a =? j_id producer) && (au_unit_id a =? un_id u) &&
                         (au_assignment_epoch a =? un_assignment_epoch u)) (p_assigned db)) &&
      negb (existsb (fun other => (au_unit_id other =? un_id u) && negb (au_job_id other =? j_id producer) &&
                                  live_job (au_job_id other) db) (p_assigned db))
  | None => false
  end.

(** Every inspected reference is an entry of the manifest. *)
Definition inspected_listed (g : Generation) (r : UnitResult) (db : PhaseDb) : bool :=
  forallb (fun path => match path with
                       | Some path => sql_exists (fun i => (iv_generation_id i =? g_id g) && sql_some (iv_manifest_position i) &&
                                                           bool_decide (iv_source_path i = Some path)) (p_inventory db)
                       | None => false
                       end) (ur_inspected_paths r).

(** [ordinary_result!] for a set of dispositions. *)
Definition ordinary_result (dispositions : UnitDisposition -> bool) (g : Generation) (u : Unit_) (db : PhaseDb) : bool :=
  sql_exists (fun r =>
    (ur_unit_id r =? un_id u) && negb (ur_invalidated r) && str_eqb (ur_commit_sha r) (g_commit_sha g) &&
    (ur_profile_version r =? g_profile_version g) && sql_null (ur_corroborates_result_id r) &&
    sql_null (ur_corroborates_exclusion_id r) && dispositions (ur_disposition r) &&
    (if managed_generation g db
     then generation_ready g db && negb (un_stale u) &&
          (bool_decide (un_status u = UOpen) || bool_decide (un_status u = UDeferred)) &&
          sql_eq (ur_epoch r) (un_assignment_epoch u) && produced g u r db && inspected_listed g r db
     else true)) (p_results db).

Definition unit_covered : Generation -> Unit_ -> PhaseDb -> bool :=
  ordinary_result (fun d => match d with DLeadCreated | DNoLeadFound | DNotApplicable => true | DNeedsFollowUp => false end).
Definition unit_follow_up : Generation -> Unit_ -> PhaseDb -> bool :=
  ordinary_result (fun d => bool_decide (d = DNeedsFollowUp)).

Definition held (u : Unit_) (db : PhaseDb) : bool := sql_some (p_holds db !! un_id u).

(** [UNIT_NEEDS_WORK] *)
Definition unit_needs_work (g : Generation) (u : Unit_) (db : PhaseDb) : bool :=
  bool_decide (un_status u = UOpen) && negb (un_stale u) && negb (held u db) &&
  negb (existsb (fun a => (au_unit_id a =? un_id u) && live_job (au_job_id a) db) (p_assigned db)) &&
  negb (unit_covered g u db).

Record CoverageRollup := {
  cr_ready : bool;
  cr_missing_results : Z;
  cr_needs_follow_up : Z;
  cr_unresolved_inventory : Z;
}.

Definition complete (r : CoverageRollup) : bool :=
  cr_ready r && (cr_missing_results r =? 0) && (cr_needs_follow_up r =? 0) && (cr_unresolved_inventory r =? 0).

(** A unit of the generation without a covering result. *)
Definition uncovered (g : Generation) (u : Unit_) (db : PhaseDb) : bool :=
  (un_generation_id u =? g_id g) &&
  (bool_decide (un_status u = UOpen) || bool_decide (un_status u = UDeferred) || held u db) &&
  (held u db || negb (unit_covered g u db)).

(** An entry of a manifest that is unresolved, or mapped to no unit, or to one
    whose references do not name it. *)
Definition unresolved_entry (g : Generation) (i : InventoryRow) (db : PhaseDb) : bool :=
  let mappings := filter (fun m => iu_generation_id m = iv_generation_id i /\ iu_entry_id m = iv_id i) (p_inventory_units db) in
  (iv_generation_id i =? g_id g) && sql_some (iv_manifest_position i) &&
  (bool_decide (iv_disposition i = IUnresolved) ||
   (bool_decide (iv_disposition i = IMapped) &&
    (bool_decide (mappings = []) ||
     existsb (fun m => match p_units db !! iu_unit_id m with
                       | Some u => (un_generation_id u =? iu_generation_id m) &&
                                   negb (match iv_source_path i with
                                         | Some path => bool_decide (path ∈ un_ref_paths u)
                                         | None => false
                                         end)
                       | None => false
                       end) mappings))).

Definition rollup (g : Generation) (id : Z) (manifest : bool) (db : PhaseDb) : CoverageRollup := {|
  cr_ready := ready g db;
  cr_missing_results := sql_count (fun u => uncovered g u db) (p_units db);
  cr_needs_follow_up := sql_count (fun u => uncovered g u db && (held u db || unit_follow_up g u db)) (p_units db);
  cr_unresolved_inventory :=
    sql_count (fun i => if manifest then unresolved_entry g i db
                        else (iv_generation_id i =? id) && bool_decide (iv_disposition i = IUnresolved)) (p_inventory db) |}.

Definition coverage_rollup_raw (repo id : Z) : PTx CoverageRollup :=
  g ← p_some (get_generation repo id) (NotFound EGeneration id);
  sealed ← manifest_sealed_raw repo id;
  p_read (rollup g id (sql_some sealed)).

Definition set_coverage_raw (repo id : Z) (coverage : Coverage) : PTx unit :=
  refused ← (if bool_decide (coverage = CovComplete) then
               sealed ← manifest_sealed_raw repo id;
               if bool_decide (sealed = Some false) then mret true
               else r ← coverage_rollup_raw repo id; mret (negb (complete r))
             else mret false);
  _ ← p_ensure (negb refused) (ConflictError CCoverage);
  Generations.update repo id
    (fun g => Generations.live g && (negb (bool_decide (coverage = CovComplete)) || bool_decide (g_corroboration g = CorSatisfied)))
    (fun g => g <|g_coverage := coverage|>) (Sqlite ConstraintViolation) CCoverage.

Definition set_coverage (scope : RepoScope) (id : Z) (coverage : Coverage) : PTx unit :=
  _ ← operator scope; set_coverage_raw (rs_repo_id scope) id coverage.

End Cover.

Module Work.

(** Unfinished handoffs and batches of a campaign. *)
Definition of_campaign (repo campaign : Z) (i : Intent) : bool :=
  (it_admission_campaign_id i =? campaign) && (it_repo_id i =? repo).
Definition batch_of (repo campaign : Z) (b : Batch) : bool := (ba_campaign_id b =? campaign) && (ba_repo_id b =? repo).

Definition has_unfinished (repo campaign : Z) (db : PhaseDb) : bool :=
  let open_intent i := of_campaign repo campaign i && negb (bool_decide (it_state i = Complete)) in
  sql_exists open_intent (p_lead_intents db) || sql_exists open_intent (p_finding_intents db) ||
  sql_exists (fun b => batch_of repo campaign b && negb (bool_decide (ba_state b = Complete))) (p_batches db).

Inductive Source := SrcLead | SrcFinding | SrcExactBatch | SrcOrdinary.

Record PendingGroup := { pg_source : Source; pg_band : Band; pg_before_deadline : bool }.

Definition work_class (g : PendingGroup) : WorkClass :=
  match pg_source g, pg_band g with
  | SrcLead, Urgent => WUrgentDrilldown
  | SrcLead, _ => WDrilldown
  | SrcFinding, Urgent => WUrgentVerification
  | SrcFinding, _ => WVerification
  | _, _ => WSurvey
  end.

(** [?3 IS NULL OR not_before IS NULL OR not_before < ?3] *)
Definition before (deadline not_before : option Z) : bool :=
  match deadline, not_before with Some d, Some at_ => at_ <? d | _, _ => true end.

(** The members of a group of handoffs or batches. *)
Definition pending_intent (repo campaign : Z) (deadline : option Z) (band : Band) (flag : bool) (i : Intent) : bool :=
  of_campaign repo campaign i && bool_decide (it_state i = Pending) && bool_decide (ap_band (it_priority i) = band) &&
  Bool.eqb (before deadline (it_not_before i)) flag.
Definition pending_batch (repo campaign : Z) (deadline : option Z) (band : Band) (flag : bool) (b : Batch) : bool :=
  batch_of repo campaign b && bool_decide (ba_state b = Pending) && bool_decide (ba_accepted_band b = band) &&
  Bool.eqb (before deadline (ba_not_before b)) flag.

(** The units of the campaign's generation that need work; [g] and [c] of the
    joins are determined by the campaign. *)
Definition needs_work_of (repo campaign : Z) (P : Generation -> bool) (u : Unit_) (db : PhaseDb) : bool :=
  match c ← get_campaign repo campaign db; id ← cm_generation_id c; g ← get_generation repo id db; Some (id, g) with
  | Some (id, g) => (un_generation_id u =? id) && P g && Cover.unit_needs_work g u db
  | None => false
  end.

(** The groups of one relation, in the order of their names. *)
Definition bands_by_name : list Band := [Background; BHigh; Normal; Urgent].
Definition groups (source : Source) (members : Band -> bool -> bool) : list PendingGroup :=
  filter (fun g => members (pg_band g) (pg_before_deadline g) = true)
    (bands_by_name ≫= fun band =>
      (fun flag => {| pg_source := source; pg_band := band; pg_before_deadline := flag |}) <$> [false; true]).

Definition pending (repo campaign : Z) (deadline : option Z) (db : PhaseDb) : list PendingGroup :=
  groups SrcLead (fun band flag => sql_exists (pending_intent repo campaign deadline band flag) (p_lead_intents db)) ++
  groups SrcFinding (fun band flag => sql_exists (pending_intent repo campaign deadline band flag) (p_finding_intents db)) ++
  groups SrcExactBatch (fun band flag => sql_exists (pending_batch repo campaign deadline band flag) (p_batches db)) ++
  (if sql_exists (fun u => needs_work_of repo campaign (fun g => bool_decide (g_state g = GActive)) u db) (p_units db)
   then [{| pg_source := SrcOrdinary; pg_band := Normal; pg_before_deadline := true |}] else []).

Definition block_intent (reason : BlockReason) (now : Z) (i : Intent) : Intent :=
  i <|it_state := Blocked|> <|it_not_before := None|> <|it_block_reason := Some reason|> <|it_updated_at := now|>.
Definition block_batch (reason : BlockReason) (b : Batch) : Batch :=
  b <|ba_state := Blocked|> <|ba_not_before := None|> <|ba_block_reason := Some reason|>.
Definition block_hold (reason : BlockReason) (now : Z) (h : Hold) : Hold :=
  h <|ho_block_reason := Some reason|> <|ho_updated_at := now|>.
Definition defer_unit (reason : BlockReason) (u : Unit_) : Unit_ :=
  u <|un_status := UDeferred|> <|un_defer_reason := Some (block_reason_str reason)|>.

Definition open_or_deferred (u : Unit_) : bool :=
  bool_decide (un_status u = UOpen) || bool_decide (un_status u = UDeferred).

(** Whether a hold waits for a batch that satisfies [P]. *)
Definition waits_for (P : Batch -> bool) (h : Hold) (db : PhaseDb) : bool :=
  match ho_pending_batch_id h with
  | Some id => sql_exists (fun b => (ba_id b =? id) && P b) (p_batches db)
  | None => false
  end.

Definition set_intents (s : Intents.Subject) (P : Intent -> bool) (f : Intent -> Intent) : PTx unit := fun db =>
  Ok (tt, Intents.set_table s (sql_update P f (Intents.table s db)) db).
Definition set_holds (P : Hold -> PhaseDb -> bool) (f : Hold -> Hold) : PTx unit := fun db =>
  Ok (tt, db <|p_holds := sql_update (fun h => P h db) f (p_holds db)|>).
Definition set_batches (P : Batch -> bool) (f : Batch -> Batch) : PTx unit := fun db =>
  Ok (tt, db <|p_batches := sql_update P f (p_batches db)|>).
Definition set_units (P : Unit_ -> PhaseDb -> bool) (f : Unit_ -> Unit_) : PTx unit := fun db =>
  Ok (tt, db <|p_units := sql_update (fun u => P u db) f (p_units db)|>).

(** The tables of [SLead] and [SFinding]; the id is not read. *)
Definition leads_table : Intents.Subject := Intents.SLead 0.
Definition findings_table : Intents.Subject := Intents.SFinding 0.

Definition block_pending (repo campaign : Z) (group : PendingGroup) (deadline : option Z) (reason : BlockReason) (now : Z)
    : PTx unit :=
  let members := pending_intent repo campaign deadline (pg_band group) (pg_before_deadline group) in
  let batches := pending_batch repo campaign deadline (pg_band group) (pg_before_deadline group) in
  match pg_source group with
  | SrcOrdinary => set_units (needs_work_of repo campaign (fun _ => true)) (defer_unit reason)
  | SrcLead => set_intents leads_table members (block_intent reason now)
  | SrcFinding => set_intents findings_table members (block_intent reason now)
  | SrcExactBatch =>
      _ ← set_holds (fun h db => waits_for batches h db && Intents.in_repo repo (ho_generation_id h) db) (block_hold reason now);
      _ ← set_units (fun u db => open_or_deferred u && Intents.in_repo repo (un_generation_id u) db &&
                                 match p_holds db !! un_id u with
                                 | Some h => Intents.in_repo repo (ho_generation_id h) db && waits_for batches h db
                                 | None => false
                                 end) (defer_unit reason);
      set_batches batches (block_batch reason)
  end.

(** [block]: all work of the campaign, or what has no reason yet. *)
Definition unexplained {A} (only_unexplained : bool) (reason : option A) : bool := negb only_unexplained || sql_null reason.

Definition campaign_hold (repo campaign : Z) (h : Hold) (db : PhaseDb) : bool :=
  match ho_pending_batch_id h with
  | Some _ => waits_for (batch_of repo campaign) h db
  | None => match p_jobs db !! ho_producing_job_id h with
            | Some j => sql_eq (j_campaign_id j) campaign && (j_repo_id j =? repo)
            | None => false
            end
  end && Intents.in_repo repo (ho_generation_id h) db.

Definition block (repo campaign : Z) (reason : BlockReason) (now : Z) (only_unexplained : bool) : PTx unit :=
  c ← p_some (get_campaign repo campaign) (NotFound ECampaign campaign);
  let open_intent i := of_campaign repo campaign i && negb (bool_decide (it_state i = Complete)) &&
                       unexplained only_unexplained (it_block_reason i) in
  _ ← set_intents leads_table open_intent (block_intent reason now);
  _ ← set_intents findings_table open_intent (block_intent reason now);
  _ ← set_holds (fun h db => campaign_hold repo campaign h db && unexplained only_unexplained (ho_block_reason h))
        (block_hold reason now);
  _ ← set_batches (fun b => batch_of repo campaign b && negb (bool_decide (ba_state b = Complete)) &&
                            unexplained only_unexplained (ba_block_reason b)) (block_batch reason);
  set_units (fun u db =>
    match id ← cm_generation_id c; get_generation repo id db with
    | Some g => (un_generation_id u =? g_id g) && open_or_deferred u && unexplained only_unexplained (un_defer_reason u) &&
                (match p_holds db !! un_id u with Some h => ho_generation_id h =? g_id g | None => false end ||
                 negb (Cover.unit_covered g u db))
    | None => false
    end) (defer_unit reason).

Definition block_all (repo campaign : Z) (reason : BlockReason) (now : Z) : PTx unit :=
  block repo campaign reason now false.
Definition block_unexplained (repo campaign now : Z) : PTx unit :=
  block repo campaign BRequiresSuccessor now true.

(** [summary]: the counts of handoffs, batches and holds, in the order of
    their names, a missing reason first. *)
Definition states_by_name : list IntentState := [IAdmitted; Blocked; Complete; Pending].
Definition reasons_by_name : list (option BlockReason) :=
  None :: (Some <$> [BAwaitingProofInfrastructure; BCampaignBudget; BCampaignCancelled; BCampaignDeadline;
                     BCompatibilityPolicy; BExecutionExhausted; BExternalDependency; BProtectedCapacity;
                     BRequiresSuccessor; BUnsupportedRecipe]).

Definition StateCount : Type := IntentState * option BlockReason * Z.
Definition HoldCount : Type := option BlockReason * Z.

Record Summary := {
  su_leads : list StateCount;
  su_findings : list StateCount;
  su_exact_batches : list StateCount;
  su_holds : list HoldCount;
}.

(** [GROUP BY] over the keys in order: a key without rows has no group. *)
Definition grouped {K} (keys : list K) (count : K -> Z) : list (K * Z) :=
  filter (fun kc => kc.2 <> 0) ((fun k => (k, count k)) <$> keys).

Definition state_counts (count : IntentState -> option BlockReason -> Z) : list StateCount :=
  grouped (states_by_name ≫= fun st => (fun r => (st, r)) <$> reasons_by_name) (fun k => count k.1 k.2).

Definition summary (repo campaign : Z) (db : PhaseDb) : Summary :=
  let intents t := state_counts (fun st reason =>
        sql_count (fun i => of_campaign repo campaign i && bool_decide (it_state i = st) &&
                            bool_decide (it_block_reason i = reason)) t) in
  {| su_leads := intents (p_lead_intents db);
     su_findings := intents (p_finding_intents db);
     su_exact_batches := state_counts (fun st reason =>
        sql_count (fun b => batch_of repo campaign b && bool_decide (ba_state b = st) &&
                            bool_decide (ba_block_reason b = reason)) (p_batches db));
     su_holds := grouped reasons_by_name (fun reason =>
        sql_count (fun h => campaign_hold repo campaign h db && bool_decide (ho_block_reason h = reason)) (p_holds db)) |}.

Definition nodes (s : Summary) : Z :=
  let len {A} (l : list A) := Z.of_nat (length l) in
  let sat z := Z.min z usize_max in
  sat (sat (5 + sat (sat (sat (len (su_leads s) + len (su_findings s)) + len (su_exact_batches s)) * 4)) +
       sat (len (su_holds s) * 3)).

End Work.

Module Ending.

(** [Payload] of [loupe-core/src/text/policy.rs] *)
Definition MAX_BYTES : Z := 65536.
Definition MAX_DEPTH : Z := 16.
Definition MAX_NODES : Z := 4096.

(** The groups of [summarize_raw], each in the order of its keys' names. *)
Record CampaignCounts := {
  cc_jobs : list (str * JobState * Z);
  cc_lead_status : list (LeadStatus * Z);
  cc_lead_disposition : list (LeadDisposition * Z);
  cc_findings : list (FindingState * Z);
  cc_verdicts : list (Outcome * Z);
  cc_pending_work : Work.Summary;
}.

Record TerminalSummary := {
  ts_campaign_id : Z;
  ts_coverage : Coverage;
  ts_counts : CampaignCounts;
  ts_canonical : str;
}.

#[global] Instance Summary_eq_dec : EqDecision Work.Summary. Proof. solve_decision. Defined.
#[global] Instance CampaignCounts_eq_dec : EqDecision CampaignCounts. Proof. solve_decision. Defined.
#[global] Instance TerminalSummary_eq_dec : EqDecision TerminalSummary. Proof. solve_decision. Defined.

Definition job_counts (repo campaign : Z) (db : PhaseDb) : list (str * JobState * Z) :=
  let mine j := sql_eq (j_campaign_id j) campaign && (j_repo_id j =? repo) in
  let kinds := sql_sort (fun a b => bytes_ge b a)
                 (remove_dups ((fun j => JobKind.as_str (j_kind j)) <$> sql_select mine (p_jobs db))) in
  Work.grouped (kinds ≫= fun kind => (fun st => (kind, st)) <$> [Cancelled; Failed; Leased; Queued; Succeeded])
    (fun k => sql_count (fun j => mine j && str_eqb (JobKind.as_str (j_kind j)) k.1 && bool_decide (j_state j = k.2))
                (p_jobs db)).

(** The lead a finding was promoted from belongs to the generation. *)
Definition from_generation (generation : option Z) (finding : Z) (db : PhaseDb) : bool :=
  match g ← generation; d ← p_details db !! finding; origin ← rv_origin_lead_id d; l ← p_leads db !! origin;
        Some (le_generation_id l =? g) with
  | Some b => b
  | None => false
  end.

Definition campaign_counts (repo campaign : Z) (generation : option Z) (db : PhaseDb) : CampaignCounts :=
  let in_generation l := match generation with
                         | Some g => (le_generation_id l =? g) && Intents.in_repo repo (le_generation_id l) db
                         | None => false
                         end in
  {| cc_jobs := job_counts repo campaign db;
     cc_lead_status := Work.grouped [LClosed; LDeferred; LOpen]
       (fun st => sql_count (fun l => in_generation l && bool_decide (le_status l = st)) (p_leads db));
     cc_lead_disposition := Work.grouped [LDuplicate; LHardening; LPromoted; LRejected; LStale]
       (fun d => sql_count (fun l => in_generation l && bool_decide (le_disposition l = Some d)) (p_leads db));
     cc_findings := Work.grouped [AwaitingApproval; Confirmed; Dismissed; Domain.Pending; Reported; Validating]
       (fun st => sql_count (fun f => from_generation generation (fr_id f) db && (fr_repo_id f =? repo) &&
                                      bool_decide (fr_state f = st)) (p_findings db));
     cc_verdicts := Work.grouped [OConfirmed; ODismissed; OInconclusive]
       (fun v => sql_count (fun r => from_generation generation (v_finding_id r) db &&
                                     match p_findings db !! v_finding_id r with
                                     | Some f => fr_repo_id f =? repo
                                     | None => false
                                     end && bool_decide (v_verdict r = v)) (p_verifications db));
     cc_pending_work := Work.summary repo campaign db |}.

(** [UPDATE review_campaigns .. WHERE campaign_id AND repo_id AND P], then
    [changed]. *)
Definition update (repo id : Z) (P : Campaign -> bool) (f : Campaign -> Campaign) (conflict : Conflict) : PTx unit := fun db =>
  let P c := (cm_id c =? id) && (cm_repo_id c =? repo) && P c in
  let t := sql_update P f (p_campaigns db) in
  if unique_on Campaigns.active_key t
  then match changed (sql_count P (p_campaigns db)) conflict with
       | Ok _ => Ok (tt, db <|p_campaigns := t|>)
       | Err e => Err e
       end
  else Err (Sqlite ConstraintViolation).

Definition ended (state : CampaignState) (reason : str) (summary : TerminalSummary) (now : Z) (c : Campaign) : Campaign :=
  c <|cm_state := state|> <|cm_terminal_reason := Some reason|> <|cm_coverage_at_finish := Some (ts_coverage summary)|>
    <|cm_terminal_counts := Some (ts_canonical summary)|> <|cm_finished_at := Some now|>.

Definition end_campaign (repo id : Z) (state : CampaignState) (reason : str) (summary : TerminalSummary) (now : Z) : PTx unit :=
  update repo id (fun c => bool_decide (cm_state c = CmActive)) (ended state reason summary now) CCampaignState.

Section Rendering.
(** The JSON text of the counts, and its canonical form. *)
Context (counts_json counts_canonical : CampaignCounts -> str).

(** [CampaignCounts::finish] *)
Definition finish_counts (c : CampaignCounts) : result Error str :=
  let len {A} (l : list A) := Z.of_nat (length l) in
  let sat z := Z.min z usize_max in
  let nodes := sat (sat (sat (sat (sat (sat (7 + sat (len (cc_jobs c) * 4)) + len (cc_lead_status c)) +
                     len (cc_lead_disposition c)) + len (cc_findings c)) + len (cc_verdicts c)) +
                    Work.nodes (cc_pending_work c)) in
  if MAX_DEPTH <? 5 then Err (Validation (lit "payload") RJsonDepth)
  else if MAX_BYTES <? str_len (counts_json c) then Err (Validation (lit "payload") RBytes)
  else if MAX_NODES <? nodes then Err (Validation (lit "payload") RJsonNodes)
  else if MAX_BYTES <? str_len (counts_canonical c) then Err (Validation (lit "payload") RBytes)
  else Ok (counts_canonical c).

Definition coverage_now (repo : Z) (generation : option Z) : PTx Coverage :=
  match generation with
  | Some generation =>
      _ ← own_generation repo generation OCampaignGeneration;
      g ← p_some (get_generation repo generation) (Sqlite QueryReturnedNoRows);
      if bool_decide (g_coverage g = CovComplete) then
        r ← Cover.coverage_rollup_raw repo generation;
        mret (if Cover.complete r then g_coverage g else CovPartial)
      else mret (g_coverage g)
  | None => mret CovUnknown
  end.

Definition summarize_raw (repo id : Z) : PTx TerminalSummary :=
  c ← p_some (get_campaign repo id) (NotFound ECampaign id);
  coverage ← coverage_now repo (cm_generation_id c);
  counts ← p_read (campaign_counts repo id (cm_generation_id c));
  canonical ← p_lift (finish_counts counts);
  mret {| ts_campaign_id := id; ts_coverage := coverage; ts_counts := counts; ts_canonical := canonical |}.

Definition finish_with_reason (scope : RepoScope) (id : Z) (summary : TerminalSummary) (reason : str) (now : Z) : PTx unit :=
  _ ← operator scope;
  _ ← p_ensure (ts_campaign_id summary =? id) (OwnershipError OCampaignSummary);
  again ← summarize_raw (rs_repo_id scope) id;
  _ ← p_ensure (bool_decide (again = summary)) (ConflictError CCampaignSummary);
  end_campaign (rs_repo_id scope) id CmFinished reason summary now.

Definition finish (scope : RepoScope) (id : Z) (summary : TerminalSummary) (reason : str) (now : Z) : PTx unit :=
  _ ← operator scope; finish_with_reason scope id summary reason now.

Definition finish_unsupported (repo id now : Z) : PTx unit :=
  summary ← summarize_raw repo id;
  end_campaign repo id CmFinished (lit "unsupported_recipe") summary now.

Inductive FinishedReason := FCompleted | FDeadline | FPartial | FBlocked (reason : BlockReason) | FUnsupported.

Definition finished_reason_str (r : FinishedReason) : str :=
  match r with
  | FCompleted => lit "completed"
  | FDeadline => lit "deadline"
  | FPartial => lit "partial"
  | FBlocked reason => block_reason_str reason
  | FUnsupported => lit "unsupported_recipe"
  end.

Definition finish_scheduled (scope : RepoScope) (id : Z) (summary : TerminalSummary) (reason : FinishedReason) (now : Z)
    : PTx unit :=
  _ ← operator scope; finish_with_reason scope id summary (finished_reason_str reason) now.

Definition cancel (scope : RepoScope) (id : Z) (reason : str) (now : Z) : PTx unit :=
  _ ← operator scope;
  summary ← summarize_raw (rs_repo_id scope) id;
  end_campaign (rs_repo_id scope) id CmCancelled reason summary now.

End Rendering.

End Ending.
