(* ===== verification/CampaignFlow.v ===== *)
(** * The campaign workflow

    Modules [FollowUp] ([loupe-core/src/pending_follow_up.rs]) and [Workflow]
    ([loupe-storage/src/campaign_workflow.rs]): opening a campaign or
    coalescing the request into the active one, pinning its commit, advancing
    it to its end, and cancelling it; and [Compatibility]
    ([loupe-storage/src/review_compatibility.rs]): the operator's reset of a
    generation. *)

From S2P Require Import Prelude Sql Domain StateMachine Vocabulary SchedPolicy Store Scope Jobs AdmissionPolicy PhaseStore PhaseControl CampaignWork.
From Stdlib Require Import ZArith Lia.
From stdpp Require Import base gmap list strings.
Local Open Scope Z_scope.

Module FollowUp.

Inductive ReviewIntent := FullReview | IncrementalReview.
#[global] Instance ReviewIntent_eq_dec : EqDecision ReviewIntent. Proof. solve_decision. Defined.

(** [FollowUpTrigger::as_str], [ReviewIntent::as_str] *)
Definition trigger_str (t : Trigger) : str :=
  match t with
  | TManual => lit "manual"
  | TScheduled => lit "scheduled"
  | TCompatScanApi => lit "compat_scan_api"
  | TReconciliation => lit "reconciliation"
  | TOperator => lit "operator"
  end.
Definition intent_str (i : ReviewIntent) : str :=
  match i with FullReview => lit "full_review" | IncrementalReview => lit "incremental" end.

Definition is_full (v : json) : bool := match v with JString s => str_eqb s (lit "full_review") | _ => false end.

Definition retained_intent (previous : option json) (intent : ReviewIntent) : ReviewIntent :=
  match previous with
  | Some p => if is_full (json_get p (lit "kind_hint")) then FullReview else intent
  | None => intent
  end.

Definition previous_triggers (previous : option json) : list json :=
  match previous with
  | Some p => match json_get p (lit "triggers") with JArray l => l | _ => [] end
  | None => []
  end.

Definition trigger_entry (requested_ref : str) (trigger : Trigger) (intent : ReviewIntent) (at_ : Z) : json :=
  JObject [(lit "trigger", JString (trigger_str trigger)); (lit "ref", JString requested_ref); (lit "at", JNumber at_);
           (lit "kind_hint", JString (intent_str intent))].

(** [if triggers.len() > 16 { triggers.drain(..triggers.len() - 16) }] *)
Definition last_16 (triggers : list json) : list json :=
  if (16 <? length triggers)%nat then drop (length triggers - 16) triggers else triggers.

Definition document (previous : option json) (requested_ref : str) (trigger : Trigger) (intent : ReviewIntent) (at_ : Z) : json :=
  JObject [(lit "version", JNumber 1);
           (lit "triggers", JArray (last_16 (previous_triggers previous ++ [trigger_entry requested_ref trigger intent at_])));
           (lit "newest_ref", JString requested_ref);
           (lit "kind_hint", JString (intent_str (retained_intent previous intent)))].

End FollowUp.

Module Workflow.

Inductive RequestedRef := Pinned (sha : str) | Branch (name : str).
Definition ref_value (r : RequestedRef) : str := match r with Pinned value | Branch value => value end.

Record OpenCampaign := {
  oc_trigger : Trigger;
  oc_requested_ref : RequestedRef;
  oc_base_sha : option str;
  oc_kind_hint : FollowUp.ReviewIntent;
}.

Inductive Opened :=
| Created (campaign_id job_id : Z)
| Coalesced (campaign_id : Z)
| OpenPending (campaign_id : Z)
| Deferred (campaign_id : Z).

Definition is_commit_sha (sha : str) : bool :=
  ((str_len sha =? 40) || (str_len sha =? 64)) &&
  forallb (fun b => ((48 <=? b) && (b <=? 57)) || ((97 <=? b) && (b <=? 102))) sha.

Definition invalid_commit : Error := Validation (lit "commit_sha") RIdentifier.

Definition get (repo id : Z) : PTx Campaign := p_some (get_campaign repo id) (NotFound ECampaign id).

(** [generations::coalesce_follow_up] *)
Definition coalesce_follow_up (scope : RepoScope) (id : Z) (follow_up : json) : PTx unit :=
  _ ← operator scope;
  Generations.update (rs_repo_id scope) id Generations.live (fun g => g <|g_pending_follow_up := Some follow_up|>)
    (Sqlite ConstraintViolation) CGenerationState.

(** [generations::list_for_repo]: newest first. *)
Definition newest_generation (a b : Generation) : bool :=
  (g_created_at b <? g_created_at a) || ((g_created_at a =? g_created_at b) && (g_id b <=? g_id a)).
Definition list_for_repo (repo : Z) (db : PhaseDb) : list Generation :=
  sql_sort newest_generation (sql_select (fun g => g_repo_id g =? repo) (p_generations db)).

(** The two [UPDATE]s of [pin]; neither touches a column of a unique index. *)
Definition set_target (repo campaign : Z) (sha : str) (generation : Z) : PTx unit := fun db =>
  Ok (tt, db <|p_campaigns := sql_update (fun c => (cm_id c =? campaign) && (cm_repo_id c =? repo))
                (fun c => c <|cm_target_commit_sha := sha|> <|cm_generation_id := Some generation|>) (p_campaigns db)|>).
Definition set_job_generation (repo job generation : Z) : PTx unit :=
  _ ← p_update_jobs (fun j => (j_id j =? job) && (j_repo_id j =? repo)) (fun j => j <|j_generation_id := Some generation|>);
  mret tt.

(** The generation an already known commit continues in. *)
Definition existing_generation (generations : list Generation) (active : option Generation) (sha : str) : option Z :=
  g ← active;
  if str_eqb (g_commit_sha g) sha && (g_workflow_contract_version g =? WORKFLOW_CONTRACT_VERSION) then Some (g_id g)
  else if negb (str_eqb (g_commit_sha g) sha) then
    g_id <$> List.find (fun s => bool_decide (g_state s = Building) && str_eqb (g_commit_sha s) sha &&
                                 (g_workflow_contract_version s =? WORKFLOW_CONTRACT_VERSION) &&
                                 bool_decide (g_predecessor_generation_id s = Some (g_id g))) generations
  else None.

Definition pin (scope : RepoScope) (campaign_id job_id : Z) (sha : str) (now : Z) : PTx Z :=
  let repo := rs_repo_id scope in
  _ ← operator scope;
  _ ← p_ensure (is_commit_sha sha) invalid_commit;
  campaign ← get repo campaign_id;
  _ ← p_ensure (bool_decide (cm_state campaign = CmActive)) (ConflictError CCampaignState);
  job ← p_some (get_job repo job_id) (NotFound EJob job_id);
  _ ← p_ensure (negb (negb (sql_eq (j_campaign_id job) campaign_id) || negb (j_repo_id job =? cm_repo_id campaign) ||
                      negb (bool_decide (j_kind job = Survey)) || negb (active_state (j_state job))))
        (OwnershipError OCampaignJob);
  match cm_generation_id campaign with
  | Some generation =>
      if str_eqb (cm_target_commit_sha campaign) sha then mret generation else p_err (ConflictError CCampaignPinned)
  | None =>
      generations ← p_read (list_for_repo repo);
      let active := List.find (fun g => bool_decide (g_state g = GActive)) generations in
      generation_id ← match existing_generation generations active sha with
        | Some existing => mret existing
        | None =>
            _ ← match active with
                | None => p_for (filter (fun g => g_state g = Building) generations)
                            (fun g => Generations.abandon_superseded_bootstrap scope (g_id g) now)
                | Some _ => mret tt
                end;
            Generations.create scope
              {| Generations.ng_predecessor_generation_id := g_id <$> active; Generations.ng_commit_sha := sha;
                 Generations.ng_workflow_contract_version := WORKFLOW_CONTRACT_VERSION |} now
        end;
      _ ← set_target repo campaign_id sha generation_id;
      _ ← set_job_generation repo job_id generation_id;
      _ ← (if bool_decide (j_state job = Queued) && bool_decide (g_id <$> active = Some generation_id)
           then _ ← Intents.job_context repo job_id; mret tt else mret tt);
      mret generation_id
  end.

Definition activate_generation (scope : RepoScope) (campaign_id now : Z) : PTx unit :=
  let repo := rs_repo_id scope in
  _ ← operator scope;
  campaign ← get repo campaign_id;
  _ ← p_ensure (bool_decide (cm_state campaign = CmActive)) (ConflictError CCampaignState);
  id ← p_lift (ok_or (cm_generation_id campaign) (ConflictError CGenerationState));
  generation ← p_some (get_generation repo id) (NotFound EGeneration id);
  _ ← p_ensure (sql_null (g_predecessor_generation_id generation)) (ConflictError CGenerationPredecessor);
  _ ← p_ensure (bool_decide (g_state generation = Building) && sql_some (g_generated_profile generation) &&
                sql_some (g_inventory_digest generation)) (ConflictError CGenerationState);
  Generations.activate scope id now.

Definition replenish (scope : RepoScope) (campaign_id : Z) : PTx (option Z) :=
  _ ← operator scope;
  exists_ ← p_read (fun db => bool_decide (is_Some (get_campaign (rs_repo_id scope) campaign_id db)));
  _ ← p_ensure exists_ (NotFound ECampaign campaign_id);
  mret None.

Section Externals.
(** The JSON texts of counts, the texts of recipes, and the check of a document
    against the payload policy, which gives its canonical form. *)
Context (counts_json counts_canonical : Ending.CampaignCounts -> str)
        (recipe_json : JobKind -> Preparation.SurveyRecipe -> str)
        (checked_payload : json -> result Error json).

Definition coalesce (scope : RepoScope) (new : OpenCampaign) (campaign_id now : Z) : PTx Opened :=
  let repo := rs_repo_id scope in
  campaign ← get repo campaign_id;
  match cm_generation_id campaign with
  | None => mret (OpenPending campaign_id)
  | Some generation_id =>
      generation ← p_some (get_generation repo generation_id) (NotFound EGeneration generation_id);
      pending ← p_lift (checked_payload (FollowUp.document (g_pending_follow_up generation)
                          (ref_value (oc_requested_ref new)) (oc_trigger new) (oc_kind_hint new) now));
      _ ← coalesce_follow_up scope generation_id pending;
      mret (Coalesced campaign_id)
  end.

Definition open (scope : RepoScope) (new : OpenCampaign) (policy : CampaignPolicyV2) (now : Z) : PTx Opened :=
  let repo := rs_repo_id scope in
  _ ← operator scope;
  _ ← p_lift (v2_validate policy);
  active ← p_read (fun db => cm_id <$> head (sql_select (fun c => (cm_repo_id c =? repo) && bool_decide (cm_state c = CmActive))
                                               (p_campaigns db)));
  match active with
  | Some campaign_id => coalesce scope new campaign_id now
  | None =>
      baseline ← p_read (fun db => g_commit_sha <$> head (sql_select
                   (fun g => (g_repo_id g =? repo) && bool_decide (g_state g = GActive)) (p_generations db)));
      known_successor ← match oc_requested_ref new with
        | Pinned sha => _ ← p_ensure (is_commit_sha sha) invalid_commit;
                        mret (match baseline with Some old => negb (str_eqb old sha) | None => false end)
        | Branch _ => mret false
        end;
      let initial := if sql_null baseline then Bootstrap
                     else if bool_decide (oc_kind_hint new = FollowUp.FullReview) then Reconciliation else Incremental in
      deadline ← p_lift (ok_or (checked_add now (v2_campaign_deadline_seconds policy)) (ConflictError CCampaignPolicy));
      campaign_id ← Campaigns.create scope
        {| Campaigns.nc_recipe := initial; Campaigns.nc_trigger := oc_trigger new;
           Campaigns.nc_requested_base_sha := oc_base_sha new;
           Campaigns.nc_target_commit_sha := ref_value (oc_requested_ref new); Campaigns.nc_generation_id := None;
           Campaigns.nc_effective_policy := Campaigns.ResolvedV2 policy; Campaigns.nc_deadline_at := Some deadline;
           Campaigns.nc_root_campaign_id := None; Campaigns.nc_continuation_of_campaign_id := None |} now;
      if bool_decide (initial = Reconciliation) || known_successor then
        summary ← Ending.summarize_raw counts_json counts_canonical repo campaign_id;
        _ ← Ending.finish_scheduled counts_json counts_canonical scope campaign_id summary Ending.FUnsupported now;
        mret (Deferred campaign_id)
      else
        job_id ← Preparation.create_preparation recipe_json scope campaign_id now;
        _ ← match oc_requested_ref new with
            | Pinned sha => _ ← pin scope campaign_id job_id sha now; mret tt
            | Branch _ => mret tt
            end;
        mret (Created campaign_id job_id)
  end.

Definition cancel (scope : RepoScope) (campaign_id : Z) (reason : str) (now : Z) : PTx unit :=
  let repo := rs_repo_id scope in
  _ ← operator scope;
  exists_ ← p_read (fun db => bool_decide (is_Some (get_campaign repo campaign_id db)));
  _ ← p_ensure exists_ (NotFound ECampaign campaign_id);
  _ ← Lifecycle.cancel_queued repo campaign_id now reason;
  _ ← Work.block_all repo campaign_id BCampaignCancelled now;
  Ending.cancel counts_json counts_canonical scope campaign_id reason now.

Inductive Finish := FinishCompleted | DeadlineReached.

Record Progress := { pr_finish : option Finish; pr_budget_exhausted : bool }.
Definition no_progress : Progress := {| pr_finish := None; pr_budget_exhausted := false |}.

Definition frozen_budget (repo campaign : Z) : PTx (CampaignPolicyV2 * Spending) :=
  policy ← Admission.load_policy_raw repo campaign;
  spent ← p_some (Admission.get_spending_raw repo campaign) (ConflictError CCampaignPolicy);
  _ ← p_lift (choose_pool policy spent WSurvey);
  mret (policy, spent).

(** The [match] on [frozen_budget], which only reads: a conflict of the policy
    or an unreadable column is an incompatible policy. *)
Definition try_budget (repo campaign : Z) : PTx (option (CampaignPolicyV2 * Spending)) := fun db =>
  match frozen_budget repo campaign db with
  | Ok (budget, db') => Ok (Some budget, db')
  | Err (ConflictError CCampaignPolicy) | Err (Sqlite (InvalidScalar _)) => Ok (None, db)
  | Err e => Err e
  end.

(** The loop over the pending groups. *)
Record Funding := { fu_fundable : bool; fu_exhausted : bool; fu_reason : option BlockReason }.

Definition refusal (policy : CampaignPolicyV2) (spent : Spending) (group : Work.PendingGroup)
    : result Error (option BlockReason) :=
  if negb (Work.pg_before_deadline group) then Ok (Some BCampaignDeadline)
  else
    sel ← choose_pool policy spent (Work.work_class group);
    Ok match sel with
       | SPool _ => None
       | SRefused RCampaignBudget => Some BCampaignBudget
       | SRefused RProtectedCapacity => Some BProtectedCapacity
       end.

Fixpoint fund (repo campaign : Z) (deadline : option Z) (now : Z) (policy : CampaignPolicyV2) (spent : Spending)
    (groups : list Work.PendingGroup) (acc : Funding) : PTx Funding :=
  match groups with
  | [] => mret acc
  | group :: groups' =>
      r ← p_lift (refusal policy spent group);
      match r with
      | None => fund repo campaign deadline now policy spent groups'
                  {| fu_fundable := true; fu_exhausted := fu_exhausted acc; fu_reason := fu_reason acc |}
      | Some reason =>
          _ ← Work.block_pending repo campaign group deadline reason now;
          fund repo campaign deadline now policy spent groups'
            {| fu_fundable := fu_fundable acc;
               fu_exhausted := fu_exhausted acc || bool_decide (reason = BCampaignBudget);
               fu_reason := match fu_reason acc with Some first => Some first | None => Some reason end |}
      end
  end.

(** From the last statement that blocks to the end of [advance]. *)
Definition conclude (scope : RepoScope) (campaign_id now : Z) (expired : bool) (reason : option BlockReason) (exhausted : bool)
    : PTx Progress :=
  let repo := rs_repo_id scope in
  _ ← Work.block_unexplained repo campaign_id now;
  summary ← Ending.summarize_raw counts_json counts_canonical repo campaign_id;
  unfinished ← p_read (Work.has_unfinished repo campaign_id);
  let (finish, why) :=
    if expired then (DeadlineReached, Ending.FDeadline)
    else (FinishCompleted,
          match reason with
          | Some reason => Ending.FBlocked reason
          | None => if bool_decide (Ending.ts_coverage summary = CovComplete) && negb unfinished
                    then Ending.FCompleted else Ending.FPartial
          end) in
  _ ← Ending.finish_scheduled counts_json counts_canonical scope campaign_id summary why now;
  mret {| pr_finish := Some finish; pr_budget_exhausted := exhausted |}.

(** [expired], and the reason to stop that [advance] has before the loop. *)
Definition past (c : Campaign) (now : Z) : bool :=
  match cm_deadline_at c with Some at_ => at_ <=? now | None => false end.
Definition early_reason (c : Campaign) (now : Z) : option BlockReason :=
  if past c now then Some BCampaignDeadline
  else if negb (bool_decide (cm_recipe c = Bootstrap) || bool_decide (cm_recipe c = Incremental))
  then Some BUnsupportedRecipe else None.
Definition stop_reason {A} (early : option BlockReason) (budget : option A) : option BlockReason :=
  match early with
  | Some r => Some r
  | None => if sql_null budget then Some BCompatibilityPolicy else None
  end.

Definition advance (scope : RepoScope) (campaign_id now : Z) (scan_complete : bool) : PTx Progress :=
  let repo := rs_repo_id scope in
  campaign ← get repo campaign_id;
  if negb (bool_decide (cm_state campaign = CmActive)) then mret no_progress
  else
    let deadline := cm_deadline_at campaign in
    let expired := past campaign now in
    let early := early_reason campaign now in
    budget ← (match early with None => try_budget repo campaign_id | Some _ => mret None end : PTx _);
    let reason := stop_reason early budget in
    _ ← (match reason with
         | Some r =>
             _ ← operator scope;
             _ ← Lifecycle.cancel_queued_reason repo campaign_id now (block_reason_str r) r;
             Work.block_all repo campaign_id r now
         | None => mret tt
         end : PTx _);
    if sql_null reason && negb scan_complete then mret no_progress
    else
      busy ← p_read (fun db => sql_exists (fun j => sql_eq (j_campaign_id j) campaign_id && (j_repo_id j =? repo) &&
                                                    active_state (j_state j)) (p_jobs db));
      if (busy : bool) then mret no_progress
      else match budget with
           | Some (policy, spent) =>
               groups ← p_read (Work.pending repo campaign_id deadline);
               f ← fund repo campaign_id deadline now policy spent groups
                     {| fu_fundable := false; fu_exhausted := false; fu_reason := reason |};
               if fu_fundable f then mret {| pr_finish := None; pr_budget_exhausted := fu_exhausted f |}
               else conclude scope campaign_id now expired (fu_reason f) (fu_exhausted f)
           | None => conclude scope campaign_id now expired reason false
           end.

End Externals.

End Workflow.

(** ** The operator's reset of a generation ([review_compatibility.rs])

    An operator may throw away what was built of a generation.  The reset is
    refused while the generation's repository has anything under way; it
    retires the generation, blocks the verification handoffs taken from it,
    deletes the row with everything that hangs off it by foreign keys, and
    leaves a retired row of the same id. *)

Module Compatibility.

(** The counts of the summary. *)
Record Reset := {
  inventory_entries_removed : Z;
  review_units_removed : Z;
  leads_removed : Z;
  verification_intents_blocked : Z;
}.

(** ** Foreign keys *)

(** [ON DELETE SET NULL] *)
Definition set_null (gone : Z -> bool) (o : option Z) : option Z :=
  match o with Some k => if gone k then None else Some k | None => None end.

Definition row_such {R} (P : R -> bool) (t : gmap Z R) (id : Z) : bool :=
  match t !! id with Some r => P r | None => false end.

(** The rows that go with a generation. *)
Definition lead_gone (generation : Z) (db : PhaseDb) : Z -> bool :=
  row_such (fun l => le_generation_id l =? generation) (p_leads db).
Definition unit_gone (generation : Z) (db : PhaseDb) : Z -> bool :=
  row_such (fun u => un_generation_id u =? generation) (p_units db).
Definition entry_gone (generation : Z) (db : PhaseDb) : Z -> bool :=
  row_such (fun e => iv_generation_id e =? generation) (p_inventory db).
Definition result_gone (generation : Z) (db : PhaseDb) : Z -> bool :=
  row_such (fun r => unit_gone generation db (ur_unit_id r)) (p_results db).

(** A handoff of a lead goes with its generation or its lead. *)
Definition lead_intent_gone (generation : Z) (db : PhaseDb) (lead : Z) (i : Intent) : bool :=
  sql_eq (it_generation_id i) generation || lead_gone generation db lead.

Definition drop_keys {R} (gone : Z -> R -> bool) (t : gmap Z R) : gmap Z R := filter (fun kr => gone kr.1 kr.2 = false) t.

(** What [DELETE FROM review_generations] of one row does to the tables: the
    [ON DELETE] clauses of [migrations/v3/schema.rs] and [v7/schema.rs]. *)
Definition delete_generation (generation : Z) (db : PhaseDb) : PhaseDb :=
  let lead_gone := lead_gone generation db in
  let unit_gone := unit_gone generation db in
  {| p_generations := (fun g => g <|g_predecessor_generation_id := set_null (Z.eqb generation) (g_predecessor_generation_id g)|>) <$>
       sql_delete (fun g => g_id g =? generation) (p_generations db);
     p_campaigns := (fun c => c <|cm_generation_id := set_null (Z.eqb generation) (cm_generation_id c)|>) <$> p_campaigns db;
     p_jobs := (fun j => j <|j_generation_id := set_null (Z.eqb generation) (j_generation_id j)|>
                           <|j_assigned_lead_id := set_null lead_gone (j_assigned_lead_id j)|>) <$> p_jobs db;
     p_finding_intents := (fun i => i <|it_generation_id := set_null (Z.eqb generation) (it_generation_id i)|>) <$>
       p_finding_intents db;
     p_lead_intents := drop_keys (lead_intent_gone generation db) (p_lead_intents db);
     p_manifests := delete generation (p_manifests db);
     p_inventory := sql_delete (fun e => iv_generation_id e =? generation) (p_inventory db);
     p_inventory_units := filter (fun iu => iu_generation_id iu <> generation) (p_inventory_units db);
     p_units := sql_delete (fun u => un_generation_id u =? generation) (p_units db);
     p_assigned := filter (fun a => unit_gone (au_unit_id a) = false) (p_assigned db);
     p_results := (fun r => r <|ur_corroborates_result_id := set_null (result_gone generation db) (ur_corroborates_result_id r)|>
                              <|ur_corroborates_exclusion_id := set_null (entry_gone generation db) (ur_corroborates_exclusion_id r)|>) <$>
       sql_delete (fun r => unit_gone (ur_unit_id r)) (p_results db);
     p_holds := drop_keys (fun unit h => (ho_generation_id h =? generation) || unit_gone unit) (p_holds db);
     p_batches := sql_delete (fun b => ba_generation_id b =? generation) (p_batches db);
     p_leads := sql_delete (fun l => le_generation_id l =? generation) (p_leads db);
     p_observations := sql_delete (fun o => lead_gone (lo_lead_id o)) (p_observations db);
     p_details := (fun d => d <|rv_origin_lead_id := set_null lead_gone (rv_origin_lead_id d)|>) <$> p_details db;
     p_prepared := p_prepared db; p_workers := p_workers db; p_findings := p_findings db;
     p_checkpoints := p_checkpoints db; p_verifications := p_verifications db; p_spending := p_spending db;
     p_charges := p_charges db |}.

(** ** Statements *)

(** Whether a queued or leased job is bound to the generation. *)
Definition job_busy (generation : Z) (db : PhaseDb) (j : JobRow) : bool :=
  active_state (j_state j) &&
  (sql_eq (j_generation_id j) generation ||
   existsb (fun a => (au_job_id a =? j_id j) && unit_gone generation db (au_unit_id a)) (p_assigned db) ||
   match j_assigned_lead_id j with Some lead => lead_gone generation db lead | None => false end ||
   existsb (fun fi => sql_eq (it_generation_id fi.2) generation &&
                      (sql_eq (it_admitted_job_id fi.2) (j_id j) || sql_eq (j_target_finding_id j) fi.1))
     (map_to_list (p_finding_intents db)) ||
   sql_exists (fun i => sql_eq (it_generation_id i) generation && sql_eq (it_admitted_job_id i) (j_id j)) (p_lead_intents db) ||
   sql_exists (fun b => (ba_generation_id b =? generation) && sql_eq (ba_admitted_job_id b) (j_id j)) (p_batches db)).

Definition busy (generation : Z) (db : PhaseDb) : bool := sql_exists (job_busy generation db) (p_jobs db).

Definition reason : str := lit "operator compatibility reset".

(** [UPDATE review_generations SET state='retired' ...]: no row enters the
    unique index. *)
Definition retire_generation (generation now : Z) : PTx Z := fun db =>
  let P g := (g_id g =? generation) && Generations.live g in
  Ok (sql_count P (p_generations db),
      db <|p_generations := sql_update P (Generations.retire_as reason now) (p_generations db)|>).

(** [UPDATE finding_verification_intents SET state='blocked' ...] *)
Definition to_block (generation : Z) (i : Intent) : bool :=
  sql_eq (it_generation_id i) generation && negb (bool_decide (it_state i = Complete)).
Definition block_intent (now : Z) (i : Intent) : Intent :=
  i <|it_state := Blocked|> <|it_block_reason := Some BRequiresSuccessor|> <|it_updated_at := now|>.
Definition block_verifications (generation now : Z) : PTx Z := fun db =>
  Ok (sql_count (to_block generation) (p_finding_intents db),
      db <|p_finding_intents := sql_update (to_block generation) (block_intent now) (p_finding_intents db)|>).

(** [DELETE FROM review_generations WHERE generation_id=?1 AND state='retired'] *)
Definition delete_retired (generation : Z) : PTx Z := fun db =>
  let n := sql_count (fun g => (g_id g =? generation) && bool_decide (g_state g = Retired)) (p_generations db) in
  Ok (n, if n =? 0 then db else delete_generation generation db).

(** The row left in its place, with the defaults of the schema. *)
Definition tombstone (g : Generation) (now : Z) : Generation := {|
  g_id := g_id g; g_repo_id := g_repo_id g; g_predecessor_generation_id := None; g_commit_sha := g_commit_sha g;
  g_state := Retired; g_workflow_contract_version := g_workflow_contract_version g; g_profile_version := 1;
  g_generated_profile := None; g_inventory_digest := None; g_coverage := CovUnknown; g_corroboration := CorPending;
  g_pending_follow_up := None; g_created_at := g_created_at g; g_activated_at := None; g_retired_at := Some now;
  g_retired_reason := Some reason |}.

Definition insert_tombstone (generation : Z) (g : Generation) (now : Z) : PTx unit := fun db =>
  match p_generations db !! generation with
  | Some _ => Err (Sqlite ConstraintViolation)
  | None => Ok (tt, db <|p_generations := <[generation := tombstone g now]> (p_generations db)|>)
  end.

Definition reset_raw (generation now : Z) : PTx Reset :=
  g ← p_some (fun db => p_generations db !! generation) (NotFound EGeneration generation);
  _ ← p_ensure (Generations.live g) (ConflictError CGenerationState);
  other ← p_read (fun db => sql_exists (fun x => (g_repo_id x =? g_repo_id g) && negb (g_id x =? generation) &&
                                                 Generations.live x) (p_generations db));
  _ ← p_ensure (negb other) (ConflictError CActiveGeneration);
  campaign ← p_read (fun db => sql_exists (fun c => (cm_repo_id c =? g_repo_id g) && bool_decide (cm_state c = CmActive))
                                 (p_campaigns db));
  _ ← p_ensure (negb campaign) (ConflictError CActiveCampaign);
  busy ← p_read (busy generation);
  _ ← p_ensure (negb busy) (ConflictError CJobState);
  entries ← p_read (fun db => sql_count (fun e => iv_generation_id e =? generation) (p_inventory db));
  units ← p_read (fun db => sql_count (fun u => un_generation_id u =? generation) (p_units db));
  leads ← p_read (fun db => sql_count (fun l => le_generation_id l =? generation) (p_leads db));
  retired ← retire_generation generation now;
  _ ← p_lift (changed retired CGenerationState);
  blocked ← block_verifications generation now;
  deleted ← delete_retired generation;
  _ ← p_lift (changed deleted CGenerationState);
  _ ← insert_tombstone generation g now;
  mret {| inventory_entries_removed := entries; review_units_removed := units; leads_removed := leads;
          verification_intents_blocked := blocked |}.

(** [reset]: [body] is what the caller makes of the summary before the commit;
    its failure rolls the reset back. *)
Definition reset {A} (body : Reset -> result Error A) (authenticated_admin_id generation now : Z) : PTx A :=
  active ← p_read (fun db => row_such (fun w => bool_decide (w_kind w = KindAdmin) && sql_null (w_revoked_at w)) (p_workers db)
                               authenticated_admin_id);
  _ ← p_ensure active ScopeDenied;
  summary ← reset_raw generation now;
  p_lift (body summary).

End Compatibility.
