(* ===== verification/PhaseLogic.v ===== *)
(** * Reasoning about the phase runtime

    Inversion of phase transactions, the invariant [PInv] of the phase tables,
    the relation [evolves_p] between an earlier and a later database, and a
    small program logic: [maintains m] says that [m] keeps the one and is an
    instance of the other, and composes over statement sequences. *)

From S2P Require Import Prelude Sql Domain StateMachine Vocabulary SchedPolicy Store Scope Jobs AdmissionPolicy PhaseStore PhaseControl.
From Stdlib Require Import ZArith Lia.
From stdpp Require Import base gmap list strings.
Local Open Scope Z_scope.

(** ** Inversion *)

Lemma p_bind_Ok {A B} (m : PTx A) (f : A -> PTx B) db b db' :
  (m ≫= f) db = Ok (b, db') <-> exists a db1, m db = Ok (a, db1) /\ f a db1 = Ok (b, db').
Proof.
  unfold mbind, ptx_bind. split.
  - destruct (m db) as [[a db1]|e]; [eauto|done].
  - by intros (a & db1 & -> & H).
Qed.

Lemma p_bind_run {A B} (m : PTx A) (f : A -> PTx B) db a d : m db = Ok (a, d) -> (m ≫= f) db = f a d.
Proof. unfold mbind, ptx_bind. by intros ->. Qed.

Lemma p_bind_fail {A B} (m : PTx A) (f : A -> PTx B) db e : m db = Err e -> (m ≫= f) db = Err e.
Proof. unfold mbind, ptx_bind. by intros ->. Qed.

Lemma p_ret_Ok {A} (a b : A) (db db' : PhaseDb) : (mret a : PTx A) db = Ok (b, db') <-> b = a /\ db' = db.
Proof. unfold mret, ptx_ret. naive_solver. Qed.

Lemma p_read_Ok {A} (f : PhaseDb -> A) db a db' : p_read f db = Ok (a, db') <-> a = f db /\ db' = db.
Proof. unfold p_read. naive_solver. Qed.

Lemma p_lift_Ok {A} (r : result Error A) db a db' : p_lift r db = Ok (a, db') <-> r = Ok a /\ db' = db.
Proof. unfold p_lift. destruct r; naive_solver. Qed.

Lemma p_some_Ok {A} (f : PhaseDb -> option A) e db a db' : p_some f e db = Ok (a, db') <-> f db = Some a /\ db' = db.
Proof. unfold p_some. destruct (f db); naive_solver. Qed.

Lemma p_ensure_Ok b e db u db' : p_ensure b e db = Ok (u, db') <-> b = true /\ db' = db.
Proof. unfold p_ensure. destruct b, u; cbv; naive_solver. Qed.

Lemma p_update_jobs_Ok P f db n db' :
  p_update_jobs P f db = Ok (n, db') <->
  jobs_unique (sql_update P f (p_jobs db)) = true /\ n = sql_count P (p_jobs db) /\
  db' = db <|p_jobs := sql_update P f (p_jobs db)|>.
Proof. unfold p_update_jobs. case_match; naive_solver. Qed.

Lemma changed_Ok n c u : changed n c = Ok u <-> n = 1.
Proof. unfold changed. destruct u, (n =? 1) eqn:E; bool_prop; naive_solver. Qed.

(** Transactions that only read. *)
Definition reads {A} (m : PTx A) : Prop := forall db a db', m db = Ok (a, db') -> db' = db.

Lemma reads_bind {A B} (m : PTx A) (f : A -> PTx B) : reads m -> (forall a, reads (f a)) -> reads (m ≫= f).
Proof. intros Hm Hf db b db' (a & d & H1 & H2)%p_bind_Ok. apply Hm in H1 as ->. by eapply Hf. Qed.
Lemma reads_ret {A} (a : A) : reads (mret a).
Proof. by intros db b db' [_ ?]%p_ret_Ok. Qed.
Lemma reads_read {A} (f : PhaseDb -> A) : reads (p_read f).
Proof. by intros db b db' [_ ?]%p_read_Ok. Qed.
Lemma reads_lift {A} (r : result Error A) : reads (p_lift r).
Proof. by intros db b db' [_ ?]%p_lift_Ok. Qed.
Lemma reads_some {A} (f : PhaseDb -> option A) e : reads (p_some f e).
Proof. by intros db b db' [_ ?]%p_some_Ok. Qed.
Lemma reads_ensure b e : reads (p_ensure b e).
Proof. by intros db u db' [_ ?]%p_ensure_Ok. Qed.
Lemma reads_err {A} e : reads (p_err e : PTx A).
Proof. by intros db b db'. Qed.

Create HintDb phase.
#[export] Hint Resolve reads_ret reads_read reads_lift reads_some reads_ensure reads_err : phase.

Ltac reads_tac := repeat first [solve [auto with phase] | apply reads_bind; [|intros ?] | case_match].

Lemma reads_operator scope : reads (operator scope).
Proof. unfold operator. reads_tac. Qed.
Lemma reads_own_generation repo g o : reads (own_generation repo g o).
Proof. unfold own_generation, require_repo. reads_tac. Qed.
Lemma reads_own_campaign repo c o : reads (own_campaign repo c o).
Proof. unfold own_campaign, require_repo. reads_tac. Qed.
#[export] Hint Resolve reads_operator reads_own_generation reads_own_campaign : phase.
Lemma reads_manifest_sealed repo g : reads (manifest_sealed_raw repo g).
Proof. unfold manifest_sealed_raw. reads_tac. Qed.
Lemma reads_load_policy repo c : reads (Admission.load_policy_raw repo c).
Proof. unfold Admission.load_policy_raw. reads_tac. Qed.
Lemma reads_campaign_state repo c : reads (Admission.campaign_state repo c).
Proof. unfold Admission.campaign_state. reads_tac. Qed.
Lemma reads_valid_state class j c spent now : reads (Admission.valid_state class j c spent now).
Proof. unfold Admission.valid_state. reads_tac. Qed.
#[export] Hint Resolve reads_manifest_sealed reads_load_policy reads_campaign_state reads_valid_state : phase.
Lemma reads_job_context repo id : reads (Intents.job_context repo id).
Proof. unfold Intents.job_context. reads_tac. Qed.
#[export] Hint Resolve reads_job_context : phase.
Lemma reads_producer repo id : reads (Intents.producer repo id).
Proof. unfold Intents.producer. reads_tac. Qed.
Lemma reads_validate_child p parent now : reads (Intents.validate_child p parent now).
Proof. unfold Intents.validate_child. reads_tac. Qed.
#[export] Hint Resolve reads_producer reads_validate_child : phase.

Ltac p_inv H :=
  lazymatch type of H with
  | mbind _ _ _ = Ok _ =>
      let a := fresh "a" in let d := fresh "d" in let H1 := fresh "Hs" in
      apply p_bind_Ok in H as (a & d & H1 & H); p_inv H1; p_inv H
  | mret _ _ = Ok _ => apply p_ret_Ok in H as [? ?]; simplify_eq
  | p_read _ _ = Ok _ => apply p_read_Ok in H as [? ?]; simplify_eq
  | p_lift _ _ = Ok _ => apply p_lift_Ok in H as [H ?]; simplify_eq
  | p_some _ _ _ = Ok _ => apply p_some_Ok in H as [H ?]; simplify_eq
  | p_ensure _ _ _ = Ok _ => apply p_ensure_Ok in H as [H ?]; simplify_eq
  | p_err _ _ = Ok _ => discriminate H
  | ?m ?db = Ok (_, ?d) =>
      try (let E := fresh "E" in
           assert (d = db) as E by (refine ((_ : reads m) _ _ _ H); solve [auto with phase]); subst d)
  | _ => idtac
  end.

(** ** Frames *)

(** [m] leaves the part [π] of the database alone. *)
Definition frame {A B} (π : PhaseDb -> B) (m : PTx A) : Prop := forall db a db', m db = Ok (a, db') -> π db' = π db.

Lemma frame_bind {A B C} (π : PhaseDb -> C) (m : PTx A) (f : A -> PTx B) :
  frame π m -> (forall a, frame π (f a)) -> frame π (m ≫= f).
Proof. intros Hm Hf db b db' (a & d & H1%Hm & H2%Hf)%p_bind_Ok. congruence. Qed.

Lemma frame_reads {A C} (π : PhaseDb -> C) (m : PTx A) : reads m -> frame π m.
Proof. intros Hm db a db' H. by apply Hm in H as ->. Qed.

Lemma frame_for {A C} (π : PhaseDb -> C) (f : A -> PTx unit) xs : (forall x, frame π (f x)) -> frame π (p_for xs f).
Proof.
  intros Hf. induction xs as [|x xs IH]; cbn; [apply frame_reads, reads_ret|]. by apply frame_bind.
Qed.

Create HintDb frame.
Ltac frame_tac :=
  repeat first
    [ solve [eauto with frame]
    | apply frame_reads; solve [auto with phase]
    | apply frame_bind; [|intros ?]
    | apply frame_for; intros ?
    | case_match ].

(** ** The invariant *)

Definition keyed {R} (id : R -> Z) (t : gmap Z R) : Prop := forall k r, t !! k = Some r -> id r = k.

Definition charges_of (db : PhaseDb) (campaign : Z) (pool : Pool) : Z :=
  Z.of_nat (size (filter (fun kc => ch_campaign_id kc.2 = campaign /\ ch_pool kc.2 = pool) (p_charges db))).

(** A pool that pays for jobs of this kind and band. *)
Definition pays_for (j : JobRow) (pool : Pool) : Prop :=
  exists class, Admission.compatible class (j_kind j) (j_scheduling_band j) = true /\ pool ∈ pools class.

Record ledger_ok (db : PhaseDb) : Prop := {
  spending_exact : forall c s pool, p_spending db !! c = Some s -> spent_on s pool = charges_of db c pool;
  spending_bounded : forall c s, p_spending db !! c = Some s ->
    exists row p, p_campaigns db !! c = Some row /\ cm_effective_policy row = PolicyV2 p /\
                  v2_validate p = Ok tt /\ within_capacity p s;
  charges_owned : forall job ch, p_charges db !! job = Some ch ->
    is_Some (p_spending db !! ch_campaign_id ch) /\
    exists j, p_jobs db !! job = Some j /\ j_campaign_id j = Some (ch_campaign_id ch) /\ pays_for j (ch_pool ch);
}.

Definition intent_ok (i : Intent) : Prop :=
  it_revision i = it_logical_sequence i + 1 /\
  match it_kind i with
  | InitialHandoff => it_logical_sequence i = 0 /\ it_continuation_class i = None
  | LogicalContinuation => 0 < it_logical_sequence i /\ is_Some (it_continuation_class i)
  end /\
  match it_state i with
  | Pending => it_block_reason i = None /\ it_admitted_job_id i = None
  | Blocked => is_Some (it_block_reason i)
  | IAdmitted => it_block_reason i = None /\ is_Some (it_admitted_job_id i)
  | Complete => is_Some (it_admitted_job_id i)
  end.

Record PInv (db : PhaseDb) : Prop := {
  inv_jobs : keyed j_id (p_jobs db);
  inv_jobs_unique : jobs_unique (p_jobs db) = true;
  inv_campaigns : keyed cm_id (p_campaigns db);
  inv_generations : keyed g_id (p_generations db);
  inv_active_campaign : unique_on Campaigns.active_key (p_campaigns db) = true;
  inv_active_generation : unique_on Generations.active_key (p_generations db) = true;
  inv_ledger : ledger_ok db;
  inv_lead_intents : map_Forall (fun _ => intent_ok) (p_lead_intents db);
  inv_finding_intents : map_Forall (fun _ => intent_ok) (p_finding_intents db);
}.

(** ** Evolution *)

Definition same_job (j j' : JobRow) : Prop :=
  j_id j' = j_id j /\ j_repo_id j' = j_repo_id j /\ j_kind j' = j_kind j /\ j_campaign_id j' = j_campaign_id j /\
  j_scheduling_band j' = j_scheduling_band j.

(** A campaign keeps what it was opened with, the commit it was pinned to, and
    once it has ended everything. *)
Definition same_campaign (c c' : Campaign) : Prop :=
  cm_id c' = cm_id c /\ cm_repo_id c' = cm_repo_id c /\ cm_effective_policy c' = cm_effective_policy c /\
  (cm_recipe c' = cm_recipe c /\ cm_trigger c' = cm_trigger c /\ cm_deadline_at c' = cm_deadline_at c /\
   cm_created_at c' = cm_created_at c) /\
  (forall g, cm_generation_id c = Some g ->
     cm_generation_id c' = Some g /\ cm_target_commit_sha c' = cm_target_commit_sha c) /\
  (cm_state c <> CmActive -> c' = c).

(** What never changes about a handoff, how its revisions advance, and that a
    revision is admitted for one job only. *)
Definition intent_evolves (i i' : Intent) : Prop :=
  (it_repo_id i' = it_repo_id i /\ it_source_commit_sha i' = it_source_commit_sha i /\
   it_profile_version i' = it_profile_version i /\ it_profile_digest i' = it_profile_digest i /\
   it_priority i' = it_priority i /\ it_created_at i' = it_created_at i) /\
  it_revision i <= it_revision i' /\
  (it_state i = Complete -> it_state i' = Complete /\ it_revision i' = it_revision i) /\
  (it_revision i' = it_revision i -> forall job, it_admitted_job_id i = Some job -> it_admitted_job_id i' = Some job).

(** Every row of [t] is still in [t'], related by [R]. *)
Definition kept {A} (R : A -> A -> Prop) (t t' : gmap Z A) : Prop :=
  forall k r, t !! k = Some r -> exists r', t' !! k = Some r' /\ R r r'.

Record evolves_p (db db' : PhaseDb) : Prop := {
  ev_jobs : kept same_job (p_jobs db) (p_jobs db');
  ev_campaigns : kept same_campaign (p_campaigns db) (p_campaigns db');
  ev_lead_intents : kept intent_evolves (p_lead_intents db) (p_lead_intents db');
  ev_finding_intents : kept intent_evolves (p_finding_intents db) (p_finding_intents db');
}.

#[export] Instance same_job_preorder : PreOrder same_job.
Proof. split; [by intros j|]. unfold same_job. intros a b c ? ?. naive_solver congruence. Qed.
#[export] Instance same_campaign_preorder : PreOrder same_campaign.
Proof.
  split; [by intros c; split_and!|].
  intros a b c (? & ? & ? & (? & ? & ? & ?) & Gb & Fb) (? & ? & ? & (? & ? & ? & ?) & Gc & Fc).
  split_and!; try congruence.
  - intros g Hg. destruct (Gb _ Hg) as [Hg' ?]. destruct (Gc _ Hg') as [? ?]. split; congruence.
  - intros Ha. pose proof (Fb Ha) as ->. auto.
Qed.

#[export] Instance intent_evolves_preorder : PreOrder intent_evolves.
Proof.
  split.
  - intros i. by split_and!.
  - intros a b c (Pb & Rb & Cb & Ab) (Pc & Rc & Cc & Ac). split; [naive_solver congruence|]. split; [lia|]. split.
    + intros H. destruct (Cb H) as [Hb ?]. destruct (Cc Hb) as [Hc ?]. split; [done|lia].
    + intros H job Hj. apply Ac; [lia|]. apply Ab; [lia|done].
Qed.

#[export] Instance kept_preorder {A} (R : A -> A -> Prop) `{!PreOrder R} : PreOrder (kept R).
Proof.
  split.
  - intros t k r H. by exists r.
  - intros t1 t2 t3 H12 H23 k r (r2 & H2 & R2)%H12. destruct (H23 _ _ H2) as (r3 & H3 & R3).
    exists r3. split; [done|]. by etrans.
Qed.

#[export] Instance evolves_p_preorder : PreOrder evolves_p.
Proof.
  split.
  - by intros db; split.
  - intros a b c [] []. split; by etrans.
Qed.

(** ** The program logic *)

Definition maintains {A} (m : PTx A) : Prop :=
  forall db a db', PInv db -> m db = Ok (a, db') -> PInv db' /\ evolves_p db db'.

Lemma maintains_bind {A B} (m : PTx A) (f : A -> PTx B) : maintains m -> (forall a, maintains (f a)) -> maintains (m ≫= f).
Proof.
  intros Hm Hf db b db' Hi (a & d & H1 & H2)%p_bind_Ok. apply Hm in H1 as [I1 E1]; [|done].
  apply Hf in H2 as [I2 E2]; [|done]. split; [done|]. by etrans.
Qed.

Lemma maintains_reads {A} (m : PTx A) : reads m -> maintains m.
Proof. intros Hm db a db' Hi H. by apply Hm in H as ->. Qed.

Lemma maintains_for {A} (f : A -> PTx unit) xs : (forall x, maintains (f x)) -> maintains (p_for xs f).
Proof.
  intros Hf. induction xs as [|x xs IH]; cbn; [apply maintains_reads, reads_ret|]. apply maintains_bind; [done|]. by intros _.
Qed.

(** ** Statements *)

Lemma kept_update {A} (R : A -> A -> Prop) `{!Reflexive R} (P : A -> bool) f t :
  (forall r, P r = true -> R r (f r)) -> kept R t (sql_update P f t).
Proof.
  intros Hf k r H. exists (if P r then f r else r). rewrite lookup_sql_update, H. split; [done|].
  destruct (P r) eqn:E; [by apply Hf|done].
Qed.

Lemma kept_insert {A} (R : A -> A -> Prop) `{!Reflexive R} t k r :
  (forall old, t !! k = Some old -> R old r) -> kept R t (<[k := r]> t).
Proof.
  intros Hr i x H. destruct (decide (i = k)) as [->|Hn].
  - exists r. rewrite lookup_insert_eq. auto.
  - exists x. by rewrite lookup_insert_ne.
Qed.

Lemma keyed_update {A} (id : A -> Z) (P : A -> bool) f t :
  (forall r, id (f r) = id r) -> keyed id t -> keyed id (sql_update P f t).
Proof.
  intros Hf Hk k r (r0 & H & ->)%lookup_sql_update_Some. destruct (P r0); rewrite ?Hf; by apply Hk.
Qed.

Lemma keyed_insert {A} (id : A -> Z) t k r : id r = k -> keyed id t -> keyed id (<[k := r]> t).
Proof. intros Hr Hk i x [[-> <-]|[_ H]]%lookup_insert_Some; [done|by apply Hk]. Qed.

(** The ledger survives changes that keep jobs and the policies of campaigns. *)
Lemma ledger_kept db db' :
  ledger_ok db -> p_spending db' = p_spending db -> p_charges db' = p_charges db ->
  kept same_job (p_jobs db) (p_jobs db') ->
  kept (fun c c' => cm_effective_policy c' = cm_effective_policy c) (p_campaigns db) (p_campaigns db') -> ledger_ok db'.
Proof.
  intros [He Hb Ho] Es Ec Hj Hc. split; unfold charges_of; rewrite ?Es, ?Ec.
  - apply He.
  - intros c s (row & p & Hr & Hp & Hv & Hw)%Hb. destruct (Hc _ _ Hr) as (row' & Hr' & Hp').
    exists row', p. rewrite Hp'. auto.
  - intros job ch (Hs & j & Hjob & Hcm & class & Hk & Hpool)%Ho. split; [done|].
    destruct (Hj _ _ Hjob) as (j' & Hj' & (_ & _ & Ek & Ecm & Eb)). exists j'. split; [done|].
    split; [congruence|]. exists class. by rewrite Ek, Eb.
Qed.

Lemma ledger_mono db db' :
  ledger_ok db -> p_spending db' = p_spending db -> p_charges db' = p_charges db ->
  kept same_job (p_jobs db) (p_jobs db') -> kept same_campaign (p_campaigns db) (p_campaigns db') -> ledger_ok db'.
Proof.
  intros HL Es Ec Hj Hc. eapply ledger_kept; try done. intros k c Hk. destruct (Hc _ _ Hk) as (c' & Hc' & _ & _ & Hp & _).
  by exists c'.
Qed.

(** The unique index of active generations holds on as long as none is activated. *)
Lemma active_generations_kept (t t' : gmap Z Generation) :
  unique_on Generations.active_key t = true ->
  (forall id g, t' !! id = Some g -> g_state g = GActive ->
     exists g0, t !! id = Some g0 /\ g_state g0 = GActive /\ g_repo_id g = g_repo_id g0) ->
  unique_on Generations.active_key t' = true.
Proof.
  rewrite !unique_on_true. intros Hu Hg.
  assert (forall id g k, t' !! id = Some g -> Generations.active_key g = Some k ->
    exists g0, t !! id = Some g0 /\ Generations.active_key g0 = Some k) as Ha.
  { unfold Generations.active_key. intros id g k Hid Hk. case_bool_decide; [|done].
    destruct (Hg _ _ Hid) as (g0 & Hg0 & Hst & Er); [done|]. exists g0. split; [done|].
    rewrite bool_decide_true by done. congruence. }
  intros i j ri rj k Hi Hj Hki Hkj. destruct (Ha _ _ _ Hi Hki) as (? & ? & ?), (Ha _ _ _ Hj Hkj) as (? & ? & ?).
  by eapply Hu.
Qed.

(** A statement on tables the invariant does not mention. *)
Lemma maintains_other {A} (m : PTx A) :
  (forall db a db', m db = Ok (a, db') ->
    p_jobs db' = p_jobs db /\ p_campaigns db' = p_campaigns db /\ p_generations db' = p_generations db /\
    p_lead_intents db' = p_lead_intents db /\ p_finding_intents db' = p_finding_intents db /\
    p_spending db' = p_spending db /\ p_charges db' = p_charges db) ->
  maintains m.
Proof.
  intros Hm db a db' [] (E1 & E2 & E3 & E4 & E5 & E6 & E7)%Hm. split; split; rewrite ?E1, ?E2, ?E3, ?E4, ?E5; try done.
  eapply ledger_mono; [done..|by rewrite E1|by rewrite E2].
Qed.

Lemma maintains_update_jobs P f : (forall j, same_job j (f j)) -> maintains (p_update_jobs P f).
Proof.
  intros Hf db n db' [] (Hu & _ & ->)%p_update_jobs_Ok.
  assert (kept same_job (p_jobs db) (sql_update P f (p_jobs db))) as Hk by (apply kept_update; [apply _|auto]).
  split; split; try done; cbn.
  - apply keyed_update; [|done]. intros j. apply Hf.
  - by eapply ledger_mono.
Qed.

Lemma maintains_insert_row row : (forall id, j_id (row id) = id) -> maintains (Preparation.insert_row row).
Proof.
  intros Hr db id db' [] H. unfold Preparation.insert_row in H. destruct (next_rowid (p_jobs db)) as [k|] eqn:E; [|done].
  case_match; [|done]. bool_prop. injection H as <- <-.
  assert (kept same_job (p_jobs db) (<[k := row k]> (p_jobs db))) as Hk.
  { apply kept_insert; [apply _|]. intros old Ho. by rewrite (next_rowid_fresh _ _ E) in Ho. }
  split; split; try done; cbn.
  - by apply keyed_insert.
  - by eapply ledger_mono.
Qed.

Lemma maintains_update_generation repo id P f duplicate conflict :
  (forall g, g_id (f g) = g_id g) -> maintains (Generations.update repo id P f duplicate conflict).
Proof.
  intros Hf db u db' [] H. unfold Generations.update in H.
  destruct (unique_on _ _) eqn:Eu in H; [|done]. destruct (changed _ _) in H; [|done]. injection H as <- <-.
  split; split; try done; cbn; [by apply keyed_update|by eapply ledger_mono].
Qed.

Lemma maintains_insert_generation repo new now : maintains (Generations.insert repo new now).
Proof.
  intros db id db' [] H. unfold Generations.insert in H. destruct (next_rowid (p_generations db)) as [k|] eqn:E; [|done].
  injection H as <- <-. split; split; try done; cbn; [by apply keyed_insert| |by eapply ledger_mono].
  by apply unique_on_insert; [apply next_rowid_fresh|intros ? ? ? _ _|].
Qed.

Lemma maintains_insert_campaign repo new policy now : maintains (Campaigns.insert repo new policy now).
Proof.
  intros db id db' [] H. unfold Campaigns.insert in H. destruct (next_rowid (p_campaigns db)) as [k|] eqn:E; [|done].
  destruct (unique_on _ _) eqn:Eu in H; [|done]. injection H as <- <-.
  match goal with |- PInv (_ <|p_campaigns := ?t|>) /\ _ =>
    assert (kept same_campaign (p_campaigns db) t) as Hk end.
  { apply kept_insert; [apply _|]. intros old Ho. by rewrite (next_rowid_fresh _ _ E) in Ho. }
  split; split; try done; cbn; [by apply keyed_insert|by eapply ledger_mono].
Qed.

(** A change of one table of intents. *)
Lemma maintains_set_table s t (db : PhaseDb) :
  PInv db -> map_Forall (fun _ => intent_ok) t -> kept intent_evolves (Intents.table s db) t ->
  PInv (Intents.set_table s t db) /\ evolves_p db (Intents.set_table s t db).
Proof.
  intros [] Ht Hk. destruct s; cbn in *; (split; split; try done; cbn; by eapply ledger_mono).
Qed.

Lemma table_ok s db : PInv db -> map_Forall (fun _ => intent_ok) (Intents.table s db).
Proof. intros []. by destruct s. Qed.

Lemma maintains_insert_intent s i : intent_ok i -> maintains (Intents.insert_intent s i).
Proof.
  intros Hi db u db' HI H. unfold Intents.insert_intent in H. destruct (_ || _) eqn:E in H; [done|].
  injection H as <- <-. bool_prop. apply maintains_set_table; [done| |].
  - by apply map_Forall_insert_2; [|apply table_ok].
  - apply kept_insert; [apply _|]. intros old Ho. by rewrite Ho in *.
Qed.

Lemma maintains_update_intent s P f c :
  (forall i, intent_ok i -> P i = true -> intent_ok (f i) /\ intent_evolves i (f i)) ->
  maintains (Intents.update_intent s P f c).
Proof.
  intros Hf db u db' HI H. unfold Intents.update_intent in H.
  destruct (Intents.table s db !! _) as [i|] eqn:Ei; [|done]. destruct (P i) eqn:EP; [|done]. injection H as <- <-.
  destruct (Hf i) as [Ho He]; [by eapply table_ok|done|].
  apply maintains_set_table; [done| |].
  - by apply map_Forall_insert_2; [|apply table_ok].
  - apply kept_insert; [apply _|]. intros old Hold. simplify_eq. done.
Qed.
