(* ===== verification/PhaseInvariant.v ===== *)
(** * The operations of the phase runtime keep its invariant

    Every operation of [PhaseControl] keeps [PInv] and is an instance of
    [evolves_p]. *)

From S2P Require Import Prelude Sql Domain StateMachine Vocabulary SchedPolicy Store Scope Jobs AdmissionPolicy PhaseStore PhaseControl PhaseLogic.
From Stdlib Require Import ZArith Lia.
From stdpp Require Import base gmap list strings relations.
Local Open Scope Z_scope.

Ltac maintains_tac :=
  repeat first
    [ solve [eauto with phase]
    | apply maintains_reads; solve [auto with phase]
    | apply maintains_bind; [|intros ?]
    | case_match ].

(** ** Generations and campaigns *)

Lemma maintains_retire_superseded repo id now : maintains (Generations.retire_superseded_raw repo id now).
Proof. by apply maintains_update_generation. Qed.
#[export] Hint Resolve maintains_retire_superseded maintains_insert_generation maintains_insert_campaign : phase.
#[export] Hint Extern 1 (maintains (Generations.update _ _ _ _ _ _)) => apply maintains_update_generation; done : phase.

Lemma maintains_create_generation scope new now : maintains (Generations.create scope new now).
Proof. unfold Generations.create. maintains_tac. Qed.

Lemma maintains_activate scope id now : maintains (Generations.activate scope id now).
Proof. unfold Generations.activate, Generations.activate_raw. maintains_tac. Qed.

Lemma maintains_retire scope id reason now : maintains (Generations.retire scope id reason now).
Proof. unfold Generations.retire. maintains_tac. Qed.

Lemma maintains_abandon scope id reason now : maintains (Generations.abandon scope id reason now).
Proof. unfold Generations.abandon. maintains_tac. Qed.

Lemma maintains_abandon_bootstrap scope id now : maintains (Generations.abandon_superseded_bootstrap scope id now).
Proof. unfold Generations.abandon_superseded_bootstrap. maintains_tac. Qed.

Lemma maintains_set_profile scope id version profile : maintains (Generations.set_profile scope id version profile).
Proof. unfold Generations.set_profile. maintains_tac. Qed.

Lemma maintains_set_corroboration scope id state : maintains (Generations.set_corroboration scope id state).
Proof. unfold Generations.set_corroboration. maintains_tac. Qed.

Lemma maintains_set_follow_up scope id follow_up : maintains (Generations.set_pending_follow_up scope id follow_up).
Proof. unfold Generations.set_pending_follow_up. maintains_tac. Qed.

Lemma maintains_create_campaign scope new now : maintains (Campaigns.create scope new now).
Proof. unfold Campaigns.create. maintains_tac. Qed.

(** ** Handoffs *)

Lemma maintains_insert_initial s p priority now : maintains (Intents.insert_initial s p priority now).
Proof. unfold Intents.insert_initial. maintains_tac. by apply maintains_insert_intent. Qed.
#[export] Hint Resolve maintains_insert_initial : phase.

Lemma maintains_ensure_drilldown repo lead job priority now :
  maintains (Intents.ensure_drilldown_intent_raw repo lead job priority now).
Proof. unfold Intents.ensure_drilldown_intent_raw. maintains_tac. Qed.

Lemma maintains_ensure_verification repo finding job priority now :
  maintains (Intents.ensure_verification_intent_raw repo finding job priority now).
Proof. unfold Intents.ensure_verification_intent_raw. maintains_tac. Qed.

Lemma maintains_reopen_lead s : maintains (Intents.reopen_lead s).
Proof. apply maintains_other. intros db a db'. destruct s; by intros [= <- <-]. Qed.
#[export] Hint Resolve maintains_reopen_lead : phase.

Lemma maintains_admit repo s revision child now : maintains (Intents.admit_subject_raw repo s revision child now).
Proof.
  unfold Intents.admit_subject_raw. maintains_tac. apply maintains_update_intent.
  intros i (Hr & Hk & Hst) HP. rewrite !andb_true_iff, bool_decide_eq_true in HP. destruct HP as [[[_ Hp] _] _].
  rewrite Hp in Hst. destruct Hst as [Hb Ha]. split; [|split_and!; cbn; try done; intros; congruence].
  split_and!; [done|done|]. cbn. split; [done|by eexists].
Qed.

Lemma maintains_finish repo s job now : maintains (Intents.finish_subject_intent_raw repo s job now).
Proof.
  unfold Intents.finish_subject_intent_raw. maintains_tac. apply maintains_update_intent.
  intros i (Hr & Hk & _) HP. rewrite andb_true_iff, bool_decide_eq_true, sql_eq_true in HP. destruct HP as [_ Hj].
  split; [|split_and!; cbn; try done; intros; congruence].
  split_and!; [done|done|]. cbn. by eexists.
Qed.

(** The state a continuation starts in. *)
Lemma continuation_state_ok policy class sequence now st :
  Intents.continuation_state policy class sequence now = Ok st ->
  match st.1.1 with
  | Pending => st.2 = None
  | Blocked => is_Some st.2
  | _ => False
  end.
Proof.
  unfold Intents.continuation_state. destruct class; [|by intros [= <-]; cbn..].
  case_match; [done|]. by intros (at_ & _ & [= <-])%result_bind_Ok.
Qed.

Lemma get_subject_ok repo s db i : PInv db -> Intents.get_subject_raw repo s db = Some i -> intent_ok i.
Proof.
  intros HI. unfold Intents.get_subject_raw. destruct (Intents.table s db !! _) as [x|] eqn:E; [|done]. cbn.
  case_match; [|done]. intros [= <-]. by eapply table_ok.
Qed.

Lemma maintains_continue repo s job class now : maintains (Intents.continue_subject_raw repo s job class now).
Proof.
  intros db a db' HI H. unfold Intents.continue_subject_raw in H. p_inv H.
  pose proof (get_subject_ok _ _ _ _ HI Hs) as (Hr & _ & _).
  pose proof (continuation_state_ok _ _ _ _ _ Hs4) as Hst.
  destruct (checked_add (it_logical_sequence _) 1) as [q|] eqn:Eq; [|done].
  destruct (checked_add (it_revision _) 1) as [r|] eqn:Er; [|done]. cbn in Hs2, Hs3. simplify_eq.
  apply to_i64_Some in Eq as [-> _], Er as [-> _].
  revert HI Hs5. apply maintains_update_intent.
  intros i (Hri & Hki & Hsi) HP. bool_prop.
  assert (0 <= it_logical_sequence i) by (destruct (it_kind i); lia). split.
  - split_and!; cbn; [lia|split; [lia|by eexists]|]. by destruct (a5.1.1).
  - split_and!; cbn; try done; [lia|congruence|lia].
Qed.

(** An update of one table of intents that touches admitted rows. *)
Lemma blocked_table (P : Intent -> bool) f t :
  (forall i, P i = true -> it_state i <> Complete) ->
  (forall i, intent_ok i -> P i = true -> intent_ok (f i) /\ (it_state i <> Complete -> intent_evolves i (f i))) ->
  map_Forall (fun _ => intent_ok) t ->
  map_Forall (fun _ => intent_ok) (sql_update P f t) /\ kept intent_evolves t (sql_update P f t).
Proof.
  intros HP Hf Ht. split.
  - intros k i (i0 & Hi & ->)%lookup_sql_update_Some. apply Ht in Hi. destruct (P i0) eqn:E; [by apply Hf|done].
  - intros k i Hi. exists (if P i then f i else i). rewrite lookup_sql_update, Hi. split; [done|].
    apply Ht in Hi. destruct (P i) eqn:E; [by apply Hf; [| |apply HP]|done].
Qed.

Lemma maintains_block_intents job reason now : maintains (Intents.block_intents job reason now).
Proof.
  intros db u db' HI [= <- <-]. pose proof HI as [].
  match goal with |- PInv (_ <|p_lead_intents := sql_update ?P ?f _|> <|p_finding_intents := _|>) /\ _ =>
    assert (forall t, map_Forall (fun _ => intent_ok) t ->
      map_Forall (fun _ => intent_ok) (sql_update P f t) /\ kept intent_evolves t (sql_update P f t)) as Hb end.
  { intros t. apply blocked_table.
    - intros i HP. bool_prop. congruence.
    - intros i (Hr & Hk & _) _. split; [|intros Hc; split_and!; cbn; try done; intros; congruence].
      split_and!; [done|done|]. cbn. by eexists. }
  destruct (Hb _ inv_lead_intents) as [L1 L2], (Hb _ inv_finding_intents) as [F1 F2].
  split; split; try done; cbn. by eapply ledger_mono.
Qed.

Lemma maintains_block_job_work repo job reason now : maintains (Intents.block_job_work_raw repo job reason now).
Proof.
  unfold Intents.block_job_work_raw. maintains_tac; [apply maintains_block_intents|apply maintains_other..];
    by intros ? ? ? [= <- <-].
Qed.
#[export] Hint Resolve maintains_block_job_work : phase.

(** ** Lifecycle *)

Lemma maintains_clear_prepared job : maintains (Lifecycle.clear_prepared job).
Proof. apply maintains_other. by intros db a db' [= <- <-]. Qed.
#[export] Hint Resolve maintains_clear_prepared : phase.
#[export] Hint Extern 1 (maintains (p_update_jobs _ _)) => apply maintains_update_jobs; done : phase.

Lemma maintains_terminalize repo job now state message reason :
  maintains (Lifecycle.terminalize repo job now state message reason).
Proof. unfold Lifecycle.terminalize. maintains_tac. Qed.
#[export] Hint Resolve maintains_terminalize : phase.

Lemma maintains_requeue repo job eligible error : maintains (Lifecycle.requeue repo job eligible error).
Proof. unfold Lifecycle.requeue. maintains_tac. Qed.
#[export] Hint Resolve maintains_requeue : phase.

Lemma maintains_retry json_payload repo job now error : maintains (Lifecycle.retry_or_fail json_payload repo job now error).
Proof. unfold Lifecycle.retry_or_fail. maintains_tac. Qed.

Lemma maintains_cancel scope job now : maintains (Lifecycle.cancel scope job now).
Proof. unfold Lifecycle.cancel. maintains_tac. Qed.

Lemma maintains_cancel_queued repo campaign now error : maintains (Lifecycle.cancel_queued repo campaign now error).
Proof. unfold Lifecycle.cancel_queued, Lifecycle.cancel_queued_reason. maintains_tac; apply maintains_for; auto with phase. Qed.

Lemma maintains_heartbeat repo job now lease grace : maintains (Lifecycle.heartbeat repo job now lease grace).
Proof. unfold Lifecycle.heartbeat. maintains_tac. Qed.

(** ** Admission *)

Lemma load_policy_Ok repo campaign db p db' :
  Admission.load_policy_raw repo campaign db = Ok (p, db') ->
  db' = db /\ exists row, p_campaigns db !! campaign = Some row /\ cm_repo_id row = repo /\
                        cm_effective_policy row = PolicyV2 p /\ v2_validate p = Ok tt.
Proof.
  intros H. unfold Admission.load_policy_raw in H. p_inv H. split; [done|]. unfold get_campaign in Hs.
  destruct (p_campaigns db !! campaign) as [row|]; [|done]. cbn in Hs. case_match; [|done]. bool_prop. simplify_eq.
  exists a. unfold Admission.stored_policy in H. destruct (cm_effective_policy a) as [|q|]; try done.
  destruct (v2_validate q) as [[]|] eqn:E; [|done]. by simplify_eq.
Qed.

Lemma charges_of_none db campaign pool :
  ledger_ok db -> p_spending db !! campaign = None -> charges_of db campaign pool = 0.
Proof.
  intros [_ _ Ho] Hn. unfold charges_of.
  rewrite map_empty_filter_2; [done|]. intros job ch Hch [Hc _]. apply Ho in Hch as [[s Hs] _]. cbn in Hc. congruence.
Qed.

Lemma charges_of_insert db db' job ch campaign pool :
  p_charges db !! job = None -> p_charges db' = <[job := ch]> (p_charges db) ->
  charges_of db' campaign pool =
  charges_of db campaign pool +
  (if decide (ch_campaign_id ch = campaign /\ ch_pool ch = pool) then 1 else 0).
Proof.
  intros Hn E. unfold charges_of. rewrite E.
  destruct (decide (ch_campaign_id ch = campaign /\ ch_pool ch = pool)) as [Hc|Hc].
  - rewrite map_filter_insert_True by done. rewrite map_size_insert_None; [lia|].
    apply map_lookup_filter_None. by left.
  - rewrite map_filter_insert_False by done. rewrite delete_id by done. lia.
Qed.

Lemma maintains_insert_spending db campaign s db' row p :
  PInv db -> p_spending db !! campaign = None -> p_campaigns db !! campaign = Some row ->
  cm_effective_policy row = PolicyV2 p -> v2_validate p = Ok tt ->
  Admission.insert_spending campaign db = Ok (s, db') -> PInv db' /\ evolves_p db db'.
Proof.
  intros HI Hn Hr Hp Hv [= <- <-]. pose proof HI as []. split; split; try done. cbn. split; cbn.
  - intros c s pool [[<- <-]|[Hc Hs]]%lookup_insert_Some.
    + change (charges_of _ ?c ?q) with (charges_of db c q). rewrite charges_of_none by done. by destruct pool.
    + by apply (spending_exact _ inv_ledger).
  - intros c s [[<- <-]|[Hc Hs]]%lookup_insert_Some; [|by apply (spending_bounded _ inv_ledger)].
    exists row, p. split_and!; try done. pose proof (v2_validate_Ok _ Hv) as (_ & ? & ? & ?).
    intros []; cbn; lia.
  - intros job ch [Hs Hj]%(charges_owned _ inv_ledger). split; [|done].
    apply lookup_insert_is_Some. destruct (decide (campaign = ch_campaign_id ch)); auto.
Qed.

Lemma maintains_initialize_raw repo campaign : maintains (Admission.initialize_raw repo campaign).
Proof.
  intros db a db' HI H. unfold Admission.initialize_raw in H. p_inv H.
  apply load_policy_Ok in Hs0 as (_ & row & Hr & Hrepo & Hp & Hv).
  unfold Admission.get_spending_raw, get_campaign in H. rewrite Hr in H. cbn in H.
  rewrite (proj2 (Z.eqb_eq _ _) Hrepo) in H. cbn in H. destruct (p_spending db !! campaign) as [s|] eqn:Es; cbn in H.
  - revert H. apply maintains_reads; [|done]. reads_tac.
  - p_inv H. by eapply maintains_insert_spending.
Qed.

(** What a choice of pool says of the spending and of the pool. *)
Lemma choose_pool_sound policy spent class pool :
  choose_pool policy spent class = Ok (SPool pool) ->
  within_capacity policy spent /\ pool ∈ pools class /\ spent_on spent pool < capacity policy pool.
Proof.
  unfold choose_pool. intros (g & [Hv ->]%general_capacity_Ok & H)%result_bind_Ok.
  apply result_bind_Ok in H as (n & Ht & H). apply spending_total_Ok in Ht as (Hg & Hu & Hve & ->).
  destruct (_ || _) eqn:Eo in H; [done|]. bool_prop. split; [intros []; cbn in *; lia|].
  case_match; [done|]. destruct (List.find _ _) as [q|] eqn:Ef in H; [|done]. injection H as <-.
  apply List.find_some in Ef as [Hin Hlt]. split; [by apply list_elem_of_In|]. by destruct q; bool_prop; cbn in *.
Qed.

Lemma spent_on_spend s pool pool' :
  spent_on (Admission.spend s pool) pool' = spent_on s pool' + (if decide (pool = pool') then 1 else 0).
Proof. destruct pool, pool'; case_decide; cbn; done || lia. Qed.

Lemma maintains_record_charge db job campaign pool u db' s p row j :
  PInv db -> p_spending db !! campaign = Some s -> p_campaigns db !! campaign = Some row ->
  cm_effective_policy row = PolicyV2 p -> spent_on s pool < capacity p pool ->
  p_jobs db !! job = Some j -> j_campaign_id j = Some campaign -> pays_for j pool ->
  Admission.record_charge job campaign pool db = Ok (u, db') -> PInv db' /\ evolves_p db db'.
Proof.
  intros HI Hs Hr Hp Hlt Hj Hjc Hpay H. unfold Admission.record_charge in H.
  destruct (p_charges db !! job) as [?|] eqn:Ech; [done|]. injection H as <- <-.
  pose proof HI as []. pose proof inv_ledger as [He Hb Ho]. split; split; try done. cbn.
  assert (forall db1 c q, p_charges db1 = <[job := {| ch_campaign_id := campaign; ch_pool := pool |}]> (p_charges db) ->
    charges_of db1 c q = charges_of db c q + (if decide (campaign = c /\ pool = q) then 1 else 0)) as Hcount.
  { intros db1 c q E. by apply (charges_of_insert _ _ _ _ _ _ Ech E). }
  split; cbn.
  - intros c s' q H. rewrite Hcount by done. destruct (decide (campaign = c)) as [<-|Hn].
    + rewrite lookup_alter_eq, Hs in H. injection H as <-. rewrite spent_on_spend, (He _ _ q Hs).
      destruct (decide (pool = q)), (decide (campaign = campaign /\ pool = q)); naive_solver.
    + rewrite lookup_alter_ne in H by done. rewrite decide_False by naive_solver. rewrite (He _ _ q H). lia.
  - intros c s' H. destruct (decide (campaign = c)) as [<-|Hn].
    + rewrite lookup_alter_eq, Hs in H. injection H as <-. destruct (Hb _ _ Hs) as (row' & p' & Hr' & Hp' & Hv & Hw).
      assert (row' = row) as -> by congruence. assert (p' = p) as -> by congruence.
      exists row, p. split_and!; [done..|]. intros q. specialize (Hw q). rewrite spent_on_spend.
      destruct (decide (pool = q)) as [<-|]; lia.
    + rewrite lookup_alter_ne in H by done. by apply Hb.
  - intros job' ch [[<- <-]|[Hn H]]%lookup_insert_Some; cbn.
    + split; [|by exists j]. rewrite lookup_alter_eq, Hs. by eexists.
    + apply Ho in H as [[x Hx] Hrest]. split; [|done]. apply lookup_alter_is_Some. by eexists.
Qed.

Lemma get_campaign_Some repo id db c :
  get_campaign repo id db = Some c <-> p_campaigns db !! id = Some c /\ cm_repo_id c = repo.
Proof.
  unfold get_campaign. destruct (p_campaigns db !! id) as [x|]; cbn; [|naive_solver].
  case_match; bool_prop; naive_solver.
Qed.

Lemma get_job_Some repo id db j : get_job repo id db = Some j <-> p_jobs db !! id = Some j /\ j_repo_id j = repo.
Proof.
  unfold get_job. destruct (p_jobs db !! id) as [x|]; cbn; [|naive_solver].
  case_match; bool_prop; naive_solver.
Qed.

Lemma maintains_charge_raw repo job class now : maintains (Admission.charge_raw repo job class now).
Proof.
  intros db a db' HI H. unfold Admission.charge_raw in H. p_inv H.
  apply load_policy_Ok in Hs2 as (_ & row & Hr & Hrepo & Hp & Hv).
  case_match eqn:Eex.
  { revert H. apply maintains_reads; [|done]. reads_tac. }
  p_inv H. destruct a8 as [pool|]; [|by apply p_ret_Ok in H as [_ ->]].
  p_inv H. apply choose_pool_sound in Hs7 as (Hw & Hin & Hlt). apply get_job_Some in Hs as [Hj _].
  destruct (j_campaign_id a0) as [c|] eqn:Ec; [|done]. cbn in Hs0. injection Hs0 as ->.
  unfold Admission.get_spending_raw in Hs4. destruct (p_spending db !! a1) as [s|] eqn:Es; [|done]. cbn in Hs4.
  destruct (get_campaign _ a1 db); [|done]. cbn in Hs4. injection Hs4 as ->. bool_prop.
  eapply maintains_record_charge; try done. by exists class.
Qed.
#[export] Hint Resolve maintains_charge_raw maintains_initialize_raw : phase.

Lemma maintains_charge scope job class now : maintains (Admission.charge scope job class now).
Proof. unfold Admission.charge. maintains_tac. Qed.

Lemma maintains_initialize scope campaign : maintains (Admission.initialize scope campaign).
Proof. unfold Admission.initialize. maintains_tac. Qed.

#[export] Hint Extern 1 (maintains (Preparation.insert_row _)) => apply maintains_insert_row; done : phase.

Lemma maintains_preparation recipe_json scope campaign now :
  maintains (Preparation.create_preparation recipe_json scope campaign now).
Proof.
  unfold Preparation.create_preparation, Preparation.frozen_policy, Preparation.insert_job. maintains_tac.
Qed.
