(* ===== verification/CampaignInvariant.v ===== *)
(** * The campaign workflow keeps the invariant

    Every operation of [CampaignWork] and [CampaignFlow] keeps [PInv] and is an
    instance of [evolves_p]; a reset of a generation keeps [PInv]. *)

From S2P Require Import Prelude Sql Domain StateMachine Vocabulary SchedPolicy Store Scope Jobs AdmissionPolicy PhaseStore PhaseControl CampaignWork CampaignFlow PhaseLogic PhaseInvariant.
From Stdlib Require Import ZArith Lia.
From stdpp Require Import base gmap list strings relations.
Local Open Scope Z_scope.

(** ** Coverage *)

Lemma reads_coverage_rollup repo id : reads (Cover.coverage_rollup_raw repo id).
Proof. unfold Cover.coverage_rollup_raw. reads_tac. Qed.
#[export] Hint Resolve reads_coverage_rollup : phase.

Lemma maintains_set_coverage scope id coverage : maintains (Cover.set_coverage scope id coverage).
Proof. unfold Cover.set_coverage, Cover.set_coverage_raw. maintains_tac. Qed.

(** ** Work *)

Lemma maintains_set_intents s (P : Intent -> bool) reason now :
  (forall i, P i = true -> it_state i <> Complete) -> maintains (Work.set_intents s P (Work.block_intent reason now)).
Proof.
  intros HP db u db' HI [= <- <-].
  destruct (blocked_table P (Work.block_intent reason now) (Intents.table s db) HP) as [Ht Hk]; [|by apply table_ok|].
  - intros i (Hr & Hk & _) _. split; [|intros Hc; split_and!; cbn; try done; intros; congruence].
    split_and!; [done|done|]. cbn. by eexists.
  - by apply maintains_set_table.
Qed.

Lemma maintains_set_holds P f : maintains (Work.set_holds P f).
Proof. apply maintains_other. by intros db a db' [= <- <-]. Qed.
Lemma maintains_set_batches P f : maintains (Work.set_batches P f).
Proof. apply maintains_other. by intros db a db' [= <- <-]. Qed.
Lemma maintains_set_units P f : maintains (Work.set_units P f).
Proof. apply maintains_other. by intros db a db' [= <- <-]. Qed.
#[export] Hint Resolve maintains_set_holds maintains_set_batches maintains_set_units : phase.

Lemma maintains_block_pending repo campaign group deadline reason now :
  maintains (Work.block_pending repo campaign group deadline reason now).
Proof.
  unfold Work.block_pending. maintains_tac; apply maintains_set_intents; intros i HP;
    unfold Work.pending_intent in HP; bool_prop; congruence.
Qed.

Lemma maintains_block repo campaign reason now only : maintains (Work.block repo campaign reason now only).
Proof.
  unfold Work.block. maintains_tac; apply maintains_set_intents; intros i HP; bool_prop; done.
Qed.
#[export] Hint Resolve maintains_block_pending maintains_block : phase.

Lemma maintains_block_all repo campaign reason now : maintains (Work.block_all repo campaign reason now).
Proof. apply maintains_block. Qed.
Lemma maintains_block_unexplained repo campaign now : maintains (Work.block_unexplained repo campaign now).
Proof. apply maintains_block. Qed.
#[export] Hint Resolve maintains_block_all maintains_block_unexplained : phase.

(** ** The end of campaigns *)

Lemma maintains_update_campaign repo id P f conflict :
  (forall c, cm_id (f c) = cm_id c) -> (forall c, P c = true -> same_campaign c (f c)) -> maintains (Ending.update repo id P f conflict).
Proof.
  intros Hi Hf db u db' [] H. unfold Ending.update in H.
  destruct (unique_on _ _) eqn:Eu in H; [|done]. destruct (changed _ _) in H; [|done]. injection H as <- <-.
  match goal with |- PInv (_ <|p_campaigns := ?t|>) /\ _ => assert (kept same_campaign (p_campaigns db) t) as Hk end.
  { apply kept_update; [apply _|]. intros c HP. bool_prop. auto. }
  split; split; try done; cbn; [|by eapply ledger_mono]. by apply keyed_update.
Qed.

Lemma maintains_end_with repo id state reason summary now :
  maintains (Ending.end_campaign repo id state reason summary now).
Proof. apply maintains_update_campaign; [done|]. intros c Hc. bool_prop. by split_and!. Qed.
#[export] Hint Resolve maintains_end_with : phase.

Lemma reads_coverage_now repo generation : reads (Ending.coverage_now repo generation).
Proof. unfold Ending.coverage_now. reads_tac. Qed.
#[export] Hint Resolve reads_coverage_now : phase.

Section Rendering.
Context (counts_json counts_canonical : Ending.CampaignCounts -> str).

Lemma reads_summarize repo id : reads (Ending.summarize_raw counts_json counts_canonical repo id).
Proof. unfold Ending.summarize_raw. reads_tac. Qed.
#[local] Hint Resolve reads_summarize : phase.

Lemma maintains_finish_with scope id summary reason now :
  maintains (Ending.finish_with_reason counts_json counts_canonical scope id summary reason now).
Proof. unfold Ending.finish_with_reason. maintains_tac. Qed.
#[local] Hint Resolve maintains_finish_with : phase.

Lemma maintains_finish_campaign scope id summary reason now :
  maintains (Ending.finish counts_json counts_canonical scope id summary reason now).
Proof. unfold Ending.finish. maintains_tac. Qed.

Lemma maintains_finish_unsupported repo id now :
  maintains (Ending.finish_unsupported counts_json counts_canonical repo id now).
Proof. unfold Ending.finish_unsupported. maintains_tac. Qed.

Lemma maintains_finish_scheduled scope id summary reason now :
  maintains (Ending.finish_scheduled counts_json counts_canonical scope id summary reason now).
Proof. unfold Ending.finish_scheduled. maintains_tac. Qed.

Lemma maintains_end_campaign scope id reason now :
  maintains (Ending.cancel counts_json counts_canonical scope id reason now).
Proof. unfold Ending.cancel. maintains_tac. Qed.

End Rendering.
#[export] Hint Resolve reads_summarize maintains_finish_scheduled maintains_end_campaign : phase.

(** ** The workflow *)

(** A campaign that is active and not pinned yet. *)
Definition unpinned (campaign : Z) (db : PhaseDb) : Prop :=
  forall c, p_campaigns db !! campaign = Some c -> cm_state c = CmActive /\ cm_generation_id c = None.

Lemma set_target_maintains repo campaign sha generation db u db' :
  PInv db -> unpinned campaign db -> Workflow.set_target repo campaign sha generation db = Ok (u, db') ->
  PInv db' /\ evolves_p db db'.
Proof.
  intros [] Hn [= <- <-].
  match goal with |- PInv (_ <|p_campaigns := sql_update ?P ?f ?t|>) /\ _ =>
    assert (kept same_campaign (p_campaigns db) (sql_update P f t)) as Hk end.
  { intros k c Hc. rewrite lookup_sql_update, Hc. eexists. split; [done|]. case_match; [|done]. bool_prop.
    assert (k = campaign) as -> by (rewrite <- (inv_campaigns _ _ Hc); done).
    destruct (Hn _ Hc) as [Hs Hg]. split_and!; [done..| |done]. intros g. by rewrite Hg. }
  split; split; try done; cbn; [by apply keyed_update| |by eapply ledger_mono].
  apply unique_on_update; [|done]. intros c k _. done.
Qed.

Lemma maintains_set_job_generation repo job generation : maintains (Workflow.set_job_generation repo job generation).
Proof. unfold Workflow.set_job_generation. maintains_tac. Qed.

Lemma maintains_abandon_each scope gs now :
  maintains (p_for gs (fun g => Generations.abandon_superseded_bootstrap scope (g_id g) now)).
Proof. apply maintains_for. intros g. apply maintains_abandon_bootstrap. Qed.

Lemma maintains_coalesce_follow_up scope id doc : maintains (Workflow.coalesce_follow_up scope id doc).
Proof. unfold Workflow.coalesce_follow_up. maintains_tac. Qed.

#[export] Hint Resolve maintains_set_job_generation maintains_abandon_each
  maintains_coalesce_follow_up maintains_create_generation maintains_create_campaign maintains_preparation
  maintains_activate maintains_cancel_queued : phase.

(** What [pin] needs unchanged while it chooses a generation. *)
Definition rows (db : PhaseDb) := (p_campaigns db, p_jobs db, p_spending db, p_charges db).

Lemma frame_update_generation repo id P f duplicate conflict :
  frame rows (Generations.update repo id P f duplicate conflict).
Proof. intros db u db'. unfold Generations.update. case_match; [|done]. case_match; [|done]. by intros [= <- <-]. Qed.
Lemma frame_insert_generation repo new now : frame rows (Generations.insert repo new now).
Proof. intros db u db'. unfold Generations.insert. case_match; [|done]. by intros [= <- <-]. Qed.
#[local] Hint Resolve frame_update_generation frame_insert_generation : frame.

(** The generation [pin] continues or creates. *)
Definition pinned_generation (scope : RepoScope) (generations : list Generation) (active : option Generation)
    (sha : str) (now : Z) : PTx Z :=
  match Workflow.existing_generation generations active sha with
  | Some existing => mret existing
  | None =>
      _ ← match active with
          | None => p_for (filter (fun g => g_state g = Building) generations)
                      (fun g => Generations.abandon_superseded_bootstrap scope (g_id g) now)
          | Some _ => mret tt
          end;
      Generations.create scope
        {| Generations.ng_predecessor_generation_id := g_id <$> active; Generations.ng_commit_sha := sha;
           Generations.ng_workflow_contract_version := WORKFLOW_CONTRACT_VERSION |} now
  end.

Lemma maintains_pinned_generation scope gs active sha now : maintains (pinned_generation scope gs active sha now).
Proof. unfold pinned_generation. maintains_tac. Qed.
Lemma frame_pinned_generation scope gs active sha now : frame rows (pinned_generation scope gs active sha now).
Proof. unfold pinned_generation, Generations.create, Generations.abandon_superseded_bootstrap. frame_tac. Qed.

(** What a successful [pin] found, and what it did to an unpinned campaign. *)
Lemma pin_Ok scope campaign job sha now db id db' :
  Workflow.pin scope campaign job sha now db = Ok (id, db') ->
  exists c j, rs_operator scope = true /\ Workflow.is_commit_sha sha = true /\
    get_campaign (rs_repo_id scope) campaign db = Some c /\ cm_state c = CmActive /\
    get_job (rs_repo_id scope) job db = Some j /\
    (j_campaign_id j = Some campaign /\ j_kind j = Survey /\ active_state (j_state j) = true) /\
    match cm_generation_id c with
    | Some generation => id = generation /\ cm_target_commit_sha c = sha /\ db' = db
    | None =>
        let gs := Workflow.list_for_repo (rs_repo_id scope) db in
        let active := List.find (fun g => bool_decide (g_state g = GActive)) gs in
        exists d1 d2 d3, pinned_generation scope gs active sha now db = Ok (id, d1) /\
          Workflow.set_target (rs_repo_id scope) campaign sha id d1 = Ok (tt, d2) /\
          Workflow.set_job_generation (rs_repo_id scope) job id d2 = Ok (tt, d3) /\ db' = d3
    end.
Proof.
  unfold Workflow.pin, Workflow.get, operator. intros H. p_inv H. exists a1, a3. bool_prop.
  split_and!; try done.
  destruct (cm_generation_id a1) as [g|].
  - case_match eqn:E; p_inv H. by apply str_eqb_eq in E.
  - apply p_bind_Ok in H as (gs & d & [-> ->]%p_read_Ok & H).
    apply p_bind_Ok in H as (id' & d1 & G1 & H). apply p_bind_Ok in H as ([] & d2 & G2 & H).
    apply p_bind_Ok in H as ([] & d3 & G3 & H). apply p_bind_Ok in H as ([] & d4 & G4 & H).
    apply p_ret_Ok in H as [-> ->]. assert (d4 = d3) as ->.
    { destruct (_ && _) in G4; [|by p_inv G4]. apply p_bind_Ok in G4 as (x & d5 & G5%reads_job_context & G4).
      p_inv G4. congruence. }
    by exists d1, d2, d3.
Qed.

Lemma maintains_pin scope campaign job sha now : maintains (Workflow.pin scope campaign job sha now).
Proof.
  intros db id db' HI (c & j & _ & _ & Hc & Hs & _ & _ & H)%pin_Ok. destruct (cm_generation_id c) eqn:Eg.
  { by destruct H as (_ & _ & ->). }
  destruct H as (d1 & d2 & d3 & H1 & H2 & H3 & ->).
  destruct (maintains_pinned_generation _ _ _ _ _ _ _ _ HI H1) as [I1 E1].
  assert (unpinned campaign d1) as Hu.
  { intros c' Hc'. pose proof (frame_pinned_generation _ _ _ _ _ _ _ _ H1) as [= Ec _ _ _]. rewrite Ec in Hc'.
    apply get_campaign_Some in Hc as [Hc _]. by simplify_eq. }
  destruct (set_target_maintains _ _ _ _ _ _ _ I1 Hu H2) as [I2 E2].
  destruct (maintains_set_job_generation _ _ _ _ _ _ I2 H3) as [I3 E3]. split; [done|]. by do 2 (etrans; [done|]).
Qed.
#[export] Hint Resolve maintains_pin : phase.

Lemma maintains_activate_generation scope campaign now : maintains (Workflow.activate_generation scope campaign now).
Proof. unfold Workflow.activate_generation, Workflow.get. maintains_tac. Qed.

Lemma maintains_cancel_queued_reason repo campaign now error reason :
  maintains (Lifecycle.cancel_queued_reason repo campaign now error reason).
Proof. unfold Lifecycle.cancel_queued_reason. maintains_tac; apply maintains_for; auto with phase. Qed.
#[export] Hint Resolve maintains_cancel_queued_reason : phase.

Lemma reads_frozen_budget repo campaign : reads (Workflow.frozen_budget repo campaign).
Proof. unfold Workflow.frozen_budget. reads_tac. Qed.

Lemma reads_try_budget repo campaign : reads (Workflow.try_budget repo campaign).
Proof.
  intros db a db'. unfold Workflow.try_budget.
  destruct (Workflow.frozen_budget repo campaign db) as [[b d]|e] eqn:E.
  - intros [= <- <-]. by apply reads_frozen_budget in E.
  - destruct e as [[]| |[]| | | |]; try done; by intros [= <- <-].
Qed.
#[export] Hint Resolve reads_try_budget : phase.

Lemma maintains_fund repo campaign deadline now policy spent groups acc :
  maintains (Workflow.fund repo campaign deadline now policy spent groups acc).
Proof. revert acc. induction groups as [|g groups IH]; intros acc; cbn; maintains_tac. Qed.
#[export] Hint Resolve maintains_fund : phase.

Section Workflow.
Context (counts_json counts_canonical : Ending.CampaignCounts -> str)
        (recipe_json : JobKind -> Preparation.SurveyRecipe -> str)
        (checked_payload : json -> result Error json).

Lemma maintains_open scope new policy now :
  maintains (Workflow.open counts_json counts_canonical recipe_json checked_payload scope new policy now).
Proof. unfold Workflow.open, Workflow.coalesce, Workflow.get. maintains_tac. Qed.

Lemma maintains_cancel_campaign scope campaign reason now :
  maintains (Workflow.cancel counts_json counts_canonical scope campaign reason now).
Proof. unfold Workflow.cancel. maintains_tac. Qed.

Lemma maintains_conclude scope campaign now expired reason exhausted :
  maintains (Workflow.conclude counts_json counts_canonical scope campaign now expired reason exhausted).
Proof. unfold Workflow.conclude. maintains_tac. Qed.
#[local] Hint Resolve maintains_conclude : phase.

Lemma maintains_advance scope campaign now scan_complete :
  maintains (Workflow.advance counts_json counts_canonical scope campaign now scan_complete).
Proof. unfold Workflow.advance, Workflow.get. maintains_tac. Qed.

End Workflow.

(** ** Resets

    The reset of a generation keeps the invariant, but is no evolution: it removes
    handoffs of leads and takes generations from campaigns. *)

Import Compatibility.

(** ** What a reset does *)

Definition forget_generation (generation : Z) (c : Campaign) : Campaign :=
  c <|cm_generation_id := set_null (Z.eqb generation) (cm_generation_id c)|>.

Definition settle_verification (generation now : Z) (i : Intent) : Intent :=
  let i := if to_block generation i then block_intent now i else i in
  i <|it_generation_id := set_null (Z.eqb generation) (it_generation_id i)|>.

(** The conditions of a reset of the generation [row], and what becomes of the
    tables the invariant is about. *)
Record was_reset (generation now : Z) (row : Generation) (db db' : PhaseDb) : Prop := {
  rs_row : p_generations db !! generation = Some row;
  rs_live : Generations.live row = true;
  rs_alone : forall id g, p_generations db !! id = Some g -> g_repo_id g = g_repo_id row -> Generations.live g = true ->
               id = generation;
  rs_quiet : forall id c, p_campaigns db !! id = Some c -> cm_repo_id c = g_repo_id row -> cm_state c <> CmActive;
  rs_idle : forall id j, p_jobs db !! id = Some j -> job_busy generation db j = false;
  rs_tombstone : p_generations db' !! generation = Some (tombstone row now);
  rs_generations : forall id, id <> generation -> p_generations db' !! id =
    (fun g => g <|g_predecessor_generation_id := set_null (Z.eqb generation) (g_predecessor_generation_id g)|>) <$>
    p_generations db !! id;
  rs_campaigns : p_campaigns db' = forget_generation generation <$> p_campaigns db;
  rs_jobs : p_jobs db' = (fun j => j <|j_generation_id := set_null (Z.eqb generation) (j_generation_id j)|>
                 <|j_assigned_lead_id := set_null (lead_gone generation db) (j_assigned_lead_id j)|>) <$> p_jobs db;
  rs_finding_intents : p_finding_intents db' = settle_verification generation now <$> p_finding_intents db;
  rs_lead_intents : p_lead_intents db' = drop_keys (lead_intent_gone generation db) (p_lead_intents db);
  rs_ledger : p_spending db' = p_spending db /\ p_charges db' = p_charges db;
}.

Lemma Ok_pair {A B} (a a' : A) (b b' : B) : (Ok (a, b) : result Error _) = Ok (a', b') -> a = a' /\ b = b'.
Proof. intros H. apply pair_equal_spec. congruence. Qed.

Lemma reset_raw_Ok generation now db s db' :
  PInv db -> reset_raw generation now db = Ok (s, db') -> exists row, was_reset generation now row db db'.
Proof.
  intros HI H. unfold reset_raw in H.
  apply p_bind_Ok in H as (row & d & [Hrow ->]%p_some_Ok & H).
  apply p_bind_Ok in H as ([] & d & [Hlive ->]%p_ensure_Ok & H).
  apply p_bind_Ok in H as (other & d & [-> ->]%p_read_Ok & H).
  apply p_bind_Ok in H as ([] & d & [Hother ->]%p_ensure_Ok & H).
  apply p_bind_Ok in H as (campaign & d & [-> ->]%p_read_Ok & H).
  apply p_bind_Ok in H as ([] & d & [Hcampaign ->]%p_ensure_Ok & H).
  apply p_bind_Ok in H as (b & d & [-> ->]%p_read_Ok & H).
  apply p_bind_Ok in H as ([] & d & [Hbusy ->]%p_ensure_Ok & H).
  do 3 (apply p_bind_Ok in H as (? & d & [_ ->]%p_read_Ok & H)).
  apply p_bind_Ok in H as (n & d1 & H1 & H). apply Ok_pair in H1 as [_ <-].
  apply p_bind_Ok in H as ([] & d & [_ ->]%p_lift_Ok & H).
  apply p_bind_Ok in H as (blocked & d2 & H2 & H). apply Ok_pair in H2 as [_ <-].
  apply p_bind_Ok in H as (n' & d3 & H3 & H). apply p_bind_Ok in H as ([] & d & [Hn%changed_Ok ->]%p_lift_Ok & H).
  unfold delete_retired in H3. apply Ok_pair in H3 as [En <-]. rewrite En, Hn in H.
  cbn [Z.eqb Pos.eqb] in H. clear En Hn.
  apply p_bind_Ok in H as ([] & d & H4 & [_ ->]%p_ret_Ok). unfold insert_tombstone in H4.
  destruct (p_generations (delete_generation _ _) !! generation); [done|].
  apply Ok_pair in H4 as [_ <-]. exists row.
  assert (forall id g, id <> generation -> p_generations db !! id = Some g -> (g_id g =? generation) = false) as Hne.
  { intros id g Hid Hg. apply Z.eqb_neq. by rewrite (inv_generations _ HI _ _ Hg). }
  split; try done.
  - intros id g Hg Hr Hl. destruct (decide (id = generation)) as [|Hid]; [done|].
    apply negb_true_iff in Hother. rewrite sql_exists_false in Hother. specialize (Hother _ _ Hg). cbn in Hother.
    by rewrite Hr, Z.eqb_refl, (Hne _ _ Hid Hg), Hl in Hother.
  - intros id c Hc Hr Ha. apply negb_true_iff in Hcampaign. rewrite sql_exists_false in Hcampaign.
    specialize (Hcampaign _ _ Hc). by rewrite Hr, Z.eqb_refl, bool_decide_true in Hcampaign.
  - intros id j Hj. apply negb_true_iff in Hbusy. unfold busy in Hbusy. rewrite sql_exists_false in Hbusy. eauto.
  - cbn. by rewrite lookup_insert_eq.
  - intros id Hid. cbn. rewrite lookup_insert_ne, lookup_fmap by done.
    unfold sql_delete. rewrite map_lookup_filter, lookup_sql_update.
    destruct (p_generations db !! id) as [g|] eqn:Hg; [|done]. cbn. rewrite (Hne _ _ Hid Hg). cbn.
    rewrite (Hne _ _ Hid Hg). by rewrite option_guard_True.
  - cbn. unfold sql_update. rewrite <- map_fmap_compose. apply map_fmap_ext. intros k i Hi. unfold settle_verification. by cbn.
Qed.

Lemma reset_Ok {A} (body : Reset -> result Error A) admin generation now db a db' :
  PInv db -> reset body admin generation now db = Ok (a, db') -> exists row, was_reset generation now row db db'.
Proof.
  intros HI H. unfold reset in H. apply p_bind_Ok in H as (active & d & [_ ->]%p_read_Ok & H).
  apply p_bind_Ok in H as ([] & d & [_ ->]%p_ensure_Ok & H).
  apply p_bind_Ok in H as (summary & d & H & [_ ->]%p_lift_Ok). by eapply reset_raw_Ok.
Qed.

(** ** What survives *)

Lemma set_null_Some gone o k : set_null gone o = Some k -> o = Some k.
Proof. unfold set_null. repeat case_match; naive_solver. Qed.

Lemma settle_ok generation now i :
  intent_ok i -> intent_ok (settle_verification generation now i) /\ intent_evolves i (settle_verification generation now i).
Proof.
  intros (Hr & Hk & Hs). unfold settle_verification, to_block. destruct (sql_eq _ _), (bool_decide _) eqn:E; cbn.
  2:{ bool_prop. split; [split_and!; cbn; try done; by eexists|]. split_and!; cbn; try done. }
  all: by split; split_and!.
Qed.

Section Survives.
Context (generation now : Z) (row : Generation) (db db' : PhaseDb).
Context (HI : PInv db) (HR : was_reset generation now row db db').

Lemma reset_jobs : kept same_job (p_jobs db) (p_jobs db').
Proof. intros k j Hj. rewrite (rs_jobs _ _ _ _ _ HR), lookup_fmap, Hj. eexists. split; [done|by split_and!]. Qed.

Lemma reset_finding_intents : kept intent_evolves (p_finding_intents db) (p_finding_intents db').
Proof.
  intros k i Hi. rewrite (rs_finding_intents _ _ _ _ _ HR), lookup_fmap, Hi. eexists. split; [done|].
  apply settle_ok. by apply (inv_finding_intents _ HI) in Hi.
Qed.

(** A handoff of a lead goes when its lead or generation does, and is otherwise
    left as it is. *)
Lemma reset_lead_intents id i :
  p_lead_intents db !! id = Some i ->
  p_lead_intents db' !! id = if lead_intent_gone generation db id i then None else Some i.
Proof.
  intros Hi. rewrite (rs_lead_intents _ _ _ _ _ HR). unfold drop_keys. rewrite map_lookup_filter, Hi. cbn.
  destruct (lead_intent_gone _ _ _ _); [by rewrite option_guard_False|by rewrite option_guard_True].
Qed.

Lemma reset_generation_active id g :
  p_generations db' !! id = Some g -> g_state g = GActive ->
  exists g0, p_generations db !! id = Some g0 /\ g_state g0 = GActive /\ g_repo_id g = g_repo_id g0.
Proof.
  destruct (decide (id = generation)) as [->|Hid].
  - rewrite (rs_tombstone _ _ _ _ _ HR). by intros [= <-].
  - rewrite (rs_generations _ _ _ _ _ HR) by done. intros (g0 & Hg & ->)%fmap_Some Ha. by exists g0.
Qed.

Lemma reset_jobs_unique : jobs_unique (p_jobs db') = true.
Proof.
  pose proof (inv_jobs_unique _ HI) as H. rewrite (rs_jobs _ _ _ _ _ HR).
  match goal with |- jobs_unique (?f <$> _) = _ => change (jobs_unique (sql_update (fun _ => true) f (p_jobs db)) = true) end.
  unfold jobs_unique in *. bool_prop. rewrite !unique_on_update; try done; cbn.
  intros j k _. unfold active_drilldown_key. cbn. case_match; [|done]. apply set_null_Some.
Qed.

Lemma reset_inv : PInv db'.
Proof.
  pose proof HI as []. split.
  - intros k j. rewrite (rs_jobs _ _ _ _ _ HR), lookup_fmap. intros (j0 & Hj & ->)%fmap_Some. exact (inv_jobs _ _ Hj).
  - apply reset_jobs_unique.
  - intros k c. rewrite (rs_campaigns _ _ _ _ _ HR), lookup_fmap. intros (c0 & Hc & ->)%fmap_Some. exact (inv_campaigns _ _ Hc).
  - intros k g. destruct (decide (k = generation)) as [->|Hk].
    + rewrite (rs_tombstone _ _ _ _ _ HR). intros [= <-]. cbn. exact (inv_generations _ _ (rs_row _ _ _ _ _ HR)).
    + rewrite (rs_generations _ _ _ _ _ HR) by done. intros (g0 & Hg & ->)%fmap_Some. exact (inv_generations _ _ Hg).
  - rewrite (rs_campaigns _ _ _ _ _ HR).
    match goal with |- unique_on _ (?f <$> ?t) = _ => change (unique_on Campaigns.active_key (sql_update (fun _ => true) f t) = true) end.
    by apply unique_on_update.
  - eapply active_generations_kept; [done|apply reset_generation_active].
  - eapply ledger_kept; [done|apply HR|apply HR|apply reset_jobs|].
    intros k c Hc. rewrite (rs_campaigns _ _ _ _ _ HR), lookup_fmap, Hc. by eexists.
  - intros k i. rewrite (rs_lead_intents _ _ _ _ _ HR). intros [Hi _]%map_lookup_filter_Some. by apply inv_lead_intents in Hi.
  - intros k i. rewrite (rs_finding_intents _ _ _ _ _ HR), lookup_fmap. intros (i0 & Hi & ->)%fmap_Some.
    apply settle_ok. by apply inv_finding_intents in Hi.
Qed.

End Survives.
