(* ===== verification/PhaseSystem.v ===== *)
(** * The system of the phase runtime

    Its operations as one type, their meaning, and sequences of them from an
    empty database, interleaved with the operator's resets and with everything
    else that may happen to the tables ([outside]). *)

From S2P Require Import Prelude Sql Domain StateMachine Vocabulary SchedPolicy Store Scope Jobs AdmissionPolicy PhaseStore PhaseControl CampaignWork CampaignFlow PhaseLogic PhaseInvariant CampaignInvariant.
From Stdlib Require Import ZArith Lia.
From stdpp Require Import base gmap list strings relations.
Local Open Scope Z_scope.

(** ** The system *)

Inductive PhaseOp :=
| OpInitialize (scope : RepoScope) (campaign : Z)
| OpCharge (scope : RepoScope) (job : Z) (class : WorkClass) (now : Z)
| OpPrepare (scope : RepoScope) (campaign now : Z)
| OpCreateCampaign (scope : RepoScope) (new : Campaigns.NewCampaign) (now : Z)
| OpCreateGeneration (scope : RepoScope) (new : Generations.NewGeneration) (now : Z)
| OpActivate (scope : RepoScope) (id now : Z)
| OpRetire (scope : RepoScope) (id : Z) (reason : str) (now : Z)
| OpAbandon (scope : RepoScope) (id : Z) (reason : str) (now : Z)
| OpAbandonBootstrap (scope : RepoScope) (id now : Z)
| OpSetProfile (scope : RepoScope) (id version : Z) (profile : StoredProfile)
| OpSetCorroboration (scope : RepoScope) (id : Z) (state : CorroborationState)
| OpSetFollowUp (scope : RepoScope) (id : Z) (follow_up : json)
| OpEnsureDrilldown (repo lead job : Z) (priority : AcceptedPriority) (now : Z)
| OpEnsureVerification (repo finding job : Z) (priority : AcceptedPriority) (now : Z)
| OpAdmit (repo : Z) (s : Intents.Subject) (revision child now : Z)
| OpContinue (repo : Z) (s : Intents.Subject) (job : Z) (class : ContinuationClass) (now : Z)
| OpFinish (repo : Z) (s : Intents.Subject) (job now : Z)
| OpBlock (repo job : Z) (reason : BlockReason) (now : Z)
| OpRetryOrFail (repo job now : Z) (error : Lifecycle.FailureReason)
| OpCancel (scope : RepoScope) (job now : Z)
| OpCancelQueued (repo campaign now : Z) (error : str)
| OpHeartbeat (repo job now lease_seconds grace_seconds : Z)
| OpSetCoverage (scope : RepoScope) (id : Z) (coverage : Coverage)
| OpFinishCampaign (scope : RepoScope) (id : Z) (summary : Ending.TerminalSummary) (reason : str) (now : Z)
| OpFinishUnsupported (repo id now : Z)
| OpEndCampaign (scope : RepoScope) (id : Z) (reason : str) (now : Z)
| OpOpen (scope : RepoScope) (new : Workflow.OpenCampaign) (policy : CampaignPolicyV2) (now : Z)
| OpPin (scope : RepoScope) (campaign job : Z) (sha : str) (now : Z)
| OpActivateGeneration (scope : RepoScope) (campaign now : Z)
| OpCancelCampaign (scope : RepoScope) (campaign : Z) (reason : str) (now : Z)
| OpAdvance (scope : RepoScope) (campaign now : Z) (scan_complete : bool).

(** What the phase runtime takes from outside its own code: whether a stored
    text is a JSON document within the payload limits, the texts of recipes
    and counts, and the canonical form of a checked document. *)
Record Externals := {
  json_payload : str -> bool;
  recipe_json : JobKind -> Preparation.SurveyRecipe -> str;
  counts_json : Ending.CampaignCounts -> str;
  counts_canonical : Ending.CampaignCounts -> str;
  checked_payload : json -> result Error json;
}.

Section System.
Context (ext : Externals).

Definition void {A} (m : PTx A) : PTx unit := _ ← m; mret tt.

Definition phase_exec (op : PhaseOp) : PTx unit :=
  match op with
  | OpInitialize scope campaign => void (Admission.initialize scope campaign)
  | OpCharge scope job class now => void (Admission.charge scope job class now)
  | OpPrepare scope campaign now => void (Preparation.create_preparation (recipe_json ext) scope campaign now)
  | OpCreateCampaign scope new now => void (Campaigns.create scope new now)
  | OpCreateGeneration scope new now => void (Generations.create scope new now)
  | OpActivate scope id now => Generations.activate scope id now
  | OpRetire scope id reason now => Generations.retire scope id reason now
  | OpAbandon scope id reason now => Generations.abandon scope id reason now
  | OpAbandonBootstrap scope id now => Generations.abandon_superseded_bootstrap scope id now
  | OpSetProfile scope id version profile => Generations.set_profile scope id version profile
  | OpSetCorroboration scope id state => Generations.set_corroboration scope id state
  | OpSetFollowUp scope id follow_up => Generations.set_pending_follow_up scope id follow_up
  | OpEnsureDrilldown repo lead job priority now =>
      void (Intents.ensure_drilldown_intent_raw repo lead job priority now)
  | OpEnsureVerification repo finding job priority now =>
      void (Intents.ensure_verification_intent_raw repo finding job priority now)
  | OpAdmit repo s revision child now => void (Intents.admit_subject_raw repo s revision child now)
  | OpContinue repo s job class now => void (Intents.continue_subject_raw repo s job class now)
  | OpFinish repo s job now => Intents.finish_subject_intent_raw repo s job now
  | OpBlock repo job reason now => Intents.block_job_work_raw repo job reason now
  | OpRetryOrFail repo job now error => void (Lifecycle.retry_or_fail (json_payload ext) repo job now error)
  | OpCancel scope job now => void (Lifecycle.cancel scope job now)
  | OpCancelQueued repo campaign now error => void (Lifecycle.cancel_queued repo campaign now error)
  | OpHeartbeat repo job now lease grace => void (Lifecycle.heartbeat repo job now lease grace)
  | OpSetCoverage scope id coverage => Cover.set_coverage scope id coverage
  | OpFinishCampaign scope id summary reason now =>
      Ending.finish (counts_json ext) (counts_canonical ext) scope id summary reason now
  | OpFinishUnsupported repo id now => Ending.finish_unsupported (counts_json ext) (counts_canonical ext) repo id now
  | OpEndCampaign scope id reason now => Ending.cancel (counts_json ext) (counts_canonical ext) scope id reason now
  | OpOpen scope new policy now =>
      void (Workflow.open (counts_json ext) (counts_canonical ext) (recipe_json ext) (checked_payload ext) scope new policy now)
  | OpPin scope campaign job sha now => void (Workflow.pin scope campaign job sha now)
  | OpActivateGeneration scope campaign now => Workflow.activate_generation scope campaign now
  | OpCancelCampaign scope campaign reason now =>
      Workflow.cancel (counts_json ext) (counts_canonical ext) scope campaign reason now
  | OpAdvance scope campaign now scan_complete =>
      void (Workflow.advance (counts_json ext) (counts_canonical ext) scope campaign now scan_complete)
  end.

Lemma maintains_void {A} (m : PTx A) : maintains m -> maintains (void m).
Proof. intros H. unfold void. maintains_tac. Qed.

Lemma maintains_exec op : maintains (phase_exec op).
Proof.
  destruct op; cbn; try apply maintains_void;
    eauto using maintains_charge, maintains_initialize, maintains_preparation, maintains_create_campaign,
      maintains_create_generation, maintains_activate, maintains_retire, maintains_abandon,
      maintains_abandon_bootstrap, maintains_set_profile, maintains_set_corroboration, maintains_set_follow_up,
      maintains_ensure_drilldown, maintains_ensure_verification, maintains_admit, maintains_continue,
      maintains_finish, maintains_block_job_work, maintains_retry, maintains_cancel, maintains_cancel_queued,
      maintains_heartbeat, maintains_set_coverage, maintains_finish_campaign, maintains_finish_unsupported,
      maintains_end_campaign, maintains_open, maintains_pin, maintains_activate_generation, maintains_cancel_campaign,
      maintains_advance.
Qed.

(** What the rest of the program may do to the tables between two operations.
    It never touches the ledger.  It keeps what identifies jobs.  It keeps
    campaigns: the only other code that writes them is the pin a worker's host
    makes ([review_authority/host/pin.rs]).  The unique indexes hold.  It
    activates no generation.  Of handoffs it can only block what is not
    complete, which is what [admission_quarantine.rs] does; nothing else writes
    them.  The operator's reset of a generation, which does more, is a step of
    its own.  Deleting a repository, with which all its rows go, is not among
    the steps. *)
Definition may_block (i i' : Intent) : Prop :=
  i' = i \/
  (it_state i <> Complete /\
   exists reason g at_ t, i' = i <|it_generation_id := g|> <|it_state := Blocked|> <|it_not_before := at_|>
                                <|it_block_reason := Some reason|> <|it_updated_at := t|>).

Record outside (db db' : PhaseDb) : Prop := {
  out_jobs : keyed j_id (p_jobs db') /\ jobs_unique (p_jobs db') = true /\ kept same_job (p_jobs db) (p_jobs db');
  out_campaigns : keyed cm_id (p_campaigns db') /\ kept same_campaign (p_campaigns db) (p_campaigns db');
  out_active_campaign : unique_on Campaigns.active_key (p_campaigns db') = true;
  out_generations : keyed g_id (p_generations db') /\
    forall id g, p_generations db' !! id = Some g -> g_state g = GActive ->
      exists g0, p_generations db !! id = Some g0 /\ g_state g0 = GActive /\ g_repo_id g = g_repo_id g0;
  out_ledger : p_spending db' = p_spending db /\ p_charges db' = p_charges db;
  out_lead_intents : kept may_block (p_lead_intents db) (p_lead_intents db') /\
                     kept (fun _ _ => True) (p_lead_intents db') (p_lead_intents db);
  out_finding_intents : kept may_block (p_finding_intents db) (p_finding_intents db') /\
                        kept (fun _ _ => True) (p_finding_intents db') (p_finding_intents db);
}.

Inductive phase_step (db : PhaseDb) : PhaseDb -> Prop :=
| step_op op : phase_step db (p_run (phase_exec op) db)
| step_reset body admin generation now : phase_step db (p_run (Compatibility.reset (A := unit) body admin generation now) db)
| step_outside db' : outside db db' -> phase_step db db'.

Lemma may_block_ok i i' : intent_ok i -> may_block i i' -> intent_ok i' /\ intent_evolves i i'.
Proof.
  intros Hok [->|(Hc & reason & g & at_ & t & ->)]; [by split|]. destruct Hok as (Hr & Hk & _). split.
  - split_and!; [done|done|]. cbn. by eexists.
  - by split_and!.
Qed.

Lemma may_block_table t t' :
  map_Forall (fun _ => intent_ok) t -> kept may_block t t' -> kept (fun _ _ => True) t' t ->
  map_Forall (fun _ => intent_ok) t' /\ kept intent_evolves t t'.
Proof.
  intros Ht Hk Hb. split.
  - intros k i' Hi'. destruct (Hb _ _ Hi') as (i & Hi & _). destruct (Hk _ _ Hi) as (i2 & Hi2 & Hm). simplify_eq.
    by eapply may_block_ok, Hm; apply Ht in Hi.
  - intros k i Hi. destruct (Hk _ _ Hi) as (i' & Hi' & Hm). exists i'. split; [done|].
    eapply may_block_ok, Hm. by apply Ht in Hi.
Qed.

Lemma outside_inv db db' : PInv db -> outside db db' -> PInv db' /\ evolves_p db db'.
Proof.
  intros [] [(Hj1 & Hju & Hj2) [Hc1 Hc2] Hca [Hg1 Hg2] [Hs Hch] [Hl1 Hl2] [Hf1 Hf2]].
  destruct (may_block_table _ _ inv_lead_intents Hl1 Hl2), (may_block_table _ _ inv_finding_intents Hf1 Hf2).
  split; split; try done; [|by eapply ledger_mono].
  by eapply active_generations_kept.
Qed.

(** A step is an evolution or a reset that went through. *)
Lemma phase_step_cases db db' :
  PInv db -> phase_step db db' ->
  (PInv db' /\ evolves_p db db') \/
  exists body admin generation now row, Compatibility.reset (A := unit) body admin generation now db = Ok (tt, db') /\
    was_reset generation now row db db'.
Proof.
  intros HI [op|body admin generation now|db1 Ho]; [left|..|left; by apply outside_inv]; unfold p_run.
  - destruct (phase_exec op db) as [[[] d]|] eqn:E; [|done]. by eapply maintains_exec.
  - destruct (Compatibility.reset _ _ _ _ _) as [[[] d]|] eqn:E; [right|by left].
    destruct (reset_Ok _ _ _ _ _ _ _ HI E) as [row Hr]. by exists body, admin, generation, now, row.
Qed.

(** Jobs and the handoffs of findings outlive every step. *)
Record survives (db db' : PhaseDb) : Prop := {
  su_jobs : kept same_job (p_jobs db) (p_jobs db');
  su_finding_intents : kept intent_evolves (p_finding_intents db) (p_finding_intents db');
}.

#[export] Instance survives_preorder : PreOrder survives.
Proof. split; [by split|]. intros a b c [] []. split; by etrans. Qed.

Lemma phase_step_inv db db' : PInv db -> phase_step db db' -> PInv db' /\ survives db db'.
Proof.
  intros HI Hs. destruct (phase_step_cases _ _ HI Hs) as [[HI' []]|(body & admin & g & now & row & _ & Hr)]; [by split|].
  split; [by eapply reset_inv|]. split; [by eapply reset_jobs|by eapply reset_finding_intents].
Qed.

(** Databases some steps later. *)
Definition later : relation PhaseDb := rtc phase_step.

Lemma later_inv db db' : PInv db -> later db db' -> PInv db' /\ survives db db'.
Proof.
  intros HI H. induction H as [db|db d db' Hs _ IH]; [done|].
  destruct (phase_step_inv _ _ HI Hs) as [Hd Ed]. destruct (IH Hd) as [Hd' Ed']. split; [done|]. by etrans.
Qed.

Lemma empty_inv : PInv empty_phase_db.
Proof. by split; try split; try (intros ? ? Hx; by rewrite lookup_empty in Hx). Qed.

End System.
