(* ===== verification/PhaseTheorems.v ===== *)
(** * What the phase runtime guarantees

    Budgets, handoffs and generations along every run; what a failed attempt,
    a cancelled campaign and an activated generation leave behind. *)

From S2P Require Import Prelude Sql Domain StateMachine Vocabulary SchedPolicy Store TxLogic Scope Jobs AdmissionPolicy PhaseStore PhaseControl CampaignWork CampaignFlow PhaseLogic PhaseInvariant CampaignInvariant PhaseSystem.
From Stdlib Require Import ZArith Lia.
From stdpp Require Import base gmap list strings relations.
Local Open Scope Z_scope.

(** ** Budgets *)

Lemma pays_for_pool j pool :
  pays_for j pool ->
  match pool with
  | PGeneral => phase_kind (j_kind j) = true
  | PUrgent => j_scheduling_band j = Some Urgent /\ (j_kind j = Drilldown \/ j_kind j = Verify)
  | PVerification => j_kind j = Verify
  end.
Proof.
  intros (class & Hc & Hin). destruct class; cbn in *; bool_prop;
    repeat (apply elem_of_cons in Hin as [->|Hin]); try (by apply not_elem_of_nil in Hin);
    repeat match goal with H : j_kind j = _ |- _ => rewrite H end; auto.
Qed.

(** C16: capacity is never exceeded.  In every reachable database the spending
    recorded for a campaign is exactly the number of its charged jobs, pool by
    pool, within the capacities of the policy the campaign froze, so no more
    jobs than [campaign_max_jobs] are ever charged; every charge belongs to a
    job of its campaign, and the reserves pay only for what they are reserved
    for: the urgent one for urgent drilldowns and verifications, the other for
    verifications. *)
Theorem campaign_budgets_hold ext db :
  later ext empty_phase_db db ->
  (forall campaign spent, p_spending db !! campaign = Some spent ->
    exists row policy, p_campaigns db !! campaign = Some row /\ cm_effective_policy row = PolicyV2 policy /\
      (forall pool, spent_on spent pool = charges_of db campaign pool /\
                    charges_of db campaign pool <= capacity policy pool) /\
      charges_of db campaign PGeneral + charges_of db campaign PUrgent + charges_of db campaign PVerification <=
        v2_campaign_max_jobs policy) /\
  (forall job ch, p_charges db !! job = Some ch ->
    exists j, p_jobs db !! job = Some j /\ j_campaign_id j = Some (ch_campaign_id ch) /\
      match ch_pool ch with
      | PGeneral => phase_kind (j_kind j) = true
      | PUrgent => j_scheduling_band j = Some Urgent /\ (j_kind j = Drilldown \/ j_kind j = Verify)
      | PVerification => j_kind j = Verify
      end).
Proof.
  intros H. destruct (later_inv _ _ _ empty_inv H) as [[] _]. destruct inv_ledger as [He Hb Ho]. split.
  - intros campaign spent Hs. destruct (Hb _ _ Hs) as (row & p & Hr & Hp & Hv & Hw). exists row, p.
    split_and!; [done..| |].
    + intros pool. rewrite <- (He _ _ pool Hs). split; [done|]. apply Hw.
    + rewrite <- !(He _ _ _ Hs). pose proof (Hw PGeneral). pose proof (Hw PUrgent). pose proof (Hw PVerification).
      cbn in *. lia.
  - intros job ch Hch. destruct (Ho _ _ Hch) as (_ & j & Hj & Hc & Hp). exists j. split_and!; [done..|].
    by apply pays_for_pool in Hp.
Qed.

(** ** Handoffs *)

(** A lead's handoff [i] at [id] came to its end between [db] and [db']: it
    evolved into [i1], and an operator reset the generation it or its lead
    belonged to, with which it went. *)
Definition reset_away ext (db db' : PhaseDb) (id : Z) (i : Intent) : Prop :=
  exists d i1 body admin generation now d',
    later ext db d /\ p_lead_intents d !! id = Some i1 /\ intent_evolves i i1 /\
    Compatibility.reset (A := unit) body admin generation now d = Ok (tt, d') /\
    Compatibility.lead_intent_gone generation d id i1 = true /\ p_lead_intents d' !! id = None /\ later ext d' db'.

Lemma lead_intents_evolve ext db db' id i :
  PInv db -> later ext db db' -> p_lead_intents db !! id = Some i ->
  (exists i', p_lead_intents db' !! id = Some i' /\ intent_evolves i i') \/ reset_away ext db db' id i.
Proof.
  intros HI H. revert i HI. induction H as [db|db d db' Hs Hl IH]; intros i HI Hi; [left; by exists i|].
  assert (forall i1, intent_evolves i i1 -> p_lead_intents d !! id = Some i1 ->
    (exists i', p_lead_intents db' !! id = Some i' /\ intent_evolves i i') \/ reset_away ext db db' id i) as Hgo.
  { intros i1 Hev Hi1. destruct (phase_step_inv _ _ _ HI Hs) as [Hd _].
    destruct (IH _ Hd Hi1) as [(i' & Hi' & He)|(e & i2 & body & admin & g & now & e' & He & Hi2 & Hev2 & Hrest)].
    - left. exists i'. split; [done|]. by etrans.
    - right. exists e, i2, body, admin, g, now, e'. split; [by eapply rtc_l|]. split; [done|]. split; [by etrans|done]. }
  destruct (phase_step_cases _ _ _ HI Hs) as [[_ [_ _ L _]]|(body & admin & g & now & row & Hrun & Hr)].
  - destruct (L _ _ Hi) as (i1 & Hi1 & He). by eapply Hgo.
  - pose proof (reset_lead_intents _ _ _ _ _ Hr _ _ Hi) as Hl'. destruct (Compatibility.lead_intent_gone g db id i) eqn:Eg.
    + right. exists db, i, body, admin, g, now, d. by split_and!.
    + by eapply Hgo.
Qed.

(** C17: handoffs are revisioned.  In every reachable database an intent's
    revision is one more than its logical sequence, its kind and class agree
    with it, and its state agrees with its columns: pending work has no job and
    no obstacle, admitted and completed work has its job, blocked work its
    reason.  Between any two moments an intent keeps its repository, commit,
    profile and accepted priority; revisions only grow, a completed intent is
    final, and a revision once admitted for a job is never admitted for
    another.  A finding's handoff outlives everything; a lead's does unless an
    operator resets the generation that it or its lead belongs to, which removes
    it. *)
Theorem handoffs_are_revisioned ext db db' (s : Intents.Subject) id i :
  later ext empty_phase_db db -> later ext db db' ->
  Intents.table s db !! id = Some i ->
  intent_ok i /\
  ((exists i', Intents.table s db' !! id = Some i' /\ intent_ok i' /\ intent_evolves i i') \/
   match s with Intents.SLead _ => reset_away ext db db' id i | Intents.SFinding _ => False end).
Proof.
  intros H H' Hi. destruct (later_inv _ _ _ empty_inv H) as [HI _]. destruct (later_inv _ _ _ HI H') as [HI' [_ F]].
  split; [by eapply (table_ok s db HI id)|].
  assert ((exists i', Intents.table s db' !! id = Some i' /\ intent_evolves i i') \/
    match s with Intents.SLead _ => reset_away ext db db' id i | Intents.SFinding _ => False end) as [(i' & Hi' & He)|Hr].
  { destruct s; [by apply lead_intents_evolve|left; by apply F]. }
  - left. exists i'. split_and!; [done| |done]. by eapply (table_ok s db' HI' id).
  - by right.
Qed.

(** ** Generations *)

Lemma get_generation_Some db repo id g :
  get_generation repo id db = Some g <-> p_generations db !! id = Some g /\ g_repo_id g = repo.
Proof.
  unfold get_generation. destruct (p_generations db !! id) as [x|]; cbn; [|naive_solver].
  case_match; bool_prop; naive_solver.
Qed.

(** An update by id of a generation that succeeds. *)
Lemma update_generation db repo id g P f duplicate conflict :
  keyed g_id (p_generations db) -> p_generations db !! id = Some g -> g_repo_id g = repo -> P g = true ->
  unique_on Generations.active_key (<[id := f g]> (p_generations db)) = true ->
  Generations.update repo id P f duplicate conflict db =
    Ok (tt, db <|p_generations := <[id := f g]> (p_generations db)|>).
Proof.
  intros Hk Hg Hr HP Hu. unfold Generations.update.
  set (Q := fun g => _ && P g).
  assert (picks Q (p_generations db) id) as Hpick.
  { intros k x Hx HQ. unfold Q in HQ. bool_prop. rewrite <- (Hk _ _ Hx). done. }
  assert (Q g = true) as HQ.
  { unfold Q. rewrite HP, (Hk _ _ Hg), Hr, !Z.eqb_refl. done. }
  rewrite (sql_update_picks _ _ _ _ Hpick), (sql_count_picks _ _ _ Hpick), Hg, HQ, Hu. done.
Qed.

Definition activated (now : Z) (g : Generation) : Generation :=
  g <|g_state := GActive|> <|g_activated_at := Some now|>.

(** Making a row active keeps the index when no other row of the repository is. *)
Lemma activated_unique t id g now :
  unique_on Generations.active_key t = true ->
  (forall k x, t !! k = Some x -> k <> id -> Generations.active_key x <> Some (g_repo_id g)) ->
  unique_on Generations.active_key (<[id := activated now g]> t) = true.
Proof.
  rewrite !unique_on_true. intros Hu Hn i j ri rj k Hi Hj Hki Hkj.
  apply lookup_insert_Some in Hi as [[<- <-]|[Hni Hi]], Hj as [[<- <-]|[Hnj Hj]]; [done| | |by eapply Hu].
  - unfold Generations.active_key at 1 in Hki. cbn in Hki. injection Hki as <-. by destruct (Hn _ _ Hj).
  - unfold Generations.active_key at 1 in Hkj. cbn in Hkj. injection Hkj as <-. by destruct (Hn _ _ Hi).
Qed.

Lemma retired_unique t id g reason now :
  t !! id = Some g -> unique_on Generations.active_key t = true ->
  unique_on Generations.active_key (<[id := Generations.retire_as reason now g]> t) = true.
Proof.
  rewrite !unique_on_true. intros Hg Hu i j ri rj k Hi Hj Hki Hkj.
  apply lookup_insert_Some in Hi as [[<- <-]|[Hni Hi]], Hj as [[<- <-]|[Hnj Hj]]; try done. by eapply Hu.
Qed.

Lemma active_key_Some g repo : Generations.active_key g = Some repo <-> g_state g = GActive /\ g_repo_id g = repo.
Proof. unfold Generations.active_key. case_bool_decide; naive_solver. Qed.

(** The sealing state an activation reads. *)
Definition unsealed (db : PhaseDb) (id : Z) : Prop := exists m, p_manifests db !! id = Some m /\ mf_sealed_at m = None.

Lemma manifest_sealed_spec repo id g db :
  p_generations db !! id = Some g -> g_repo_id g = repo ->
  exists sealed, manifest_sealed_raw repo id db = Ok (sealed, db) /\ (sealed = Some false <-> unsealed db id).
Proof.
  intros Hg <-. unfold manifest_sealed_raw, own_generation, require_repo, p_read, mbind, ptx_bind. rewrite Hg. cbn.
  unfold check, admits. cbn. rewrite Z.eqb_refl. cbn. eexists. split; [reflexivity|]. unfold unsealed.
  destruct (p_manifests db !! id) as [m|]; cbn; [|by split; [|intros (? & ? & _)]].
  unfold sql_some. destruct (mf_sealed_at m) eqn:E; cbn; (split; [intros ?|intros (m' & Hm & Hn)]); simplify_eq; eauto.
Qed.

Lemma activate_unfold repo id now g db :
  PInv db -> p_generations db !! id = Some g -> g_repo_id g = repo -> g_state g = Building -> ~ unsealed db id ->
  Generations.activate_raw repo id now db =
    (_ ← match head (sql_select (fun x => (g_repo_id x =? repo) && bool_decide (g_state x = GActive)) (p_generations db)) with
         | Some active =>
             _ ← p_ensure (bool_decide (g_predecessor_generation_id g = Some (g_id active)))
                   (ConflictError CGenerationPredecessor);
             Generations.retire_superseded_raw repo (g_id active) now
         | None => mret tt
         end;
     Generations.update repo id (fun g => bool_decide (g_state g = Building)) (activated now)
       (ConflictError CActiveGeneration) CGenerationState) db.
Proof.
  intros HI Hg Hr Hb Hu. destruct (manifest_sealed_spec repo id g db Hg Hr) as (sealed & Hs & Hiff).
  unfold Generations.activate_raw. erewrite p_bind_run by (by apply p_some_Ok; split; [apply get_generation_Some|]).
  rewrite bool_decide_true by done. erewrite p_bind_run by (erewrite p_bind_run by done; reflexivity).
  rewrite bool_decide_false by tauto. erewrite p_bind_run by done. erewrite p_bind_run by done. by rewrite Hr.
Qed.

Lemma select_active db repo k a :
  PInv db -> p_generations db !! k = Some a -> g_repo_id a = repo -> g_state a = GActive ->
  head (sql_select (fun x => (g_repo_id x =? repo) && bool_decide (g_state x = GActive)) (p_generations db)) = Some a.
Proof.
  intros HI Ha Hr Hs. pose proof (inv_active_generation _ HI) as Hu. rewrite unique_on_true in Hu.
  erewrite (sql_select_picks _ _ k).
  - by rewrite Ha, (proj2 (Z.eqb_eq _ _) Hr), bool_decide_true.
  - intros i x Hx HP. bool_prop. eapply (Hu i k x a repo); try done; by apply active_key_Some.
Qed.

Lemma activate_refused repo id now g db :
  p_generations db !! id = Some g -> g_repo_id g = repo -> g_state g <> Building \/ unsealed db id ->
  Generations.activate_raw repo id now db = Err (ConflictError CGenerationState).
Proof.
  intros Hg Hr Hno. unfold Generations.activate_raw.
  erewrite p_bind_run by (by apply p_some_Ok; split; [apply get_generation_Some|]).
  destruct (manifest_sealed_spec repo id g db Hg Hr) as (sealed & Hs & Hiff). case_bool_decide as Hb.
  - erewrite p_bind_run by (erewrite p_bind_run by done; reflexivity).
    rewrite bool_decide_true by (apply Hiff; naive_solver). done.
  - erewrite p_bind_run by reflexivity. done.
Qed.

(** C18: activating a generation.  A repository never has two active
    generations, along any run.  Activation of a generation of the repository
    is refused unless it is being built and its inventory is not an unsealed
    one; with an active generation it succeeds only for that generation's
    successor, and then retires it as superseded in the same step; otherwise
    it just activates.  No other row changes. *)
Theorem activation_succeeds_the_active_generation ext db repo id g now :
  later ext empty_phase_db db -> p_generations db !! id = Some g -> g_repo_id g = repo ->
  (forall i j a b, p_generations db !! i = Some a -> p_generations db !! j = Some b ->
     g_state a = GActive -> g_state b = GActive -> g_repo_id a = g_repo_id b -> i = j) /\
  (g_state g <> Building \/ unsealed db id ->
     Generations.activate_raw repo id now db = Err (ConflictError CGenerationState)) /\
  (g_state g = Building -> ~ unsealed db id ->
     (forall k a, p_generations db !! k = Some a -> g_repo_id a = repo -> g_state a <> GActive) ->
     Generations.activate_raw repo id now db =
       Ok (tt, db <|p_generations := <[id := activated now g]> (p_generations db)|>)) /\
  (g_state g = Building -> ~ unsealed db id ->
     forall k a, p_generations db !! k = Some a -> g_repo_id a = repo -> g_state a = GActive ->
     Generations.activate_raw repo id now db =
       if decide (g_predecessor_generation_id g = Some k)
       then Ok (tt, db <|p_generations := <[id := activated now g]>
                          (<[k := Generations.retire_as (lit "superseded") now a]> (p_generations db))|>)
       else Err (ConflictError CGenerationPredecessor)).
Proof.
  intros H Hg Hr. destruct (later_inv _ _ _ empty_inv H) as [HI _]. pose proof HI as [].
  split_and!; [|by apply activate_refused| |].
  - rewrite unique_on_true in inv_active_generation. intros i j a b Ha Hb Sa Sb E.
    eapply (inv_active_generation i j a b); try done; by apply active_key_Some.
  - intros Hb Hu Hn. rewrite (activate_unfold _ _ _ _ _ HI Hg Hr Hb Hu), (proj2 (head_select_None _ _)).
    + erewrite p_bind_run by reflexivity. rewrite (update_generation db repo id g); try done; [by rewrite bool_decide_true|].
      apply activated_unique; [done|]. intros k x Hx _ [Hs Hx']%active_key_Some. by apply (Hn k x Hx); [congruence|].
    + intros k x Hx. destruct (g_repo_id x =? repo) eqn:E; [|done]. bool_prop. cbn.
      apply bool_decide_eq_false. by eapply Hn.
  - intros Hb Hu k a Ha Har Has. rewrite (activate_unfold _ _ _ _ _ HI Hg Hr Hb Hu).
    rewrite (select_active _ _ _ _ HI Ha Har Has), (inv_generations _ _ Ha).
    assert (k <> id) as Hne by (intros ->; congruence). case_decide as Hp.
    + rewrite bool_decide_true by done. erewrite p_bind_run.
      2:{ erewrite p_bind_run by reflexivity. apply (update_generation db repo k a); try done.
          - by rewrite bool_decide_true.
          - by apply retired_unique. }
      rewrite (update_generation _ repo id g); cbn; try done.
      * by apply keyed_insert; [apply inv_generations in Ha|].
      * by rewrite lookup_insert_ne.
      * by rewrite bool_decide_true.
      * apply activated_unique; [by apply retired_unique|]. intros i x Hx _ [Hs Hx']%active_key_Some.
        apply lookup_insert_Some in Hx as [[-> <-]|[Hi Hx]]; [done|].
        rewrite unique_on_true in inv_active_generation. apply Hi.
        apply (inv_active_generation k i a x repo Ha Hx); apply active_key_Some; split; congruence.
    + by rewrite bool_decide_false.
Qed.

(** ** Lifecycle *)

(** An update of active jobs that keeps what the indexes of active jobs read. *)
Lemma jobs_unique_touch P f t :
  (forall j, P j = true -> active_state (j_state j) = true /\
     (j_capability_hash (f j) = None \/ j_capability_hash (f j) = j_capability_hash j) /\
     j_kind (f j) = j_kind j /\ j_target_finding_id (f j) = j_target_finding_id j /\
     j_assigned_lead_id (f j) = j_assigned_lead_id j) ->
  jobs_unique t = true -> jobs_unique (sql_update P f t) = true.
Proof.
  intros Hf. apply jobs_unique_update; intros j k (Hs & Hc & Hk & Ht & Hl)%Hf.
  - unfold capability_key. destruct Hc as [-> | ->]; done.
  - unfold active_verify_key. rewrite Hs, Hk, Ht. by destruct (active_state (j_state (f j))).
  - unfold active_drilldown_key. rewrite Hs, Hk, Hl. by destruct (active_state (j_state (f j))).
Qed.

Lemma p_update_job db k P f j :
  PInv db -> p_jobs db !! k = Some j -> P j = true ->
  (forall x, P x = true -> j_id x = k /\ active_state (j_state x) = true) ->
  (forall x, (j_capability_hash (f x) = None \/ j_capability_hash (f x) = j_capability_hash x) /\
     j_kind (f x) = j_kind x /\ j_target_finding_id (f x) = j_target_finding_id x /\
     j_assigned_lead_id (f x) = j_assigned_lead_id x) ->
  p_update_jobs P f db = Ok (1, db <|p_jobs := <[k := f j]> (p_jobs db)|>).
Proof.
  intros HI Hj HP Hk Hf. unfold p_update_jobs.
  rewrite jobs_unique_touch; [| |by apply HI].
  2:{ intros x Hx. destruct (Hk _ Hx). destruct (Hf x) as (? & ? & ? & ?). auto. }
  assert (picks P (p_jobs db) k) as Hp.
  { intros i x Hx HPx. rewrite <- (inv_jobs _ HI _ _ Hx). by apply Hk. }
  by rewrite (sql_count_picks _ _ _ Hp), (sql_update_picks _ _ _ _ Hp), Hj, HP.
Qed.

Definition stopped (now : Z) (state : JobState) (message : str) (j : JobRow) : JobRow :=
  Lifecycle.end_lease j <|j_state := state|> <|j_error := Some message|> <|j_finished_at := Some now|>.

Definition requeued (eligible : Z) (message : str) (j : JobRow) : JobRow :=
  Lifecycle.end_lease j <|j_state := Queued|> <|j_eligible_at := Some eligible|> <|j_error := Some message|>.

(** The tables after the work of [job] was blocked. *)
Definition blocked_work (repo job : Z) (reason : BlockReason) (now : Z) (db : PhaseDb) : PhaseDb :=
  p_run (Intents.defer_units repo job reason)
    (p_run (Intents.block_batches repo job reason)
      (p_run (Intents.block_holds repo job reason now) (p_run (Intents.block_intents job reason now) db))).

Lemma block_job_work_run repo job reason now db j :
  p_jobs db !! job = Some j -> j_repo_id j = repo -> j_state j = Failed \/ j_state j = Cancelled ->
  Intents.terminal_reason reason = true ->
  Intents.block_job_work_raw repo job reason now db = Ok (tt, blocked_work repo job reason now db).
Proof.
  intros Hj Hr Hs Ht. unfold Intents.block_job_work_raw.
  erewrite p_bind_run by (by apply p_some_Ok; split; [apply get_job_Some|]).
  rewrite Ht, andb_true_r. erewrite (p_bind_run _ _ _ tt).
  2:{ apply p_ensure_Ok. split; [|reflexivity]. destruct Hs as [-> | ->]; done. }
  unfold blocked_work. rewrite (p_bind_run _ _ _ tt (p_run (Intents.block_intents job reason now) db)) by done.
  set (d1 := p_run (Intents.block_intents job reason now) db).
  rewrite (p_bind_run _ _ _ tt (p_run (Intents.block_holds repo job reason now) d1)) by done.
  set (d2 := p_run (Intents.block_holds repo job reason now) d1).
  rewrite (p_bind_run _ _ _ tt (p_run (Intents.block_batches repo job reason) d2)) by done. done.
Qed.

Lemma terminalize_run repo job now state message reason db j :
  PInv db -> p_jobs db !! job = Some j -> j_repo_id j = repo -> is_Some (j_campaign_id j) ->
  phase_kind (j_kind j) = true -> active_state (j_state j) = true -> state = Failed \/ state = Cancelled ->
  Intents.terminal_reason reason = true ->
  Lifecycle.terminalize repo job now state message reason db =
    Ok (tt, blocked_work repo job reason now
              (db <|p_jobs := <[job := stopped now state message j]> (p_jobs db)|>
                  <|p_prepared := delete job (p_prepared db)|>)).
Proof.
  intros HI Hj Hr Hc Hk Ha Hst Ht. unfold Lifecycle.terminalize. erewrite p_bind_run.
  2:{ apply (p_update_job db job _ _ j); [done..| | |].
      - rewrite (inv_jobs _ HI _ _ Hj), Hr, !Z.eqb_refl, Hk, Ha, (proj2 (sql_some_true _) Hc). done.
      - intros x Hx. bool_prop. done.
      - intros x. split; [by left|done]. }
  erewrite p_bind_run by reflexivity. erewrite p_bind_run by reflexivity.
  apply (block_job_work_run _ _ _ _ _ (stopped now state message j)); [apply lookup_insert_eq|done..].
Qed.

Lemma requeue_run repo job eligible message db j :
  PInv db -> p_jobs db !! job = Some j -> j_repo_id j = repo -> j_state j = Leased ->
  Lifecycle.requeue repo job eligible message db =
    Ok (tt, db <|p_jobs := <[job := requeued eligible message j]> (p_jobs db)|>
               <|p_prepared := delete job (p_prepared db)|>).
Proof.
  intros HI Hj Hr Hs. unfold Lifecycle.requeue. erewrite p_bind_run.
  2:{ apply (p_update_job db job _ _ j); [done..| | |].
      - rewrite (inv_jobs _ HI _ _ Hj), Hr, Hs, !Z.eqb_refl. done.
      - intros x Hx. bool_prop. split; [done|]. by match goal with E : j_state x = _ |- _ => rewrite E end.
      - intros x. split; [by left|done]. }
  by erewrite p_bind_run by reflexivity.
Qed.

(** When a failed attempt may be tried again, and from when on. *)
Definition may_retry (json_payload : str -> bool) (db : PhaseDb) (j : JobRow) (now eligible : Z) : Prop :=
  exists c limits,
    j_campaign_id j = Some (cm_id c) /\ p_campaigns db !! cm_id c = Some c /\ cm_repo_id c = j_repo_id j /\
    cm_state c = CmActive /\ (forall deadline, cm_deadline_at c = Some deadline -> now < deadline) /\
    (forall raw, j_recipe j = Some raw -> json_payload raw = true) /\
    (forall id g p, j_generation_id j = Some id -> p_generations db !! id = Some g -> g_repo_id g = j_repo_id j ->
       g_generated_profile g = Some p -> pf_compatible p = true) /\
    Lifecycle.retry_policy (cm_effective_policy c) (j_attempts j) = Some limits /\
    0 < j_attempts j <= u32_max /\ j_attempts j < Lifecycle.rl_maximum limits /\
    eligible = now + Lifecycle.rl_delay limits /\ in_i64 eligible = true.

Lemma compatible_payload_true json_payload db j now :
  Lifecycle.rc_compatible_payload (Lifecycle.retry_context json_payload j now db) = true <->
  (forall raw, j_recipe j = Some raw -> json_payload raw = true) /\
  (forall id g p, j_generation_id j = Some id -> p_generations db !! id = Some g -> g_repo_id g = j_repo_id j ->
     g_generated_profile g = Some p -> pf_compatible p = true).
Proof.
  cbn. unfold Lifecycle.recipe, Lifecycle.profile. rewrite andb_true_iff. f_equiv.
  - destruct (j_recipe j); naive_solver.
  - destruct (j_generation_id j) as [id|]; cbn; [|naive_solver].
    destruct (get_generation (j_repo_id j) id db) as [g|] eqn:E; cbn.
    + apply get_generation_Some in E as [Hg Hr]. destruct (g_generated_profile g) eqn:Ep; cbn; naive_solver.
    + split; [|done]. intros _ id' g p [= <-] Hg Hr _.
      by rewrite (proj2 (get_generation_Some _ _ _ _) (conj Hg Hr)) in E.
Qed.

Lemma decide_retry_inl json_payload db j now error eligible :
  PInv db ->
  Lifecycle.decide_retry (Lifecycle.retry_context json_payload j now db) now error = inl eligible <->
  may_retry json_payload db j now eligible.
Proof.
  intros HI. unfold Lifecycle.decide_retry, may_retry.
  destruct (Lifecycle.rc_compatible_payload _) eqn:Ep.
  2:{ split; [by repeat case_match|]. intros (c & l & _ & _ & _ & _ & _ & H1 & H2 & _).
      by rewrite (proj2 (compatible_payload_true _ _ _ _)) in Ep. }
  apply compatible_payload_true in Ep as [Ep1 Ep2]. cbn.
  destruct (j_campaign_id j) as [id|] eqn:Ec; cbn; [|naive_solver].
  destruct (get_campaign (j_repo_id j) id db) as [c|] eqn:Eg; cbn.
  2:{ split; [done|]. intros (c & l & [= ->] & Hc & Hr & _).
      by rewrite (proj2 (get_campaign_Some _ _ _ _) (conj Hc Hr)) in Eg. }
  apply get_campaign_Some in Eg as [Hc Hr]. pose proof (inv_campaigns _ HI _ _ Hc) as <-.
  split.
  - rewrite (bool_decide_ext (Some _ = Some true) (cm_state c = CmActive)).
    2:{ case_bool_decide; naive_solver. }
    case_bool_decide as Hs; [|done]. cbn. case_match eqn:Ed; [done|].
    destruct ((0 <? j_attempts j) && (j_attempts j <=? u32_max)) eqn:Ea; [|done]. cbn [mbind option_bind]. bool_prop.
    destruct (Lifecycle.retry_policy _ _) as [l|] eqn:El; [|done]. destruct (Lifecycle.rl_maximum l <=? _) eqn:Em; [done|]. bool_prop.
    destruct (checked_add now _) as [e|] eqn:Ee; [|done]. intros [= <-]. apply to_i64_Some in Ee as [-> He].
    exists c, l. split_and!; try done; [|by apply in_i64_iff].
    intros d Hd. rewrite Hd in Ed. by bool_prop.
  - intros (c' & l & [= E] & Hc' & _ & Hs & Hd & _ & _ & Hl & Ha & Hm & -> & Hi).
    rewrite E in Hc. rewrite Hc' in Hc. injection Hc as ->. rewrite (bool_decide_true (cm_state c = CmActive)) by done.
    rewrite bool_decide_true by done. cbn.
    replace (match cm_deadline_at c with Some at_ => at_ <=? now | None => false end) with false
      by (destruct (cm_deadline_at c) as [d|]; [specialize (Hd d eq_refl); symmetry; apply Z.leb_gt; lia|done]).
    rewrite (proj2 (Z.ltb_lt _ _)), (proj2 (Z.leb_le _ _)) by lia. cbn. rewrite Hl.
    rewrite (proj2 (Z.leb_gt _ _)) by lia. unfold checked_add, to_i64. by rewrite Hi.
Qed.

Lemma decide_retry_inr row now error reason message :
  Lifecycle.decide_retry row now error = inr (reason, message) -> Intents.terminal_reason reason = true.
Proof. unfold Lifecycle.decide_retry. repeat case_match; intros [= <- _]; done. Qed.

(** The failures a retry decides: of a leased phase job, and by expiry only
    after the lease expired. *)
Definition failed_attempt (j : JobRow) (now : Z) (error : Lifecycle.FailureReason) : Prop :=
  j_state j = Leased /\ phase_kind (j_kind j) = true /\ is_Some (j_campaign_id j) /\
  (error = Lifecycle.LeaseExpired -> exists at_, j_lease_expires_at j = Some at_ /\ at_ < now).

Lemma failed_attempt_iff json_payload db j now error :
  let row := Lifecycle.retry_context json_payload j now db in
  negb (negb (Lifecycle.rc_leased_phase row) ||
        (bool_decide (error = Lifecycle.LeaseExpired) && negb (Lifecycle.rc_expired row))) = true <->
  failed_attempt j now error.
Proof.
  cbn. unfold failed_attempt.
  rewrite negb_true_iff, orb_false_iff, negb_false_iff, !andb_true_iff, bool_decide_eq_true, sql_some_true.
  rewrite andb_false_iff, bool_decide_eq_false, negb_false_iff, sql_lt_true.
  destruct (decide (error = Lifecycle.LeaseExpired)); naive_solver.
Qed.

Lemma blocked_work_intents repo job reason now db s id i :
  Intents.table s db !! id = Some i -> it_admitted_job_id i = Some job -> it_state i = IAdmitted ->
  exists i', Intents.table s (blocked_work repo job reason now db) !! id = Some i' /\ it_state i' = Blocked /\
             it_block_reason i' = Some reason /\ it_revision i' = it_revision i.
Proof.
  intros Hi Ha Hs. assert (sql_eq (it_admitted_job_id i) job && bool_decide (it_state i = IAdmitted) = true) as HP.
  { rewrite Ha, Hs. cbn. by rewrite Z.eqb_refl. }
  destruct s; (eexists; split; [cbn in *; rewrite lookup_sql_update, Hi; cbn; by rewrite HP|done]).
Qed.

(** C19: what becomes of a failed attempt.  In every reachable database the
    failure of a leased phase job (by expiry only once the lease has expired)
    is decided: the job is queued again, without its lease and to wait for the
    backoff, exactly when its campaign is active and before its deadline, its
    stored recipe and profile are readable, its policy is valid and allows a
    further attempt; in every other case the job ends as failed, and every
    handoff it was admitted for is blocked with the reason.  Any other job is
    refused without a change. *)
Theorem failed_attempts_are_retried_or_ended ext db repo job j now error :
  later ext empty_phase_db db -> p_jobs db !! job = Some j -> j_repo_id j = repo ->
  let outcome := Lifecycle.retry_or_fail (json_payload ext) repo job now error db in
  (~ failed_attempt j now error -> outcome = Err (ConflictError CJobState)) /\
  (failed_attempt j now error ->
    (exists eligible, may_retry (json_payload ext) db j now eligible /\
       outcome = Ok (Lifecycle.Requeued eligible,
                     db <|p_jobs := <[job := requeued eligible (Lifecycle.expose error) j]> (p_jobs db)|>
                        <|p_prepared := delete job (p_prepared db)|>)) \/
    ((forall eligible, ~ may_retry (json_payload ext) db j now eligible) /\
     exists reason message db', outcome = Ok (Lifecycle.RetryFailed, db') /\
       p_jobs db' = <[job := stopped now Failed message j]> (p_jobs db) /\
       p_prepared db' = delete job (p_prepared db) /\ p_spending db' = p_spending db /\ p_charges db' = p_charges db /\
       forall s id i, Intents.table s db !! id = Some i -> it_admitted_job_id i = Some job -> it_state i = IAdmitted ->
         exists i', Intents.table s db' !! id = Some i' /\ it_state i' = Blocked /\
                    it_block_reason i' = Some reason /\ it_revision i' = it_revision i)).
Proof.
  intros H Hj Hr outcome. destruct (later_inv _ _ _ empty_inv H) as [HI _]. unfold outcome, Lifecycle.retry_or_fail.
  erewrite p_bind_run by (by apply p_some_Ok; split; [apply get_job_Some|]).
  erewrite p_bind_run by reflexivity. set (row := Lifecycle.retry_context (json_payload ext) j now db). split.
  - intros Hn. erewrite p_bind_fail; [reflexivity|]. unfold p_ensure. case_match eqn:E; [|done].
    destruct Hn. by eapply failed_attempt_iff.
  - intros Hf. rewrite (p_bind_run _ _ _ tt db) by (by apply p_ensure_Ok; split; [apply failed_attempt_iff|]).
    destruct Hf as (Hs & Hk & Hc & _).
    destruct (Lifecycle.decide_retry row now error) as [eligible|[reason message]] eqn:Ed.
    + left. exists eligible. split; [by eapply decide_retry_inl|].
      erewrite (p_bind_run _ _ _ tt) by (by apply (requeue_run _ _ _ _ _ j)). done.
    + right. split.
      { intros eligible Hm. apply (decide_retry_inl _ _ _ _ error _ HI) in Hm. unfold row in Ed. congruence. }
      exists reason, message, (blocked_work repo job reason now
        (db <|p_jobs := <[job := stopped now Failed message j]> (p_jobs db)|> <|p_prepared := delete job (p_prepared db)|>)).
      split_and!; [|reflexivity..|].
      * erewrite (p_bind_run _ _ _ tt); [reflexivity|]. apply (terminalize_run _ _ _ _ _ _ _ j); try done; [|by left|].
        -- by rewrite Hs.
        -- by eapply decide_retry_inr.
      * intros s id i Hi Ha Hst. apply blocked_work_intents; [|done..]. by destruct s.
Qed.

(** ** Cancelling what a campaign has queued *)

(** Loop rule: terminalizing distinct active phase jobs of a repository ends
    them and no other. *)
Lemma terminalize_all repo now state message reason ids : forall db,
  PInv db -> NoDup ids -> state = Failed \/ state = Cancelled -> Intents.terminal_reason reason = true ->
  (forall id, id ∈ ids -> exists j, p_jobs db !! id = Some j /\ j_repo_id j = repo /\ is_Some (j_campaign_id j) /\
     phase_kind (j_kind j) = true /\ active_state (j_state j) = true) ->
  exists db', p_for ids (fun job => Lifecycle.terminalize repo job now state message reason) db = Ok (tt, db') /\
    p_campaigns db' = p_campaigns db /\ p_spending db' = p_spending db /\ p_charges db' = p_charges db /\
    forall id, p_jobs db' !! id =
      (if decide (id ∈ ids) then stopped now state message <$> p_jobs db !! id else p_jobs db !! id).
Proof.
  induction ids as [|k ids IH]; intros db HI Hnd Hst Ht Hids.
  { exists db. split_and!; [done..|]. intros id. by rewrite decide_False by apply not_elem_of_nil. }
  apply NoDup_cons in Hnd as [Hk Hnd]. destruct (Hids k) as (j & Hj & Hr & Hc & Hp & Ha); [by left|].
  pose proof (terminalize_run repo k now state message reason db j HI Hj Hr Hc Hp Ha Hst Ht) as Hrun.
  destruct (maintains_terminalize _ _ _ _ _ _ _ _ _ HI Hrun) as [HI' _]. cbn [p_for].
  rewrite (p_bind_run _ _ _ _ _ Hrun). destruct (IH _ HI' Hnd Hst Ht) as (db' & Hfor & Hc' & Hs' & Hch' & Hjobs).
  { intros id Hid. destruct (Hids id) as (x & Hx & Hrest); [by right|]. exists x. split; [|done]. cbn.
    rewrite lookup_insert_ne by (intros ->; done). done. }
  exists db'. split_and!; [done..|]. intros id. rewrite Hjobs. cbn. destruct (decide (id = k)) as [->|Hne].
  - rewrite decide_False by done. rewrite decide_True by by left. by rewrite lookup_insert_eq, Hj.
  - rewrite lookup_insert_ne by done. destruct (decide (id ∈ ids)).
    + by rewrite decide_True by by right.
    + by rewrite decide_False by (rewrite elem_of_cons; naive_solver).
Qed.

(** The phase jobs a campaign has queued. *)
Definition queued_for (repo campaign : Z) (j : JobRow) : bool :=
  sql_eq (j_campaign_id j) campaign && (j_repo_id j =? repo) && bool_decide (j_state j = Queued) && phase_kind (j_kind j).

(** The cancelled rows of the table of jobs. *)
Definition cancelled_jobs (repo campaign now : Z) (message : str) (db db' : PhaseDb) : Prop :=
  forall id, p_jobs db' !! id =
    (j ← p_jobs db !! id; Some (if queued_for repo campaign j then stopped now Cancelled message j else j)).

Lemma cancelled_none_queued repo campaign now message db db' :
  cancelled_jobs repo campaign now message db db' -> sql_select (queued_for repo campaign) (p_jobs db') = [].
Proof.
  intros Hall. apply sql_select_nil. intros id j. rewrite Hall. intros (j0 & Hj0 & [= <-])%bind_Some.
  destruct (queued_for repo campaign j0) eqn:Eq; [|done]. unfold queued_for. cbn. by rewrite andb_false_r.
Qed.

Lemma cancel_queued_reason_run repo campaign now message reason db :
  PInv db -> Intents.terminal_reason reason = true ->
  exists db', Lifecycle.cancel_queued_reason repo campaign now message reason db =
      Ok (sql_count (queued_for repo campaign) (p_jobs db), db') /\
    p_campaigns db' = p_campaigns db /\ p_spending db' = p_spending db /\ p_charges db' = p_charges db /\
    cancelled_jobs repo campaign now message db db'.
Proof.
  intros HI Ht. set (ids := j_id <$> sql_select (queued_for repo campaign) (p_jobs db)).
  assert (forall id, id ∈ ids <-> exists j, p_jobs db !! id = Some j /\ queued_for repo campaign j = true) as Hids.
  { intros id. unfold ids. rewrite list_elem_of_fmap. setoid_rewrite elem_of_sql_select. split.
    - intros (j & -> & Hq & i & Hj). exists j. by rewrite (inv_jobs _ HI _ _ Hj).
    - intros (j & Hj & Hq). exists j. rewrite (inv_jobs _ HI _ _ Hj). eauto. }
  destruct (terminalize_all repo now Cancelled message reason ids db HI) as (db' & Hfor & Hcs & Hsp & Hch & Hjobs).
  { apply sql_select_NoDup. apply HI. } { by right. } { done. }
  { intros id (j & Hj & Hq)%Hids. unfold queued_for in Hq. bool_prop. exists j. split_and!; [done..| | |].
    - by destruct (j_campaign_id j).
    - done.
    - by match goal with E : j_state j = _ |- _ => rewrite E end. }
  exists db'. split_and!; try done.
  - unfold Lifecycle.cancel_queued_reason. erewrite p_bind_run by reflexivity. fold ids.
    erewrite (p_bind_run _ _ _ tt) by exact Hfor. unfold ids. rewrite length_fmap. done.
  - intros id. rewrite Hjobs. destruct (p_jobs db !! id) as [j|] eqn:Ej; cbn -[decide];
      [|by destruct (decide (id ∈ ids))].
    destruct (queued_for repo campaign j) eqn:Eq; destruct (decide (id ∈ ids)) as [Hd|Hd]; [done| | |done].
    + destruct Hd. apply Hids. eauto.
    + apply Hids in Hd as (j' & Hj' & Hq). congruence.
Qed.

Lemma cancel_queued_run repo campaign now message db :
  PInv db -> is_Some (get_campaign repo campaign db) ->
  exists db', Lifecycle.cancel_queued repo campaign now message db =
      Ok (sql_count (queued_for repo campaign) (p_jobs db), db') /\
    p_campaigns db' = p_campaigns db /\ p_spending db' = p_spending db /\ p_charges db' = p_charges db /\
    cancelled_jobs repo campaign now message db db' /\
    Lifecycle.cancel_queued repo campaign now message db' = Ok (0, db').
Proof.
  intros HI [c Hc]. unfold Lifecycle.cancel_queued.
  set (reason := if match cm_deadline_at c with Some at_ => at_ <=? now | None => false end
                 then BCampaignDeadline else BCampaignCancelled).
  destruct (cancel_queued_reason_run repo campaign now message reason db HI) as (db' & Hrun & Hcs & Hsp & Hch & Hall).
  { unfold reason. destruct (cm_deadline_at c) as [d|]; [destruct (d <=? now)|]; done. }
  exists db'. split_and!; try done.
  - erewrite p_bind_run by (by apply p_some_Ok). exact Hrun.
  - erewrite p_bind_run by (apply p_some_Ok; unfold get_campaign in *; by rewrite Hcs).
    unfold Lifecycle.cancel_queued_reason. erewrite p_bind_run by reflexivity.
    change (sql_select _ (p_jobs db')) with (sql_select (queued_for repo campaign) (p_jobs db')).
    by rewrite (cancelled_none_queued _ _ _ _ _ _ Hall).
Qed.

(** C20: cancelling the queue of a campaign goes through.  In every reachable
    database, for a campaign of the repository, the loop over its queued phase
    jobs never stops half way: it reports how many there were, cancels every
    one with the given message, leaves every other job, the campaigns and the
    ledger as they are, and none is left queued, so a second call finds none. *)
Theorem queued_work_is_cancelled ext db repo campaign now message :
  later ext empty_phase_db db -> is_Some (get_campaign repo campaign db) ->
  exists db', Lifecycle.cancel_queued repo campaign now message db =
      Ok (sql_count (queued_for repo campaign) (p_jobs db), db') /\
    p_campaigns db' = p_campaigns db /\ p_spending db' = p_spending db /\ p_charges db' = p_charges db /\
    cancelled_jobs repo campaign now message db db' /\
    Lifecycle.cancel_queued repo campaign now message db' = Ok (0, db').
Proof.
  intros H Hc. destruct (later_inv _ _ _ empty_inv H) as [HI _]. by apply cancel_queued_run.
Qed.

(** ** Heartbeats *)

Lemma beating_row db repo job now j :
  (j ← get_job repo job db;
   if sql_some (j_campaign_id j) && bool_decide (j_state j = Leased) && sql_ge (j_lease_expires_at j) now
   then Some j else None) = Some j <->
  p_jobs db !! job = Some j /\ j_repo_id j = repo /\ is_Some (j_campaign_id j) /\ j_state j = Leased /\
  exists at_, j_lease_expires_at j = Some at_ /\ now <= at_.
Proof.
  rewrite bind_Some. split.
  - intros (x & Hx & H). case_match eqn:E; [|done]. injection H as ->. apply get_job_Some in Hx as [Hj Hr].
    apply andb_true_iff in E as [[E1 E2]%andb_true_iff E3]. rewrite sql_some_true in E1. rewrite sql_ge_true in E3.
    bool_prop. done.
  - intros (Hj & Hr & Hc & Hs & Ha). exists j. split; [by apply get_job_Some|].
    rewrite (proj2 (sql_some_true _) Hc), (proj2 (sql_ge_true _ _) Ha), bool_decide_true by done. done.
Qed.

Lemma extended_lease now lease grace deadline until :
  (at_ ← checked_add now lease;
   hard ← deadline;
   last ← checked_add hard grace;
   if now <? Z.min at_ last then Some (Z.min at_ last) else None) = Some until <->
  exists hard, deadline = Some hard /\ in_i64 (now + lease) = true /\ in_i64 (hard + grace) = true /\
    until = Z.min (now + lease) (hard + grace) /\ now < until.
Proof.
  unfold checked_add, to_i64. destruct (in_i64 (now + lease)); cbn; [|naive_solver].
  destruct deadline as [hard|]; cbn; [|naive_solver]. split.
  - destruct (in_i64 (hard + grace)) eqn:E; cbn; [|done]. case_match; [|done]. intros [= <-]. bool_prop. eauto 10.
  - intros (h & [= <-] & _ & E & -> & Hl). rewrite E. cbn. by rewrite (proj2 (Z.ltb_lt _ _) Hl).
Qed.

Lemma beat_run db repo job j until :
  PInv db -> p_jobs db !! job = Some j -> j_repo_id j = repo -> j_state j = Leased ->
  p_update_jobs (fun j => (j_id j =? job) && (j_repo_id j =? repo) && bool_decide (j_state j = Leased))
    (fun j => j <|j_lease_expires_at := Some until|>) db =
  Ok (1, db <|p_jobs := <[job := j <|j_lease_expires_at := Some until|>]> (p_jobs db)|>).
Proof.
  intros HI Hj Hr Hs. apply (p_update_job db job _ _ j); [done..| | |].
  - by rewrite (inv_jobs _ HI _ _ Hj), Hr, Hs, !Z.eqb_refl.
  - intros x Hx. bool_prop. split; [done|]. by match goal with E : j_state x = _ |- _ => rewrite E end.
  - intros x. split; [by right|done].
Qed.

(** a phase lease cannot outlive its deadline.  A heartbeat extends the
    lease of a leased campaign job whose lease has not expired, to the lease
    duration from now or the grace after the job's hard deadline, whichever is
    earlier, and only to a later time than now; it changes nothing else. *)
Theorem heartbeats_respect_the_deadline ext db repo job now lease grace until db' :
  later ext empty_phase_db db ->
  Lifecycle.heartbeat repo job now lease grace db = Ok (until, db') <->
  exists j hard, 0 < grace <= lease /\ p_jobs db !! job = Some j /\ j_repo_id j = repo /\ is_Some (j_campaign_id j) /\
    j_state j = Leased /\ (exists at_, j_lease_expires_at j = Some at_ /\ now <= at_) /\
    j_hard_deadline_at j = Some hard /\ in_i64 (now + lease) = true /\ in_i64 (hard + grace) = true /\
    until = Z.min (now + lease) (hard + grace) /\ now < until /\
    db' = db <|p_jobs := <[job := j <|j_lease_expires_at := Some until|>]> (p_jobs db)|>.
Proof.
  intros H. destruct (later_inv _ _ _ empty_inv H) as [HI _]. unfold Lifecycle.heartbeat. split.
  - intros Hb. p_inv Hb. apply beating_row in Hs0 as (Hj & Hr & Hc & Hst & Ha).
    apply ok_or_Ok, extended_lease in Hs1 as (hard & Hd & Hl & Hg & Hu & Hn).
    rewrite (beat_run _ _ _ _ _ HI Hj Hr Hst) in Hs2. injection Hs2 as <- <-. bool_prop.
    exists a0, hard. split_and!; try done; lia.
  - intros (j & hard & Hg & Hj & Hr & Hc & Hst & Ha & Hd & Hl & Hh & Hu & Hn & ->).
    rewrite (p_bind_run _ _ _ tt db).
    2:{ apply p_ensure_Ok. split; [|done]. rewrite !(proj2 (Z.leb_gt _ _)), (proj2 (Z.ltb_ge _ _)) by lia. done. }
    rewrite (p_bind_run _ _ _ j db) by (apply p_some_Ok; split; [by apply beating_row|done]).
    rewrite (p_bind_run _ _ _ until db).
    2:{ apply p_lift_Ok. split; [|done]. apply ok_or_Ok, extended_lease. eauto 10. }
    rewrite (p_bind_run _ _ _ _ _ (beat_run _ _ _ _ _ HI Hj Hr Hst)). done.
Qed.
