(* ===== verification/CampaignTheorems.v ===== *)
(** * What the campaign workflow guarantees

    How campaigns are advanced to their end, and what is left when one ended or
    was cancelled. *)

From S2P Require Import Prelude Sql Domain StateMachine Vocabulary SchedPolicy Store TxLogic Scope Jobs AdmissionPolicy PhaseStore PhaseControl CampaignWork CampaignFlow PhaseLogic PhaseInvariant CampaignInvariant PhaseSystem PhaseTheorems.
From Stdlib Require Import ZArith Lia.
From stdpp Require Import base gmap list strings relations.
Local Open Scope Z_scope.

(** ** Frames *)

(** The tables of campaigns, generations and the ledger; with the jobs, what
    controls campaigns. *)
Definition ledger (db : PhaseDb) := (p_campaigns db, p_generations db, p_spending db, p_charges db).
Definition control (db : PhaseDb) := (p_jobs db, ledger db).

Lemma frame_set_intents s P f : frame control (Work.set_intents s P f).
Proof. intros db a db' [= <- <-]. by destruct s. Qed.
Lemma frame_set_holds P f : frame control (Work.set_holds P f).
Proof. by intros db a db' [= <- <-]. Qed.
Lemma frame_set_batches P f : frame control (Work.set_batches P f).
Proof. by intros db a db' [= <- <-]. Qed.
Lemma frame_set_units P f : frame control (Work.set_units P f).
Proof. by intros db a db' [= <- <-]. Qed.
#[export] Hint Resolve frame_set_intents frame_set_holds frame_set_batches frame_set_units : frame.

Lemma frame_block repo campaign reason now only : frame control (Work.block repo campaign reason now only).
Proof. unfold Work.block. frame_tac. Qed.
Lemma frame_block_pending repo campaign group deadline reason now :
  frame control (Work.block_pending repo campaign group deadline reason now).
Proof. unfold Work.block_pending. frame_tac. Qed.
#[export] Hint Resolve frame_block frame_block_pending : frame.

Lemma frame_fund repo campaign deadline now policy spent groups acc :
  frame control (Workflow.fund repo campaign deadline now policy spent groups acc).
Proof. revert acc. induction groups as [|g groups IH]; intros acc; cbn; frame_tac. Qed.

Lemma frame_update_jobs P f : frame ledger (p_update_jobs P f).
Proof. by intros db n db' (_ & _ & ->)%p_update_jobs_Ok. Qed.
Lemma frame_clear_prepared job : frame ledger (Lifecycle.clear_prepared job).
Proof. by intros db u db' [= _ <-]. Qed.
Lemma frame_block_job_work repo job reason now : frame ledger (Intents.block_job_work_raw repo job reason now).
Proof.
  unfold Intents.block_job_work_raw. frame_tac;
    (intros ? ? ?; unfold Intents.block_intents, Intents.block_holds, Intents.block_batches, Intents.defer_units; by intros [= _ <-]).
Qed.
#[export] Hint Resolve frame_update_jobs frame_clear_prepared frame_block_job_work : frame.

Lemma frame_terminalize repo job now state message reason :
  frame ledger (Lifecycle.terminalize repo job now state message reason).
Proof. unfold Lifecycle.terminalize. frame_tac. Qed.
#[export] Hint Resolve frame_terminalize : frame.

Lemma frame_cancel_queued_reason repo campaign now error reason :
  frame ledger (Lifecycle.cancel_queued_reason repo campaign now error reason).
Proof. unfold Lifecycle.cancel_queued_reason. frame_tac. Qed.

Lemma frame_weaken {A} (m : PTx A) : frame control m -> frame ledger m.
Proof. intros H db a db' E%H. exact (f_equal snd E). Qed.

(** ** Explained work *)

(** Every handoff and batch of the campaign is complete or names its obstacle. *)
Definition explained (repo campaign : Z) (db : PhaseDb) : Prop :=
  (forall s id i, Intents.table s db !! id = Some i -> Work.of_campaign repo campaign i = true ->
     it_state i = Complete \/ is_Some (it_block_reason i)) /\
  (forall id b, p_batches db !! id = Some b -> Work.batch_of repo campaign b = true ->
     ba_state b = Complete \/ is_Some (ba_block_reason b)).

Lemma blocked_intents_explained repo campaign only reason now t id i :
  sql_update (fun i => Work.of_campaign repo campaign i && negb (bool_decide (it_state i = Complete)) &&
                       Work.unexplained only (it_block_reason i)) (Work.block_intent reason now) t !! id = Some i ->
  Work.of_campaign repo campaign i = true -> it_state i = Complete \/ is_Some (it_block_reason i).
Proof.
  intros (i0 & _ & ->)%lookup_sql_update_Some. case_match eqn:E; [by right; eexists|]. intros Ho. rewrite Ho in E. cbn in E.
  case_bool_decide; [by left|]. cbn in E. unfold Work.unexplained in E. destruct only; [|done]. cbn in E.
  right. by destruct (it_block_reason i0).
Qed.

Lemma block_explains repo campaign reason now only db u db' :
  Work.block repo campaign reason now only db = Ok (u, db') -> explained repo campaign db'.
Proof.
  intros H. unfold Work.block in H. p_inv H.
  unfold Work.set_intents, Work.set_holds, Work.set_batches, Work.set_units in *. simplify_eq. split.
  - intros s id i Hi Ho. destruct s; (eapply blocked_intents_explained; [exact Hi|exact Ho]).
  - intros id b (b0 & _ & ->)%lookup_sql_update_Some Ho. revert Ho. case_match eqn:E; [by right; eexists|].
    intros Ho. rewrite Ho in E. cbn in E. case_bool_decide; [by left|]. cbn in E. unfold Work.unexplained in E.
    destruct only; [|done]. cbn in E. right. by destruct (ba_block_reason b0).
Qed.

(** ** Terminal updates *)

Lemma campaign_picks db repo id P :
  PInv db -> picks (fun c => (cm_id c =? id) && (cm_repo_id c =? repo) && P c) (p_campaigns db) id.
Proof. intros HI k c Hc HP. bool_prop. by rewrite <- (inv_campaigns _ HI _ _ Hc). Qed.

Lemma ended_unique t id c state reason summary now :
  state <> CmActive -> t !! id = Some c -> unique_on Campaigns.active_key t = true ->
  unique_on Campaigns.active_key (<[id := Ending.ended state reason summary now c]> t) = true.
Proof.
  intros Hs Hc. rewrite !unique_on_true. intros Hu i j ri rj k Hi Hj Hki Hkj.
  assert (forall c, Campaigns.active_key (Ending.ended state reason summary now c) = None) as Hn.
  { intros x. unfold Campaigns.active_key. cbn. by rewrite bool_decide_false. }
  apply lookup_insert_Some in Hi as [[<- <-]|[Hni Hi]], Hj as [[<- <-]|[Hnj Hj]]; rewrite ?Hn in *; try done. by eapply Hu.
Qed.

Lemma end_campaign_run repo id state reason summary now db :
  PInv db -> state <> CmActive ->
  Ending.end_campaign repo id state reason summary now db =
    match get_campaign repo id db with
    | Some c => if bool_decide (cm_state c = CmActive)
                then Ok (tt, db <|p_campaigns := <[id := Ending.ended state reason summary now c]> (p_campaigns db)|>)
                else Err (ConflictError CCampaignState)
    | None => Err (ConflictError CCampaignState)
    end.
Proof.
  intros HI Hs. unfold Ending.end_campaign, Ending.update, get_campaign.
  pose proof (campaign_picks db repo id (fun c => bool_decide (cm_state c = CmActive)) HI) as Hp.
  rewrite (sql_count_picks _ _ _ Hp), (sql_update_picks _ _ _ _ Hp).
  destruct (p_campaigns db !! id) as [c|] eqn:Ec; cbn; [|by rewrite (inv_active_campaign _ HI)].
  rewrite (inv_campaigns _ HI _ _ Ec), Z.eqb_refl. cbn. destruct (cm_repo_id c =? repo); cbn.
  - case_bool_decide; [by rewrite (ended_unique _ _ c) by (done || apply HI)|by rewrite (inv_active_campaign _ HI)].
  - by rewrite (inv_active_campaign _ HI).
Qed.

(** ** Coverage does not depend on how a campaign ended *)

Section SameCampaigns.
Context (db : PhaseDb) (P : Campaign -> bool) (f : Campaign -> Campaign).
Context (Hf : forall c, cm_id (f c) = cm_id c /\ cm_generation_id (f c) = cm_generation_id c /\
                        cm_effective_policy (f c) = cm_effective_policy c).
Let db' := db <|p_campaigns := sql_update P f (p_campaigns db)|>.

Lemma managed_same g : Cover.managed_generation g db' = Cover.managed_generation g db.
Proof.
  unfold Cover.managed_generation. cbn [p_campaigns p_manifests p_checkpoints p_results db']. f_equal. f_equal. f_equal.
  apply eq_true_iff_eq. rewrite !sql_exists_true. split.
  - intros (i & c' & (c & Hc & ->)%lookup_sql_update_Some & Hq). exists i, c. split; [done|].
    destruct (P c); [|done]. destruct (Hf c) as (E1 & E2 & E3). by rewrite E1, E2, E3 in Hq.
  - intros (i & c & Hc & Hq). exists i, (if P c then f c else c). split; [by apply lookup_sql_update_Some; eauto|].
    destruct (P c); [|done]. destruct (Hf c) as (E1 & E2 & E3). by rewrite E1, E2, E3.
Qed.

Lemma ordinary_same d g u : Cover.ordinary_result d g u db' = Cover.ordinary_result d g u db.
Proof.
  unfold Cover.ordinary_result. apply eq_true_iff_eq. rewrite !sql_exists_true.
  by setoid_rewrite managed_same.
Qed.

Lemma rollup_same g id manifest : Cover.rollup g id manifest db' = Cover.rollup g id manifest db.
Proof.
  unfold Cover.rollup, Cover.ready. rewrite managed_same. f_equal.
  - apply sql_count_ext. intros i u _. unfold Cover.uncovered, Cover.unit_covered. by rewrite ordinary_same.
  - apply sql_count_ext. intros i u _. unfold Cover.uncovered, Cover.unit_covered, Cover.unit_follow_up.
    by rewrite !ordinary_same.
Qed.

Lemma manifest_same repo id sealed :
  manifest_sealed_raw repo id db = Ok (sealed, db) -> manifest_sealed_raw repo id db' = Ok (sealed, db').
Proof.
  unfold manifest_sealed_raw, own_generation, require_repo. intros H. p_inv H.
  rewrite (p_bind_run _ _ _ tt db'); [reflexivity|]. erewrite p_bind_run by reflexivity.
  apply p_lift_Ok. split; [|done]. by destruct a.
Qed.

Lemma coverage_same repo id r :
  Cover.coverage_rollup_raw repo id db = Ok (r, db) -> Cover.coverage_rollup_raw repo id db' = Ok (r, db').
Proof.
  unfold Cover.coverage_rollup_raw. intros H. p_inv H. erewrite p_bind_run by (by apply p_some_Ok).
  erewrite p_bind_run by (by apply manifest_same). unfold p_read. by rewrite rollup_same.
Qed.

End SameCampaigns.

Lemma ended_covered db repo campaign c state reason summary now id r :
  keyed cm_id (p_campaigns db) -> p_campaigns db !! campaign = Some c ->
  Cover.coverage_rollup_raw repo id db = Ok (r, db) ->
  let db' := db <|p_campaigns := <[campaign := Ending.ended state reason summary now c]> (p_campaigns db)|> in
  Cover.coverage_rollup_raw repo id db' = Ok (r, db').
Proof.
  intros Hk Hc Hr. replace (<[campaign := _]> (p_campaigns db)) with
    (sql_update (fun x => cm_id x =? campaign) (Ending.ended state reason summary now) (p_campaigns db)).
  - by apply coverage_same.
  - rewrite (sql_update_picks _ _ _ campaign), Hc, (Hk _ _ Hc), Z.eqb_refl; [done|].
    intros i x Hx E. bool_prop. by rewrite <- (Hk _ _ Hx).
Qed.

(** ** The last step of a campaign *)

Lemma coverage_complete repo generation db :
  Ending.coverage_now repo generation db = Ok (CovComplete, db) ->
  exists id r, generation = Some id /\ Cover.coverage_rollup_raw repo id db = Ok (r, db) /\ Cover.complete r = true.
Proof.
  unfold Ending.coverage_now. destruct generation as [id|]; [|done]. intros H. p_inv H.
  case_bool_decide as Hc; [|by p_inv H]. p_inv H.
  lazymatch goal with E : Cover.coverage_rollup_raw _ _ _ = Ok (?r, _) |- _ => exists id, r; destruct (Cover.complete r) eqn:Er end;
    [by split_and!|]. congruence.
Qed.

Lemma block_reason_not_completed r : block_reason_str r <> lit "completed".
Proof. by destruct r. Qed.

Lemma control_campaign repo id db db' : control db' = control db -> get_campaign repo id db' = get_campaign repo id db.
Proof. unfold control, get_campaign. by intros [= _ -> _ _ _]. Qed.

Section Rendering.
Context (counts_json counts_canonical : Ending.CampaignCounts -> str).
Abbreviation summarize_raw := (Ending.summarize_raw counts_json counts_canonical).
Abbreviation conclude := (Workflow.conclude counts_json counts_canonical).
Abbreviation advance := (Workflow.advance counts_json counts_canonical).

Lemma summarize_Ok repo id db summary db' :
  summarize_raw repo id db = Ok (summary, db') ->
  db' = db /\ Ending.ts_campaign_id summary = id /\
  exists c, get_campaign repo id db = Some c /\
    Ending.coverage_now repo (cm_generation_id c) db = Ok (Ending.ts_coverage summary, db).
Proof.
  intros H. unfold Ending.summarize_raw in H. p_inv H. eauto.
Qed.

Lemma conclude_Ok scope campaign now expired reason exhausted db p db' :
  let repo := rs_repo_id scope in
  PInv db -> conclude scope campaign now expired reason exhausted db = Ok (p, db') ->
  exists c summary why d,
    get_campaign repo campaign db = Some c /\ cm_state c = CmActive /\ control d = control db /\
    explained repo campaign d /\
    (Ending.ts_coverage summary = CovComplete -> exists id r, cm_generation_id c = Some id /\
       Cover.coverage_rollup_raw repo id d = Ok (r, d) /\ Cover.complete r = true) /\
    db' = d <|p_campaigns := <[campaign := Ending.ended CmFinished (Ending.finished_reason_str why) summary now c]>
                               (p_campaigns db)|> /\
    p = {| Workflow.pr_finish := Some (if expired then Workflow.DeadlineReached else Workflow.FinishCompleted);
           Workflow.pr_budget_exhausted := exhausted |} /\
    (why = Ending.FCompleted -> expired = false /\ reason = None /\ Ending.ts_coverage summary = CovComplete /\
       Work.has_unfinished repo campaign d = false) /\
    (expired = true -> why = Ending.FDeadline).
Proof.
  intros repo HI H. unfold Workflow.conclude in H. apply p_bind_Ok in H as (u & d & Hb & H).
  pose proof (frame_block _ _ _ _ _ _ _ _ Hb) as Hctl. pose proof (block_explains _ _ _ _ _ _ _ _ Hb) as Hex.
  destruct (maintains_block_unexplained _ _ _ _ _ _ HI Hb) as [HId _].
  apply p_bind_Ok in H as (summary & d1 & Hsum & H).
  apply summarize_Ok in Hsum as (-> & Hid & c & Hc & Hcov). fold repo in Hc, Hcov, Hex.
  apply p_bind_Ok in H as (unf & d1 & [Hunf ->]%p_read_Ok & H).
  set (outcome := if expired then _ else _) in H. destruct outcome as [finish why] eqn:Eo.
  apply p_bind_Ok in H as (u2 & d2 & Hfin & [-> ->]%p_ret_Ok).
  assert (d2 = d <|p_campaigns := <[campaign := Ending.ended CmFinished (Ending.finished_reason_str why) summary now c]>
                                   (p_campaigns d)|> /\ cm_state c = CmActive) as [-> Hact].
  { unfold Ending.finish_scheduled, Ending.finish_with_reason in Hfin. p_inv Hfin.
    rewrite end_campaign_run in Hfin by done. fold repo in Hfin. rewrite Hc in Hfin.
    case_bool_decide; [|done]. by injection Hfin as <- <-. }
  pose proof (control_campaign repo campaign _ _ Hctl) as Hsame. rewrite Hc in Hsame.
  exists c, summary, why, d. split_and!; try done.
  - intros E. rewrite E in Hcov. by apply coverage_complete in Hcov.
  - unfold control in Hctl. by injection Hctl as _ -> _ _ _.
  - by destruct expired; injection Eo as <- _.
  - intros ->. unfold outcome in Eo. destruct expired; [done|]. injection Eo as _ Eo.
    destruct reason; [done|]. case_match eqn:Ecc; [|done]. bool_prop. subst unf. by split_and!.
  - intros ->. by injection Eo as _ <-.
Qed.

(** No job of the campaign is queued or leased. *)
Definition idle (repo campaign : Z) (db : PhaseDb) : Prop :=
  forall id j, p_jobs db !! id = Some j -> j_campaign_id j = Some campaign -> j_repo_id j = repo ->
    active_state (j_state j) = false.

(** What [advance] does before it concludes: either nothing ends, or the
    campaign is idle and concluded. *)
Lemma advance_Ok scope campaign now scan db p db' :
  let repo := rs_repo_id scope in
  PInv db -> advance scope campaign now scan db = Ok (p, db') ->
  (Workflow.pr_finish p = None /\ ledger db' = ledger db) \/
  exists c d reason exhausted,
    get_campaign repo campaign db = Some c /\ PInv d /\ ledger d = ledger db /\ idle repo campaign d /\
    conclude scope campaign now (Workflow.past c now) reason exhausted d = Ok (p, db').
Proof.
  intros repo HI H. unfold Workflow.advance, Workflow.get in H.
  apply p_bind_Ok in H as (c & d & [Hc ->]%p_some_Ok & H). fold repo in Hc, H.
  case_bool_decide as Hact; cbn [negb] in H; [|p_inv H; by left].
  apply p_bind_Ok in H as (budget & d & Hb & H).
  assert (d = db) as ->. { destruct (Workflow.early_reason c now); [by p_inv Hb|]. by apply reads_try_budget in Hb. }
  set (reason := Workflow.stop_reason _ budget) in H.
  apply p_bind_Ok in H as (u & d & Hcb & H).
  assert (PInv d /\ ledger d = ledger db) as [HId Hld].
  { destruct reason as [r|]; [|by p_inv Hcb]. split.
    - refine (proj1 ((_ : maintains _) _ _ _ HI Hcb)). apply maintains_bind; [apply maintains_reads; auto with phase|].
      intros _. apply maintains_bind; auto with phase.
    - revert Hcb. apply frame_bind; [apply frame_reads; auto with phase|]. intros _.
      apply frame_bind; [apply frame_cancel_queued_reason|]. intros _. apply frame_weaken, frame_block. }
  destruct (sql_null reason && negb scan); [apply p_ret_Ok in H as [-> ->]; by left|].
  apply p_bind_Ok in H as (busy & d1 & [-> ->]%p_read_Ok & H).
  destruct (sql_exists _ (p_jobs d)) eqn:Eb in H; [apply p_ret_Ok in H as [-> ->]; by left|].
  assert (idle repo campaign d) as Hidle.
  { intros id j Hj Hjc Hjr. rewrite sql_exists_false in Eb. specialize (Eb _ _ Hj).
    rewrite Hjc, Hjr in Eb. cbn in Eb. by rewrite !Z.eqb_refl in Eb. }
  destruct budget as [[policy spent]|]; [|right; by exists c, d, reason, false].
  apply p_bind_Ok in H as (groups & d1 & [-> ->]%p_read_Ok & H). apply p_bind_Ok in H as (f & d1 & Hf & H).
  pose proof (frame_fund _ _ _ _ _ _ _ _ _ _ _ Hf) as Hctl.
  destruct (maintains_fund _ _ _ _ _ _ _ _ _ _ _ HId Hf) as [HI1 _].
  assert (ledger d1 = ledger db) as Hl1 by (rewrite <- Hld; exact (f_equal snd Hctl)).
  destruct (Workflow.fu_fundable f); [apply p_ret_Ok in H as [-> ->]; by left|]. right. exists c, d1, (Workflow.fu_reason f), (Workflow.fu_exhausted f).
  split_and!; try done. unfold idle. by rewrite (f_equal fst Hctl : p_jobs d1 = p_jobs d).
Qed.

End Rendering.

(** Explained handoffs of a sound database are blocked or complete. *)
Definition settled (repo campaign : Z) (db : PhaseDb) : Prop :=
  (forall s id i, Intents.table s db !! id = Some i -> Work.of_campaign repo campaign i = true ->
     it_state i = Complete \/ (it_state i = Blocked /\ is_Some (it_block_reason i))) /\
  (forall id b, p_batches db !! id = Some b -> Work.batch_of repo campaign b = true ->
     ba_state b = Complete \/ is_Some (ba_block_reason b)).

Lemma explained_settled repo campaign db : PInv db -> explained repo campaign db -> settled repo campaign db.
Proof.
  intros HI [Hi Hb]. split; [|done]. intros s id i Ht Ho. destruct (Hi _ _ _ Ht Ho) as [?|Hr]; [by left|].
  destruct (table_ok s db HI id i Ht) as (_ & _ & Hst). destruct Hr as [r Hr].
  destruct (it_state i); [destruct Hst; congruence|right; split; [done|by eexists]|destruct Hst; congruence|by left].
Qed.

(** The coverage a campaign records when it completes. *)
Definition covered (repo : Z) (c : Campaign) (db : PhaseDb) : Prop :=
  exists id r, cm_generation_id c = Some id /\ Cover.coverage_rollup_raw repo id db = Ok (r, db) /\ Cover.complete r = true.

(** C22: a campaign ends settled.  Advancing a campaign never touches
    generations, charges or another campaign.  It ends the campaign only when it
    was active and none of its jobs is queued or leased any more; every handoff
    of the campaign is then complete or blocked with its reason, and every batch
    complete or carrying a reason; it ends for the deadline exactly when that has
    passed; and it is recorded as completed only if nothing is unfinished and
    the generation's coverage is complete by its own evidence. *)
Theorem campaigns_end_settled ext db scope campaign now scan p db' :
  let repo := rs_repo_id scope in
  later ext empty_phase_db db ->
  Workflow.advance (counts_json ext) (counts_canonical ext) scope campaign now scan db = Ok (p, db') ->
  p_generations db' = p_generations db /\ p_spending db' = p_spending db /\ p_charges db' = p_charges db /\
  match Workflow.pr_finish p with
  | None => p_campaigns db' = p_campaigns db
  | Some finish => exists c c',
      p_campaigns db !! campaign = Some c /\ cm_repo_id c = repo /\ cm_state c = CmActive /\
      p_campaigns db' = <[campaign := c']> (p_campaigns db) /\ cm_state c' = CmFinished /\ cm_finished_at c' = Some now /\
      (finish = Workflow.DeadlineReached <-> exists at_, cm_deadline_at c = Some at_ /\ at_ <= now) /\
      idle repo campaign db' /\ settled repo campaign db' /\
      (cm_terminal_reason c' = Some (lit "completed") ->
         cm_coverage_at_finish c' = Some CovComplete /\ Work.has_unfinished repo campaign db' = false /\ covered repo c db')
  end.
Proof.
  intros repo H Ha. destruct (later_inv _ _ _ empty_inv H) as [HI _].
  destruct (maintains_advance _ _ _ _ _ _ _ _ _ HI Ha) as [HI' _].
  apply advance_Ok in Ha as [[-> Hl]|(c & d & reason & exhausted & Hc & HId & Hl & Hidle & Hcon)]; [by injection Hl| |done].
  apply conclude_Ok in Hcon as (c0 & summary & why & d0 & Hc0 & Hact & Hctl & Hex & Hcov & -> & -> & Hdone & Hexp); [|done].
  fold repo in Hc, Hidle, Hc0, Hex, Hcov, Hdone.
  assert (c0 = c) as ->.
  { unfold get_campaign in Hc, Hc0. injection Hl as Ec _ _ _. rewrite Ec in Hc0. congruence. }
  apply get_campaign_Some in Hc as [Hc Hrepo]. injection Hctl as Ej Ec Eg Es Ech. injection Hl as Lc Lg Ls Lch. cbn.
  split_and!; [congruence..|]. exists c, (Ending.ended CmFinished (Ending.finished_reason_str why) summary now c).
  split_and!; try done; [by rewrite Lc| | | |].
  - unfold Workflow.past. destruct (cm_deadline_at c) as [at_|]; [destruct (at_ <=? now) eqn:E; bool_prop|];
      naive_solver lia.
  - unfold idle. cbn. by rewrite Ej.
  - by apply explained_settled.
  - cbn. intros [= Hreason]. assert (why = Ending.FCompleted) as Hw.
    { destruct why; try done. by destruct (block_reason_not_completed reason0). }
    destruct (Hdone Hw) as (_ & _ & Hcc & Hun). split_and!; [congruence|done|].
    destruct (Hcov Hcc) as (id & r & Hid & Hr & Hcomp). exists id, r. split_and!; [done| |done].
    rewrite <- Ec. eapply ended_covered; [|rewrite Ec, Lc; done|exact Hr]. rewrite Ec. apply HId.
Qed.

(** ** Steps that cannot fail *)

Lemma own_generation_run repo id relation db :
  is_Some (get_generation repo id db) -> own_generation repo id relation db = Ok (tt, db).
Proof.
  intros [g [Hg Hr]%get_generation_Some]. unfold own_generation, require_repo. erewrite p_bind_run by reflexivity.
  rewrite Hg. cbn. unfold check, admits. cbn. by rewrite Hr, Z.eqb_refl.
Qed.

Lemma rollup_run repo id db : is_Some (get_generation repo id db) -> exists r, Cover.coverage_rollup_raw repo id db = Ok (r, db).
Proof.
  intros Hg. pose proof Hg as [g Hg']. unfold Cover.coverage_rollup_raw, manifest_sealed_raw. eexists.
  erewrite p_bind_run by (by apply p_some_Ok). erewrite p_bind_run; [reflexivity|].
  erewrite (p_bind_run _ _ _ tt) by (by apply own_generation_run). reflexivity.
Qed.

Lemma coverage_now_run repo generation db :
  (forall id, generation = Some id -> is_Some (get_generation repo id db)) ->
  exists coverage, Ending.coverage_now repo generation db = Ok (coverage, db).
Proof.
  intros Hg. unfold Ending.coverage_now. destruct generation as [id|]; [|by eexists].
  specialize (Hg _ eq_refl). pose proof Hg as [g Hg']. destruct (rollup_run _ _ _ Hg) as [r Hr].
  erewrite (p_bind_run _ _ _ tt) by (by apply own_generation_run). erewrite p_bind_run by (by apply p_some_Ok).
  case_bool_decide; [|by eexists]. erewrite p_bind_run by exact Hr. by eexists.
Qed.

Lemma block_run repo campaign reason now only db :
  is_Some (get_campaign repo campaign db) -> exists db', Work.block repo campaign reason now only db = Ok (tt, db').
Proof. intros [c Hc]. eexists. unfold Work.block. erewrite p_bind_run by (by apply p_some_Ok). reflexivity. Qed.

(** ** Counts fit their limits *)

(** The groups of a summary; in JSON each is a few names and one [i64]. *)
Definition groups (c : Ending.CampaignCounts) : Z :=
  let len {A} (l : list A) := Z.of_nat (length l) in
  len (Ending.cc_jobs c) + len (Ending.cc_lead_status c) + len (Ending.cc_lead_disposition c) +
  len (Ending.cc_findings c) + len (Ending.cc_verdicts c) +
  (let w := Ending.cc_pending_work c in
   len (Work.su_leads w) + len (Work.su_findings w) + len (Work.su_exact_batches w) + len (Work.su_holds w)).

(** A rendering that takes at most 200 bytes for each group and 256 for the
    rest, as the JSON of names below 40 bytes and of 64-bit counts does. *)
Definition compact (render : Ending.CampaignCounts -> str) : Prop :=
  forall c, str_len (render c) <= 256 + 200 * groups c.

Lemma grouped_length {K} (keys : list K) count : (length (Work.grouped keys count) <= length keys)%nat.
Proof. unfold Work.grouped. rewrite length_filter. by rewrite length_fmap. Qed.

(** The campaign's jobs are of the three phase kinds. *)
Definition phase_jobs (repo campaign : Z) (db : PhaseDb) : Prop :=
  forall id j, p_jobs db !! id = Some j -> j_campaign_id j = Some campaign -> j_repo_id j = repo ->
    phase_kind (j_kind j) = true.

Lemma job_counts_length repo campaign db :
  phase_jobs repo campaign db -> (length (Ending.job_counts repo campaign db) <= 15)%nat.
Proof.
  intros Hj. unfold Ending.job_counts. etrans; [apply grouped_length|].
  set (kinds := remove_dups _).
  assert (length kinds <= 3)%nat as Hk.
  { change 3%nat with (length (JobKind.as_str <$> [Survey; Drilldown; Verify])).
    apply submseteq_length, NoDup_submseteq; [apply NoDup_remove_dups|].
    intros x [j [-> [HP (id & Hid)]%elem_of_sql_select]]%elem_of_remove_dups%list_elem_of_fmap.
    apply andb_true_iff in HP as [Hc%sql_eq_true Hr%Z.eqb_eq]. apply list_elem_of_fmap_2.
    specialize (Hj id j Hid Hc Hr). destruct (j_kind j); try done; set_solver. }
  assert (length (sql_sort (fun a b => InventoryManifest.bytes_ge b a) kinds) = length kinds) as E
    by (unfold sql_sort; by rewrite sorting.merge_sort_Permutation).
  rewrite <- E in Hk. clear E.
  set (ks := sql_sort _ kinds) in *. clearbody ks. transitivity (5 * length ks)%nat; [|lia].
  clear. induction ks as [|k ks IH]; [done|]. rewrite bind_cons, length_app, length_fmap. cbn [length]. lia.
Qed.

Lemma finish_counts_fits counts_json counts_canonical repo campaign generation db :
  compact counts_json -> compact counts_canonical -> phase_jobs repo campaign db ->
  let c := Ending.campaign_counts repo campaign generation db in
  Ending.finish_counts counts_json counts_canonical c = Ok (counts_canonical c).
Proof.
  intros Hj Hc Hp c. specialize (Hj c). specialize (Hc c). pose proof (job_counts_length _ _ _ Hp) as H0.
  assert (Z.of_nat (length (Ending.cc_jobs c)) <= 15) as H1 by (change (Ending.cc_jobs c) with (Ending.job_counts repo campaign db); lia).
  assert (forall K (keys : list K) count n, length keys = n -> Z.of_nat (length (Work.grouped keys count)) <= Z.of_nat n) as Hg.
  { intros K keys count n <-. apply inj_le, grouped_length. }
  assert (Z.of_nat (length (Ending.cc_lead_status c)) <= 3) as H2 by (by apply (Hg _ _ _ 3%nat)).
  assert (Z.of_nat (length (Ending.cc_lead_disposition c)) <= 5) as H3 by (by apply (Hg _ _ _ 5%nat)).
  assert (Z.of_nat (length (Ending.cc_findings c)) <= 6) as H4 by (by apply (Hg _ _ _ 6%nat)).
  assert (Z.of_nat (length (Ending.cc_verdicts c)) <= 3) as H5 by (by apply (Hg _ _ _ 3%nat)).
  assert (Z.of_nat (length (Work.su_leads (Ending.cc_pending_work c))) <= 44) as H6 by (by apply (Hg _ _ _ 44%nat)).
  assert (Z.of_nat (length (Work.su_findings (Ending.cc_pending_work c))) <= 44) as H7 by (by apply (Hg _ _ _ 44%nat)).
  assert (Z.of_nat (length (Work.su_exact_batches (Ending.cc_pending_work c))) <= 44) as H8 by (by apply (Hg _ _ _ 44%nat)).
  assert (Z.of_nat (length (Work.su_holds (Ending.cc_pending_work c))) <= 11) as H9 by (by apply (Hg _ _ _ 11%nat)).
  unfold groups in Hj, Hc. unfold Ending.finish_counts, Work.nodes, Ending.MAX_BYTES, Ending.MAX_NODES, Ending.MAX_DEPTH.
  cbn [Z.ltb Z.compare Pos.compare Pos.compare_cont]. unfold usize_max.
  repeat (rewrite (proj2 (Z.ltb_ge _ _)) by lia). done.
Qed.

Section Run.
Context (counts_json counts_canonical : Ending.CampaignCounts -> str).
Context (Hjson : compact counts_json) (Hcanonical : compact counts_canonical).

(** The summary of a campaign whose jobs are phase jobs is always made. *)
Lemma summarize_run repo id c db :
  get_campaign repo id db = Some c -> phase_jobs repo id db ->
  (forall g, cm_generation_id c = Some g -> is_Some (get_generation repo g db)) ->
  exists summary, Ending.summarize_raw counts_json counts_canonical repo id db = Ok (summary, db) /\
                  Ending.ts_campaign_id summary = id.
Proof.
  intros Hc Hp Hg. destruct (coverage_now_run _ _ _ Hg) as [coverage Hcov]. unfold Ending.summarize_raw.
  erewrite p_bind_run by (by apply p_some_Ok). erewrite p_bind_run by exact Hcov. erewrite p_bind_run by reflexivity.
  rewrite finish_counts_fits by done. eexists. split; [erewrite p_bind_run by reflexivity; reflexivity|done].
Qed.

Lemma finish_scheduled_run scope id c summary why now db :
  let repo := rs_repo_id scope in
  PInv db -> rs_operator scope = true -> get_campaign repo id db = Some c -> cm_state c = CmActive ->
  Ending.summarize_raw counts_json counts_canonical repo id db = Ok (summary, db) -> Ending.ts_campaign_id summary = id ->
  exists db', Ending.finish_scheduled counts_json counts_canonical scope id summary why now db = Ok (tt, db').
Proof.
  intros repo HI Hop Hc Ha Hs Hid. unfold Ending.finish_scheduled, Ending.finish_with_reason, operator.
  rewrite Hop. cbn [p_ensure]. eexists. do 2 erewrite (p_bind_run _ _ _ tt) by reflexivity.
  rewrite Hid, Z.eqb_refl. erewrite (p_bind_run _ _ _ tt) by reflexivity. erewrite p_bind_run by exact Hs.
  rewrite bool_decide_true by done. erewrite (p_bind_run _ _ _ tt) by reflexivity.
  rewrite end_campaign_run by done. fold repo. by rewrite Hc, bool_decide_true.
Qed.

Lemma conclude_run scope campaign c now expired reason exhausted db :
  let repo := rs_repo_id scope in
  PInv db -> rs_operator scope = true -> get_campaign repo campaign db = Some c -> cm_state c = CmActive ->
  phase_jobs repo campaign db ->
  (forall g, cm_generation_id c = Some g -> is_Some (get_generation repo g db)) ->
  exists p db', Workflow.conclude counts_json counts_canonical scope campaign now expired reason exhausted db = Ok (p, db').
Proof.
  intros repo HI Hop Hc Ha Hp Hg. unfold Workflow.conclude. fold repo.
  destruct (block_run repo campaign BRequiresSuccessor now true db) as [d Hb]; [by eexists|].
  pose proof (frame_block _ _ _ _ _ _ _ _ Hb) as Hctl. destruct (maintains_block_unexplained _ _ _ _ _ _ HI Hb) as [HId _].
  rewrite (p_bind_run _ _ _ _ _ Hb). rewrite <- (control_campaign repo campaign db d Hctl) in Hc.
  assert (forall g, cm_generation_id c = Some g -> is_Some (get_generation repo g d)) as Hg'.
  { intros g E. injection Hctl as _ _ Eg _ _. unfold get_generation. rewrite Eg. by apply Hg. }
  assert (phase_jobs repo campaign d) as Hp' by (unfold phase_jobs; by rewrite (f_equal fst Hctl : p_jobs d = p_jobs db)).
  destruct (summarize_run repo campaign c d Hc Hp' Hg') as (summary & Hs & Hid).
  rewrite (p_bind_run _ _ _ _ _ Hs). erewrite p_bind_run by reflexivity.
  set (outcome := if expired then _ else _). destruct outcome as [finish why].
  destruct (finish_scheduled_run scope campaign c summary why now d HId Hop Hc Ha Hs Hid) as [db' Hfin].
  rewrite (p_bind_run _ _ _ _ _ Hfin). by eexists _, _.
Qed.

End Run.

Lemma idle_not_busy repo campaign db :
  idle repo campaign db ->
  sql_exists (fun j => sql_eq (j_campaign_id j) campaign && (j_repo_id j =? repo) && active_state (j_state j)) (p_jobs db) = false.
Proof.
  intros Hi. apply sql_exists_false. intros id j Hj. destruct (sql_eq _ _) eqn:E1; [|done]. destruct (_ =? repo) eqn:E2; [|done].
  rewrite sql_eq_true in E1. apply Z.eqb_eq in E2. by apply (Hi id).
Qed.

(** Without leased jobs, a campaign is idle once its queue is cancelled. *)
Lemma cancelled_idle repo campaign now message db db' :
  (forall id j, p_jobs db !! id = Some j -> j_campaign_id j = Some campaign -> j_repo_id j = repo ->
     j_state j <> Leased /\ phase_kind (j_kind j) = true) ->
  cancelled_jobs repo campaign now message db db' -> idle repo campaign db' /\ phase_jobs repo campaign db'.
Proof.
  intros Hjobs Hall. split; intros id j Hj Hc Hr; rewrite Hall in Hj; apply bind_Some in Hj as (j0 & Hj0 & [= <-]);
    destruct (queued_for repo campaign j0) eqn:Eq.
  - done.
  - destruct (Hjobs _ _ Hj0 Hc Hr) as [Hnl Hq].
    unfold queued_for in Eq. rewrite Hc, Hr in Eq. cbn in Eq. rewrite !Z.eqb_refl in Eq. cbn in Eq.
    destruct (j_state j0); try done. by rewrite Hq in Eq.
  - apply (Hjobs id j0 Hj0 Hc Hr).
  - apply (Hjobs id j0 Hj0 Hc Hr).
Qed.


Lemma frame_cancel_queued repo campaign now message : frame ledger (Lifecycle.cancel_queued repo campaign now message).
Proof. unfold Lifecycle.cancel_queued. frame_tac; apply frame_cancel_queued_reason. Qed.

(** a cancelled campaign stops.  In every reachable database an accepted
    cancellation was of an active campaign of the repository: it is recorded as
    cancelled with the reason, every queued phase job of it is cancelled and no
    other job changes, so live leases stay, every handoff and batch of it is
    complete or blocked, and generations and the ledger are as before. *)
Theorem cancelled_campaigns_stop ext db scope campaign reason now u db' :
  let repo := rs_repo_id scope in
  later ext empty_phase_db db ->
  Workflow.cancel (counts_json ext) (counts_canonical ext) scope campaign reason now db = Ok (u, db') ->
  exists c c', p_campaigns db !! campaign = Some c /\ cm_repo_id c = repo /\ cm_state c = CmActive /\
    p_campaigns db' = <[campaign := c']> (p_campaigns db) /\ cm_state c' = CmCancelled /\
    cm_terminal_reason c' = Some reason /\ cm_finished_at c' = Some now /\
    cancelled_jobs repo campaign now reason db db' /\ settled repo campaign db' /\
    p_generations db' = p_generations db /\ p_spending db' = p_spending db /\ p_charges db' = p_charges db.
Proof.
  intros repo H Hrun. destruct (later_inv _ _ _ empty_inv H) as [HI _].
  destruct (maintains_cancel_campaign _ _ _ _ _ _ _ _ _ HI Hrun) as [HI' _]. unfold Workflow.cancel in Hrun.
  apply p_bind_Ok in Hrun as (u1 & d & Hop & Hrun). apply reads_operator in Hop as ->.
  apply p_bind_Ok in Hrun as (e & d & [-> ->]%p_read_Ok & Hrun). apply p_bind_Ok in Hrun as (u2 & d & [He ->]%p_ensure_Ok & Hrun).
  apply bool_decide_eq_true in He. apply p_bind_Ok in Hrun as (n & d & Hq & Hrun).
  destruct (cancel_queued_run repo campaign now reason db HI He) as (d' & Hq' & _ & _ & _ & Hall & _).
  assert (d' = d) as -> by (unfold repo in Hq'; congruence).
  pose proof (frame_cancel_queued _ _ _ _ _ _ _ Hq) as Hl. destruct (maintains_cancel_queued _ _ _ _ _ _ _ HI Hq) as [HId _].
  apply p_bind_Ok in Hrun as (u3 & d1 & Hb & Hrun). pose proof (frame_block _ _ _ _ _ _ _ _ Hb) as Hctl.
  pose proof (block_explains _ _ _ _ _ _ _ _ Hb) as Hex. destruct (maintains_block_all _ _ _ _ _ _ _ HId Hb) as [HI1 _].
  unfold Ending.cancel in Hrun. apply p_bind_Ok in Hrun as (u4 & d2 & Hop & Hrun). apply reads_operator in Hop as ->.
  apply p_bind_Ok in Hrun as (summary & d2 & Hs & Hrun). apply summarize_Ok in Hs as (-> & _ & c & Hc & _).
  rewrite end_campaign_run, Hc in Hrun by done. case_bool_decide as Hact; [|done]. injection Hrun as <- <-.
  apply get_campaign_Some in Hc as [Hc Hr]. injection Hctl as Ej Ec Eg Es Ech. injection Hl as Lc Lg Ls Lch.
  exists c, (Ending.ended CmCancelled reason summary now c). cbn.
  split_and!; try done; try congruence; [|by apply explained_settled].
  intros id. cbn. by rewrite Ej.
Qed.
