(* ===== verification/CampaignOpening.v ===== *)
(** * How campaigns open

    Requests coalesced into the active campaign, the commit a campaign is
    pinned to, and what opening a campaign creates. *)

From S2P Require Import Prelude Sql Domain StateMachine Vocabulary SchedPolicy Store TxLogic Scope Jobs AdmissionPolicy PhaseStore PhaseControl CampaignWork CampaignFlow PhaseLogic PhaseInvariant CampaignInvariant PhaseSystem PhaseTheorems CampaignTheorems.
From Stdlib Require Import ZArith Lia.
From stdpp Require Import base gmap list strings relations.
Local Open Scope Z_scope.

(** ** Coalesced requests *)

Record PendingRequest := { rq_ref : str; rq_trigger : Trigger; rq_intent : FollowUp.ReviewIntent; rq_at : Z }.

Definition entry (r : PendingRequest) : json := FollowUp.trigger_entry (rq_ref r) (rq_trigger r) (rq_intent r) (rq_at r).

(** The stored document after some requests, each coalesced into the last. *)
Fixpoint coalesced (previous : option json) (requests : list PendingRequest) : option json :=
  match requests with
  | [] => previous
  | r :: requests' =>
      coalesced (Some (FollowUp.document previous (rq_ref r) (rq_trigger r) (rq_intent r) (rq_at r))) requests'
  end.

Lemma last_16_drop l : FollowUp.last_16 l = drop (length l - 16) l.
Proof.
  unfold FollowUp.last_16. destruct (_ <? _)%nat eqn:E; [done|]. apply Nat.ltb_ge in E.
  by replace (length l - 16)%nat with 0%nat by lia.
Qed.

Lemma last_16_app l x : FollowUp.last_16 (FollowUp.last_16 l ++ [x]) = FollowUp.last_16 (l ++ [x]).
Proof.
  rewrite !last_16_drop, !length_app, length_drop. cbn. destruct (decide (length l <= 16)%nat).
  - replace (length l - 16)%nat with 0%nat by lia. by rewrite drop_0, Nat.sub_0_r.
  - rewrite !drop_app_le by (rewrite ?length_drop; lia). rewrite drop_drop. f_equal. f_equal. lia.
Qed.

Lemma length_last_16 l : (length (FollowUp.last_16 l) <= 16)%nat.
Proof. rewrite last_16_drop, length_drop. lia. Qed.

(** The document of the requests so far. *)
Definition document_of (requests : list PendingRequest) (newest : PendingRequest) : json :=
  JObject [(lit "version", JNumber 1);
           (lit "triggers", JArray (FollowUp.last_16 (entry <$> requests ++ [newest])));
           (lit "newest_ref", JString (rq_ref newest));
           (lit "kind_hint", JString (FollowUp.intent_str
              (if existsb (fun r => bool_decide (rq_intent r = FollowUp.FullReview)) (requests ++ [newest])
               then FollowUp.FullReview else FollowUp.IncrementalReview)))].

Lemma existsb_snoc {A} (f : A -> bool) l x : existsb f (l ++ [x]) = existsb f l || f x.
Proof. induction l as [|y l IH]; cbn; [by rewrite orb_false_r|]. by rewrite IH, orb_assoc. Qed.

Definition all_kinds (requests : list PendingRequest) : FollowUp.ReviewIntent :=
  if existsb (fun r => bool_decide (rq_intent r = FollowUp.FullReview)) requests
  then FollowUp.FullReview else FollowUp.IncrementalReview.

Lemma document_triggers requests r :
  FollowUp.previous_triggers (Some (document_of requests r)) = FollowUp.last_16 (entry <$> requests ++ [r]).
Proof. reflexivity. Qed.

Lemma document_kind requests r intent :
  FollowUp.retained_intent (Some (document_of requests r)) intent =
  if bool_decide (all_kinds (requests ++ [r]) = FollowUp.FullReview) then FollowUp.FullReview else intent.
Proof.
  transitivity (if FollowUp.is_full (JString (FollowUp.intent_str (all_kinds (requests ++ [r]))))
                then FollowUp.FullReview else intent); [reflexivity|].
  by destruct (all_kinds _).
Qed.

Lemma document_next requests r r' :
  FollowUp.document (Some (document_of requests r)) (rq_ref r') (rq_trigger r') (rq_intent r') (rq_at r') =
  document_of (requests ++ [r]) r'.
Proof.
  unfold FollowUp.document. fold (entry r'). rewrite document_triggers, document_kind, last_16_app. unfold document_of.
  fold (all_kinds ((requests ++ [r]) ++ [r'])). rewrite (fmap_app entry (requests ++ [r]) [r']).
  unfold all_kinds. rewrite (existsb_snoc _ (requests ++ [r]) r').
  destruct (existsb _ (requests ++ [r])), (rq_intent r'); reflexivity.
Qed.

(** coalesced requests are not lost.  However many requests arrive while a
    campaign is active, the follow-up stored on its generation holds the last
    sixteen of them in order, each with its reference, trigger, time and kind,
    names the newest reference, and asks for a full review exactly when one of
    all requests did. *)
Theorem follow_ups_coalesce requests newest :
  coalesced None (requests ++ [newest]) = Some (document_of requests newest) /\
  (length (FollowUp.last_16 (entry <$> requests ++ [newest])) <= 16)%nat.
Proof.
  split; [|apply length_last_16].
  assert (forall rs done r, coalesced (Some (document_of done r)) (rs ++ [newest]) =
    Some (document_of (done ++ r :: rs) newest)) as Hgen.
  { induction rs as [|r' rs IH]; intros done r; cbn [coalesced app].
    - by rewrite document_next.
    - rewrite document_next, IH. by rewrite <- app_assoc. }
  assert (forall r, FollowUp.document None (rq_ref r) (rq_trigger r) (rq_intent r) (rq_at r) = document_of [] r) as H0.
  { intros r. unfold FollowUp.document, document_of. fold (entry r). cbn [FollowUp.retained_intent app existsb].
    by destruct (rq_intent r). }
  destruct requests as [|r rs]; cbn [coalesced app]; rewrite H0; [done|]. by rewrite Hgen.
Qed.

(** ** Pinning *)

Lemma update_generation_Ok repo id P f duplicate conflict db u db' :
  Generations.update repo id P f duplicate conflict db = Ok (u, db') ->
  db' = db <|p_generations := sql_update (fun g => (g_id g =? id) && (g_repo_id g =? repo) && P g) f (p_generations db)|>.
Proof.
  unfold Generations.update. destruct (unique_on _ _); [|done]. destruct (changed _ _); [|done]. by intros [= <- <-].
Qed.

(** Abandoned generations are no longer under construction; the others are as
    they were. *)
Lemma abandon_each_Ok scope gs now db u db' :
  p_for gs (fun g => Generations.abandon_superseded_bootstrap scope (g_id g) now) db = Ok (u, db') ->
  forall k g, p_generations db' !! k = Some g -> g_state g = Building -> g_repo_id g = rs_repo_id scope ->
    p_generations db !! k = Some g /\ g_id g ∉ g_id <$> gs.
Proof.
  revert db. induction gs as [|x gs IH]; intros db H k g Hg Hb Hr; cbn in H.
  { p_inv H. split; [done|]. apply not_elem_of_nil. }
  apply p_bind_Ok in H as ([] & d & H1 & H). destruct (IH _ H _ _ Hg Hb Hr) as [Hd Hn].
  unfold Generations.abandon_superseded_bootstrap, operator in H1. p_inv H1. apply update_generation_Ok in H1 as ->.
  cbn in Hd. apply lookup_sql_update_Some in Hd as (g0 & H0 & ->). case_match eqn:E; [by cbn in Hb|].
  split; [done|]. rewrite fmap_cons, not_elem_of_cons. split; [|done]. intros Hid.
  rewrite Hid, Z.eqb_refl, Hr, Z.eqb_refl, bool_decide_true in E; done.
Qed.

Lemma elem_of_list_for_repo repo db g :
  PInv db -> g ∈ Workflow.list_for_repo repo db <-> get_generation repo (g_id g) db = Some g.
Proof.
  intros []. unfold Workflow.list_for_repo. rewrite get_generation_Some, elem_of_sql_sort, elem_of_sql_select.
  split.
  - intros (Hr%Z.eqb_eq & k & Hk). by rewrite (inv_generations _ _ Hk).
  - intros [Hk Hr]. split; [by apply Z.eqb_eq|]. by exists (g_id g).
Qed.

Lemma create_generation_Ok scope new now db id db' :
  Generations.create scope new now db = Ok (id, db') ->
  exists g, get_generation (rs_repo_id scope) id db' = Some g /\ g_id g = id /\ g_state g = Building /\
    g_commit_sha g = Generations.ng_commit_sha new /\
    g_predecessor_generation_id g = Generations.ng_predecessor_generation_id new /\
    g_workflow_contract_version g = Generations.ng_workflow_contract_version new /\
    p_generations db !! id = None /\ db' = db <|p_generations := <[id := g]> (p_generations db)|>.
Proof.
  unfold Generations.create. intros (? & d & H1%reads_operator & H)%p_bind_Ok. subst d.
  apply p_bind_Ok in H as (? & d & H1 & H). assert (d = db) as ->.
  { case_match; [by apply reads_own_generation in H1|by p_inv H1]. }
  unfold Generations.insert in H. destruct (next_rowid _) as [k|] eqn:E; [|done]. injection H as <- <-.
  eexists. split; [apply get_generation_Some; cbn; by rewrite lookup_insert_eq|].
  split_and!; try done. by apply next_rowid_fresh.
Qed.

(** The generation a campaign is pinned to, by the active generation. *)
Definition continues (repo : Z) (sha : str) (db : PhaseDb) (g : Generation) (db' : PhaseDb) : Prop :=
  g_commit_sha g = sha /\ g_workflow_contract_version g = WORKFLOW_CONTRACT_VERSION /\
  (forall a, p_generations db !! g_id a = Some a -> g_repo_id a = repo -> g_state a = GActive ->
    g = a \/ (g_state g = Building /\ g_predecessor_generation_id g = Some (g_id a))) /\
  ((forall k a, p_generations db !! k = Some a -> g_repo_id a = repo -> g_state a <> GActive) ->
    g_predecessor_generation_id g = None /\
    forall k b, p_generations db' !! k = Some b -> g_repo_id b = repo -> g_state b = Building -> b = g).

Lemma active_generation_unique db repo a b i j :
  PInv db -> p_generations db !! i = Some a -> p_generations db !! j = Some b ->
  g_repo_id a = repo -> g_repo_id b = repo -> g_state a = GActive -> g_state b = GActive -> a = b.
Proof.
  intros [] Ha Hb Ra Rb Sa Sb. rewrite unique_on_true in inv_active_generation.
  assert (i = j) as ->; [|by simplify_eq]. by eapply inv_active_generation; [done|done|apply active_key_Some..].
Qed.

(** An active generation is continued when it has the commit, and otherwise
    succeeded. *)
Lemma pinned_successor_Ok scope sha now db a id db' :
  let gs := Workflow.list_for_repo (rs_repo_id scope) db in
  PInv db -> a ∈ gs -> g_state a = GActive -> pinned_generation scope gs (Some a) sha now db = Ok (id, db') ->
  exists g, get_generation (rs_repo_id scope) id db' = Some g /\ g_id g = id /\ g_commit_sha g = sha /\
    g_workflow_contract_version g = WORKFLOW_CONTRACT_VERSION /\
    (g = a \/ (g_state g = Building /\ g_predecessor_generation_id g = Some (g_id a))).
Proof.
  intros gs HI Ha Hs H. unfold pinned_generation in H.
  destruct (Workflow.existing_generation gs (Some a) sha) as [k|] eqn:E.
  - apply p_ret_Ok in H as [-> ->]. unfold Workflow.existing_generation in E. cbn in E.
    destruct (_ && _) eqn:E1 in E.
    + injection E as <-. bool_prop. exists a. apply elem_of_list_for_repo in Ha; [|done].
      split_and!; try done; by left.
    + destruct (negb _) in E; [|done]. apply fmap_Some in E as (s & Hf & ->).
      apply find_some in Hf as [Hin Hf]. bool_prop. exists s.
      apply list_elem_of_In, elem_of_list_for_repo in Hin; [|done]. split_and!; try done; by right.
  - apply p_bind_Ok in H as (? & d & [_ ->]%p_ret_Ok & H).
    apply create_generation_Ok in H as (g & Hg & Hid & Hb & Hc & Hp & Hv & _). exists g. split_and!; try done. by right.
Qed.

Lemma pinned_generation_Ok scope sha now db id db' :
  let gs := Workflow.list_for_repo (rs_repo_id scope) db in
  PInv db ->
  pinned_generation scope gs (List.find (fun g => bool_decide (g_state g = GActive)) gs) sha now db = Ok (id, db') ->
  exists g, get_generation (rs_repo_id scope) id db' = Some g /\ g_id g = id /\ continues (rs_repo_id scope) sha db g db'.
Proof.
  intros gs HI H. destruct (List.find _ gs) as [a|] eqn:Ef.
  - apply find_some in Ef as [Hin Hs]. bool_prop. apply list_elem_of_In in Hin.
    pose proof H as H'. apply pinned_successor_Ok in H' as (g & Hg & Hid & Hc & Hv & Hor); [|done..].
    apply elem_of_list_for_repo, get_generation_Some in Hin as [Hin Hr]; [|done].
    exists g. unfold continues. split_and!; try done.
    + intros a' Ha' Hr' Hs'. by rewrite (active_generation_unique _ _ _ _ _ _ HI Ha' Hin Hr' Hr Hs' Hs).
    + intros Hn. by destruct (Hn _ _ Hin Hr).
  - assert (forall k a, p_generations db !! k = Some a -> g_repo_id a = rs_repo_id scope -> g_state a <> GActive) as Hn.
    { intros k a Ha Hr Hs. apply (find_none _ _) with (x := a) in Ef; [by rewrite bool_decide_true in Ef|].
      apply list_elem_of_In, elem_of_list_for_repo; [done|]. apply get_generation_Some.
      destruct HI. by rewrite (inv_generations _ _ Ha). }
    apply p_bind_Ok in H as (? & d & Hab & H).
    apply create_generation_Ok in H as (g & Hg & Hid & Hb & Hc & Hp & Hv & Hfresh & ->). exists g. unfold continues. split_and!; try done.
    { intros a Ha Hr Hs. by destruct (Hn _ _ Ha Hr). }
    intros _. split; [done|]. intros k b Hk Hr Hst. cbn in Hk.
    apply lookup_insert_Some in Hk as [[_ <-]|[_ Hk]]; [done|].
    destruct (abandon_each_Ok _ _ _ _ _ _ Hab _ _ Hk Hst Hr) as [H0 Hnin]. destruct Hnin.
    apply list_elem_of_fmap_2, list_elem_of_filter. split; [done|]. apply elem_of_list_for_repo; [done|].
    apply get_generation_Some. destruct HI. by rewrite (inv_generations _ _ H0).
Qed.

(** A pinned campaign accepts its own commit again and no other. *)
Lemma repin scope campaign job c j g sha now db :
  rs_operator scope = true -> get_campaign (rs_repo_id scope) campaign db = Some c -> cm_state c = CmActive ->
  get_job (rs_repo_id scope) job db = Some j -> j_campaign_id j = Some campaign -> j_kind j = Survey ->
  active_state (j_state j) = true -> cm_generation_id c = Some g -> Workflow.is_commit_sha sha = true ->
  Workflow.pin scope campaign job sha now db =
    if str_eqb (cm_target_commit_sha c) sha then Ok (g, db) else Err (ConflictError CCampaignPinned).
Proof.
  intros Ho Hc Hs Hj Hjc Hk Ha Hg Hsha. unfold Workflow.pin, Workflow.get, operator.
  rewrite Ho, Hsha. rewrite (p_bind_run _ _ _ tt db) by done. rewrite (p_bind_run _ _ _ tt db) by done.
  erewrite p_bind_run by (by apply p_some_Ok). rewrite Hs. rewrite (p_bind_run _ _ _ tt db) by done.
  erewrite p_bind_run by (by apply p_some_Ok). apply get_job_Some in Hj as [Hj Hr]. apply get_campaign_Some in Hc as [Hc Hrc].
  rewrite Hjc, Hk, Ha, Hr, Hrc. cbn [sql_eq]. rewrite !Z.eqb_refl. rewrite (p_bind_run _ _ _ tt db) by done.
  rewrite Hg. by destruct (str_eqb _ _).
Qed.

(** What pinning an unpinned campaign changes. *)
Lemma pin_first scope campaign c job sha now db id db' :
  let repo := rs_repo_id scope in
  PInv db -> get_campaign repo campaign db = Some c -> cm_generation_id c = None ->
  Workflow.pin scope campaign job sha now db = Ok (id, db') ->
  exists g j, get_generation repo id db' = Some g /\ continues repo sha db g db' /\
    rs_operator scope = true /\ cm_state c = CmActive /\
    get_job repo job db = Some j /\ j_campaign_id j = Some campaign /\ j_kind j = Survey /\
    active_state (j_state j) = true /\
    p_campaigns db' = <[campaign := c <|cm_target_commit_sha := sha|> <|cm_generation_id := Some id|>]> (p_campaigns db) /\
    p_jobs db' = <[job := j <|j_generation_id := Some id|>]> (p_jobs db) /\
    p_spending db' = p_spending db /\ p_charges db' = p_charges db.
Proof.
  intros repo. subst repo. intros HI Hc0 Hn H.
  apply pin_Ok in H as (c0 & j & Ho & Hsha & Hc & Hs & Hj & (Hjc & Hk & Hact) & H).
  assert (c0 = c) as -> by congruence. rewrite Hn in H. destruct H as (d1 & d2 & d3 & H1 & H2 & H3 & ->).
  destruct (pinned_generation_Ok _ _ _ _ _ _ HI H1) as (g & Hg & Hid & Hcont).
  pose proof (frame_pinned_generation _ _ _ _ _ _ _ _ H1) as [= Ec Ej Es Ech].
  apply get_campaign_Some in Hc as [Hc Hrc]. apply get_job_Some in Hj as [Hj Hrj].
  unfold Workflow.set_target in H2. injection H2 as <-.
  unfold Workflow.set_job_generation in H3.
  apply p_bind_Ok in H3 as (n & d & (_ & -> & ->)%p_update_jobs_Ok & [_ ->]%p_ret_Ok).
  exists g, j. cbn -[sql_update]. rewrite Ec, Ej, Es, Ech. destruct HI. split_and!; try done; [by apply get_job_Some|..].
  - rewrite (sql_update_picks _ _ _ campaign), Hc, (inv_campaigns _ _ Hc), Hrc, !Z.eqb_refl; [done|].
    intros k x Hx HP. bool_prop. by rewrite <- (inv_campaigns _ _ Hx).
  - rewrite (sql_update_picks _ _ _ job), Hj, (inv_jobs _ _ Hj), Hrj, !Z.eqb_refl; [done|].
    intros k x Hx HP. bool_prop. by rewrite <- (inv_jobs _ _ Hx).
Qed.

(** a campaign is pinned once.  Pinning the commit of an unpinned campaign
    through its survey job gives both the same generation of the repository,
    which has that commit: the active generation when it is on the commit, its
    successor otherwise, and with none active the only generation under
    construction, every other one having been abandoned.  From then on pinning
    the same commit again changes nothing and any other commit is refused. *)
Theorem pinning_fixes_the_commit ext db scope campaign c job sha now id db' :
  let repo := rs_repo_id scope in
  later ext empty_phase_db db -> get_campaign repo campaign db = Some c -> cm_generation_id c = None ->
  Workflow.pin scope campaign job sha now db = Ok (id, db') ->
  (exists g, get_generation repo id db' = Some g /\ continues repo sha db g db') /\
  get_campaign repo campaign db' = Some (c <|cm_target_commit_sha := sha|> <|cm_generation_id := Some id|>) /\
  (exists j, get_job repo job db = Some j /\ j_kind j = Survey /\ j_campaign_id j = Some campaign /\
             get_job repo job db' = Some (j <|j_generation_id := Some id|>)) /\
  (forall sha' now', Workflow.is_commit_sha sha' = true ->
    Workflow.pin scope campaign job sha' now' db' =
      if str_eqb sha sha' then Ok (id, db') else Err (ConflictError CCampaignPinned)).
Proof.
  intros repo. subst repo. intros H0 Hc Hn H. destruct (later_inv _ _ _ empty_inv H0) as [HI _].
  destruct (pin_first _ _ _ _ _ _ _ _ _ HI Hc Hn H) as (g & j & Hg & Hcont & Ho & Hs & Hj & Hjc & Hk & Ha & Ec & Ej & _).
  apply get_campaign_Some in Hc as [Hc Hrc]. pose proof Hj as [_ Hrj]%get_job_Some.
  assert (get_campaign (rs_repo_id scope) campaign db' = Some (c <|cm_target_commit_sha := sha|> <|cm_generation_id := Some id|>))
    as Rc by (apply get_campaign_Some; by rewrite Ec, lookup_insert_eq).
  assert (get_job (rs_repo_id scope) job db' = Some (j <|j_generation_id := Some id|>))
    as Rj by (apply get_job_Some; by rewrite Ej, lookup_insert_eq).
  split_and!; [by exists g|done|by exists j|]. intros sha' now' Hsha'. by erewrite repin by (done || exact Hk || exact Ha).
Qed.

(** ** Opening *)

Lemma alter_known {A} (f : A -> A) (t : gmap Z A) k x : t !! k = Some x -> alter f k t = <[k := f x]> t.
Proof. intros H. rewrite <- (insert_id t k x H) at 1. by rewrite alter_insert_eq. Qed.

Lemma fresh_charge repo job now db pool db' :
  Admission.charge_raw repo job WPreparation now db = Ok (Admission.Fresh pool, db') ->
  exists j campaign, get_job repo job db = Some j /\ j_campaign_id j = Some campaign /\
    p_charges db !! job = None /\ sql_count (fun j => sql_eq (j_campaign_id j) campaign) (p_jobs db) = 1 /\
    db' = db <|p_spending := <[campaign := {| sp_general := 1; sp_urgent := 0; sp_verification := 0 |}]> (p_spending db)|>
             <|p_charges := <[job := {| ch_campaign_id := campaign; ch_pool := PGeneral |}]> (p_charges db)|>.
Proof.
  intros H. unfold Admission.charge_raw in H. p_inv H.
  destruct (_ ≫= _) as [q|] eqn:Eex in H; [by destruct (bool_decide _) in H; p_inv H|]. p_inv H.
  destruct a7 as [q|]; [|by p_inv H]. apply choose_pool_sound in Hs8 as (_ & Hq & _).
  apply list_elem_of_singleton in Hq as ->. apply ok_or_Ok in Hs0.
  apply p_bind_Ok in H as ([] & d & H1 & [_ ->]%p_ret_Ok). exists a, a0. unfold Admission.valid_state in Hs7. cbn in Hs7.
  destruct (_ && _) in Hs7; [|by p_inv Hs7]. apply p_bind_Ok in Hs7 as (n & d0 & [Ht ->]%p_lift_Ok & Hs7).
  destruct (n =? 0) eqn:En; [|by p_inv Hs7]. apply p_read_Ok in Hs7 as [Hcount _]. symmetry in Hcount.
  apply spending_total_Ok in Ht as (? & ? & ? & ->). bool_prop.
  unfold Admission.get_spending_raw in Hs4. destruct (p_spending db !! a0) as [s|] eqn:Es; [|done]. cbn in Hs4.
  destruct (get_campaign _ a0 db); [|done]. injection Hs4 as ->.
  unfold Admission.record_charge in H1. destruct (p_charges db !! job) eqn:Ech; [done|]. injection H1 as <-.
  split_and!; try done. rewrite (alter_known _ _ _ _ Es). unfold Admission.spend. destruct a4 as [x y z]. cbn in *.
  by assert (x = 0 /\ y = 0 /\ z = 0) as (-> & -> & ->) by lia.
Qed.

Definition unspent (db : PhaseDb) := (p_jobs db, p_charges db, p_campaigns db, p_generations db).

Lemma frame_initialize repo campaign : frame unspent (Admission.initialize_raw repo campaign).
Proof.
  assert (frame unspent (Admission.insert_spending campaign)) as Hs by (by intros db s db' [= <- <-]).
  unfold Admission.initialize_raw. frame_tac.
Qed.

Lemma reads_frozen_policy c : reads (Preparation.frozen_policy c).
Proof. unfold Preparation.frozen_policy. reads_tac. Qed.

Lemma inserted_job_Ok recipe_json c policy new now db id db' :
  Preparation.insert_job recipe_json c policy new now db = Ok (id, db') ->
  exists j, p_jobs db !! id = None /\ db' = db <|p_jobs := <[id := j]> (p_jobs db)|> /\
    j_id j = id /\ j_repo_id j = cm_repo_id c /\ j_kind j = Preparation.nj_kind new /\ j_state j = Queued /\
    j_campaign_id j = Some (cm_id c) /\ j_generation_id j = cm_generation_id c.
Proof.
  unfold Preparation.insert_job. intros (phase & d & [_ ->]%p_lift_Ok & H)%p_bind_Ok. unfold Preparation.insert_row in H.
  destruct (next_rowid _) as [k|] eqn:E; [|done]. destruct (_ && _) in H; [|done]. injection H as <- <-.
  eexists. split_and!; [by apply next_rowid_fresh|done|done..].
Qed.

(** What a preparation adds: one queued survey, charged to the general pool. *)
Lemma preparation_Ok recipe_json scope campaign now db id db' :
  Preparation.create_preparation recipe_json scope campaign now db = Ok (id, db') ->
  exists c j, get_campaign (rs_repo_id scope) campaign db = Some c /\ cm_state c = CmActive /\
    p_jobs db !! id = None /\ p_jobs db' = <[id := j]> (p_jobs db) /\
    (j_id j = id /\ j_repo_id j = rs_repo_id scope /\ j_kind j = Survey /\ j_state j = Queued /\
     j_campaign_id j = Some (cm_id c) /\ j_generation_id j = cm_generation_id c) /\
    (forall k j', p_jobs db !! k = Some j' -> j_campaign_id j' <> Some (cm_id c)) /\
    p_charges db' = <[id := {| ch_campaign_id := cm_id c; ch_pool := PGeneral |}]> (p_charges db) /\
    p_spending db' !! cm_id c = Some {| sp_general := 1; sp_urgent := 0; sp_verification := 0 |} /\
    p_campaigns db' = p_campaigns db /\ p_generations db' = p_generations db.
Proof.
  unfold Preparation.create_preparation, operator. intros H.
  apply p_bind_Ok in H as ([] & d & [_ ->]%p_ensure_Ok & H). apply p_bind_Ok in H as (c & d & [Hc ->]%p_some_Ok & H).
  apply p_bind_Ok in H as (policy & d & ->%reads_frozen_policy & H).
  apply p_bind_Ok in H as ([] & d & [Hok ->]%p_ensure_Ok & H). apply p_bind_Ok in H as (x & d & [_ ->]%p_read_Ok & H).
  apply p_bind_Ok in H as (recipe & d & [_ ->]%p_lift_Ok & H).
  apply p_bind_Ok in H as (spent & d & Hin & H). apply frame_initialize in Hin as [= Ej Ech Ec Eg].
  apply p_bind_Ok in H as (k & d2 & Hjob & H). apply inserted_job_Ok in Hjob as (j & Hfresh & -> & Hj).
  apply p_bind_Ok in H as ([] & d2 & Hctx & H). set (d1 := d <|p_jobs := _|>) in *. assert (d2 = d1) as ->.
  { refine ((_ : reads _) _ _ _ Hctx). reads_tac. }
  apply p_bind_Ok in H as (charged & d2 & Hch & H). destruct charged; [apply p_ret_Ok in H as [-> ->]|by p_inv H..].
  apply fresh_charge in Hch as (j' & campaign' & [Hj' _]%get_job_Some & Hjc & Hnone & Hcount & ->).
  unfold d1 in Hj', Hcount. cbn in Hj', Hcount. rewrite lookup_insert_eq in Hj'. injection Hj' as <-.
  destruct Hj as (Hid & Hr & Hk & Hst & Hcm & Hgen). assert (campaign' = cm_id c) as -> by congruence.
  rewrite sql_count_insert, Hcm in Hcount by done. cbn in Hcount. rewrite Z.eqb_refl in Hcount.
  apply get_campaign_Some in Hc as Hc'. bool_prop.
  exists c, j. cbn. rewrite <- Ej, <- Ech, lookup_insert_eq. split_and!; try done.
  - naive_solver congruence.
  - intros i j' Hj' Hjc'. assert (sql_count (fun j => sql_eq (j_campaign_id j) (cm_id c)) (p_jobs d) = 0) as Hz by lia.
    rewrite sql_count_zero in Hz. apply Hz in Hj'. rewrite Hjc' in Hj'. cbn in Hj'. by rewrite Z.eqb_refl in Hj'.
Qed.

Lemma create_campaign_Ok scope new now db id db' :
  Campaigns.create scope new now db = Ok (id, db') ->
  exists c, p_campaigns db !! id = None /\ db' = db <|p_campaigns := <[id := c]> (p_campaigns db)|> /\
    (cm_id c = id /\ cm_repo_id c = rs_repo_id scope /\ cm_state c = CmActive) /\
    Campaigns.canonical (Campaigns.nc_effective_policy new) = Ok (cm_effective_policy c) /\
    cm_recipe c = Campaigns.nc_recipe new /\ cm_trigger c = Campaigns.nc_trigger new /\
    cm_target_commit_sha c = Campaigns.nc_target_commit_sha new /\ cm_generation_id c = Campaigns.nc_generation_id new /\
    cm_deadline_at c = Campaigns.nc_deadline_at new /\ cm_created_at c = now.
Proof.
  unfold Campaigns.create, operator. intros H. apply p_bind_Ok in H as ([] & d & [_ ->]%p_ensure_Ok & H).
  do 3 (apply p_bind_Ok in H as ([] & d & Hown & H); assert (d = db) as -> by (refine ((_ : reads _) _ _ _ Hown); reads_tac); clear Hown).
  apply p_bind_Ok in H as (policy & d & [Hp ->]%p_lift_Ok & H). unfold Campaigns.insert in H.
  destruct (next_rowid _) as [k|] eqn:E; [|done]. destruct (unique_on _ _) in H; [|done]. injection H as <- <-.
  eexists. split_and!; try done. by apply next_rowid_fresh.
Qed.

Lemma finish_scheduled_Ok cj cc scope id summary why now db u db' c :
  PInv db -> get_campaign (rs_repo_id scope) id db = Some c ->
  Ending.finish_scheduled cj cc scope id summary why now db = Ok (u, db') ->
  db' = db <|p_campaigns := <[id := Ending.ended CmFinished (Ending.finished_reason_str why) summary now c]> (p_campaigns db)|>.
Proof.
  intros HI Hc. unfold Ending.finish_scheduled, Ending.finish_with_reason, operator. intros H. p_inv H.
  rewrite end_campaign_run, Hc in H by done. case_match; [|done]. by injection H as <- <-.
Qed.

(** The terms a campaign is opened with. *)
Definition on_terms (new : Workflow.OpenCampaign) (policy : CampaignPolicyV2) (now : Z) (c : Campaign) : Prop :=
  cm_effective_policy c = PolicyV2 policy /\ cm_trigger c = Workflow.oc_trigger new /\ cm_created_at c = now /\
  cm_deadline_at c = Some (now + v2_campaign_deadline_seconds policy).

(** No campaign of the repository is active. *)
Definition vacant (repo : Z) (db : PhaseDb) : Prop :=
  forall k c, p_campaigns db !! k = Some c -> cm_repo_id c = repo -> cm_state c <> CmActive.

(** What a request to open a campaign leaves behind. *)
Definition opened_as ext (scope : RepoScope) (new : Workflow.OpenCampaign) (policy : CampaignPolicyV2) (now : Z)
    (r : Workflow.Opened) (db db' : PhaseDb) : Prop :=
  let repo := rs_repo_id scope in
  match r with
  | Workflow.OpenPending id =>
      db' = db /\ exists c, get_campaign repo id db = Some c /\ cm_state c = CmActive /\ cm_generation_id c = None
  | Workflow.Coalesced id =>
      exists c g pending, get_campaign repo id db = Some c /\ cm_state c = CmActive /\
        cm_generation_id c = Some (g_id g) /\ get_generation repo (g_id g) db = Some g /\
        checked_payload ext (FollowUp.document (g_pending_follow_up g) (Workflow.ref_value (Workflow.oc_requested_ref new))
                               (Workflow.oc_trigger new) (Workflow.oc_kind_hint new) now) = Ok pending /\
        db' = db <|p_generations := <[g_id g := g <|g_pending_follow_up := Some pending|>]> (p_generations db)|>
  | Workflow.Created id job =>
      vacant repo db /\ p_campaigns db !! id = None /\ p_jobs db !! job = None /\
      exists c j, get_campaign repo id db' = Some c /\ cm_state c = CmActive /\ on_terms new policy now c /\
        get_job repo job db' = Some j /\ j_kind j = Survey /\ j_state j = Queued /\ j_campaign_id j = Some id /\
        (forall k j', p_jobs db' !! k = Some j' -> j_campaign_id j' = Some id -> k = job) /\
        j_generation_id j = cm_generation_id c /\
        match Workflow.oc_requested_ref new with
        | Workflow.Pinned sha => cm_target_commit_sha c = sha /\ is_Some (cm_generation_id c)
        | Workflow.Branch name => cm_target_commit_sha c = name /\ cm_generation_id c = None
        end /\
        p_spending db' !! id = Some {| sp_general := 1; sp_urgent := 0; sp_verification := 0 |} /\
        p_charges db' = <[job := {| ch_campaign_id := id; ch_pool := PGeneral |}]> (p_charges db)
  | Workflow.Deferred id =>
      vacant repo db /\ p_campaigns db !! id = None /\
      exists c, db' = db <|p_campaigns := <[id := c]> (p_campaigns db)|> /\ cm_repo_id c = repo /\ on_terms new policy now c /\
        cm_state c = CmFinished /\ cm_terminal_reason c = Some (lit "unsupported_recipe")
  end.

Section Opened.
Context (ext : Externals) (scope : RepoScope) (new : Workflow.OpenCampaign) (policy : CampaignPolicyV2) (now : Z).

Lemma coalesce_opened db id c r db' :
  PInv db -> get_campaign (rs_repo_id scope) id db = Some c -> cm_state c = CmActive ->
  Workflow.coalesce (checked_payload ext) scope new id now db = Ok (r, db') ->
  opened_as ext scope new policy now r db db'.
Proof.
  intros HI Hc Hs H. unfold Workflow.coalesce, Workflow.get in H.
  apply p_bind_Ok in H as (c0 & d & [Hc0 ->]%p_some_Ok & H). assert (c0 = c) as -> by congruence.
  destruct (cm_generation_id c) as [gid|] eqn:Eg; [|apply p_ret_Ok in H as [-> ->]; split; [done|by exists c]].
  apply p_bind_Ok in H as (g & d & [Hg ->]%p_some_Ok & H). apply p_bind_Ok in H as (pending & d & [Hp ->]%p_lift_Ok & H).
  apply p_bind_Ok in H as ([] & d & Hu & [-> ->]%p_ret_Ok). unfold Workflow.coalesce_follow_up, operator in Hu.
  apply p_bind_Ok in Hu as ([] & d0 & [_ ->]%p_ensure_Ok & Hu).
  apply get_generation_Some in Hg as [Hg Hr]. pose proof (inv_generations _ HI _ _ Hg) as Hid.
  exists c, g, pending. rewrite Hid. split_and!; try done; [by apply get_generation_Some|].
  revert Hu. unfold Generations.update.
  set (Q := fun g => _ && Generations.live g). assert (picks Q (p_generations db) gid) as Hpick.
  { intros k x Hx HQ. unfold Q in HQ. bool_prop. by rewrite <- (inv_generations _ HI _ _ Hx). }
  rewrite (sql_update_picks _ _ _ _ Hpick), (sql_count_picks _ _ _ Hpick), Hg.
  destruct (Q g); [|by destruct (unique_on _ _)]. destruct (unique_on _ _); [|done]. by intros [= <-].
Qed.

Lemma start_opened db c d job d1 u db' :
  PInv d -> vacant (rs_repo_id scope) db -> p_campaigns db !! cm_id c = None -> d = db <|p_campaigns := <[cm_id c := c]> (p_campaigns db)|> ->
  cm_repo_id c = rs_repo_id scope -> cm_state c = CmActive -> cm_generation_id c = None -> on_terms new policy now c ->
  cm_target_commit_sha c = Workflow.ref_value (Workflow.oc_requested_ref new) ->
  Preparation.create_preparation (recipe_json ext) scope (cm_id c) now d = Ok (job, d1) ->
  (match Workflow.oc_requested_ref new with
   | Workflow.Pinned sha => _ ← Workflow.pin scope (cm_id c) job sha now; mret tt
   | Workflow.Branch _ => mret tt
   end : PTx unit) d1 = Ok (u, db') ->
  opened_as ext scope new policy now (Workflow.Created (cm_id c) job) db db'.
Proof.
  intros HI Hv Hn Hd Hr Hs Hg Ht Htarget Hprep Hpin.
  pose proof (maintains_preparation _ _ _ _ _ _ _ HI Hprep) as [I1 _].
  apply preparation_Ok in Hprep as (c0 & j & Hc0 & _ & Hfresh & Ej & Hj & Hothers & Ech & Es & Ec & _).
  assert (get_campaign (rs_repo_id scope) (cm_id c) d1 = Some c) as Hc.
  { apply get_campaign_Some. rewrite Ec, Hd. cbn. by rewrite lookup_insert_eq. }
  assert (c0 = c) as ->. { unfold get_campaign in *. rewrite Ec in Hc. congruence. }
  destruct Hj as (Hid & Hjr & Hk & Hst & Hcm & Hgen). rewrite Hg in Hgen.
  assert (get_job (rs_repo_id scope) job d1 = Some j) as Hj.
  { apply get_job_Some. by rewrite Ej, lookup_insert_eq. }
  rewrite Hd in Hfresh, Ej, Ech, Hothers. cbn in Hfresh, Ej, Ech, Hothers.
  assert (forall k j', p_jobs d1 !! k = Some j' -> j_campaign_id j' = Some (cm_id c) -> k = job) as Honly.
  { rewrite Ej. intros k j' [[-> _]|[_ Hj']]%lookup_insert_Some Hjc; [done|]. by destruct (Hothers _ _ Hj'). }
  unfold opened_as. split_and!; [done..|]. destruct (Workflow.oc_requested_ref new) as [sha|name].
  - apply p_bind_Ok in Hpin as (gid & d2 & Hpin & [_ ->]%p_ret_Ok).
    apply (pin_first _ _ c) in Hpin as (g & j0 & _ & _ & _ & _ & Hj0 & _ & _ & _ & Ec' & Ej' & Es' & Ech'); [|done..].
    assert (j0 = j) as -> by congruence.
    exists (c <|cm_target_commit_sha := sha|> <|cm_generation_id := Some gid|>), (j <|j_generation_id := Some gid|>).
    rewrite get_campaign_Some, get_job_Some, Ec', Ej', Es', Ech', !lookup_insert_eq. split_and!; try done.
    intros k j' [[-> _]|[_ Hj']]%lookup_insert_Some Hjc; [done|]. by eapply Honly.
  - apply p_ret_Ok in Hpin as [_ ->]. exists c, j. split_and!; try done. congruence.
Qed.

Lemma defer_opened db c d u db' :
  PInv d -> vacant (rs_repo_id scope) db -> p_campaigns db !! cm_id c = None ->
  d = db <|p_campaigns := <[cm_id c := c]> (p_campaigns db)|> -> cm_repo_id c = rs_repo_id scope -> on_terms new policy now c ->
  (summary ← Ending.summarize_raw (counts_json ext) (counts_canonical ext) (rs_repo_id scope) (cm_id c);
   Ending.finish_scheduled (counts_json ext) (counts_canonical ext) scope (cm_id c) summary Ending.FUnsupported now) d = Ok (u, db') ->
  opened_as ext scope new policy now (Workflow.Deferred (cm_id c)) db db'.
Proof.
  intros HI Hv Hn Hd Hr Ht (summary & d0 & ->%reads_summarize & H)%p_bind_Ok.
  apply finish_scheduled_Ok with (c := c) in H; [|done|].
  2:{ apply get_campaign_Some. rewrite Hd. cbn. by rewrite lookup_insert_eq. }
  split_and!; [done..|]. eexists. split; [rewrite H, Hd; cbn; by rewrite insert_insert_eq|]. by split_and!.
Qed.

End Opened.

(** C21: opening a campaign takes the repository's only slot.  While a campaign
    of the repository is active, a request to open another only amends the
    follow-up of that campaign's generation, or nothing before the campaign is
    pinned; no job, campaign or charge is added.  Otherwise the new campaign
    freezes the given policy and its deadline, and either starts with exactly
    one queued survey, charged to the general pool and pinned when the request
    names a commit, or, for a recipe that cannot run yet, is already finished
    as unsupported and adds nothing else. *)
Theorem campaigns_open_once ext db scope new policy now r db' :
  later ext empty_phase_db db ->
  Workflow.open (counts_json ext) (counts_canonical ext) (recipe_json ext) (checked_payload ext) scope new policy now db =
    Ok (r, db') ->
  opened_as ext scope new policy now r db db'.
Proof.
  intros H0 H. destruct (later_inv _ _ _ empty_inv H0) as [HI _]. unfold Workflow.open, operator in H.
  apply p_bind_Ok in H as ([] & d & [Ho ->]%p_ensure_Ok & H). apply p_bind_Ok in H as ([] & d & [Hv ->]%p_lift_Ok & H).
  apply p_bind_Ok in H as (active & d & [Hact ->]%p_read_Ok & H).
  set (P := fun c => _ && bool_decide (cm_state c = CmActive)) in Hact.
  destruct (sql_select P (p_campaigns db)) as [|c0 cs] eqn:Esel; cbn in Hact; subst active.
  2:{ assert (c0 ∈ sql_select P (p_campaigns db)) as (HP & k & Hk)%elem_of_sql_select by (rewrite Esel; left).
      unfold P in HP. bool_prop. eapply coalesce_opened; [done|apply get_campaign_Some|done|done].
      by rewrite (inv_campaigns _ HI _ _ Hk). }
  assert (vacant (rs_repo_id scope) db) as Hvac.
  { intros k c Hk Hr Hst. assert (c ∈ sql_select P (p_campaigns db)) as Hin.
    { apply elem_of_sql_select. split; [|by exists k]. unfold P. by rewrite Hr, Hst, Z.eqb_refl. }
    rewrite Esel in Hin. by apply not_elem_of_nil in Hin. }
  apply p_bind_Ok in H as (baseline & d & [_ ->]%p_read_Ok & H).
  apply p_bind_Ok in H as (successor & d & Hsucc & H). assert (d = db) as ->.
  { refine ((_ : reads _) _ _ _ Hsucc). reads_tac. }
  apply p_bind_Ok in H as (deadline & d & [Hd ->]%p_lift_Ok & H). apply ok_or_Ok in Hd.
  apply p_bind_Ok in H as (id & d & Hcreate & H).
  pose proof (maintains_create_campaign _ _ _ _ _ _ HI Hcreate) as [I1 _].
  apply create_campaign_Ok in Hcreate as (c & Hfresh & -> & (Hid & Hr & Hst) & Hpol & Hrec & Htr & Hta & Hg & Hdl & Hat).
  cbn in Hpol. rewrite Hv in Hpol. cbn in Hpol. injection Hpol as Hpol.
  assert (on_terms new policy now c) as Hterms.
  { split_and!; try done. rewrite Hdl. cbn. f_equal. unfold checked_add, to_i64 in Hd. destruct (in_i64 _); by simplify_eq. }
  rewrite <- Hid in *. destruct (_ || _) in H.
  - apply p_bind_Ok in H as (summary & d & Hsum & H). apply p_bind_Ok in H as ([] & d' & Hfin & [-> ->]%p_ret_Ok).
    eapply defer_opened; [exact I1|done..|]. by erewrite p_bind_run.
  - apply p_bind_Ok in H as (job & d & Hprep & H). apply p_bind_Ok in H as ([] & d' & Hpin & [-> ->]%p_ret_Ok).
    eapply start_opened; [exact I1|done..].
Qed.

(** ** Terms of campaigns *)

Section Terms.
Context (ext : Externals).

(** The pin of a campaign by a worker's host ([review_authority/host/pin.rs]),
    which it makes for a survey that has no generation yet. *)
Definition host_pin (db db' : PhaseDb) : Prop :=
  exists id c sha generation, p_campaigns db !! id = Some c /\ cm_state c = CmActive /\ cm_generation_id c = None /\
    p_campaigns db' = <[id := c <|cm_target_commit_sha := sha|> <|cm_generation_id := Some generation|>]> (p_campaigns db).

(** The steps of the system by which code writes campaigns: the operations, the
    operator's resets and the hosts' pins.  Whatever else happens leaves the
    table of campaigns alone. *)
Inductive steady_step (db : PhaseDb) : PhaseDb -> Prop :=
| steady_op op : steady_step db (p_run (phase_exec ext op) db)
| steady_reset body admin generation now : steady_step db (p_run (Compatibility.reset (A := unit) body admin generation now) db)
| steady_pin db' : outside db db' -> host_pin db db' -> steady_step db db'
| steady_other db' : outside db db' -> p_campaigns db' = p_campaigns db -> steady_step db db'.

Definition steadily : relation PhaseDb := rtc steady_step.

(** Between [db] and [db'] an operator reset [generation] while the campaign
    [id] was pinned to it; the campaign was not active then, or not of the
    repository of that generation. *)
Definition reset_between (db db' : PhaseDb) (id generation : Z) : Prop :=
  exists d c row body admin now d',
    steadily db d /\ p_campaigns d !! id = Some c /\ cm_generation_id c = Some generation /\
    p_generations d !! generation = Some row /\ (cm_repo_id c = g_repo_id row -> cm_state c <> CmActive) /\
    Compatibility.reset (A := unit) body admin generation now d = Ok (tt, d') /\ steadily d' db'.

(** What a campaign keeps, where [lost] says which generation it may have been
    taken from. *)
Definition keeps_terms (lost : Z -> Prop) (c c' : Campaign) : Prop :=
  (cm_id c' = cm_id c /\ cm_repo_id c' = cm_repo_id c /\ cm_effective_policy c' = cm_effective_policy c /\
   cm_recipe c' = cm_recipe c /\ cm_trigger c' = cm_trigger c /\ cm_deadline_at c' = cm_deadline_at c /\
   cm_created_at c' = cm_created_at c) /\
  (forall g, cm_generation_id c = Some g ->
     lost g \/ (cm_generation_id c' = Some g /\ cm_target_commit_sha c' = cm_target_commit_sha c)) /\
  (cm_state c <> CmActive ->
     c' = c \/ exists g, cm_generation_id c = Some g /\ lost g /\ c' = c <|cm_generation_id := None|>).

Lemma same_keeps lost c c' : same_campaign c c' -> keeps_terms lost c c'.
Proof. intros (? & ? & ? & (? & ? & ? & ?) & Hg & He). split_and!; auto. Qed.

Lemma keeps_terms_trans (P Q R : Z -> Prop) a b c :
  (forall g, P g -> R g) -> (forall g, Q g -> R g) -> keeps_terms P a b -> keeps_terms Q b c -> keeps_terms R a c.
Proof.
  intros HP HQ (T1 & G1 & E1) (T2 & G2 & E2). split; [naive_solver congruence|]. split.
  - intros g Hg. destruct (G1 _ Hg) as [|[Hb Ht]]; [auto|]. destruct (G2 _ Hb) as [|[Hc Ht']]; [auto|]. right. split; congruence.
  - intros Ha. destruct (E1 Ha) as [->|(g & Hg & Hp & ->)].
    + destruct (E2 Ha) as [->|(g & Hg & Hq & ->)]; [by left|]. right. exists g. auto.
    + destruct (E2 Ha) as [->|(g' & Hg' & _)]; [|done]. right. exists g. auto.
Qed.

Lemma steady_phase db db' : steady_step db db' -> phase_step ext db db'.
Proof. intros []; by constructor. Qed.

Lemma steady_keeps db db' id c :
  PInv db -> steady_step db db' -> p_campaigns db !! id = Some c ->
  exists c', p_campaigns db' !! id = Some c' /\ keeps_terms (reset_between db db' id) c c'.
Proof.
  intros HI Hs Hc. destruct Hs as [op|body admin g now|db' _ (k & c0 & sha & g & Hk & Ha & Hn & E)|db' _ E].
  - unfold p_run. destruct (phase_exec ext op db) as [[[] d]|] eqn:Er; [|exists c; split; [done|by apply same_keeps]].
    destruct (maintains_exec _ _ _ _ _ HI Er) as [_ [_ Hev _ _]]. destruct (Hev _ _ Hc) as (c' & Hc' & Hs).
    exists c'. split; [done|by apply same_keeps].
  - unfold p_run. destruct (Compatibility.reset _ _ _ _ _) as [[[] d]|] eqn:Er; [|exists c; split; [done|by apply same_keeps]].
    destruct (reset_Ok _ _ _ _ _ _ _ HI Er) as [row Hr]. rewrite (rs_campaigns _ _ _ _ _ Hr), lookup_fmap, Hc.
    eexists. split; [done|]. unfold forget_generation.
    assert (cm_generation_id c = Some g -> reset_between db d id g) as Hb.
    { intros Hg. exists db, c, row, body, admin, now, d. split_and!; try done; [apply Hr|].
      intros E. by apply (rs_quiet _ _ _ _ _ Hr _ _ Hc). }
    destruct (decide (cm_generation_id c = Some g)) as [Hg|Hg].
    + rewrite Hg. cbn. rewrite Z.eqb_refl. split_and!; try done.
      * intros g' Hg'. left. replace g' with g by congruence. auto.
      * intros _. right. exists g. auto.
    + assert (Compatibility.set_null (Z.eqb g) (cm_generation_id c) = cm_generation_id c) as E.
      { destruct (cm_generation_id c) as [x|]; [|done]. cbn. case_match; [|done]. bool_prop. congruence. }
      rewrite E. apply same_keeps. replace (c <|cm_generation_id := cm_generation_id c|>) with c by (by destruct c). done.
  - rewrite E. destruct (decide (id = k)) as [->|Hid].
    + rewrite lookup_insert_eq. replace c0 with c in * by congruence. eexists. split; [done|].
      split_and!; try done. intros g'. by rewrite Hn.
    + rewrite lookup_insert_ne by done. exists c. split; [done|by apply same_keeps].
  - rewrite E. exists c. split; [done|by apply same_keeps].
Qed.

Lemma steadily_keeps db db' id c :
  PInv db -> steadily db db' -> p_campaigns db !! id = Some c ->
  exists c', p_campaigns db' !! id = Some c' /\ keeps_terms (reset_between db db' id) c c'.
Proof.
  intros HI H. revert c HI. induction H as [db|db d db' Hs Hl IH]; intros c HI Hc.
  { exists c. split; [done|by apply same_keeps]. }
  destruct (phase_step_inv _ _ _ HI (steady_phase _ _ Hs)) as [Hd _].
  destruct (steady_keeps _ _ _ _ HI Hs Hc) as (c1 & Hc1 & K1). destruct (IH _ Hd Hc1) as (c' & Hc' & K2).
  exists c'. split; [done|]. eapply keeps_terms_trans; [..|exact K1|exact K2].
  - intros g (e & x & row & body & admin & now & e' & H1 & H2 & H3 & H4 & H5 & H6 & H7).
    exists e, x, row, body, admin, now, e'. split_and!; try done. by etrans.
  - intros g (e & x & row & body & admin & now & e' & H1 & Hrest). exists e, x, row, body, admin, now, e'.
    split; [by eapply rtc_l|done].
Qed.

End Terms.

(** C24: campaigns keep their terms.  From any reachable database on, through
    operations, resets by operators and pins by hosts, with anything in between
    that leaves the table of campaigns alone, a campaign keeps its repository,
    recipe, trigger, frozen policy and deadline, and stays pinned to the commit
    and generation it was pinned to unless an operator resets that generation,
    which is refused while the campaign is active and the generation is of its
    repository; once it has ended it does not change at all, but for losing a
    generation that is reset.  And no repository ever has two active
    campaigns. *)
Theorem campaigns_keep_their_terms ext db db' id c :
  later ext empty_phase_db db -> steadily ext db db' -> p_campaigns db !! id = Some c ->
  (exists c', p_campaigns db' !! id = Some c' /\ keeps_terms (reset_between ext db db' id) c c') /\
  (forall id2 c2, p_campaigns db !! id2 = Some c2 -> cm_repo_id c2 = cm_repo_id c ->
     cm_state c = CmActive -> cm_state c2 = CmActive -> id2 = id).
Proof.
  intros H H' Hc. destruct (later_inv _ _ _ empty_inv H) as [HI _]. split; [by apply steadily_keeps|].
  intros id2 c2 Hc2 Hr Hs Hs2. destruct HI. rewrite unique_on_true in inv_active_campaign.
  eapply inv_active_campaign; [done|done| |]; unfold Campaigns.active_key; by rewrite bool_decide_true, ?Hr by done.
Qed.
