(* ===== verification/PhaseWitnesses.v ===== *)
(** * Runs of the phase runtime

    A campaign that bootstraps a repository, step by step: its generation and
    preparation, the first lease, a handoff to a drilldown and its
    continuation.  The guarantees of the phase runtime hold of databases these
    runs reach. *)

From S2P Require Import Prelude Sql Domain StateMachine Vocabulary SchedPolicy Store TxLogic Scope Jobs AdmissionPolicy PhaseStore PhaseControl CampaignWork CampaignFlow PhaseLogic PhaseInvariant CampaignInvariant PhaseSystem PhaseTheorems.
From Stdlib Require Import ZArith Lia.
From stdpp Require Import base gmap list strings relations.
Local Open Scope Z_scope.

(** ** Runs *)

(** Every text is a document; documents and recipes print as an empty object. *)
Definition plain : Externals := {|
  json_payload := fun _ => true;
  recipe_json := fun _ _ => lit "{}";
  counts_json := fun _ => lit "{}";
  counts_canonical := fun _ => lit "{}";
  checked_payload := fun v => Ok v |}.

Definition run_phase (ops : list PhaseOp) (db : PhaseDb) : PhaseDb :=
  foldl (fun d op => p_run (phase_exec plain op) d) db ops.

Definition reached : PhaseDb -> PhaseDb -> Prop := later plain.

Lemma reached_run d ops db : reached d db -> reached d (run_phase ops db).
Proof.
  unfold run_phase. revert db. induction ops as [|op ops IH]; intros db H; cbn; [done|]. apply IH.
  eapply rtc_r; [exact H|]. apply step_op.
Qed.

(** One job is written from outside, with tables that no guarantee reads. *)
Lemma reached_job d db db' k j' :
  PInv d -> reached d db -> p_jobs db' = <[k := j']> (p_jobs db) -> j_id j' = k ->
  match p_jobs db !! k with Some j => same_job j j' | None => True end -> jobs_unique (p_jobs db') = true ->
  p_campaigns db' = p_campaigns db -> p_generations db' = p_generations db ->
  p_spending db' = p_spending db -> p_charges db' = p_charges db ->
  p_lead_intents db' = p_lead_intents db -> p_finding_intents db' = p_finding_intents db -> reached d db'.
Proof.
  intros HI H Hj Hid Hs Hu Hc Hg Hsp Hch Hl Hf. eapply rtc_r; [exact H|]. apply step_outside.
  destruct (later_inv _ _ _ HI H) as [[] _].
  assert (kept may_block (p_lead_intents db) (p_lead_intents db)) as K1 by (intros ? x ?; exists x; by split; [|left]).
  assert (kept may_block (p_finding_intents db) (p_finding_intents db)) as K2 by (intros ? x ?; exists x; by split; [|left]).
  split; rewrite ?Hc, ?Hg, ?Hl, ?Hf; try done; try (split; [done|]);
    try (intros i x Hx; exists x; by split_and!).
  rewrite Hj in *. split_and!; [|done|].
  - intros i x [[<- <-]|[_ Hx]]%lookup_insert_Some; [done|by apply inv_jobs].
  - intros i x Hx. destruct (decide (i = k)) as [->|].
    + exists j'. split; [apply lookup_insert_eq|by rewrite Hx in Hs].
    + exists x. rewrite lookup_insert_ne by done. by split_and!.
Qed.

(** ** The run *)

Definition op7 : RepoScope := {| rs_repo_id := 7; rs_identity := 1; rs_operator := true; rs_committed := 0 |}.
Definition sha : str := repeat 97 40.
Definition profile1 : StoredProfile := {| pf_compatible := true; pf_frozen := Some (repeat 1 32) |}.

Definition generation1 : Generations.NewGeneration := {|
  Generations.ng_predecessor_generation_id := None; Generations.ng_commit_sha := sha;
  Generations.ng_workflow_contract_version := 2 |}.

Definition campaign1 : Campaigns.NewCampaign := {|
  Campaigns.nc_recipe := Bootstrap; Campaigns.nc_trigger := TManual; Campaigns.nc_requested_base_sha := None;
  Campaigns.nc_target_commit_sha := sha; Campaigns.nc_generation_id := Some 1;
  Campaigns.nc_effective_policy := Campaigns.ResolvedV2 campaign_policy_v2_default;
  Campaigns.nc_deadline_at := Some 100000; Campaigns.nc_root_campaign_id := None;
  Campaigns.nc_continuation_of_campaign_id := None |}.

(** The campaign is open, its preparation queued and charged. *)
Definition prepared : PhaseDb := run_phase
  [OpCreateGeneration op7 generation1 100; OpSetProfile op7 1 1 profile1; OpCreateCampaign op7 campaign1 101;
   OpPrepare op7 1 110] empty_phase_db.

(** The survey under its first lease. *)
Definition survey : JobRow := {|
  j_id := 1; j_repo_id := 7; j_kind := Survey; j_state := Leased; j_incremental := false; j_since_sha := None;
  j_head_sha := Some sha; j_parent_job_id := None; j_target_finding_id := None; j_worker_id := Some 3;
  j_lease_expires_at := Some 500; j_attempts := 1; j_enqueued_at := 110; j_started_at := Some 120;
  j_finished_at := None; j_error := None; j_campaign_id := Some 1; j_generation_id := Some 1;
  j_assigned_lead_id := None; j_continuation_of_job_id := None; j_scheduling_band := Some Normal;
  j_effective_priority := Some 0; j_eligible_at := Some 110; j_soft_deadline_at := None;
  j_hard_deadline_at := Some 1000; j_submit_by := None; j_token_budget := None; j_recipe := Some (lit "{}");
  j_workflow_contract_version := Some 2; j_capability_hash := Some (repeat 1 32) |}.

Definition lead5 : Lead := {|
  le_id := 5; le_generation_id := 1; le_status := LOpen; le_disposition := None; le_defer_reason := None;
  le_retry_condition := None; le_commit_sha := sha; le_promoted_finding_id := None; le_created_by_job_id := Some 1 |}.

Definition worker3 : WorkerRow := {|
  w_id := 3; w_name := lit "w3"; w_kind := KindWorker; w_cert_fingerprint := [3]; w_created_at := 0;
  w_last_seen_at := None; w_revoked_at := None |}.

(** It is leased, its inventory sealed, and it has recorded a lead. *)
Definition lease_survey (db : PhaseDb) : PhaseDb :=
  db <|p_jobs := <[j_id survey := survey]> (p_jobs db)|>
     <|p_manifests := {[1 := {| mf_expected_entry_count := 4; mf_received_entry_count := 4; mf_sealed_at := Some 125 |}]}|>
     <|p_leads := {[5 := lead5]}|> <|p_workers := {[3 := worker3]}|>.
Definition leased : PhaseDb := lease_survey prepared.

Definition priority5 : AcceptedPriority := {| ap_band := BHigh; ap_score := 400 |}.

(** The handoff of the lead to a drilldown is recorded. *)
Definition handed_over : PhaseDb := run_phase [OpEnsureDrilldown 7 5 1 priority5 130] leased.

Definition drilldown (state : JobState) : JobRow :=
  survey <|j_id := 2|> <|j_kind := Drilldown|> <|j_parent_job_id := Some 1|> <|j_assigned_lead_id := Some 5|>
         <|j_scheduling_band := Some BHigh|> <|j_capability_hash := Some (repeat 2 32)|> <|j_state := state|>.

Definition with_job (j : JobRow) (db : PhaseDb) : PhaseDb := db <|p_jobs := <[j_id j := j]> (p_jobs db)|>.

(** A drilldown is leased, charged and admitted for it, and ends with source
    analysis remaining. *)
Definition admitted : PhaseDb :=
  run_phase [OpCharge op7 2 WDrilldown 140; OpAdmit 7 (Intents.SLead 5) 1 2 140] (with_job (drilldown Leased) handed_over).
Definition continued : PhaseDb :=
  run_phase [OpContinue 7 (Intents.SLead 5) 2 SourceAnalysisRemaining 150] (with_job (drilldown Succeeded) admitted).

Lemma prepared_reached : reached empty_phase_db prepared.
Proof. apply reached_run. reflexivity. Qed.

Lemma reached_survey d db :
  PInv d -> reached d db -> jobs_unique (p_jobs (lease_survey db)) = true ->
  match p_jobs db !! j_id survey with Some j0 => same_job j0 survey | None => True end -> reached d (lease_survey db).
Proof. intros HI H Hu Hs. by apply (reached_job d db _ (j_id survey) survey). Qed.

Lemma leased_reached : reached empty_phase_db leased.
Proof.
  apply reached_survey; [apply empty_inv|apply prepared_reached|vm_compute; reflexivity|].
  vm_compute. by split_and!.
Qed.

Lemma handed_over_reached : reached empty_phase_db handed_over.
Proof. apply reached_run, leased_reached. Qed.

Lemma handed_over_inv : PInv handed_over.
Proof. apply (later_inv _ _ _ empty_inv handed_over_reached). Qed.

(** A row written without touching the other tables. *)
Lemma reached_with_job d db j :
  PInv d -> reached d db -> jobs_unique (p_jobs (with_job j db)) = true ->
  match p_jobs db !! j_id j with Some j0 => same_job j0 j | None => True end -> reached d (with_job j db).
Proof.
  intros HI H Hu Hs. by apply (reached_job d db _ (j_id j) j).
Qed.

Lemma admitted_reached : reached handed_over admitted.
Proof.
  apply reached_run, reached_with_job; [apply handed_over_inv|apply rtc_refl|vm_compute; reflexivity|].
  by vm_compute.
Qed.

Lemma continued_reached : reached handed_over continued.
Proof.
  apply reached_run, reached_with_job; [apply handed_over_inv|apply admitted_reached|vm_compute; reflexivity|].
  vm_compute. by split_and!.
Qed.

(** ** Witnesses *)

Lemma campaign_budgets_hold_witness :
  (exists spent, p_spending admitted !! 1 = Some spent /\ spent_on spent PGeneral = 2) /\
  charges_of admitted 1 PGeneral + charges_of admitted 1 PUrgent + charges_of admitted 1 PVerification <=
    v2_campaign_max_jobs campaign_policy_v2_default.
Proof.
  assert (later plain empty_phase_db admitted) as H.
  { unfold later. etrans; [apply handed_over_reached|apply admitted_reached]. }
  split; [eexists; split; vm_compute; reflexivity|].
  destruct (campaign_budgets_hold plain admitted H) as [Hb _].
  destruct (Hb 1 {| sp_general := 2; sp_urgent := 0; sp_verification := 0 |}) as (row & p & Hr & Hp & _ & Hsum).
  { vm_compute. reflexivity. }
  assert (cm_effective_policy <$> p_campaigns admitted !! 1 = Some (PolicyV2 campaign_policy_v2_default)) as E
    by (vm_compute; reflexivity).
  rewrite Hr in E. cbn in E. rewrite Hp in E. injection E as ->. exact Hsum.
Defined.

Lemma handoffs_are_revisioned_witness :
  exists i, p_lead_intents handed_over !! 5 = Some i /\ it_revision i = 1 /\ intent_ok i /\
    ((exists i', p_lead_intents continued !! 5 = Some i' /\ it_revision i' = 2 /\ intent_ok i' /\ intent_evolves i i') \/
     reset_away plain handed_over continued 5 i).
Proof.
  assert (it_revision <$> p_lead_intents handed_over !! 5 = Some 1) as E by (vm_compute; reflexivity).
  assert (it_revision <$> p_lead_intents continued !! 5 = Some 2) as E' by (vm_compute; reflexivity).
  destruct (p_lead_intents handed_over !! 5) as [i|] eqn:Hi; [|discriminate E]. injection E as E.
  destruct (handoffs_are_revisioned plain handed_over continued (Intents.SLead 5) 5 i
              handed_over_reached continued_reached Hi) as (Hok & [(i' & Hi' & Hok' & He)|Hr]);
    exists i; (split_and!; [done..|]); [left|by right].
  change (p_lead_intents continued !! 5 = Some i') in Hi'. rewrite Hi' in E'. injection E' as E'.
  exists i'. by split_and!.
Defined.

Lemma failed_attempts_are_retried_or_ended_witness :
  exists eligible, Lifecycle.retry_or_fail (json_payload plain) 7 1 600 Lifecycle.LeaseExpired leased =
    Ok (Lifecycle.Requeued eligible,
        leased <|p_jobs := <[1 := requeued eligible (Lifecycle.expose Lifecycle.LeaseExpired) survey]> (p_jobs leased)|>
               <|p_prepared := delete 1 (p_prepared leased)|>).
Proof.
  destruct (failed_attempts_are_retried_or_ended plain leased 7 1 survey 600 Lifecycle.LeaseExpired
              leased_reached) as [_ H]; [vm_compute; reflexivity|reflexivity|].
  destruct H as [(eligible & _ & H)|(_ & reason & message & db' & H & _)].
  - split_and!; [reflexivity|vm_compute; reflexivity|eexists; reflexivity|]. intros _. exists 500. split; [reflexivity|lia].
  - exists eligible. exact H.
  - assert (match Lifecycle.retry_or_fail (json_payload plain) 7 1 600 Lifecycle.LeaseExpired leased with
            | Ok (Lifecycle.Requeued _, _) => true | _ => false end = true) as E by (vm_compute; reflexivity).
    rewrite H in E. discriminate E.
Defined.

Lemma queued_work_is_cancelled_witness :
  exists db', Lifecycle.cancel_queued 7 1 200 (lit "stop") prepared = Ok (1, db') /\
    Lifecycle.cancel_queued 7 1 200 (lit "stop") db' = Ok (0, db').
Proof.
  destruct (queued_work_is_cancelled plain prepared 7 1 200 (lit "stop") prepared_reached)
    as (db' & H & _ & _ & _ & _ & H'); [apply is_Some_alt; vm_compute; exact I|].
  replace (sql_count (queued_for 7 1) (p_jobs prepared)) with 1 in H by (vm_compute; reflexivity). eauto.
Defined.

Lemma heartbeats_respect_the_deadline_witness :
  Lifecycle.heartbeat 7 1 400 300 60 leased =
    Ok (700, leased <|p_jobs := <[1 := survey <|j_lease_expires_at := Some 700|>]> (p_jobs leased)|>).
Proof.
  apply (heartbeats_respect_the_deadline plain _ _ _ _ _ _ _ _ leased_reached).
  exists survey, 1000. split_and!; try (vm_compute; reflexivity); try lia; [eexists; reflexivity|].
  exists 500. split; [reflexivity|lia].
Defined.

(** A second generation that succeeds the active one. *)
Definition generation2 : Generations.NewGeneration := {|
  Generations.ng_predecessor_generation_id := Some 1; Generations.ng_commit_sha := sha;
  Generations.ng_workflow_contract_version := 2 |}.

Definition successor : PhaseDb := run_phase
  [OpCreateGeneration op7 generation1 100; OpActivate op7 1 150;
   OpCreateGeneration op7 generation2 160] empty_phase_db.

Lemma activation_succeeds_the_active_generation_witness :
  exists g a, p_generations successor !! 2 = Some g /\ p_generations successor !! 1 = Some a /\
    Generations.activate_raw 7 2 200 successor =
      Ok (tt, successor <|p_generations := <[2 := activated 200 g]>
                (<[1 := Generations.retire_as (lit "superseded") 200 a]> (p_generations successor))|>).
Proof.
  assert ((fun g => (g_repo_id g, g_state g, g_predecessor_generation_id g)) <$> p_generations successor !! 2 =
          Some (7, Building, Some 1)) as E2 by (vm_compute; reflexivity).
  assert ((fun g => (g_repo_id g, g_state g)) <$> p_generations successor !! 1 = Some (7, GActive)) as E1
    by (vm_compute; reflexivity).
  assert (p_manifests successor !! 2 = None) as Em by (vm_compute; reflexivity).
  destruct (p_generations successor !! 2) as [g|] eqn:Hg; [|discriminate E2].
  destruct (p_generations successor !! 1) as [a|] eqn:Ha; [|discriminate E1].
  injection E2 as Er Es Ep. injection E1 as Er1 Es1. exists g, a. split_and!; [done..|].
  destruct (activation_succeeds_the_active_generation plain successor 7 2 g 200) as (_ & _ & _ & H);
    [apply reached_run; reflexivity|done..|].
  rewrite (H Es) with (k := 1) (a := a); [by rewrite decide_True|..|done|done|done].
  intros (m & Hm & _). rewrite Em in Hm. discriminate Hm.
Defined.

(** ** A reset *)

Definition admin9 : WorkerRow := worker3 <|w_id := 9|> <|w_kind := KindAdmin|>.

(** The campaign is cancelled, its jobs are over, and an operator is known. *)
Definition quiet : PhaseDb :=
  run_phase [OpCancelCampaign op7 1 (lit "stop") 160] (with_job (survey <|j_state := Succeeded|>) continued)
    <|p_workers := {[9 := admin9]}|>.

Definition outcome (r : result Error (unit * PhaseDb)) : result Error (option (option Z) * option Intent * option GenerationState * option (option Z)) :=
  match r with
  | Ok (_, db) => Ok (cm_generation_id <$> p_campaigns db !! 1, p_lead_intents db !! 5, g_state <$> p_generations db !! 1,
                      j_assigned_lead_id <$> p_jobs db !! 2)
  | Err e => Err e
  end.

(** A reset takes the campaign's generation and the lead's handoff away and
    leaves a retired row; it is refused while the campaign runs, without an
    operator, and when the summary cannot be answered. *)
Example reset_example :
  outcome (Compatibility.reset (fun _ => Ok tt) 9 1 170 quiet) = Ok (Some None, None, Some Retired, Some None) /\
  outcome (Compatibility.reset (fun _ => Ok tt) 9 1 170 (continued <|p_workers := {[9 := admin9]}|>)) =
    Err (ConflictError CActiveCampaign) /\
  outcome (Compatibility.reset (fun _ => Ok tt) 3 1 170 continued) = Err ScopeDenied /\
  outcome (Compatibility.reset (fun _ => Err ScopeDenied) 9 1 170 quiet) = Err ScopeDenied.
Proof. split_and!; vm_compute; reflexivity. Qed.
