(* ===== verification/CampaignWitnesses.v ===== *)
(** * Runs of the campaign workflow

    A campaign opened on a branch, pinned, past its deadline, cancelled: the
    guarantees of the workflow at databases these runs reach. *)

From S2P Require Import Prelude Sql Domain StateMachine Vocabulary SchedPolicy Store TxLogic Scope Jobs AdmissionPolicy PhaseStore PhaseControl CampaignWork CampaignFlow PhaseLogic PhaseInvariant CampaignInvariant PhaseSystem PhaseTheorems CampaignTheorems CampaignOpening PhaseWitnesses.
From Stdlib Require Import ZArith Lia.
From stdpp Require Import base gmap list strings relations.
Local Open Scope Z_scope.

Definition on_main : Workflow.OpenCampaign := {|
  Workflow.oc_trigger := TManual; Workflow.oc_requested_ref := Workflow.Branch (lit "main");
  Workflow.oc_base_sha := None; Workflow.oc_kind_hint := FollowUp.FullReview |}.

(** The campaign is open on its branch and not pinned yet. *)
Definition opened : PhaseDb := run_phase [OpOpen op7 on_main campaign_policy_v2_default 110] empty_phase_db.

Lemma opened_reached : later plain empty_phase_db opened.
Proof. apply reached_run. reflexivity. Qed.

Abbreviation advance7 now := (Workflow.advance (counts_json plain) (counts_canonical plain) op7 1 now true).

Lemma campaigns_end_settled_witness :
  exists p db', advance7 100000 prepared = Ok (p, db') /\ Workflow.pr_finish p = Some Workflow.DeadlineReached /\
    idle 7 1 db' /\ settled 7 1 db'.
Proof.
  assert (match advance7 100000 prepared with
          | Ok (p, _) => Workflow.pr_finish p = Some Workflow.DeadlineReached | Err _ => False end) as E
    by (vm_compute; reflexivity).
  destruct (advance7 100000 prepared) as [[p db']|] eqn:Hrun; [|destruct E].
  destruct (campaigns_end_settled plain prepared op7 1 100000 true p db' prepared_reached Hrun) as (_ & _ & _ & H).
  rewrite E in H. destruct H as (c & c' & _ & _ & _ & _ & _ & _ & _ & Hi & Hs & _). exists p, db'. by split_and!.
Defined.

Lemma plain_compact : compact (counts_json plain) /\ compact (counts_canonical plain).
Proof.
  assert (forall c, 0 <= groups c) as Hg by (intros c; unfold groups; lia).
  split; intros c; specialize (Hg c); change (2 <= 256 + 200 * groups c); lia.
Qed.


Lemma cancelled_campaigns_stop_witness :
  exists db' c', Workflow.cancel (counts_json plain) (counts_canonical plain) op7 1 (lit "stop") 200 prepared = Ok (tt, db') /\
    p_campaigns db' !! 1 = Some c' /\ cm_state c' = CmCancelled /\ settled 7 1 db'.
Proof.
  assert (match Workflow.cancel (counts_json plain) (counts_canonical plain) op7 1 (lit "stop") 200 prepared with
          | Ok _ => True | Err _ => False end) as E by (vm_compute; exact I).
  destruct (Workflow.cancel _ _ op7 1 (lit "stop") 200 prepared) as [[[] db']|] eqn:Hrun; [|destruct E].
  destruct (cancelled_campaigns_stop plain prepared op7 1 (lit "stop") 200 tt db' prepared_reached Hrun)
    as (c & c' & _ & _ & _ & Hc & Hs & _ & _ & _ & Hset & _).
  exists db', c'. rewrite Hc, lookup_insert_eq. by split_and!.
Defined.

Lemma campaigns_open_once_witness :
  exists db', Workflow.open (counts_json plain) (counts_canonical plain) (recipe_json plain) (checked_payload plain) op7 on_main
                campaign_policy_v2_default 110 empty_phase_db = Ok (Workflow.Created 1 1, db') /\
    p_charges db' = {[1 := {| ch_campaign_id := 1; ch_pool := PGeneral |}]}.
Proof.
  assert (match Workflow.open (counts_json plain) (counts_canonical plain) (recipe_json plain) (checked_payload plain) op7 on_main
                  campaign_policy_v2_default 110 empty_phase_db with
          | Ok (r, _) => r = Workflow.Created 1 1 | Err _ => False end) as E by (vm_compute; reflexivity).
  destruct (Workflow.open _ _ _ _ op7 on_main campaign_policy_v2_default 110 empty_phase_db) as [[r db']|] eqn:Hrun;
    [|destruct E].
  subst r. exists db'. split; [done|].
  destruct (campaigns_open_once plain empty_phase_db op7 on_main campaign_policy_v2_default 110 _ db' (rtc_refl _ _) Hrun)
    as (_ & _ & _ & c & j & H).
  apply H.
Defined.

Lemma pinning_fixes_the_commit_witness :
  exists db', Workflow.pin op7 1 1 sha 120 opened = Ok (1, db') /\
    Workflow.pin op7 1 1 (repeat 98 40) 130 db' = Err (ConflictError CCampaignPinned).
Proof.
  assert (cm_generation_id <$> get_campaign 7 1 opened = Some None) as Ec by (vm_compute; reflexivity).
  destruct (get_campaign 7 1 opened) as [c|] eqn:Hc; [|discriminate Ec]. injection Ec as Ec.
  assert (match Workflow.pin op7 1 1 sha 120 opened with Ok (id, _) => id = 1 | Err _ => False end) as E
    by (vm_compute; reflexivity).
  destruct (Workflow.pin op7 1 1 sha 120 opened) as [[id db']|] eqn:Hrun; [|destruct E]. subst id.
  exists db'. split; [done|].
  destruct (pinning_fixes_the_commit plain opened op7 1 c 1 sha 120 1 db' opened_reached Hc Ec Hrun) as (_ & _ & _ & H).
  rewrite H by reflexivity. reflexivity.
Defined.

Lemma campaigns_keep_their_terms_witness :
  let ended := run_phase [OpAdvance op7 1 100000 true] prepared in
  exists c c', p_campaigns prepared !! 1 = Some c /\ p_campaigns ended !! 1 = Some c' /\ cm_state c' = CmFinished /\
    keeps_terms (reset_between plain prepared ended 1) c c'.
Proof.
  intros ended.
  assert (is_Some (p_campaigns prepared !! 1)) as [c Hc] by (apply is_Some_alt; vm_compute; exact I).
  assert (cm_state <$> p_campaigns ended !! 1 = Some CmFinished) as E by (vm_compute; reflexivity).
  destruct (campaigns_keep_their_terms plain prepared ended 1 c) as [(c' & Hc' & Hs) _];
    [apply prepared_reached|apply rtc_once, steady_op|done|].
  rewrite Hc' in E. injection E as E. exists c, c'. by split_and!.
Defined.
