(* ===== verification/GitCredentials.v ===== *)
(** * The worker's Git credential helper

    [loupe-worker/src/git_credentials.rs]: one Git operation with a personal
    access token.  A session listens on a private socket and hands the token
    to the helper Git runs, for the destination of the operation only; Modules
    [Frame] (the wire format), [Destination] (the comparison), [Session] (both
    ends of the socket), [Projection] (the URL Git would really use) and
    [Operation] (the command lines).

    Text is its UTF-8 encoding: every delimiter is ASCII.  [reqwest::Url::parse]
    is the parameter [url_parse]. *)

From S2P Require Import Prelude JsonString Text.
From Stdlib Require Import ZArith Lia.
From stdpp Require Import base gmap list strings pretty.
Local Open Scope Z_scope.

Abbreviation octets := (list Z).

Definition is_ascii_control (b : Z) : bool := (b <? 32) || (b =? 127).

(** [str::split_once] *)
Fixpoint split_once (p s : octets) : option (octets * octets) :=
  if starts_with p s then Some ([], drop (length p) s)
  else match s with
       | [] => None
       | c :: s' => match split_once p s' with Some (a, b) => Some (c :: a, b) | None => None end
       end.

(** [str::strip_suffix] *)
Definition strip_suffix (p s : octets) : option octets :=
  let n := (length s - length p)%nat in if str_eqb (drop n s) p then Some (take n s) else None.

(** [trim_matches('/')] *)
Fixpoint trim_start (s : octets) : octets :=
  match s with c :: s' => if c =? 47 then trim_start s' else s | [] => [] end.
Definition trim_slashes (s : octets) : octets := reverse (trim_start (reverse (trim_start s))).

Definition contains_any (cs s : octets) : bool := existsb (fun b => bool_decide (b ∈ cs)) s.

Module Frame.

Definition FRAME_LIMIT : Z := 16 * 1024.
Definition QUIT : octets := lit "quit=true" ++ [10; 10].

Record CredentialContext := { protocol : octets; host : octets; path : octets }.

Record Fields := { f_protocol : option octets; f_host : option octets; f_path : option octets }.
Definition no_fields : Fields := {| f_protocol := None; f_host := None; f_path := None |}.

(** [field.replace(value).is_some() || value.is_empty()] *)
Definition refused (field : option octets) (value : octets) : bool := sql_some field || str_eqb value [].

Fixpoint context_lines (lines : list octets) (f : Fields) : option Fields :=
  match lines with
  | [] => Some f
  | line :: lines' =>
      if existsb is_ascii_control line then None
      else match split_once [61] line with
           | None => None
           | Some (key, value) =>
               if str_eqb key [] then None
               else if str_eqb key (lit "protocol") then
                 if refused (f_protocol f) value then None
                 else context_lines lines' {| f_protocol := Some value; f_host := f_host f; f_path := f_path f |}
               else if str_eqb key (lit "host") then
                 if refused (f_host f) value then None
                 else context_lines lines' {| f_protocol := f_protocol f; f_host := Some value; f_path := f_path f |}
               else if str_eqb key (lit "path") then
                 if refused (f_path f) value then None
                 else context_lines lines' {| f_protocol := f_protocol f; f_host := f_host f; f_path := Some value |}
               else context_lines lines' f
           end
  end.

(** [CredentialContext::parse] *)
Definition parse (frame : octets) : option CredentialContext :=
  if FRAME_LIMIT <? Z.of_nat (length frame) then None
  else if negb (valid_utf8 frame) then None
  else
    text ← strip_suffix [10; 10] frame;
    f ← context_lines (split_on 10 text) no_fields;
    p ← f_protocol f; h ← f_host f; w ← f_path f;
    Some {| protocol := p; host := h; path := w |}.

Inductive IoError := TimedOut | UnexpectedEof | InvalidData | InvalidInput | WriteZero | OtherIo.

(** What successive reads of a descriptor return: bytes, of which a read takes
    no more than its buffer has room for, the empty string at the end of the
    stream; or an error, of which the deadline is one. *)
Inductive Arrival := Arrived (chunk : octets) | ReadFailed (e : IoError).

(** [windows(2).position(|p| p == b"\n\n")] *)
Fixpoint blank_line (s : octets) : option nat :=
  match s with
  | a :: (b :: _) as s' => if (a =? 10) && (b =? 10) then Some 0%nat else S <$> blank_line s'
  | _ => None
  end.

(** Git closes the helper's input after one final newline. *)
Definition completed (frame : octets) : octets :=
  (if bool_decide (last frame = Some 10) then frame else frame ++ [10]) ++ [10].

(** [WireBuffer::read] from the bytes read so far. *)
Fixpoint read (git_eof : bool) (frame : octets) (input : list Arrival) : result IoError octets :=
  match input with
  | [] => Err TimedOut
  | ReadFailed e :: _ => Err e
  | Arrived chunk :: input' =>
      match take (Z.to_nat FRAME_LIMIT - length frame) chunk with
      | [] => if git_eof && (0 <? length frame)%nat && (Z.of_nat (length frame) + 2 <=? FRAME_LIMIT)
              then Ok (completed frame) else Err UnexpectedEof
      | count =>
          let frame := frame ++ count in
          match blank_line frame with
          | Some end_ => if (end_ + 2 =? length frame)%nat then Ok frame else Err InvalidData
          | None => if Z.of_nat (length frame) =? FRAME_LIMIT then Err InvalidData else read git_eof frame input'
          end
      end
  end.

(** [write]: the segments the descriptor took, in order, and the result;
    [counts] is how many bytes each write took, at most what it was offered. *)
Fixpoint write (counts : list (result IoError nat)) (bytes : octets) : list octets * result IoError unit :=
  match bytes with
  | [] => ([], Ok tt)
  | _ =>
      match counts with
      | [] => ([], Err TimedOut)
      | Err e :: _ => ([], Err e)
      | Ok n :: counts' =>
          let count := Nat.min n (Nat.min (length bytes) 1024) in
          if (count =? 0)%nat then ([], Err WriteZero)
          else let (segments, r) := write counts' (drop count bytes) in (take count bytes :: segments, r)
      end
  end.

End Frame.

Inductive GitError :=
| InvalidDestination
| DestinationUserinfo
| InvalidPath
| PatRequiresHttps
| HelperUnavailable
| InvalidHelper
| InvalidCredential
| SessionFailed
| InvalidProjection
| ProjectionEscape
| ProjectionUserinfo
| ProjectionAuthority
| Panicked.

Module Destination.

Record Destination := { host : octets; port : Z; path : octets }.

(** What the code reads of a parsed [reqwest::Url]. *)
Record Url := {
  url_string : octets;
  url_host_str : option octets;
  url_port_or_known_default : option Z;
  url_query : option octets;
  url_fragment : option octets;
}.

Definition is_ascii_case_eq (a b : octets) : bool :=
  let lower c := if is_ascii_uppercase c then c + 32 else c in str_eqb (lower <$> a) (lower <$> b).

(** One decoded byte: the control characters and the backslash are refused. *)
Definition path_byte (b : Z) : bool := negb (is_ascii_control b || (b =? 92)).

Fixpoint decoded (raw : octets) : option octets :=
  match raw with
  | [] => Some []
  | b :: rest =>
      if b =? 37 then
        match rest with
        | hi :: lo :: rest' =>
            hi ← to_digit16 hi; lo ← to_digit16 lo;
            let byte := hi * 16 + lo in
            if path_byte byte then cons byte <$> decoded rest' else None
        | _ => None
        end
      else if path_byte b then cons b <$> decoded rest else None
  end.

Definition decode_path (raw : octets) : option octets :=
  bytes ← decoded raw; if valid_utf8 bytes then Some (trim_slashes bytes) else None.

Definition first_part (sep : Z) (s : octets) : octets := default [] (head (split_on sep s)).

Section Url.
Context (url_parse : octets -> option Url).

(** [Destination::parse] *)
Definition parse (raw : octets) : result GitError (octets * option Destination) :=
  if str_eqb raw [] || starts_with [45] raw || existsb is_ascii_control raw || contains_any [92] raw
  then Err InvalidDestination
  else
    let is_http := is_ascii_case_eq (take 7 raw) (lit "http://") in
    let is_https := is_ascii_case_eq (take 8 raw) (lit "https://") in
    if negb is_http && negb is_https then Ok (raw, None)
    else
      parts ← ok_or (split_once (lit "://") raw) InvalidDestination;
      let rest := parts.2 in
      let authority := first_part 47 rest in
      if contains_any [64] authority then Err DestinationUserinfo
      else
        url ← ok_or (url_parse raw) InvalidDestination;
        if sql_some (url_query url) || sql_some (url_fragment url) || sql_null (url_host_str url) then Err InvalidDestination
        else
          path ← ok_or (decode_path (drop (length authority) rest)) InvalidPath;
          if str_eqb path [] || existsb (fun part => bool_decide (part ∈ [lit "."; lit ".."])) (split_on 47 path)
          then Err InvalidPath
          else if is_https then
            match url_host_str url, url_port_or_known_default url with
            | Some host, Some port => Ok (url_string url, Some {| host := host; port := port; path := path |})
            | _, _ => Err Panicked
            end
          else Ok (url_string url, None).

(** [Destination::matches] *)
Definition matches (d : Destination) (frame : octets) : bool :=
  match Frame.parse frame with
  | None => false
  | Some context =>
      if negb (str_eqb (Frame.protocol context) (lit "https")) || contains_any [47; 64; 63; 35; 92] (Frame.host context)
      then false
      else match url_parse (lit "https://" ++ Frame.host context) with
           | None => false
           | Some authority =>
               bool_decide (url_host_str authority = Some (host d)) &&
               bool_decide (url_port_or_known_default authority = Some (port d)) &&
               str_eqb (trim_slashes (Frame.path context)) (path d)
           end
  end.

End Url.

End Destination.

Module Session.

Definition TOKEN_LIMIT : Z := 8 * 1024.
Definition CONNECTION_LIMIT : nat := 16.

Definition GRANT (token : octets) : octets :=
  lit "username=x-access-token" ++ [10] ++ lit "password=" ++ token ++ [10; 10].

(** What the listener meets: a connection with what is read from it, none yet,
    a failure, or the end of the operation. *)
Inductive Event := Connection (input : list Frame.Arrival) | WouldBlock | AcceptFailed | Stopped.

Section Url.
Context (url_parse : octets -> option Destination.Url).

(** The answer to one connection. *)
Definition answer (d : Destination.Destination) (token : octets) (input : list Frame.Arrival) : octets :=
  match Frame.read false [] input with
  | Ok request => if Destination.matches url_parse d request then GRANT token else Frame.QUIT
  | Err _ => Frame.QUIT
  end.

(** The loop of the listener thread: its answers in order. *)
Fixpoint listen (d : Destination.Destination) (token : octets) (connections : nat) (events : list Event) : list octets :=
  if (connections <? CONNECTION_LIMIT)%nat then
    match events with
    | [] => []
    | Connection input :: events' => answer d token input :: listen d token (S connections) events'
    | WouldBlock :: events' => listen d token connections events'
    | AcceptFailed :: _ | Stopped :: _ => []
    end
  else [].

End Url.

(** [run_git_credential_helper]: what is written to Git.  [exchange] is what
    the helper reads back after it sent a request, if it could. *)
Definition helper_result (stdin : list Frame.Arrival) (operation : octets)
    (exchange : octets -> result Frame.IoError (list Frame.Arrival)) : result Frame.IoError octets :=
  request ← Frame.read true [] stdin;
  if bool_decide (operation ∈ [lit "store"; lit "erase"]) then Ok []
  else if str_eqb operation (lit "get") then
    stream ← exchange request;
    Frame.read false [] stream
  else Err Frame.InvalidInput.

Definition run_git_credential_helper (stdin : list Frame.Arrival) (operation : octets)
    (exchange : octets -> result Frame.IoError (list Frame.Arrival)) : octets :=
  match helper_result stdin operation exchange with
  | Ok output => output
  | Err _ => if str_eqb operation (lit "get") then Frame.QUIT else []
  end.

End Session.

Module Projection.

(** [uri_byte] over a text: the bytes after one decoding of escapes, [None]
    where an escape is invalid. *)
Fixpoint uri_bytes (s : octets) : list (option Z) :=
  match s with
  | [] => []
  | b :: rest =>
      if b =? 37 then
        match rest with
        | hi :: lo :: rest' =>
            match to_digit16 hi, to_digit16 lo with
            | Some hi, Some lo => Some (hi * 16 + lo) :: uri_bytes rest'
            | _, _ => [None]
            end
        | _ => [None]
        end
      else Some b :: uri_bytes rest
  end.

(** The loop over the authority: it returns whether a bracket is left open. *)
Fixpoint authority_loop (bytes : list (option Z)) (first bracket_open : bool) : result GitError bool :=
  match bytes with
  | [] => Ok bracket_open
  | None :: _ => Err ProjectionEscape
  | Some byte :: bytes' =>
      if byte =? 64 then Err ProjectionUserinfo
      else if is_ascii_control byte || bool_decide (byte ∈ [47; 92; 63; 35]) then Err ProjectionAuthority
      else if (byte =? 91) && first then authority_loop bytes' false true
      else if (byte =? 93) && bracket_open then authority_loop bytes' false false
      else if (byte =? 91) || (byte =? 93) then Err ProjectionAuthority
      else authority_loop bytes' false bracket_open
  end.

(** The loop over the rest of an SSH URL. *)
Fixpoint ssh_loop (bytes : list (option Z)) (previous : option Z) : result GitError unit :=
  match bytes with
  | [] => Ok tt
  | None :: _ => Err ProjectionEscape
  | Some byte :: bytes' =>
      if is_ascii_control byte then Err ProjectionEscape
      else if bool_decide (previous = Some 64) && (byte =? 91) then Err ProjectionUserinfo
      else ssh_loop bytes' (Some byte)
  end.

Definition scheme_ok (scheme : octets) : bool :=
  match scheme with
  | [] => false
  | b :: rest => is_ascii_alphanumeric b &&
                 forallb (fun b => is_ascii_alphanumeric b || bool_decide (b ∈ [43; 45; 46])) rest
  end.

(** [str::find] of a character *)
Definition find (c : Z) (s : octets) : option nat := fst <$> list_find (fun b => b = c) s.

(** The end of the host in the SCP form. *)
Definition host_end (raw prefix : octets) : result GitError nat :=
  if starts_with [91] raw then
    close ← ok_or (find 93 raw) ProjectionAuthority;
    colon ← ok_or (find 58 (drop (close + 1) raw)) ProjectionAuthority;
    Ok (close + 1 + colon)%nat
  else Ok (length prefix).

(** The SCP and local forms, which Git does not decode. *)
Definition validate_scp (raw : octets) : result GitError unit :=
  match split_once [58] raw with
  | Some (prefix, _) =>
      if negb (contains_any [47] prefix) then
        host_end ← host_end raw prefix;
        if contains_any [64] (take host_end raw) || contains_str [64; 91] raw then Err ProjectionUserinfo else Ok tt
      else Ok tt
  | None => Ok tt
  end.

Definition validate_projection (raw : octets) : result GitError unit :=
  match split_once (lit "://") raw with
  | Some (scheme, rest) =>
      if scheme_ok scheme then
        open_ ← authority_loop (uri_bytes (Destination.first_part 47 rest)) true false;
        if (open_ : bool) then Err ProjectionAuthority
        else if bool_decide (scheme ∈ [lit "ssh"; lit "git+ssh"; lit "ssh+git"]) then ssh_loop (uri_bytes rest) None
        else Ok tt
      else validate_scp raw
  | None => validate_scp raw
  end.

(** The end of [effective_url], on what [git ls-remote --get-url] printed. *)
Definition projected (url_parse : octets -> option Destination.Url) (output : octets) : result GitError octets :=
  raw ← ok_or (if valid_utf8 output then strip_suffix [10; 10] output else None) InvalidProjection;
  _ ← validate_projection raw;
  _ ← Destination.parse url_parse raw;
  Ok raw.

End Projection.

Module Operation.

(** [GitCredentialOperation]: the clean URL, the destination and token of the
    session, and the helper. *)
Record GitCredentialOperation := {
  url : octets;
  session : option (Destination.Destination * octets);
  helper : option octets;
}.

Definition token_ok (token : octets) : bool :=
  negb (str_eqb token [] || (Session.TOKEN_LIMIT <? Z.of_nat (length token)) || existsb is_ascii_control token).

(** [GitCredentialOperation::new]; [started] is whether the socket and its
    thread could be set up. *)
Definition new (url_parse : octets -> option Destination.Url) (raw : octets) (token helper : option octets) (started : bool)
    : result GitError GitCredentialOperation :=
  p ← Destination.parse url_parse raw;
  session ← match token with
            | Some token =>
                destination ← ok_or p.2 PatRequiresHttps;
                helper ← ok_or helper HelperUnavailable;
                if negb (starts_with [47] helper) || negb (valid_utf8 helper) then Err InvalidHelper
                else if negb (token_ok token) then Err InvalidCredential
                else if (started : bool) then Ok (Some (destination, token)) else Err SessionFailed
            | None => Ok None
            end;
  Ok {| url := p.1; session := session; helper := helper |}.

Definition inherited_names : list octets :=
  [lit "PATH"; lit "HOME"; lit "XDG_CONFIG_HOME"; lit "GIT_CONFIG_GLOBAL"; lit "GIT_CONFIG_SYSTEM";
   lit "GIT_CONFIG_NOSYSTEM"; lit "GIT_SSL_CAINFO"; lit "SSL_CERT_FILE"; lit "SSL_CERT_DIR"; lit "SSH_AUTH_SOCK";
   lit "http_proxy"; lit "https_proxy"; lit "no_proxy"; lit "HTTP_PROXY"; lit "HTTPS_PROXY"; lit "NO_PROXY"].

Definition fixed_config : list octets :=
  [lit "credential.helper="; lit "credential.useHttpPath=true"; lit "core.askPass=/bin/false";
   lit "http.followRedirects=false"; lit "trace2.normalTarget=0"; lit "trace2.eventTarget=0"; lit "trace2.perfTarget=0"].

(** Arguments and environment of a child. *)
Record Command := { args : list octets; envs : gmap octets octets }.

Definition config_key (index : nat) : octets := lit "GIT_CONFIG_KEY_" ++ lit (pretty index).
Definition config_value (index : nat) : octets := lit "GIT_CONFIG_VALUE_" ++ lit (pretty index).

Definition url_config (op : GitCredentialOperation) (pinned : option (octets * octets)) : list (octets * octets) :=
  [(lit "http." ++ url op ++ lit ".followRedirects", lit "false");
   (lit "credential." ++ url op ++ lit ".useHttpPath", lit "true")] ++
  match pinned with
  | Some (effective, alias) =>
      [(lit "http." ++ effective ++ lit ".followRedirects", lit "false");
       (lit "credential." ++ effective ++ lit ".useHttpPath", lit "true");
       (lit "url." ++ effective ++ lit ".insteadOf", alias);
       (lit "remote.origin.url", []);
       (lit "remote.origin.url", alias)]
  | None => []
  end.

Fixpoint set_config (index : nat) (config : list (octets * octets)) (env : gmap octets octets) : gmap octets octets :=
  match config with
  | [] => env
  | (key, value) :: config' =>
      set_config (S index) config' (<[config_value index := value]> (<[config_key index := key]> env))
  end.

Definition configure_urls (op : GitCredentialOperation) (pinned : option (octets * octets)) (c : Command) : Command :=
  let config := url_config op pinned in
  {| args := args c;
     envs := set_config 0 config (<[lit "GIT_CONFIG_COUNT" := lit (pretty (length config))]> (envs c)) |}.

Definition command (op : GitCredentialOperation) (environment : gmap octets octets) : Command :=
  let kept := filter (fun nv => nv.1 ∈ inherited_names) environment in
  let env := <[lit "SSH_ASKPASS" := lit "/bin/false"]> (<[lit "GIT_ASKPASS" := lit "/bin/false"]>
               (<[lit "GIT_TERMINAL_PROMPT" := lit "0"]> kept)) in
  configure_urls op None {| args := fixed_config ≫= (fun config => [lit "-c"; config]); envs := env |}.

(** [text.replace(''', "'\''")] between quotes *)
Definition shell_quote (text : octets) : octets :=
  [39] ++ (text ≫= fun b => if b =? 39 then [39; 92; 39; 39] else [b]) ++ [39].

(** [install_helper], with the path of the session's socket. *)
Definition install_helper (op : GitCredentialOperation) (socket : octets) (c : Command) : Command :=
  match session op, helper op with
  | Some _, Some helper =>
      {| args := args c ++ [lit "-c"; lit "credential.helper=!" ++ shell_quote helper ++ lit " git-credential --socket " ++
                                      shell_quote socket];
         envs := envs c |}
  | _, _ => c
  end.

(** [transport_command], with the projected URL and the base name of the
    session's directory, under [/tmp]. *)
Definition transport_command (op : GitCredentialOperation) (environment : gmap octets octets)
    (effective_url : result GitError octets) (directory : octets) : result GitError (Command * octets) :=
  let c := command op environment in
  match session op with
  | None => Ok (c, url op)
  | Some _ =>
      effective ← effective_url;
      let alias := lit "loupe-git://" ++ directory ++ lit "/repository" in
      let socket := lit "/tmp/" ++ directory ++ lit "/credential.sock" in
      Ok (install_helper op socket (configure_urls op (Some (effective, alias)) c), alias)
  end.

End Operation.
