(* ===== verification/GitCredentialTheorems.v ===== *)
(** * What the Git credential helper guarantees

    The token reaches Git only for the destination of the operation, however
    the bytes are cut on their way; frames, quoting and configuration read back
    as they were written. *)

From Stdlib Require Import ZArith Lia.
From stdpp Require Import base gmap list strings pretty.
From S2P Require Import Prelude JsonString Text GitCredentials.
Local Open Scope Z_scope.

(** ** Splitting *)

Lemma split_once_char c s a b : split_once [c] s = Some (a, b) <-> s = a ++ c :: b /\ c ∉ a.
Proof.
  revert a. induction s as [|x s IH]; intros a; cbn.
  { split; [done|]. intros [H _]. by destruct a. }
  destruct (Z.eqb_spec c x) as [->|Hn]; cbn.
  - rewrite drop_0. split; [intros [= <- <-]; split; [done|apply not_elem_of_nil]|].
    intros [H Hc]. destruct a as [|y a]; cbn in H; [by injection H as <-|]. injection H as -> ->. set_solver.
  - destruct (split_once [c] s) as [[a' b']|] eqn:E.
    + split; [intros [= <- <-]|].
      * destruct (proj1 (IH a') eq_refl) as [-> Hc]. split; [done|]. set_solver.
      * intros [H Hc]. destruct a as [|y a]; cbn in H; [congruence|]. injection H as -> ->.
        by assert (Some (a', b') = Some (a, b)) as [= -> ->] by (apply IH; split; [done|set_solver]).
    + split; [done|]. intros [H Hc]. destruct a as [|y a]; cbn in H; [congruence|]. injection H as -> ->.
      by assert (None = Some (a, b)) by (apply IH; split; [done|set_solver]).
Qed.

Lemma split_on_app sep a b : sep ∉ a -> split_on sep (a ++ sep :: b) = a :: split_on sep b.
Proof.
  induction a as [|c a IH]; intros Ha; cbn; [by rewrite Z.eqb_refl|].
  destruct (Z.eqb_spec c sep) as [->|]; [set_solver|]. by rewrite IH by set_solver.
Qed.
Lemma split_on_last sep a : sep ∉ a -> split_on sep a = [a].
Proof.
  induction a as [|c a IH]; intros Ha; cbn; [done|].
  destruct (Z.eqb_spec c sep) as [->|]; [set_solver|]. by rewrite IH by set_solver.
Qed.

(** The text of some lines, each ended. *)
Definition ended_lines (lines : list octets) : octets := lines ≫= fun line => line ++ [10].

Lemma split_on_lines text : ended_lines (split_on 10 text) = text ++ [10].
Proof.
  unfold ended_lines. induction text as [|c text IH]; cbn; [done|].
  destruct (Z.eqb_spec c 10) as [->|]; cbn; [by f_equal|].
  destruct (split_on_cons 10 text) as (part & parts & E). rewrite E in *. cbn in *. by f_equal.
Qed.

Lemma ended_lines_last lines : lines <> [] -> exists text, ended_lines lines = text ++ [10].
Proof.
  intros Hne. destruct (exists_last Hne) as (ls & l & ->). exists (ended_lines ls ++ l).
  unfold ended_lines. rewrite bind_app. cbn. by rewrite app_nil_r, <- app_assoc.
Qed.

Lemma split_on_unique text lines :
  lines <> [] -> Forall (fun line => 10 ∉ line) lines -> text ++ [10] = ended_lines lines -> split_on 10 text = lines.
Proof.
  revert text. induction lines as [|line lines IH]; intros text Hne Hf E; [done|].
  apply Forall_cons in Hf as [Hl Hf]. cbn in E. destruct (decide (lines = [])) as [->|Hls].
  - cbn in E. rewrite app_nil_r in E. apply app_inj_tail in E as [-> _]. by apply split_on_last.
  - destruct (ended_lines_last lines Hls) as [text' E']. fold (ended_lines lines) in E. rewrite E', <- !app_assoc in E.
    cbn in E. rewrite app_comm_cons, app_assoc in E. apply app_inj_tail in E as [-> _].
    rewrite split_on_app by done. by rewrite (IH text').
Qed.

(** ** Frames as lists of attributes *)

Definition attribute : Type := octets * octets.
Definition print_line (a : attribute) : octets := a.1 ++ 61 :: a.2.
Definition print (attributes : list attribute) : octets := ended_lines (print_line <$> attributes) ++ [10].

Definition no_control (s : octets) : Prop := Forall (fun b => is_ascii_control b = false) s.
Definition attribute_ok (a : attribute) : Prop := a.1 <> [] /\ 61 ∉ a.1 /\ no_control a.1 /\ no_control a.2.

(** The values of a key. *)
Definition values (key : octets) (attributes : list attribute) : list octets :=
  snd <$> filter (fun a => a.1 = key) attributes.

Definition collects (key : octets) (old : option octets) (attributes : list attribute) (new : option octets) : Prop :=
  match values key attributes with
  | [] => new = old
  | [v] => old = None /\ v <> [] /\ new = Some v
  | _ => False
  end.

Lemma values_cons key k v attributes :
  values key ((k, v) :: attributes) = if decide (k = key) then v :: values key attributes else values key attributes.
Proof. unfold values. case_decide; [by rewrite filter_cons_True|by rewrite filter_cons_False]. Qed.

Lemma collects_same key old v attributes new :
  collects key old ((key, v) :: attributes) new <-> old = None /\ v <> [] /\ collects key (Some v) attributes new.
Proof.
  unfold collects. rewrite values_cons, decide_True by done.
  destruct (values key attributes) as [|a [|b l]]; [done|..]; split; try done; intros (_ & _ & H); [|done].
  by destruct H as [H _].
Qed.
Lemma collects_other key old k v attributes new :
  k <> key -> collects key old ((k, v) :: attributes) new <-> collects key old attributes new.
Proof. intros H. unfold collects. by rewrite values_cons, decide_False. Qed.

Lemma no_control_existsb s : existsb is_ascii_control s = false <-> no_control s.
Proof.
  unfold no_control. induction s as [|b s IH]; cbn; [split; auto|]. rewrite orb_false_iff, IH, Forall_cons. done.
Qed.

Definition collected (f : Frame.Fields) (attributes : list attribute) (f' : Frame.Fields) : Prop :=
  collects (lit "protocol") (Frame.f_protocol f) attributes (Frame.f_protocol f') /\
  collects (lit "host") (Frame.f_host f) attributes (Frame.f_host f') /\
  collects (lit "path") (Frame.f_path f) attributes (Frame.f_path f').

Lemma context_lines_cons f k v lines :
  attribute_ok (k, v) ->
  Frame.context_lines (print_line (k, v) :: lines) f =
    if str_eqb k (lit "protocol") then
      if Frame.refused (Frame.f_protocol f) v then None
      else Frame.context_lines lines {| Frame.f_protocol := Some v; Frame.f_host := Frame.f_host f; Frame.f_path := Frame.f_path f |}
    else if str_eqb k (lit "host") then
      if Frame.refused (Frame.f_host f) v then None
      else Frame.context_lines lines {| Frame.f_protocol := Frame.f_protocol f; Frame.f_host := Some v; Frame.f_path := Frame.f_path f |}
    else if str_eqb k (lit "path") then
      if Frame.refused (Frame.f_path f) v then None
      else Frame.context_lines lines {| Frame.f_protocol := Frame.f_protocol f; Frame.f_host := Frame.f_host f; Frame.f_path := Some v |}
    else Frame.context_lines lines f.
Proof.
  intros (Hk & Heq & Hck & Hcv). cbn [Frame.context_lines].
  rewrite (proj2 (no_control_existsb (print_line (k, v)))).
  2:{ apply Forall_app. split; [done|]. by apply Forall_cons. }
  rewrite (proj2 (split_once_char 61 (print_line (k, v)) k v)) by done.
  destruct (str_eqb k []) eqn:E; [|done]. by apply str_eqb_eq in E.
Qed.

Lemma refused_false field v : Frame.refused field v = false <-> field = None /\ v <> [].
Proof.
  unfold Frame.refused. rewrite orb_false_iff. unfold str_eqb. rewrite bool_decide_eq_false.
  destruct field; cbn [sql_some]; naive_solver.
Qed.

Lemma line_attribute line k v :
  existsb is_ascii_control line = false -> split_once [61] line = Some (k, v) -> k <> [] ->
  line = print_line (k, v) /\ attribute_ok (k, v).
Proof.
  intros Hc%no_control_existsb [-> Hn]%split_once_char Hk. apply Forall_app in Hc as [? Hc]. apply Forall_cons in Hc as [_ ?].
  done.
Qed.

Lemma lit_names : lit "protocol" <> lit "host" /\ lit "protocol" <> lit "path" /\ lit "host" <> lit "path".
Proof. by split_and!. Qed.

Lemma str_eqb_refl s : str_eqb s s = true.
Proof. by apply str_eqb_eq. Qed.

(** A line with the key of a field. *)
Ltac field_case IH :=
  rewrite collects_same, !collects_other by done;
  match goal with |- context [Frame.refused ?field ?v] =>
    let E := fresh "E" in
    destruct (Frame.refused field v) eqn:E;
    [rewrite <- not_false_iff_true, refused_false in E; naive_solver
    |apply refused_false in E as [-> ?]; rewrite IH by done; unfold collected; cbn; naive_solver]
  end.

(** Reading the lines is collecting the attributes they print. *)
Lemma context_lines_print attributes f f' :
  Forall attribute_ok attributes ->
  Frame.context_lines (print_line <$> attributes) f = Some f' <-> collected f attributes f'.
Proof.
  revert f. induction attributes as [|[k v] attributes IH]; intros f Hf.
  { unfold collected, collects. cbn. destruct f, f'; cbn. naive_solver. }
  apply Forall_cons in Hf as [Hok Hf]. rewrite fmap_cons, context_lines_cons by done. unfold collected.
  destruct lit_names as (N1 & N2 & N3).
  destruct (str_eqb k (lit "protocol")) eqn:E1; [apply str_eqb_eq in E1 as ->; field_case IH|].
  destruct (str_eqb k (lit "host")) eqn:E2; [apply str_eqb_eq in E2 as ->; field_case IH|].
  destruct (str_eqb k (lit "path")) eqn:E3; [apply str_eqb_eq in E3 as ->; field_case IH|].
  rewrite !collects_other by (intros ->; rewrite str_eqb_refl in *; done). by apply IH.
Qed.

Lemma context_lines_attributes lines f f' :
  Frame.context_lines lines f = Some f' ->
  exists attributes, lines = print_line <$> attributes /\ Forall attribute_ok attributes.
Proof.
  revert f. induction lines as [|line lines IH]; intros f H; [by exists []|]. cbn in H.
  destruct (existsb _ line) eqn:Ec; [done|]. destruct (split_once [61] line) as [[k v]|] eqn:Es; [|done].
  destruct (str_eqb k []) eqn:Ek; [done|].
  assert (exists f0, Frame.context_lines lines f0 = Some f') as (f0 & (attributes & -> & Hok)%IH).
  { repeat match type of H with context [if ?b then _ else _] => destruct b end; eauto; done. }
  destruct (line_attribute _ _ _ Ec Es) as [-> Hl]. { intros ->. by rewrite str_eqb_refl in Ek. }
  exists ((k, v) :: attributes). split; [done|]. by constructor.
Qed.

(** The request a frame makes: attributes of which protocol, host and path
    occur once each, with a value. *)
Definition requests (c : Frame.CredentialContext) (attributes : list attribute) : Prop :=
  Forall attribute_ok attributes /\
  values (lit "protocol") attributes = [Frame.protocol c] /\ Frame.protocol c <> [] /\
  values (lit "host") attributes = [Frame.host c] /\ Frame.host c <> [] /\
  values (lit "path") attributes = [Frame.path c] /\ Frame.path c <> [].

Lemma strip_suffix_Some p s t : strip_suffix p s = Some t <-> s = t ++ p.
Proof.
  unfold strip_suffix. destruct (str_eqb _ p) eqn:E.
  - apply str_eqb_eq in E. split.
    + intros [= <-]. rewrite <- (take_drop (length s - length p) s) at 1. by rewrite E.
    + intros ->. f_equal. rewrite length_app, Nat.add_sub. apply take_app_length.
  - split; [done|]. intros ->. rewrite length_app, Nat.add_sub, drop_app_length in E. by rewrite str_eqb_refl in E.
Qed.

Lemma collects_one key attributes v : collects key None attributes (Some v) <-> values key attributes = [v] /\ v <> [].
Proof. unfold collects. destruct (values key attributes) as [|a [|b l]]; naive_solver. Qed.

Lemma print_line_no_newline a : attribute_ok a -> 10 ∉ print_line a.
Proof.
  intros (_ & _ & H1 & H2). unfold print_line. rewrite elem_of_app, elem_of_cons.
  unfold no_control in *. rewrite Forall_forall in *. intros [H|[?|H]]; [by apply H1 in H|done|by apply H2 in H].
Qed.

(** credential requests are parsed exactly.  A frame of Git's credential
    protocol is accepted exactly when it is the printed form, within the size
    limit and well-formed UTF-8, of some attributes with non-empty keys and no
    control character, among which protocol, host and path occur exactly once,
    each with a value; these values are what is read. *)
Theorem credential_requests_are_parsed_exactly frame c :
  Frame.parse frame = Some c <->
  Z.of_nat (length frame) <= Frame.FRAME_LIMIT /\ valid_utf8 frame = true /\
  exists attributes, frame = print attributes /\ requests c attributes.
Proof.
  unfold Frame.parse, requests. destruct (Z.ltb_spec Frame.FRAME_LIMIT (Z.of_nat (length frame))) as [Hlen|Hlen].
  { split; [done|]. lia. }
  destruct (valid_utf8 frame); cbn [negb]; [|naive_solver]. split.
  - intros (text & ->%strip_suffix_Some & H)%bind_Some. apply bind_Some in H as (f & Hf & H).
    destruct (context_lines_attributes _ _ _ Hf) as (attributes & El & Hok).
    rewrite El in Hf. apply context_lines_print in Hf as (H1 & H2 & H3); [|done].
    apply bind_Some in H as (p & Hp & H). apply bind_Some in H as (h & Hh & H). apply bind_Some in H as (w & Hw & [= <-]).
    cbn in *. rewrite Hp, collects_one in H1. rewrite Hh, collects_one in H2. rewrite Hw, collects_one in H3.
    split_and!; [done..|]. exists attributes. split; [|naive_solver].
    unfold print. by rewrite <- El, split_on_lines, <- app_assoc.
  - intros (_ & _ & attributes & -> & Hok & Hp & Np & Hh & Nh & Hw & Nw).
    assert (print_line <$> attributes <> []) as Hne by (by destruct attributes).
    destruct (ended_lines_last _ Hne) as [text E]. unfold print. rewrite E, <- app_assoc. cbn [app].
    rewrite (proj2 (strip_suffix_Some _ _ text)) by done. cbn.
    rewrite (split_on_unique text (print_line <$> attributes)); [|done| |done].
    2:{ apply Forall_fmap. eapply Forall_impl; [done|]. intros a Ha. by apply print_line_no_newline. }
    rewrite (proj2 (context_lines_print attributes Frame.no_fields
      {| Frame.f_protocol := Some (Frame.protocol c); Frame.f_host := Some (Frame.host c); Frame.f_path := Some (Frame.path c) |} Hok)).
    + by destruct c.
    + by split_and!; apply collects_one.
Qed.

(** ** Reading frames *)

Lemma blank_line_bound s n : Frame.blank_line s = Some n -> (n + 2 <= length s)%nat.
Proof.
  revert n. induction s as [|a [|b s] IH]; intros n; try done. cbn [Frame.blank_line]. destruct (_ && _).
  - intros [= <-]. cbn. lia.
  - intros (m & Hm & ->)%fmap_Some. apply IH in Hm. cbn in *. lia.
Qed.

Lemma blank_line_app s t n : Frame.blank_line s = Some n -> Frame.blank_line (s ++ t) = Some n.
Proof.
  revert n. induction s as [|a [|b s] IH]; intros n; try done. cbn [Frame.blank_line app]. destruct (_ && _); [done|].
  intros (m & Hm & ->)%fmap_Some. pose proof (IH _ Hm) as E. cbn [app] in E. change (S <$> Frame.blank_line (b :: s ++ t) = Some (S m)). by rewrite E.
Qed.

(** A frame: its only blank line is at its end. *)
Definition is_frame (s : octets) : Prop := exists n, Frame.blank_line s = Some n /\ (n + 2)%nat = length s.

Lemma frame_prefix s t : is_frame (s ++ t) -> t <> [] -> Frame.blank_line s = None.
Proof.
  intros (n & Hn & Hl) Ht. destruct (Frame.blank_line s) as [m|] eqn:E; [|done].
  pose proof (blank_line_bound _ _ E). apply (blank_line_app _ t) in E. rewrite length_app in Hl.
  destruct t; [done|]. cbn in Hl. assert (m = n) by congruence. lia.
Qed.

(** Bytes that arrive in some pieces, followed by anything. *)
Definition delivers (bytes : octets) (input : list Frame.Arrival) : Prop :=
  exists chunks rest, Forall (fun c => c <> []) chunks /\ concat chunks = bytes /\
    input = (Frame.Arrived <$> chunks) ++ rest.

(** A completed [write] hands over all bytes, in pieces a pipe takes at once. *)
Lemma write_delivers counts bytes segments :
  Frame.write counts bytes = (segments, Ok tt) ->
  delivers bytes (Frame.Arrived <$> segments) /\ Forall (fun s => (length s <= 1024)%nat) segments.
Proof.
  intros H. enough (Forall (fun s => s <> [] /\ (length s <= 1024)%nat) segments /\ concat segments = bytes) as [Hf Hc].
  { apply Forall_and in Hf as [Hf Hl]. split; [|done]. exists segments, []. by rewrite app_nil_r. }
  revert bytes segments H. induction counts as [|[n|e] counts IH]; intros [|b bytes] segments; cbn [Frame.write];
    try (by intros [= <-]); try done.
  set (count := Nat.min n _). destruct (Nat.eqb_spec count 0); [done|].
  destruct (Frame.write counts _) as [segs r] eqn:E. intros [= <- ->]. apply IH in E as [Hf Hc]. split.
  - constructor; [|done]. split; [by destruct count|]. rewrite length_take. lia.
  - cbn [concat]. by rewrite Hc, take_drop.
Qed.

(** What arrived before the first failure or end. *)
Fixpoint arrived (input : list Frame.Arrival) : octets :=
  match input with
  | Frame.Arrived [] :: _ | Frame.ReadFailed _ :: _ | [] => []
  | Frame.Arrived chunk :: input' => chunk ++ arrived input'
  end.

Lemma arrived_delivered chunks rest :
  Forall (fun c => c <> []) chunks -> exists more, arrived ((Frame.Arrived <$> chunks) ++ rest) = concat chunks ++ more.
Proof.
  induction 1 as [|c chunks Hc Hf [more IH]]; cbn; [by exists (arrived rest)|]. exists more.
  destruct c; [done|]. by rewrite IH, <- app_assoc.
Qed.

Lemma limit_room : 8300 <= Frame.FRAME_LIMIT. Proof. done. Qed.
#[local] Opaque Frame.FRAME_LIMIT.

Lemma blank_line_prefix s t : Frame.blank_line (s ++ t) = None -> Frame.blank_line s = None.
Proof. intros H. destruct (Frame.blank_line s) eqn:E; [|done]. apply (blank_line_app _ t) in E. congruence. Qed.

(** One read of bytes that fit. *)
Lemma read_chunk g frame c input :
  c <> [] -> Z.of_nat (length (frame ++ c)) <= Frame.FRAME_LIMIT ->
  Frame.read g frame (Frame.Arrived c :: input) =
    match Frame.blank_line (frame ++ c) with
    | Some n => if (n + 2 =? length (frame ++ c))%nat then Ok (frame ++ c) else Err Frame.InvalidData
    | None => if Z.of_nat (length (frame ++ c)) =? Frame.FRAME_LIMIT then Err Frame.InvalidData
              else Frame.read g (frame ++ c) input
    end.
Proof.
  intros Hc Hl. cbn [Frame.read]. rewrite take_ge by (rewrite length_app in Hl; lia). by destruct c.
Qed.

Lemma read_complete g frame chunks rest :
  Forall (fun c => c <> []) chunks -> chunks <> [] -> is_frame (frame ++ concat chunks) ->
  Z.of_nat (length (frame ++ concat chunks)) <= Frame.FRAME_LIMIT ->
  Frame.read g frame ((Frame.Arrived <$> chunks) ++ rest) = Ok (frame ++ concat chunks).
Proof.
  revert frame. induction chunks as [|c chunks IH]; intros frame Hf Hne Hfr Hl; [done|].
  apply Forall_cons in Hf as [Hc Hf]. rewrite fmap_cons, <- app_comm_cons. cbn [concat] in *.
  rewrite read_chunk; [|done|rewrite !length_app in *; lia]. destruct (decide (chunks = [])) as [->|Hcs].
  - cbn in *. rewrite app_nil_r in *. destruct Hfr as (n & -> & ->). by rewrite Nat.eqb_refl.
  - assert (concat chunks <> []) as Hcc.
    { destruct chunks as [|c2 cs]; [done|]. apply Forall_cons in Hf as [? _]. by destruct c2. }
    rewrite app_assoc in Hfr, Hl. rewrite (frame_prefix _ _ Hfr Hcc).
    destruct (Z.eqb_spec (Z.of_nat (length (frame ++ c))) Frame.FRAME_LIMIT) as [E|_].
    + rewrite length_app, Nat2Z.inj_add in Hl. destruct (concat chunks); [done|]. cbn in Hl. lia.
    + rewrite IH by done. by rewrite <- app_assoc.
Qed.

Lemma read_eof frame chunks rest :
  Forall (fun c => c <> []) chunks -> frame ++ concat chunks <> [] -> Frame.blank_line (frame ++ concat chunks) = None ->
  Z.of_nat (length (frame ++ concat chunks)) + 2 <= Frame.FRAME_LIMIT ->
  Frame.read true frame ((Frame.Arrived <$> chunks) ++ Frame.Arrived [] :: rest) =
    Ok (Frame.completed (frame ++ concat chunks)).
Proof.
  revert frame. induction chunks as [|c chunks IH]; intros frame Hf Hne Hb Hl.
  - cbn [concat] in *. rewrite app_nil_r in *. cbn [fmap list_fmap app Frame.read]. rewrite take_nil.
    rewrite (proj2 (Z.leb_le _ _) Hl). by destruct frame.
  - apply Forall_cons in Hf as [Hc Hf]. rewrite fmap_cons, <- app_comm_cons. cbn [concat] in *. rewrite app_assoc in *.
    rewrite read_chunk; [|done|rewrite !length_app in *; lia]. rewrite (blank_line_prefix _ _ Hb).
    destruct (Z.eqb_spec (Z.of_nat (length (frame ++ c))) Frame.FRAME_LIMIT) as [E|_].
    + rewrite length_app, Nat2Z.inj_add in Hl. lia.
    + by apply IH.
Qed.

Lemma read_sound g frame input s :
  Frame.blank_line frame = None -> Z.of_nat (length frame) < Frame.FRAME_LIMIT -> Frame.read g frame input = Ok s ->
  (is_frame s /\ Z.of_nat (length s) <= Frame.FRAME_LIMIT /\ exists rest, frame ++ arrived input = s ++ rest) \/
  (g = true /\ let all := frame ++ arrived input in
   s = Frame.completed all /\ all <> [] /\ Frame.blank_line all = None /\ Z.of_nat (length all) + 2 <= Frame.FRAME_LIMIT).
Proof.
  revert frame. induction input as [|[chunk|e] input IH]; intros frame Hb Hl H; [done| |done]. cbn [Frame.read] in H.
  destruct (take _ chunk) as [|x l] eqn:Et.
  - assert (chunk = []) as ->.
    { destruct chunk; [done|]. destruct (Z.to_nat Frame.FRAME_LIMIT - length frame)%nat eqn:E; [lia|done]. }
    destruct (_ && _) eqn:E in H; [|done]. bool_prop. injection H as <-. right. cbn [arrived]. rewrite app_nil_r.
    split_and!; try done. by destruct frame.
  - assert (chunk <> []) as Hc by (by intros ->; rewrite take_nil in Et).
    assert (chunk = x :: l ++ drop (Z.to_nat Frame.FRAME_LIMIT - length frame) chunk) as Ec.
    { rewrite app_comm_cons, <- Et. by rewrite take_drop. }
    assert (arrived (Frame.Arrived chunk :: input) = chunk ++ arrived input) as -> by (by destruct chunk).
    pose proof (length_take chunk (Z.to_nat Frame.FRAME_LIMIT - length frame)) as Hlen. rewrite Et in Hlen.
    destruct (Frame.blank_line (frame ++ x :: l)) as [n|] eqn:Eb.
    + destruct (Nat.eqb_spec (n + 2) (length (frame ++ x :: l))) as [En|]; [|done]. injection H as <-. left.
      split; [by exists n|]. split; [rewrite length_app; lia|].
      exists (drop (Z.to_nat Frame.FRAME_LIMIT - length frame) chunk ++ arrived input).
      rewrite <- app_assoc. f_equal. rewrite (app_assoc (x :: l)). f_equal. exact Ec.
    + destruct (Z.eqb_spec (Z.of_nat (length (frame ++ x :: l))) Frame.FRAME_LIMIT) as [|Hn]; [done|].
      assert (chunk = x :: l) as ->. { rewrite <- Et, take_ge; [done|]. rewrite length_app in Hn. lia. }
      apply IH in H; [|done|rewrite length_app in *; lia]. by rewrite <- app_assoc in H.
Qed.

Lemma read_start g input s :
  Frame.read g [] input = Ok s ->
  (is_frame s /\ Z.of_nat (length s) <= Frame.FRAME_LIMIT /\ exists rest, arrived input = s ++ rest) \/
  (g = true /\ s = Frame.completed (arrived input) /\ arrived input <> [] /\ Frame.blank_line (arrived input) = None /\
   Z.of_nat (length (arrived input)) + 2 <= Frame.FRAME_LIMIT).
Proof. intros H. apply read_sound in H; [done|done|]. pose proof limit_room. cbn. lia. Qed.

Lemma blank_line_cons a b s :
  Frame.blank_line (a :: b :: s) = if (a =? 10) && (b =? 10) then Some 0%nat else S <$> Frame.blank_line (b :: s).
Proof. done. Qed.

Lemma blank_line_snoc_None s x :
  Frame.blank_line s = None -> ~ (last s = Some 10 /\ x = 10) -> Frame.blank_line (s ++ [x]) = None.
Proof.
  induction s as [|a [|b s] IH]; intros Hs Hx; [done| |].
  - cbn. destruct (Z.eqb_spec a 10) as [->|]; [|done]. destruct (Z.eqb_spec x 10); [|done]. naive_solver.
  - rewrite <- !app_comm_cons. rewrite blank_line_cons in Hs |- *. destruct (_ && _); [done|]. apply fmap_None in Hs.
    by rewrite app_comm_cons, (IH Hs).
Qed.

Lemma blank_line_ends t : Frame.blank_line (t ++ [10]) = None -> Frame.blank_line (t ++ [10; 10]) = Some (length t).
Proof.
  induction t as [|a [|b t] IH]; intros H; [done| |].
  - cbn in *. destruct (Z.eqb_spec a 10) as [->|]; done.
  - rewrite <- !app_comm_cons in H |- *. rewrite blank_line_cons in H |- *. destruct (_ && _); [done|].
    apply fmap_None in H. rewrite app_comm_cons in H |- *. by rewrite (IH H).
Qed.

Lemma completed_frame s :
  s <> [] -> Frame.blank_line s = None ->
  is_frame (Frame.completed s) /\ (length (Frame.completed s) <= length s + 2)%nat.
Proof.
  intros Hne Hb. unfold Frame.completed. case_bool_decide as Hl.
  - apply last_Some in Hl as [t ->]. rewrite <- app_assoc. cbn [app]. split.
    + exists (length t). split; [by apply blank_line_ends|]. rewrite length_app. done.
    + rewrite !length_app. cbn. lia.
  - rewrite <- app_assoc. cbn [app]. split.
    + exists (length s). split; [|by rewrite length_app]. apply blank_line_ends, blank_line_snoc_None; naive_solver.
    + rewrite length_app. done.
Qed.

Lemma blank_line_one u p : 10 ∉ u -> 10 ∉ p -> Frame.blank_line (u ++ 10 :: p) = None.
Proof.
  assert (forall q, 10 ∉ q -> Frame.blank_line q = None) as H0.
  { induction q as [|a [|b q] IH]; intros Hq; [done..|]. rewrite blank_line_cons.
    destruct (Z.eqb_spec a 10) as [->|]; [set_solver|]. by rewrite andb_false_l, IH by set_solver. }
  intros Hu Hp. induction u as [|a u IH]; cbn [app].
  - destruct p as [|b p]; [done|]. rewrite blank_line_cons. destruct (Z.eqb_spec b 10) as [->|]; [set_solver|].
    rewrite andb_false_r. by rewrite H0.
  - assert (a <> 10) as Ha by set_solver. apply Z.eqb_neq in Ha.
    assert (exists y t, u ++ 10 :: p = y :: t) as (y & t & E) by (destruct u; cbn; eauto).
    rewrite E, blank_line_cons, Ha, andb_false_l, <- E. by rewrite IH by set_solver.
Qed.

Lemma token_no_newline token : Operation.token_ok token = true -> token <> [] /\ 10 ∉ token /\ Z.of_nat (length token) <= 8192.
Proof.
  unfold Operation.token_ok. rewrite negb_true_iff, !orb_false_iff. intros [[Hn Hl] Hc].
  split; [intros ->; by rewrite str_eqb_refl in Hn|]. split; [|apply Z.ltb_ge in Hl; unfold Session.TOKEN_LIMIT in Hl; lia].
  apply no_control_existsb in Hc. intros Hin. unfold no_control in Hc. rewrite Forall_forall in Hc. by apply Hc in Hin.
Qed.

Lemma grant_frame token :
  Operation.token_ok token = true ->
  is_frame (Session.GRANT token) /\ Z.of_nat (length (Session.GRANT token)) <= Frame.FRAME_LIMIT.
Proof.
  intros (Hne & Hn & Hl)%token_no_newline. pose proof limit_room.
  set (body := lit "username=x-access-token" ++ 10 :: lit "password=" ++ token).
  assert (Session.GRANT token = Frame.completed body) as ->.
  { unfold Frame.completed. rewrite bool_decide_false.
    - unfold Session.GRANT, body. by rewrite <- !app_assoc.
    - intros [t E]%last_Some. destruct (exists_last Hne) as (t' & x & Ex). unfold body in E.
      rewrite app_comm_cons, Ex, !app_assoc in E. apply app_inj_tail in E as [_ ->]. rewrite Ex in Hn. set_solver. }
  destruct (completed_frame body) as [Hf Hlen]; [done| |].
  - apply blank_line_one; [by apply (bool_decide_unpack _); vm_compute|]. rewrite elem_of_app. intros [H1|?]; [|done].
    revert H1. by apply (bool_decide_unpack (10 ∉ _)); vm_compute.
  - split; [done|]. assert (length body = (33 + length token)%nat) by (unfold body; rewrite length_app; done). lia.
Qed.

Lemma quit_frame : is_frame Frame.QUIT /\ Z.of_nat (length Frame.QUIT) <= Frame.FRAME_LIMIT.
Proof. pose proof limit_room. split; [by exists 9%nat|]. cbn. lia. Qed.

(** ** The destination *)

Section Url.
Context (url_parse : octets -> option Destination.Url).

(** The destination of a URL: its host and port as the URL parser reads them,
    and its decoded path, which has no relative part. *)
Definition destination_of (raw : octets) (d : Destination.Destination) : Prop :=
  exists scheme rest u, split_once (lit "://") raw = Some (scheme, rest) /\
    64 ∉ Destination.first_part 47 rest /\ url_parse raw = Some u /\
    Destination.url_host_str u = Some (Destination.host d) /\
    Destination.url_port_or_known_default u = Some (Destination.port d) /\
    Destination.decode_path (drop (length (Destination.first_part 47 rest)) rest) = Some (Destination.path d) /\
    Destination.path d <> [] /\ Forall (fun part => part ∉ [lit "."; lit ".."]) (split_on 47 (Destination.path d)).

Lemma contains_any_false cs s : contains_any cs s = false <-> forall c, c ∈ cs -> c ∉ s.
Proof.
  unfold contains_any. induction s as [|b s IH]; cbn; [split; [intros _ c _; apply not_elem_of_nil|done]|].
  rewrite orb_false_iff, IH, bool_decide_eq_false. split.
  - intros [Hb Hs] c Hc [->|?]%elem_of_cons; [done|by apply (Hs c)].
  - intros H. split; [intros Hb; apply (H b Hb); left|]. intros c Hc Hin. apply (H c Hc). by right.
Qed.

Lemma parse_destination raw s d : Destination.parse url_parse raw = Ok (s, Some d) -> destination_of raw d.
Proof.
  unfold Destination.parse. destruct (_ || _); [done|]. destruct (_ && _); [done|].
  intros ([scheme rest] & Hsp%ok_or_Ok & H)%result_bind_Ok. cbn [snd] in H.
  destruct (contains_any [64] _) eqn:Ea; [done|]. apply result_bind_Ok in H as (u & Hu%ok_or_Ok & H).
  destruct (_ || _) in H; [done|]. apply result_bind_Ok in H as (path & Hp%ok_or_Ok & H).
  destruct (str_eqb path [] || _) eqn:Ep; [done|]. destruct (Destination.is_ascii_case_eq _ _) in H; [|done].
  destruct (Destination.url_host_str u) as [h|] eqn:Eh; [|done].
  destruct (Destination.url_port_or_known_default u) as [port|] eqn:Eo; [|done]. injection H as <- <-.
  apply orb_false_iff in Ep as [En Ed]. rewrite contains_any_false in Ea.
  exists scheme, rest, u. cbn. split_and!; try done.
  - apply Ea. left.
  - intros ->. by rewrite str_eqb_refl in En.
  - apply Forall_forall. intros part Hin Hdot. apply not_true_iff_false in Ed. apply Ed, existsb_exists.
    exists part. split; [by apply list_elem_of_In|]. by apply bool_decide_true.
Qed.

(** A request for the destination; its host names nothing but an authority: it
    has none of the delimiters slash, at, question mark, hash and backslash. *)
Definition asks_for (d : Destination.Destination) (request : octets) : Prop :=
  exists c u, Frame.parse request = Some c /\ Frame.protocol c = lit "https" /\
    (forall b, b ∈ [47; 64; 63; 35; 92] -> b ∉ Frame.host c) /\
    url_parse (lit "https://" ++ Frame.host c) = Some u /\
    Destination.url_host_str u = Some (Destination.host d) /\
    Destination.url_port_or_known_default u = Some (Destination.port d) /\
    trim_slashes (Frame.path c) = Destination.path d.

Lemma matches_asks d request : Destination.matches url_parse d request = true -> asks_for d request.
Proof.
  unfold Destination.matches. destruct (Frame.parse request) as [c|] eqn:Ec; [|done].
  destruct (negb _ || _) eqn:Ep; [done|]. destruct (url_parse _) as [u|] eqn:Eu; [|done].
  intros H. apply orb_false_iff in Ep as [Ep Hd]. apply negb_false_iff, str_eqb_eq in Ep. bool_prop.
  exists c, u. split_and!; try done. by apply contains_any_false.
Qed.

(** ** Answers *)

Context (d : Destination.Destination) (token : octets).

Lemma answer_cases input :
  (Session.answer url_parse d token input = Frame.QUIT) \/
  (Session.answer url_parse d token input = Session.GRANT token /\
   exists request rest, arrived input = request ++ rest /\ is_frame request /\
     Destination.matches url_parse d request = true).
Proof.
  unfold Session.answer. destruct (Frame.read false [] input) as [request|] eqn:E; [|by left].
  apply read_start in E as [(Hf & _ & rest & Hr)|[? _]]; [|done].
  destruct (Destination.matches _ d request) eqn:Em; [|by left]. right. split; [done|]. by exists request, rest.
Qed.

Lemma answer_delivered request input :
  request <> [] -> is_frame request -> Z.of_nat (length request) <= Frame.FRAME_LIMIT -> delivers request input ->
  Session.answer url_parse d token input =
    if Destination.matches url_parse d request then Session.GRANT token else Frame.QUIT.
Proof.
  intros Hne Hf Hl (chunks & rest & Hc & <- & ->). unfold Session.answer.
  rewrite read_complete; [done|done| |done..]. by intros ->.
Qed.

(** The connections the listener accepted, and its answers to them. *)
Definition connections (events : list Session.Event) : list (list Frame.Arrival) :=
  omap (fun e => match e with Session.Connection input => Some input | _ => None end) events.

Lemma listen_prefix events n :
  Session.listen url_parse d token n events `prefix_of` (Session.answer url_parse d token <$> connections events) /\
  (n + length (Session.listen url_parse d token n events) <= Nat.max n Session.CONNECTION_LIMIT)%nat.
Proof.
  revert n. induction events as [|[input| | |] events IH]; intros n; cbn [Session.listen];
    (destruct (Nat.ltb_spec n Session.CONNECTION_LIMIT); [|split; [apply prefix_nil|cbn; lia]]);
    try (split; [apply prefix_nil|cbn; lia]).
  - destruct (IH (S n)) as [Hp Hl]. cbn in *. split; [by apply prefix_cons|]. unfold Session.CONNECTION_LIMIT in *. lia.
  - apply IH.
Qed.

End Url.

(** The helper talks to the session of the operation: what it sends arrives
    there, and the answer arrives back, in whatever pieces. *)
Definition connected url_parse (d : Destination.Destination) (token : octets)
    (exchange : octets -> result Frame.IoError (list Frame.Arrival)) : Prop :=
  forall request, exists input stream,
    delivers request input /\ delivers (Session.answer url_parse d token input) stream /\ exchange request = Ok stream.

Lemma new_session url_parse raw token helper started op :
  Operation.new url_parse raw (Some token) helper started = Ok op ->
  exists d, Operation.session op = Some (d, token) /\ destination_of url_parse raw d /\ Operation.token_ok token = true.
Proof.
  unfold Operation.new. intros ([u od] & Hp & H)%result_bind_Ok. apply result_bind_Ok in H as (s & Hs & [= <-]). cbn in *.
  apply result_bind_Ok in Hs as (d & Hd%ok_or_Ok & Hs). subst od.
  apply result_bind_Ok in Hs as (h & _ & Hs). destruct (_ || _) in Hs; [done|].
  destruct (Operation.token_ok token) eqn:Et; [|done]. cbn in Hs. destruct started; [|done]. injection Hs as <-.
  exists d. split_and!; [done|by eapply parse_destination|done].
Qed.

Lemma helper_get url_parse d token stdin exchange :
  Operation.token_ok token = true -> connected url_parse d token exchange ->
  Session.run_git_credential_helper stdin (lit "get") exchange =
    match Frame.read true [] stdin with
    | Ok request => if Destination.matches url_parse d request then Session.GRANT token else Frame.QUIT
    | Err _ => Frame.QUIT
    end.
Proof.
  intros Ht Hx. unfold Session.run_git_credential_helper, Session.helper_result.
  destruct (Frame.read true [] stdin) as [request|e] eqn:Er; [|done]. cbn -[Frame.read].
  assert (is_frame request /\ Z.of_nat (length request) <= Frame.FRAME_LIMIT) as [Hf Hl].
  { apply read_start in Er as [(Hf & Hl & _)|(_ & -> & Hne & Hb & Hl)]; [done|].
    destruct (completed_frame _ Hne Hb) as [Hf Hc]. split; [done|lia]. }
  assert (request <> []) as Hne by (intros ->; by destruct Hf as (n & ? & _)).
  destruct (Hx request) as (input & stream & Hin & (chunks & rest & Hc & Ea & ->) & ->).
  rewrite (answer_delivered _ _ _ request) in Ea by done. cbn -[Frame.read].
  destruct (grant_frame token Ht) as [Gf Gl]. destruct quit_frame as [Qf Ql].
  set (reply := if Destination.matches url_parse d request then _ else _) in *.
  assert (is_frame reply /\ Z.of_nat (length reply) <= Frame.FRAME_LIMIT /\ reply <> []) as (Rf & Rl & Rne).
  { unfold reply. by destruct (Destination.matches _ _ _). }
  rewrite read_complete; rewrite ?Ea; try done. by intros ->.
Qed.

(** C25: credentials reach only their destination.  The session of an operation
    answers at most sixteen connections, and whoever connects is given the
    token only after a complete request for the operation's own destination:
    HTTPS, the host and port that the operation's URL names, and its decoded
    path; every other connection is told to quit.  The helper hands Git exactly
    that answer, however the bytes are cut on the way: the token when Git asks
    for the destination, and the instruction to quit for any other, malformed
    or unfinished request; for any other operation it hands over nothing. *)
Theorem credentials_reach_only_their_destination url_parse raw token helper started op :
  Operation.new url_parse raw (Some token) helper started = Ok op ->
  exists d, Operation.session op = Some (d, token) /\ destination_of url_parse raw d /\
  (forall events, let answers := Session.listen url_parse d token 0 events in
    (length answers <= 16)%nat /\
    forall i answer, answers !! i = Some answer ->
      exists input, connections events !! i = Some input /\
        (answer = Frame.QUIT \/
         answer = Session.GRANT token /\ exists request rest, arrived input = request ++ rest /\ asks_for url_parse d request)) /\
  (forall stdin exchange, connected url_parse d token exchange ->
    let output operation := Session.run_git_credential_helper stdin operation exchange in
    (output (lit "get") = Frame.QUIT \/
     output (lit "get") = Session.GRANT token /\
       exists request, Frame.read true [] stdin = Ok request /\ asks_for url_parse d request) /\
    (forall request, Frame.read true [] stdin = Ok request -> Destination.matches url_parse d request = true ->
       output (lit "get") = Session.GRANT token) /\
    (forall operation, operation <> lit "get" -> output operation = [])).
Proof.
  intros (d & Hs & Hd & Ht)%new_session. exists d. split; [done|]. split; [done|]. split.
  - intros events answers. destruct (listen_prefix url_parse d token events 0) as [[rest Hp] Hl].
    split; [by unfold Session.CONNECTION_LIMIT in Hl|]. intros i answer Hi.
    assert ((Session.answer url_parse d token <$> connections events) !! i = Some answer) as Ha.
    { rewrite Hp. by apply lookup_app_l_Some. }
    apply list_lookup_fmap_Some in Ha as (input & -> & Hin). exists input. split; [done|].
    destruct (answer_cases url_parse d token input) as [->|(-> & request & rest' & E & _ & Hm)]; [by left|right].
    split; [done|]. exists request, rest'. split; [done|]. by apply matches_asks.
  - intros stdin exchange Hx output. unfold output. split_and!.
    + rewrite (helper_get url_parse d token) by done. destruct (Frame.read _ _ _) as [request|]; [|by left].
      destruct (Destination.matches _ _ _) eqn:Em; [right|by left]. split; [done|].
      exists request. split; [done|]. by apply matches_asks.
    + intros request Hr Hm. rewrite (helper_get url_parse d token) by done. by rewrite Hr, Hm.
    + intros operation Ho. unfold Session.run_git_credential_helper, Session.helper_result.
      rewrite (proj2 (bool_decide_eq_false (operation = lit "get")) Ho : str_eqb operation (lit "get") = false).
      destruct (Frame.read true [] stdin); cbn; [|done]. by case_bool_decide.
Qed.

(** ** The helper's command line *)

(** How a POSIX shell splits a line of plain characters, single quotes and
    backslashes into words. *)
Inductive ShellState := Between | Word (w : octets) | Quoted (w : octets) | Escaped (w : octets).

Fixpoint shell_words (st : ShellState) (s : octets) : option (list octets) :=
  match s, st with
  | [], Between => Some []
  | [], Word w => Some [w]
  | [], _ => None
  | b :: s', Quoted w => if b =? 39 then shell_words (Word w) s' else shell_words (Quoted (w ++ [b])) s'
  | b :: s', Escaped w => shell_words (Word (w ++ [b])) s'
  | b :: s', Word w =>
      if b =? 32 then cons w <$> shell_words Between s'
      else if b =? 39 then shell_words (Quoted w) s'
      else if b =? 92 then shell_words (Escaped w) s'
      else shell_words (Word (w ++ [b])) s'
  | b :: s', Between =>
      if b =? 32 then shell_words Between s'
      else if b =? 39 then shell_words (Quoted []) s'
      else if b =? 92 then shell_words (Escaped []) s'
      else shell_words (Word [b]) s'
  end.

Lemma shell_words_quoted text w rest :
  shell_words (Quoted w) ((text ≫= fun b => if b =? 39 then [39; 92; 39; 39] else [b]) ++ 39 :: rest) =
  shell_words (Word (w ++ text)) rest.
Proof.
  revert w. induction text as [|b text IH]; intros w; cbn [mbind list_bind app].
  { cbn. by rewrite app_nil_r. }
  destruct (Z.eqb_spec b 39) as [->|Hb]; rewrite <- app_assoc; cbn [app].
  - cbn [shell_words Z.eqb Pos.eqb]. rewrite IH. by rewrite <- app_assoc.
  - cbn [shell_words]. rewrite (proj2 (Z.eqb_neq b 39) Hb), IH. by rewrite <- app_assoc.
Qed.

Lemma shell_words_quote text rest :
  shell_words Between (Operation.shell_quote text ++ rest) = shell_words (Word text) rest.
Proof.
  unfold Operation.shell_quote. rewrite <- !app_assoc. cbn [app]. rewrite <- (app_nil_l text) at 2.
  rewrite <- shell_words_quoted. done.
Qed.

(** Git's configuration from the environment. *)
Definition configured (config : list (octets * octets)) (env : gmap octets octets) : Prop :=
  env !! lit "GIT_CONFIG_COUNT" = Some (lit (pretty (length config))) /\
  forall i key value, config !! i = Some (key, value) ->
    env !! Operation.config_key i = Some key /\ env !! Operation.config_value i = Some value.

#[export] Instance lit_inj : Inj (=) (=) lit.
Proof.
  intros s t H. unfold lit in H. apply list_fmap_eq_inj in H; [|intros a b Hab; by apply N2Z.inj, (f_equal Ascii.ascii_of_N) in Hab; rewrite !Ascii.ascii_N_embedding in Hab].
  rewrite <- (String.string_of_list_ascii_of_string s), <- (String.string_of_list_ascii_of_string t). by f_equal.
Qed.

Lemma config_key_inj i j : Operation.config_key i = Operation.config_key j -> i = j.
Proof. intros H. by apply app_inv_head, lit_inj, pretty_nat_inj in H. Qed.
Lemma config_value_inj i j : Operation.config_value i = Operation.config_value j -> i = j.
Proof. intros H. by apply app_inv_head, lit_inj, pretty_nat_inj in H. Qed.
Lemma config_key_value i j : Operation.config_key i <> Operation.config_value j.
Proof. done. Qed.
Lemma config_names i : Operation.config_key i <> lit "GIT_CONFIG_COUNT" /\ Operation.config_value i <> lit "GIT_CONFIG_COUNT".
Proof. done. Qed.

(** The names [set_config] may write, and what it leaves there. *)
Lemma set_config_other n config env name :
  (forall i, (n <= i)%nat -> name <> Operation.config_key i /\ name <> Operation.config_value i) ->
  Operation.set_config n config env !! name = env !! name.
Proof.
  revert n env. induction config as [|[k v] config IH]; intros n env H; cbn; [done|].
  rewrite IH by (intros i Hi; apply H; lia). destruct (H n) as [Hk Hv]; [lia|].
  by rewrite !lookup_insert_ne.
Qed.

Lemma set_config_set n config env i k v :
  config !! i = Some (k, v) ->
  Operation.set_config n config env !! Operation.config_key (n + i) = Some k /\
  Operation.set_config n config env !! Operation.config_value (n + i) = Some v.
Proof.
  revert n env i. induction config as [|[k0 v0] config IH]; intros n env i H; [done|]. cbn [Operation.set_config].
  destruct i as [|i]; cbn in H.
  - injection H as -> ->. rewrite Nat.add_0_r. split; rewrite set_config_other.
    + rewrite lookup_insert_ne by (intros E; by apply (config_key_value n n)). by rewrite lookup_insert_eq.
    + intros j Hj. split; [intros E%config_key_inj; lia|apply config_key_value].
    + by rewrite lookup_insert_eq.
    + intros j Hj. split; [intros E; by apply (config_key_value j n)|intros E%config_value_inj; lia].
  - rewrite <- Nat.add_succ_comm. by apply IH.
Qed.

Lemma set_config_names n config env name value :
  Operation.set_config n config env !! name = Some value ->
  env !! name = Some value \/ exists i, name = Operation.config_key i \/ name = Operation.config_value i.
Proof.
  revert n env. induction config as [|[k v] config IH]; intros n env H; cbn in H; [by left|].
  apply IH in H as [H|]; [|by right].
  apply lookup_insert_Some in H as [[<- _]|[_ H]]; [by right; exists n; right|].
  apply lookup_insert_Some in H as [[<- _]|[_ H]]; [by right; exists n; left|]. by left.
Qed.

Lemma configure_urls_configured op pinned c : configured (Operation.url_config op pinned) (Operation.envs (Operation.configure_urls op pinned c)).
Proof.
  cbn [Operation.configure_urls Operation.envs]. split.
  - rewrite set_config_other; [by rewrite lookup_insert_eq|]. intros i _. destruct (config_names i). by split; apply not_eq_sym.
  - intros i k v H. by apply (set_config_set 0).
Qed.

Definition own_names : list octets :=
  [lit "GIT_TERMINAL_PROMPT"; lit "GIT_ASKPASS"; lit "SSH_ASKPASS"; lit "GIT_CONFIG_COUNT"].

(** A name the child's environment may have. *)
Definition clean (environment : gmap octets octets) (name value : octets) : Prop :=
  (name ∈ Operation.inherited_names /\ environment !! name = Some value) \/ name ∈ own_names \/
  exists i, name = Operation.config_key i \/ name = Operation.config_value i.

Lemma configure_urls_clean op pinned environment c :
  map_Forall (clean environment) (Operation.envs c) ->
  map_Forall (clean environment) (Operation.envs (Operation.configure_urls op pinned c)).
Proof.
  intros H name value [Hn|Hi]%set_config_names; [|by right; right].
  apply lookup_insert_Some in Hn as [[<- _]|[_ Hn]]; [right; left|by apply H]. unfold own_names. set_solver.
Qed.

Lemma command_clean op environment : map_Forall (clean environment) (Operation.envs (Operation.command op environment)).
Proof.
  apply configure_urls_clean. intros name value H. cbn [Operation.envs] in H.
  repeat (apply lookup_insert_Some in H as [[<- _]|[_ H]]; [right; left; unfold own_names; set_solver|]).
  apply map_lookup_filter_Some in H as [H Hin]. by left.
Qed.

(** Git runs isolated, with the helper it was given.  The command of a
    transport with a session ends with the helper's configuration, a line that
    a shell reads as exactly four words, the helper and its socket among them,
    whatever characters their paths contain; Git reads back from its
    environment exactly the configuration of the two URLs and the alias; and no
    other variable reaches it than the listed ones of the worker's own
    environment and those set here. *)
Theorem git_runs_with_its_own_configuration op environment effective directory c remote s helper :
  Operation.session op = Some s -> Operation.helper op = Some helper ->
  Operation.transport_command op environment (Ok effective) directory = Ok (c, remote) ->
  remote = lit "loupe-git://" ++ directory ++ lit "/repository" /\
  (exists line, last (Operation.args c) = Some (lit "credential.helper=!" ++ line) /\
     shell_words Between line =
       Some [helper; lit "git-credential"; lit "--socket"; lit "/tmp/" ++ directory ++ lit "/credential.sock"]) /\
  configured (Operation.url_config op (Some (effective, remote))) (Operation.envs c) /\
  map_Forall (clean environment) (Operation.envs c).
Proof.
  intros Hs Hh H. unfold Operation.transport_command in H. rewrite Hs in H. injection H as <- <-.
  unfold Operation.install_helper. rewrite Hs, Hh. cbn [Operation.args Operation.envs]. split_and!; [done| | |].
  - exists (Operation.shell_quote helper ++ lit " git-credential --socket " ++
            Operation.shell_quote (lit "/tmp/" ++ directory ++ lit "/credential.sock")).
    split; [by rewrite last_app|]. rewrite shell_words_quote. generalize (lit "/tmp/" ++ directory ++ lit "/credential.sock").
    intros socket. rewrite <- (app_nil_r (Operation.shell_quote socket)).
    transitivity (cons helper <$> (cons (lit "git-credential") <$> (cons (lit "--socket") <$>
      shell_words Between (Operation.shell_quote socket ++ [])))); [reflexivity|]. by rewrite shell_words_quote.
  - apply configure_urls_configured.
  - apply configure_urls_clean, command_clean.
Qed.

(** ** Projected URLs *)

Definition authority_byte (b : Z) : Prop := b <> 64 /\ is_ascii_control b = false /\ b ∉ [47; 92; 63; 35].
Definition plain (s : octets) : Prop := 91 ∉ s /\ 93 ∉ s.

(** A name, or an address in brackets and what follows it. *)
Definition bracketed (s : octets) : Prop := plain s \/ exists a b, s = 91 :: a ++ 93 :: b /\ plain a /\ plain b.

Section Authority.
Import Projection.

Lemma authority_step b bytes first open :
  authority_byte b ->
  authority_loop (Some b :: bytes) first open =
    if (b =? 91) && first then authority_loop bytes false true
    else if (b =? 93) && open then authority_loop bytes false false
    else if (b =? 91) || (b =? 93) then Err ProjectionAuthority
    else authority_loop bytes false open.
Proof.
  intros (H1 & H2 & H3). cbn [authority_loop]. rewrite (proj2 (Z.eqb_neq _ _) H1), H2, bool_decide_false by done. done.
Qed.

Lemma authority_bytes bytes first open o :
  authority_loop bytes first open = Ok o -> exists s, bytes = Some <$> s /\ Forall authority_byte s.
Proof.
  revert first open. induction bytes as [|[b|] bytes IH]; intros first open H; [by exists []| |done]. cbn [authority_loop] in H.
  destruct (Z.eqb_spec b 64); [done|]. destruct (is_ascii_control b || _) eqn:E; [done|].
  apply orb_false_iff in E as [E1 E2]. apply bool_decide_eq_false in E2.
  assert (exists f p, authority_loop bytes f p = Ok o) as (f & p & (s & -> & Hs)%IH).
  { repeat match type of H with context [if ?c then _ else _] => destruct c end; eauto; done. }
  exists (b :: s). split; [done|]. by constructor.
Qed.

Lemma plain_cons b s : plain (b :: s) <-> b <> 91 /\ b <> 93 /\ plain s.
Proof. unfold plain. rewrite !not_elem_of_cons. naive_solver. Qed.

Ltac authority_cases b :=
  rewrite fmap_cons, authority_step by done; destruct (Z.eqb_spec b 91) as [->|]; [|destruct (Z.eqb_spec b 93) as [->|]]; cbn [andb orb Z.eqb Pos.eqb]; try done.

Lemma authority_closed s o : Forall authority_byte s -> authority_loop (Some <$> s) false false = Ok o <-> plain s /\ o = false.
Proof.
  induction 1 as [|b s Hb Hs IH]; [cbn; unfold plain; naive_solver set_solver|].
  rewrite plain_cons. authority_cases b; rewrite ?IH; naive_solver.
Qed.

Lemma authority_open s :
  Forall authority_byte s ->
  authority_loop (Some <$> s) false true = Ok false <-> exists a b, s = a ++ 93 :: b /\ plain a /\ plain b.
Proof.
  induction 1 as [|b s Hb Hs IH]; [split; [done|]; intros ([|] & ? & ? & _); done|]. authority_cases b.
  - split; [done|]. intros ([|x a] & t & E & Ha & _); [done|]. injection E as <- _. by apply plain_cons in Ha as [? _].
  - rewrite authority_closed by done. split.
    { intros [Hp _]. exists [], s. split; [done|]. split; [split; apply not_elem_of_nil|done]. }
    intros ([|x a] & t & E & Ha & Ht); [by injection E as ->|]. injection E as <- _. by apply plain_cons in Ha as (_ & ? & _).
  - rewrite IH. split.
    + intros (a & t & -> & Ha & Ht). exists (b :: a), t. by rewrite plain_cons.
    + intros ([|x a] & t & E & Ha & Ht); [by injection E as -> _|]. injection E as -> ->. apply plain_cons in Ha as (_ & _ & Ha). eauto.
Qed.

Lemma authority_start s :
  Forall authority_byte s -> authority_loop (Some <$> s) true false = Ok false <-> bracketed s.
Proof.
  unfold bracketed. destruct 1 as [|b s Hb Hs]; [split; [left; split; apply not_elem_of_nil|done]|]. authority_cases b.
  - rewrite authority_open by done. split; [intros (a & t & -> & ? & ?); right; eauto|].
    intros [[? _]%plain_cons|(a & t & [= ->] & ? & ?)]; [done|eauto].
  - split; [done|]. intros [(_ & ? & _)%plain_cons|(a & t & [=] & _)]; done.
  - rewrite authority_closed by done. rewrite plain_cons. naive_solver.
Qed.

Lemma ssh_loop_Ok bytes previous :
  ssh_loop bytes previous = Ok tt <->
  exists s, bytes = Some <$> s /\ no_control s /\ ~ (previous = Some 64 /\ head s = Some 91) /\ contains_str [64; 91] s = false.
Proof.
  revert previous. induction bytes as [|[b|] bytes IH]; intros previous; cbn [ssh_loop].
  - split; [|done]. intros _. exists []. split_and!; try done; [constructor|]. by intros [_ ?].
  - destruct (is_ascii_control b) eqn:Ec.
    { split; [done|]. intros ([|x s] & [=] & Hc & _). subst x. apply Forall_cons in Hc as [Hc _]. congruence. }
    destruct (bool_decide _ && _) eqn:Ep.
    { bool_prop. split; [done|]. intros ([|x s] & [=] & _ & Hn & _). subst. by destruct Hn. }
    rewrite IH. apply andb_false_iff in Ep.
    assert (~ (previous = Some 64 /\ b = 91)) as Hp.
    { intros [-> ->]. destruct Ep as [Ep|Ep]; [by rewrite bool_decide_true in Ep|done]. }
    split.
    + intros (s & -> & Hc & Hn & Hs). exists (b :: s). split_and!; [done|by constructor|cbn; naive_solver|].
      cbn [contains_str]. rewrite Hs, orb_false_r. cbn [starts_with]. destruct (Z.eqb_spec 64 b) as [<-|]; [|done].
      destruct s as [|y s]; [done|]. destruct (Z.eqb_spec 91 y) as [<-|]; [|done]. by destruct Hn.
    + intros ([|x s] & [=] & Hc & Hn & Hs). subst x bytes. apply Forall_cons in Hc as [_ Hc]. exists s.
      cbn [contains_str] in Hs. apply orb_false_iff in Hs as [Hb Hs]. split_and!; try done.
      intros [[= ->] Hh]. destruct s as [|y s]; [done|]. injection Hh as ->. done.
  - split; [done|]. intros ([|x s] & [=] & _).
Qed.

End Authority.

(** The projected URLs the worker follows. *)
Definition without_userinfo (raw : octets) : Prop :=
  let scp :=
    forall prefix path, split_once [58] raw = Some (prefix, path) -> 47 ∉ prefix ->
      exists n, Projection.host_end raw prefix = Ok n /\ 64 ∉ take n raw /\ contains_str [64; 91] raw = false in
  match split_once (lit "://") raw with
  | Some (scheme, rest) =>
      if Projection.scheme_ok scheme then
        (exists authority, Projection.uri_bytes (Destination.first_part 47 rest) = Some <$> authority /\
           Forall authority_byte authority /\ bracketed authority) /\
        (scheme ∈ [lit "ssh"; lit "git+ssh"; lit "ssh+git"] ->
           exists s, Projection.uri_bytes rest = Some <$> s /\ no_control s /\ contains_str [64; 91] s = false)
      else scp
  | None => scp
  end.

Lemma scp_without_userinfo raw :
  Projection.validate_scp raw = Ok tt <->
  forall prefix path, split_once [58] raw = Some (prefix, path) -> 47 ∉ prefix ->
    exists n, Projection.host_end raw prefix = Ok n /\ 64 ∉ take n raw /\ contains_str [64; 91] raw = false.
Proof.
  unfold Projection.validate_scp. destruct (split_once [58] raw) as [[prefix path]|]; [|split; [by intros _ ? ? [=]|done]].
  destruct (contains_any [47] prefix) eqn:Ep; cbn [negb].
  - split; [|done]. intros _ ? ? [= <- <-] Hn. apply not_false_iff_true in Ep. destruct Ep. apply contains_any_false.
    by intros c ->%list_elem_of_singleton.
  - rewrite contains_any_false in Ep. rewrite result_bind_Ok. split.
    + intros (n & Hn & H) ? ? [= <- <-] _. exists n. split; [done|]. destruct (_ || _) eqn:E in H; [done|].
      apply orb_false_iff in E as [E1 E2]. split; [|done]. rewrite contains_any_false in E1. apply E1. left.
    + intros H. destruct (H prefix path eq_refl) as (n & Hn & H64 & Hs); [apply Ep; left|]. exists n. split; [done|].
      rewrite Hs, orb_false_r, (proj2 (contains_any_false _ _)); [done|]. by intros c ->%list_elem_of_singleton.
Qed.

(** projected URLs carry no credentials.  A URL that Git's own rewriting
    produced is accepted exactly when it cannot name a user: of a URL with a
    scheme, the decoded authority has no at sign, control character or
    delimiter and at most one bracketed address, and for SSH nothing that Git
    would take for one later on; of the SCP form, which Git does not decode,
    the host has no at sign either.  An escape that does not decode is
    refused. *)
Theorem projections_carry_no_userinfo raw : Projection.validate_projection raw = Ok tt <-> without_userinfo raw.
Proof.
  unfold Projection.validate_projection, without_userinfo.
  destruct (split_once (lit "://") raw) as [[scheme rest]|]; [|apply scp_without_userinfo].
  destruct (Projection.scheme_ok scheme); [|apply scp_without_userinfo]. rewrite result_bind_Ok. split.
  - intros (open & Ha & H). destruct open; [done|]. split.
    + destruct (authority_bytes _ _ _ _ Ha) as (s & E & Hs). exists s. split_and!; [done..|].
      rewrite E in Ha. by apply authority_start.
    + intros Hin. rewrite bool_decide_true in H by done. apply ssh_loop_Ok in H as (s & ? & ? & _ & ?). by exists s.
  - intros [(s & E & Hs & Hb) Hssh]. exists false. rewrite E. split; [by apply authority_start|].
    case_bool_decide as Hin; [|done]. destruct (Hssh Hin) as (t & ? & ? & ?). apply ssh_loop_Ok. exists t.
    split_and!; try done. by intros [? _].
Qed.

(** ** A run *)

Definition example_url : Destination.Url := {|
  Destination.url_string := lit "https://example.invalid/acme/repo.git";
  Destination.url_host_str := Some (lit "example.invalid"); Destination.url_port_or_known_default := Some 443;
  Destination.url_query := None; Destination.url_fragment := None |}.

(** A parser that knows one host. *)
Definition example_parse (raw : octets) : option Destination.Url :=
  if bool_decide (raw ∈ [lit "https://example.invalid/acme/repo.git"; lit "https://example.invalid"])
  then Some example_url else None.

Definition example_destination : Destination.Destination := {|
  Destination.host := lit "example.invalid"; Destination.port := 443; Destination.path := lit "acme/repo.git" |}.

Definition example_operation : Operation.GitCredentialOperation := {|
  Operation.url := lit "https://example.invalid/acme/repo.git";
  Operation.session := Some (example_destination, lit "token"); Operation.helper := Some (lit "/opt/worker's helper") |}.

Definition example_request : octets :=
  print [(lit "protocol", lit "https"); (lit "host", lit "example.invalid"); (lit "path", lit "acme/repo.git")].

Definition example_exchange (request : octets) : result Frame.IoError (list Frame.Arrival) :=
  Ok [Frame.Arrived (Session.answer example_parse example_destination (lit "token") [Frame.Arrived request])].

#[local] Transparent Frame.FRAME_LIMIT.

Lemma example_new :
  Operation.new example_parse (lit "https://example.invalid/acme/repo.git") (Some (lit "token"))
    (Some (lit "/opt/worker's helper")) true = Ok example_operation.
Proof. vm_compute. reflexivity. Qed.

Lemma example_connected : connected example_parse example_destination (lit "token") example_exchange.
Proof.
  intros request. exists [Frame.Arrived request]. eexists. split; [|split; [|reflexivity]].
  - destruct request as [|b request]; [by exists [], [Frame.Arrived []]|].
    exists [b :: request], []. split_and!; [by repeat constructor|by cbn; rewrite app_nil_r|done].
  - exists [Session.answer example_parse example_destination (lit "token") [Frame.Arrived request]], [].
    split_and!; [|by cbn; rewrite app_nil_r|done]. repeat constructor.
    destruct (answer_cases example_parse example_destination (lit "token") [Frame.Arrived request]) as [->|[-> _]]; done.
Qed.

Lemma credentials_reach_only_their_destination_witness :
  Session.run_git_credential_helper [Frame.Arrived (take 55 example_request); Frame.Arrived []] (lit "get") example_exchange =
    Session.GRANT (lit "token").
Proof.
  destruct (credentials_reach_only_their_destination example_parse _ _ _ _ _ example_new) as (d & Hs & _ & _ & H).
  injection Hs as <-.
  destruct (H [Frame.Arrived (take 55 example_request); Frame.Arrived []] example_exchange example_connected) as (_ & Hg & _).
  apply (Hg example_request); vm_compute; reflexivity.
Defined.

Lemma git_runs_with_its_own_configuration_witness :
  exists c line, Operation.transport_command example_operation ∅ (Ok (lit "https://mirror.invalid/acme/repo.git")) (lit "loupe-git-x") =
      Ok (c, lit "loupe-git://loupe-git-x/repository") /\
    last (Operation.args c) = Some (lit "credential.helper=!" ++ line) /\
    shell_words Between line = Some [lit "/opt/worker's helper"; lit "git-credential"; lit "--socket";
                                     lit "/tmp/loupe-git-x/credential.sock"].
Proof.
  assert (exists c, Operation.transport_command example_operation ∅ (Ok (lit "https://mirror.invalid/acme/repo.git")) (lit "loupe-git-x") =
      Ok (c, lit "loupe-git://loupe-git-x/repository")) as [c Hc] by (eexists; vm_compute; reflexivity).
  destruct (git_runs_with_its_own_configuration example_operation _ _ _ c _ (example_destination, lit "token") (lit "/opt/worker's helper")
              eq_refl eq_refl Hc) as (_ & (line & Hl & Hw) & _).
  exists c, line. by split_and!.
Defined.
